(* ===== verification/_CoqProject ===== *)
-Q . S2P
Prelude.v
Errors.v
Kobject.v
ObjectCore.v
ScomsTable.v
ObjStore.v
Cap.v
Signal.v
Sha256.v
Numa.v
Dlist.v
Pmm.v
PmmApi.v
PmmBoot.v
Prog.v
Elf.v
MinHeap.v
Timer.v
MemContract.v
Isolation.v
Authorize.v
Slub.v
SlubInv.v
SlubOps.v
SlubSpec.v
SlubClient.v
SlubLife.v
RbTree.v
RbSep.v
RbBal.v
RbInsert.v
RbErase.v
VmTree.v
RbWalk.v
RbVm.v
RbDemo.v
VmTypes.v
VmPages.v
Vm.v
VmInv.v
VmSplit.v
VmUnmap.v
VmProtect.v
VmGap.v
VmMap.v
VmLife.v
VmDemo.v
Fault.v
FaultSpec.v
FaultRun.v
Chain.v
Conc.v
PageCache.v
PageCacheInv.v
PageCacheSafe.v
PageCacheRun.v
PageCacheConc.v
Rmap.v
RmapSpec.v
RmapInval.v
