(* ===== verification/Prelude.v ===== *)
(** * ZXFoundation: a verification library for the kernel's core components

    ZXFoundation is a C++ kernel for IBM z (s390x).  This library models the
    parts that carry its own logic and proves what makes them correct.

    ** The program and the files that model it

    - Objects (SCOMS).  Every kernel object has a header with a lifecycle
      state, a reference count and a generation; a metadata core records
      owners and parents; fixed-size tables hand out slots.  [Kobject]
      ([scoms/kobject.zcomponent]), [ObjectCore] ([scoms/metadata.zcomponent]),
      [ScomsTable] and [ObjStore] ([scoms/table.cxxm]): the heap of headers is
      explicit, so aliasing and recycling are visible.
    - Authority (DGP).  [Cap] ([dgp/cap.zcomponent]): capability slots and
      tokens on top of the SCOMS heap.  [MemContract]
      ([dgp/memory_contract.zcomponent]), [Isolation]
      ([dgp/isolation.zcomponent]) and [Authorize]
      ([dgp/authorize.zcomponent], [dgp/sync_contract.zcomponent]): memory
      requests, storage keys, rights, leases, teardown phases.  [Signal]
      ([dgp/signal.zcomponent]): pending signals and their delivery.
    - Memory.  [Numa] ([memory/numa.zcomponent]): the node table.  [Pmm]
      ([memory/pmm.zcomponent]: the buddy allocator over a frame table),
      [PmmApi] (per-CPU cache, placement, transactions, frame pins) and
      [PmmBoot] (boot map, reservations, carving).  [Slub] ([memory/slub.zcomponent]:
      the slab allocator) with [SlubInv] (its invariant), [SlubOps] and
      [SlubSpec] (each operation keeps it), [SlubClient] (clients on several
      CPUs, section by section) and [SlubLife] (creation and destruction of a
      cache).  [Dlist]: the doubly linked lists both allocators thread through
      memory.
    - Red-black trees ([lib/rbtree.cxxm]).  [RbTree] is the code on pointers,
      with parent and colour packed in a word; [RbSep] a separation logic for
      it (Iris over a heap of nodes, with coloured trees, contexts and an
      adequacy theorem), [RbBal] the red-black rules, [RbInsert], [RbErase] and
      [RbWalk] the theorems, [RbVm] the link to the region tree and [RbDemo] an
      example.
    - Virtual memory ([memory/vm.zcomponent]).  [VmTree] (the tree of regions
      with its colours and the descents in it), [VmTypes] (regions, spaces, the calls into other
      subsystems and the monad of the operations), [VmPages] (the page map of a
      region and the program logic) and [Vm] (every operation on a space);
      [VmInv] is the invariant of a space, [VmSplit], [VmUnmap], [VmProtect],
      [VmGap], [VmMap] and [VmLife] are the theorems, [VmDemo] the commit
      budget, merging and an example space.  The operations are programs of
      [Prog]: page tables, memory objects, the reverse map and the page cache
      answer calls arbitrarily.  [Fault] is the page-fault handler
      ([fault.cxx]), [FaultSpec] and [FaultRun] are its theorems; what other
      threads do while the handler waits for a file page is its parameter
      [unlocked].
    - Reverse map ([memory/rmap.zcomponent]).  [Rmap] is the code: nodes of the
      kernel heap on one list per frame, with the calls into page tables and
      frames answered by an environment; [RmapSpec] says which set of mappings
      a state stands for, [RmapInval] does the same for the invalidation of a
      page in every space that maps it.  [Chain]: singly linked chains stored
      in a map of links, used here and by the page cache.
    - Page cache ([memory/page_cache.zcomponent]).  [Conc] is a small logic of
      threads that alternate between critical sections and calls made outside
      the lock, with tokens for what a thread holds; [PageCache] is the code
      as such threads, [PageCacheInv] the invariant of the cache,
      [PageCacheSafe] and [PageCacheRun] the sections and the operations, and
      [PageCacheConc] the clients that run them concurrently.
    - Time.  [MinHeap] ([lib/min_heap.cxxm]) and [Timer]
      ([sys/timer.zcomponent]): per-CPU timer heaps, the clock comparator and
      its interrupt.
    - Programs and images.  [Sha256] ([crypto/sha256.zcomponent]) and [Elf]
      ([fs/exec/elf.zcomponent]); the loader drives subsystems that are not
      modelled, so it is a program of [Prog], a free monad over their calls,
      and its theorems hold for every answer they may give.
    - [Errors] ([lib/error.cxxm]): error values and [std::expected].  This
      file: machine integers, list and map lemmas, automation.

    State is passed explicitly; a critical section under a lock is one step,
    and what the code does between two sections can be interleaved with the
    sections of other threads ([Conc], [SlubClient]).
    Integers are [Z] with the wrap-around of their width written out
    ([u16], [u32], [u64]); a step that traps or dereferences null returns
    [None], and so does a loop that runs out of fuel.

    ** What is proved

    - Objects: allocation and release refine a slot map, generations reject
      stale handles, the count of dependents is exact in every reachable
      state, a held object is never freed, teardown is irreversible.
    - Authority: a token is accepted exactly when it names a live slot of its
      generation, duplication never amplifies rights, revocation is precise
      and complete; storage keys are owned exclusively in every reachable
      state; authorization decides exactly, leases are single-use, revoked
      rights are refused; teardown phases occur in order; the memory contract
      admits exactly the well-formed requests and never a writable and
      executable mapping.
    - Signals: the ring is a bounded FIFO, delivery picks the first
      deliverable signal, draining terminates.
    - Memory: allocation and freeing of blocks keep the free lists and the
      frame table consistent and account for every page, so that a client
      never receives overlapping blocks; boot carving is exact; transactions
      roll back; placement follows the NUMA policy.  The slab allocator never
      hands out an object twice and never traps, whatever its clients write
      into their objects, when caches have two objects per slab or more and
      allocations on one CPU do not interrupt each other; destroying a cache
      leaves no slab.
    - Red-black trees: insertion and erasure restore the red-black rules and
      every parent pointer, change the sequence by exactly the node and take
      logarithmically many steps; walks and searches follow the sequence.
      Erasure has one exception: a node whose right child is its successor and
      has a right child leaves a pointer to the erased node behind
      ([RbErase.rb_erase_stale_parent]).
    - Virtual memory: mapping, unmapping and protecting change the view of an
      address space exactly on the requested range and not at all when they
      fail, keep its regions disjoint and its counters exact, and terminate;
      they die ([syschk_fatal]) only when the environment breaks a promise it
      makes ([VmPages.loud_event]: a reverse-map entry is missing, a pin or a
      cache binding cannot be released, a policy update or a page-table update
      fails after validation).  The gap search finds the highest gap; splitting
      is atomic; destroying a space gives back exactly the page-table
      entries, pins, bindings and descriptors it holds; the commit budget holds.
      The region tree is linked and unlinked the way [RbVm.tree_serves_vm]
      shows the pointer code to do; an erasure in the stale shape ends a run
      ([VmTypes.CStaleErase]).  Mapping, protecting, splitting and destroying
      never get there; unmapping, rekeying and merging may
      ([VmDemo.vm_unmap_meets_stale_erase]), and their theorems speak of the
      runs that do not.
    - Page faults: the handler keeps the invariant, changes only the page of
      the fault or the stack it grows, installs the frame it mapped, and
      accounts for every frame, pin and binding it acquired on every path.
    - Reverse map: the links of a frame are exactly those inserted and not
      removed or rebound, in the order of their insertion, and no node is lost
      or shared; invalidating the other mappings of a frame empties exactly
      their slots.
    - Page cache: however the clients interleave, no operation traps and the
      invariant holds between sections, when frames are pinned as often as
      the cache was told and authority over its own objects can be destroyed.
      [PageCache.acquire_page] retries; the bound [rounds] on its retries is
      arbitrary.  The window in which an evicted page may be read twice is
      exhibited ([PageCacheConc.evict_race_duplicates]).
    - Time: the heap operations preserve heap order and act on a multiset;
      the timer interrupt terminates, fires exactly the expired timers in
      order and re-arms periodic ones without drift.
    - Images: streaming SHA-256 equals the one-shot definition; the loader
      maps exactly the bytes of a segment, leaves no frame, pin, commit
      charge or region behind when it fails, and reads inside the image when
      the bound checks do not wrap.
    - Behaviour at the edges, including defects found while modelling, is
      stated by theorems as well (wrap-around in the ELF bound checks, the
      2^32 chunk of SHA-256, the end of the TOD clock, the per-CPU page cache,
      removal from the middle of the signal ring, slabs of one object,
      overlapping fixed mappings, the bytes lost by merging regions, the
      no-execute bit of IPC pages, the stale parent pointer of an erasure).

    ** Fuel

    Loops whose recursion is not structural take fuel and return [None] when
    it runs out; each has a theorem that a stated amount suffices: the index
    plus one for sifting in the heap, one more than the number of expired
    timers, the number of pages of a region, the number of regions of a space,
    the order range of the buddy allocator, the length of the list walked.
    Slabs are assumed to lie below 8 TiB ([SlubInv.SLUB_PHYS_LIMIT]), so that
    their 32-bit counts are exact.

    ** Not modelled, and the plan

    Shared and extent mappings and the draining of physical ranges of the
    virtual memory engine, the memory objects and the search for a slab from
    an arbitrary address ([kmem_free_raw]); domains, gates, portals
    and IPC, which compose the above; the scheduler; spin locks, RCU and
    memory ordering; page-table and other hardware instructions, traps,
    channel I/O, drivers, the boot loader's C code and formatted output.
    They are planned in that order, as far as they are not hardware or
    output.  Code outside the repository's C++ sources and code of parts not
    modelled enters as parameters: [kmalloc] results, callbacks, clock
    values, the answers of the calls the ELF loader, the virtual memory
    engine and the page-fault handler make. *)

From Stdlib Require Export ZArith Lia ZifyNat.
From stdpp Require Export base tactics numbers list gmap sets option.

Ltac Zify.zify_post_hook ::= Z.div_mod_to_equations.

#[global] Open Scope Z_scope.

(** Notations of the development live in a scope of their own. *)
Declare Scope zx_scope.
Delimit Scope zx_scope with zx.

Create HintDb zx.

(** Keep the integer operations folded under [simpl]. *)
#[global] Arguments Z.div : simpl never.
#[global] Arguments Z.modulo : simpl never.
#[global] Arguments Z.pow : simpl never.
#[global] Arguments Z.mul : simpl never.
#[global] Arguments Z.to_nat : simpl never.
#[global] Arguments Z.of_nat : simpl never.
#[global] Arguments Z.shiftl : simpl never.
#[global] Arguments Z.shiftr : simpl never.
#[global] Arguments Z.land : simpl never.
#[global] Arguments Z.lor : simpl never.
#[global] Arguments Z.lxor : simpl never.
#[global] Arguments Z.testbit : simpl never.

(** ** Machine-width unsigned integers

    A [w]-bit unsigned integer of the C++ code is a [Z] in [[0, 2^w)];
    arithmetic that can leave the range is followed by [wrap w]. *)

Definition wrap (w z : Z) : Z := z mod 2 ^ w.
Definition u8 (z : Z) : Z := wrap 8 z.
Definition u16 (z : Z) : Z := wrap 16 z.
Definition u32 (z : Z) : Z := wrap 32 z.
Definition u64 (z : Z) : Z := wrap 64 z.

Definition fits (w z : Z) : Prop := 0 <= z < 2 ^ w.

(** [~0U] at 32 and 64 bits. *)
Definition U32_MAX : Z := 4294967295.
Definition U64_MAX : Z := 18446744073709551615.

#[global] Instance fits_dec w z : Decision (fits w z).
Proof. unfold fits. apply _. Defined.

Lemma wrap_fits w z : 0 <= w -> fits w (wrap w z).
Proof. intros Hw. unfold fits, wrap. apply Z.mod_pos_bound. lia. Qed.

Lemma wrap_small w z : fits w z -> wrap w z = z.
Proof. apply Z.mod_small. Qed.

Lemma u16_fits z : fits 16 (u16 z).
Proof. apply wrap_fits. lia. Qed.

Lemma u32_fits z : fits 32 (u32 z).
Proof. apply wrap_fits. lia. Qed.

Lemma u64_fits z : fits 64 (u64 z).
Proof. apply wrap_fits. lia. Qed.

Lemma u32_small z : fits 32 z -> u32 z = z.
Proof. apply wrap_small. Qed.

Lemma u64_small z : fits 64 z -> u64 z = z.
Proof. apply wrap_small. Qed.

#[export] Hint Resolve wrap_fits wrap_small u16_fits u32_fits u64_fits
  u32_small u64_small : zx.

(** [unwrap_u]: expose the modular arithmetic of the goal and context to
    [lia], with the powers of two evaluated. *)
Ltac unwrap_u :=
  unfold u8, u16, u32, u64, wrap, fits, U32_MAX, U64_MAX in *;
  change (2 ^ 8) with 256 in *; change (2 ^ 16) with 65536 in *;
  change (2 ^ 32) with 4294967296 in *;
  change (2 ^ 64) with 18446744073709551616 in *.

Ltac solve_u := unwrap_u; lia.

(** ** Bit fields *)

(** A packed field above [k] low bits: [|] is [+] when the bits are disjoint. *)
Lemma lor_shiftl_add a b k :
  0 <= k -> 0 <= b < 2 ^ k -> Z.lor (Z.shiftl a k) b = a * 2 ^ k + b.
Proof.
  intros Hk Hb. pose proof (Z.add_lor_land (Z.shiftl a k) b) as Hadd.
  assert (Hz : Z.land (Z.shiftl a k) b = 0).
  { apply Z.bits_inj'. intros n Hn.
    rewrite Z.land_spec, Z.bits_0.
    destruct (Z.lt_ge_cases n k).
    - rewrite Z.shiftl_spec_low by lia. done.
    - rewrite <- (Z.mod_small b (2 ^ k)) by lia.
      rewrite Z.mod_pow2_bits_high by lia. apply andb_false_r. }
  rewrite Hz, Z.add_0_r in Hadd. rewrite Hadd, Z.shiftl_mul_pow2 by lia. done.
Qed.

Lemma land_ones_mod x k : 0 <= k -> Z.land x (Z.ones k) = x mod 2 ^ k.
Proof. apply Z.land_ones. Qed.

Lemma land_fits w a b : 0 <= w -> fits w a -> 0 <= b -> fits w (Z.land a b).
Proof.
  intros Hw [Ha Ha'] Hb. unfold fits. split.
  - apply Z.land_nonneg. lia.
  - rewrite <- (Z.mod_small a (2 ^ w)) by lia.
    rewrite <- Z.land_ones, <- Z.land_assoc, (Z.land_comm _ b), Z.land_assoc by lia.
    rewrite Z.land_ones by lia. apply Z.mod_pos_bound. lia.
Qed.

Lemma lor_fits w a b : 0 <= w -> fits w a -> fits w b -> fits w (Z.lor a b).
Proof.
  intros Hw Ha Hb. unfold fits in *. split; [apply Z.lor_nonneg; lia|].
  rewrite <- (Z.mod_small a (2 ^ w)), <- (Z.mod_small b (2 ^ w)) by lia.
  rewrite <- !Z.land_ones, <- Z.land_lor_distr_l, Z.land_ones by lia.
  apply Z.mod_pos_bound. lia.
Qed.

(** [1 << k] as a mask selects bit [k]. *)
Lemma land_bit_testbit m k :
  0 <= k -> (Z.land m (Z.shiftl 1 k) =? 0) = negb (Z.testbit m k).
Proof.
  intros Hk. destruct (Z.testbit m k) eqn:Hb; simpl.
  - apply Z.eqb_neq. intros Hz.
    assert (Ht : Z.testbit (Z.land m (Z.shiftl 1 k)) k = true).
    { rewrite Z.land_spec, Hb, Z.shiftl_spec, Z.sub_diag by lia. done. }
    rewrite Hz, Z.bits_0 in Ht. done.
  - apply Z.eqb_eq. apply Z.bits_inj'. intros n Hn.
    rewrite Z.land_spec, Z.bits_0, Z.shiftl_spec by lia.
    destruct (decide (n = k)) as [->|Hne]; [by rewrite Hb|].
    assert (Z.testbit 1 (n - k) = false) as ->; [|apply andb_false_r].
    destruct (Z.lt_ge_cases (n - k) 0); [by apply Z.testbit_neg_r|].
    change 1 with (2 ^ 0). apply Z.pow2_bits_false. lia.
Qed.

(** [u32 m (1 << j)]: setting bit [j] with [|=]. *)
Lemma lor_bit_testbit m j k :
  0 <= j -> 0 <= k ->
  Z.testbit (Z.lor m (Z.shiftl 1 j)) k = Z.testbit m k || bool_decide (j = k).
Proof.
  intros Hj Hk. rewrite Z.lor_spec, Z.shiftl_spec by lia. f_equal.
  case_bool_decide as Hd; [subst; by rewrite Z.sub_diag|].
  destruct (Z.lt_ge_cases (k - j) 0); [by apply Z.testbit_neg_r|].
  change 1 with (2 ^ 0). apply Z.pow2_bits_false. lia.
Qed.

(** [v & ~(2^s - 1)] rounds a 64-bit value down to a multiple of [2^s]. *)
Lemma land_mask_down v s :
  fits 64 v -> 0 <= s <= 64 ->
  Z.land v (Z.lxor U64_MAX (2 ^ s - 1)) = 2 ^ s * (v / 2 ^ s).
Proof.
  intros Hv Hs. change U64_MAX with (Z.ones 64).
  replace (2 ^ s - 1) with (Z.ones s) by (rewrite Z.ones_equiv; lia).
  rewrite Z.mul_comm, <- Z.shiftr_div_pow2, <- Z.shiftl_mul_pow2 by lia.
  apply Z.bits_inj'. intros n Hn. rewrite Z.land_spec, Z.lxor_spec, Z.shiftl_spec by lia.
  destruct (Z.lt_ge_cases n s).
  { rewrite !Z.ones_spec_low, (Z.testbit_neg_r _ (n - s)) by lia. apply andb_false_r. }
  rewrite Z.shiftr_spec, (Z.ones_spec_high s) by lia. replace (n - s + s) with n by lia.
  rewrite xorb_false_r. destruct (Z.lt_ge_cases n 64).
  - rewrite Z.ones_spec_low by lia. apply andb_true_r.
  - unfold fits in Hv. rewrite <- (Z.mod_small v (2 ^ 64)) by done.
    rewrite Z.mod_pow2_bits_high by lia. done.
Qed.

(** [v & ~(PAGE_SIZE - 1)] rounds a 64-bit value down to a page. *)
Lemma land_page_mask v :
  fits 64 v -> Z.land v (U64_MAX - 4095) = 4096 * (v / 4096).
Proof. intros Hv. exact (land_mask_down v 12 Hv ltac:(lia)). Qed.

(** ** Counting loops

    [find_up p i n] is the C++ idiom [for (i; i < i + n; ++i) if (p(i)) return i]. *)

Fixpoint find_up (p : Z -> bool) (i : Z) (n : nat) : option Z :=
  match n with
  | O => None
  | S n' => if p i then Some i else find_up p (i + 1) n'
  end.

Lemma find_up_Some p i n k :
  find_up p i n = Some k <->
  i <= k < i + Z.of_nat n /\ p k = true /\ forall j, i <= j < k -> p j = false.
Proof.
  revert i. induction n as [|n IH]; intros i; simpl; [naive_solver lia|].
  destruct (p i) eqn:Hp.
  - split; [intros [= <-]; split_and!; [lia|lia|done|intros; lia]|].
    intros (Hk & Hpk & Hlt). f_equal.
    destruct (decide (i = k)) as [|Hne]; [done|].
    rewrite (Hlt i) in Hp by lia. done.
  - rewrite IH. split.
    + intros (Hk & Hpk & Hlt). split_and!; [lia|lia|done|].
      intros j Hj. destruct (decide (j = i)) as [->|]; [done|apply Hlt; lia].
    + intros (Hk & Hpk & Hlt).
      destruct (decide (i = k)) as [->|]; [congruence|].
      split_and!; [lia|lia|done|]. intros j Hj. apply Hlt. lia.
Qed.

Lemma find_up_None p i n :
  find_up p i n = None <-> forall j, i <= j < i + Z.of_nat n -> p j = false.
Proof.
  revert i. induction n as [|n IH]; intros i; simpl; [split; [intros; lia|done]|].
  destruct (p i) eqn:Hp.
  - split; [done|]. intros H. rewrite H in Hp by lia. done.
  - rewrite IH. split; intros H j Hj.
    + destruct (decide (j = i)) as [->|]; [done|apply H; lia].
    + apply H. lia.
Qed.

(** [for_up f i n s] runs the loop body [f] at [i, i+1, ..., i+n-1]. *)
Fixpoint for_up {A} (f : Z -> A -> A) (i : Z) (n : nat) (s : A) : A :=
  match n with
  | O => s
  | S n' => for_up f (i + 1) n' (f i s)
  end.

(** Loop rule: an invariant indexed by the loop counter. *)
Lemma for_up_inv {A} (I : Z -> A -> Prop) (f : Z -> A -> A) i n s :
  I i s ->
  (forall j a, i <= j < i + Z.of_nat n -> I j a -> I (j + 1) (f j a)) ->
  I (i + Z.of_nat n) (for_up f i n s).
Proof.
  revert i s. induction n as [|n IH]; intros i s Hi Hstep; simpl.
  - by rewrite Z.add_0_r.
  - replace (i + Z.of_nat (S n)) with ((i + 1) + Z.of_nat n) by lia.
    apply IH; [apply Hstep; [lia|done]|]. intros j a Hj. apply Hstep. lia.
Qed.

(** ** Lists indexed by [Z] (C arrays) *)

Definition nthZ {A} (d : A) (l : list A) (i : Z) : A := nth (Z.to_nat i) l d.
Definition updZ {A} (l : list A) (i : Z) (x : A) : list A := <[Z.to_nat i := x]> l.

Lemma length_updZ {A} (l : list A) i x : length (updZ l i x) = length l.
Proof. apply length_insert. Qed.

Lemma nthZ_updZ_eq {A} (d : A) l i x :
  0 <= i < Z.of_nat (length l) -> nthZ d (updZ l i x) i = x.
Proof.
  intros Hi. unfold nthZ, updZ. apply nth_lookup_Some.
  apply list_lookup_insert_eq. lia.
Qed.

Lemma nthZ_updZ_ne {A} (d : A) l i j x :
  0 <= i -> 0 <= j -> i <> j -> nthZ d (updZ l i x) j = nthZ d l j.
Proof.
  intros Hi Hj Hne. unfold nthZ, updZ. rewrite !nth_lookup.
  rewrite list_lookup_insert_ne by lia. done.
Qed.

Lemma updZ_id {A} (d : A) l i :
  0 <= i < Z.of_nat (length l) -> updZ l i (nthZ d l i) = l.
Proof.
  intros Hi. unfold updZ, nthZ. apply list_insert_id.
  destruct (lookup_lt_is_Some_2 l (Z.to_nat i)) as [x Hx]; [lia|]. rewrite Hx. f_equal.
  symmetry. by apply nth_lookup_Some.
Qed.

#[export] Hint Rewrite @length_updZ : zx.

(** ** Counting the indices below a bound that satisfy a predicate *)

Fixpoint count_below (f : Z -> bool) (n : nat) : Z :=
  match n with
  | O => 0
  | S m => count_below f m + Z.b2z (f (Z.of_nat m))
  end.

Lemma count_below_ext f g n :
  (forall i, 0 <= i < Z.of_nat n -> f i = g i) -> count_below f n = count_below g n.
Proof.
  induction n as [|n IH]; intros Hfg; simpl; [done|].
  rewrite IH, Hfg by (try intros; try apply Hfg; lia). done.
Qed.

Lemma count_below_range f n : 0 <= count_below f n <= Z.of_nat n.
Proof.
  induction n as [|n IH]; simpl; [lia|].
  destruct (f (Z.of_nat n)); simpl; lia.
Qed.

Lemma count_below_upd f g n k :
  0 <= k < Z.of_nat n ->
  (forall i, 0 <= i < Z.of_nat n -> i <> k -> f i = g i) ->
  count_below g n = count_below f n + Z.b2z (g k) - Z.b2z (f k).
Proof.
  induction n as [|n IH]; intros Hk Hfg; [lia|]. simpl.
  destruct (decide (k = Z.of_nat n)) as [->|Hne].
  - rewrite (count_below_ext f g) by (intros; apply Hfg; lia). lia.
  - rewrite IH, (Hfg (Z.of_nat n)) by (try intros; try apply Hfg; lia). lia.
Qed.

Lemma count_below_zero f n :
  count_below f n = 0 <-> forall i, 0 <= i < Z.of_nat n -> f i = false.
Proof.
  induction n as [|n IH]; simpl; [split; [intros; lia|done]|].
  pose proof (count_below_range f n). split.
  - intros Hz i Hi. assert (count_below f n = 0 /\ Z.b2z (f (Z.of_nat n)) = 0) as [H1 H2].
    { destruct (f (Z.of_nat n)); simpl in *; lia. }
    destruct (decide (i = Z.of_nat n)) as [->|]; [by destruct (f (Z.of_nat n))|].
    apply IH; [done|lia].
  - intros Hf. rewrite (proj2 IH), Hf by (intros; try apply Hf; lia). done.
Qed.

Lemma count_below_pos f n k :
  0 <= k < Z.of_nat n -> f k = true -> 0 < count_below f n.
Proof.
  intros Hk Hf. pose proof (count_below_range f n).
  destruct (decide (count_below f n = 0)) as [Hz|]; [|lia].
  rewrite (proj1 (count_below_zero f n) Hz) in Hf by done. done.
Qed.

Lemma count_below_exists f n :
  count_below f n <> 0 -> exists i, 0 <= i < Z.of_nat n /\ f i = true.
Proof.
  induction n as [|n IH]; simpl; [done|]. intros Hc.
  destruct (f (Z.of_nat n)) eqn:Hf; [exists (Z.of_nat n); split; [lia|done]|].
  destruct IH as (i & Hi & Hfi); [simpl in Hc; lia|]. exists i. split; [lia|done].
Qed.

Lemma count_below_mono f g n :
  (forall i, 0 <= i < Z.of_nat n -> f i = true -> g i = true) ->
  count_below f n <= count_below g n.
Proof.
  induction n as [|n IH]; intros Hfg; simpl; [lia|].
  specialize (IH ltac:(intros; apply Hfg; [lia|done])).
  specialize (Hfg (Z.of_nat n) ltac:(lia)).
  destruct (f (Z.of_nat n)); [rewrite Hfg by done; simpl; lia|].
  destruct (g (Z.of_nat n)); simpl; lia.
Qed.
