(* ===== verification/Errors.v ===== *)
(** * Kernel error values (src/lib/error.cxxm)

    [kernel_error] with its category discriminator and the factory functions
    the modelled components use, and [expected], the model of
    [std::expected<T, lib::kernel_error>].  [trap]s ([__builtin_trap]) are not
    errors: an operation that can trap returns an [option], [None] being the
    trap. *)

From S2P Require Import Prelude.

Inductive error_category :=
  | cat_none | cat_arch | cat_memory | cat_locking | cat_crypto
  | cat_driver | cat_init | cat_time | cat_generic | cat_machine.

#[global] Instance error_category_eq_dec : EqDecision error_category.
Proof. solve_decision. Defined.

Record kernel_error := KernelError {
  category : error_category;
  code : Z
}.

#[global] Instance kernel_error_eq_dec : EqDecision kernel_error.
Proof. solve_decision. Defined.

Inductive memory_error :=
  | mem_out_of_memory | mem_invalid_address | mem_alignment_error
  | mem_region_overlap | mem_hhdm_init_failed | mem_page_fault
  | mem_invalid_irq_contex | mem_transaction_aborted | mem_capability_invalid
  | mem_purpose_mismatch | mem_zone_exhausted | mem_ssp_check_fail.

Definition memory_error_code (c : memory_error) : Z :=
  match c with
  | mem_out_of_memory => 1 | mem_invalid_address => 2
  | mem_alignment_error => 3 | mem_region_overlap => 4
  | mem_hhdm_init_failed => 5 | mem_page_fault => 6
  | mem_invalid_irq_contex => 7 | mem_transaction_aborted => 8
  | mem_capability_invalid => 9 | mem_purpose_mismatch => 10
  | mem_zone_exhausted => 11 | mem_ssp_check_fail => 13
  end.

Inductive locking_error :=
  | lock_timeout | lock_deadlock_detected | lock_already_locked
  | lock_not_locked | lock_max_depth_exceeded.

Definition locking_error_code (c : locking_error) : Z :=
  match c with
  | lock_timeout => 1 | lock_deadlock_detected => 2
  | lock_already_locked => 3 | lock_not_locked => 4
  | lock_max_depth_exceeded => 5
  end.

Inductive crypto_error := crypto_invalid_input | crypto_hash_mismatch
  | crypto_verification_failed.

Definition crypto_error_code (c : crypto_error) : Z :=
  match c with
  | crypto_invalid_input => 1 | crypto_hash_mismatch => 2
  | crypto_verification_failed => 3
  end.

Inductive generic_error :=
  | invalid_arg | not_supported | not_implemented | internal_error
  | not_found | unknown | out_of_range | uninitialized | stall.

Definition generic_error_code (c : generic_error) : Z :=
  match c with
  | invalid_arg => 1 | not_supported => 2 | not_implemented => 3
  | internal_error => 4 | not_found => 5 | unknown => 6
  | out_of_range => 7 | uninitialized => 8 | stall => 9
  end.

Inductive driver_error := drv_not_found | drv_not_ready | drv_io_error | drv_timeout | drv_busy.

Definition driver_error_code (c : driver_error) : Z :=
  match c with
  | drv_not_found => 1 | drv_not_ready => 2 | drv_io_error => 3 | drv_timeout => 4
  | drv_busy => 5
  end.

Definition from_memory (c : memory_error) : kernel_error :=
  KernelError cat_memory (memory_error_code c).
Definition from_locking (c : locking_error) : kernel_error :=
  KernelError cat_locking (locking_error_code c).
Definition from_crypto (c : crypto_error) : kernel_error :=
  KernelError cat_crypto (crypto_error_code c).
Definition from_generic (c : generic_error) : kernel_error :=
  KernelError cat_generic (generic_error_code c).
Definition from_driver (c : driver_error) : kernel_error :=
  KernelError cat_driver (driver_error_code c).

(** [std::expected<A, kernel_error>]. *)
Inductive expected (A : Type) :=
  | Expected (a : A)
  | Unexpected (e : kernel_error).
Arguments Expected {A} a.
Arguments Unexpected {A} e.

#[global] Instance expected_eq_dec `{EqDecision A} : EqDecision (expected A).
Proof. solve_decision. Defined.

#[global] Instance expected_ret : MRet expected := @Expected.
#[global] Instance expected_bind : MBind expected := fun _ _ f x =>
  match x with Expected a => f a | Unexpected e => Unexpected e end.

Definition has_value {A} (x : expected A) : bool :=
  match x with Expected _ => true | Unexpected _ => false end.

(** The factories never confuse two error sources: equal errors come from
    equal codes. *)
Lemma from_generic_inj c d : from_generic c = from_generic d -> c = d.
Proof. destruct c, d; done. Qed.

Lemma from_memory_inj c d : from_memory c = from_memory d -> c = d.
Proof. destruct c, d; done. Qed.
