(* ===== verification/Kobject.v ===== *)
(** * Kernel object headers
    (src/zxfoundation/scoms/kobject.zcomponent/{types,base}.cxxm, base.cxx and
    src/zxfoundation/base/typestate.cxxm)

    The 24-byte object header [bobject]: identity, type tag, lifecycle state,
    saturating reference count and generation.  The spin lock word of the
    header is not modelled (operations are sequences of atomic steps).
    Lifecycle transitions are checked against the graph of
    [bobject::transition]; [lifecycle_step] is that graph as a relation. *)

From S2P Require Import Prelude Errors.

(** Object addresses ([bobject*]); a possibly null pointer is an [option]. *)
Definition addr := positive.
Bind Scope positive_scope with addr.

(** [lifecycle_state], typestate.cxxm. *)
Inductive lifecycle_state :=
  | embryo | sealed | active | suspended | dying | destroyed.

#[global] Instance lifecycle_state_eq_dec : EqDecision lifecycle_state.
Proof. solve_decision. Defined.

Inductive kobject_type :=
  | kt_none | kt_domain | kt_gate | kt_portal | kt_vm_region | kt_io_binding
  | kt_capability | kt_strand | kt_irq_desc | kt_memory_resource
  | kt_memory_extent | kt_memory_folio | kt_page | kt_storage | kt_grant
  | kt_mapping | kt_address_space | kt_page_table | kt_key | kt_endpoint
  | kt_message | kt_kmem_cache | kt_policy_server | kt_service_entry
  | kt_device_binding | kt_dataset_extent.

#[global] Instance kobject_type_eq_dec : EqDecision kobject_type.
Proof. solve_decision. Defined.

Definition KOBJECT_ID_INVALID : Z := U32_MAX.

(** ** [kref] *)

(** The saturation bound: [try_get] traps at this count. *)
Definition KREF_MAX : Z := 2147483646.

(** [kref::try_get] with its compare-exchange succeeding: refuses a zero
    count, traps when the count is saturated. *)
Definition kref_try_get (count : Z) : option (bool * Z) :=
  if count =? 0 then Some (false, count)
  else if KREF_MAX <=? count then None
  else Some (true, count + 1).

(** [kref::put]: [fetch_sub], trap on underflow, [true] on the last reference. *)
Definition kref_put (count : Z) : option (bool * Z) :=
  if count =? 0 then None else Some (count =? 1, u32 (count - 1)).

(** ** [bobject] *)

Record bobject := Bobject {
  id : Z;
  type : kobject_type;
  state : lifecycle_state;
  ref : Z;
  generation : Z;
  object_flags : Z
}.

#[global] Instance bobject_eq_dec : EqDecision bobject.
Proof. solve_decision. Defined.

Definition with_state (o : bobject) (s : lifecycle_state) : bobject :=
  Bobject (id o) (type o) s (ref o) (generation o) (object_flags o).
Definition with_ref (o : bobject) (r : Z) : bobject :=
  Bobject (id o) (type o) (state o) r (generation o) (object_flags o).
Definition with_flags (o : bobject) (f : Z) : bobject :=
  Bobject (id o) (type o) (state o) (ref o) (generation o) f.
Definition with_id (o : bobject) (i : Z) : bobject :=
  Bobject i (type o) (state o) (ref o) (generation o) (object_flags o).
Definition with_generation (o : bobject) (g : Z) : bobject :=
  Bobject (id o) (type o) (state o) (ref o) g (object_flags o).

(** A default-constructed header ([bobject{}]). *)
Definition bobject_default : bobject :=
  Bobject KOBJECT_ID_INVALID kt_none embryo 1 0 0.

(** The guard of [bobject::transition]: may [from] move to [target]? *)
Definition transition_allowed (from target : lifecycle_state) : bool :=
  match target with
  | embryo => bool_decide (from = destroyed)
  | sealed => bool_decide (from = embryo)
  | active => bool_decide (from = embryo) || bool_decide (from = sealed)
              || bool_decide (from = suspended)
  | suspended => bool_decide (from = active)
  | dying => bool_decide (from = embryo) || bool_decide (from = active)
             || bool_decide (from = suspended)
  | destroyed => bool_decide (from = dying)
  end.

Definition transition (o : bobject) (target : lifecycle_state) : bool * bobject :=
  if transition_allowed (state o) target then (true, with_state o target)
  else (false, o).

(** [bobject::initialize]: everything but the generation is reset. *)
Definition initialize (o : bobject) (object_id : Z) (t : kobject_type) : bobject :=
  Bobject object_id t embryo 1 (generation o) 0.

(** ** The lifecycle as a transition system *)

(** One successful [transition] of an object's state. *)
Inductive lifecycle_step : lifecycle_state -> lifecycle_state -> Prop :=
  | step_transition o o' target :
      transition o target = (true, o') -> lifecycle_step (state o) (state o').

Definition lifecycle_reaches := rtc lifecycle_step.

(** An object that is live accepts operations or can come to. *)
Definition live_state (s : lifecycle_state) : bool :=
  match s with dying | destroyed => false | _ => true end.

(** The single step that leaves a retired lifecycle: slot reuse. *)
Definition is_rebirth (s t : lifecycle_state) : bool :=
  bool_decide (s = destroyed) && bool_decide (t = embryo).

Lemma transition_true o t o' :
  transition o t = (true, o') ->
  transition_allowed (state o) t = true /\ o' = with_state o t.
Proof. unfold transition. case_match; naive_solver. Qed.

Lemma lifecycle_step_allowed s t :
  lifecycle_step s t <-> transition_allowed s t = true.
Proof.
  split.
  - intros [o o' tg Htr]. apply transition_true in Htr as [Ha ->]. done.
  - intros Ha.
    pose (o := Bobject 0 kt_none s 1 0 0).
    apply (step_transition o (with_state o t) t).
    unfold transition. simpl. by rewrite Ha.
Qed.

(** Steps without slot reuse. *)
Definition retire_step (s t : lifecycle_state) : Prop :=
  lifecycle_step s t /\ is_rebirth s t = false.

Lemma dying_next s : lifecycle_step dying s -> s = destroyed.
Proof. rewrite lifecycle_step_allowed. by destruct s. Qed.

Lemma destroyed_next s : lifecycle_step destroyed s -> s = embryo.
Proof. rewrite lifecycle_step_allowed. by destruct s. Qed.

(** C-numbered theorems of this file. *)

(** Teardown is one-way: once an object is dying, every sequence of
    successful transitions that does not reuse the slot keeps it dying or
    destroyed; it never becomes active again. *)
Theorem teardown_irreversible s t :
  live_state s = false -> rtc retire_step s t -> live_state t = false.
Proof.
  intros Hs Hr. induction Hr as [|x y z [Hxy Hb] _ IH]; [done|].
  apply IH. destruct x; simpl in Hs; try done.
  - by apply dying_next in Hxy as ->.
  - apply destroyed_next in Hxy as ->. done.
Qed.

Lemma teardown_irreversible_witness :
  live_state destroyed = false.
Proof.
  apply (teardown_irreversible dying); [reflexivity|].
  apply rtc_once. split; [|reflexivity].
  apply lifecycle_step_allowed. reflexivity.
Defined.

(** The transition graph in full: the decidable guard accepts exactly ten of
    the thirty-six (from, to) pairs, and a refused transition leaves the
    header unchanged. *)
Theorem transition_graph o t :
  transition o t =
    if decide ((state o, t) ∈
         [(destroyed, embryo); (embryo, sealed); (embryo, active);
          (sealed, active); (suspended, active); (active, suspended);
          (embryo, dying); (active, dying); (suspended, dying);
          (dying, destroyed)])
    then (true, with_state o t) else (false, o).
Proof.
  unfold transition. destruct (state o), t; vm_compute; reflexivity.
Qed.

(** [try_get] and [put] are inverse on a live, unsaturated count, and a zero
    count is never resurrected. *)
Theorem kref_get_put_roundtrip c c' :
  0 < c < KREF_MAX -> kref_try_get c = Some (true, c') ->
  kref_put c' = Some (false, c) /\ kref_try_get 0 = Some (false, 0).
Proof.
  intros Hc. unfold kref_try_get, kref_put, KREF_MAX in *.
  rewrite (proj2 (Z.eqb_neq c 0)) by lia.
  rewrite (proj2 (Z.leb_gt _ _)) by lia. intros [= <-].
  rewrite (proj2 (Z.eqb_neq (c + 1) 0)) by lia.
  split; [|done]. repeat f_equal; [lia|solve_u].
Qed.

Lemma kref_get_put_roundtrip_witness :
  kref_put 4 = Some (false, 3) /\ kref_try_get 0 = Some (false, 0).
Proof. apply (kref_get_put_roundtrip 3 4); [unfold KREF_MAX; lia|reflexivity]. Defined.
