(* ===== verification/ObjectCore.v ===== *)
(** * SCOMS object metadata (src/zxfoundation/scoms/metadata.zcomponent/core.cxx)

    The nucleus keeps one [object_metadata] entry per registered object in a
    two-level array of lazily allocated blocks.  An object's [object_flags]
    field holds its entry index plus one.  Entries record the object's owner,
    its parent and how many children depend on it; [unregister_object] retires
    an entry and [complete_reclaim] frees it after the last reference is gone.

    The state [ocore] is the object heap together with the metadata blocks.
    [kmalloc] is the allocator's answer to the n-th allocation request given
    the addresses in use (the slab allocator is another component); a [None]
    answer is an allocation failure. *)

From S2P Require Import Prelude Errors Kobject.

Definition MAX_OBJECT_METADATA : Z := 16384.
Definition METADATA_BLOCK_SIZE : Z := 256.
#[global] Arguments METADATA_BLOCK_SIZE : simpl never.
#[global] Arguments MAX_OBJECT_METADATA : simpl never.

Record object_metadata := Metadata {
  md_object : option addr;
  owner_domain : Z;
  parent_slot : Z;
  parent_type : kobject_type;
  parent_id : Z;
  parent_generation : Z;
  md_object_flags : Z;
  dependent_count : Z;
  hardware_generation : Z;
  reclaimer : option Z;       (** which table's [reclaim_object], if any *)
  md_active : bool;
  reclaim_pending : bool
}.

Definition metadata_default : object_metadata :=
  Metadata None KOBJECT_ID_INVALID 0 kt_none KOBJECT_ID_INVALID 0 0 0 0 None
    false false.

(** Field updates used by the operations. *)
Definition set_dependents (e : object_metadata) (n : Z) : object_metadata :=
  Metadata (md_object e) (owner_domain e) (parent_slot e) (parent_type e)
    (parent_id e) (parent_generation e) (md_object_flags e) n
    (hardware_generation e) (reclaimer e) (md_active e) (reclaim_pending e).
Definition set_parent (e : object_metadata) (slot : Z) (t : kobject_type)
    (pid pgen : Z) : object_metadata :=
  Metadata (md_object e) (owner_domain e) slot t pid pgen (md_object_flags e)
    (dependent_count e) (hardware_generation e) (reclaimer e) (md_active e)
    (reclaim_pending e).
Definition set_retired (e : object_metadata) : object_metadata :=
  Metadata (md_object e) (owner_domain e) (parent_slot e) (parent_type e)
    (parent_id e) (parent_generation e) (md_object_flags e)
    (dependent_count e) (hardware_generation e) (reclaimer e) false true.
Definition set_owner_field (e : object_metadata) (d : Z) : object_metadata :=
  Metadata (md_object e) d (parent_slot e) (parent_type e)
    (parent_id e) (parent_generation e) (md_object_flags e)
    (dependent_count e) (hardware_generation e) (reclaimer e) (md_active e)
    (reclaim_pending e).
Definition set_reclaimer_field (e : object_metadata) (r : Z) : object_metadata :=
  Metadata (md_object e) (owner_domain e) (parent_slot e) (parent_type e)
    (parent_id e) (parent_generation e) (md_object_flags e)
    (dependent_count e) (hardware_generation e) (Some r) (md_active e)
    (reclaim_pending e).
Definition set_hwgen (e : object_metadata) (g : Z) : object_metadata :=
  Metadata (md_object e) (owner_domain e) (parent_slot e) (parent_type e)
    (parent_id e) (parent_generation e) (md_object_flags e)
    (dependent_count e) g (reclaimer e) (md_active e) (reclaim_pending e).
Definition set_reclaimed (e : object_metadata) : object_metadata :=
  Metadata None (owner_domain e) (parent_slot e) (parent_type e)
    (parent_id e) (parent_generation e) (md_object_flags e)
    (dependent_count e) (hardware_generation e) None (md_active e) false.

Record ocore := OCore {
  heap : gmap addr bobject;
  blocks : gmap Z (list object_metadata);
  calls : nat
}.

(** An absent block reads as default (inactive) entries. *)
Definition md (s : ocore) (i : Z) : object_metadata :=
  default metadata_default
    (blocks s !! (i / METADATA_BLOCK_SIZE) ≫=
       fun b => b !! Z.to_nat (i mod METADATA_BLOCK_SIZE)).

Definition present (s : ocore) (i : Z) : Prop :=
  exists b, blocks s !! (i / METADATA_BLOCK_SIZE) = Some b.

Definition set_md (s : ocore) (i : Z) (e : object_metadata) : ocore :=
  OCore (heap s)
    (alter (fun b => updZ b (i mod METADATA_BLOCK_SIZE) e)
       (i / METADATA_BLOCK_SIZE) (blocks s))
    (calls s).

Definition set_heap (s : ocore) (h : gmap addr bobject) : ocore :=
  OCore h (blocks s) (calls s).

Definition upd_obj (s : ocore) (a : addr) (f : bobject -> bobject) : ocore :=
  set_heap s (alter f a (heap s)).

(** [find_locked] and [retired_locked]: the entry index of an object. *)
Definition lookup_entry (ok : object_metadata -> bool) (s : ocore) (a : addr)
    : option Z :=
  match heap s !! a with
  | None => None
  | Some o =>
      if object_flags o =? 0 then None
      else
        let index := u32 (object_flags o - 1) in
        if MAX_OBJECT_METADATA <=? index then None
        else
          let e := md s index in
          if ok e && bool_decide (md_object e = Some a) then Some index else None
  end.

Definition find_locked (s : ocore) (a : addr) : option Z :=
  lookup_entry md_active s a.
Definition retired_locked (s : ocore) (a : addr) : option Z :=
  lookup_entry reclaim_pending s a.

(** [clear_parent_locked] on the entry at index [c]. *)
Definition clear_parent_locked (s : ocore) (c : Z) : ocore :=
  let child := md s c in
  if parent_id child =? KOBJECT_ID_INVALID then s
  else
    let s1 :=
      if parent_slot child =? 0 then s
      else
        let p := parent_slot child - 1 in
        let parent := md s p in
        match md_object parent ≫= fun a => heap s !! a with
        | Some po =>
            if md_active parent && bool_decide (type po = parent_type child)
               && (id po =? parent_id child)
               && (generation po =? parent_generation child)
               && negb (dependent_count parent =? 0)
            then set_md s p (set_dependents parent (dependent_count parent - 1))
            else s
        | None => s
        end in
    set_md s1 c (set_parent (md s1 c) 0 kt_none KOBJECT_ID_INVALID 0).

Section ops.
Context (kmalloc : nat -> gset addr -> option addr).

(** A newly allocated block, every entry value-initialised. *)
Definition fresh_block : list object_metadata :=
  replicate (Z.to_nat METADATA_BLOCK_SIZE) metadata_default.

(** [metadata_at(index, create = true)]: allocates the block on first use. *)
Definition metadata_at_create (s : ocore) (index : Z) : bool * ocore :=
  let block := index / METADATA_BLOCK_SIZE in
  match blocks s !! block with
  | Some _ => (true, s)
  | None =>
      match kmalloc (calls s) (dom (heap s)) with
      | None => (false, OCore (heap s) (blocks s) (S (calls s)))
      | Some _ =>
          (true, OCore (heap s)
             (<[block := fresh_block]> (blocks s))
             (S (calls s)))
      end
  end.

(** The scan of [register_object] from index [i], [n] iterations left. *)
Fixpoint register_scan (s : ocore) (a : addr) (owner : Z) (i : Z) (n : nat)
    : expected unit * ocore :=
  match n with
  | O => (Unexpected (from_memory mem_out_of_memory), s)
  | S n' =>
      let '(ok, s1) := metadata_at_create s i in
      if negb ok || md_active (md s1 i) || reclaim_pending (md s1 i)
      then register_scan s1 a owner (i + 1) n'
      else
        let flags := default 0 (object_flags <$> heap s1 !! a) in
        let e := Metadata (Some a) owner 0 kt_none KOBJECT_ID_INVALID 0 flags
                   0 0 None true false in
        (Expected tt, upd_obj (set_md s1 i e) a (fun o => with_flags o (i + 1)))
  end.

Definition register_object (s : ocore) (a : addr) (owner : Z)
    : expected unit * ocore :=
  match find_locked s a with
  | Some _ => (Unexpected (from_generic invalid_arg), s)
  | None => register_scan s a owner 0 (Z.to_nat MAX_OBJECT_METADATA)
  end.

End ops.

Definition unregister_object (s : ocore) (a : addr) : expected unit * ocore :=
  match find_locked s a with
  | None => (Unexpected (from_generic not_found), s)
  | Some i =>
      if negb (dependent_count (md s i) =? 0)
      then (Unexpected (from_generic invalid_arg), s)
      else
        let s1 := clear_parent_locked s i in
        (Expected tt, set_md s1 i (set_retired (md s1 i)))
  end.

Definition set_reclaimer (s : ocore) (a : addr) (r : option Z)
    : expected unit * ocore :=
  match r with
  | None => (Unexpected (from_generic invalid_arg), s)
  | Some t =>
      match find_locked s a with
      | None => (Unexpected (from_generic not_found), s)
      | Some i => (Expected tt, set_md s i (set_reclaimer_field (md s i) t))
      end
  end.

(** The lookup of [finalize_last_put]; [None] is its trap. *)
Definition finalize_reclaimer (s : ocore) (a : addr) : option Z :=
  i ← retired_locked s a; reclaimer (md s i).

Definition complete_reclaim (s : ocore) (a : addr) : option ocore :=
  match retired_locked s a with
  | None => None
  | Some i =>
      Some (upd_obj (set_md s i (set_reclaimed (md s i))) a
              (fun o => with_flags o 0))
  end.

Definition set_owner (s : ocore) (a : addr) (owner : Z) : expected unit * ocore :=
  match find_locked s a with
  | None => (Unexpected (from_generic not_found), s)
  | Some i => (Expected tt, set_md s i (set_owner_field (md s i) owner))
  end.

Definition attach (s : ocore) (child parent : addr) : expected unit * ocore :=
  if bool_decide (child = parent) then (Unexpected (from_generic invalid_arg), s)
  else
    match find_locked s child, find_locked s parent, heap s !! parent with
    | Some c, Some p, Some po =>
        if negb (parent_id (md s c) =? KOBJECT_ID_INVALID)
        then (Unexpected (from_generic not_found), s)
        else
          let s1 := set_md s c (set_parent (md s c) (object_flags po) (type po)
                                  (id po) (generation po)) in
          (Expected tt,
           set_md s1 p (set_dependents (md s1 p) (u32 (dependent_count (md s1 p) + 1))))
    | _, _, _ => (Unexpected (from_generic not_found), s)
    end.

Definition detach (s : ocore) (child : addr) : expected unit * ocore :=
  match find_locked s child with
  | None => (Unexpected (from_generic not_found), s)
  | Some c =>
      if parent_id (md s c) =? KOBJECT_ID_INVALID then (Expected tt, s)
      else (Expected tt, clear_parent_locked s c)
  end.

Definition has_dependents (s : ocore) (a : addr) : bool :=
  match find_locked s a with
  | None => false
  | Some i => negb (dependent_count (md s i) =? 0)
  end.

Definition bump_hardware_generation (s : ocore) (a : addr) : expected Z * ocore :=
  match find_locked s a with
  | None => (Unexpected (from_generic not_found), s)
  | Some i =>
      let g := u32 (hardware_generation (md s i) + 1) in
      (Expected g, set_md s i (set_hwgen (md s i) g))
  end.

Definition metadata (s : ocore) (a : addr) : expected object_metadata :=
  match find_locked s a with
  | None => Unexpected (from_generic not_found)
  | Some i => Expected (md s i)
  end.

(** ** Reading and writing entries *)

Definition blocks_wf (s : ocore) : Prop :=
  forall k b, blocks s !! k = Some b -> length b = Z.to_nat METADATA_BLOCK_SIZE.

Lemma md_set_md_eq s i e :
  blocks_wf s -> present s i -> 0 <= i -> md (set_md s i e) i = e.
Proof.
  intros Hwf [b Hb] Hi. unfold md, set_md; simpl.
  rewrite lookup_alter_eq, Hb; simpl. unfold updZ.
  rewrite list_lookup_insert_eq; [done|]. rewrite (Hwf _ _ Hb).
  unfold METADATA_BLOCK_SIZE. lia.
Qed.

Lemma md_set_md_ne s i j e :
  0 <= i -> 0 <= j -> i <> j -> md (set_md s i e) j = md s j.
Proof.
  intros Hi Hj Hne. unfold md, set_md; simpl.
  destruct (decide (i / METADATA_BLOCK_SIZE = j / METADATA_BLOCK_SIZE)) as [Hq|Hq].
  - rewrite Hq, lookup_alter_eq. destruct (blocks s !! _) as [b|]; [|done]. simpl.
    unfold updZ. rewrite list_lookup_insert_ne; [done|].
    unfold METADATA_BLOCK_SIZE in *. lia.
  - by rewrite lookup_alter_ne.
Qed.

Lemma blocks_wf_set_md s i e : blocks_wf s -> blocks_wf (set_md s i e).
Proof.
  intros Hwf k b. simpl. rewrite lookup_alter_Some.
  intros [(<- & b' & Hb' & ->)|[_ Hb]]; [rewrite length_updZ|]; eauto.
Qed.

Lemma present_set_md s i j e : present (set_md s i e) j <-> present s j.
Proof.
  unfold present; simpl. split.
  - intros [b Hb]. apply lookup_alter_Some in Hb. naive_solver.
  - intros [b Hb]. destruct (decide (i / METADATA_BLOCK_SIZE = j / METADATA_BLOCK_SIZE)) as [Hq|Hq].
    + rewrite Hq, lookup_alter_eq, Hb. simpl. eauto.
    + rewrite lookup_alter_ne by done. eauto.
Qed.

Lemma heap_set_md s i e : heap (set_md s i e) = heap s.
Proof. done. Qed.

Lemma md_upd_obj s a f i : md (upd_obj s a f) i = md s i.
Proof. done. Qed.

(** An entry that differs from the default lives in an allocated block. *)
Lemma md_present s i : md s i <> metadata_default -> present s i.
Proof.
  unfold md, present. destruct (blocks s !! _) as [b|] eqn:Hb; [by eauto|done].
Qed.

Definition used (e : object_metadata) : bool := md_active e || reclaim_pending e.

Lemma used_present s i : used (md s i) = true -> present s i.
Proof. intros H. apply md_present. intros Heq. by rewrite Heq in H. Qed.

Lemma active_used e : md_active e = true -> used e = true.
Proof. unfold used. by intros ->. Qed.

Lemma pending_used e : reclaim_pending e = true -> used e = true.
Proof. unfold used. intros ->. apply orb_true_r. Qed.

#[export] Hint Resolve blocks_wf_set_md used_present active_used pending_used : zx.

Definition index_ok (i : Z) : Prop := 0 <= i < MAX_OBJECT_METADATA.

Lemma lookup_entry_inv ok s a i :
  lookup_entry ok s a = Some i ->
  index_ok i /\ ok (md s i) = true /\ md_object (md s i) = Some a.
Proof.
  unfold lookup_entry. destruct (heap s !! a) as [o|]; [|done].
  destruct (Z.eqb_spec (object_flags o) 0); [done|].
  destruct (Z.leb_spec MAX_OBJECT_METADATA (u32 (object_flags o - 1))); [done|].
  case_match eqn:Hc; [|done]. intros [= <-].
  apply andb_true_iff in Hc as [? ?%bool_decide_eq_true].
  split_and!; try done. split; [apply u32_fits|done].
Qed.

Lemma lookup_entry_intro ok s a i o :
  heap s !! a = Some o -> object_flags o = i + 1 -> index_ok i ->
  ok (md s i) = true -> md_object (md s i) = Some a ->
  lookup_entry ok s a = Some i.
Proof.
  unfold index_ok, MAX_OBJECT_METADATA. intros Ho Hf Hi Hok Hob.
  unfold lookup_entry. rewrite Ho, (proj2 (Z.eqb_neq _ 0)) by lia.
  replace (u32 (object_flags o - 1)) with i by solve_u.
  rewrite (proj2 (Z.leb_gt _ _)) by (unfold MAX_OBJECT_METADATA; lia).
  rewrite Hok, bool_decide_eq_true_2 by done. done.
Qed.

(** ** The metadata invariant *)

Definition is_child (s : ocore) (p i : Z) : bool :=
  md_active (md s i) && (parent_slot (md s i) =? p + 1).

(** The number of active entries whose parent is the entry at [p]. *)
Definition children (s : ocore) (p : Z) : Z :=
  count_below (is_child s p) (Z.to_nat MAX_OBJECT_METADATA).

(** Entry [i] belongs to a live object whose header points back at it. *)
Definition owned (s : ocore) (i : Z) : Prop :=
  exists a o, md_object (md s i) = Some a /\ heap s !! a = Some o /\
    object_flags o = i + 1 /\ id o <> KOBJECT_ID_INVALID.

(** Entry [i] names entry [p] as its parent, with [p]'s current identity. *)
Definition parented (s : ocore) (i p : Z) : Prop :=
  parent_slot (md s i) = p + 1 /\ index_ok p /\ p <> i /\
  md_active (md s p) = true /\
  exists pa po, md_object (md s p) = Some pa /\ heap s !! pa = Some po /\
    type po = parent_type (md s i) /\ id po = parent_id (md s i) /\
    generation po = parent_generation (md s i).

Definition orphan (s : ocore) (i : Z) : Prop :=
  parent_id (md s i) = KOBJECT_ID_INVALID /\ parent_slot (md s i) = 0.

Record oc_inv (s : ocore) : Prop := {
  inv_len : blocks_wf s;
  inv_owned : forall i, index_ok i -> used (md s i) = true -> owned s i;
  inv_excl : forall i, index_ok i -> reclaim_pending (md s i) = true ->
               md_active (md s i) = false;
  inv_parent : forall i, index_ok i -> md_active (md s i) = true ->
                 orphan s i \/ exists p, parented s i p;
  inv_count : forall p, index_ok p -> md_active (md s p) = true ->
                dependent_count (md s p) = children s p
}.

(** Two states agree on what the invariant reads. *)
Definition md_core (e : object_metadata) :=
  (md_object e, parent_slot e, parent_type e, parent_id e, parent_generation e,
   dependent_count e, md_active e, reclaim_pending e).

Definition obj_core (o : bobject) :=
  (id o, type o, generation o, object_flags o).

Definition heap_le (h h' : gmap addr bobject) : Prop :=
  forall a o, h !! a = Some o ->
    exists o', h' !! a = Some o' /\ obj_core o' = obj_core o.

Lemma heap_le_refl h : heap_le h h.
Proof. intros a o Ho. eauto. Qed.
#[export] Hint Resolve heap_le_refl : zx.

Lemma children_ext s s' p :
  (forall i, index_ok i -> is_child s p i = is_child s' p i) ->
  children s p = children s' p.
Proof. intros H. apply count_below_ext. intros i Hi. apply H. by unfold index_ok, MAX_OBJECT_METADATA in *. Qed.

Lemma children_range s p : 0 <= children s p <= 16384.
Proof.
  unfold children. generalize (is_child s p) as f. intros f.
  pose proof (count_below_range f (Z.to_nat MAX_OBJECT_METADATA)) as Hr.
  by rewrite Z2Nat.id in Hr by done.
Qed.

Lemma children_upd s s' p k :
  index_ok k ->
  (forall i, index_ok i -> i <> k -> is_child s p i = is_child s' p i) ->
  children s' p = children s p + Z.b2z (is_child s' p k) - Z.b2z (is_child s p k).
Proof.
  intros Hk H. apply count_below_upd; [by unfold index_ok, MAX_OBJECT_METADATA in *|].
  intros i Hi. apply H. by unfold index_ok, MAX_OBJECT_METADATA in *.
Qed.

Lemma child_counted s i p :
  index_ok i -> is_child s p i = true -> 0 < children s p.
Proof.
  intros Hi Hc.
  apply (count_below_pos (is_child s p) (Z.to_nat MAX_OBJECT_METADATA) i); [|done].
  by rewrite Z2Nat.id.
Qed.

Lemma children_none s p :
  (forall i, index_ok i -> is_child s p i = false) <-> children s p = 0.
Proof.
  unfold children. rewrite count_below_zero, Z2Nat.id by done. done.
Qed.

Lemma children_some s p :
  children s p <> 0 -> exists i, index_ok i /\ is_child s p i = true.
Proof.
  unfold children. intros (i & Hi & Hc)%count_below_exists.
  rewrite Z2Nat.id in Hi by done. eauto.
Qed.

#[global] Opaque children.

(** Changes that leave the core of every entry and object alone. *)
Lemma oc_inv_ext s s' :
  blocks_wf s' -> heap_le (heap s) (heap s') ->
  (forall i, index_ok i -> md_core (md s' i) = md_core (md s i)) ->
  oc_inv s -> oc_inv s'.
Proof.
  intros Hwf Hh Hmd [Hlen Hown Hex Hpar Hcnt].
  assert (Hch : forall p, children s' p = children s p).
  { intros p. apply children_ext. intros i Hi. unfold is_child.
    specialize (Hmd i Hi). unfold md_core in Hmd. congruence. }
  split; [done| | | |].
  - intros i Hi Hu. pose proof (Hmd i Hi) as He. unfold md_core in He. injection He as Ho Hs Ht Hp Hg Hd Ha Hr.
    destruct (Hown i Hi) as (a & o & Hoa & Hha & Hf & Hid).
    { unfold used in *. congruence. }
    destruct (Hh a o Hha) as (o' & Ho' & Hc). injection Hc as ? ? ? ?.
    exists a, o'. split_and!; congruence.
  - intros i Hi Hr. specialize (Hmd i Hi). unfold md_core in Hmd.
    specialize (Hex i Hi). destruct (md_active (md s' i)); [|done].
    rewrite <- Hex; congruence.
  - intros i Hi Ha. pose proof (Hmd i Hi) as He. injection He as E1 E2 E3 E4 E5 E6 E7 E8.
    destruct (Hpar i Hi) as [[H1 H2]|(p & H1 & Hp & Hpi & Hpa & pa & po & H2 & H3 & H4 & H5 & H6)];
      [congruence|left; split; congruence|right].
    pose proof (Hmd p Hp) as Hep. injection Hep as F1 F2 F3 F4 F5 F6 F7 F8.
    destruct (Hh pa po H3) as (po' & Ho' & Hc). injection Hc as ? ? ? ?.
    exists p. split_and!; [congruence|done|done|congruence|].
    exists pa, po'. split_and!; congruence.
  - intros p Hp Ha. rewrite Hch. specialize (Hmd p Hp). unfold md_core in Hmd.
    injection Hmd as ? ? ? ? ? Hd Hact ?. rewrite Hd. apply Hcnt; congruence.
Qed.

(** The allocation counter is invisible. *)
Lemma oc_inv_calls h b n m : oc_inv (OCore h b n) -> oc_inv (OCore h b m).
Proof.
  intros Hi. apply (oc_inv_ext (OCore h b n)); [apply Hi|apply heap_le_refl|by intros|done].
Qed.

(** ** Preservation *)

Lemma md_set_md s i j e :
  blocks_wf s -> present s i -> index_ok i -> index_ok j ->
  md (set_md s i e) j = if decide (i = j) then e else md s j.
Proof.
  intros Hwf Hp Hi Hj. unfold index_ok in *. case_decide as Hd.
  - subst. apply md_set_md_eq; [done|done|lia].
  - apply md_set_md_ne; lia.
Qed.

(** Updates of one used entry that keep its core. *)
Lemma oc_inv_set_core s i e :
  oc_inv s -> index_ok i -> used (md s i) = true ->
  md_core e = md_core (md s i) -> oc_inv (set_md s i e).
Proof.
  intros Hinv Hi Hu He. pose proof (inv_len s Hinv).
  apply (oc_inv_ext s); auto with zx.
  intros j Hj. rewrite md_set_md by auto with zx. case_decide; [by subst|done].
Qed.

Lemma find_locked_ok s a i :
  oc_inv s -> find_locked s a = Some i ->
  index_ok i /\ md_active (md s i) = true /\ md_object (md s i) = Some a /\
  exists o, heap s !! a = Some o /\ object_flags o = i + 1 /\
            id o <> KOBJECT_ID_INVALID.
Proof.
  intros Hinv (Hi & Ha & Hob)%lookup_entry_inv. split_and!; [done..|].
  destruct (inv_owned s Hinv i Hi) as (a' & o & Ho & ?); [auto with zx|].
  rewrite Hob in Ho. injection Ho as <-. eauto.
Qed.

Lemma set_owner_inv s a d : oc_inv s -> oc_inv (set_owner s a d).2.
Proof.
  intros Hinv. unfold set_owner. destruct (find_locked s a) as [i|] eqn:Hf; [|done].
  apply find_locked_ok in Hf as (? & ? & ? & ?); [|done].
  apply oc_inv_set_core; auto with zx.
Qed.

Lemma set_reclaimer_inv s a r : oc_inv s -> oc_inv (set_reclaimer s a r).2.
Proof.
  intros Hinv. unfold set_reclaimer. destruct r; [|done].
  destruct (find_locked s a) as [i|] eqn:Hf; [|done].
  apply find_locked_ok in Hf as (? & ? & ? & ?); [|done].
  apply oc_inv_set_core; auto with zx.
Qed.

Lemma bump_inv s a : oc_inv s -> oc_inv (bump_hardware_generation s a).2.
Proof.
  intros Hinv. unfold bump_hardware_generation.
  destruct (find_locked s a) as [i|] eqn:Hf; [|done].
  apply find_locked_ok in Hf as (? & ? & ? & ?); [|done].
  apply oc_inv_set_core; auto with zx.
Qed.

(** Replacing the parent link of the active entry [c] and adjusting the
    dependent count of the (old or new) parent [p]: the arithmetic core of
    [attach] and [clear_parent_locked].  [d] is the change of [p]'s count. *)
Definition relink (s : ocore) (c p : Z) (e : object_metadata) (n : Z) : ocore :=
  set_md (set_md s p (set_dependents (md s p) n)) c e.

Lemma md_relink s c p e n j :
  blocks_wf s -> present s c -> present s p -> index_ok c -> index_ok p ->
  p <> c -> index_ok j ->
  md (relink s c p e n) j =
    if decide (c = j) then e
    else if decide (p = j) then set_dependents (md s p) n else md s j.
Proof.
  intros. unfold relink. rewrite md_set_md; auto with zx; [|by apply present_set_md].
  case_decide; [done|]. rewrite md_set_md by done. done.
Qed.

Lemma is_child_relink s c p e n q j :
  blocks_wf s -> present s c -> present s p -> index_ok c -> index_ok p ->
  p <> c -> index_ok j -> j <> c ->
  is_child (relink s c p e n) q j = is_child s q j.
Proof.
  intros. unfold is_child. rewrite md_relink by done.
  rewrite decide_False by done. case_decide; [by subst|done].
Qed.

Lemma child_slot_of s i p :
  md_active (md s i) = true -> parent_slot (md s i) = p + 1 -> is_child s p i = true.
Proof. intros Ha Hs. unfold is_child. rewrite Ha, Hs. simpl. lia. Qed.


Lemma children_relink s c p e n q :
  blocks_wf s -> present s c -> present s p -> index_ok c -> index_ok p -> p <> c ->
  children (relink s c p e n) q =
    children s q + Z.b2z (md_active e && (parent_slot e =? q + 1))
                 - Z.b2z (is_child s q c).
Proof.
  intros. rewrite (children_upd s (relink s c p e n) q c); [|done|].
  - unfold is_child at 1. rewrite md_relink by done. rewrite decide_True by done. done.
  - intros i Hi Hne. symmetry. by apply is_child_relink.
Qed.

(** The two ways a parent link changes. *)
Inductive link_change (s : ocore) (c p : Z) (e : object_metadata) (n : Z) : Prop :=
  | link_cut :
      parent_id e = KOBJECT_ID_INVALID -> parent_slot e = 0 ->
      parent_slot (md s c) = p + 1 -> n = dependent_count (md s p) - 1 ->
      link_change s c p e n
  | link_make pa po :
      parent_slot e = p + 1 -> parent_slot (md s c) = 0 ->
      n = dependent_count (md s p) + 1 ->
      md_object (md s p) = Some pa -> heap s !! pa = Some po ->
      type po = parent_type e -> id po = parent_id e ->
      generation po = parent_generation e ->
      link_change s c p e n.

Lemma relink_count s c p e n q :
  oc_inv s -> index_ok c -> index_ok p -> p <> c ->
  md_active (md s c) = true -> md_active (md s p) = true ->
  md_active e = true -> link_change s c p e n -> index_ok q ->
  children (relink s c p e n) q =
    if decide (p = q) then n else children s q.
Proof.
  intros Hinv Hc Hp Hne Hac Hap Hae Hl Hq.
  rewrite children_relink; eauto using inv_len with zx. unfold is_child.
  rewrite Hac, Hae. pose proof (inv_count s Hinv p Hp Hap) as Hcp.
  unfold index_ok in *.
  destruct Hl as [_ -> -> ->| pa po -> -> -> _ _ _ _ _]; case_decide as Hd; subst;
    repeat match goal with |- context [?a =? ?b] => destruct (Z.eqb_spec a b) end;
    simpl; lia.
Qed.

Lemma relink_inv s c p e n :
  oc_inv s -> index_ok c -> index_ok p -> p <> c ->
  md_active (md s c) = true -> md_active (md s p) = true ->
  md_object e = md_object (md s c) -> md_active e = true ->
  reclaim_pending e = reclaim_pending (md s c) ->
  dependent_count e = dependent_count (md s c) ->
  link_change s c p e n -> oc_inv (relink s c p e n).
Proof.
  intros Hinv Hc Hp Hne Hac Hap Heo Hea Her Hed Hl.
  pose proof (inv_len s Hinv) as Hwf.
  assert (Hmd : forall j, index_ok j -> md (relink s c p e n) j =
      if decide (c = j) then e
      else if decide (p = j) then set_dependents (md s p) n else md s j).
  { intros j Hj. apply md_relink; auto with zx. }
  split; [by unfold relink; auto with zx| | | |].
  - intros i Hi. unfold owned. rewrite Hmd by done. change (heap (relink s c p e n)) with (heap s).
    pose proof (inv_owned s Hinv i Hi) as Ho. unfold owned, used in *.
    case_decide; [|case_decide]; subst; simpl; rewrite ?Heo, ?Hea, ?Her; auto with zx.
    intros _. apply Ho. by rewrite Hac.
  - intros i Hi. pose proof (inv_excl s Hinv i Hi) as Hx. rewrite Hmd by done.
    case_decide; [|case_decide]; subst; simpl; rewrite ?Hea, ?Her; auto.
    intros Hr. rewrite Hx in Hac by done. done.
  - intros i Hi. unfold orphan, parented. rewrite Hmd by done. case_decide as Hci.
    + subst i. intros _. destruct Hl as [H1 H2 _ _|pa po H1 _ _ H2 H3 H4 H5 H6]; [by left|right].
      exists p. rewrite Hmd, decide_False, decide_True by (done || congruence). simpl.
      split_and!; [done..|]. exists pa, po. done.
    + intros Ha. assert (Ha' : md_active (md s i) = true) by (case_decide; by subst).
      assert (Hsame : forall q, parent_slot (if decide (p = i) then set_dependents (md s p) n else md s i) = q <-> parent_slot (md s i) = q) by (intros; case_decide; by subst).
      clear Ha. destruct (inv_parent s Hinv i Hi Ha') as [[H1 H2]|(q & H1 & Hq & Hqi & Hqa & pa & po & H2 & H3 & H4 & H5 & H6)].
      * left. case_decide; by subst.
      * right. exists q. rewrite Hmd by done. split_and!; [by apply Hsame|done|done| |].
        { destruct (decide (c = q)), (decide (p = q)); by subst. }
        exists pa, po. destruct (decide (c = q)), (decide (p = q)), (decide (p = i));
          subst; simpl; split_and!; congruence.
  - intros q Hq Ha. rewrite (relink_count s c p e n q) by done.
    rewrite Hmd by done. rewrite Hmd in Ha by done.
    case_decide as H1; [subst q|case_decide as H2; [by subst|]].
    + rewrite decide_False by done. rewrite Hed. by apply inv_count.
    + by apply inv_count.
Qed.

Definition unparent (e : object_metadata) : object_metadata :=
  set_parent e 0 kt_none KOBJECT_ID_INVALID 0.

(** On an active entry the parent's identity check always succeeds, so
    [clear_parent_locked] cuts exactly one link. *)
Lemma clear_parent_cases s c :
  oc_inv s -> index_ok c -> md_active (md s c) = true ->
  (orphan s c /\ clear_parent_locked s c = s) \/
  (exists p, parented s c p /\
     clear_parent_locked s c =
       relink s c p (unparent (md s c)) (dependent_count (md s p) - 1)).
Proof.
  intros Hinv Hc Ha. pose proof (inv_len s Hinv) as Hwf.
  unfold clear_parent_locked.
  destruct (inv_parent s Hinv c Hc Ha) as
    [[H1 H2]|(p & H1 & Hp & Hpc & Hpa & pa & po & H2 & H3 & H4 & H5 & H6)].
  - left. split; [done|]. by rewrite H1, Z.eqb_refl.
  - right. exists p. split; [by repeat (split || eexists); try done; apply Hp|].
    destruct (inv_owned s Hinv p Hp) as (pa' & po' & E1 & E2 & _ & Hid); [auto with zx|].
    rewrite H2 in E1. injection E1 as <-. rewrite H3 in E2. injection E2 as <-.
    rewrite <- H5, (proj2 (Z.eqb_neq (id po) _)) by done.
    unfold index_ok in Hp. rewrite H1, (proj2 (Z.eqb_neq (p + 1) 0)) by lia.
    replace (p + 1 - 1) with p by lia. rewrite H2. simpl. rewrite H3, Hpa, <- H4, <- H6.
    rewrite bool_decide_eq_true_2, !Z.eqb_refl by done. simpl.
    assert (0 < dependent_count (md s p)).
    { rewrite inv_count by done. apply (child_counted s c); [done|by apply child_slot_of]. }
    rewrite (proj2 (Z.eqb_neq (dependent_count _) 0)) by lia. simpl.
    unfold relink. rewrite md_set_md_ne by (unfold index_ok in *; lia). done.
Qed.

(** What [clear_parent_locked] leaves behind. *)
Lemma clear_parent_spec s c :
  oc_inv s -> index_ok c -> md_active (md s c) = true ->
  let s' := clear_parent_locked s c in
  oc_inv s' /\ orphan s' c /\ md_active (md s' c) = true /\
  md_object (md s' c) = md_object (md s c) /\ heap s' = heap s /\
  dependent_count (md s' c) = dependent_count (md s c).
Proof.
  intros Hinv Hc Ha. pose proof (inv_len s Hinv) as Hwf.
  destruct (clear_parent_cases s c Hinv Hc Ha) as [[Ho ->]|(p & Hpar & ->)]; [done|].
  destruct Hpar as (H1 & Hp & Hpc & Hpa & _). cbn zeta.
  split; [apply relink_inv; try done; by apply link_cut|].
  unfold orphan. rewrite md_relink by auto with zx. rewrite decide_True by done. done.
Qed.

Lemma clear_parent_reclaimer s c :
  oc_inv s -> index_ok c -> md_active (md s c) = true ->
  reclaimer (md (clear_parent_locked s c) c) = reclaimer (md s c).
Proof.
  intros Hinv Hc Ha. pose proof (inv_len s Hinv) as Hwf.
  destruct (clear_parent_cases s c Hinv Hc Ha) as [[_ ->]|(p & Hpar & ->)]; [done|].
  destruct Hpar as (H1 & Hp & Hpc & Hpa & _).
  rewrite md_relink by auto with zx. by rewrite decide_True.
Qed.

Lemma detach_inv s a : oc_inv s -> oc_inv (detach s a).2.
Proof.
  intros Hinv. unfold detach. destruct (find_locked s a) as [c|] eqn:Hf; [|done].
  apply find_locked_ok in Hf as (Hc & Ha & _); [|done].
  case_match; [done|]. by apply clear_parent_spec.
Qed.

Lemma orphan_no_child s i p : orphan s i -> 0 <= p -> is_child s p i = false.
Proof.
  intros [_ Hs] Hp. unfold is_child. rewrite Hs.
  rewrite (proj2 (Z.eqb_neq 0 (p + 1))) by lia. apply andb_false_r.
Qed.

(** Retiring an orphan entry nobody depends on. *)
Lemma retire_inv s c :
  oc_inv s -> index_ok c -> md_active (md s c) = true -> orphan s c ->
  dependent_count (md s c) = 0 -> oc_inv (set_md s c (set_retired (md s c))).
Proof.
  intros Hinv Hc Ha Ho Hd. pose proof (inv_len s Hinv) as Hwf.
  set (s' := set_md _ _ _).
  assert (Hmd : forall j, index_ok j -> md s' j =
            if decide (c = j) then set_retired (md s c) else md s j).
  { intros j Hj. apply md_set_md; auto with zx. }
  assert (Hch : forall q, index_ok q -> children s' q = children s q).
  { intros q Hq. rewrite (children_upd s s' q c) by
      (done || (intros i Hi Hne; unfold is_child; rewrite Hmd by done; by rewrite decide_False)).
    rewrite (orphan_no_child s c q) by (done || apply Hq).
    unfold is_child. rewrite Hmd, decide_True by done. simpl. lia. }
  split; [by apply blocks_wf_set_md| | | |].
  - intros i Hi. unfold owned. rewrite Hmd by done. case_decide; [subst i|].
    + intros _. apply (inv_owned s Hinv c Hc). auto with zx.
    + by apply (inv_owned s Hinv).
  - intros i Hi. rewrite Hmd by done. case_decide; [done|by apply (inv_excl s Hinv)].
  - intros i Hi. rewrite Hmd by done. case_decide as Hci; [done|]. intros Hai.
    unfold orphan, parented. rewrite (Hmd i), decide_False by done.
    destruct (inv_parent s Hinv i Hi Hai) as [?|(p & H1 & Hp & Hpi & H2)]; [by left|right].
    exists p. rewrite Hmd by done. destruct (decide (c = p)) as [->|]; [|done].
    exfalso. pose proof (child_counted s i p Hi (child_slot_of s i p Hai H1)).
    rewrite <- (inv_count s Hinv p Hp Ha), Hd in H. lia.
  - intros q Hq. rewrite Hch, Hmd by done. case_decide; [done|by apply inv_count].
Qed.

Lemma unregister_object_inv s a : oc_inv s -> oc_inv (unregister_object s a).2.
Proof.
  intros Hinv. unfold unregister_object.
  destruct (find_locked s a) as [i|] eqn:Hf; [|done].
  apply find_locked_ok in Hf as (Hi & Ha & _); [|done].
  destruct (Z.eqb_spec (dependent_count (md s i)) 0) as [Hd|]; [|done]. simpl.
  destruct (clear_parent_spec s i Hinv Hi Ha) as (H1 & H2 & H3 & _ & _ & H4).
  apply retire_inv; try done. by rewrite H4.
Qed.

Lemma attach_inv s c p : oc_inv s -> oc_inv (attach s c p).2.
Proof.
  intros Hinv. pose proof (inv_len s Hinv) as Hwf. unfold attach.
  case_bool_decide as Hcp; [done|].
  destruct (find_locked s c) as [i|] eqn:Hfi; [|done].
  destruct (find_locked s p) as [j|] eqn:Hfj; [|done].
  destruct (heap s !! p) as [po|] eqn:Hhp; [|done].
  destruct (Z.eqb_spec (parent_id (md s i)) KOBJECT_ID_INVALID) as [Hpid|]; [|done]. simpl.
  apply find_locked_ok in Hfi as (Hi & Hai & Hoi & _); [|done].
  apply find_locked_ok in Hfj as (Hj & Haj & Hoj & po' & E & Hfl & Hid); [|done].
  rewrite Hhp in E. injection E as <-.
  assert (Hne : j <> i) by (intros ->; congruence).
  set (e := set_parent _ _ _ _ _).
  assert (Hslot : parent_slot (md s i) = 0).
  { destruct (inv_parent s Hinv i Hi Hai) as [[_ ?]|(q & _ & Hq & _ & Hqa & pa & qo & Hq1 & Hqo & _ & Hq2 & _)]; [done|].
    destruct (inv_owned s Hinv q Hq) as (a' & o' & E1 & E2 & _ & Hid'); [auto with zx|].
    rewrite Hq1 in E1. injection E1 as <-. rewrite Hqo in E2. injection E2 as <-.
    by rewrite Hq2 in Hid'. }
  assert (Hdep : md (set_md s i e) j = md s j) by (apply md_set_md_ne; unfold index_ok in *; lia).
  rewrite Hdep.
  assert (Hle : u32 (dependent_count (md s j) + 1) = dependent_count (md s j) + 1).
  { apply u32_small. rewrite inv_count by done.
    pose proof (children_range s j). solve_u. }
  rewrite Hle.
  apply (oc_inv_ext (relink s i j e (dependent_count (md s j) + 1))); auto with zx.
  - intros k Hk. f_equal. rewrite md_relink by auto with zx.
    rewrite md_set_md; auto with zx; [|by apply present_set_md; auto with zx].
    rewrite md_set_md by auto with zx. repeat case_decide; congruence.
  - apply relink_inv; try done. eapply link_make; try done.
Qed.

(** ** Framing: what an operation on one object leaves alone *)

(** Entries as other objects see them. *)
Definition md_ident (e : object_metadata) :=
  (md_object e, reclaimer e, md_active e, reclaim_pending e).

(** [s'] differs from [s] only in what concerns the object at [a]. *)
Definition same_off (a : addr) (s s' : ocore) : Prop :=
  (forall b, b <> a -> heap s' !! b = heap s !! b) /\
  (forall k, index_ok k -> used (md s k) = true -> md_object (md s k) <> Some a ->
     md_ident (md s' k) = md_ident (md s k)).

Lemma same_off_refl a s : same_off a s s.
Proof. by split. Qed.

Lemma same_off_trans a s1 s2 s3 :
  same_off a s1 s2 -> same_off a s2 s3 -> same_off a s1 s3.
Proof.
  intros [H1 H2] [H3 H4]. split; [intros b Hb; by rewrite H3, H1|].
  intros k Hk Hu Ho. pose proof (H2 k Hk Hu Ho) as E. unfold md_ident in *.
  rewrite H4; [done|done| |]; injection E; unfold used in *; congruence.
Qed.

Lemma same_off_lookup ok a b s s' k :
  (ok = md_active \/ ok = reclaim_pending) ->
  same_off a s s' -> b <> a -> lookup_entry ok s b = Some k ->
  lookup_entry ok s' b = Some k /\ reclaimer (md s' k) = reclaimer (md s k).
Proof.
  intros Hok [Hh Hm] Hb Hl. pose proof Hl as (Hk & Hact & Ho)%lookup_entry_inv.
  assert (Hu : used (md s k) = true) by (destruct Hok as [-> | ->]; auto with zx).
  pose proof (Hm k Hk Hu ltac:(congruence)) as E. unfold md_ident in E. injection E as E1 E2 E3 E4.
  split; [|done]. revert Hl. unfold lookup_entry. rewrite (Hh b Hb).
  destruct (heap s !! b) as [o|]; [|done].
  destruct (object_flags o =? 0); [done|].
  destruct (MAX_OBJECT_METADATA <=? u32 (object_flags o - 1)); [done|].
  case_match eqn:Hc; [|done]. intros [= Heq]. rewrite Heq in *.
  assert (ok (md s' k) = ok (md s k)) as -> by (destruct Hok as [-> | ->]; done).
  by rewrite E1, Hc.
Qed.

Lemma same_off_upd_obj a s f : same_off a s (upd_obj s a f).
Proof. split; [intros b Hb; simpl; by rewrite lookup_alter_ne|done]. Qed.

Lemma same_off_insert a s o : same_off a s (set_heap s (<[a := o]> (heap s))).
Proof. split; [intros b Hb; simpl; by rewrite lookup_insert_ne|done]. Qed.

Lemma same_off_delete a s : same_off a s (set_heap s (delete a (heap s))).
Proof. split; [intros b Hb; simpl; by rewrite lookup_delete_ne|done]. Qed.

(** Rewriting the entry of [a] itself. *)
Lemma same_off_set_md a s i e :
  blocks_wf s -> index_ok i -> present s i ->
  (md_object (md s i) = Some a \/ used (md s i) = false) ->
  same_off a s (set_md s i e).
Proof.
  intros Hwf Hi Hp Ho. split; [done|]. intros k Hk Hu Hne.
  rewrite md_set_md by done. case_decide; [subst; destruct Ho; congruence|done].
Qed.

Lemma same_off_set_ident a s i e :
  blocks_wf s -> index_ok i -> present s i -> md_ident e = md_ident (md s i) ->
  same_off a s (set_md s i e).
Proof.
  intros Hwf Hi Hp He. split; [done|]. intros k Hk Hu Hne.
  rewrite md_set_md by done. case_decide; [by subst|done].
Qed.

Lemma fresh_block_read k :
  default metadata_default (fresh_block !! k) = metadata_default.
Proof.
  unfold fresh_block. destruct (replicate _ metadata_default !! k) eqn:Hr; [|done].
  by apply lookup_replicate in Hr as [-> _].
Qed.

Lemma length_fresh_block : length fresh_block = Z.to_nat METADATA_BLOCK_SIZE.
Proof. apply length_replicate. Qed.

#[local] Opaque fresh_block.

Section registration.
Context (kmalloc : nat -> gset addr -> option addr).

Lemma metadata_at_create_md s i ok s1 j :
  metadata_at_create kmalloc s i = (ok, s1) -> md s1 j = md s j /\ heap s1 = heap s.
Proof.
  unfold metadata_at_create. destruct (blocks s !! (i / _)) eqn:Hb; [naive_solver|].
  case_match; intros [= <- <-]; split; try done.
  unfold md; cbn [blocks]. destruct (decide (i / METADATA_BLOCK_SIZE = j / METADATA_BLOCK_SIZE)) as [Hq|Hq].
  - rewrite <- Hq, lookup_insert_eq, Hb. cbn [mbind option_bind].
    apply fresh_block_read.
  - by rewrite lookup_insert_ne.
Qed.

Lemma metadata_at_create_wf s i ok s1 :
  metadata_at_create kmalloc s i = (ok, s1) -> blocks_wf s ->
  blocks_wf s1 /\ (ok = true -> present s1 i).
Proof.
  unfold metadata_at_create. destruct (blocks s !! (i / _)) as [b|] eqn:Hb.
  - intros [= <- <-] Hwf. split; [done|]. intros _. by exists b.
  - case_match; intros [= <- <-] Hwf; split; try done.
    + intros k b. simpl. rewrite lookup_insert_Some.
      intros [[_ <-]|[_ ?]]; [apply length_fresh_block|eauto].
    + intros _. eexists. simpl. by rewrite lookup_insert_eq.
Qed.

Definition new_entry (a : addr) (owner flags : Z) : object_metadata :=
  Metadata (Some a) owner 0 kt_none KOBJECT_ID_INVALID 0 flags 0 0 None true false.

Definition claim_entry (s : ocore) (i : Z) (a : addr) (owner flags : Z) : ocore :=
  upd_obj (set_md s i (new_entry a owner flags)) a (fun o => with_flags o (i + 1)).

(** Claiming an unused entry for an unregistered object. *)
Lemma claim_entry_inv s i a o owner flags :
  oc_inv s -> present s i -> index_ok i -> used (md s i) = false ->
  heap s !! a = Some o -> object_flags o = 0 -> id o <> KOBJECT_ID_INVALID ->
  oc_inv (claim_entry s i a owner flags).
Proof.
  intros Hinv Hpr Hi Hu Ha Hf Hid. pose proof (inv_len s Hinv) as Hwf.
  set (s' := claim_entry _ _ _ _ _).
  assert (Hmd : forall j, index_ok j -> md s' j =
            if decide (i = j) then new_entry a owner flags else md s j).
  { intros j Hj. unfold s', claim_entry. rewrite md_upd_obj. by apply md_set_md. }
  assert (Hheap : forall b, b <> a -> heap s' !! b = heap s !! b).
  { intros b Hb. unfold s', claim_entry, upd_obj. simpl. by rewrite lookup_alter_ne. }
  assert (Hna : md_active (md s i) = false).
  { unfold used in Hu. by apply orb_false_iff in Hu as [? _]. }
  assert (Hna' : forall j, index_ok j -> used (md s j) = true -> md_object (md s j) <> Some a).
  { intros j Hj Huj Heq. destruct (inv_owned s Hinv j Hj Huj) as (b & ob & E1 & E2 & E3 & _).
    rewrite Heq in E1. injection E1 as <-. rewrite Ha in E2. injection E2 as <-.
    unfold index_ok in Hj. lia. }
  assert (Hch : forall q, index_ok q -> children s' q = children s q).
  { intros q Hq. rewrite (children_upd s s' q i) by
      (done || (intros k Hk Hne; unfold is_child; rewrite Hmd by done; by rewrite decide_False)).
    unfold is_child. rewrite Hmd, decide_True, Hna by done. simpl.
    destruct q; unfold index_ok in Hq; simpl; lia. }
  split.
  - unfold s', claim_entry. by apply (blocks_wf_set_md s i).
  - intros j Hj. unfold owned. rewrite Hmd by done. case_decide as Hij.
    + intros _. subst j. exists a, (with_flags o (i + 1)). split_and!; try done.
      unfold s', claim_entry, upd_obj. simpl. by rewrite lookup_alter_eq, Ha.
    + intros Huj. destruct (inv_owned s Hinv j Hj Huj) as (b & ob & E1 & E2 & E3 & E4).
      exists b, ob. rewrite Hheap; [done|]. intros ->. by apply (Hna' j).
  - intros j Hj. rewrite Hmd by done. case_decide; [done|by apply (inv_excl s Hinv)].
  - intros j Hj. rewrite Hmd by done. case_decide as Hij.
    + intros _. left. unfold orphan. rewrite Hmd by done. by rewrite decide_True.
    + intros Haj. unfold orphan, parented. rewrite (Hmd j), decide_False by done.
      destruct (inv_parent s Hinv j Hj Haj) as [?|(p & H1 & Hp & Hpj & Hpa & pa & po & H2 & H3 & H4)]; [by left|right].
      exists p. rewrite Hmd by done. rewrite decide_False by congruence.
      split_and!; try done. exists pa, po. rewrite Hheap; [done|].
      intros ->. apply (Hna' p Hp); auto with zx.
  - intros q Hq. rewrite Hmd, Hch by done. case_decide as Hiq.
    + intros _. simpl. symmetry. subst q. apply children_none. intros k Hk'.
      unfold is_child. destruct (md_active (md s k)) eqn:Hak; [|done]. simpl.
      apply Z.eqb_neq. intros Hs.
      destruct (inv_parent s Hinv k Hk' Hak) as [[_ H]|(p & H1 & _ & _ & Hpa & _)];
        [unfold index_ok in *; lia|].
      assert (p = i) as -> by lia. congruence.
    + by apply inv_count.
Qed.

Lemma register_scan_spec n s a o owner i :
  oc_inv s -> heap s !! a = Some o -> object_flags o = 0 ->
  id o <> KOBJECT_ID_INVALID -> 0 <= i -> i + Z.of_nat n = MAX_OBJECT_METADATA ->
  let '(r, s') := register_scan kmalloc s a owner i n in
  oc_inv s' /\ same_off a s s' /\
  (r = Expected tt ->
     exists k, find_locked s' a = Some k /\ md s' k = new_entry a owner 0 /\
               heap s' !! a = Some (with_flags o (k + 1))) /\
  (r <> Expected tt -> r = Unexpected (from_memory mem_out_of_memory) /\ heap s' = heap s).
Proof.
  intros Hinv Ha Hf Hid. revert s i Hinv Ha. induction n as [|n IH]; intros s i Hinv Ha Hi Hn.
  - split_and!; [done|apply same_off_refl|done|]. done.
  - cbn [register_scan]. destruct (metadata_at_create kmalloc s i) as [ok s1] eqn:Hc.
    destruct (metadata_at_create_wf _ _ _ _ Hc (inv_len s Hinv)) as [Hwf1 Hpr].
    assert (Hmd1 : forall j, md s1 j = md s j) by (intros; by eapply metadata_at_create_md).
    assert (Hh1 : heap s1 = heap s) by (by eapply (metadata_at_create_md _ _ _ _ 0)).
    assert (Hinv1 : oc_inv s1).
    { apply (oc_inv_ext s); [done|rewrite Hh1; auto with zx|intros; by rewrite Hmd1|done]. }
    rewrite <- Hh1 in Ha.
    destruct (negb ok || _ || _) eqn:Hskip.
    + specialize (IH s1 (i + 1) Hinv1 Ha ltac:(lia) ltac:(lia)).
      assert (Hso : same_off a s s1) by (split; [by rewrite Hh1|intros; by rewrite Hmd1]).
      destruct (register_scan _ _ _ _ _ _) as [r s']. rewrite <- Hh1.
      destruct IH as (? & ? & ? & ?). split_and!; eauto using same_off_trans.
    + apply orb_false_iff in Hskip as [[Hok Hna]%orb_false_iff Hnp].
      apply negb_false_iff in Hok. rewrite Ha. simpl. rewrite Hf.
      assert (Hio : index_ok i) by (unfold index_ok; lia).
      fold (new_entry a owner 0) (claim_entry s1 i a owner 0).
      assert (Huse : used (md s1 i) = false) by (unfold used; by rewrite Hna, Hnp).
      assert (Hat : heap (claim_entry s1 i a owner 0) !! a = Some (with_flags o (i + 1))).
      { unfold claim_entry, upd_obj. simpl. by rewrite lookup_alter_eq, Ha. }
      split_and!; [| |intros _|done].
      * eapply claim_entry_inv; eauto.
      * apply same_off_trans with s1; [split; [by rewrite Hh1|intros; by rewrite Hmd1]|].
        eapply same_off_trans; [|apply same_off_upd_obj]. apply same_off_set_md; auto.
      * exists i. assert (Hm : md (claim_entry s1 i a owner 0) i = new_entry a owner 0).
        { unfold claim_entry. rewrite md_upd_obj. apply md_set_md_eq; auto. }
        split_and!; [|done..]. apply (lookup_entry_intro _ _ _ _ _ Hat); try done.
        -- by rewrite Hm.
        -- by rewrite Hm.
Qed.

Lemma register_object_spec s a o owner :
  oc_inv s -> heap s !! a = Some o -> object_flags o = 0 ->
  id o <> KOBJECT_ID_INVALID ->
  let '(r, s') := register_object kmalloc s a owner in
  oc_inv s' /\ same_off a s s' /\
  (r = Expected tt ->
     exists k, find_locked s' a = Some k /\ md s' k = new_entry a owner 0 /\
               heap s' !! a = Some (with_flags o (k + 1))) /\
  (r <> Expected tt -> r = Unexpected (from_memory mem_out_of_memory) /\ heap s' = heap s).
Proof.
  intros Hinv Ha Hf Hid. unfold register_object.
  assert (find_locked s a = None) as ->.
  { unfold find_locked, lookup_entry. by rewrite Ha, Hf. }
  apply (register_scan_spec (Z.to_nat MAX_OBJECT_METADATA) s a o); [done..|].
  by rewrite Z2Nat.id.
Qed.

End registration.

Lemma complete_reclaim_inv s a s' :
  oc_inv s -> complete_reclaim s a = Some s' -> oc_inv s'.
Proof.
  intros Hinv. unfold complete_reclaim.
  destruct (retired_locked s a) as [i|] eqn:Hr; [|done]. intros [= <-].
  apply lookup_entry_inv in Hr as (Hi & Hp & Ho). pose proof (inv_len s Hinv) as Hwf.
  pose proof (inv_excl s Hinv i Hi Hp) as Hna.
  set (s' := upd_obj _ _ _).
  assert (Hmd : forall j, index_ok j -> md s' j =
            if decide (i = j) then set_reclaimed (md s i) else md s j).
  { intros j Hj. unfold s'. rewrite md_upd_obj. apply md_set_md; auto with zx. }
  assert (Hother : forall j b, index_ok j -> i <> j -> used (md s j) = true ->
            md_object (md s j) = Some b -> heap s' !! b = heap s !! b).
  { intros j b Hj Hij Hu Hb. unfold s', upd_obj. simpl. apply lookup_alter_ne. intros <-.
    destruct (inv_owned s Hinv j Hj Hu) as (b1 & o1 & E1 & E2 & E3 & _).
    destruct (inv_owned s Hinv i Hi) as (b2 & o2 & F1 & F2 & F3 & _); [auto with zx|].
    rewrite Hb in E1. rewrite Ho in F1. injection E1 as <-. injection F1 as <-.
    rewrite E2 in F2. injection F2 as <-. lia. }
  assert (Hch : forall q, children s' q = children s q).
  { intros q. apply children_ext. intros j Hj. unfold is_child. rewrite Hmd by done.
    case_decide; [subst j; simpl; by rewrite Hna|done]. }
  split.
  - by apply (blocks_wf_set_md s i).
  - intros j Hj. unfold owned. rewrite Hmd by done. case_decide as Hij.
    + unfold used. simpl. by rewrite Hna.
    + intros Hu. destruct (inv_owned s Hinv j Hj Hu) as (b & o & E1 & E2 & E3).
      exists b, o. by rewrite (Hother j).
  - intros j Hj. rewrite Hmd by done. case_decide; [done|by apply (inv_excl s Hinv)].
  - intros j Hj. rewrite Hmd by done. case_decide as Hij; [simpl; by rewrite Hna|].
    intros Haj. unfold orphan, parented. rewrite (Hmd j), decide_False by done.
    destruct (inv_parent s Hinv j Hj Haj) as [?|(p & H1 & Hpp & Hpj & Hpa & pa & po & H2 & H3 & H4)]; [by left|right].
    exists p. rewrite Hmd by done. rewrite decide_False by congruence.
    split_and!; try done. exists pa, po.
    rewrite (Hother p); auto with zx. congruence.
  - intros q Hq. rewrite Hmd, Hch by done. case_decide; [simpl; by rewrite Hna|by apply inv_count].
Qed.

(** ** Framing of the operations *)

Lemma same_off_set_reclaimer a s r : oc_inv s -> same_off a s (set_reclaimer s a r).2.
Proof.
  intros Hinv. unfold set_reclaimer. destruct r; [|apply same_off_refl].
  destruct (find_locked s a) as [i|] eqn:Hf; [|apply same_off_refl].
  apply find_locked_ok in Hf as (Hi & Ha & Ho & _); [|done].
  apply same_off_set_md; eauto using inv_len with zx.
Qed.

Lemma same_off_clear_parent a s c :
  oc_inv s -> index_ok c -> md_active (md s c) = true ->
  same_off a s (clear_parent_locked s c).
Proof.
  intros Hinv Hc Ha. pose proof (inv_len s Hinv) as Hwf.
  destruct (clear_parent_cases s c Hinv Hc Ha) as [[_ ->]|(p & Hpar & ->)];
    [apply same_off_refl|].
  destruct Hpar as (_ & Hp & Hpc & Hpa & _). unfold relink.
  apply same_off_trans with (set_md s p (set_dependents (md s p) (dependent_count (md s p) - 1))).
  - apply same_off_set_ident; auto with zx.
  - apply same_off_set_ident; auto with zx; [by apply present_set_md; auto with zx|].
    rewrite md_set_md by auto with zx. by rewrite decide_False.
Qed.

Lemma same_off_unregister a s : oc_inv s -> same_off a s (unregister_object s a).2.
Proof.
  intros Hinv. unfold unregister_object.
  destruct (find_locked s a) as [i|] eqn:Hf; [|apply same_off_refl].
  apply find_locked_ok in Hf as (Hi & Ha & Ho & _); [|done].
  case_match; [apply same_off_refl|].
  destruct (clear_parent_spec s i Hinv Hi Ha) as (Hinv' & _ & Ha' & Ho' & _ & _).
  eapply same_off_trans; [by apply same_off_clear_parent|].
  apply same_off_set_md; eauto using inv_len with zx. left. by rewrite Ho', Ho.
Qed.

(** Both outcomes of [unregister_object] on a registered object. *)
Lemma unregister_entry s a k :
  oc_inv s -> find_locked s a = Some k ->
  match unregister_object s a with
  | (Expected _, s') => heap s' = heap s /\ retired_locked s' a = Some k /\
                        reclaimer (md s' k) = reclaimer (md s k)
  | (Unexpected _, s') => s' = s
  end.
Proof.
  intros Hinv Hf. unfold unregister_object. rewrite Hf.
  destruct (find_locked_ok s a k Hinv Hf) as (Hk & Ha & Ho & o & Hh & Hfl & _).
  destruct (negb (dependent_count (md s k) =? 0)); [done|].
  destruct (clear_parent_spec s k Hinv Hk Ha) as (Hinv1 & _ & Ha1 & Ho1 & Hh1 & _).
  set (s1 := clear_parent_locked s k) in *.
  assert (Hm : md (set_md s1 k (set_retired (md s1 k))) k = set_retired (md s1 k)).
  { apply md_set_md_eq; eauto using inv_len with zx. apply Hk. }
  split_and!; [done| |].
  - apply (lookup_entry_intro _ _ _ _ o); [by simpl; rewrite Hh1|done|done|by rewrite Hm|].
    rewrite Hm. simpl. by rewrite Ho1.
  - rewrite Hm. simpl. by apply clear_parent_reclaimer.
Qed.

Lemma same_off_complete_reclaim a s s' :
  oc_inv s -> complete_reclaim s a = Some s' -> same_off a s s'.
Proof.
  intros Hinv. unfold complete_reclaim.
  destruct (retired_locked s a) as [i|] eqn:Hf; [|done]. intros [= <-].
  apply lookup_entry_inv in Hf as (Hi & Ha & Ho).
  eapply same_off_trans; [|apply same_off_upd_obj].
  apply same_off_set_md; eauto using inv_len with zx.
Qed.

(** ** Reachable metadata states *)

Section reachable.
Context (kmalloc : nat -> gset addr -> option addr).

Definition oc_init : ocore := OCore ∅ ∅ 0.

(** What can happen to the object heap and its metadata: object construction
    and release of unregistered storage, header updates that keep the
    identity ([transition], [try_get], [put]), and the metadata operations. *)
Inductive oc_step : ocore -> ocore -> Prop :=
  | oc_new s a o :
      heap s !! a = None -> object_flags o = 0 -> id o <> KOBJECT_ID_INVALID ->
      oc_step s (set_heap s (<[a := o]> (heap s)))
  | oc_header s a f :
      (forall o, obj_core (f o) = obj_core o) -> oc_step s (upd_obj s a f)
  | oc_free s a o :
      heap s !! a = Some o -> object_flags o = 0 ->
      oc_step s (set_heap s (delete a (heap s)))
  | oc_register s a o owner :
      heap s !! a = Some o -> object_flags o = 0 -> id o <> KOBJECT_ID_INVALID ->
      oc_step s (register_object kmalloc s a owner).2
  | oc_unregister s a : oc_step s (unregister_object s a).2
  | oc_set_reclaimer s a r : oc_step s (set_reclaimer s a r).2
  | oc_set_owner s a d : oc_step s (set_owner s a d).2
  | oc_attach s c p : oc_step s (attach s c p).2
  | oc_detach s c : oc_step s (detach s c).2
  | oc_bump s a : oc_step s (bump_hardware_generation s a).2
  | oc_reclaim s a s' : complete_reclaim s a = Some s' -> oc_step s s'.

Definition oc_reachable (s : ocore) : Prop := rtc oc_step oc_init s.

Lemma oc_inv_init : oc_inv oc_init.
Proof.
  split; [by intros k b|..].
  all: intros i _; unfold md; simpl; rewrite lookup_empty; simpl; done.
Qed.

(** An address no used entry refers to may change freely. *)
Lemma oc_inv_heap s h :
  (forall i a o, index_ok i -> used (md s i) = true -> md_object (md s i) = Some a ->
     heap s !! a = Some o -> exists o', h !! a = Some o' /\ obj_core o' = obj_core o) ->
  oc_inv s -> oc_inv (set_heap s h).
Proof.
  intros Hh [Hlen Hown Hex Hpar Hcnt]. split; [exact Hlen| |exact Hex| |].
  - intros i Hi Hu. destruct (Hown i Hi Hu) as (a & o & E1 & E2 & E3 & E4).
    destruct (Hh i a o Hi Hu E1 E2) as (o' & Ho' & Hc). injection Hc as ? ? ? ?.
    exists a, o'. split_and!; try done; congruence.
  - intros i Hi Ha. destruct (Hpar i Hi Ha) as
      [?|(p & H1 & Hp & Hpi & Hpa & pa & po & H2 & H3 & H4 & H5 & H6)]; [by left|right].
    destruct (Hh p pa po Hp) as (po' & Ho' & Hc); [auto with zx|done|done|].
    injection Hc as ? ? ? ?.
    exists p. unfold parented. change (md (set_heap s h)) with (md s).
    split_and!; [done..|]. exists pa, po'. split_and!; [done..|congruence|congruence|congruence].
  - intros p Hp Ha. rewrite (children_ext (set_heap s h) s p) by (intros; reflexivity).
    by apply Hcnt.
Qed.

Lemma used_flags s i a o :
  oc_inv s -> index_ok i -> used (md s i) = true -> md_object (md s i) = Some a ->
  heap s !! a = Some o -> object_flags o <> 0.
Proof.
  intros Hinv Hi Hu Hm Ho.
  destruct (inv_owned s Hinv i Hi Hu) as (a' & o' & E1 & E2 & E3 & _).
  rewrite Hm in E1. injection E1 as <-. rewrite Ho in E2. injection E2 as <-.
  unfold index_ok in Hi. lia.
Qed.

Lemma oc_step_inv s s' : oc_step s s' -> oc_inv s -> oc_inv s'.
Proof.
  intros Hst Hinv. destruct Hst.
  - apply oc_inv_heap; [|done]. intros i a' o' Hi Hu Hm Ho. exists o'. split; [|done].
    rewrite lookup_insert_ne; [done|]. intros ->. congruence.
  - apply oc_inv_heap; [|done]. intros i a' o' Hi Hu Hm Ho.
    destruct (decide (a = a')) as [->|].
    + exists (f o'). by rewrite lookup_alter_eq, Ho.
    + exists o'. by rewrite lookup_alter_ne.
  - apply oc_inv_heap; [|done]. intros i a' o' Hi Hu Hm Ho. exists o'. split; [|done].
    rewrite lookup_delete_ne; [done|]. intros ->.
    rewrite Ho in H. injection H as ->. by eapply used_flags in Ho.
  - pose proof (register_object_spec kmalloc s a o owner Hinv H H0 H1) as Hr.
    destruct (register_object kmalloc s a owner). apply Hr.
  - by apply unregister_object_inv.
  - by apply set_reclaimer_inv.
  - by apply set_owner_inv.
  - by apply attach_inv.
  - by apply detach_inv.
  - by apply bump_inv.
  - by eapply complete_reclaim_inv.
Qed.

Lemma oc_reachable_inv s : oc_reachable s -> oc_inv s.
Proof.
  intros Hr. unfold oc_reachable in Hr.
  remember oc_init as s0 eqn:E. assert (H0 : oc_inv s0) by (subst; apply oc_inv_init).
  clear E. induction Hr; eauto using oc_step_inv.
Qed.

End reachable.

(** A concrete run: two objects are constructed and registered, and the
    second becomes a child of the first. *)
Definition demo_kmalloc (n : nat) (_ : gset addr) : option addr := Some 1%positive.
Definition demo_obj (i : Z) : bobject := Bobject i kt_domain embryo 1 1 0.
Definition demo_s1 : ocore := set_heap oc_init (<[1%positive := demo_obj 5]> ∅).
Definition demo_s2 : ocore :=
  set_heap demo_s1 (<[2%positive := demo_obj 7]> (heap demo_s1)).
Definition demo_s3 : ocore := (register_object demo_kmalloc demo_s2 1 0).2.
Definition demo_s4 : ocore := (register_object demo_kmalloc demo_s3 2 0).2.
Definition demo_s5 : ocore := (attach demo_s4 2 1).2.

(** Concrete runs go through [vm_compute] only. *)
#[global] Opaque register_object.

Lemma demo_s2_reachable : oc_reachable demo_kmalloc demo_s2.
Proof.
  apply rtc_l with demo_s1; [by apply oc_new|].
  apply rtc_once. by apply oc_new.
Qed.

Lemma demo_s5_reachable : oc_reachable demo_kmalloc demo_s5.
Proof.
  assert (E1 : heap demo_s2 !! 1%positive = Some (demo_obj 5)) by reflexivity.
  assert (E2 : heap demo_s3 !! 2%positive = Some (demo_obj 7)) by (vm_compute; reflexivity).
  assert (Hid : forall i, id (demo_obj i) = i) by done.
  unfold oc_reachable. etrans; [apply demo_s2_reachable|].
  apply rtc_l with demo_s3; [apply (oc_register _ _ _ _ 0 E1); [reflexivity|by vm_compute]|].
  apply rtc_l with demo_s4; [apply (oc_register _ _ _ _ 0 E2); [reflexivity|by vm_compute]|].
  apply rtc_once. apply (oc_attach _ demo_s4 2 1).
Qed.

(** C22: In every reachable state the dependent count of a registered
    object is exactly the number of active entries that name it as parent; so
    [unregister_object] succeeds if and only if the object has no child, and
    [has_dependents] answers truthfully. *)
Theorem dependents_exact kmalloc s a i :
  oc_reachable kmalloc s -> find_locked s a = Some i ->
  dependent_count (md s i) = children s i /\
  (has_dependents s a = true <-> exists j, index_ok j /\ is_child s i j = true) /\
  ((unregister_object s a).1 = Expected tt <->
     forall j, index_ok j -> is_child s i j = false).
Proof.
  intros Hr Hf. apply oc_reachable_inv in Hr as Hinv.
  destruct (find_locked_ok s a i Hinv Hf) as (Hi & Ha & _).
  pose proof (inv_count s Hinv i Hi Ha) as Hc. pose proof (children_none s i) as Hn.
  split; [exact Hc|].
  assert (Hdec : (dependent_count (md s i) =? 0) = true <-> children s i = 0) by lia.
  unfold has_dependents, unregister_object. rewrite Hf.
  destruct (dependent_count (md s i) =? 0); simpl; clear Hc.
  - pose proof (proj2 Hn (proj1 Hdec eq_refl)) as Hall.
    split; split; [discriminate|intros (j & Hj & Hc')|intros _; exact Hall|reflexivity].
    by rewrite Hall in Hc'.
  - assert (Hz : children s i <> 0) by (intros Hz; apply Hdec in Hz; discriminate).
    split; split; [intros _; by apply children_some|reflexivity|discriminate|].
    intros Hall. destruct (Hz (proj1 Hn Hall)).
Qed.

Lemma dependents_exact_witness :
  find_locked demo_s5 1 = Some 0 /\
  dependent_count (md demo_s5 0) = children demo_s5 0 /\
  (has_dependents demo_s5 1 = true <->
     exists j, index_ok j /\ is_child demo_s5 0 j = true) /\
  ((unregister_object demo_s5 1).1 = Expected tt <->
     forall j, index_ok j -> is_child demo_s5 0 j = false).
Proof.
  split; [vm_compute; reflexivity|].
  apply (dependents_exact demo_kmalloc demo_s5 1 0);
    [apply demo_s5_reachable|vm_compute; reflexivity].
Defined.
