(* ===== verification/ScomsTable.v ===== *)
(** * The SCOMS object table (src/zxfoundation/scoms/table.cxxm)

    [scoms_table<T, N>]: a table of [N] slots.  Free slots form a singly linked
    list threaded through [next_ptr]; an occupied slot holds the address of an
    object header in the heap of ObjectCore.v; a released slot whose object
    still has references is in neither place until the last [put] runs the
    reclaimer.  Slots carry a generation that is bumped by every allocation.

    A [world] is the object core and all tables, indexed by the tag the
    object's metadata uses as its reclaimer.  Allocation failures come from the
    [kmalloc] oracle of ObjectCore.v.  Traps are [None]. *)

From S2P Require Import Prelude Errors Kobject ObjectCore.

Definition BLOCK_SIZE : Z := 256.

Record table := Table {
  t_N : Z;                       (** capacity, the template argument *)
  slots : gmap Z addr;           (** [m_slot_blocks]: non-null object pointers *)
  slot_blocks : gset Z;          (** object blocks that are allocated *)
  next_blocks : gset Z;          (** link/generation blocks that are allocated *)
  next : gmap Z Z;               (** [next_ptr]; absent reads as [~0U] *)
  gens : gmap Z Z;               (** [generation_ptr]; absent reads as 0 *)
  free_head : Z;
  t_count : Z;
  initialized : bool;
  t_type : kobject_type
}.

Definition next_ptr (t : table) (i : Z) : Z := default U32_MAX (next t !! i).
Definition gen_ptr (t : table) (i : Z) : Z := default 0 (gens t !! i).

Definition set_next (t : table) (i v : Z) : table :=
  Table (t_N t) (slots t) (slot_blocks t) (next_blocks t) (<[i := v]> (next t))
    (gens t) (free_head t) (t_count t) (initialized t) (t_type t).
Definition set_head (t : table) (v : Z) : table :=
  Table (t_N t) (slots t) (slot_blocks t) (next_blocks t) (next t) (gens t) v
    (t_count t) (initialized t) (t_type t).
Definition set_slots (t : table) (m : gmap Z addr) : table :=
  Table (t_N t) m (slot_blocks t) (next_blocks t) (next t) (gens t)
    (free_head t) (t_count t) (initialized t) (t_type t).
Definition set_gen (t : table) (i g : Z) : table :=
  Table (t_N t) (slots t) (slot_blocks t) (next_blocks t) (next t)
    (<[i := g]> (gens t)) (free_head t) (t_count t) (initialized t) (t_type t).
Definition set_count (t : table) (n : Z) : table :=
  Table (t_N t) (slots t) (slot_blocks t) (next_blocks t) (next t) (gens t)
    (free_head t) n (initialized t) (t_type t).
Definition add_slot_block (t : table) (b : Z) : table :=
  Table (t_N t) (slots t) ({[b]} ∪ slot_blocks t) (next_blocks t) (next t)
    (gens t) (free_head t) (t_count t) (initialized t) (t_type t).
Definition add_next_block (t : table) (b : Z) : table :=
  Table (t_N t) (slots t) (slot_blocks t) ({[b]} ∪ next_blocks t) (next t)
    (gens t) (free_head t) (t_count t) (initialized t) (t_type t).

(** The table as the static storage leaves it. *)
Definition table_static (n : Z) : table :=
  Table n ∅ ∅ ∅ ∅ ∅ 0 0 false kt_none.

(** Pushing a slot index on the free list (the two assignments that occur at
    every failure exit of [alloc] and in [reclaim_retired]). *)
Definition push_free (t : table) (i : Z) : table :=
  set_head (set_next t i (free_head t)) i.

Section ops.
Context (kmalloc : nat -> gset addr -> option addr).

(** One [allocate] call. *)
Definition allocate (c : ocore) : option addr * ocore :=
  (kmalloc (calls c) (dom (heap c)), OCore (heap c) (blocks c) (S (calls c))).

Definition ensure_slot_block (c : ocore) (t : table) (b : Z) : bool * ocore * table :=
  if decide (b ∈ next_blocks t) then (true, c, t)
  else
    let '(nx, c1) := allocate c in
    let '(gn, c2) := allocate c1 in
    match nx, gn with
    | Some _, Some _ => (true, c2, add_next_block t b)
    | _, _ => (false, c2, t)
    end.

Definition ensure_object_block (c : ocore) (t : table) (b : Z) : bool * ocore * table :=
  if decide (b ∈ slot_blocks t) then (true, c, t)
  else
    match allocate c with
    | (Some _, c1) => (true, c1, add_slot_block t b)
    | (None, c1) => (false, c1, t)
    end.

(** The free-list loop of [init]: [n] iterations from [i]; [false] is the early
    return on an allocation failure. *)
Fixpoint init_loop (c : ocore) (t : table) (i : Z) (n : nat) : bool * ocore * table :=
  match n with
  | O => (true, c, t)
  | S n' =>
      let '(ok, c1, t1) := ensure_slot_block c t (i / BLOCK_SIZE) in
      if ok then
        init_loop c1 (set_next t1 i (if i + 1 <? t_N t1 then i + 1 else U32_MAX))
          (i + 1) n'
      else (false, c1, t1)
  end.

Definition init (c : ocore) (t : table) (ty : kobject_type) : ocore * table :=
  let t0 := Table (t_N t) (slots t) (slot_blocks t) (next_blocks t) (next t)
              (gens t) (free_head t) (t_count t) (initialized t) ty in
  let '(ok, c1, t1) := init_loop c t0 0 (Z.to_nat (t_N t)) in
  if ok then
    (c1, Table (t_N t1) (slots t1) (slot_blocks t1) (next_blocks t1) (next t1)
           (gens t1) 0 0 true (t_type t1))
  else (c1, t1).

(** The common tail of [alloc] and [alloc_at] once slot [slot] is unlinked. *)
Definition alloc_tail (c : ocore) (t : table) (tid slot : Z) (ty : kobject_type)
    : expected addr * ocore * table :=
  let '(ok, c1, t1) := ensure_object_block c t (slot / BLOCK_SIZE) in
  if negb ok then (Unexpected (from_memory mem_out_of_memory), c1, push_free t1 slot)
  else
    match allocate c1 with
    | (None, c2) =>
        (Unexpected (from_memory mem_out_of_memory), c2, push_free t1 slot)
    | (Some a, c2) =>
        let g := u32 (gen_ptr t1 slot + 1) in
        let t2 := set_gen (set_slots t1 (<[slot := a]> (slots t1))) slot g in
        let o := initialize (with_generation bobject_default g) slot ty in
        let c3 := set_heap c2 (<[a := o]> (heap c2)) in
        match register_object kmalloc c3 a KOBJECT_ID_INVALID with
        | (Unexpected e, c4) =>
            let t3 := push_free t2 slot in
            (Unexpected e, set_heap c4 (delete a (heap c4)),
             set_slots t3 (delete slot (slots t3)))
        | (Expected _, c4) =>
            match set_reclaimer c4 a (Some tid) with
            | (Unexpected e, c5) =>
                let c6 := (unregister_object c5 a).2 in
                let t3 := push_free t2 slot in
                (Unexpected e, set_heap c6 (delete a (heap c6)),
                 set_slots t3 (delete slot (slots t3)))
            | (Expected _, c5) =>
                let t3 := set_count t2 (u32 (t_count t2 + 1)) in
                (* the returned embryo handle takes its own reference *)
                (Expected a, upd_obj c5 a (fun o => with_ref o (ref o + 1)), t3)
            end
        end
    end.

Definition alloc (c : ocore) (t : table) (tid : Z) (req : kobject_type)
    : expected addr * ocore * table :=
  if negb (initialized t) then (Unexpected (from_generic uninitialized), c, t)
  else if free_head t =? U32_MAX
  then (Unexpected (from_memory mem_out_of_memory), c, t)
  else
    let slot := free_head t in
    let t1 := set_next (set_head t (next_ptr t slot)) slot U32_MAX in
    alloc_tail c t1 tid slot (if decide (req = kt_none) then t_type t else req).

(** The predecessor search of [alloc_at]: at most [n] links are followed. *)
Fixpoint find_prev (t : table) (id prev : Z) (n : nat) : option Z :=
  match n with
  | O => None
  | S n' =>
      if prev =? U32_MAX then None
      else if next_ptr t prev =? id then Some prev
      else find_prev t id (next_ptr t prev) n'
  end.

Definition alloc_at (c : ocore) (t : table) (tid id : Z)
    : expected addr * ocore * table :=
  if negb (initialized t) then (Unexpected (from_generic uninitialized), c, t)
  else if t_N t <=? id then (Unexpected (from_generic invalid_arg), c, t)
  else if bool_decide (is_Some (slots t !! id))
  then (Unexpected (from_locking lock_already_locked), c, t)
  else if free_head t =? U32_MAX
  then (Unexpected (from_memory mem_out_of_memory), c, t)
  else if free_head t =? id then
    alloc_tail c (set_next (set_head t (next_ptr t id)) id U32_MAX) tid id (t_type t)
  else
    match find_prev t id (free_head t) (S (Z.to_nat (t_N t))) with
    | None => (Unexpected (from_locking lock_already_locked), c, t)
    | Some prev =>
        alloc_tail c (set_next (set_next t prev (next_ptr t id)) id U32_MAX)
          tid id (t_type t)
    end.

End ops.

(** ** Lookup *)

Definition find_raw (c : ocore) (t : table) (i : Z) : option addr :=
  if t_N t <=? i then None
  else
    a ← slots t !! i; o ← heap c !! a;
    if id o =? KOBJECT_ID_INVALID then None else Some a.

Definition find_by_gen (c : ocore) (t : table) (i gen : Z) : option addr :=
  if t_N t <=? i then None
  else
    a ← slots t !! i; o ← heap c !! a;
    if id o =? KOBJECT_ID_INVALID then None
    else if negb (generation o =? gen) then None else Some a.

(** [reclaim_retired]; [None] is a trap. *)
Definition reclaim_retired (c : ocore) (t : table) (a : addr) : option (ocore * table) :=
  o ← heap c !! a;
  if t_N t <=? id o then None
  else if bool_decide (is_Some (slots t !! id o)) then None
  else
    c1 ← complete_reclaim c a;
    Some (set_heap c1 (delete a (heap c1)), push_free t (id o)).

Record world := World { core : ocore; tables : gmap Z table }.

(** [bobject::put], with the installed finalizer [finalize_last_put]. *)
Definition put (w : world) (a : addr) : option world :=
  o ← heap (core w) !! a;
  '(last, r) ← kref_put (ref o);
  let c := upd_obj (core w) a (fun o => with_ref o r) in
  if negb last then Some (World c (tables w))
  else
    tid ← finalize_reclaimer c a;
    t ← tables w !! tid;
    '(c', t') ← reclaim_retired c t a;
    Some (World c' (<[tid := t']> (tables w))).

(** [bobject::try_get]. *)
Definition try_get (w : world) (a : addr) : option (bool * world) :=
  o ← heap (core w) !! a;
  '(ok, r) ← kref_try_get (ref o);
  Some (ok, World (upd_obj (core w) a (fun o => with_ref o r)) (tables w)).

Definition releasable (s : lifecycle_state) : bool :=
  match s with embryo | active | suspended => true | _ => false end.

(** The locked section of [release]: [inr a] is the retired object. *)
Definition release_locked (c : ocore) (t : table) (i : Z)
    : expected addr * ocore * table :=
  match slots t !! i with
  | None => (Unexpected (from_generic not_found), c, t)
  | Some a =>
      match heap c !! a with
      | None => (Unexpected (from_generic not_found), c, t)
      | Some o =>
          let '(ok, o1) :=
            if releasable (state o) then transition o dying else (true, o) in
          let c1 := set_heap c (<[a := o1]> (heap c)) in
          if negb ok || negb (bool_decide (state o1 = dying))
          then (Unexpected (from_generic invalid_arg), c1, t)
          else
            match unregister_object c1 a with
            | (Unexpected e, c2) => (Unexpected e, c2, t)
            | (Expected _, c2) =>
                let c3 := upd_obj c2 a (fun o => (transition o destroyed).2) in
                (Expected a, c3,
                 set_count (set_slots t (delete i (slots t))) (u32 (t_count t - 1)))
            end
      end
  end.

Definition release (w : world) (tid i : Z) : option (expected unit * world) :=
  t ← tables w !! tid;
  if t_N t <=? i then Some (Unexpected (from_generic invalid_arg), w)
  else
    match release_locked (core w) t i with
    | (Unexpected e, c1, t1) =>
        Some (Unexpected e, World c1 (<[tid := t1]> (tables w)))
    | (Expected a, c1, t1) =>
        w' ← put (World c1 (<[tid := t1]> (tables w))) a;
        Some (Expected tt, w')
    end.

(** [acquire_ref<State>]: a handle is a reference taken on the object. *)
Definition acquire_ref (w : world) (tid i : Z) (s : lifecycle_state)
    : option (option addr * world) :=
  t ← tables w !! tid;
  match slots t !! i with
  | None => Some (None, w)
  | Some a =>
      o ← heap (core w) !! a;
      if bool_decide (state o = s) then
        '(ok, w1) ← try_get w a;
        Some ((if (ok : bool) then Some a else None), w1)
      else Some (None, w)
  end.

(** [destroy_if] with the predicate and cleanup as functions of the object;
    the handle's reference is dropped at the end of each iteration. *)
Fixpoint destroy_if_loop (w : world) (tid : Z) (pred : world -> addr -> bool)
    (cleanup : world -> addr -> world) (i : Z) (n : nat) (destroyed_n : Z)
    : option (Z * world) :=
  match n with
  | O => Some (destroyed_n, w)
  | S n' =>
      '(r, w1) ← acquire_ref w tid i active;
      match r with
      | None => destroy_if_loop w1 tid pred cleanup (i + 1) n' destroyed_n
      | Some a =>
          if negb (pred w1 a) then
            w2 ← put w1 a;
            destroy_if_loop w2 tid pred cleanup (i + 1) n' destroyed_n
          else
            '(res, w2) ← release (cleanup w1 a) tid i;
            w3 ← put w2 a;
            destroy_if_loop w3 tid pred cleanup (i + 1) n'
              (if has_value res then u32 (destroyed_n + 1) else destroyed_n)
      end
  end.

Definition destroy_if (w : world) (tid : Z) (pred : world -> addr -> bool)
    (cleanup : world -> addr -> world) : option (Z * world) :=
  t ← tables w !! tid;
  destroy_if_loop w tid pred cleanup 0 (Z.to_nat (t_N t)) 0.

(** ** The free list *)

(** [chain t h l]: following [next_ptr] from [h] visits exactly [l] and ends at
    the [~0U] sentinel. *)
Fixpoint chain (t : table) (h : Z) (l : list Z) : Prop :=
  match l with
  | [] => h = U32_MAX
  | i :: r => h = i /\ chain t (next_ptr t i) r
  end.

(** The abstract table: free slots in list order, slots in use, and retired
    slots whose object is still referenced.  Every index below the capacity is
    in exactly one of the three. *)
Record tbl_rel (t : table) (fl : list Z) (ret : gset Z) : Prop := {
  rel_chain : chain t (free_head t) fl;
  rel_nodup : NoDup fl;
  rel_cap : 0 <= t_N t <= U32_MAX;
  rel_range : forall i, 0 <= i < t_N t <->
                i ∈ fl \/ is_Some (slots t !! i) \/ i ∈ ret;
  rel_free_slot : forall i, i ∈ fl -> slots t !! i = None;
  rel_free_ret : forall i, i ∈ fl -> i ∉ ret;
  rel_slot_ret : forall i, is_Some (slots t !! i) -> i ∉ ret;
  rel_count : t_count t = Z.of_nat (size (slots t))
}.

Lemma chain_ext t t' h l :
  (forall i, i ∈ l -> next_ptr t' i = next_ptr t i) -> chain t h l -> chain t' h l.
Proof.
  revert h. induction l as [|i l IH]; intros h Hn; simpl; [done|].
  intros [-> Hc]. split; [done|]. rewrite Hn by set_solver.
  apply IH; [|done]. intros j Hj. apply Hn. set_solver.
Qed.

Lemma next_ptr_set_next t i v j :
  next_ptr (set_next t i v) j = if decide (i = j) then v else next_ptr t j.
Proof. unfold next_ptr; simpl. rewrite lookup_insert. case_decide; done. Qed.

Lemma next_ptr_push_free t i j :
  next_ptr (push_free t i) j = if decide (i = j) then free_head t else next_ptr t j.
Proof. apply (next_ptr_set_next t i (free_head t) j). Qed.

Lemma chain_app t h l1 i l2 :
  chain t h (l1 ++ i :: l2) -> chain t (next_ptr t i) l2.
Proof. revert h. induction l1 as [|j l1 IH]; intros h; simpl; [naive_solver|]. intros [_ ?]; eauto. Qed.

(** Removing [i] from the middle by redirecting its predecessor. *)
Lemma chain_unlink t h l1 p i l2 :
  NoDup (l1 ++ p :: i :: l2) -> chain t h (l1 ++ p :: i :: l2) ->
  chain (set_next (set_next t p (next_ptr t i)) i U32_MAX) h (l1 ++ p :: l2).
Proof.
  revert h. induction l1 as [|j l1 IH]; intros h Hnd; simpl in *.
  - intros (-> & Hp & Hc). apply list.NoDup_cons in Hnd as [Hp1 [Hi Hnd]%list.NoDup_cons].
    split; [done|].
    rewrite !next_ptr_set_next, decide_False, decide_True by set_solver.
    eapply chain_ext; [|exact Hc]. intros k Hk. rewrite !next_ptr_set_next, !decide_False; set_solver.
  - intros [-> Hc]. apply list.NoDup_cons in Hnd as [Hj Hnd]. split; [done|].
    rewrite !next_ptr_set_next, !decide_False by set_solver. by apply IH.
Qed.

Lemma chain_tail_not_id t h l (i : Z) : chain t h l -> i ∉ l -> i <> U32_MAX -> h <> i.
Proof. destruct l; simpl; [by intros -> _ ? |]. intros [-> _] Hi _ ->. set_solver. Qed.

(** [find_prev] finds the predecessor when [id] is on the list past the head. *)
Lemma find_prev_spec t id h l n :
  chain t h l -> id <> U32_MAX -> (forall i, i ∈ l -> i <> U32_MAX) ->
  (length l < n)%nat ->
  match find_prev t id h n with
  | None => id ∉ tail l
  | Some p => exists l1 l2, l = l1 ++ p :: id :: l2 /\ id ∉ tail (l1 ++ [p])
  end.
Proof.
  revert h n. induction l as [|i l IH]; intros h n Hc Hid Hmax Hn;
    destruct n as [|n]; simpl in Hn; try lia; cbn [find_prev].
  - simpl in Hc. subst h. rewrite Z.eqb_refl. set_solver.
  - destruct Hc as [-> Hc]. rewrite (proj2 (Z.eqb_neq i _)) by (apply Hmax; set_solver).
    destruct (Z.eqb_spec (next_ptr t i) id) as [He|He].
    + destruct l as [|j l]; simpl in Hc; [congruence|]. destruct Hc as [Hj _].
      exists [], l. simpl. split; [|set_solver]. congruence.
    + specialize (IH (next_ptr t i) n Hc Hid ltac:(intros; apply Hmax; set_solver) ltac:(lia)).
      destruct (find_prev t id (next_ptr t i) n) as [p|].
      * destruct IH as (l1 & l2 & -> & Hni). exists (i :: l1), l2. split; [done|]. simpl.
        destruct l1 as [|j l1]; simpl in *; destruct Hc as [Hp _]; rewrite Hp in He; set_solver.
      * simpl. destruct l as [|j l]; [set_solver|]. simpl in *.
        destruct Hc as [Hp _]. rewrite Hp in He. set_solver.
Qed.

Lemma rel_free_max t fl ret i : tbl_rel t fl ret -> i ∈ fl -> i <> U32_MAX.
Proof.
  intros Hr Hi. pose proof (rel_cap _ _ _ Hr).
  pose proof (proj2 (rel_range _ _ _ Hr i) (or_introl Hi)). lia.
Qed.

(** A free-list chain has no index twice, so it is shorter than the capacity. *)
Lemma rel_free_length t fl ret : tbl_rel t fl ret -> (length fl <= Z.to_nat (t_N t))%nat.
Proof.
  intros Hr. rewrite <- (length_seqZ 0 (t_N t)).
  apply submseteq_length, NoDup_submseteq; [apply Hr|].
  intros i Hi. apply elem_of_seqZ. rewrite Z.add_0_l. apply (rel_range _ _ _ Hr). by left.
Qed.

(** ** The table invariant *)

(** Object [a] occupies slot [i] of table [tid]. *)
Definition live_obj (tid : Z) (c : ocore) (t : table) (i : Z) (a : addr) : Prop :=
  exists o k, heap c !! a = Some o /\ id o = i /\ generation o = gen_ptr t i /\
    0 < ref o <= KREF_MAX /\ state o <> destroyed /\
    find_locked c a = Some k /\ reclaimer (md c k) = Some tid.

(** Object [a] was released from slot [i] and still has references. *)
Definition retired_obj (tid : Z) (c : ocore) (i : Z) (a : addr) : Prop :=
  exists o k, heap c !! a = Some o /\ id o = i /\ 0 < ref o <= KREF_MAX /\
    state o = destroyed /\ retired_locked c a = Some k /\
    reclaimer (md c k) = Some tid.

Record tab_inv (tid : Z) (c : ocore) (t : table) (fl : list Z) (ret : gmap Z addr)
    : Prop := {
  ti_core : oc_inv c;
  ti_rel : tbl_rel t fl (dom ret);
  ti_live : forall i a, slots t !! i = Some a -> live_obj tid c t i a;
  ti_ret : forall i a, ret !! i = Some a -> retired_obj tid c i a
}.

Lemma live_obj_frame tid c c' t t' i a b :
  same_off a c c' -> b <> a -> gen_ptr t' i = gen_ptr t i ->
  live_obj tid c t i b -> live_obj tid c' t' i b.
Proof.
  intros Hs Hb Hg (o & k & H1 & H2 & H3 & H4 & H5 & H6 & H7).
  destruct (same_off_lookup md_active a b c c' k) as [E1 E2]; auto.
  exists o, k. rewrite (proj1 Hs) by done. rewrite Hg, E2. done.
Qed.

Lemma retired_obj_frame tid c c' i a b :
  same_off a c c' -> b <> a -> retired_obj tid c i b -> retired_obj tid c' i b.
Proof.
  intros Hs Hb (o & k & H1 & H2 & H3 & H4 & H5 & H6).
  destruct (same_off_lookup reclaim_pending a b c c' k) as [E1 E2]; auto.
  exists o, k. rewrite (proj1 Hs) by done. rewrite E2. done.
Qed.

Lemma live_not_fresh tid c t i a : live_obj tid c t i a -> is_Some (heap c !! a).
Proof. intros (o & k & H & _). eauto. Qed.

Lemma retired_not_fresh tid c i a : retired_obj tid c i a -> is_Some (heap c !! a).
Proof. intros (o & k & H & _). eauto. Qed.

(** Slots, retired or live, hold distinct objects. *)
Lemma ti_slot_inj tid c t fl ret i j a :
  tab_inv tid c t fl ret -> slots t !! i = Some a -> slots t !! j = Some a -> i = j.
Proof.
  intros Hi H1 H2. destruct (ti_live _ _ _ _ _ Hi _ _ H1) as (o & k & E1 & E2 & _).
  destruct (ti_live _ _ _ _ _ Hi _ _ H2) as (o' & k' & F1 & F2 & _). congruence.
Qed.

Lemma ti_ret_inj tid c t fl ret i j a :
  tab_inv tid c t fl ret -> ret !! i = Some a -> ret !! j = Some a -> i = j.
Proof.
  intros Hi H1 H2. destruct (ti_ret _ _ _ _ _ Hi _ _ H1) as (o & k & E1 & E2 & _).
  destruct (ti_ret _ _ _ _ _ Hi _ _ H2) as (o' & k' & F1 & F2 & _). congruence.
Qed.

Lemma ti_slot_ret tid c t fl ret i j a :
  tab_inv tid c t fl ret -> slots t !! i = Some a -> ret !! j = Some a -> False.
Proof.
  intros Hi H1 H2.
  destruct (ti_live _ _ _ _ _ Hi _ _ H1) as (o & k & E1 & _ & _ & _ & E2 & _).
  destruct (ti_ret _ _ _ _ _ Hi _ _ H2) as (o' & k' & F1 & _ & _ & F2 & _). congruence.
Qed.

Lemma size_below (m : gmap Z addr) n :
  0 <= n -> (forall i, is_Some (m !! i) -> 0 <= i < n) -> Z.of_nat (size m) <= n.
Proof.
  intros Hn Hm. rewrite <- size_dom.
  assert (Hs : dom m ⊆ list_to_set (C := gset Z) (seqZ 0 n)).
  { intros i Hi. apply elem_of_list_to_set, elem_of_seqZ. rewrite Z.add_0_l.
    apply Hm. by apply elem_of_dom. }
  apply subseteq_size in Hs. rewrite size_list_to_set in Hs by apply NoDup_seqZ.
  rewrite length_seqZ in Hs. lia.
Qed.

(** The fields the invariant reads. *)
Lemma tbl_rel_ext t t' fl ret :
  t_N t' = t_N t -> slots t' = slots t -> free_head t' = free_head t ->
  t_count t' = t_count t -> (forall i, i ∈ fl -> next_ptr t' i = next_ptr t i) ->
  tbl_rel t fl ret -> tbl_rel t' fl ret.
Proof.
  intros HN Hs Hh Hc Hn []. split; rewrite ?HN, ?Hs, ?Hh, ?Hc; try done.
  by eapply chain_ext.
Qed.

(** Taking the head slot off and filling it. *)
Lemma tbl_rel_occupy t slot fl ret a g :
  tbl_rel (push_free t slot) (slot :: fl) ret ->
  tbl_rel (set_count (set_gen (set_slots t (<[slot := a]> (slots t))) slot g)
             (u32 (t_count t + 1))) fl ret.
Proof.
  intros Hr. pose proof (rel_nodup _ _ _ Hr) as [Hnin Hnd]%list.NoDup_cons.
  pose proof (rel_free_slot _ _ _ Hr slot ltac:(left)) as Hnone. simpl in Hnone.
  assert (Hsz : size (<[slot := a]> (slots t)) = S (size (slots t)))
    by (by apply map_size_insert_None).
  destruct Hr as [Hc _ Hcap Hran Hfs Hfr Hsr Hcnt].
  assert (Hch : chain t (free_head t) fl).
  { destruct Hc as [_ Hc]. rewrite next_ptr_push_free, decide_True in Hc by done.
    eapply chain_ext; [|exact Hc].
    intros i Hi. rewrite next_ptr_push_free, decide_False; [done|set_solver]. }
  clear Hc. cbn [push_free set_head set_next slots t_N t_count] in *.
  assert (Hran' : forall i, 0 <= i < t_N t <->
            i ∈ fl \/ is_Some (<[slot := a]> (slots t) !! i) \/ i ∈ ret).
  { intros i. rewrite Hran, lookup_insert_is_Some'. set_solver. }
  assert (Hsz' : Z.of_nat (size (<[slot := a]> (slots t))) <= t_N t).
  { apply size_below; [lia|]. intros i Hi. apply Hran'. by right; left. }
  split; cbn [set_count set_gen set_slots slots t_N t_count free_head].
  - by eapply chain_ext; [|exact Hch].
  - done.
  - done.
  - done.
  - intros i Hi. rewrite lookup_insert_ne by set_solver. apply Hfs. by right.
  - intros i Hi. apply Hfr. by right.
  - intros i. rewrite lookup_insert_is_Some'. intros [<-|?]; [apply Hfr; by left|by apply Hsr].
  - rewrite Hsz in *. rewrite Hcnt. rewrite u32_small by solve_u. lia.
Qed.

Section alloc_spec.
Context (kmalloc : nat -> gset addr -> option addr).
(** The allocator never hands out an address that is in use. *)
Hypothesis kmalloc_fresh : forall n live a, kmalloc n live = Some a -> a ∉ live.

(** Changing only the call counter or the block sets is invisible. *)
Lemma tab_inv_silent tid c c' t t' fl ret :
  heap c' = heap c -> blocks c' = blocks c ->
  t_N t' = t_N t -> slots t' = slots t -> free_head t' = free_head t ->
  t_count t' = t_count t -> next t' = next t -> gens t' = gens t ->
  tab_inv tid c t fl ret -> tab_inv tid c' t' fl ret.
Proof.
  destruct c, c'; simpl. intros -> -> HN Hs Hh Hc Hn Hg [H1 H2 H3 H4].
  split; [|eapply tbl_rel_ext; eauto; unfold next_ptr; by rewrite Hn| |done].
  - by eapply oc_inv_calls.
  - intros i a. rewrite Hs. intros Ha. unfold live_obj, gen_ptr. rewrite Hg. apply H3, Ha.
Qed.

Lemma ensure_object_block_silent c t b ok c1 t1 :
  ensure_object_block kmalloc c t b = (ok, c1, t1) ->
  heap c1 = heap c /\ blocks c1 = blocks c /\ t_N t1 = t_N t /\ slots t1 = slots t /\
  free_head t1 = free_head t /\ t_count t1 = t_count t /\ next t1 = next t /\
  gens t1 = gens t /\ t_type t1 = t_type t.
Proof.
  unfold ensure_object_block, allocate.
  case_decide; [|destruct (kmalloc _ _)]; intros [= <- <- <-]; done.
Qed.

(** The table after a filled slot: the new object is live, the others are. *)
Lemma tab_inv_occupy tid c c' t slot fl ret a g :
  tab_inv tid c (push_free t slot) (slot :: fl) ret ->
  heap c !! a = None -> oc_inv c' -> same_off a c c' ->
  let t' := set_count (set_gen (set_slots t (<[slot := a]> (slots t))) slot g)
              (u32 (t_count t + 1)) in
  live_obj tid c' t' slot a -> tab_inv tid c' t' fl ret.
Proof.
  intros [H1 H2 H3 H4] Hfresh Hinv' Hso t' Hl. split; [done|by apply tbl_rel_occupy| |].
  - intros i b. unfold t'; cbn [set_count set_gen set_slots slots].
    rewrite lookup_insert_Some. intros [[<- <-]|[Hne Hb]]; [done|].
    pose proof (H3 i b Hb) as Hlb. eapply live_obj_frame; [done| | |exact Hlb].
    + intros ->. apply live_not_fresh in Hlb as [? ?]. congruence.
    + unfold gen_ptr, t'; simpl. by rewrite lookup_insert_ne.
  - intros i b Hb. pose proof (H4 i b Hb) as Hlb. eapply retired_obj_frame; [done| |done].
    intros ->. apply retired_not_fresh in Hlb as [? ?]. congruence.
Qed.

(** Same table shape, another core that agrees off a fresh address. *)
Lemma tab_inv_core tid c c' t t' fl ret a g slot :
  tab_inv tid c t fl ret -> heap c !! a = None -> oc_inv c' -> same_off a c c' ->
  slots t !! slot = None ->
  t_N t' = t_N t -> slots t' = slots t -> free_head t' = free_head t ->
  t_count t' = t_count t -> next t' = next t -> gens t' = <[slot := g]> (gens t) ->
  tab_inv tid c' t' fl ret.
Proof.
  intros [H1 H2 H3 H4] Hfresh Hinv' Hso Hslot HN Hs Hh Hc Hn Hg.
  split; [done|eapply tbl_rel_ext; eauto; unfold next_ptr; by rewrite Hn| |].
  - intros i b. rewrite Hs. intros Hb. pose proof (H3 i b Hb) as Hlb.
    eapply live_obj_frame; [done| | |exact Hlb].
    + intros ->. apply live_not_fresh in Hlb as [? ?]. congruence.
    + unfold gen_ptr. rewrite Hg, lookup_insert_ne; [done|]. intros ->. congruence.
  - intros i b Hb. pose proof (H4 i b Hb) as Hlb. eapply retired_obj_frame; [done| |done].
    intros ->. apply retired_not_fresh in Hlb as [? ?]. congruence.
Qed.

(** What a successful allocation of slot [slot] delivers. *)
Definition allocated (c' : ocore) (t t' : table) (slot : Z) (ty : kobject_type)
    (a : addr) : Prop :=
  slots t' = <[slot := a]> (slots t) /\
  gen_ptr t' slot = u32 (gen_ptr t slot + 1) /\
  exists f, heap c' !! a =
    Some (Bobject slot ty embryo 2 (u32 (gen_ptr t slot + 1)) f).

Lemma alloc_tail_spec tid c t slot ty fl ret :
  tab_inv tid c (push_free t slot) (slot :: fl) ret ->
  match alloc_tail kmalloc c t tid slot ty with
  | (Expected a, c', t') =>
      tab_inv tid c' t' fl ret /\ allocated c' t t' slot ty a /\ heap c !! a = None /\
      same_off a c c'
  | (Unexpected e, c', t') =>
      e = from_memory mem_out_of_memory /\ tab_inv tid c' t' (slot :: fl) ret /\
      slots t' = slots t /\ heap c' = heap c
  end.
Proof.
  intros Hti. unfold alloc_tail.
  destruct (ensure_object_block kmalloc c t _) as [[ok c1] t1] eqn:Heb.
  apply ensure_object_block_silent in Heb as (E1 & E2 & E3 & E4 & E5 & E6 & E7 & E8 & _).
  assert (Hti1 : tab_inv tid c1 (push_free t1 slot) (slot :: fl) ret).
  { apply (tab_inv_silent tid c c1 (push_free t slot)); simpl; congruence. }
  destruct ok; simpl; [|done].
  destruct (kmalloc _ _) as [a|] eqn:Hk.
  2:{ split_and!; try done. by apply (tab_inv_silent tid c1 _ (push_free t1 slot)). }
  apply kmalloc_fresh in Hk. rewrite E1 in Hk. apply not_elem_of_dom in Hk.
  assert (Hg1 : gen_ptr t1 slot = gen_ptr t slot) by (unfold gen_ptr; by rewrite E8).
  rewrite Hg1.
  assert (Hslot : slots t !! slot = None).
  { apply (rel_free_slot _ _ _ (ti_rel _ _ _ _ _ Hti)). left. }
  assert (Hrng : 0 <= slot < t_N t).
  { apply (rel_range _ _ _ (ti_rel _ _ _ _ _ Hti)). left. left. }
  assert (Hcap : t_N t <= U32_MAX) by apply (rel_cap _ _ _ (ti_rel _ _ _ _ _ Hti)).
  set (g := u32 (gen_ptr t slot + 1)).
  set (o := initialize (with_generation bobject_default g) slot ty).
  set (c3 := set_heap _ _).
  assert (Hid : id o <> KOBJECT_ID_INVALID) by (unfold KOBJECT_ID_INVALID; simpl; lia).
  assert (Hc3 : heap c3 = <[a := o]> (heap c)) by (unfold c3; simpl; by rewrite E1).
  assert (Hinv3 : oc_inv c3).
  { apply (oc_step_inv kmalloc (OCore (heap c1) (blocks c1) (S (calls c1)))).
    - apply (oc_new kmalloc (OCore (heap c1) (blocks c1) (S (calls c1))) a o); [by simpl; rewrite E1|done..].
    - apply (oc_inv_calls _ _ (calls c1)). destruct c1. apply (ti_core _ _ _ _ _ Hti1). }
  assert (Hso3 : same_off a c c3).
  { split; [intros b Hb; by rewrite Hc3, lookup_insert_ne|].
    intros k Hk' _ _. unfold md, c3; simpl. by rewrite E2. }
  pose proof (register_object_spec kmalloc c3 a o KOBJECT_ID_INVALID Hinv3) as Hreg.
  rewrite Hc3, lookup_insert_eq in Hreg. specialize (Hreg eq_refl eq_refl Hid).
  destruct (register_object kmalloc c3 a KOBJECT_ID_INVALID) as [[[]|e] c4].
  - destruct Hreg as (Hinv4 & Hso4 & Hok & _). destruct (Hok eq_refl) as (k & Hf & Hmk & Hh4).
    unfold set_reclaimer. rewrite Hf.
    destruct (find_locked_ok c4 a k Hinv4 Hf) as (Hk' & Hact & Hobj & _).
    set (c5 := set_md c4 k _).
    assert (Hinv5 : oc_inv c5) by (apply oc_inv_set_core; auto with zx).
    assert (Hso5 : same_off a c4 c5)
      by (apply same_off_set_md; eauto using inv_len with zx).
    set (c6 := upd_obj c5 a _).
    assert (Hinv6 : oc_inv c6) by (apply (oc_step_inv kmalloc c5); [by apply oc_header|done]).
    assert (Hso : same_off a c c6).
    { eapply same_off_trans; [|apply same_off_upd_obj].
      eapply same_off_trans; [|exact Hso5]. eapply same_off_trans; done. }
    assert (Hh6 : heap c6 !! a = Some (Bobject slot ty embryo 2 g (k + 1))).
    { unfold c6, upd_obj, c5. simpl. by rewrite lookup_alter_eq, Hh4. }
    assert (Hmd6 : md c6 k = set_reclaimer_field (md c4 k) tid).
    { unfold c6, c5. rewrite md_upd_obj. apply md_set_md_eq; eauto using inv_len with zx.
      apply Hk'. }
    split_and!; [|split_and!|done|done].
    + eapply (tab_inv_occupy tid c c6 t1); try done.
      { apply (tab_inv_silent tid c c (push_free t slot)); simpl; congruence. }
      exists (Bobject slot ty embryo 2 g (k + 1)), k. split_and!; try done.
      * unfold gen_ptr; simpl. by rewrite lookup_insert_eq.
      * apply (lookup_entry_intro _ _ _ _ _ Hh6); try done; rewrite Hmd6; done.
      * by rewrite Hmd6.
    + simpl. by rewrite E4.
    + unfold gen_ptr at 1; simpl. by rewrite lookup_insert_eq.
    + exists (k + 1). done.
  - destruct Hreg as (Hinv4 & Hso4 & _ & Hko). destruct (Hko ltac:(done)) as [He Hh4].
    injection He as ->.
    assert (Hdel : delete a (heap c4) = heap c).
    { rewrite Hh4, delete_insert_eq, delete_id; done. }
    split_and!; try done.
    + eapply (tab_inv_core tid c _ (push_free t slot) _ _ _ a g slot); try done.
      * apply (oc_step_inv kmalloc c4); [|done]. eapply (oc_free kmalloc c4 a o); [|done].
        by rewrite Hh4, lookup_insert_eq.
      * eapply same_off_trans; [|apply same_off_delete]. by eapply same_off_trans.
      * simpl. rewrite E4, delete_insert_eq, delete_id; done.
      * simpl. by rewrite E5, E7.
      * simpl. by rewrite E8.
    + simpl. rewrite E4, delete_insert_eq, delete_id; done.
Qed.

End alloc_spec.

Section alloc_theorems.
Context (kmalloc : nat -> gset addr -> option addr).
Hypothesis kmalloc_fresh : forall n live a, kmalloc n live = Some a -> a ∉ live.

(** Reordering the free list: any table whose chain visits the same indices. *)
Lemma tab_inv_reorder tid c t t' fl fl' ret :
  t_N t' = t_N t -> slots t' = slots t -> t_count t' = t_count t ->
  gens t' = gens t -> chain t' (free_head t') fl' -> fl' ≡ₚ fl ->
  tab_inv tid c t fl ret -> tab_inv tid c t' fl' ret.
Proof.
  intros HN Hs Hc Hg Hch Hp [H1 [] H3 H4]. split; [done| | |done].
  - split; rewrite ?HN, ?Hs, ?Hc; try done; [by rewrite Hp|..];
      intros i; setoid_rewrite (elem_of_Permutation_proper i _ _ Hp); auto.
  - intros i a. rewrite Hs. intros Ha. unfold live_obj, gen_ptr. rewrite Hg. apply H3, Ha.
Qed.

Lemma pop_head_inv tid c t i r ret :
  tab_inv tid c t (i :: r) ret ->
  tab_inv tid c (push_free (set_next (set_head t (next_ptr t i)) i U32_MAX) i) (i :: r) ret.
Proof.
  intros Hti. pose proof (rel_chain _ _ _ (ti_rel _ _ _ _ _ Hti)) as [Hh Hc].
  apply (tab_inv_reorder tid c t _ (i :: r)); try done. split; [done|].
  rewrite next_ptr_push_free, decide_True by done. cbn [set_next set_head free_head].
  pose proof (rel_nodup _ _ _ (ti_rel _ _ _ _ _ Hti)) as [Hi _]%list.NoDup_cons.
  eapply chain_ext; [|exact Hc]. intros j Hj.
  rewrite next_ptr_push_free, next_ptr_set_next, !decide_False; [done|set_solver..].
Qed.

Lemma perm_unlink (l1 l2 : list Z) p i : i :: l1 ++ p :: l2 ≡ₚ l1 ++ p :: i :: l2.
Proof.
  change (l1 ++ p :: i :: l2) with (l1 ++ [p] ++ i :: l2).
  change (l1 ++ p :: l2) with (l1 ++ [p] ++ l2). rewrite !app_assoc.
  apply Permutation_middle.
Qed.

Lemma unlink_inv tid c t l1 p i l2 ret :
  tab_inv tid c t (l1 ++ p :: i :: l2) ret ->
  tab_inv tid c
    (push_free (set_next (set_next t p (next_ptr t i)) i U32_MAX) i)
    (i :: l1 ++ p :: l2) ret.
Proof.
  intros Hti. pose proof (ti_rel _ _ _ _ _ Hti) as Hr.
  pose proof (rel_nodup _ _ _ Hr) as Hnd.
  apply (tab_inv_reorder tid c t _ (l1 ++ p :: i :: l2)); try done.
  - split; [done|]. rewrite next_ptr_push_free, decide_True by done.
    cbn [set_next free_head].
    eapply chain_ext; [|apply (chain_unlink t (free_head t) l1 p i l2 Hnd), Hr].
    intros j Hj. rewrite next_ptr_push_free, decide_False; [done|].
    intros <-. rewrite (Permutation_app_comm l1) in Hnd. simpl in Hnd.
    rewrite !list.NoDup_cons in Hnd. set_solver.
  - apply perm_unlink.
Qed.

(** [alloc] on the abstract table. *)
Lemma alloc_spec tid c t req fl ret :
  tab_inv tid c t fl ret -> initialized t = true ->
  match alloc kmalloc c t tid req with
  | (Unexpected e, c', t') =>
      e = from_memory mem_out_of_memory /\ tab_inv tid c' t' fl ret /\
      slots t' = slots t /\ heap c' = heap c
  | (Expected a, c', t') =>
      exists i r, fl = i :: r /\ tab_inv tid c' t' r ret /\ heap c !! a = None /\
        allocated c' t t' i (if decide (req = kt_none) then t_type t else req) a
  end.
Proof.
  intros Hti Hinit. unfold alloc. rewrite Hinit. simpl.
  pose proof (ti_rel _ _ _ _ _ Hti) as Hr. pose proof (rel_chain _ _ _ Hr) as Hc.
  destruct fl as [|i r]; simpl in Hc.
  - rewrite Hc, Z.eqb_refl. done.
  - destruct Hc as [Hh Hc]. rewrite Hh.
    rewrite (proj2 (Z.eqb_neq _ _)) by (eapply rel_free_max; [done|left]).
    pose proof (alloc_tail_spec kmalloc kmalloc_fresh tid c _ i
      (if decide (req = kt_none) then t_type t else req) r ret
      (pop_head_inv tid c t i r ret Hti)) as Ht.
    destruct (alloc_tail _ _ _ _ _ _) as [[[a|e] c'] t'].
    + destruct Ht as (H1 & H2 & H3 & _). exists i, r. done.
    + destruct Ht as (H1 & H2 & H3 & H4). done.
Qed.

(** [alloc_at] on the abstract table. *)
Lemma alloc_at_spec tid c t i fl ret :
  tab_inv tid c t fl ret -> initialized t = true -> 0 <= i ->
  match alloc_at kmalloc c t tid i with
  | (Expected a, c', t') =>
      i ∈ fl /\ slots t' !! i = Some a /\ allocated c' t t' i (t_type t) a /\
      exists fl', fl ≡ₚ i :: fl' /\ tab_inv tid c' t' fl' ret
  | (Unexpected e, c', t') =>
      slots t' = slots t /\ heap c' = heap c /\
      (exists fl', fl' ≡ₚ fl /\ tab_inv tid c' t' fl' ret) /\
      (i ∉ fl -> c' = c /\ t' = t)
  end.
Proof.
  intros Hti Hinit Hi0. unfold alloc_at. rewrite Hinit. cbn [negb].
  pose proof (ti_rel _ _ _ _ _ Hti) as Hr. pose proof (rel_chain _ _ _ Hr) as Hc.
  pose proof (rel_cap _ _ _ Hr) as Hcap.
  assert (Hsame : slots t = slots t /\ heap c = heap c /\
    (exists fl', fl' ≡ₚ fl /\ tab_inv tid c t fl' ret) /\ (i ∉ fl -> c = c /\ t = t)) by eauto 10.
  destruct (Z.leb_spec (t_N t) i); [done|].
  case_bool_decide as Hs; [done|].
  destruct (Z.eqb_spec (free_head t) U32_MAX); [done|].
  destruct (Z.eqb_spec (free_head t) i) as [He|He].
  - destruct fl as [|j r]; simpl in Hc; [done|].
    assert (j = i) as -> by (destruct Hc; congruence).
    pose proof (alloc_tail_spec kmalloc kmalloc_fresh tid c _ i (t_type t) r ret
      (pop_head_inv tid c t i r ret Hti)) as Ht.
    destruct (alloc_tail _ _ _ _ _ _) as [[[a|e] c'] t'].
    + destruct Ht as (H1 & H2 & H3 & _). split_and!; [left| |done|eauto].
      rewrite (proj1 H2). apply lookup_insert_eq.
    + destruct Ht as (H1 & H2 & H3 & H4). split_and!; [done..|eauto|]. intros []. left.
  - pose proof (find_prev_spec t i (free_head t) fl (S (Z.to_nat (t_N t))) Hc ltac:(lia)
      (fun j Hj => rel_free_max _ _ _ _ Hr Hj)
      ltac:(pose proof (rel_free_length _ _ _ Hr); lia)) as Hfp.
    destruct (find_prev t i (free_head t) (S (Z.to_nat (t_N t)))) as [p|]; [|done].
    destruct Hfp as (l1 & l2 & -> & _).
    pose proof (alloc_tail_spec kmalloc kmalloc_fresh tid c _ i (t_type t) (l1 ++ p :: l2) ret
      (unlink_inv tid c t l1 p i l2 ret Hti)) as Ht.
    pose proof (perm_unlink l1 l2 p i) as Hp.
    destruct (alloc_tail _ _ _ _ _ _) as [[[a|e] c'] t'].
    + destruct Ht as (H1 & H2 & H3 & _). split_and!; [set_solver| |done|by eauto using Permutation_sym].
      rewrite (proj1 H2). apply lookup_insert_eq.
    + destruct Ht as (H1 & H2 & H3 & H4). split_and!; [done..|eauto|].
      intros Hn. destruct Hn. set_solver.
Qed.

End alloc_theorems.

(** ** References and retirement *)

(** The object-table world for one table. *)
Definition w_inv (tid : Z) (w : world) (fl : list Z) (ret : gmap Z addr) : Prop :=
  exists t, tables w !! tid = Some t /\ tab_inv tid (core w) t fl ret.

Lemma same_off_header s a f :
  (forall o, obj_core (f o) = obj_core o) -> oc_inv s ->
  oc_inv (upd_obj s a f) /\ same_off a s (upd_obj s a f).
Proof.
  intros Hf Hinv. split; [|apply same_off_upd_obj].
  apply (oc_step_inv (fun _ _ => None) s); [by apply oc_header|done].
Qed.

Lemma lookup_entry_header ok s a b f :
  (forall o, obj_core (f o) = obj_core o) ->
  lookup_entry ok (upd_obj s a f) b = lookup_entry ok s b.
Proof.
  intros Hf. unfold lookup_entry. simpl. destruct (decide (a = b)) as [->|].
  - rewrite lookup_alter_eq. destruct (heap s !! b) as [o|]; [|done]. simpl.
    pose proof (Hf o) as E. injection E as _ _ _ ->. done.
  - by rewrite lookup_alter_ne.
Qed.

(** Changing the reference count of [a] to a positive value. *)
Lemma tab_inv_ref tid c t fl ret a r :
  0 < r <= KREF_MAX -> tab_inv tid c t fl ret ->
  tab_inv tid (upd_obj c a (fun o => with_ref o r)) t fl ret.
Proof.
  intros Hr0 [H1 H2 H3 H4].
  destruct (same_off_header c a (fun o => with_ref o r)) as [Hi Hs]; [done|done|].
  split; [done|done| |].
  - intros i b Hb. destruct (decide (b = a)) as [->|]; [|by eapply live_obj_frame; eauto].
    destruct (H3 i a Hb) as (o & k & E1 & E2 & E3 & E4 & E5 & E6 & E7).
    exists (with_ref o r), k. unfold find_locked. rewrite lookup_entry_header by done.
    simpl. rewrite lookup_alter_eq, E1. done.
  - intros i b Hb. destruct (decide (b = a)) as [->|]; [|by eapply retired_obj_frame; eauto].
    destruct (H4 i a Hb) as (o & k & E1 & E2 & E3 & E4 & E5 & E6).
    exists (with_ref o r), k. unfold retired_locked. rewrite lookup_entry_header by done.
    simpl. rewrite lookup_alter_eq, E1. done.
Qed.

Lemma tbl_rel_reclaim t fl ret i :
  tbl_rel t fl ret -> i ∈ ret -> tbl_rel (push_free t i) (i :: fl) (ret ∖ {[i]}).
Proof.
  intros Hr Hi. pose proof (rel_free_ret _ _ _ Hr) as Hfr.
  destruct Hr as [Hc Hnd Hcap Hran Hfs _ Hsr Hcnt].
  assert (Hni : i ∉ fl) by (intros ?; by apply (Hfr i)).
  assert (Hnone : slots t !! i = None).
  { apply eq_None_not_Some. intros Hs. by apply (Hsr i). }
  split; cbn [push_free set_head set_next slots t_N t_count free_head].
  - split; [done|]. rewrite next_ptr_push_free, decide_True by done.
    eapply chain_ext; [|exact Hc]. intros j Hj.
    rewrite next_ptr_push_free, decide_False; [done|set_solver].
  - by apply list.NoDup_cons.
  - done.
  - intros j. rewrite Hran. destruct (decide (j = i)) as [->|]; set_solver.
  - intros j [->|Hj]%elem_of_cons; [done|by apply Hfs].
  - set_solver.
  - intros j Hj. apply Hsr in Hj. set_solver.
  - done.
Qed.

Lemma tab_inv_reclaim tid c c' t fl ret i a :
  tab_inv tid c t fl ret -> ret !! i = Some a -> oc_inv c' -> same_off a c c' ->
  tab_inv tid c' (push_free t i) (i :: fl) (delete i ret).
Proof.
  intros Hti Hia Hinv Hso. split; [done| | |].
  - rewrite dom_delete_L. apply tbl_rel_reclaim; [apply Hti|]. by apply elem_of_dom.
  - intros j b Hb. eapply live_obj_frame; [done| |done|by apply Hti].
    intros ->. by eapply ti_slot_ret.
  - intros j b [Hne Hb]%lookup_delete_Some. eapply retired_obj_frame; [done| |by apply Hti].
    intros ->. by apply Hne, (ti_ret_inj tid c t fl ret i j a).
Qed.

(** Dropping a reference that is not the last one. *)
Lemma put_shared tid w fl ret a o :
  w_inv tid w fl ret -> heap (core w) !! a = Some o -> 1 < ref o <= KREF_MAX ->
  exists w', put w a = Some w' /\ w_inv tid w' fl ret /\
    heap (core w') !! a = Some (with_ref o (ref o - 1)) /\
    same_off a (core w) (core w') /\ tables w' = tables w.
Proof.
  intros (t & Ht & Hti) Ho Hr. unfold put. rewrite Ho. simpl. unfold kref_put, KREF_MAX in *.
  rewrite (proj2 (Z.eqb_neq _ 0)), (proj2 (Z.eqb_neq _ 1)) by lia. simpl.
  rewrite u32_small by solve_u. eexists. split; [done|]. split_and!.
  - exists t. split; [done|]. apply tab_inv_ref; [unfold KREF_MAX; lia|done].
  - simpl. by rewrite lookup_alter_eq, Ho.
  - apply same_off_upd_obj.
  - done.
Qed.

(** Dropping the last reference of a retired object frees its slot; the
    finalizer's traps are not taken. *)
Lemma put_last tid w fl ret i a o :
  w_inv tid w fl ret -> ret !! i = Some a -> heap (core w) !! a = Some o -> ref o = 1 ->
  exists w', put w a = Some w' /\ w_inv tid w' (i :: fl) (delete i ret) /\
    heap (core w') !! a = None /\ same_off a (core w) (core w') /\
    tables w' = alter (fun t => push_free t i) tid (tables w).
Proof.
  intros (t & Ht & Hti) Hia Ho Hr1.
  destruct (ti_ret _ _ _ _ _ Hti i a Hia) as (o' & k & E1 & E2 & E3 & E4 & E5 & E6).
  rewrite Ho in E1. injection E1 as <-.
  unfold put. rewrite Ho. simpl. rewrite Hr1. simpl. change (u32 (1 - 1)) with 0.
  set (c := upd_obj (core w) a (fun o => with_ref o 0)).
  destruct (same_off_header (core w) a (fun o => with_ref o 0)) as [Hinv Hso]; [done|apply Hti|].
  assert (Hrl : retired_locked c a = Some k).
  { unfold retired_locked, c. rewrite lookup_entry_header by done. done. }
  unfold finalize_reclaimer. rewrite Hrl. simpl. change (md c k) with (md (core w) k).
  rewrite E6. simpl. rewrite Ht. simpl. unfold reclaim_retired.
  assert (Hhc : heap c !! a = Some (with_ref o 0)) by (unfold c; simpl; by rewrite lookup_alter_eq, Ho).
  rewrite Hhc. simpl. rewrite E2.
  pose proof (ti_rel _ _ _ _ _ Hti) as Hrel.
  assert (Hi : i ∈ dom ret) by (by apply elem_of_dom).
  assert (Hrng : 0 <= i < t_N t) by (apply (rel_range _ _ _ Hrel); auto).
  rewrite (proj2 (Z.leb_gt _ _)) by lia.
  rewrite bool_decide_eq_false_2 by (intros Hs; by apply (rel_slot_ret _ _ _ Hrel i)).
  destruct (complete_reclaim c a) as [c1|] eqn:Hcr.
  2:{ unfold complete_reclaim in Hcr. by rewrite Hrl in Hcr. }
  simpl. eexists. split; [done|].
  pose proof (complete_reclaim_inv c a c1 Hinv Hcr) as Hinv1.
  pose proof (same_off_complete_reclaim a c c1 Hinv Hcr) as Hso1.
  assert (Hh1 : heap c1 !! a = Some (with_flags (with_ref o 0) 0)).
  { unfold complete_reclaim in Hcr. rewrite Hrl in Hcr. injection Hcr as <-.
    simpl. rewrite lookup_alter_eq. unfold c in Hhc; simpl in Hhc. by rewrite Hhc. }
  assert (Hso2 : same_off a (core w) (set_heap c1 (delete a (heap c1)))).
  { eapply same_off_trans; [exact Hso|]. eapply same_off_trans; [exact Hso1|].
    apply same_off_delete. }
  split_and!; [|simpl; apply lookup_delete_eq|done|].
  2:{ simpl. apply map_eq. intros j. rewrite lookup_insert, lookup_alter.
      case_decide; [subst; by rewrite Ht|done]. }
  exists (push_free t i). split; [simpl; apply lookup_insert_eq|]. simpl.
  eapply tab_inv_reclaim; try done.
  apply (oc_step_inv (fun _ _ => None) c1); [|done]. eapply oc_free; [exact Hh1|done].
Qed.

(** ** Releasing a slot *)

Lemma transition_core o s : obj_core (transition o s).2 = obj_core o.
Proof. unfold transition. by destruct (transition_allowed (state o) s). Qed.

Lemma tab_inv_state tid c t fl ret i a o s :
  s <> destroyed ->
  tab_inv tid c t fl ret -> slots t !! i = Some a -> heap c !! a = Some o ->
  tab_inv tid (set_heap c (<[a := with_state o s]> (heap c))) t fl ret.
Proof.
  intros Hne Hti Hia Ho.
  set (c' := set_heap _ _).
  assert (Hc' : c' = upd_obj c a (fun o => with_state o s)).
  { unfold c', upd_obj. f_equal. apply map_eq. intros b.
    rewrite lookup_insert, lookup_alter. case_decide; [subst; by rewrite Ho|done]. }
  destruct (same_off_header c a (fun o => with_state o s)) as [Hi Hs]; [done|apply Hti|].
  rewrite <- Hc' in Hi, Hs. split; [done|apply Hti| |].
  - intros j b Hb. destruct (decide (b = a)) as [->|]; [|by eapply live_obj_frame; eauto; apply Hti].
    destruct (ti_live _ _ _ _ _ Hti j a Hb) as (o' & k & E1 & E2 & E3 & E4 & E5 & E6 & E7).
    rewrite Ho in E1. injection E1 as <-.
    exists (with_state o s), k. rewrite Hc'. unfold find_locked.
    rewrite lookup_entry_header by done. simpl. by rewrite lookup_alter_eq, Ho.
  - intros j b Hb. eapply retired_obj_frame; [done| |by apply Hti].
    intros ->. by eapply ti_slot_ret.
Qed.

Lemma tbl_rel_retire t fl ret i a :
  tbl_rel t fl ret -> slots t !! i = Some a ->
  tbl_rel (set_count (set_slots t (delete i (slots t))) (u32 (t_count t - 1))) fl
    ({[i]} ∪ ret).
Proof.
  intros Hr Hia. pose proof (rel_slot_ret _ _ _ Hr i ltac:(by eexists)) as Hir.
  destruct Hr as [Hc Hnd Hcap Hran Hfs Hfr Hsr Hcnt].
  assert (Hif : i ∉ fl) by (intros Hf; rewrite Hfs in Hia; done).
  assert (Hsz : size (slots t) = S (size (delete i (slots t)))).
  { rewrite map_size_delete_Some by eauto.
    assert (size (slots t) <> 0%nat); [|lia].
    intros Hz. apply map_size_empty_inv in Hz. by rewrite Hz in Hia. }
  assert (Hle : Z.of_nat (size (slots t)) <= t_N t).
  { apply size_below; [lia|]. intros j Hj. apply Hran. by right; left. }
  split; cbn [set_count set_slots slots t_N t_count free_head].
  - by eapply chain_ext; [|exact Hc].
  - done.
  - done.
  - intros j. rewrite Hran. destruct (decide (j = i)) as [->|Hne].
    + rewrite lookup_delete_eq. split; [set_solver|]. intros _. right. left. eauto.
    + rewrite lookup_delete_ne by done. set_solver.
  - intros j Hj. destruct (decide (j = i)) as [->|]; [done|].
    rewrite lookup_delete_ne by done. by apply Hfs.
  - intros j Hj. pose proof (Hfr j Hj). set_solver.
  - intros j [b [Hne Hb]%lookup_delete_Some]. pose proof (Hsr j ltac:(eauto)). set_solver.
  - rewrite Hcnt, Hsz in *. rewrite u32_small by solve_u. lia.
Qed.

(** The locked section of [release]: on success the slot's object becomes
    retired with all its references, otherwise the slot is untouched. *)
Lemma release_locked_spec tid c t fl ret i :
  tab_inv tid c t fl ret ->
  match release_locked c t i with
  | (Unexpected e, c', t') => t' = t /\ tab_inv tid c' t fl ret
  | (Expected a, c', t') =>
      exists o, slots t !! i = Some a /\ heap c !! a = Some o /\
        t' = set_count (set_slots t (delete i (slots t))) (u32 (t_count t - 1)) /\
        tab_inv tid c' t' fl (<[i := a]> ret) /\
        (exists o', heap c' !! a = Some o' /\ ref o' = ref o) /\ same_off a c c'
  end.
Proof.
  intros Hti. unfold release_locked.
  destruct (slots t !! i) as [a|] eqn:Hia; [|done].
  destruct (ti_live _ _ _ _ _ Hti i a Hia) as (o & k & E1 & E2 & E3 & E4 & E5 & E6 & E7).
  rewrite E1.
  assert (Hcase : forall ok o1,
    (if releasable (state o) then transition o dying else (true, o)) = (ok, o1) ->
    (o1 = o \/ o1 = with_state o dying)).
  { intros ok o1. destruct (releasable (state o)); [|naive_solver].
    unfold transition. case_match; naive_solver. }
  destruct (if releasable (state o) then _ else _) as [ok o1] eqn:Htr.
  pose proof (Hcase _ _ eq_refl) as Ho1.
  set (c1 := set_heap c (<[a := o1]> (heap c))).
  assert (Hti1 : tab_inv tid c1 t fl ret).
  { destruct Ho1 as [-> | ->]; [|by eapply tab_inv_state].
    unfold c1. rewrite insert_id by done. by destruct c. }
  assert (Hso1 : same_off a c c1) by apply same_off_insert.
  destruct (negb ok || _) eqn:Hchk; [done|].
  apply orb_false_iff in Hchk as [_ Hdy]. apply negb_false_iff, bool_decide_eq_true in Hdy.
  destruct (ti_live _ _ _ _ _ Hti1 i a Hia) as (o1' & k1 & F1 & F2 & F3 & F4 & F5 & F6 & F7).
  assert (o1' = o1) as ->. { unfold c1 in F1; simpl in F1. rewrite lookup_insert_eq in F1. congruence. }
  pose proof (ti_core _ _ _ _ _ Hti1) as Hinv1.
  pose proof (unregister_object_inv c1 a Hinv1) as Hinv2.
  pose proof (same_off_unregister a c1 Hinv1) as Hso2.
  pose proof (unregister_entry c1 a k1 Hinv1 F6) as Hun.
  destruct (unregister_object c1 a) as [[[]|e] c2]; simpl in Hinv2, Hso2, Hun.
  - destruct Hun as (Hh2 & Hrl & Hrc).
    set (f := fun o => (transition o destroyed).2).
    assert (Hf : forall o, obj_core (f o) = obj_core o) by (intros; apply transition_core).
    destruct (same_off_header c2 a f Hf Hinv2) as [Hinv3 Hso3].
    set (c3 := upd_obj c2 a f).
    assert (Hso : same_off a c c3) by eauto using same_off_trans.
    assert (Hh3 : heap c3 !! a = Some (with_state o1 destroyed)).
    { unfold c3, upd_obj; simpl. rewrite lookup_alter_eq, Hh2. simpl.
      rewrite lookup_insert_eq. simpl. unfold f, transition. by rewrite Hdy. }
    exists o. split_and!; try done.
    + split; [done| | |].
      * rewrite dom_insert_L. by eapply tbl_rel_retire; [apply Hti|].
      * intros j b. cbn [set_count set_slots slots]. intros [Hne Hb]%lookup_delete_Some.
        eapply live_obj_frame; [exact Hso| |done|by apply Hti].
        intros ->. by apply Hne, (ti_slot_inj tid c t fl ret i j a).
      * intros j b [[<- <-]|[Hne Hb]]%lookup_insert_Some.
        -- exists (with_state o1 destroyed), k1. unfold retired_locked, c3.
           rewrite lookup_entry_header by done. rewrite md_upd_obj, Hrc. done.
        -- eapply retired_obj_frame; [exact Hso| |by apply Hti]. intros ->. by eapply ti_slot_ret.
    + exists (with_state o1 destroyed). split; [done|]. destruct Ho1 as [-> | ->]; done.
  - split; [done|]. subst c2. done.
Qed.

(** The conditions under which [release_locked] refuses, and what it leaves. *)
Definition refused (c : ocore) (t : table) (i : Z) (e : kernel_error) (c' : ocore) : Prop :=
  (slots t !! i = None /\ e = from_generic not_found /\ c' = c) \/
  exists a o, slots t !! i = Some a /\ heap c !! a = Some o /\ e = from_generic invalid_arg /\
    ((state o = sealed /\ c' = c) \/
     (state o <> sealed /\ has_dependents c a = true /\
      c' = set_heap c (<[a := with_state o dying]> (heap c)))).

Lemma find_locked_state c a o s b : heap c !! a = Some o ->
  find_locked (set_heap c (<[a := with_state o s]> (heap c))) b = find_locked c b.
Proof.
  intros Ho. unfold find_locked, lookup_entry. cbn [set_heap heap].
  destruct (decide (b = a)) as [->|]; [by rewrite lookup_insert_eq, Ho|by rewrite lookup_insert_ne].
Qed.

Lemma release_locked_decides tid c t fl ret i :
  tab_inv tid c t fl ret ->
  match release_locked c t i with
  | (Unexpected e, c', t') => refused c t i e c'
  | (Expected a, c', t') =>
      exists o, heap c !! a = Some o /\ state o <> sealed /\ has_dependents c a = false
  end.
Proof.
  intros Hti. unfold release_locked, refused.
  destruct (slots t !! i) as [a|] eqn:Hia; [|by left].
  destruct (ti_live _ _ _ _ _ Hti i a Hia) as (o & k & E1 & E2 & E3 & E4 & E5 & E6 & E7).
  rewrite E1.
  assert (Htr : (if releasable (state o) then transition o dying else (true, o)) =
    (true, if bool_decide (state o = sealed) then o else with_state o dying)).
  { destruct o as [? ? st ? ? ?]. unfold transition. simpl in *. by destruct st. }
  rewrite Htr. cbn [negb orb].
  destruct (bool_decide_reflect (state o = sealed)) as [Hse|Hse].
  { rewrite bool_decide_false by (by rewrite Hse). cbn [negb]. right. exists a, o.
    split_and!; try done. left. split; [done|]. rewrite insert_id by done. by destruct c. }
  rewrite bool_decide_true by done. cbn [negb].
  set (c1 := set_heap c (<[a := with_state o dying]> (heap c))).
  assert (Hf : find_locked c1 a = Some k) by (unfold c1; by rewrite find_locked_state).
  unfold unregister_object. rewrite Hf. change (md c1 k) with (md c k).
  assert (Hd : has_dependents c a = negb (dependent_count (md c k) =? 0))
    by (unfold has_dependents; by rewrite E6).
  destruct (negb (dependent_count (md c k) =? 0)); [|by exists o].
  right. exists a, o. split_and!; try done. by right.
Qed.

(** What the release of slot [i], which held [a], leaves of the rest. *)
Record kept_off (tid i : Z) (a : addr) (w w' : world) (t t' : table) : Prop := {
  ko_objects : forall b, b <> a -> heap (core w') !! b = heap (core w) !! b;
  ko_slots : forall j, j <> i -> slots t' !! j = slots t !! j;
  ko_gens : gens t' = gens t;
  ko_tables : forall u, u <> tid -> tables w' !! u = tables w !! u
}.

(** [release] on the abstract table. *)
Lemma release_spec tid w t fl ret i :
  w_inv tid w fl ret -> tables w !! tid = Some t ->
  exists r w', release w tid i = Some (r, w') /\
    match r with
    | Unexpected e => w_inv tid w' fl ret /\ tables w' = tables w /\
        if decide (t_N t <= i) then e = from_generic invalid_arg /\ w' = w
        else refused (core w) t i e (core w')
    | Expected _ =>
        exists a o t', i < t_N t /\ slots t !! i = Some a /\ heap (core w) !! a = Some o /\
          state o <> sealed /\ has_dependents (core w) a = false /\
          tables w' !! tid = Some t' /\ slots t' !! i = None /\ kept_off tid i a w w' t t' /\
          ((ref o = 1 /\ w_inv tid w' (i :: fl) ret /\ heap (core w') !! a = None) \/
           (1 < ref o /\ w_inv tid w' fl (<[i := a]> ret) /\
            exists o', heap (core w') !! a = Some o' /\ ref o' = ref o - 1))
    end.
Proof.
  intros (t0 & Ht & Hti) Ht'. assert (t0 = t) as -> by congruence. clear Ht'.
  unfold release. rewrite Ht. cbn [mbind option_bind].
  destruct (Z.leb_spec (t_N t) i).
  { eexists _, w. split; [done|]. cbv iota. rewrite decide_True by lia. split; [by exists t|done]. }
  pose proof (release_locked_spec tid (core w) t fl ret i Hti) as Hrl.
  pose proof (release_locked_decides tid (core w) t fl ret i Hti) as Hrd.
  destruct (release_locked (core w) t i) as [[[a|e] c1] t1].
  2:{ destruct Hrl as [-> Hrl]. eexists _, _. split; [done|]. cbv iota. rewrite decide_False by lia.
      split_and!; [|by apply insert_id|done].
      exists t. simpl. split; [apply lookup_insert_eq|done]. }
  destruct Hrd as (o & Ho & Hse & Hdep).
  destruct Hrl as (o2 & Hia & Ho2 & -> & Hti1 & (o1 & Ho1 & Hr1) & Hso).
  rewrite Ho in Ho2. injection Ho2 as <-.
  destruct (ti_live _ _ _ _ _ Hti i a Hia) as (o' & k & E1 & _ & _ & E4 & _).
  rewrite Ho in E1. injection E1 as <-.
  set (t' := set_count _ _) in *. set (w1 := World c1 _).
  assert (Hw1 : w_inv tid w1 fl (<[i := a]> ret)).
  { exists t'. split; [apply lookup_insert_eq|done]. }
  assert (Hret : ret !! i = None).
  { apply not_elem_of_dom, (rel_slot_ret _ _ _ (ti_rel _ _ _ _ _ Hti)). eauto. }
  assert (Hs' : slots t' !! i = None) by apply lookup_delete_eq.
  assert (Hoff : forall j, j <> i -> slots t' !! j = slots t !! j).
  { intros j Hj. by apply lookup_delete_ne. }
  destruct (decide (ref o = 1)) as [Hone|Hone].
  - destruct (put_last tid w1 fl (<[i := a]> ret) i a o1) as (w' & Hp & Hw' & Hn & Hso' & Htab);
      [done|apply lookup_insert_eq|done|lia|].
    rewrite Hp. simpl. eexists _, w'. split; [done|]. rewrite delete_insert_id in Hw' by done.
    exists a, o, (push_free t' i). split_and!; try done; [| |by left].
    + rewrite Htab. unfold w1; simpl. by rewrite lookup_alter_eq, lookup_insert_eq.
    + split; [apply (same_off_trans a _ _ _ Hso Hso')|done|done|].
      intros u Hu. rewrite Htab, lookup_alter_ne by done. by apply lookup_insert_ne.
  - destruct (put_shared tid w1 fl (<[i := a]> ret) a o1) as (w' & Hp & Hw' & Hh & Hso' & Htab);
      [done|done|lia|].
    rewrite Hp. simpl. eexists _, w'. split; [done|].
    exists a, o, t'. split_and!; try done.
    + rewrite Htab. apply lookup_insert_eq.
    + split; [apply (same_off_trans a _ _ _ Hso Hso')|done|done|].
      intros u Hu. rewrite Htab. by apply lookup_insert_ne.
    + right. split_and!; [lia|done|]. eexists. split; [exact Hh|]. simpl. lia.
Qed.

(** Generations: a handle [(i, g)] taken before the slot was reused is dead. *)
Lemma find_by_gen_live tid c t fl ret i a g :
  tab_inv tid c t fl ret -> slots t !! i = Some a ->
  find_by_gen c t i g = if gen_ptr t i =? g then Some a else None.
Proof.
  intros Hti Hia. pose proof (ti_rel _ _ _ _ _ Hti) as Hr.
  destruct (ti_live _ _ _ _ _ Hti i a Hia) as (o & k & E1 & E2 & E3 & _).
  assert (0 <= i < t_N t) by (apply (rel_range _ _ _ Hr); eauto).
  pose proof (rel_cap _ _ _ Hr).
  unfold find_by_gen. rewrite (proj2 (Z.leb_gt _ _)) by lia. rewrite Hia. simpl.
  rewrite E1. simpl. rewrite E2, E3.
  rewrite (proj2 (Z.eqb_neq i _)) by (unfold KOBJECT_ID_INVALID; lia).
  by destruct (gen_ptr t i =? g).
Qed.

(** ** Initialisation *)

Section init_spec.
Context (kmalloc : nat -> gset addr -> option addr).

Lemma init_loop_spec n c t i ok c' t' :
  init_loop kmalloc c t i n = (ok, c', t') -> 0 <= i ->
  heap c' = heap c /\ blocks c' = blocks c /\ t_N t' = t_N t /\
  slots t' = slots t /\ gens t' = gens t /\ initialized t' = initialized t /\
  (forall j, j < i -> next_ptr t' j = next_ptr t j) /\
  (ok = true -> forall j, i <= j < i + Z.of_nat n ->
     next_ptr t' j = if j + 1 <? t_N t then j + 1 else U32_MAX).
Proof.
  revert c t i. induction n as [|n IH]; intros c t i.
  { cbn [init_loop]. intros [= <- <- <-] Hi. split_and!; try done. intros _ j Hj. lia. }
  cbn [init_loop].
  destruct (ensure_slot_block kmalloc c t (i / BLOCK_SIZE)) as [[ok1 c1] t1] eqn:He.
  assert (Hs : heap c1 = heap c /\ blocks c1 = blocks c /\ t_N t1 = t_N t /\
    slots t1 = slots t /\ gens t1 = gens t /\ initialized t1 = initialized t /\ next t1 = next t).
  { unfold ensure_slot_block, allocate in He.
    case_decide;
      [|destruct (kmalloc (calls c) (dom (heap c)));
        destruct (kmalloc (S (calls c)) (dom (heap c)))];
      simpl in He;
      repeat match type of He with context [kmalloc ?n ?l] => destruct (kmalloc n l) end;
      injection He as <- <- <-; done. }
  destruct Hs as (E1 & E2 & E3 & E4 & E5 & E6 & E7). destruct ok1.
  - intros Hl Hi. apply IH in Hl as (F1 & F2 & F3 & F4 & F5 & F6 & F7 & F8); [|lia].
    cbn [set_next t_N slots gens initialized] in *.
    split_and!; try congruence.
    + intros j Hj. rewrite F7 by lia. rewrite next_ptr_set_next, decide_False by lia.
      unfold next_ptr. by rewrite E7.
    + intros Hok j Hj. destruct (decide (j = i)) as [->|].
      * rewrite F7 by lia. rewrite next_ptr_set_next, decide_True by done. by rewrite E3.
      * rewrite F8 by (done || lia). by rewrite E3.
  - intros [= <- <- <-] Hi. split_and!; try done. intros j Hj. unfold next_ptr. by rewrite E7.
Qed.

Lemma chain_seqZ t N k n :
  (forall j, 0 <= j < N -> next_ptr t j = if j + 1 <? N then j + 1 else U32_MAX) ->
  0 <= k -> k + Z.of_nat (S n) = N -> chain t k (seqZ k (Z.of_nat (S n))).
Proof.
  intros Hn. revert k. induction n as [|n IH]; intros k Hk HN.
  - rewrite seqZ_cons by lia. split; [done|]. rewrite Hn by lia.
    rewrite (proj2 (Z.ltb_ge _ _)) by lia. done.
  - rewrite seqZ_cons by lia. split; [done|]. rewrite Hn by lia.
    rewrite (proj2 (Z.ltb_lt _ _)) by lia.
    replace (Z.pred (Z.of_nat (S (S n)))) with (Z.of_nat (S n)) by lia.
    rewrite Z.add_1_r. apply IH; lia.
Qed.

Lemma init_inv tid c N ty c' t' :
  oc_inv c -> 0 < N <= U32_MAX -> init kmalloc c (table_static N) ty = (c', t') ->
  initialized t' = true -> tab_inv tid c' t' (seqZ 0 N) ∅.
Proof.
  intros Hinv HN. unfold init.
  destruct (init_loop _ _ _ _ _) as [[ok c1] t1] eqn:Hl.
  apply init_loop_spec in Hl as (E1 & E2 & E3 & E4 & E5 & E6 & E7 & E8); [|lia].
  cbn [table_static t_N slots gens initialized] in *.
  destruct ok; intros [= <- <-]; [|].
  - intros _. specialize (E8 eq_refl). split.
    + destruct c, c1; simpl in *; subst. by eapply oc_inv_calls.
    + split; cbn [t_N slots free_head t_count].
      * replace N with (Z.of_nat (S (Z.to_nat (N - 1)))) at 1 by lia.
        apply (chain_seqZ _ N); [|lia|lia]. intros j Hj. apply E8. lia.
      * apply NoDup_seqZ.
      * rewrite E3. lia.
      * intros i. rewrite E3, E4, lookup_empty, elem_of_seqZ. split; [intros; left; lia|].
        intros [?|[[? ?]|?]]; [lia|done|set_solver].
      * intros i _. by rewrite E4.
      * set_solver.
      * intros i. rewrite E4, lookup_empty. by intros [? ?].
      * by rewrite E4.
    + intros i a. cbn [slots]. rewrite E4. done.
    + intros i a. done.
  - by rewrite E6.
Qed.

End init_spec.

(** ** The table as its clients see it *)

(** A small concrete instance: an allocator that serves its n-th request with
    address n+1 when that is not in use, and a table of four slots. *)
Definition demo_alloc (n : nat) (live : gset addr) : option addr :=
  let a := Pos.of_succ_nat n in if decide (a ∈ live) then None else Some a.

Lemma demo_alloc_fresh n live a : demo_alloc n live = Some a -> a ∉ live.
Proof. unfold demo_alloc. case_decide; naive_solver. Qed.

Definition demo_init : ocore * table := init demo_alloc oc_init (table_static 4) kt_domain.

Lemma demo_init_inv : tab_inv 9 demo_init.1 demo_init.2 [0; 1; 2; 3] ∅.
Proof.
  apply (init_inv demo_alloc 9 oc_init 4 kt_domain demo_init.1 demo_init.2).
  - apply oc_inv_init.
  - unfold U32_MAX. lia.
  - apply surjective_pairing.
  - vm_compute. reflexivity.
Qed.

(** C4: [alloc] implements the abstract allocator: it fails without effect when
    the free list is empty, otherwise it either hands out the first free slot
    as a fresh embryo with two references and the next generation of that
    slot, or fails with [out_of_memory] leaving the free list as it was. *)
Theorem alloc_refines kmalloc tid c t req fl ret :
  (forall n live b, kmalloc n live = Some b -> b ∉ live) ->
  tab_inv tid c t fl ret -> initialized t = true ->
  match alloc kmalloc c t tid req with
  | (Unexpected e, c', t') =>
      e = from_memory mem_out_of_memory /\ tab_inv tid c' t' fl ret /\
      slots t' = slots t /\ heap c' = heap c
  | (Expected a, c', t') =>
      exists i r, fl = i :: r /\ tab_inv tid c' t' r ret /\ heap c !! a = None /\
        allocated c' t t' i (if decide (req = kt_none) then t_type t else req) a
  end.
Proof. intros Hk. by apply alloc_spec. Qed.

Lemma alloc_refines_witness :
  match alloc demo_alloc demo_init.1 demo_init.2 9 kt_none with
  | (Unexpected e, c', t') =>
      e = from_memory mem_out_of_memory /\ tab_inv 9 c' t' [0; 1; 2; 3] ∅ /\
      slots t' = slots demo_init.2 /\ heap c' = heap demo_init.1
  | (Expected a, c', t') =>
      exists i r, [0; 1; 2; 3] = i :: r /\ tab_inv 9 c' t' r ∅ /\
        heap demo_init.1 !! a = None /\
        allocated c' demo_init.2 t' i
          (if decide (kt_none = kt_none) then t_type demo_init.2 else kt_none) a
  end.
Proof.
  apply (alloc_refines demo_alloc 9 demo_init.1 demo_init.2 kt_none [0; 1; 2; 3] ∅).
  - apply demo_alloc_fresh.
  - apply demo_init_inv.
  - vm_compute. reflexivity.
Defined.

(** [alloc_at] claims exactly the requested slot: it succeeds only for an
    index on the free list, and then the new object sits in that very slot
    (the defect recorded as BUG-002 was a descriptor allocated in another
    slot); an index that is in use, retired or out of range is refused and
    nothing changes. *)
Theorem alloc_at_refines kmalloc tid c t i fl ret :
  (forall n live b, kmalloc n live = Some b -> b ∉ live) ->
  tab_inv tid c t fl ret -> initialized t = true -> 0 <= i ->
  match alloc_at kmalloc c t tid i with
  | (Expected a, c', t') =>
      i ∈ fl /\ slots t' !! i = Some a /\ allocated c' t t' i (t_type t) a /\
      exists fl', fl ≡ₚ i :: fl' /\ tab_inv tid c' t' fl' ret
  | (Unexpected e, c', t') =>
      slots t' = slots t /\ heap c' = heap c /\
      (exists fl', fl' ≡ₚ fl /\ tab_inv tid c' t' fl' ret) /\
      (i ∉ fl -> c' = c /\ t' = t)
  end.
Proof. intros Hk. by apply alloc_at_spec. Qed.

Lemma alloc_at_refines_witness :
  match alloc_at demo_alloc demo_init.1 demo_init.2 9 2 with
  | (Expected a, c', t') =>
      2 ∈ [0; 1; 2; 3] /\ slots t' !! 2 = Some a /\
      allocated c' demo_init.2 t' 2 (t_type demo_init.2) a /\
      exists fl', [0; 1; 2; 3] ≡ₚ 2 :: fl' /\ tab_inv 9 c' t' fl' ∅
  | (Unexpected e, c', t') =>
      slots t' = slots demo_init.2 /\ heap c' = heap demo_init.1 /\
      (exists fl', fl' ≡ₚ [0; 1; 2; 3] /\ tab_inv 9 c' t' fl' ∅) /\
      (2 ∉ [0; 1; 2; 3] -> c' = demo_init.1 /\ t' = demo_init.2)
  end.
Proof.
  apply (alloc_at_refines demo_alloc 9 demo_init.1 demo_init.2 2 [0; 1; 2; 3] ∅).
  - apply demo_alloc_fresh.
  - apply demo_init_inv.
  - vm_compute. reflexivity.
  - lia.
Defined.

(** The demo table with slot 0 allocated and the allocation handle dropped. *)
Definition demo_alloc0 : ocore * table :=
  let '(_, c, t) := alloc demo_alloc demo_init.1 demo_init.2 9 kt_none in (c, t).
Definition demo_slot_obj : addr := default 1%positive (slots demo_alloc0.2 !! 0).
Definition demo_world : world :=
  default (World oc_init ∅) (put (World demo_alloc0.1 {[9 := demo_alloc0.2]}) demo_slot_obj).
Definition demo_table : table := default (table_static 0) (tables demo_world !! 9).

Lemma demo_world_inv : w_inv 9 demo_world [1; 2; 3] ∅.
Proof.
  pose proof (alloc_spec demo_alloc demo_alloc_fresh 9 demo_init.1 demo_init.2 kt_none
    [0; 1; 2; 3] ∅ demo_init_inv ltac:(vm_compute; reflexivity)) as H.
  destruct (alloc demo_alloc demo_init.1 demo_init.2 9 kt_none) as [[[a|e] c] t] eqn:E.
  2:{ vm_compute in E. discriminate E. }
  destruct H as (i & r & [= <- <-] & Hti & _ & Hsl & _ & f & Ho).
  assert (Hd : demo_alloc0 = (c, t)) by (unfold demo_alloc0; by rewrite E).
  assert (Ha : demo_slot_obj = a).
  { unfold demo_slot_obj. rewrite Hd. simpl. by rewrite Hsl, lookup_insert_eq. }
  edestruct (put_shared 9 (World c {[9 := t]}) [1; 2; 3] ∅ a) as (w' & Hp & Hw & _);
    [|exact Ho|simpl; unfold KREF_MAX; lia|].
  { exists t. split; [apply lookup_singleton_eq|done]. }
  unfold demo_world. rewrite Hd, Ha. simpl. by rewrite Hp.
Qed.

(** C15: [release] never traps, and what it does is determined.  It refuses an
    index outside the table and a slot whose object is sealed with
    [invalid_arg], an empty slot with [not_found], and then changes nothing; it
    refuses with [invalid_arg] a slot whose object has dependents, and then only
    that object changes: it is left dying, in its slot.  In every other case it
    succeeds and empties the slot; when the table held the last reference the
    object is freed and the slot heads the free list again, otherwise the
    object is retired with one reference less and its slot stays reserved
    until the last holder drops it.  No generation, no other slot, no other
    object and no other table changes. *)
Theorem release_sound tid w t fl ret i :
  w_inv tid w fl ret -> tables w !! tid = Some t ->
  exists r w', release w tid i = Some (r, w') /\
    match r with
    | Unexpected e => w_inv tid w' fl ret /\ tables w' = tables w /\
        if decide (t_N t <= i) then e = from_generic invalid_arg /\ w' = w
        else refused (core w) t i e (core w')
    | Expected _ =>
        exists a o t', i < t_N t /\ slots t !! i = Some a /\ heap (core w) !! a = Some o /\
          state o <> sealed /\ has_dependents (core w) a = false /\
          tables w' !! tid = Some t' /\ slots t' !! i = None /\ kept_off tid i a w w' t t' /\
          ((ref o = 1 /\ w_inv tid w' (i :: fl) ret /\ heap (core w') !! a = None) \/
           (1 < ref o /\ w_inv tid w' fl (<[i := a]> ret) /\
            exists o', heap (core w') !! a = Some o' /\ ref o' = ref o - 1))
    end.
Proof. apply release_spec. Qed.

Lemma release_sound_witness :
  exists w' t', release demo_world 9 0 = Some (Expected tt, w') /\
    tables w' !! 9 = Some t' /\ slots t' !! 0 = None /\ gens t' = gens demo_table.
Proof.
  destruct (release_sound 9 demo_world demo_table [1; 2; 3] ∅ 0 demo_world_inv)
    as (r & w' & E & H); [vm_compute; reflexivity|].
  destruct r as [[]|e].
  - destruct H as (a & o & t' & _ & _ & _ & _ & _ & H1 & H2 & H3 & _).
    exists w', t'. split; [exact E|]. split; [exact H1|]. split; [exact H2|apply (ko_gens _ _ _ _ _ _ _ H3)].
  - exfalso. apply (f_equal (fun x => has_value <$> (fst <$> x))) in E.
    vm_compute in E. discriminate E.
Defined.

(** C33: ABA prevention: when slot [i] is released and later allocated again,
    looking it up with the generation the old handle carries finds nothing,
    and with the next generation finds the new object. *)
Theorem stale_generation_rejected kmalloc tid w t fl ret i w1 t1 a c2 t2 :
  (forall n live b, kmalloc n live = Some b -> b ∉ live) ->
  w_inv tid w fl ret -> tables w !! tid = Some t -> fits 32 (gen_ptr t i) -> 0 <= i ->
  release w tid i = Some (Expected tt, w1) -> tables w1 !! tid = Some t1 ->
  initialized t1 = true ->
  alloc_at kmalloc (core w1) t1 tid i = (Expected a, c2, t2) ->
  find_by_gen c2 t2 i (gen_ptr t i) = None /\
  find_by_gen c2 t2 i (u32 (gen_ptr t i + 1)) = Some a.
Proof.
  intros Hk Hw Ht Hfit Hi0 Hrel Ht1 Hinit Hal.
  destruct (release_spec tid w t fl ret i Hw Ht) as (r & w' & Hr' & Hpost).
  rewrite Hrel in Hr'. injection Hr' as <- <-.
  destruct Hpost as (b & o & t' & _ & _ & _ & _ & _ & Ht' & _ & [_ _ Hg _] & Hend).
  assert (t' = t1) as -> by congruence.
  assert (exists fl1 ret1, tab_inv tid (core w1) t1 fl1 ret1) as (fl1 & ret1 & Hti1).
  { destruct Hend as [(_ & (u & Hu & Hi) & _)|(_ & (u & Hu & Hi) & _)];
      (assert (u = t1) as -> by congruence); eauto. }
  pose proof (alloc_at_spec kmalloc Hk tid (core w1) t1 i fl1 ret1 Hti1 Hinit Hi0) as Hsp.
  rewrite Hal in Hsp. destruct Hsp as (_ & Hs2 & (_ & Hg2 & _) & fl' & _ & Hti2).
  rewrite !(find_by_gen_live tid c2 t2 fl' ret1 i a _ Hti2 Hs2), Hg2.
  assert (Hgp : gen_ptr t1 i = gen_ptr t i) by (unfold gen_ptr; by rewrite Hg).
  rewrite Hgp, Z.eqb_refl. split; [|done].
  rewrite (proj2 (Z.eqb_neq _ _)) by solve_u. done.
Qed.

Definition demo_released : world :=
  match release demo_world 9 0 with Some (_, w) => w | None => demo_world end.
Definition demo_table1 : table := default (table_static 0) (tables demo_released !! 9).
Definition demo_realloc : ocore * table :=
  let '(_, c, t) := alloc_at demo_alloc (core demo_released) demo_table1 9 0 in (c, t).

Lemma stale_generation_rejected_witness :
  gen_ptr demo_table 0 = 1 /\
  find_by_gen demo_realloc.1 demo_realloc.2 0 (gen_ptr demo_table 0) = None /\
  find_by_gen demo_realloc.1 demo_realloc.2 0 (u32 (gen_ptr demo_table 0 + 1)) =
    slots demo_realloc.2 !! 0.
Proof.
  split; [vm_compute; reflexivity|].
  destruct (slots demo_realloc.2 !! 0) as [a|] eqn:Ha; [|vm_compute in Ha; discriminate Ha].
  apply (stale_generation_rejected demo_alloc 9 demo_world demo_table [1; 2; 3] ∅ 0
    demo_released demo_table1 a demo_realloc.1 demo_realloc.2).
  - apply demo_alloc_fresh.
  - apply demo_world_inv.
  - vm_compute. reflexivity.
  - vm_compute. split; congruence.
  - lia.
  - vm_compute. reflexivity.
  - vm_compute. reflexivity.
  - vm_compute. reflexivity.
  - vm_compute in Ha. injection Ha as <-. vm_compute. reflexivity.
Defined.
