(* ===== verification/ObjStore.v ===== *)
(** * The object store as its clients see it

    Subsystems such as the capability table hold counted references to kernel
    objects: they read an object's header, take references with
    [bobject::try_get] and drop them with [bobject::put].  [ObjStore] is that
    interface and [ObjStoreLaws] what the object system promises to a client
    that puts only references it holds.  [scoms_laws] proves that the SCOMS
    table of ScomsTable.v keeps the promise. *)

From S2P Require Import Prelude Errors Kobject ObjectCore ScomsTable.

(** The operations; [None] is a trap. *)
Class ObjStore (W : Type) := {
  os_get : W -> addr -> option bobject;
  os_try_get : W -> addr -> option (bool * W);
  os_put : W -> addr -> option W
}.

(** [f] with [d] added at [a]. *)
Definition bump (f : addr -> Z) (a : addr) (d : Z) : addr -> Z :=
  fun b => if decide (b = a) then f b + d else f b.

Lemma bump_eq f a d : bump f a d a = f a + d.
Proof. unfold bump. by rewrite decide_True. Qed.

Lemma bump_ne f a b d : b <> a -> bump f a d b = f b.
Proof. intros. unfold bump. by rewrite decide_False. Qed.

(** What of an object does not depend on who refers to it. *)
Definition header (o : bobject) :=
  (id o, type o, state o, generation o, object_flags o).

(** The laws.  [os_inv w rf]: the store is consistent and clients hold [rf a]
    references to each object [a].  A held object stays in place with its
    identity ([header]: everything but the reference count). *)
Class ObjStoreLaws (W : Type) `{ObjStore W} := {
  os_inv : W -> (addr -> Z) -> Prop;
  os_inv_ext w rf rf' : (forall a, rf a = rf' a) -> os_inv w rf -> os_inv w rf';
  os_held w rf a : os_inv w rf -> 0 < rf a -> exists o, os_get w a = Some o;
  os_try_get_ok w rf a o :
    os_inv w rf -> os_get w a = Some o -> state o = active -> ref o < KREF_MAX ->
    exists w', os_try_get w a = Some (true, w') /\ os_inv w' (bump rf a 1) /\
      forall b, header <$> os_get w' b = header <$> os_get w b;
  os_put_ok w rf a :
    os_inv w rf -> 0 < rf a ->
    exists w', os_put w a = Some w' /\ os_inv w' (bump rf a (-1)) /\
      forall b, 0 < bump rf a (-1) b ->
        header <$> os_get w' b = header <$> os_get w b
}.

(** ** The SCOMS table keeps the promise *)

#[global] Instance scoms_store : ObjStore world := {
  os_get w a := heap (core w) !! a;
  os_try_get := try_get;
  os_put := put
}.

Section scoms.
Context (tid : Z).

(** A world whose objects all belong to table [tid], with [rf a] references
    held outside the table: every object has at least those, and the table's
    own reference besides as long as it is published. *)
Record scoms_inv (w : world) (rf : addr -> Z) : Prop := {
  si_world : exists t fl ret, tables w !! tid = Some t /\ w_inv tid w fl ret /\
    (forall a o, heap (core w) !! a = Some o ->
       exists i, slots t !! i = Some a \/ ret !! i = Some a) /\
    (forall i a, slots t !! i = Some a ->
       exists o, heap (core w) !! a = Some o /\ rf a < ref o) /\
    (forall i a, ret !! i = Some a ->
       exists o, heap (core w) !! a = Some o /\ rf a <= ref o);
  si_held : forall a, 0 < rf a -> is_Some (heap (core w) !! a)
}.

Lemma scoms_inv_ext w rf rf' :
  (forall a, rf a = rf' a) -> scoms_inv w rf -> scoms_inv w rf'.
Proof.
  intros He [(t & fl & ret & H1 & H2 & H3 & H4 & H5) H6]. split.
  - exists t, fl, ret. setoid_rewrite <- He. done.
  - intros a. rewrite <- He. apply H6.
Qed.

Lemma header_with_ref (h : gmap addr bobject) a r b :
  header <$> alter (fun o => with_ref o r) a h !! b = header <$> h !! b.
Proof.
  rewrite lookup_alter. case_decide; [|done]. subst. by destruct (h !! b).
Qed.

(** Changing a reference count and the number of holders together. *)
Lemma scoms_inv_ref w rf a o r d :
  scoms_inv w rf -> heap (core w) !! a = Some o -> 0 < r <= KREF_MAX ->
  r = ref o + d ->
  scoms_inv (World (upd_obj (core w) a (fun o => with_ref o r)) (tables w)) (bump rf a d).
Proof.
  intros [(t & fl & ret & H1 & (t0 & Ht0 & Hti) & H3 & H4 & H5) H6] Ho Hr Hd.
  assert (t0 = t) as -> by congruence.
  assert (Hl : forall b p, heap (core w) !! b = Some p ->
    alter (fun o => with_ref o r) a (heap (core w)) !! b =
      Some (if decide (b = a) then with_ref p r else p)).
  { intros b p Hp. rewrite lookup_alter. destruct (decide (a = b)) as [->|].
    - rewrite Hp, decide_True by done. done.
    - rewrite Hp, decide_False by congruence. done. }
  assert (Hle : forall b p, heap (core w) !! b = Some p ->
    bump rf a d b - ref (if decide (b = a) then with_ref p r else p) = rf b - ref p).
  { intros b p Hp. unfold bump. case_decide; [|done]. subst. simpl.
    assert (p = o) as -> by congruence. lia. }
  split.
  - exists t, fl, ret. cbn [tables core upd_obj set_heap heap].
    split_and!; [done|exists t; split; [done|by apply tab_inv_ref]| | |].
    + intros b p Hp. apply lookup_alter_Some in Hp as [(-> & q & Hq & _)|[_ Hp]]; eauto.
    + intros i b Hb. destruct (H4 i b Hb) as (p & Hp & Hlt). eexists. split; [by apply Hl|].
      pose proof (Hle b p Hp). lia.
    + intros i b Hb. destruct (H5 i b Hb) as (p & Hp & Hlt). eexists. split; [by apply Hl|].
      pose proof (Hle b p Hp). lia.
  - intros b Hb. simpl. unfold bump in Hb. destruct (decide (b = a)) as [->|].
    + rewrite (Hl a o Ho). eauto.
    + destruct (H6 b Hb) as [p Hp]. rewrite (Hl b p Hp). eauto.
Qed.

Lemma scoms_tracked w rf a o :
  scoms_inv w rf -> heap (core w) !! a = Some o ->
  0 < ref o <= KREF_MAX /\ rf a <= ref o /\
  (state o = destroyed \/ rf a < ref o).
Proof.
  intros [(t & fl & ret & H1 & (t0 & Ht0 & Hti) & H3 & H4 & H5) _] Ho.
  assert (t0 = t) as -> by congruence.
  destruct (H3 a o Ho) as [i [Hi|Hi]].
  - destruct (ti_live _ _ _ _ _ Hti i a Hi) as (p & k & E1 & _ & _ & E4 & _).
    destruct (H4 i a Hi) as (p' & Hp' & Hlt).
    assert (p = o) as -> by congruence. assert (p' = o) as -> by congruence.
    split_and!; [lia|lia|lia|by right].
  - destruct (ti_ret _ _ _ _ _ Hti i a Hi) as (p & k & E1 & _ & E3 & E4 & _).
    destruct (H5 i a Hi) as (p' & Hp' & Hlt).
    assert (p = o) as -> by congruence. assert (p' = o) as -> by congruence.
    split_and!; [lia|lia|lia|by left].
Qed.

Lemma scoms_try_get_ok w rf a o :
  scoms_inv w rf -> heap (core w) !! a = Some o -> state o = active -> ref o < KREF_MAX ->
  exists w', try_get w a = Some (true, w') /\ scoms_inv w' (bump rf a 1) /\
    forall b, header <$> heap (core w') !! b = header <$> heap (core w) !! b.
Proof.
  intros Hi Ho Hs Hr. destruct (scoms_tracked w rf a o Hi Ho) as (Hb & _).
  unfold try_get. rewrite Ho. simpl. unfold kref_try_get.
  rewrite (proj2 (Z.eqb_neq _ _)), (proj2 (Z.leb_gt _ _)) by lia. simpl.
  eexists. split; [done|]. split; [by apply (scoms_inv_ref w rf a o); try done; lia|].
  intros b. apply header_with_ref.
Qed.

Lemma scoms_put_ok w rf a :
  scoms_inv w rf -> 0 < rf a ->
  exists w', put w a = Some w' /\ scoms_inv w' (bump rf a (-1)) /\
    forall b, 0 < bump rf a (-1) b ->
      header <$> heap (core w') !! b = header <$> heap (core w) !! b.
Proof.
  intros Hi Ha. destruct (si_held _ _ Hi a Ha) as [o Ho].
  destruct (scoms_tracked w rf a o Hi Ho) as (Hb & Hle & _).
  destruct (decide (ref o = 1)) as [H1|H1].
  - destruct Hi as [(t & fl & ret & Ht & Hw & H3 & H4 & H5) H6].
    pose proof Hw as (t0 & Ht0 & Hti). assert (t0 = t) as -> by congruence.
    assert (Hns : forall i, slots t !! i <> Some a).
    { intros i Hs. destruct (H4 i a Hs) as (p & Hp & ?). assert (p = o) as -> by congruence. lia. }
    destruct (H3 a o Ho) as (i & [Hs|Hri]); [by apply Hns in Hs|].
    destruct (put_last tid w fl ret i a o Hw Hri Ho H1) as (w' & Hp & Hw' & Hn & [Hso _] & Htab).
    exists w'. split; [done|].
    assert (Hinj : forall j, ret !! j = Some a -> j = i)
      by (intros j Hj; by eapply ti_ret_inj).
    split; [split|].
    + exists (push_free t i), (i :: fl), (delete i ret).
      rewrite Htab, lookup_alter_eq, Ht. split_and!; [done|done| | |].
      * intros b p Hb'. assert (b <> a) by congruence. rewrite Hso in Hb' by done.
        destruct (H3 b p Hb') as (j & [?|Hj]); exists j; [by left|right].
        rewrite lookup_delete_ne; [done|]. intros ->. congruence.
      * intros j b Hj. change (slots t !! j = Some b) in Hj.
        assert (b <> a) by (intros ->; by apply Hns in Hj).
        destruct (H4 j b Hj) as (p & Hpb & Hlt). exists p. by rewrite Hso, bump_ne.
      * intros j b Hj. apply lookup_delete_Some in Hj as [Hne Hj].
        assert (b <> a) by (intros ->; by apply Hinj in Hj).
        destruct (H5 j b Hj) as (p & Hpb & Hlt). exists p. by rewrite Hso, bump_ne.
    + intros b Hb'. destruct (decide (b = a)) as [->|]; [rewrite bump_eq in Hb'; lia|].
      rewrite bump_ne in Hb' by done. rewrite Hso by done. by apply H6.
    + intros b Hb'. destruct (decide (b = a)) as [->|]; [rewrite bump_eq in Hb'; lia|].
      by rewrite Hso.
  - unfold put. rewrite Ho. simpl. unfold kref_put. unfold KREF_MAX in *.
    rewrite (proj2 (Z.eqb_neq _ 0)), (proj2 (Z.eqb_neq _ 1)) by lia. simpl.
    rewrite u32_small by solve_u. eexists. split; [done|].
    split; [apply (scoms_inv_ref w rf a o); unfold KREF_MAX; (done || lia)|].
    intros b _. apply header_with_ref.
Qed.

(** A lifecycle transition of a published object is invisible to its holders. *)
Lemma scoms_inv_state w rf a o s :
  s <> destroyed -> scoms_inv w rf -> heap (core w) !! a = Some o -> state o <> destroyed ->
  scoms_inv (World (set_heap (core w) (<[a := with_state o s]> (heap (core w)))) (tables w)) rf.
Proof.
  intros Hs [(t & fl & ret & Ht & (t0 & Ht0 & Hti) & H3 & H4 & H5) H6] Ho Hd.
  assert (t0 = t) as -> by congruence.
  destruct (H3 a o Ho) as [i [Hi|Hi]].
  2:{ destruct (ti_ret _ _ _ _ _ Hti i a Hi) as (p & k & E1 & _ & _ & E4 & _). congruence. }
  assert (Hl : forall b, ref <$> <[a := with_state o s]> (heap (core w)) !! b =
    ref <$> heap (core w) !! b).
  { intros b. rewrite lookup_insert. case_decide; [subst; by rewrite Ho|done]. }
  split.
  - exists t, fl, ret. cbn [tables core set_heap heap].
    split_and!; [done|exists t; split; [done|by eapply tab_inv_state]| | |].
    + intros b p Hb. apply lookup_insert_Some in Hb as [[<- _]|[_ Hb]]; eauto.
    + intros j b Hb. destruct (H4 j b Hb) as (p & Hp & Hlt). specialize (Hl b).
      rewrite Hp in Hl. apply fmap_Some in Hl as (q & Hq & Hr). exists q. split; [done|lia].
    + intros j b Hb. destruct (H5 j b Hb) as (p & Hp & Hlt). specialize (Hl b).
      rewrite Hp in Hl. apply fmap_Some in Hl as (q & Hq & Hr). exists q. split; [done|lia].
  - intros b Hb. destruct (H6 b Hb) as [p Hp]. specialize (Hl b). rewrite Hp in Hl.
    apply fmap_Some in Hl as (q & Hq & _). eauto.
Qed.

#[export] Instance scoms_laws : ObjStoreLaws world := {
  os_inv := scoms_inv;
  os_inv_ext := scoms_inv_ext;
  os_held w rf a H Ha := si_held w rf H a Ha;
  os_try_get_ok := scoms_try_get_ok;
  os_put_ok := scoms_put_ok
}.

End scoms.

(** ** The promise, as one property of the object system *)

(** Dropping a reference one holds never traps: the count goes down by one, or,
    when it was the last reference of a retired object, the finalizer returns
    the object's slot to its table and frees it; no object that is still held
    moves or changes its header. *)
Theorem held_put_safe tid w rf a :
  scoms_inv tid w rf -> 0 < rf a ->
  exists w', put w a = Some w' /\ scoms_inv tid w' (bump rf a (-1)) /\
    forall b, 0 < bump rf a (-1) b ->
      header <$> heap (core w') !! b = header <$> heap (core w) !! b.
Proof. apply scoms_put_ok. Qed.

(** The demo world of ScomsTable.v with its object activated. *)
Definition demo_active : world :=
  match heap (core demo_world) !! demo_slot_obj with
  | Some o => World (set_heap (core demo_world)
                (<[demo_slot_obj := (transition o active).2]> (heap (core demo_world))))
                (tables demo_world)
  | None => demo_world
  end.

Lemma demo_table_eq t : tables demo_world !! 9 = Some t -> t = demo_table.
Proof. unfold demo_table. intros ->. reflexivity. Qed.

#[local] Opaque demo_world demo_table demo_slot_obj.

Lemma demo_world_scoms : scoms_inv 9 demo_world (fun _ => 0).
Proof.
  destruct demo_world_inv as (t & Ht & Hti).
  assert (t = demo_table) as -> by (apply demo_table_eq; exact Ht).
  assert (Hs : slots demo_table = {[0 := demo_slot_obj]}) by (vm_compute; reflexivity).
  destruct (heap (core demo_world) !! demo_slot_obj) as [o|] eqn:Ho;
    [|vm_compute in Ho; discriminate Ho].
  assert (Hh : heap (core demo_world) = {[demo_slot_obj := o]}).
  { vm_compute in Ho. injection Ho as <-. vm_compute. reflexivity. }
  split; [|intros a Ha; lia]. exists demo_table, [1; 2; 3], ∅. rewrite Hs, Hh.
  split_and!; [exact Ht|exists demo_table; split; [exact Ht|exact Hti]| | |
    intros i a Hi; by rewrite lookup_empty in Hi].
  - intros b p [<- _]%lookup_singleton_Some. exists 0. left. by rewrite lookup_singleton_eq.
  - intros i a [<- <-]%lookup_singleton_Some. exists o. rewrite lookup_singleton_eq.
    split; [done|]. vm_compute in Ho. injection Ho as <-. vm_compute. reflexivity.
Qed.

Lemma demo_active_inv : scoms_inv 9 demo_active (fun _ => 0).
Proof.
  unfold demo_active. destruct (heap (core demo_world) !! demo_slot_obj) as [o|] eqn:Ho;
    [|vm_compute in Ho; discriminate Ho].
  assert (Ht : (transition o active).2 = with_state o active).
  { vm_compute in Ho. injection Ho as <-. reflexivity. }
  rewrite Ht. eapply scoms_inv_state; [discriminate|apply demo_world_scoms|exact Ho|].
  vm_compute in Ho. injection Ho as <-. discriminate.
Qed.

(** One reference taken on it. *)
Definition demo_held : world :=
  match try_get demo_active demo_slot_obj with Some (_, w) => w | None => demo_active end.

Lemma demo_held_inv : scoms_inv 9 demo_held (bump (fun _ => 0) demo_slot_obj 1).
Proof.
  destruct (heap (core demo_active) !! demo_slot_obj) as [o|] eqn:Ho;
    [|vm_compute in Ho; discriminate Ho].
  destruct (scoms_try_get_ok 9 demo_active (fun _ => 0) demo_slot_obj o demo_active_inv Ho)
    as (w' & Hw & Hi & _).
  - vm_compute in Ho. injection Ho as <-. reflexivity.
  - vm_compute in Ho. injection Ho as <-. vm_compute. reflexivity.
  - unfold demo_held. by rewrite Hw.
Qed.

Lemma held_put_safe_witness :
  exists w', put demo_held demo_slot_obj = Some w' /\
    scoms_inv 9 w' (bump (bump (fun _ => 0) demo_slot_obj 1) demo_slot_obj (-1)) /\
    forall b, 0 < bump (bump (fun _ => 0) demo_slot_obj 1) demo_slot_obj (-1) b ->
      header <$> heap (core w') !! b = header <$> heap (core demo_held) !! b.
Proof.
  apply (held_put_safe 9 demo_held (bump (fun _ => 0) demo_slot_obj 1) demo_slot_obj).
  - apply demo_held_inv.
  - vm_compute. reflexivity.
Defined.
