(* ===== verification/Cap.v ===== *)
(** * Capabilities: slots, tokens, validation and revocation

    Models [zxfoundation/dgp/cap.zcomponent] ([types.cxxm], [core.cxx]).  A
    capability is a slot of a table of 1024; the holder gets a 64-bit token that
    packs rights, slot generation, slot index and type.  The objects behind the
    slots live in an object store seen through the interface of ObjStore.v; the
    per-type lookup callbacks are registered by the subsystems that own the
    objects and are a parameter ([run_lookup]), as is whether kmalloc serves
    the table ([mem]).  An operation returns [None] where the code traps or
    dereferences a null pointer. *)

From S2P Require Import Prelude Errors Kobject ObjectCore ScomsTable ObjStore.

(** ** Tokens *)

(** [cap_type] and [cap_rights] are 16-bit enumerations whose values come out
    of tokens unchecked, so they are kept as integers. *)
Definition ct_none : Z := 0.
Definition ct_domain : Z := 1.
Definition ct_gate : Z := 2.
Definition ct_portal : Z := 3.
Definition ct_memory : Z := 6.
Definition cr_none : Z := 0.
Definition cr_delegate : Z := 16.

(** [cap_token::make]. *)
Definition token_make (ty obj_id gen rights : Z) : Z :=
  Z.lor (Z.shiftl rights 48)
    (Z.lor (Z.shiftl gen 32) (Z.lor (Z.shiftl obj_id 16) ty)).

Definition token_type (raw : Z) : Z := Z.land raw 65535.
Definition token_object_id (raw : Z) : Z := Z.land (Z.shiftr raw 16) 65535.
Definition token_generation (raw : Z) : Z := Z.land (Z.shiftr raw 32) 65535.
Definition token_rights (raw : Z) : Z := Z.land (Z.shiftr raw 48) 65535.

Definition token_has_right (raw r : Z) : bool := negb (Z.land (token_rights raw) r =? 0).

Definition token_derive (raw subset : Z) : Z :=
  token_make (token_type raw) (token_object_id raw) (token_generation raw)
    (Z.land (token_rights raw) subset).

(** [operator bool]. *)
Definition token_valid (raw : Z) : bool :=
  negb (raw =? 0) && negb (token_type raw =? ct_none).

(** ** The capability table *)

Definition LOOKUP_TABLE_SIZE : Z := 16.
Definition MAX_CAPABILITIES : Z := 1024.

Record capability_slot := CapSlot {
  target : option addr;
  ctype : Z;
  rights : Z;
  owner_domain : Z;
  target_generation : Z;
  cgeneration : Z;
  cactive : bool
}.

Definition slot_default : capability_slot := CapSlot None ct_none cr_none U32_MAX 0 1 false.

(** Deactivating a slot: [active = false; target = nullptr; ++generation]. *)
Definition slot_retire (s : capability_slot) : capability_slot :=
  CapSlot None (ctype s) (rights s) (owner_domain s) (target_generation s)
    (u16 (cgeneration s + 1)) false.

Section cap.
Context {W fn : Type} `{ObjStore W} (run_lookup : fn -> W -> Z -> option addr).

(** [s_capabilities] ([None] until the first issue) and [s_lookup_table]. *)
Record cap_state := CapState {
  capabilities : option (list capability_slot);
  lookup_table : gmap Z fn
}.

Definition cap_slots (cs : cap_state) : list capability_slot :=
  default [] (capabilities cs).

Definition slot_at (l : list capability_slot) (i : Z) : capability_slot :=
  nthZ slot_default l i.

Definition set_slot (cs : cap_state) (i : Z) (s : capability_slot) : cap_state :=
  CapState (Some (updZ (cap_slots cs) i s)) (lookup_table cs).

Definition ensure_capabilities_locked (mem : bool) (cs : cap_state) : bool * cap_state :=
  match capabilities cs with
  | Some _ => (true, cs)
  | None =>
      if mem
      then (true, CapState (Some (replicate (Z.to_nat MAX_CAPABILITIES) slot_default))
                    (lookup_table cs))
      else (false, cs)
  end.

Definition lookup_kobject (cs : cap_state) (w : W) (ty obj_id : Z)
    : option (expected (addr * Z)) :=
  match (if LOOKUP_TABLE_SIZE <=? ty then None else lookup_table cs !! ty) with
  | None => Some (Unexpected (from_generic not_supported))
  | Some f =>
      match run_lookup f w obj_id with
      | None => Some (Unexpected (from_generic not_found))
      | Some a => o ← os_get w a; Some (Expected (a, generation o))
      end
  end.

Definition check_rights (token needed : Z) : expected unit :=
  if negb (needed =? cr_none) && negb (Z.land (token_rights token) needed =? needed)
  then Unexpected (from_generic invalid_arg)
  else Expected tt.

(** [slot_for]: the index of the slot a token designates. *)
Definition slot_for (cs : cap_state) (token : Z) : option Z :=
  match capabilities cs with
  | None => None
  | Some l =>
      let i := token_object_id token in
      if negb (token_valid token) || (i =? 0) || (MAX_CAPABILITIES <=? i) then None
      else
        let s := slot_at l i in
        if negb (cactive s) || negb (cgeneration s =? token_generation token)
           || negb (ctype s =? token_type token)
           || negb (rights s =? token_rights token)
        then None else Some i
  end.

Definition free_slot (l : list capability_slot) : option Z :=
  find_up (fun i => negb (cactive (slot_at l i))) 1 (Z.to_nat (MAX_CAPABILITIES - 1)).

Definition issue_locked (mem : bool) (cs : cap_state) (w : W)
    (ty obj_id rgt owner : Z) : option (expected Z * cap_state * W) :=
  let '(ok, cs) := ensure_capabilities_locked mem cs in
  if negb ok then Some (Unexpected (from_memory mem_out_of_memory), cs, w)
  else
    r ← lookup_kobject cs w ty obj_id;
    match r with
    | Unexpected e => Some (Unexpected e, cs, w)
    | Expected (tgt, gen) =>
        match free_slot (cap_slots cs) with
        | None => Some (Unexpected (from_memory mem_out_of_memory), cs, w)
        | Some i =>
            o ← os_get w tgt;
            if negb (bool_decide (state o = active))
            then Some (Unexpected (from_generic not_supported), cs, w)
            else
              '(got, w1) ← os_try_get w tgt;
              if negb (got : bool)
              then Some (Unexpected (from_generic not_found), cs, w1)
              else
                let g := cgeneration (slot_at (cap_slots cs) i) in
                Some (Expected (token_make ty (u16 i) g rgt),
                      set_slot cs i (CapSlot (Some tgt) ty rgt owner gen g true), w1)
        end
    end.

(** [validate_slot]; on success the target. *)
Definition validate_slot (cs : cap_state) (w : W) (token needed owner : Z)
    (check_owner : bool) : option (expected addr) :=
  let missing := Some (Unexpected (from_generic not_found)) in
  match slot_for cs token with
  | None => missing
  | Some i =>
      let s := slot_at (cap_slots cs) i in
      match target s with
      | None => missing
      | Some a =>
          o ← os_get w a;
          if negb (generation o =? target_generation s)
             || bool_decide (state o = dying) || bool_decide (state o = destroyed)
          then missing
          else if check_owner && negb (owner_domain s =? owner)
          then Some (Unexpected (from_memory mem_capability_invalid))
          else
            match check_rights token needed with
            | Unexpected e => Some (Unexpected e)
            | Expected _ => Some (Expected a)
            end
      end
  end.

(** ** The operations *)

Definition cap_issue := issue_locked.

(** [cap_duplicate] and [cap_acquire] have the same body. *)
Definition cap_duplicate (mem : bool) (cs : cap_state) (w : W)
    (source rgt owner : Z) : option (expected Z * cap_state * W) :=
  v ← validate_slot cs w source rgt owner true;
  match v with
  | Unexpected e => Some (Unexpected e, cs, w)
  | Expected a =>
      i ← slot_for cs source;
      o ← os_get w a;
      issue_locked mem cs w (ctype (slot_at (cap_slots cs) i)) (u16 (id o)) rgt owner
  end.

Definition cap_acquire := cap_duplicate.

Definition cap_duplicate_for (mem : bool) (cs : cap_state) (w : W)
    (source rgt source_domain owner : Z) : option (expected Z * cap_state * W) :=
  v ← validate_slot cs w source rgt source_domain true;
  match v with
  | Unexpected e => Some (Unexpected e, cs, w)
  | Expected a =>
      i ← slot_for cs source;
      let s := slot_at (cap_slots cs) i in
      if negb (owner =? source_domain)
         && negb (Z.land (rights s) cr_delegate =? cr_delegate)
      then Some (Unexpected (from_memory mem_capability_invalid), cs, w)
      else
        o ← os_get w a;
        issue_locked mem cs w (ctype s) (u16 (id o)) rgt owner
  end.

(** [cap_release] and [cap_revoke] have the same effect. *)
Definition cap_revoke (cs : cap_state) (w : W) (token : Z)
    : option (expected unit * cap_state * W) :=
  if negb (token_valid token)
  then Some (Unexpected (from_generic invalid_arg), cs, w)
  else
    match slot_for cs token with
    | None => Some (Unexpected (from_generic not_found), cs, w)
    | Some i =>
        let s := slot_at (cap_slots cs) i in
        a ← target s;
        w' ← os_put w a;
        Some (Expected tt, set_slot cs i (slot_retire s), w')
    end.

Definition cap_release := cap_revoke.

Definition cap_validate_generic (cs : cap_state) (w : W) (token needed : Z)
    : option (expected addr) :=
  if negb (token_valid token) then Some (Unexpected (from_generic invalid_arg))
  else validate_slot cs w token needed 0 false.

Definition cap_validate_generic_for (cs : cap_state) (w : W) (token needed owner : Z)
    : option (expected addr) :=
  validate_slot cs w token needed owner true.

Definition cap_resolve (cs : cap_state) (w : W) (token needed : Z)
    : option (expected addr) :=
  validate_slot cs w token needed 0 false.

Definition register_lookup (cs : cap_state) (ty : Z) (f : fn) : expected unit * cap_state :=
  if LOOKUP_TABLE_SIZE <=? ty then (Unexpected (from_generic not_supported), cs)
  else (Expected tt, CapState (capabilities cs) (<[ty := f]> (lookup_table cs))).

(** The typed validators: [cap_validate<domain>], [<gate_desc>], [<portal_desc>]
    check the token's type; [<memory_object>] also the object's own type. *)
Definition cap_validate_typed (ty : Z) (cs : cap_state) (w : W) (token needed : Z)
    : option (expected addr) :=
  v ← validate_slot cs w token needed 0 false;
  match v with
  | Unexpected e => Some (Unexpected e)
  | Expected a =>
      if negb (token_type token =? ty) then Some (Unexpected (from_generic invalid_arg))
      else Some (Expected a)
  end.

Definition cap_validate_memory (cs : cap_state) (w : W) (token needed : Z)
    : option (expected addr) :=
  v ← cap_validate_typed ct_memory cs w token needed;
  match v with
  | Unexpected e => Some (Unexpected e)
  | Expected a =>
      o ← os_get w a;
      if bool_decide (type o = kt_grant) then Some (Expected a)
      else Some (Unexpected (from_memory mem_capability_invalid))
  end.

(** ** Mass revocation *)

(** The slots [cap_revoke_for_domain] takes away. *)
Definition domain_slot (w : W) (domain_id : Z) (s : capability_slot) : option bool :=
  targets_domain ←
    (if cactive s && (ctype s =? ct_domain) then
       match target s with
       | None => Some false
       | Some a => o ← os_get w a; Some (id o =? domain_id)
       end
     else Some false);
  Some (cactive s && ((owner_domain s =? domain_id) || targets_domain)).

Fixpoint revoke_domain_loop (cs : cap_state) (w : W) (domain_id i : Z) (n : nat)
    (revoked : Z) : option (Z * cap_state * W) :=
  match n with
  | O => Some (revoked, cs, w)
  | S n' =>
      let s := slot_at (cap_slots cs) i in
      hit ← domain_slot w domain_id s;
      if negb (hit : bool) then revoke_domain_loop cs w domain_id (i + 1) n' revoked
      else
        w' ← (match target s with Some a => os_put w a | None => Some w end);
        revoke_domain_loop (set_slot cs i (slot_retire s)) w' domain_id (i + 1) n'
          (u32 (revoked + 1))
  end.

Definition cap_revoke_for_domain (cs : cap_state) (w : W) (domain_id : Z)
    : option (Z * cap_state * W) :=
  match capabilities cs with
  | None => Some (0, cs, w)
  | Some _ =>
      revoke_domain_loop cs w domain_id 1 (Z.to_nat (MAX_CAPABILITIES - 1)) 0
  end.

Fixpoint revoke_target_loop (cs : cap_state) (w : W) (a : addr) (i : Z) (n : nat)
    (revoked : Z) : option (Z * cap_state * W) :=
  match n with
  | O => Some (revoked, cs, w)
  | S n' =>
      let s := slot_at (cap_slots cs) i in
      if negb (cactive s) || negb (bool_decide (target s = Some a))
      then revoke_target_loop cs w a (i + 1) n' revoked
      else
        w' ← os_put w a;
        revoke_target_loop (set_slot cs i (slot_retire s)) w' a (i + 1) n'
          (u32 (revoked + 1))
  end.

(** The table pointer is not checked here: with no table the first access
    dereferences a null pointer. *)
Definition cap_revoke_target (cs : cap_state) (w : W) (a : addr)
    : option (Z * cap_state * W) :=
  _ ← capabilities cs;
  revoke_target_loop cs w a 1 (Z.to_nat (MAX_CAPABILITIES - 1)) 0.

End cap.
Arguments CapState {fn}.
Arguments capabilities {fn}.
Arguments lookup_table {fn}.
Arguments cap_state : clear implicits.

(** ** Tokens: packing and unpacking *)

Lemma token_make_arith ty oid gen rgt :
  fits 16 ty -> fits 16 oid -> fits 16 gen -> fits 16 rgt ->
  token_make ty oid gen rgt = rgt * 2 ^ 48 + (gen * 2 ^ 32 + (oid * 2 ^ 16 + ty)).
Proof.
  unfold fits. intros H1 H2 H3 H4. unfold token_make.
  change (2 ^ 16) with 65536 in *. change (2 ^ 32) with 4294967296.
  change (2 ^ 48) with 281474976710656.
  rewrite (lor_shiftl_add oid ty 16) by lia. change (2 ^ 16) with 65536.
  rewrite (lor_shiftl_add gen _ 32) by lia. change (2 ^ 32) with 4294967296.
  rewrite (lor_shiftl_add rgt _ 48) by lia. done.
Qed.

(** A 16-bit field at bit [k]. *)
Lemma field_div raw k : 0 <= k -> Z.land (Z.shiftr raw k) 65535 = (raw / 2 ^ k) mod 65536.
Proof.
  intros. change 65535 with (Z.ones 16).
  rewrite land_ones_mod, Z.shiftr_div_pow2 by lia. done.
Qed.

Lemma token_fields_arith raw :
  token_type raw = raw mod 65536 /\
  token_object_id raw = (raw / 65536) mod 65536 /\
  token_generation raw = (raw / 4294967296) mod 65536 /\
  token_rights raw = (raw / 281474976710656) mod 65536.
Proof.
  unfold token_object_id, token_generation, token_rights.
  rewrite !field_div by lia. split; [|done].
  unfold token_type. change 65535 with (Z.ones 16). by rewrite land_ones_mod by lia.
Qed.

Lemma token_fields_fit raw :
  fits 16 (token_type raw) /\ fits 16 (token_object_id raw) /\
  fits 16 (token_generation raw) /\ fits 16 (token_rights raw).
Proof.
  destruct (token_fields_arith raw) as (-> & -> & -> & ->). unfold fits.
  change (2 ^ 16) with 65536. lia.
Qed.

Lemma token_unpack ty oid gen rgt :
  fits 16 ty -> fits 16 oid -> fits 16 gen -> fits 16 rgt ->
  token_type (token_make ty oid gen rgt) = ty /\
  token_object_id (token_make ty oid gen rgt) = oid /\
  token_generation (token_make ty oid gen rgt) = gen /\
  token_rights (token_make ty oid gen rgt) = rgt /\
  fits 64 (token_make ty oid gen rgt).
Proof.
  intros H1 H2 H3 H4.
  destruct (token_fields_arith (token_make ty oid gen rgt)) as (-> & -> & -> & ->).
  rewrite token_make_arith by done. unfold fits in *.
  change (2 ^ 16) with 65536 in *. change (2 ^ 32) with 4294967296.
  change (2 ^ 48) with 281474976710656. change (2 ^ 64) with 18446744073709551616.
  lia.
Qed.

Lemma token_repack raw :
  fits 64 raw ->
  token_make (token_type raw) (token_object_id raw) (token_generation raw)
    (token_rights raw) = raw.
Proof.
  intros Hr. destruct (token_fields_fit raw) as (H1 & H2 & H3 & H4).
  rewrite token_make_arith by done.
  destruct (token_fields_arith raw) as (-> & -> & -> & ->). unfold fits in *.
  change (2 ^ 16) with 65536 in *. change (2 ^ 32) with 4294967296.
  change (2 ^ 48) with 281474976710656. change (2 ^ 64) with 18446744073709551616 in *.
  lia.
Qed.

(** ** The table invariant *)

(** Machine widths, and an active slot has a target. *)
Definition slot_ok (s : capability_slot) : Prop :=
  fits 16 (ctype s) /\ fits 16 (rights s) /\ fits 16 (cgeneration s) /\
  (cactive s = true -> is_Some (target s)).

(** Does slot [s] hold a reference to [a]? *)
Definition refers (a : addr) (s : capability_slot) : bool :=
  cactive s && bool_decide (target s = Some a).

(** The number of slots that refer to [a]. *)
Definition cap_refs (l : list capability_slot) (a : addr) : Z :=
  count_below (fun i => refers a (slot_at l i)) (Z.to_nat MAX_CAPABILITIES).

(** The token of slot [i]. *)
Definition token_of (s : capability_slot) (i : Z) : Z :=
  token_make (ctype s) i (cgeneration s) (rights s).

Definition cap_index (i : Z) : Prop := 0 < i < MAX_CAPABILITIES.

Section cap_spec.
Context {W fn : Type} `{ObjStoreLaws W}.

(** [ext a]: references to [a] held by other clients of the object store. *)
Context (ext : addr -> Z).

Record cap_inv (cs : cap_state fn) (w : W) : Prop := {
  ci_len : capabilities cs = None \/ length (cap_slots cs) = Z.to_nat MAX_CAPABILITIES;
  ci_slot : forall i, slot_ok (slot_at (cap_slots cs) i);
  ci_zero : cactive (slot_at (cap_slots cs) 0) = false;
  ci_ext : forall a, 0 <= ext a;
  ci_refs : os_inv w (fun a => ext a + cap_refs (cap_slots cs) a)
}.

(** No object is at the saturation bound of its reference count. *)
Definition unsaturated (w : W) : Prop :=
  forall a o, os_get w a = Some o -> ref o < KREF_MAX.

Lemma slot_default_ok : slot_ok slot_default.
Proof. unfold slot_ok, fits. simpl. change (2 ^ 16) with 65536. split_and!; lia || done. Qed.

Lemma slot_retire_ok s : slot_ok s -> slot_ok (slot_retire s).
Proof.
  intros (H1 & H2 & H3 & _). split_and!; [done|done|apply u16_fits|done].
Qed.

Lemma slot_at_set (l : list capability_slot) i j s :
  length l = Z.to_nat MAX_CAPABILITIES -> 0 <= i < MAX_CAPABILITIES -> 0 <= j ->
  slot_at (updZ l i s) j = if decide (j = i) then s else slot_at l j.
Proof.
  intros Hl Hi Hj. unfold slot_at, MAX_CAPABILITIES in *. case_decide as Hd.
  - subst. apply nthZ_updZ_eq. lia.
  - by apply nthZ_updZ_ne; [lia|lia|congruence].
Qed.

Lemma slot_at_neg (l : list capability_slot) i : i < 0 -> slot_at l i = slot_at l 0.
Proof. intros. unfold slot_at, nthZ. by replace (Z.to_nat i) with (Z.to_nat 0) by lia. Qed.

Lemma cap_refs_set l i s a :
  length l = Z.to_nat MAX_CAPABILITIES -> 0 <= i < MAX_CAPABILITIES ->
  cap_refs (updZ l i s) a =
    cap_refs l a + Z.b2z (refers a s) - Z.b2z (refers a (slot_at l i)).
Proof.
  intros Hl Hi. unfold cap_refs.
  rewrite (count_below_upd (fun j => refers a (slot_at l j)) _ _ i).
  - rewrite slot_at_set, decide_True by (done || lia). done.
  - unfold MAX_CAPABILITIES in *. lia.
  - intros j Hj Hne. by rewrite slot_at_set, decide_False by (done || lia).
Qed.

Lemma cap_refs_nonneg l a : 0 <= cap_refs l a.
Proof. apply count_below_range. Qed.

(** The object behind an active slot is there. *)
Lemma active_held cs w i a :
  cap_inv cs w -> 0 <= i < MAX_CAPABILITIES ->
  cactive (slot_at (cap_slots cs) i) = true ->
  target (slot_at (cap_slots cs) i) = Some a ->
  0 < ext a + cap_refs (cap_slots cs) a.
Proof.
  intros Hi Hr Ha Ht. pose proof (ci_ext _ _ Hi a).
  assert (0 < cap_refs (cap_slots cs) a); [|lia].
  apply (count_below_pos _ _ i); [unfold MAX_CAPABILITIES in *; lia|].
  unfold refers. rewrite Ha, Ht. by rewrite bool_decide_true.
Qed.

Lemma active_len cs w i :
  cap_inv cs w -> cactive (slot_at (cap_slots cs) i) = true ->
  length (cap_slots cs) = Z.to_nat MAX_CAPABILITIES.
Proof.
  intros Hi Ha. destruct (ci_len _ _ Hi) as [Hn|?]; [|done].
  unfold cap_slots in Ha. rewrite Hn in Ha. simpl in Ha.
  unfold slot_at, nthZ in Ha. by destruct (Z.to_nat i).
Qed.

(** A token designates slot [i] exactly when it is that slot's token. *)
Lemma slot_for_spec cs w tok i :
  cap_inv cs w -> fits 64 tok ->
  slot_for cs tok = Some i <->
  cap_index i /\ cactive (slot_at (cap_slots cs) i) = true /\
  ctype (slot_at (cap_slots cs) i) <> ct_none /\
  tok = token_of (slot_at (cap_slots cs) i) i.
Proof.
  intros Hi Hf. destruct (token_fields_fit tok) as (F1 & F2 & F3 & F4). unfold slot_for.
  destruct (capabilities cs) as [l|] eqn:Hl.
  2:{ split; [done|]. intros (_ & Ha & _). unfold cap_slots in Ha. rewrite Hl in Ha.
      unfold slot_at, nthZ in Ha. simpl in Ha. by destruct (Z.to_nat i). }
  assert (Hcs : cap_slots cs = l) by (unfold cap_slots; by rewrite Hl). rewrite Hcs.
  split.
  - case_match eqn:E1; [done|]. case_match eqn:E2; [done|]. intros [= <-].
    rewrite !orb_false_iff, !negb_false_iff in E1.
    rewrite !orb_false_iff, !negb_false_iff, !Z.eqb_eq in E2.
    destruct E1 as [[Ev E0] E1024]. destruct E2 as [[[Ea Eg] Et] Er].
    apply Z.eqb_neq in E0. apply Z.leb_gt in E1024. unfold fits in F2.
    unfold token_valid in Ev. apply andb_true_iff in Ev as [_ Ev].
    apply negb_true_iff, Z.eqb_neq in Ev.
    split_and!; [unfold cap_index; lia|done|congruence|].
    unfold token_of. rewrite Eg, Et, Er. by rewrite token_repack.
  - intros (Hx & Ha & Hty & ->). set (s := slot_at l i) in *.
    pose proof (ci_slot _ _ Hi i) as Hso. rewrite Hcs in Hso. fold s in Hso.
    destruct Hso as (S1 & S2 & S3 & _).
    assert (fits 16 i) by (unfold fits, cap_index, MAX_CAPABILITIES in *; lia).
    destruct (token_unpack (ctype s) i (cgeneration s) (rights s)) as (U1 & U2 & U3 & U4 & _);
      try done.
    unfold token_of in *. rewrite U2, U3, U4, U1. fold s. unfold token_valid. rewrite U1.
    rewrite (proj2 (Z.eqb_neq (ctype s) _)) by done.
    assert (token_make (ctype s) i (cgeneration s) (rights s) <> 0) as Hnz.
    { intros Hz. rewrite Hz in U2. unfold cap_index in Hx. unfold token_object_id in U2.
      rewrite Z.shiftr_0_l, Z.land_0_l in U2. lia. }
    rewrite (proj2 (Z.eqb_neq _ 0)) by done. unfold cap_index in Hx.
    rewrite (proj2 (Z.eqb_neq i 0)), (proj2 (Z.leb_gt _ _)) by lia.
    rewrite Ha, !Z.eqb_refl. done.
Qed.

(** What the holder of [tok] may do: the slot it designates is active, names a
    live object of the recorded generation and carries the needed rights. *)
Definition authorises (cs : cap_state fn) (w : W) (tok needed owner : Z)
    (check_owner : bool) (a : addr) : Prop :=
  exists i o, let s := slot_at (cap_slots cs) i in
    slot_for cs tok = Some i /\ target s = Some a /\ os_get w a = Some o /\
    generation o = target_generation s /\ state o <> dying /\ state o <> destroyed /\
    (check_owner = true -> owner_domain s = owner) /\
    Z.land (rights s) needed = needed.

Lemma check_rights_ok tok needed :
  check_rights tok needed = Expected tt <-> Z.land (token_rights tok) needed = needed.
Proof.
  unfold check_rights, cr_none. destruct (Z.eqb_spec needed 0) as [Hz|Hn]; cbn [negb andb].
  - rewrite Hz, Z.land_0_r. by split.
  - destruct (Z.eqb_spec (Z.land (token_rights tok) needed) needed) as [He|He]; cbn [negb];
      [by split|]. split; [done|]. intros Hc. by destruct He.
Qed.

Lemma slot_for_inv cs w tok i :
  cap_inv cs w -> slot_for cs tok = Some i ->
  cap_index i /\ cactive (slot_at (cap_slots cs) i) = true /\
  rights (slot_at (cap_slots cs) i) = token_rights tok /\
  length (cap_slots cs) = Z.to_nat MAX_CAPABILITIES /\
  exists a, target (slot_at (cap_slots cs) i) = Some a /\
    0 < ext a + cap_refs (cap_slots cs) a.
Proof.
  intros Hi. unfold slot_for. destruct (capabilities cs) as [l|] eqn:Hl; [|done].
  assert (Hcs : cap_slots cs = l) by (unfold cap_slots; by rewrite Hl).
  destruct (token_fields_fit tok) as (_ & F2 & _ & _). unfold fits in F2.
  case_match eqn:E1; [done|]. case_match eqn:E2; [done|]. intros [= <-].
  rewrite !orb_false_iff, !negb_false_iff in E1.
  rewrite !orb_false_iff, !negb_false_iff, !Z.eqb_eq in E2.
  destruct E1 as [[_ E0] E1024]. destruct E2 as [[[Ea _] _] Er].
  apply Z.eqb_neq in E0. apply Z.leb_gt in E1024. rewrite <- Hcs in Ea, Er.
  assert (Hx : cap_index (token_object_id tok)) by (unfold cap_index; lia).
  destruct (proj2 (proj2 (proj2 (ci_slot _ _ Hi (token_object_id tok)))) Ea) as [a Ht].
  split_and!; [done|done|done|by eapply active_len|]. exists a. split; [done|].
  apply (active_held cs w (token_object_id tok) a); try done. unfold cap_index in Hx. lia.
Qed.

Lemma validate_total cs w tok needed owner chk :
  cap_inv cs w -> is_Some (validate_slot cs w tok needed owner chk).
Proof.
  intros Hi. unfold validate_slot. destruct (slot_for cs tok) as [i|] eqn:Hs; [|eauto].
  destruct (slot_for_inv cs w tok i Hi Hs) as (_ & _ & _ & _ & a & -> & Hr).
  destruct (os_held w _ a (ci_refs _ _ Hi) Hr) as [o ->]. simpl.
  repeat (case_match; eauto).
Qed.

Lemma validate_iff cs w tok needed owner chk a :
  cap_inv cs w ->
  validate_slot cs w tok needed owner chk = Some (Expected a) <->
  authorises cs w tok needed owner chk a.
Proof.
  intros Hi. unfold validate_slot, authorises. split.
  - destruct (slot_for cs tok) as [i|] eqn:Hs; [|done].
    destruct (slot_for_inv cs w tok i Hi Hs) as (_ & _ & Hr & _).
    destruct (target _) as [b|] eqn:Ht; [|done]. destruct (os_get w b) as [o|] eqn:Ho; [|done].
    cbn [mbind option_bind]. case_match eqn:E1; [done|]. case_match eqn:E2; [done|].
    destruct (check_rights tok needed) as [[]|e] eqn:Hc; [|done]. intros [= <-].
    exists i, o. rewrite !orb_false_iff, !bool_decide_eq_false, negb_false_iff, Z.eqb_eq in E1.
    destruct E1 as [[E1 ?] ?]. rewrite Hr.
    split_and!; try done; [|by apply check_rights_ok].
    intros ->. by apply negb_false_iff, Z.eqb_eq in E2.
  - intros (i & o & Hs & Ht & Ho & Hg & H1 & H2 & H3 & H4).
    destruct (slot_for_inv cs w tok i Hi Hs) as (_ & _ & Hr & _).
    rewrite Hs, Ht, Ho. cbn [mbind option_bind]. rewrite Hg, Z.eqb_refl.
    rewrite !bool_decide_false by done. cbn [negb orb].
    assert (chk && negb (owner_domain (slot_at (cap_slots cs) i) =? owner) = false) as ->.
    { destruct chk; [|done]. rewrite H3, Z.eqb_refl by done. done. }
    rewrite Hr in H4. by rewrite (proj2 (check_rights_ok tok needed)).
Qed.

(** Retiring an active slot and dropping its reference. *)
Lemma cap_retire_inv cs w i a :
  cap_inv cs w -> cap_index i -> cactive (slot_at (cap_slots cs) i) = true ->
  target (slot_at (cap_slots cs) i) = Some a ->
  exists w', os_put w a = Some w' /\
    cap_inv (set_slot cs i (slot_retire (slot_at (cap_slots cs) i))) w' /\
    forall b, 0 < ext b + cap_refs (cap_slots
        (set_slot cs i (slot_retire (slot_at (cap_slots cs) i)))) b ->
      header <$> os_get w' b = header <$> os_get w b.
Proof.
  intros Hi Hx Ha Ht. set (s := slot_at (cap_slots cs) i) in *. unfold cap_index in Hx.
  assert (Hl : length (cap_slots cs) = Z.to_nat MAX_CAPABILITIES) by (by eapply active_len).
  pose proof (active_held cs w i a Hi ltac:(lia) Ha Ht) as Hh.
  destruct (os_put_ok w _ a (ci_refs _ _ Hi) Hh) as (w' & Hp & Hinv & Hhd).
  assert (Hrf : forall b,
    bump (fun b => ext b + cap_refs (cap_slots cs) b) a (-1) b =
    ext b + cap_refs (updZ (cap_slots cs) i (slot_retire s)) b).
  { intros b. rewrite cap_refs_set by (done || lia). fold s.
    assert (refers b (slot_retire s) = false) as -> by done.
    unfold bump, refers. rewrite Ha, Ht. cbn [andb]. case_decide.
    - subst. rewrite bool_decide_true by done. simpl. lia.
    - rewrite bool_decide_false by congruence. simpl. lia. }
  exists w'. split; [done|]. cbn [set_slot cap_slots capabilities from_option default] in *.
  split.
  - split.
    + right. unfold cap_slots. simpl. by rewrite length_updZ.
    + intros j. unfold cap_slots; simpl. fold (cap_slots cs).
      assert (Hj : forall j, 0 <= j -> slot_ok (slot_at (updZ (cap_slots cs) i (slot_retire s)) j)).
      { intros j' Hj'. rewrite slot_at_set by (done || lia).
        case_decide; [apply slot_retire_ok, ci_slot with w; done|by apply ci_slot with w]. }
      destruct (Z.lt_ge_cases j 0); [rewrite slot_at_neg by done|]; apply Hj; lia.
    + unfold cap_slots; simpl. fold (cap_slots cs).
      rewrite slot_at_set, decide_False by (done || lia). by eapply ci_zero.
    + apply Hi.
    + eapply os_inv_ext; [|exact Hinv]. exact Hrf.
  - intros b Hb. apply Hhd. rewrite Hrf. exact Hb.
Qed.

Lemma cap_slots_set (cs : cap_state fn) i s :
  cap_slots (set_slot cs i s) = updZ (cap_slots cs) i s.
Proof. reflexivity. Qed.

Lemma slot_at_nil i : slot_at [] i = slot_default.
Proof. unfold slot_at, nthZ. by destruct (Z.to_nat i). Qed.

Lemma slot_at_replicate n i : slot_at (replicate n slot_default) i = slot_default.
Proof.
  unfold slot_at, nthZ. generalize (Z.to_nat i). induction n; intros [|k]; simpl; auto.
Qed.

Definition slots_agree (cs cs' : cap_state fn) : Prop :=
  forall i, slot_at (cap_slots cs') i = slot_at (cap_slots cs) i.

(** The invariant depends on the slots only. *)
Lemma cap_inv_agree cs cs' w :
  slots_agree cs cs' ->
  (capabilities cs' = None \/ length (cap_slots cs') = Z.to_nat MAX_CAPABILITIES) ->
  cap_inv cs w -> cap_inv cs' w.
Proof.
  intros Ha Hl Hi. split; [done| | | |].
  - intros i. rewrite Ha. by apply ci_slot with w.
  - rewrite Ha. by eapply ci_zero.
  - apply Hi.
  - eapply os_inv_ext; [|apply Hi]. intros a. cbn beta. f_equal. unfold cap_refs.
    apply count_below_ext. intros i _. by rewrite Ha.
Qed.

Lemma ensure_spec mem cs w ok cs1 :
  ensure_capabilities_locked mem cs = (ok, cs1) -> cap_inv cs w ->
  cap_inv cs1 w /\ slots_agree cs cs1 /\ lookup_table cs1 = lookup_table cs /\
  (ok = true -> length (cap_slots cs1) = Z.to_nat MAX_CAPABILITIES).
Proof.
  unfold ensure_capabilities_locked. intros He Hi.
  destruct (capabilities cs) as [l|] eqn:Hl.
  - injection He as <- <-. split_and!; try done.
    intros _. destruct (ci_len _ _ Hi) as [?|?]; [congruence|done].
  - destruct mem; injection He as <- <-; [|done].
    assert (Ha : slots_agree cs
      (CapState (Some (replicate (Z.to_nat MAX_CAPABILITIES) slot_default)) (lookup_table cs))).
    { intros i. unfold cap_slots. rewrite Hl.
      change (slot_at (replicate (Z.to_nat MAX_CAPABILITIES) slot_default) i = slot_at [] i).
      rewrite slot_at_replicate, slot_at_nil. done. }
    assert (Hn : length (replicate (Z.to_nat MAX_CAPABILITIES) slot_default) =
      Z.to_nat MAX_CAPABILITIES) by apply length_replicate.
    split_and!; [|done|done|done]. eapply cap_inv_agree; [exact Ha|right; exact Hn|done].
Qed.

(** Taking a reference into a free slot. *)
Lemma occupy_inv cs w w' i s a :
  cap_inv cs w -> length (cap_slots cs) = Z.to_nat MAX_CAPABILITIES -> cap_index i ->
  cactive (slot_at (cap_slots cs) i) = false ->
  slot_ok s -> cactive s = true -> target s = Some a ->
  os_inv w' (bump (fun b => ext b + cap_refs (cap_slots cs) b) a 1) ->
  cap_inv (set_slot cs i s) w'.
Proof.
  intros Hi Hl Hx Hf Hs Ha Ht Hw. unfold cap_index in Hx.
  split; rewrite ?cap_slots_set.
  - right. by rewrite length_updZ.
  - assert (Hj : forall j, 0 <= j -> slot_ok (slot_at (updZ (cap_slots cs) i s) j)).
    { intros j' Hj'. rewrite slot_at_set by (done || lia).
      case_decide; [done|by apply ci_slot with w]. }
    intros j. destruct (Z.lt_ge_cases j 0); [rewrite slot_at_neg by done|]; apply Hj; lia.
  - rewrite slot_at_set, decide_False by (done || lia). by eapply ci_zero.
  - apply Hi.
  - eapply os_inv_ext; [|exact Hw]. intros b. rewrite cap_refs_set by (done || lia).
    unfold bump, refers. rewrite Hf, Ha, Ht. cbn [andb]. case_decide.
    + subst. rewrite bool_decide_true by done. simpl. lia.
    + rewrite bool_decide_false by congruence. simpl. lia.
Qed.

Section issue.
Context (run_lookup : fn -> W -> Z -> option addr).

(** Lookup callbacks return objects that exist. *)
Definition lookup_sound : Prop :=
  forall f w i a, run_lookup f w i = Some a -> is_Some (os_get w a).

(** Outcome of issuing a capability. *)
Definition issued (cs cs' : cap_state fn) (w w' : W) (ty obj_id rgt owner tok : Z)
    : Prop :=
  exists i f a o, cap_index i /\ cactive (slot_at (cap_slots cs) i) = false /\
    lookup_table cs !! ty = Some f /\ run_lookup f w obj_id = Some a /\
    os_get w a = Some o /\ state o = active /\
    let s := CapSlot (Some a) ty rgt owner (generation o)
               (cgeneration (slot_at (cap_slots cs) i)) true in
    tok = token_of s i /\ slot_at (cap_slots cs') i = s /\
    (forall j, 0 <= j -> j <> i -> slot_at (cap_slots cs') j = slot_at (cap_slots cs) j) /\
    (forall b, header <$> os_get w' b = header <$> os_get w b).

Lemma issue_spec mem cs w ty obj_id rgt owner :
  cap_inv cs w -> unsaturated w -> lookup_sound -> fits 16 ty -> fits 16 rgt ->
  exists r cs' w', issue_locked run_lookup mem cs w ty obj_id rgt owner = Some (r, cs', w') /\
    cap_inv cs' w' /\
    match r with
    | Unexpected _ => slots_agree cs cs' /\ w' = w
    | Expected tok => issued cs cs' w w' ty obj_id rgt owner tok
    end.
Proof.
  intros Hi Hsat Hlk Hty Hrg. unfold issue_locked.
  destruct (ensure_capabilities_locked mem cs) as [ok cs1] eqn:He.
  destruct (ensure_spec mem cs w ok cs1 He Hi) as (Hi1 & Hag & Htab & Hlen).
  destruct ok; cbn [negb]; [|by eexists _, _, _]. specialize (Hlen eq_refl).
  unfold lookup_kobject. rewrite Htab.
  destruct (if LOOKUP_TABLE_SIZE <=? ty then None else lookup_table cs !! ty) as [f|] eqn:Hf;
    [|by eexists _, _, _].
  assert (Hf' : lookup_table cs !! ty = Some f) by (by destruct (LOOKUP_TABLE_SIZE <=? ty)).
  destruct (run_lookup f w obj_id) as [a|] eqn:Hr; [|by eexists _, _, _].
  destruct (Hlk f w obj_id a Hr) as [o Ho]. rewrite Ho. cbn [mbind option_bind].
  destruct (free_slot (cap_slots cs1)) as [i|] eqn:Hfs; [|by eexists _, _, _].
  unfold free_slot in Hfs. apply find_up_Some in Hfs as (Hir & Hfree & _).
  apply negb_true_iff in Hfree.
  assert (Hx : cap_index i) by (unfold cap_index, MAX_CAPABILITIES in *; lia).
  rewrite Ho. cbn [mbind option_bind].
  destruct (bool_decide_reflect (state o = active)) as [Hst|Hst]; cbn [negb];
    [|by eexists _, _, _].
  destruct (os_try_get_ok w _ a o (ci_refs _ _ Hi1) Ho Hst (Hsat a o Ho))
    as (w1 & -> & Hinv & Hhd).
  cbn [mbind option_bind negb]. set (s := CapSlot _ _ _ _ _ _ _).
  eexists _, _, w1. split; [done|].
  assert (Hso : slot_ok s).
  { split_and!; [done|done|apply (ci_slot _ _ Hi1)|]. intros _. eauto. }
  split.
  - eapply occupy_inv; try done.
  - exists i, f, a, o. cbn zeta. rewrite <- Hag. fold s.
    assert (Hslot : forall j, 0 <= j ->
      slot_at (cap_slots (set_slot cs1 i s)) j = if decide (j = i) then s else slot_at (cap_slots cs1) j).
    { intros j Hj. apply slot_at_set; [done|unfold cap_index in Hx; lia|done]. }
    split_and!; try done.
    + unfold token_of, s. cbn [ctype cgeneration rights]. f_equal. apply (wrap_small 16).
      unfold fits, cap_index, MAX_CAPABILITIES in *. lia.
    + rewrite Hslot, decide_True by (done || unfold cap_index in Hx; lia). done.
    + intros j Hj Hne. rewrite Hslot, decide_False by done. apply Hag.
Qed.

End issue.

(** ** Revocation *)

Lemma slot_for_index (cs : cap_state fn) tok i :
  slot_for cs tok = Some i ->
  i = token_object_id tok /\ cactive (slot_at (cap_slots cs) i) = true.
Proof.
  unfold slot_for, cap_slots. destruct (capabilities cs) as [l|]; [|done].
  case_match; [done|]. case_match eqn:E; [done|]. intros [= <-]. split; [done|].
  rewrite !orb_false_iff, !negb_false_iff in E. simpl. tauto.
Qed.

Lemma slot_for_type (cs : cap_state fn) tok i :
  slot_for cs tok = Some i -> ctype (slot_at (cap_slots cs) i) <> ct_none.
Proof.
  unfold slot_for, cap_slots. destruct (capabilities cs) as [l|]; [|done].
  case_match eqn:E1; [done|]. case_match eqn:E2; [done|]. intros [= <-]. simpl.
  rewrite !orb_false_iff, !negb_false_iff in E1, E2. destruct E1 as [[Ev _] _], E2 as [[_ Et] _].
  apply andb_true_iff in Ev as [_ Ev%negb_true_iff%Z.eqb_neq]. apply Z.eqb_eq in Et. congruence.
Qed.

Lemma slot_for_retired (cs cs' : cap_state fn) tok i :
  slot_for cs tok = Some i -> cactive (slot_at (cap_slots cs') i) = false ->
  slot_for cs' tok = None.
Proof.
  intros [-> _]%slot_for_index Hn. destruct (slot_for cs' tok) as [j|] eqn:Hj; [|done].
  apply slot_for_index in Hj as [-> Ha]. congruence.
Qed.

Lemma revoke_spec cs w tok :
  cap_inv cs w ->
  exists r cs' w', cap_revoke cs w tok = Some (r, cs', w') /\ cap_inv cs' w' /\
    slot_for cs' tok = None /\
    match r with
    | Unexpected _ => cs' = cs /\ w' = w
    | Expected _ => exists i, slot_for cs tok = Some i /\
        cs' = set_slot cs i (slot_retire (slot_at (cap_slots cs) i)) /\
        forall b, 0 < ext b + cap_refs (cap_slots cs') b ->
          header <$> os_get w' b = header <$> os_get w b
    end.
Proof.
  intros Hi. unfold cap_revoke. destruct (token_valid tok) eqn:Hv; cbn [negb].
  2:{ eexists _, cs, w. split_and!; try done. unfold slot_for.
      destruct (capabilities cs); [|done]. by rewrite Hv. }
  destruct (slot_for cs tok) as [i|] eqn:Hs; [|by eexists _, cs, w].
  destruct (slot_for_inv cs w tok i Hi Hs) as (Hx & Ha & _ & Hl & a & Ht & _).
  destruct (cap_retire_inv cs w i a Hi Hx Ha Ht) as (w' & Hp & Hi' & Hh).
  rewrite Ht. cbn [mbind option_bind]. rewrite Hp. cbn [mbind option_bind].
  eexists _, _, w'. split_and!; [done|done| |exists i; done].
  eapply slot_for_retired; [exact Hs|]. rewrite cap_slots_set.
  rewrite slot_at_set, decide_True by (done || unfold cap_index in Hx; lia). done.
Qed.

Lemma cap_refs_mono l l' a :
  (forall j, 0 <= j -> slot_at l' j = slot_at l j \/ cactive (slot_at l' j) = false) ->
  cap_refs l' a <= cap_refs l a.
Proof.
  intros Hs. apply count_below_mono. intros j Hj. unfold refers.
  destruct (Hs j) as [-> | ->]; [lia|done|done].
Qed.

(** Both mass revocations sweep the table for slots to take away. *)
Fixpoint sweep (hitf : W -> capability_slot -> option bool) (cs : cap_state fn) (w : W)
    (i : Z) (n : nat) (revoked : Z) : option (Z * cap_state fn * W) :=
  match n with
  | O => Some (revoked, cs, w)
  | S n' =>
      let s := slot_at (cap_slots cs) i in
      hit ← hitf w s;
      if negb (hit : bool) then sweep hitf cs w (i + 1) n' revoked
      else
        w' ← (match target s with Some a => os_put w a | None => Some w end);
        sweep hitf (set_slot cs i (slot_retire s)) w' (i + 1) n' (u32 (revoked + 1))
  end.

Lemma revoke_domain_sweep cs w d i n k :
  revoke_domain_loop cs w d i n k = sweep (fun w s => domain_slot w d s) cs w i n k.
Proof.
  revert cs w i k. induction n as [|n IH]; intros cs w i k; [done|].
  cbn [revoke_domain_loop sweep].
  destruct (domain_slot _ _ _) as [[]|]; cbn [mbind option_bind negb]; [|by rewrite IH|done].
  destruct (target _) as [a|]; [destruct (os_put w a); [|done]|]; cbn [mbind option_bind];
    by rewrite IH.
Qed.

Lemma revoke_target_sweep cs w a i n k :
  revoke_target_loop cs w a i n k = sweep (fun _ s => Some (refers a s)) cs w i n k.
Proof.
  revert cs w i k. induction n as [|n IH]; intros cs w i k; [done|].
  cbn [revoke_target_loop sweep mbind option_bind]. unfold refers at 1.
  rewrite <- negb_andb.
  destruct (cactive _ && _) eqn:Hr; cbn [negb]; [|by rewrite IH].
  apply andb_true_iff in Hr as [_ Ht%bool_decide_eq_true]. rewrite Ht.
  destruct (os_put w a); cbn [mbind option_bind]; [by rewrite IH|done].
Qed.

Section sweep_spec.
Context (hitf : W -> capability_slot -> option bool) (hit : W -> capability_slot -> bool).
Context (Hhit : forall cs w j, cap_inv cs w -> 0 <= j < MAX_CAPABILITIES ->
  hitf w (slot_at (cap_slots cs) j) = Some (hit w (slot_at (cap_slots cs) j))).
Context (Hact : forall w s, hit w s = true -> cactive s = true).
Context (Hframe : forall w w' s,
  (forall a, cactive s = true -> target s = Some a ->
     header <$> os_get w' a = header <$> os_get w a) -> hit w' s = hit w s).

(** A sweep over [[i, i + n)] retires the slots that [hit] selects, in the state
    it starts from, and no others; it never traps. *)
Lemma sweep_spec cs w i n k :
  cap_inv cs w -> 0 < i -> i + Z.of_nat n <= MAX_CAPABILITIES -> 0 <= k <= i ->
  let hits j := hit w (slot_at (cap_slots cs) j) in
  exists cs' w', sweep hitf cs w i n k =
      Some (k + count_below hits (Z.to_nat i + n) - count_below hits (Z.to_nat i), cs', w') /\
    cap_inv cs' w' /\
    (forall j, 0 <= j -> slot_at (cap_slots cs') j =
       if decide (i <= j < i + Z.of_nat n /\ hits j = true)
       then slot_retire (slot_at (cap_slots cs) j) else slot_at (cap_slots cs) j) /\
    (forall b, 0 < ext b + cap_refs (cap_slots cs') b ->
       header <$> os_get w' b = header <$> os_get w b).
Proof.
  revert cs w i k. induction n as [|n IH]; intros cs w i k Hi Hpos Hn Hk; cbn zeta.
  { exists cs, w. cbn [sweep]. rewrite Nat.add_0_r. split_and!; [f_equal; f_equal; f_equal; lia|done| |done].
    intros j Hj. rewrite decide_False; [done|]. lia. }
  cbn [sweep]. rewrite (Hhit cs w i Hi) by lia. cbn [mbind option_bind].
  set (hits := fun j => hit w (slot_at (cap_slots cs) j)). fold (hits i).
  assert (Hcnt : count_below hits (Z.to_nat (i + 1)) =
    count_below hits (Z.to_nat i) + Z.b2z (hits i)).
  { replace (Z.to_nat (i + 1)) with (S (Z.to_nat i)) by lia. cbn [count_below].
    by rewrite Z2Nat.id by lia. }
  replace (Z.to_nat i + S n)%nat with (Z.to_nat (i + 1) + n)%nat by lia.
  destruct (hits i) eqn:Hhi; cbn [negb].
  - pose proof (Hact _ _ Hhi) as Ha.
    destruct (proj2 (proj2 (proj2 (ci_slot _ _ Hi i))) Ha) as [a Ht]. rewrite Ht.
    assert (Hx : cap_index i) by (unfold cap_index; lia).
    destruct (cap_retire_inv cs w i a Hi Hx Ha Ht) as (w1 & Hp & Hi1 & Hh1).
    rewrite Hp. cbn [mbind option_bind].
    assert (Hl : length (cap_slots cs) = Z.to_nat MAX_CAPABILITIES) by (by eapply active_len).
    set (cs1 := set_slot cs i _) in *.
    assert (Hs1 : forall j, 0 <= j -> slot_at (cap_slots cs1) j =
      if decide (j = i) then slot_retire (slot_at (cap_slots cs) i)
      else slot_at (cap_slots cs) j).
    { intros j Hj. unfold cs1. rewrite cap_slots_set. apply slot_at_set; (done || lia). }
    rewrite (u32_small (k + 1))
      by (unfold fits, MAX_CAPABILITIES in *; lia).
    destruct (IH cs1 w1 (i + 1) (k + 1) Hi1) as (cs' & w' & Hsw & Hi' & Hs' & Hh');
      [lia|lia|lia|]. cbn zeta in Hsw.
    assert (Hhits : forall j, 0 <= j < MAX_CAPABILITIES -> j <> i ->
      hit w1 (slot_at (cap_slots cs1) j) = hits j).
    { intros j Hj Hne. rewrite Hs1, decide_False by (done || lia). apply Hframe.
      intros b Hb1 Hb2. apply Hh1. apply (active_held cs1 w1 j b Hi1 Hj);
        rewrite Hs1, decide_False by (done || lia); done. }
    assert (Hoff : hit w1 (slot_at (cap_slots cs1) i) = false).
    { destruct (hit w1 (slot_at (cap_slots cs1) i)) eqn:E; [|done].
      apply Hact in E. rewrite Hs1, decide_True in E by (done || lia). done. }
    exists cs', w'. split_and!; [|done| |].
    + rewrite Hsw. f_equal. f_equal. f_equal.
      rewrite (count_below_upd hits (fun j => hit w1 (slot_at (cap_slots cs1) j))
        (Z.to_nat (i + 1) + n) i) by (try lia; intros; symmetry; apply Hhits; lia).
      rewrite (count_below_upd hits (fun j => hit w1 (slot_at (cap_slots cs1) j))
        (Z.to_nat (i + 1)) i) by (try lia; intros; symmetry; apply Hhits; lia).
      rewrite Hoff, Hhi, Hcnt. simpl. lia.
    + intros j Hj. rewrite Hs' by done. rewrite Hs1 by done.
      destruct (decide (j = i)) as [->|Hne].
      * rewrite decide_False by lia. rewrite decide_True by (split; [lia|done]). done.
      * destruct (decide (i + 1 <= j < i + 1 + Z.of_nat n)) as [Hr|Hr].
        -- pose proof (Hhits j ltac:(lia) Hne) as Hj'.
           rewrite Hs1, decide_False in Hj' by done. rewrite Hj'.
           fold (hits j).
           destruct (hits j); [|rewrite !decide_False by (intros [_ ?]; done); done].
           rewrite !decide_True; [done|split; [lia|done]|split; [lia|done]].
        -- rewrite !decide_False; [done|lia|lia].
    + intros b Hb. rewrite Hh' by done. apply Hh1.
      pose proof (cap_refs_mono (cap_slots cs1) (cap_slots cs') b) as Hm.
      assert (cap_refs (cap_slots cs') b <= cap_refs (cap_slots cs1) b); [|lia].
      apply Hm. intros j Hj. rewrite Hs' by done. case_decide; [by right|by left].
  - destruct (IH cs w (i + 1) k Hi) as (cs' & w' & Hsw & Hi' & Hs' & Hh'); [lia|lia|lia|].
    cbn zeta in Hsw. fold hits in Hsw.
    exists cs', w'. split_and!; [|done| |done].
    + rewrite Hsw. f_equal. f_equal. f_equal. rewrite Hcnt. simpl. lia.
    + intros j Hj. rewrite Hs' by done. fold (hits j).
      destruct (decide (j = i)) as [->|Hne].
      * rewrite Hhi. rewrite !decide_False; [done|naive_solver|lia].
      * destruct (hits j); [|rewrite !decide_False by (intros [_ ?]; done); done].
        destruct (decide (i + 1 <= j < i + 1 + Z.of_nat n)) as [Hr|Hr].
        -- rewrite !decide_True; [done|split; [lia|done]|split; [lia|done]].
        -- rewrite !decide_False; [done|lia|lia].
Qed.

(** The sweep of the whole table. *)
Lemma sweep_all cs w :
  cap_inv cs w ->
  let hits j := hit w (slot_at (cap_slots cs) j) in
  exists cs' w', sweep hitf cs w 1 (Z.to_nat (MAX_CAPABILITIES - 1)) 0 =
      Some (count_below hits (Z.to_nat MAX_CAPABILITIES), cs', w') /\
    cap_inv cs' w' /\
    (forall j, 0 <= j < MAX_CAPABILITIES -> slot_at (cap_slots cs') j =
       if hits j then slot_retire (slot_at (cap_slots cs) j) else slot_at (cap_slots cs) j) /\
    (forall b, 0 < ext b + cap_refs (cap_slots cs') b ->
       header <$> os_get w' b = header <$> os_get w b).
Proof.
  intros Hi hits.
  destruct (sweep_spec cs w 1 (Z.to_nat (MAX_CAPABILITIES - 1)) 0 Hi)
    as (cs' & w' & Hsw & Hi' & Hs & Hh); [lia|unfold MAX_CAPABILITIES; lia|lia|].
  cbn zeta in Hsw, Hs. fold hits in Hsw.
  assert (Hz : hits 0 = false).
  { destruct (hits 0) eqn:E; [|done]. apply Hact in E. by rewrite (ci_zero _ _ Hi) in E. }
  exists cs', w'. split_and!; [|done| |done].
  - rewrite Hsw. f_equal. f_equal. f_equal.
    replace (Z.to_nat 1 + Z.to_nat (MAX_CAPABILITIES - 1))%nat
      with (Z.to_nat MAX_CAPABILITIES) by (unfold MAX_CAPABILITIES; lia).
    assert (count_below hits (Z.to_nat 1) = 0) as ->; [|lia].
    apply count_below_zero. intros j Hj. by replace j with 0 by lia.
  - intros j Hj. rewrite Hs by lia. fold (hits j). destruct (hits j) eqn:Ej.
    + assert (j <> 0) by congruence.
      rewrite decide_True; [done|]. split; [unfold MAX_CAPABILITIES in *; lia|done].
    + rewrite decide_False; [done|]. intros [_ ?]. done.
Qed.

End sweep_spec.

(** The slots owned by a domain or naming it as their target. *)
Definition concerns (w : W) (d : Z) (s : capability_slot) : bool :=
  cactive s && ((owner_domain s =? d) ||
    ((ctype s =? ct_domain) &&
     match target s with
     | Some a => match os_get w a with Some o => id o =? d | None => false end
     | None => false
     end)).

Lemma domain_slot_concerns cs w d j :
  cap_inv cs w -> 0 <= j < MAX_CAPABILITIES ->
  domain_slot w d (slot_at (cap_slots cs) j) = Some (concerns w d (slot_at (cap_slots cs) j)).
Proof.
  intros Hi Hj. set (s := slot_at (cap_slots cs) j). unfold domain_slot, concerns.
  destruct (cactive s) eqn:Ha; cbn [andb]; [|done].
  destruct (ctype s =? ct_domain); cbn [andb]; [|done].
  destruct (target s) as [a|] eqn:Ht; [|done].
  destruct (os_held w _ a (ci_refs _ _ Hi) (active_held cs w j a Hi Hj Ha Ht)) as [o Ho].
  by rewrite Ho.
Qed.

Lemma concerns_frame w w' d s :
  (forall a, cactive s = true -> target s = Some a ->
     header <$> os_get w' a = header <$> os_get w a) ->
  concerns w' d s = concerns w d s.
Proof.
  intros Hh. unfold concerns. destruct (cactive s) eqn:Ha; [|done].
  destruct (target s) as [a|]; [|done]. specialize (Hh a eq_refl eq_refl).
  destruct (os_get w' a) as [o'|], (os_get w a) as [o|]; try done.
  injection Hh as -> _ _ _ _. done.
Qed.

(** ** The properties *)

(** C3: Validity is exact: a 64-bit value designates a capability slot if and only
    if it is the token of that slot, with the slot active and its type, slot
    generation and full rights mask all matching.  There is one such value per
    active slot, so no other bit pattern can be used as a capability. *)
Theorem valid_tokens_exact cs w tok i :
  cap_inv cs w -> fits 64 tok ->
  slot_for cs tok = Some i <->
  cap_index i /\ cactive (slot_at (cap_slots cs) i) = true /\
  ctype (slot_at (cap_slots cs) i) <> ct_none /\
  tok = token_of (slot_at (cap_slots cs) i) i.
Proof. apply slot_for_spec. Qed.

Section issue_properties.
Context (run_lookup : fn -> W -> Z -> option addr).

(** The token of a slot just issued designates it and authorises its owner. *)
Lemma issued_authorises cs cs' w w' ty obj_id rgt owner tok :
  cap_inv cs' w' -> ty <> ct_none -> issued run_lookup cs cs' w w' ty obj_id rgt owner tok ->
  exists i f a o, cactive (slot_at (cap_slots cs) i) = false /\ lookup_table cs !! ty = Some f /\
    run_lookup f w obj_id = Some a /\ os_get w a = Some o /\
    tok = token_of (slot_at (cap_slots cs') i) i /\
    slot_at (cap_slots cs') i = CapSlot (Some a) ty rgt owner (generation o)
      (cgeneration (slot_at (cap_slots cs) i)) true /\
    slot_for cs' tok = Some i /\ authorises cs' w' tok rgt owner true a /\
    (forall j, 0 <= j -> j <> i -> slot_at (cap_slots cs') j = slot_at (cap_slots cs) j) /\
    (forall b, header <$> os_get w' b = header <$> os_get w b).
Proof.
  intros Hi' Hnz (i & f & a & o & Hx & Hfree & Hf & Hl & Ho & Hst & -> & Hs & Hrest & Hh).
  exists i, f, a, o. rewrite <- Hs.
  assert (Hfit : fits 64 (token_of (slot_at (cap_slots cs') i) i)).
  { destruct (ci_slot _ _ Hi' i) as (S1 & S2 & S3 & _).
    apply token_unpack; try done. unfold fits, cap_index, MAX_CAPABILITIES in *. lia. }
  assert (Hsf : slot_for cs' (token_of (slot_at (cap_slots cs') i) i) = Some i).
  { apply (slot_for_spec cs' w'); [done|done|]. rewrite Hs.
    cbn [cactive ctype]. by split_and!. }
  split_and!; try done.
  pose proof (Hh a) as Ha. rewrite Ho in Ha. apply fmap_Some in Ha as (o' & Ho' & Hd).
  injection Hd as _ _ Hst' Hg _. exists i, o'. cbn zeta. split; [done|]. rewrite Hs.
  cbn [target target_generation owner_domain rights].
  split_and!; try done; try congruence. apply Z.land_diag.
Qed.

(** Issuing never traps (unless a reference count is saturated).  On success the
    new token authorises its owner, for the rights it carries, on the object
    the lookup callback named; on failure no slot and no object changes.  The
    table invariant is kept on every path. *)
Theorem issue_sound mem cs w ty obj_id rgt owner :
  cap_inv cs w -> unsaturated w -> lookup_sound run_lookup ->
  fits 16 ty -> fits 16 rgt -> ty <> ct_none ->
  exists r cs' w', cap_issue run_lookup mem cs w ty obj_id rgt owner = Some (r, cs', w') /\
    cap_inv cs' w' /\
    match r with
    | Unexpected _ => slots_agree cs cs' /\ w' = w
    | Expected tok => exists f a, lookup_table cs !! ty = Some f /\
        run_lookup f w obj_id = Some a /\ slot_for cs tok = None /\
        authorises cs' w' tok rgt owner true a
    end.
Proof.
  intros Hi Hsat Hlk Hty Hrg Hnz.
  destruct (issue_spec run_lookup mem cs w ty obj_id rgt owner Hi Hsat Hlk Hty Hrg)
    as (r & cs' & w' & He & Hi' & Hr).
  exists r, cs', w'. split; [done|]. split; [done|]. destruct r as [tok|e]; [|done].
  destruct (issued_authorises _ _ _ _ _ _ _ _ _ Hi' Hnz Hr)
    as (i & f & a & o & Hfree & Hf & Hl & _ & _ & _ & Hsf & Hau & _).
  exists f, a. split_and!; try done.
  destruct (slot_for cs tok) as [j|] eqn:Hj; [|done].
  apply slot_for_index in Hj as [-> Ha]. apply slot_for_index in Hsf as [Hi_eq _].
  rewrite <- Hi_eq in Ha. congruence.
Qed.

(** C34: Duplicating towards another domain never amplifies authority: it succeeds
    only when the source token authorises the source domain with at least the
    requested rights and, when the new owner is another domain, carries the
    delegate right.  The token it returns is then the token of a slot that was
    free, it designates that slot, and authorises exactly its owner, with the
    requested rights, on the object the source names (provided the
    lookup callback maps that object's id back to it); every other slot is
    unchanged, and so is every object but for the count of its references. *)
Theorem duplicate_no_amplification mem cs w source rgt source_domain owner tok cs' w' :
  cap_inv cs w -> unsaturated w -> lookup_sound run_lookup -> fits 16 rgt ->
  (forall i a o f, slot_for cs source = Some i ->
     target (slot_at (cap_slots cs) i) = Some a -> os_get w a = Some o ->
     lookup_table cs !! ctype (slot_at (cap_slots cs) i) = Some f ->
     run_lookup f w (u16 (id o)) = Some a) ->
  cap_duplicate_for run_lookup mem cs w source rgt source_domain owner
    = Some (Expected tok, cs', w') ->
  cap_inv cs' w' /\
  exists a i j, authorises cs w source rgt source_domain true a /\
    slot_for cs source = Some i /\
    (owner <> source_domain -> Z.land (rights (slot_at (cap_slots cs) i)) cr_delegate = cr_delegate) /\
    Z.land (rights (slot_at (cap_slots cs) i)) rgt = rgt /\
    cactive (slot_at (cap_slots cs) j) = false /\
    slot_at (cap_slots cs') j =
      CapSlot (Some a) (ctype (slot_at (cap_slots cs) i)) rgt owner
        (target_generation (slot_at (cap_slots cs) i))
        (cgeneration (slot_at (cap_slots cs) j)) true /\
    tok = token_of (slot_at (cap_slots cs') j) j /\ slot_for cs' tok = Some j /\
    authorises cs' w' tok rgt owner true a /\
    (forall n, 0 <= n -> n <> j -> slot_at (cap_slots cs') n = slot_at (cap_slots cs) n) /\
    (forall b, header <$> os_get w' b = header <$> os_get w b).
Proof.
  intros Hi Hsat Hlk Hrg Hback. unfold cap_duplicate_for.
  destruct (validate_slot cs w source rgt source_domain true) as [[a|e]|] eqn:Hv;
    cbn [mbind option_bind]; [|done|done].
  apply validate_iff in Hv as Hau; [|done].
  pose proof Hau as (i & o & Hs & Ht & Ho & Hg & _ & _ & _ & Hland). rewrite Hs, Ho.
  cbn [mbind option_bind].
  destruct (negb (owner =? source_domain) && _) eqn:Hdel; [done|]. intros He.
  destruct (issue_spec run_lookup mem cs w (ctype (slot_at (cap_slots cs) i)) (u16 (id o)) rgt owner
    Hi Hsat Hlk) as (r & cs1 & w1 & He1 & Hi1 & Hr); [apply (ci_slot _ _ Hi)|done|].
  rewrite He in He1. injection He1 as <- <- <-. split; [done|].
  assert (Hnz : ctype (slot_at (cap_slots cs) i) <> ct_none).
  { by apply slot_for_type with source. }
  destruct (issued_authorises _ _ _ _ _ _ _ _ _ Hi1 Hnz Hr)
    as (j & f & b & p & Hfree & Hf & Hl & Hb & Htok & Hsj & Hfor & Hau' & Hrest & Hh).
  rewrite (Hback i a o f Hs Ht Ho Hf) in Hl. injection Hl as <-.
  rewrite Ho in Hb. injection Hb as <-.
  exists a, i, j. split_and!; try done; [|by rewrite Hsj, Hg].
  intros Hne. apply andb_false_iff in Hdel as [Hd|Hd].
  - apply negb_false_iff, Z.eqb_eq in Hd. congruence.
  - by apply negb_false_iff, Z.eqb_eq in Hd.
Qed.

End issue_properties.

Lemma slot_for_retire (cs : cap_state fn) w tok i tok' j :
  cap_inv cs w -> slot_for cs tok = Some i -> j <> i ->
  slot_for (set_slot cs i (slot_retire (slot_at (cap_slots cs) i))) tok' = Some j <->
  slot_for cs tok' = Some j.
Proof.
  intros Hi Hs Hne. destruct (slot_for_inv cs w tok i Hi Hs) as (Hx & _ & _ & Hl & _).
  assert (Hc : exists l, capabilities cs = Some l).
  { destruct (capabilities cs) as [l|] eqn:E; [eauto|]. unfold slot_for in Hs.
    by rewrite E in Hs. }
  destruct Hc as [l Hc]. unfold slot_for. cbn [set_slot capabilities].
  assert (Hcs : cap_slots cs = l) by (unfold cap_slots; by rewrite Hc).
  rewrite Hc, Hcs in *.
  destruct (decide (token_object_id tok' = i)) as [Heq|Hne'].
  - rewrite Heq, slot_at_set, decide_True by (done || unfold cap_index in Hx; lia).
    cbn [cactive slot_retire negb orb].
    split; (case_match; [done|]); [done|]. case_match; [done|]. intros [= <-]. congruence.
  - destruct (token_fields_fit tok') as (_ & F2 & _). unfold fits in F2.
    rewrite slot_at_set, decide_False by (done || unfold cap_index in Hx; lia). done.
Qed.

(** C25: Revoking (or releasing) a token never traps.  A token that designates no slot
    is refused, with [invalid_arg] when it is malformed and with [not_found]
    otherwise, and nothing changes.  A token that designates a slot is revoked
    with success: exactly that slot is retired, with its generation advanced,
    every other slot is unchanged, the token designates nothing any more, every
    other token designates what it did before, the objects that are still
    referenced keep their headers, and the invariant is kept, so the
    reference the slot held is accounted for. *)
Theorem revoke_precise cs w tok :
  cap_inv cs w ->
  exists r cs' w', cap_revoke cs w tok = Some (r, cs', w') /\ cap_inv cs' w' /\
    match slot_for cs tok with
    | None => cs' = cs /\ w' = w /\
        r = Unexpected (from_generic (if token_valid tok then not_found else invalid_arg))
    | Some i => r = Expected tt /\
        slot_at (cap_slots cs') i = slot_retire (slot_at (cap_slots cs) i) /\
        (forall j, 0 <= j -> j <> i -> slot_at (cap_slots cs') j = slot_at (cap_slots cs) j) /\
        slot_for cs' tok = None /\
        (forall tok' j, j <> i -> slot_for cs' tok' = Some j <-> slot_for cs tok' = Some j) /\
        forall b, 0 < ext b + cap_refs (cap_slots cs') b ->
          header <$> os_get w' b = header <$> os_get w b
    end.
Proof.
  intros Hi. destruct (revoke_spec cs w tok Hi) as (r & cs' & w' & He & Hi' & Hn & Hr).
  exists r, cs', w'. split; [done|]. split; [done|]. unfold cap_revoke in He.
  destruct (slot_for cs tok) as [i|] eqn:Hs.
  - destruct r as [[]|e]; [|destruct Hr as [-> _]; congruence].
    destruct Hr as (i' & [= <-] & -> & Hh).
    destruct (slot_for_inv cs w tok i Hi Hs) as (Hx & _ & _ & Hl & _).
    assert (Hat : forall j, 0 <= j ->
      slot_at (cap_slots (set_slot cs i (slot_retire (slot_at (cap_slots cs) i)))) j =
      if decide (j = i) then slot_retire (slot_at (cap_slots cs) i) else slot_at (cap_slots cs) j).
    { intros j Hj. rewrite cap_slots_set. apply slot_at_set; [done|unfold cap_index in Hx; lia|done]. }
    split_and!; [done|by rewrite Hat, decide_True by (done || unfold cap_index in Hx; lia)| |done| |done].
    + intros j Hj Hne. by rewrite Hat, decide_False.
    + intros tok' j. by eapply slot_for_retire.
  - destruct (token_valid tok); cbn [negb] in He; by injection He as <- <- <-.
Qed.

(** [cap_revoke_for_domain] never traps and is complete and precise: exactly the
    active slots owned by the domain, or whose target is the domain itself, are
    retired, their number is returned, and afterwards no slot concerns the
    domain. *)
Theorem revoke_for_domain_complete cs w d :
  cap_inv cs w ->
  exists cs' w', cap_revoke_for_domain cs w d =
      Some (count_below (fun j => concerns w d (slot_at (cap_slots cs) j))
              (Z.to_nat MAX_CAPABILITIES), cs', w') /\
    cap_inv cs' w' /\
    (forall j, 0 <= j < MAX_CAPABILITIES -> slot_at (cap_slots cs') j =
       if concerns w d (slot_at (cap_slots cs) j)
       then slot_retire (slot_at (cap_slots cs) j) else slot_at (cap_slots cs) j) /\
    (forall j, 0 <= j < MAX_CAPABILITIES ->
       concerns w' d (slot_at (cap_slots cs') j) = false).
Proof.
  intros Hi. unfold cap_revoke_for_domain. destruct (capabilities cs) as [l|] eqn:Hc.
  - rewrite revoke_domain_sweep.
    destruct (sweep_all (fun w s => domain_slot w d s) (fun w s => concerns w d s)
      (fun cs w j => domain_slot_concerns cs w d j)
      ltac:(intros w0 s Hs; by apply andb_true_iff in Hs as [? _])
      (fun w w' s => concerns_frame w w' d s) cs w Hi)
      as (cs' & w' & Hsw & Hi' & Hsl & Hh). cbn zeta in Hsl.
    exists cs', w'. split_and!; [exact Hsw|done|done|].
    intros j Hj. rewrite Hsl by done.
    destruct (concerns w d (slot_at (cap_slots cs) j)) eqn:Ej; [done|].
    rewrite <- Ej. apply concerns_frame. intros a Ha Ht. apply Hh.
    apply (active_held cs' w' j a Hi' Hj); rewrite Hsl, Ej by done; done.
  - assert (Hoff : forall w j, concerns w d (slot_at (cap_slots cs) j) = false).
    { intros w0 j. unfold cap_slots. rewrite Hc. simpl. by rewrite slot_at_nil. }
    exists cs, w. split_and!; [|done| |].
    + f_equal. f_equal. f_equal. symmetry. apply count_below_zero. intros j _. apply Hoff.
    + intros j Hj. by rewrite Hoff.
    + intros j Hj. apply Hoff.
Qed.

(** [cap_revoke_target] retires exactly the slots that refer to the object, once
    the table exists; called before any capability was issued it dereferences
    the null table pointer. *)
Theorem revoke_target_complete cs w a :
  cap_inv cs w ->
  if decide (capabilities cs = None) then cap_revoke_target cs w a = None
  else exists n cs' w', cap_revoke_target cs w a = Some (n, cs', w') /\ cap_inv cs' w' /\
    n = cap_refs (cap_slots cs) a /\ cap_refs (cap_slots cs') a = 0 /\
    forall j, 0 <= j < MAX_CAPABILITIES -> slot_at (cap_slots cs') j =
       if refers a (slot_at (cap_slots cs) j)
       then slot_retire (slot_at (cap_slots cs) j) else slot_at (cap_slots cs) j.
Proof.
  intros Hi. unfold cap_revoke_target. case_decide as Hc; [by rewrite Hc|].
  destruct (capabilities cs) as [l|] eqn:Hl; [|done]. cbn [mbind option_bind].
  rewrite revoke_target_sweep.
  destruct (sweep_all (fun _ s => Some (refers a s)) (fun _ s => refers a s)
    ltac:(done) ltac:(intros w0 s Hs; by apply andb_true_iff in Hs as [? _]) ltac:(done)
    cs w Hi) as (cs' & w' & Hsw & Hi' & Hsl & _). cbn zeta in Hsl.
  exists (cap_refs (cap_slots cs) a), cs', w'.
  split; [exact Hsw|]. split; [exact Hi'|]. split; [reflexivity|]. split; [|exact Hsl].
  - apply count_below_zero. intros j Hj. rewrite Hsl by (unfold MAX_CAPABILITIES in *; lia).
    destruct (refers a (slot_at (cap_slots cs) j)) eqn:Ej; [done|exact Ej].
Qed.

(** A token derived with fewer rights designates nothing: [slot_for] compares
    the token's rights with the slot's for equality, and the derived token
    keeps the slot index of the original. *)
Theorem derived_token_unusable cs w tok subset i :
  cap_inv cs w -> fits 64 tok -> slot_for cs tok = Some i ->
  Z.land (token_rights tok) subset <> token_rights tok -> 0 <= subset ->
  slot_for cs (token_derive tok subset) = None.
Proof.
  intros Hi Hf Hs Hne Hsub.
  destruct (slot_for_inv cs w tok i Hi Hs) as (Hx & _ & Hr & _).
  pose proof (slot_for_index _ _ _ Hs) as [Hidx _].
  destruct (token_fields_fit tok) as (F1 & F2 & F3 & F4).
  destruct (token_unpack (token_type tok) (token_object_id tok) (token_generation tok)
    (Z.land (token_rights tok) subset)) as (_ & U2 & _ & U4 & _); try done.
  { by apply land_fits. }
  destruct (slot_for cs (token_derive tok subset)) as [j|] eqn:Hj; [|done].
  pose proof (slot_for_index _ _ _ Hj) as [Hjdx _]. unfold token_derive in *.
  destruct (slot_for_inv cs w _ j Hi Hj) as (_ & _ & Hr' & _).
  rewrite U2 in Hjdx. rewrite U4 in Hr'. congruence.
Qed.

End cap_spec.

(** The token encoding is lossless both ways: unpacking the fields of a packed
    token gives them back, and repacking the fields of any 64-bit value gives
    that value back. *)
Theorem token_roundtrip ty oid gen rgt raw :
  fits 16 ty -> fits 16 oid -> fits 16 gen -> fits 16 rgt -> fits 64 raw ->
  (token_type (token_make ty oid gen rgt) = ty /\
   token_object_id (token_make ty oid gen rgt) = oid /\
   token_generation (token_make ty oid gen rgt) = gen /\
   token_rights (token_make ty oid gen rgt) = rgt /\
   fits 64 (token_make ty oid gen rgt)) /\
  token_make (token_type raw) (token_object_id raw) (token_generation raw)
    (token_rights raw) = raw.
Proof. intros. split; [by apply token_unpack|by apply token_repack]. Qed.

Lemma token_roundtrip_witness :
  (token_type (token_make 6 1023 65535 17) = 6 /\
   token_object_id (token_make 6 1023 65535 17) = 1023 /\
   token_generation (token_make 6 1023 65535 17) = 65535 /\
   token_rights (token_make 6 1023 65535 17) = 17 /\
   fits 64 (token_make 6 1023 65535 17)) /\
  token_make (token_type 4503604756348934) (token_object_id 4503604756348934)
    (token_generation 4503604756348934) (token_rights 4503604756348934) = 4503604756348934.
Proof.
  apply (token_roundtrip 6 1023 65535 17 4503604756348934); unfold fits;
    change (2 ^ 16) with 65536; change (2 ^ 64) with 18446744073709551616; lia.
Defined.

(** ** A concrete capability system over the SCOMS table *)

#[local] Instance demo_laws : ObjStoreLaws world := scoms_laws 9.

(** Domain ids are looked up in the demo table: id 0 is its only object. *)
Definition demo_lookup (_ : unit) (w : world) (i : Z) : option addr :=
  if i =? 0 then a ← Some demo_slot_obj; _ ← os_get w a; Some a else None.

Lemma demo_lookup_sound : lookup_sound demo_lookup.
Proof.
  intros f w i a. unfold demo_lookup. destruct (i =? 0); [|done]. cbn [mbind option_bind].
  destruct (os_get w demo_slot_obj) as [o|] eqn:Ho; [|done]. cbn [mbind option_bind].
  intros [= <-]. eauto.
Qed.

Definition demo_cs : cap_state unit := CapState None {[ct_domain := tt]}.

Lemma empty_cap_inv (ext : addr -> Z) (w : world) (m : gmap Z unit) :
  (forall a, 0 <= ext a) -> os_inv w ext -> cap_inv ext (CapState None m) w.
Proof.
  intros He Hw. split; [by left| | |done|].
  - intros i. unfold cap_slots. simpl. rewrite slot_at_nil. apply slot_default_ok.
  - done.
  - eapply os_inv_ext; [|exact Hw]. intros a. cbn beta.
    assert (cap_refs (cap_slots (CapState None m)) a = 0) as ->; [|lia].
    apply count_below_zero. intros i _. unfold cap_slots. simpl. by rewrite slot_at_nil.
Qed.

Lemma demo_cs_inv : cap_inv (fun _ => 0) demo_cs demo_active.
Proof. apply empty_cap_inv; [done|]. exact demo_active_inv. Qed.

Lemma demo_unsaturated : unsaturated demo_active.
Proof.
  intros a o Ho. change (heap (core demo_active) !! a = Some o) in Ho.
  assert (Hh : heap (core demo_active) = {[demo_slot_obj := Bobject 0 kt_domain active 1 1 1]})
    by (vm_compute; reflexivity).
  rewrite Hh in Ho. apply lookup_singleton_Some in Ho as [_ <-]. vm_compute. reflexivity.
Qed.

Lemma issue_sound_witness :
  exists r cs' w', cap_issue demo_lookup true demo_cs demo_active ct_domain 0 21 7
      = Some (r, cs', w') /\
    cap_inv (fun _ => 0) cs' w' /\
    match r with
    | Unexpected _ => slots_agree demo_cs cs' /\ w' = demo_active
    | Expected tok => exists f a, lookup_table demo_cs !! ct_domain = Some f /\
        demo_lookup f demo_active 0 = Some a /\ slot_for demo_cs tok = None /\
        authorises cs' w' tok 21 7 true a
    end.
Proof.
  apply (issue_sound (fun _ => 0) demo_lookup true demo_cs demo_active ct_domain 0 21 7).
  - exact demo_cs_inv.
  - exact demo_unsaturated.
  - exact demo_lookup_sound.
  - vm_compute. split; congruence.
  - vm_compute. split; congruence.
  - vm_compute. congruence.
Defined.

(** The state after one capability was issued: token [demo_tok] of domain 7. *)
Definition demo_issue : Z * cap_state unit * world :=
  match cap_issue demo_lookup true demo_cs demo_active ct_domain 0 21 7 with
  | Some (Expected tok, cs, w) => (tok, cs, w)
  | _ => (0, demo_cs, demo_active)
  end.
Definition demo_tok : Z := demo_issue.1.1.
Definition demo_cs1 : cap_state unit := demo_issue.1.2.
Definition demo_w1 : world := demo_issue.2.

Lemma demo_cs1_inv : cap_inv (fun _ => 0) demo_cs1 demo_w1.
Proof.
  destruct (issue_spec (fun _ => 0) demo_lookup true demo_cs demo_active ct_domain 0 21 7)
    as (r & cs' & w' & He & Hi & Hr);
    [exact demo_cs_inv|exact demo_unsaturated|exact demo_lookup_sound
    |vm_compute; split; congruence|vm_compute; split; congruence|].
  unfold demo_cs1, demo_w1, demo_issue, cap_issue. rewrite He.
  destruct r as [tok|e]; [exact Hi|exact demo_cs_inv].
Qed.

Lemma valid_tokens_exact_witness :
  slot_for demo_cs1 demo_tok = Some 1 <->
  cap_index 1 /\ cactive (slot_at (cap_slots demo_cs1) 1) = true /\
  ctype (slot_at (cap_slots demo_cs1) 1) <> ct_none /\
  demo_tok = token_of (slot_at (cap_slots demo_cs1) 1) 1.
Proof.
  apply (valid_tokens_exact (fun _ => 0) demo_cs1 demo_w1 demo_tok 1).
  - exact demo_cs1_inv.
  - vm_compute. split; congruence.
Defined.

Lemma revoke_precise_witness :
  exists cs' w', cap_revoke demo_cs1 demo_w1 demo_tok = Some (Expected tt, cs', w') /\
    cap_inv (fun _ => 0) cs' w' /\ slot_for cs' demo_tok = None.
Proof.
  assert (Hs : slot_for demo_cs1 demo_tok = Some 1) by (vm_compute; reflexivity).
  destruct (revoke_precise (fun _ => 0) demo_cs1 demo_w1 demo_tok demo_cs1_inv)
    as (r & cs' & w' & H1 & H2 & H3).
  rewrite Hs in H3. destruct H3 as (-> & _ & _ & H3 & _).
  exists cs', w'. split; [exact H1|]. split; [exact H2|exact H3].
Defined.

Lemma revoke_for_domain_complete_witness :
  exists cs' w', cap_revoke_for_domain demo_cs1 demo_w1 7 =
      Some (count_below (fun j => concerns demo_w1 7 (slot_at (cap_slots demo_cs1) j))
              (Z.to_nat MAX_CAPABILITIES), cs', w') /\ cap_inv (fun _ => 0) cs' w'.
Proof.
  destruct (revoke_for_domain_complete (fun _ => 0) demo_cs1 demo_w1 7 demo_cs1_inv)
    as (cs' & w' & H1 & H2 & _).
  exists cs', w'. split; [exact H1|exact H2].
Defined.

Lemma revoke_target_complete_witness :
  cap_revoke_target demo_cs demo_active demo_slot_obj = None.
Proof.
  pose proof (revoke_target_complete (fun _ => 0) demo_cs demo_active demo_slot_obj
    demo_cs_inv) as H. rewrite decide_True in H by reflexivity. exact H.
Defined.

Lemma derived_token_unusable_witness :
  slot_for demo_cs1 demo_tok = Some 1 /\ slot_for demo_cs1 (token_derive demo_tok 1) = None.
Proof.
  split; [vm_compute; reflexivity|].
  apply (derived_token_unusable (fun _ => 0) demo_cs1 demo_w1 demo_tok 1 1).
  - exact demo_cs1_inv.
  - vm_compute. split; congruence.
  - vm_compute. reflexivity.
  - vm_compute. congruence.
  - lia.
Defined.

Lemma demo_w1_heap : heap (core demo_w1) = {[demo_slot_obj := Bobject 0 kt_domain active 2 1 1]}.
Proof. vm_compute. reflexivity. Qed.

Definition demo_dup : Z * cap_state unit * world :=
  match cap_duplicate_for demo_lookup true demo_cs1 demo_w1 demo_tok 5 7 9 with
  | Some (Expected tok, cs, w) => (tok, cs, w)
  | _ => (0, demo_cs, demo_active)
  end.

#[local] Opaque demo_w1 demo_cs1 demo_tok demo_active demo_slot_obj.

Lemma duplicate_no_amplification_witness :
  cap_inv (fun _ => 0) demo_dup.1.2 demo_dup.2 /\
  exists a j, slot_for demo_dup.1.2 demo_dup.1.1 = Some j /\
    authorises demo_dup.1.2 demo_dup.2 demo_dup.1.1 5 9 true a /\
    authorises demo_cs1 demo_w1 demo_tok 5 7 true a.
Proof.
  destruct (duplicate_no_amplification (fun _ => 0) demo_lookup true demo_cs1 demo_w1 demo_tok
    5 7 9 demo_dup.1.1 demo_dup.1.2 demo_dup.2)
    as (Hinv & a & i & j & Ha & _ & _ & _ & _ & _ & _ & Hj & Ha' & _);
    [| | | | | |split; [exact Hinv|exists a, j; split; [exact Hj|split; [exact Ha'|exact Ha]]]].
  - exact demo_cs1_inv.
  - intros a o Ho. change (heap (core demo_w1) !! a = Some o) in Ho. rewrite demo_w1_heap in Ho.
    apply lookup_singleton_Some in Ho as [_ <-]. vm_compute. reflexivity.
  - exact demo_lookup_sound.
  - vm_compute. split; congruence.
  - intros i a o f Hs Ht Ho Hf. change (heap (core demo_w1) !! a = Some o) in Ho.
    rewrite demo_w1_heap in Ho. apply lookup_singleton_Some in Ho as [<- <-].
    vm_compute. reflexivity.
  - vm_compute. reflexivity.
Defined.
