(* ===== verification/Signal.v ===== *)
(** * Signals: the per-domain queue of asynchronous events

    Models [zxfoundation/dgp/signal.zcomponent] ([types.cxxm], [core.cxx]): the
    16-entry ring [signal_queue], registration, blocking, and delivery of
    pending signals with their default actions.  A registered handler is code
    of the domain's owner: it is an opaque name, and what calling it returns is
    the parameter [run_handler].  Handlers receive the kind, the payload and
    their own context, and the model assumes that they do not touch the queue. *)

From S2P Require Import Prelude Errors Kobject.

Inductive signal_kind :=
  | sk_none | sk_timer | sk_io | sk_fault | sk_term | sk_user0 | sk_user1 | sk_ipc.

#[global] Instance signal_kind_eq_dec : EqDecision signal_kind.
Proof. solve_decision. Defined.

(** The enumerators' values, [static_cast<u8>(kind)]. *)
Definition kind_code (k : signal_kind) : Z :=
  match k with
  | sk_none => 0 | sk_timer => 1 | sk_io => 2 | sk_fault => 3
  | sk_term => 4 | sk_user0 => 5 | sk_user1 => 6 | sk_ipc => 7
  end.

Inductive signal_default := sd_ignore | sd_terminate | sd_notify.

(** [handler] is [None] for a null function pointer. *)
Record signal_handler_info := HandlerInfo {
  handler : option Z;
  user_data : Z;
  def : signal_default
}.

Record signal_entry := SignalEntry { kind : signal_kind; data : Z }.

Definition null_entry : signal_entry := SignalEntry sk_none 0.

Definition SIGNAL_QUEUE_DEPTH : Z := 16.

Record signal_queue := SignalQueue {
  entries : list signal_entry;
  head : Z;
  tail : Z;
  count : Z;
  pending_mask : Z;
  blocked_mask : Z;
  handlers : list signal_handler_info
}.

Definition queue_init : signal_queue :=
  SignalQueue (replicate 16 null_entry) 0 0 0 0 0
    (replicate 8 (HandlerInfo None 0 sd_ignore)).

(** [1U << static_cast<u8>(k)]. *)
Definition kbit (k : signal_kind) : Z := Z.shiftl 1 (kind_code k).

Definition has_pending (q : signal_queue) : bool := 0 <? count q.

Definition has_pending_kind (q : signal_queue) (k : signal_kind) : bool :=
  negb (Z.land (pending_mask q) (kbit k) =? 0).

Definition enqueue (q : signal_queue) (k : signal_kind) (dat : Z) : signal_queue :=
  let full := SIGNAL_QUEUE_DEPTH <=? count q in
  let h := if full then (head q + 1) mod SIGNAL_QUEUE_DEPTH else head q in
  let n := if full then count q - 1 else count q in
  SignalQueue (updZ (entries q) (tail q) (SignalEntry k dat)) h
    ((tail q + 1) mod SIGNAL_QUEUE_DEPTH) (n + 1)
    (Z.lor (pending_mask q) (kbit k)) (blocked_mask q) (handlers q).

Definition dequeue (q : signal_queue) : signal_entry * signal_queue :=
  if count q =? 0 then (null_entry, q)
  else
    let n := count q - 1 in
    (nthZ null_entry (entries q) (head q),
     SignalQueue (updZ (entries q) (head q) null_entry)
       ((head q + 1) mod SIGNAL_QUEUE_DEPTH) (tail q) n
       (if n =? 0 then 0 else pending_mask q) (blocked_mask q) (handlers q)).

(** The part of a domain the signal code works on. *)
Record sdomain := SDomain { ko : bobject; dflags : Z; queue : signal_queue }.

Definition with_queue (d : sdomain) (q : signal_queue) : sdomain :=
  SDomain (ko d) (dflags d) q.

Definition NEED_RESCHED : Z := 4.

(** ** Delivery *)

(** The effective default action of an unhandled signal: an uncaught fault or
    termination request is always fatal. *)
Definition effective_def (h : signal_handler_info) (k : signal_kind) : signal_default :=
  match handler h with
  | Some _ => def h
  | None => match k with sk_fault | sk_term => sd_terminate | _ => def h end
  end.

Definition default_action (d : sdomain) (a : signal_default) : sdomain :=
  match a with
  | sd_terminate =>
      SDomain (transition (ko d) dying).2 (Z.lor (dflags d) NEED_RESCHED) (queue d)
  | sd_notify | sd_ignore => d
  end.

Definition signal_register_handler (d : sdomain) (k : signal_kind)
    (info : signal_handler_info) : expected unit * sdomain :=
  if 8 <=? kind_code k then (Unexpected (from_generic invalid_arg), d)
  else
    let q := queue d in
    (Expected tt, with_queue d
       (SignalQueue (entries q) (head q) (tail q) (count q) (pending_mask q)
          (blocked_mask q) (updZ (handlers q) (kind_code k) info))).

Definition signal_enqueue (d : sdomain) (k : signal_kind) (dat : Z) : sdomain :=
  with_queue d (enqueue (queue d) k dat).

Definition signal_block (d : sdomain) (mask : Z) : sdomain :=
  let q := queue d in
  with_queue d (SignalQueue (entries q) (head q) (tail q) (count q) (pending_mask q)
                  mask (handlers q)).

Definition signal_blocked_mask (d : sdomain) : Z := blocked_mask (queue d).

(** Entry [i] of the pending window. *)
Definition window (h : Z) (l : list signal_entry) (i : Z) : signal_entry :=
  nthZ null_entry l ((h + i) mod SIGNAL_QUEUE_DEPTH).

Definition deliverable (q : signal_queue) (i : Z) : bool :=
  let k := kind (window (head q) (entries q) i) in
  if decide (k = sk_none) then false
  else Z.land (blocked_mask q) (kbit k) =? 0.

(** The loop that closes the gap left in the middle of the ring. *)
Fixpoint shift_loop (l : list signal_entry) (j last : Z) (n : nat) : list signal_entry :=
  match n with
  | O => l
  | S n' =>
      if j =? last then l
      else shift_loop
             (updZ l j (nthZ null_entry l ((j + 1) mod SIGNAL_QUEUE_DEPTH)))
             ((j + 1) mod SIGNAL_QUEUE_DEPTH) last n'
  end.

(** The loop that recomputes [pending_mask] over the first [n] entries. *)
Definition recompute_mask (h : Z) (l : list signal_entry) (n : Z) : Z :=
  for_up (fun r m =>
    let rk := kind (window h l r) in
    if decide (rk = sk_none) then m else Z.lor m (kbit rk)) 0 (Z.to_nat n) 0.

(** Taking entry [i] of the window out of the queue. *)
Definition remove_at (q : signal_queue) (i : Z) : signal_queue :=
  let idx := (head q + i) mod SIGNAL_QUEUE_DEPTH in
  let '(l, h) :=
    if idx =? head q
    then (updZ (entries q) (head q) null_entry, (head q + 1) mod SIGNAL_QUEUE_DEPTH)
    else
      let last := (head q + (count q - 1)) mod SIGNAL_QUEUE_DEPTH in
      (updZ (shift_loop (entries q) idx last 16) last null_entry, head q) in
  let n := count q - 1 in
  SignalQueue l h (tail q) n (if n =? 0 then 0 else recompute_mask h l n)
    (blocked_mask q) (handlers q).

Section delivery.
Context (run_handler : Z -> signal_kind -> Z -> Z -> bool).

Definition deliver_entry (d : sdomain) (e : signal_entry) : bool * sdomain :=
  if decide (kind e = sk_none) then (false, d)
  else
    let h := nthZ (HandlerInfo None 0 sd_ignore) (handlers (queue d))
               (kind_code (kind e)) in
    let handled :=
      match handler h with
      | Some f => run_handler f (kind e) (data e) (user_data h)
      | None => false
      end in
    (true, if handled then d else default_action d (effective_def h (kind e))).

Definition signal_deliver_one (d : sdomain) : bool * sdomain :=
  let q := queue d in
  if count q =? 0 then (false, d)
  else
    match find_up (deliverable q) 0 (Z.to_nat (count q)) with
    | None => (false, d)
    | Some i => deliver_entry (with_queue d (remove_at q i)) (window (head q) (entries q) i)
    end.

(** The [while] loop of [signal_deliver_all]; [None] when the fuel runs out. *)
Fixpoint signal_deliver_all (fuel : nat) (d : sdomain) : option (bool * sdomain) :=
  if has_pending (queue d) then
    match fuel with
    | O => None
    | S n =>
        let '(_, d1) := signal_deliver_one d in
        if decide (state (ko d1) = dying) then Some (true, d1)
        else signal_deliver_all n d1
    end
  else Some (false, d).

End delivery.

(** ** The abstract queue: the list of pending signals, oldest first *)

Definition pending (q : signal_queue) : list signal_entry :=
  map (window (head q) (entries q)) (seqZ 0 (count q)).

(** Geometry of the window. *)
Record sq_geom (q : signal_queue) : Prop := {
  sg_len : length (entries q) = 16%nat;
  sg_head : 0 <= head q < 16;
  sg_count : 0 <= count q <= 16
}.

(** The full invariant also says where the next signal goes. *)
Record sq_wf (q : signal_queue) : Prop := {
  sw_geom :> sq_geom q;
  sw_tail : tail q = (head q + count q) mod 16;
  sw_live : Forall (fun e => kind e <> sk_none) (pending q);
  sw_mask : Forall (fun e => has_pending_kind q (kind e) = true) (pending q)
}.

Lemma length_pending q : 0 <= count q -> Z.of_nat (length (pending q)) = count q.
Proof. intros. unfold pending. rewrite length_map, length_seqZ. lia. Qed.

Lemma pending_lookup q i :
  pending q !! i =
    if decide (Z.of_nat i < count q)
    then Some (window (head q) (entries q) (Z.of_nat i)) else None.
Proof.
  unfold pending. rewrite list_lookup_fmap. case_decide.
  - rewrite lookup_seqZ_lt by lia. simpl. by rewrite Z.add_0_l.
  - rewrite lookup_seqZ_ge by lia. done.
Qed.

(** Reading the window after a write at window position [p]. *)
Lemma window_updZ h l p x k :
  length l = 16%nat -> 0 <= p < 16 -> 0 <= k < 16 ->
  window h (updZ l ((h + p) mod 16) x) k = if decide (k = p) then x else window h l k.
Proof.
  intros Hl Hp Hk. unfold window, SIGNAL_QUEUE_DEPTH. case_decide as Hd.
  - subst. apply nthZ_updZ_eq. rewrite Hl. lia.
  - apply nthZ_updZ_ne; lia.
Qed.

Lemma window_shift h l k : window ((h + 1) mod 16) l k = window h l (k + 1).
Proof. unfold window, SIGNAL_QUEUE_DEPTH. f_equal. lia. Qed.

Lemma window_head h l : 0 <= h < 16 -> window h l 0 = nthZ null_entry l h.
Proof. intros. unfold window, SIGNAL_QUEUE_DEPTH. f_equal. lia. Qed.

Lemma window_snoc h l n x :
  length l = 16%nat -> 0 <= n < 16 ->
  map (window h (updZ l ((h + n) mod 16) x)) (seqZ 0 (n + 1)) =
  map (window h l) (seqZ 0 n) ++ [x].
Proof.
  intros Hl Hn. replace (n + 1) with (Z.of_nat (S (Z.to_nat n))) by lia.
  rewrite seqZ_S, map_app, Z.add_0_l, Z2Nat.id by lia. f_equal.
  - apply map_ext_in. intros k Hk%list_elem_of_In%elem_of_seqZ.
    rewrite window_updZ, decide_False by lia. done.
  - cbn [map]. rewrite window_updZ, decide_True by lia. done.
Qed.

Lemma window_uncons h l n :
  0 < n ->
  map (window h l) (seqZ 0 n) =
  window h l 0 :: map (window ((h + 1) mod 16) l) (seqZ 0 (n - 1)).
Proof.
  intros Hn. rewrite seqZ_cons by lia. cbn [map]. f_equal.
  rewrite <- (Z.add_0_r (Z.succ 0)), <- fmap_add_seqZ. unfold fmap.
  rewrite map_map. replace (Z.pred n) with (n - 1) by lia.
  apply map_ext. intros k. rewrite window_shift. f_equal. lia.
Qed.

Lemma kind_code_range k : 0 <= kind_code k < 8.
Proof. destruct k; simpl; lia. Qed.

Lemma kind_code_inj k k' : kind_code k = kind_code k' -> k = k'.
Proof. by destruct k, k'. Qed.

(** Membership of a kind in a mask, as a test of its bit. *)
Lemma mask_bit m k : negb (Z.land m (kbit k) =? 0) = Z.testbit m (kind_code k).
Proof.
  unfold kbit. rewrite land_bit_testbit by (pose proof (kind_code_range k); lia).
  apply negb_involutive.
Qed.

Lemma mask_set m k k' :
  Z.testbit (Z.lor m (kbit k)) (kind_code k') =
  Z.testbit m (kind_code k') || bool_decide (k = k').
Proof.
  unfold kbit. pose proof (kind_code_range k). pose proof (kind_code_range k').
  rewrite lor_bit_testbit by lia. f_equal. apply bool_decide_ext.
  split; [apply kind_code_inj|by intros ->].
Qed.

(** [enqueue] appends, dropping the oldest entry of a full queue. *)
Lemma enqueue_spec q k dat :
  sq_wf q -> k <> sk_none ->
  sq_wf (enqueue q k dat) /\
  pending (enqueue q k dat) =
    (if decide (count q = 16) then drop 1 (pending q) else pending q)
    ++ [SignalEntry k dat].
Proof.
  intros Hq Hk. destruct Hq as [[Hl Hh Hc] Ht Hlive Hmask].
  assert (Hp : pending (enqueue q k dat) =
    (if decide (count q = 16) then drop 1 (pending q) else pending q)
    ++ [SignalEntry k dat]).
  { unfold enqueue, pending, SIGNAL_QUEUE_DEPTH in *. rewrite Ht. destruct (Z.leb_spec 16 (count q)).
    - cbn [head entries count]. rewrite decide_True by lia.
      replace (count q) with 16 by lia. rewrite (window_uncons (head q) (entries q) 16) by lia.
      rewrite skipn_cons, drop_0.
      replace ((head q + 16) mod 16) with (((head q + 1) mod 16 + 15) mod 16) by lia.
      by apply window_snoc.
    - cbn [head entries count]. rewrite decide_False by lia. by apply window_snoc; try lia. }
  split; [|done].
  assert (Hsub : forall e, e ∈ pending (enqueue q k dat) ->
                 e ∈ pending q \/ e = SignalEntry k dat).
  { intros e. rewrite Hp, elem_of_app, list_elem_of_singleton.
    intros [He|?]; [left|by right]. case_decide; [|done].
    by eapply subseteq_drop. }
  rewrite list.Forall_forall in Hlive, Hmask. split; [split| | |].
  - unfold enqueue; simpl. by rewrite length_updZ.
  - unfold enqueue, SIGNAL_QUEUE_DEPTH; simpl. destruct (16 <=? count q); lia.
  - unfold enqueue, SIGNAL_QUEUE_DEPTH; simpl. destruct (Z.leb_spec 16 (count q)); lia.
  - unfold enqueue, SIGNAL_QUEUE_DEPTH in *; simpl. destruct (Z.leb_spec 16 (count q)); lia.
  - apply list.Forall_forall. intros e [He| ->]%Hsub; [by apply Hlive|done].
  - apply list.Forall_forall. intros e He. unfold has_pending_kind. rewrite mask_bit.
    cbn [enqueue pending_mask]. rewrite mask_set.
    apply Hsub in He as [He| ->]; [|simpl; by rewrite bool_decide_true, orb_true_r].
    specialize (Hmask e He). unfold has_pending_kind in Hmask. rewrite mask_bit in Hmask.
    by rewrite Hmask.
Qed.

Lemma dequeue_spec q :
  sq_wf q ->
  match pending q with
  | [] => dequeue q = (null_entry, q)
  | e :: l => (dequeue q).1 = e /\ sq_wf (dequeue q).2 /\ pending (dequeue q).2 = l
  end.
Proof.
  intros [[Hl Hh Hc] Ht Hlive Hmask]. unfold dequeue.
  destruct (Z.eqb_spec (count q) 0) as [Hz|Hz].
  { unfold pending. by rewrite Hz. }
  assert (Hp : pending q = window (head q) (entries q) 0 ::
    map (window ((head q + 1) mod 16) (entries q)) (seqZ 0 (count q - 1))).
  { unfold pending. by rewrite window_uncons by lia. }
  rewrite Hp in *. rewrite window_head in * by lia. split; [done|].
  set (q' := SignalQueue _ _ _ _ _ _ _).
  assert (Hp' : pending q' =
    map (window ((head q + 1) mod 16) (entries q)) (seqZ 0 (count q - 1))).
  { unfold pending, q', SIGNAL_QUEUE_DEPTH; cbn [snd head entries count].
    apply map_ext_in. intros k Hk%list_elem_of_In%elem_of_seqZ.
    rewrite !window_shift.
    replace (head q) with ((head q + 0) mod 16) at 2 by lia.
    rewrite window_updZ, decide_False by lia. done. }
  apply list.Forall_cons in Hlive as [_ Hlive]. apply list.Forall_cons in Hmask as [_ Hmask].
  cbn [snd]. fold q'. rewrite Hp'. split; [|done]. split; [split| | |].
  - unfold q'; simpl. by rewrite length_updZ.
  - unfold q', SIGNAL_QUEUE_DEPTH; simpl. lia.
  - unfold q'; simpl. lia.
  - unfold q', SIGNAL_QUEUE_DEPTH; simpl. lia.
  - by rewrite Hp'.
  - rewrite Hp'. destruct (Z.eqb_spec (count q - 1) 0) as [Ho|Ho].
    + rewrite Ho. done.
    + eapply list.Forall_impl; [exact Hmask|]. intros e He. exact He.
Qed.

(** ** Taking a signal out of the middle of the queue *)

Lemma length_shift_loop l j last n : length (shift_loop l j last n) = length l.
Proof.
  revert l j. induction n as [|n IH]; intros l j; cbn [shift_loop]; [done|].
  destruct (j =? last); [done|]. by rewrite IH, length_updZ.
Qed.

(** The gap-closing loop from window position [i] to [m]. *)
Lemma shift_loop_spec h l i m n k :
  length l = 16%nat -> 0 <= i <= m -> m < 16 -> m - i < Z.of_nat n -> 0 <= k < 16 ->
  window h (shift_loop l ((h + i) mod 16) ((h + m) mod 16) n) k =
    if decide (i <= k < m) then window h l (k + 1) else window h l k.
Proof.
  revert l i. induction n as [|n IH]; intros l i Hl Him Hm Hn Hk; [lia|].
  cbn [shift_loop]. destruct (Z.eqb_spec ((h + i) mod 16) ((h + m) mod 16)) as [He|He].
  - rewrite decide_False by lia. done.
  - unfold SIGNAL_QUEUE_DEPTH.
    replace (((h + i) mod 16 + 1) mod 16) with ((h + (i + 1)) mod 16) by lia.
    rewrite IH by (rewrite ?length_updZ; lia).
    destruct (decide (i + 1 <= k < m)).
    + rewrite window_updZ, decide_False, decide_True by lia. done.
    + rewrite window_updZ by lia. destruct (decide (k = i)) as [->|].
      * destruct (decide (i <= i < m)); [|lia]. unfold window, SIGNAL_QUEUE_DEPTH.
        f_equal.
      * rewrite decide_False by lia. done.
Qed.

(** Recomputing the mask sets exactly the bits of the kinds in the window. *)
Lemma recompute_mask_spec h l n k :
  0 <= n -> k <> sk_none ->
  Z.testbit (recompute_mask h l n) (kind_code k) = true <->
  exists i, 0 <= i < n /\ kind (window h l i) = k.
Proof.
  intros Hn Hk. unfold recompute_mask.
  set (f := fun r m => _).
  assert (H : forall c, 0 <= c -> c <= n ->
    Z.testbit (for_up f 0 (Z.to_nat c) 0) (kind_code k) = true <->
    exists i, 0 <= i < c /\ kind (window h l i) = k); [|apply H; lia].
  intros c Hc _.
  pose proof (for_up_inv (fun j m => Z.testbit m (kind_code k) = true <->
    exists i, 0 <= i < j /\ kind (window h l i) = k) f 0 (Z.to_nat c) 0) as Hi.
  cbn beta in Hi. replace (0 + Z.of_nat (Z.to_nat c)) with c in Hi by lia.
  apply Hi; clear Hi.
  - rewrite Z.bits_0. split; [done|]. intros (i & ? & _). lia.
  - intros j m Hj IH. unfold f. set (kj := kind (window h l j)).
    destruct (decide (kj = sk_none)) as [Hz|Hz].
    + rewrite IH. split; intros (i & Hi & He); exists i; (split; [|done]); [lia|].
      destruct (decide (i = j)) as [->|]; [|lia]. unfold kj in Hz. congruence.
    + rewrite mask_set, orb_true_iff, IH, bool_decide_eq_true. split.
      * intros [(i & Hi & He)|He]; [exists i; split; [lia|done]|exists j; split; [lia|done]].
      * intros (i & Hi & He). destruct (decide (i = j)) as [->|]; [by right|].
        left. exists i. split; [lia|done].
Qed.

(** [remove_at] deletes position [i] of the pending list and nothing else. *)
Lemma remove_at_pending q i :
  sq_geom q -> 0 <= i < count q ->
  sq_geom (remove_at q i) /\
  pending (remove_at q i) = delete (Z.to_nat i) (pending q).
Proof.
  intros [Hl Hh Hc] Hi. unfold remove_at, SIGNAL_QUEUE_DEPTH.
  destruct (Z.eqb_spec ((head q + i) mod 16) (head q)) as [He|He].
  - assert (i = 0) as -> by lia. split.
    + split; simpl; [by rewrite length_updZ|lia|lia].
    + unfold pending. cbn [head entries count]. rewrite (window_uncons _ _ (count q)) by lia.
      change (Z.to_nat 0) with 0%nat. cbn [delete list_delete].
      apply map_ext_in. intros k Hk%list_elem_of_In%elem_of_seqZ.
      rewrite !window_shift. replace (head q) with ((head q + 0) mod 16) at 2 by lia.
      rewrite window_updZ, decide_False by lia. done.
  - set (l' := updZ _ _ _).
    assert (Hl' : length l' = 16%nat) by (unfold l'; by rewrite length_updZ, length_shift_loop).
    split; [split; simpl; [done|lia|lia]|].
    apply list_eq. intros j. rewrite pending_lookup. cbn [head entries count].
    destruct (decide (Z.of_nat j < count q - 1)) as [Hj|Hj].
    + unfold l'. rewrite window_updZ by (rewrite ?length_shift_loop; lia).
      rewrite decide_False by lia.
      rewrite shift_loop_spec by (try done; lia).
      destruct (decide (j < Z.to_nat i)%nat).
      * rewrite decide_False by lia. rewrite list_lookup_delete_lt by lia.
        rewrite pending_lookup, decide_True by lia. done.
      * rewrite decide_True by lia. rewrite list_lookup_delete_ge by lia.
        rewrite pending_lookup, decide_True by lia. f_equal. f_equal. lia.
    + symmetry. apply lookup_ge_None_2. rewrite length_delete.
      * pose proof (length_pending q). lia.
      * rewrite pending_lookup, decide_True by lia. eauto.
Qed.

(** After [remove_at] the mask names exactly the kinds still pending. *)
Lemma remove_at_mask q i k :
  sq_geom q -> 0 <= i < count q -> k <> sk_none ->
  has_pending_kind (remove_at q i) k = true <->
  Exists (fun e => kind e = k) (pending (remove_at q i)).
Proof.
  intros Hg Hi Hk. unfold has_pending_kind. rewrite mask_bit.
  assert (exists l h, remove_at q i = SignalQueue l h (tail q) (count q - 1)
    (if count q - 1 =? 0 then 0 else recompute_mask h l (count q - 1))
    (blocked_mask q) (handlers q)) as (l & h & ->).
  { unfold remove_at. destruct (_ =? _); eauto. }
  unfold pending. cbn [pending_mask head entries count].
  rewrite list.Exists_exists. destruct (Z.eqb_spec (count q - 1) 0) as [Hz|Hz].
  - rewrite Z.bits_0, Hz. split; [done|]. intros (e & He & _). by apply not_elem_of_nil in He.
  - rewrite recompute_mask_spec by (done || lia). split.
    + intros (j & Hj & He). exists (window h l j). split; [|done].
      apply list_elem_of_fmap. exists j. split; [done|]. apply elem_of_seqZ. lia.
    + intros (e & He & Hke). apply list_elem_of_fmap in He as (j & -> & Hj%elem_of_seqZ).
      exists j. split; [lia|done].
Qed.

(** ** Delivery *)

(** A signal that delivery must skip: an empty entry or a blocked kind. *)
Definition held (mask : Z) (e : signal_entry) : bool :=
  bool_decide (kind e = sk_none) || Z.testbit mask (kind_code (kind e)).

Lemma deliverable_held q i :
  deliverable q i = negb (held (blocked_mask q) (window (head q) (entries q) i)).
Proof.
  unfold deliverable, held. case_decide as Hd; [by rewrite bool_decide_true|].
  rewrite bool_decide_false, orb_false_l by done. rewrite <- mask_bit. by rewrite negb_involutive.
Qed.

Lemma queue_init_wf : sq_wf queue_init.
Proof. split; [split; simpl; done|done|by simpl|by simpl]. Qed.

Section delivery_spec.
Context (run : Z -> signal_kind -> Z -> Z -> bool).

Lemma deliver_entry_queue d e : queue (deliver_entry run d e).2 = queue d.
Proof.
  unfold deliver_entry. case_decide; [done|]. simpl.
  destruct (match handler _ with Some _ => _ | None => _ end); [done|].
  by destruct (effective_def _ _).
Qed.

Lemma deliver_one_spec d :
  sq_geom (queue d) ->
  (Forall (fun e => held (blocked_mask (queue d)) e = true) (pending (queue d)) /\
   signal_deliver_one run d = (false, d)) \/
  (exists l1 e l2 q',
     pending (queue d) = l1 ++ e :: l2 /\
     Forall (fun e => held (blocked_mask (queue d)) e = true) l1 /\
     held (blocked_mask (queue d)) e = false /\
     signal_deliver_one run d = deliver_entry run (with_queue d q') e /\
     sq_geom q' /\ pending q' = l1 ++ l2 /\ blocked_mask q' = blocked_mask (queue d) /\
     handlers q' = handlers (queue d) /\
     forall k, k <> sk_none ->
       has_pending_kind q' k = true <-> Exists (fun e => kind e = k) (l1 ++ l2)).
Proof.
  intros Hg. destruct (sg_count _ Hg) as [Hc _]. unfold signal_deliver_one.
  set (q := queue d) in *.
  destruct (Z.eqb_spec (count q) 0) as [Hz|Hz].
  { left. split; [|done]. unfold pending. rewrite Hz. apply Forall_nil_2. }
  destruct (find_up _ _ _) as [i|] eqn:Hf.
  - right. apply find_up_Some in Hf as (Hi & Hp & Hlt).
    assert (Hi' : 0 <= i < count q) by lia.
    pose proof (pending_lookup q (Z.to_nat i)) as Hl. rewrite decide_True in Hl by lia.
    rewrite Z2Nat.id in Hl by lia.
    destruct (remove_at_pending q i Hg Hi') as [Hg' Hp'].
    assert (Hdel : delete (Z.to_nat i) (pending q) =
      take (Z.to_nat i) (pending q) ++ drop (S (Z.to_nat i)) (pending q))
      by apply delete_take_drop.
    eexists (take (Z.to_nat i) (pending q)), _, (drop (S (Z.to_nat i)) (pending q)),
      (remove_at q i).
    split_and!; [symmetry; by apply take_drop_middle| | |done|done|by rewrite Hp'| | |].
    + apply list.Forall_forall. intros e (j & He)%list_elem_of_lookup.
      apply lookup_take_Some in He as [He Hj]. rewrite pending_lookup in He.
      case_decide; [|done]. injection He as <-.
      specialize (Hlt (Z.of_nat j)). rewrite deliverable_held in Hlt.
      apply negb_false_iff. apply Hlt. lia.
    + rewrite deliverable_held in Hp. by apply negb_true_iff.
    + unfold remove_at. by destruct (_ =? _).
    + unfold remove_at. by destruct (_ =? _).
    + intros k Hk. rewrite <- Hdel, <- Hp'. by apply remove_at_mask.
  - left. split; [|done]. apply list.Forall_forall.
    intros e (j & He)%list_elem_of_lookup. rewrite pending_lookup in He.
    case_decide; [|done]. injection He as <-.
    pose proof (proj1 (find_up_None _ _ _) Hf (Z.of_nat j)) as Hn.
    rewrite deliverable_held in Hn. apply negb_false_iff. apply Hn. lia.
Qed.

Lemma deliver_one_live d e :
  kind e <> sk_none -> (deliver_entry run d e).1 = true.
Proof. intros. unfold deliver_entry. by rewrite decide_False. Qed.

Lemma held_false mask e : held mask e = false -> kind e <> sk_none.
Proof. unfold held. rewrite orb_false_iff, bool_decide_eq_false. by intros [? _]. Qed.

(** With nothing blocked, the loop drains the queue or stops at a fatal signal. *)
Lemma deliver_all_spec n d :
  sq_geom (queue d) -> count (queue d) <= Z.of_nat n ->
  Forall (fun e => held (blocked_mask (queue d)) e = false) (pending (queue d)) ->
  exists r d', signal_deliver_all run n d = Some (r, d') /\
    ((r = true /\ state (ko d') = dying) \/ (r = false /\ pending (queue d') = [])).
Proof.
  revert d. induction n as [|n IH]; intros d Hg Hn Hfree; cbn [signal_deliver_all];
    unfold has_pending; destruct (Z.ltb_spec 0 (count (queue d))) as [Hc|Hc]; try lia;
    try (eexists _, _; split; [done|right; split; [done|]]; unfold pending;
         rewrite seqZ_nil by lia; done).
  pose proof (length_pending (queue d)) as Hlen.
  destruct (deliver_one_spec d Hg) as
    [[Hall _]|(l1 & e & l2 & q' & Hp & Hl1 & He & Hd & Hg' & Hp' & Hb & _ & _)].
  { destruct (pending (queue d)) as [|e l]; [simpl in Hlen; lia|].
    apply list.Forall_cons in Hall as [Ha _]. apply list.Forall_cons in Hfree as [Hf _].
    congruence. }
  rewrite Hd. destruct (deliver_entry run (with_queue d q') e) as [b d1] eqn:Hde.
  pose proof (deliver_entry_queue (with_queue d q') e) as Hq. rewrite Hde in Hq. simpl in Hq.
  destruct (decide (state (ko d1) = dying)) as [Hs|Hs].
  { eexists _, _. split; [done|]. by left. }
  apply IH; rewrite Hq; [done| |].
  - pose proof (length_pending q') as Hlen'. rewrite Hp', length_app in Hlen'.
    rewrite Hp, length_app in Hlen. simpl in Hlen. destruct (sg_count _ Hg'). lia.
  - rewrite Hp', Hb. rewrite Hp in Hfree.
    rewrite Forall_app, list.Forall_cons in Hfree. rewrite Forall_app. tauto.
Qed.

(** When every pending entry is held the loop never ends. *)
Lemma deliver_all_stuck n d :
  sq_geom (queue d) -> 0 < count (queue d) -> state (ko d) <> dying ->
  Forall (fun e => held (blocked_mask (queue d)) e = true) (pending (queue d)) ->
  signal_deliver_all run n d = None.
Proof.
  intros Hg Hc Hs Hall.
  assert (Hd : signal_deliver_one run d = (false, d)).
  { destruct (deliver_one_spec d Hg) as [[_ Hd]|(l1 & e & l2 & q' & Hp & _ & He & _)]; [done|].
    rewrite Hp, Forall_app, list.Forall_cons in Hall. destruct Hall as (_ & Ht & _). congruence. }
  induction n as [|n IH]; cbn [signal_deliver_all]; unfold has_pending;
    rewrite (proj2 (Z.ltb_lt _ _)) by done; [done|].
  rewrite Hd. by rewrite decide_False.
Qed.

End delivery_spec.

(** ** The properties *)

(** A live domain, used by the witnesses. *)
Definition demo_domain : sdomain :=
  SDomain (Bobject 3 kt_domain active 1 1 0) 0 queue_init.
Definition no_handlers (f : Z) (k : signal_kind) (dat user : Z) : bool := false.

(** C24: The queue is a bounded FIFO that overwrites its oldest entry: [enqueue]
    appends the signal, dropping the front only when sixteen are pending,
    [dequeue] then returns the oldest pending signal, the pending mask covers
    every pending kind, and the ring stays well formed. *)
Theorem queue_is_bounded_fifo q k dat :
  sq_wf q -> k <> sk_none ->
  let kept := if decide (count q = 16) then drop 1 (pending q) else pending q in
  let q1 := enqueue q k dat in
  pending q1 = kept ++ [SignalEntry k dat] /\
  (dequeue q1).1 = hd (SignalEntry k dat) kept /\
  pending (dequeue q1).2 = tl (kept ++ [SignalEntry k dat]) /\
  sq_wf q1 /\ sq_wf (dequeue q1).2.
Proof.
  intros Hq Hk. destruct (enqueue_spec q k dat Hq Hk) as [Hw Hp]. cbn zeta.
  pose proof (dequeue_spec _ Hw) as Hd. rewrite Hp in *.
  destruct (if decide (count q = 16) then _ else _) as [|e l]; cbn [app] in Hd;
    destruct Hd as (H1 & H2 & H3); split_and!; done.
Qed.

Lemma queue_is_bounded_fifo_witness :
  let q := enqueue queue_init sk_timer 7 in
  pending (enqueue q sk_io 8) = [SignalEntry sk_timer 7; SignalEntry sk_io 8] /\
  (dequeue (enqueue q sk_io 8)).1 = SignalEntry sk_timer 7.
Proof.
  destruct (queue_is_bounded_fifo (enqueue queue_init sk_timer 7) sk_io 8) as (H1 & H2 & _).
  - apply enqueue_spec; [apply queue_init_wf|done].
  - done.
  - split; [rewrite H1|rewrite H2]; vm_compute; reflexivity.
Defined.

(** [signal_deliver_one] picks the oldest pending signal whose kind is not
    blocked, hands exactly that entry to its handler or default action, and
    takes exactly that entry out of the queue, keeping the order of the others
    and recomputing the mask of pending kinds; when every pending signal is
    blocked it changes nothing and returns false. *)
Theorem deliver_one_correct run d :
  sq_geom (queue d) ->
  (Forall (fun e => held (blocked_mask (queue d)) e = true) (pending (queue d)) /\
   signal_deliver_one run d = (false, d)) \/
  (exists l1 e l2 q',
     pending (queue d) = l1 ++ e :: l2 /\
     Forall (fun e => held (blocked_mask (queue d)) e = true) l1 /\
     held (blocked_mask (queue d)) e = false /\
     signal_deliver_one run d = deliver_entry run (with_queue d q') e /\
     sq_geom q' /\ pending q' = l1 ++ l2 /\ blocked_mask q' = blocked_mask (queue d) /\
     handlers q' = handlers (queue d) /\
     forall k, k <> sk_none ->
       has_pending_kind q' k = true <-> Exists (fun e => kind e = k) (l1 ++ l2)).
Proof. apply deliver_one_spec. Qed.

(** Two pending signals, the older one blocked. *)
Definition demo_blocked : sdomain :=
  signal_enqueue (signal_enqueue (signal_block demo_domain 2) sk_timer 1) sk_io 2.

Lemma demo_blocked_wf : sq_wf (queue demo_blocked).
Proof.
  apply enqueue_spec; [|done]. apply enqueue_spec; [|done].
  split; [split; simpl; done|done|by simpl|by simpl].
Qed.

Lemma deliver_one_correct_witness :
  exists l1 e l2 q', pending (queue demo_blocked) = l1 ++ e :: l2 /\
    signal_deliver_one no_handlers demo_blocked =
      deliver_entry no_handlers (with_queue demo_blocked q') e /\ pending q' = l1 ++ l2.
Proof.
  destruct (deliver_one_correct no_handlers demo_blocked) as
    [[_ H]|(l1 & e & l2 & q' & H1 & _ & _ & H2 & _ & H3 & _)].
  - apply demo_blocked_wf.
  - vm_compute in H. discriminate H.
  - exists l1, e, l2, q'. done.
Defined.

(** When no pending kind is blocked, [signal_deliver_all] terminates within as
    many iterations as signals are pending: it delivers them all and returns
    false, or stops at the first one that made the domain dying and returns
    true. *)
Theorem deliver_all_drains run d n :
  sq_geom (queue d) -> count (queue d) <= Z.of_nat n ->
  Forall (fun e => held (blocked_mask (queue d)) e = false) (pending (queue d)) ->
  exists r d', signal_deliver_all run n d = Some (r, d') /\
    ((r = true /\ state (ko d') = dying) \/ (r = false /\ pending (queue d') = [])).
Proof. apply deliver_all_spec. Qed.

Definition demo_two : sdomain :=
  signal_enqueue (signal_enqueue demo_domain sk_timer 1) sk_term 2.

Lemma deliver_all_drains_witness :
  exists r d', signal_deliver_all no_handlers 2 demo_two = Some (r, d') /\
    ((r = true /\ state (ko d') = dying) \/ (r = false /\ pending (queue d') = [])).
Proof.
  apply (deliver_all_drains no_handlers demo_two 2).
  - apply enqueue_spec; [|done]. apply enqueue_spec; [apply queue_init_wf|done].
  - vm_compute. congruence.
  - repeat constructor.
Defined.

(** A pending signal whose kind is blocked makes [signal_deliver_all] loop for
    ever: as soon as every remaining entry is blocked (and the domain is not
    dying) no number of iterations ends the loop, since [signal_deliver_one]
    leaves the queue as it is and [has_pending] keeps answering true. *)
Theorem deliver_all_livelock run d :
  sq_geom (queue d) -> 0 < count (queue d) -> state (ko d) <> dying ->
  Forall (fun e => held (blocked_mask (queue d)) e = true) (pending (queue d)) ->
  forall n, signal_deliver_all run n d = None.
Proof. intros Hg Hc Hs Hall n. by apply deliver_all_stuck. Qed.

Lemma deliver_all_livelock_witness :
  forall n, signal_deliver_all no_handlers n
    (signal_enqueue (signal_block demo_domain 2) sk_timer 1) = None.
Proof.
  apply (deliver_all_livelock no_handlers
    (signal_enqueue (signal_block demo_domain 2) sk_timer 1)).
  - apply enqueue_spec; [|done]. split; [split; simpl; done|done|by simpl|by simpl].
  - vm_compute. reflexivity.
  - vm_compute. congruence.
  - repeat constructor.
Defined.

(** The history of the lost signal: with timers blocked, a timer and an I/O
    signal are queued, the I/O signal is delivered from behind the blocked one,
    a user signal is queued and the timers are unblocked. *)
Definition lost_signal_history : sdomain :=
  let d1 := (signal_deliver_one no_handlers demo_blocked).2 in
  signal_block (signal_enqueue d1 sk_user0 42) 0.

(** Taking a signal out of the middle of the ring does not move [tail] back, so
    the next signal is stored outside the window of pending entries: after the
    history above the queue counts two pending signals, but the user signal
    (payload 42) is not among them and the second entry is empty; delivering
    everything then never terminates. *)
Theorem signal_lost_after_middle_removal :
  pending (queue lost_signal_history) = [SignalEntry sk_timer 1; null_entry] /\
  Forall (fun e => kind e <> sk_user0) (pending (queue lost_signal_history)) /\
  (forall n, signal_deliver_all no_handlers n lost_signal_history = None).
Proof.
  assert (Hp : pending (queue lost_signal_history) = [SignalEntry sk_timer 1; null_entry])
    by (vm_compute; reflexivity).
  split_and!; [done|by rewrite Hp; repeat constructor|].
  intros [|n]; [vm_compute; reflexivity|]. cbn [signal_deliver_all].
  assert (Hh : has_pending (queue lost_signal_history) = true) by (vm_compute; reflexivity).
  rewrite Hh. destruct (signal_deliver_one no_handlers lost_signal_history) as [b d1] eqn:Hd.
  vm_compute in Hd. injection Hd as <- <-. rewrite decide_False by done.
  apply deliver_all_stuck; [split; simpl; done|done|done|repeat constructor].
Qed.

(** An uncaught fault or termination request is fatal whatever default action
    was registered: a live domain becomes dying and is flagged for
    rescheduling. *)
Theorem uncaught_fault_fatal run d e :
  kind e = sk_fault \/ kind e = sk_term ->
  handler (nthZ (HandlerInfo None 0 sd_ignore) (handlers (queue d)) (kind_code (kind e)))
    = None ->
  transition_allowed (state (ko d)) dying = true ->
  deliver_entry run d e =
    (true, SDomain (with_state (ko d) dying) (Z.lor (dflags d) NEED_RESCHED) (queue d)).
Proof.
  intros Hk Hh Ht. unfold deliver_entry, effective_def. rewrite Hh.
  rewrite decide_False by (destruct Hk; congruence).
  assert ((transition (ko d) dying).2 = with_state (ko d) dying) as Htr
    by (unfold transition; by rewrite Ht).
  destruct Hk as [-> | ->]; simpl; by rewrite Htr.
Qed.

Lemma uncaught_fault_fatal_witness :
  deliver_entry no_handlers
    (signal_register_handler demo_domain sk_fault (HandlerInfo None 0 sd_ignore)).2
    (SignalEntry sk_fault 9) =
  (true, SDomain (Bobject 3 kt_domain dying 1 1 0) 4
     (queue (signal_register_handler demo_domain sk_fault (HandlerInfo None 0 sd_ignore)).2)).
Proof.
  apply (uncaught_fault_fatal no_handlers
    (signal_register_handler demo_domain sk_fault (HandlerInfo None 0 sd_ignore)).2
    (SignalEntry sk_fault 9)); [by left|vm_compute; reflexivity|vm_compute; reflexivity].
Defined.
