(* ===== verification/Sha256.v ===== *)
(** * SHA-256

    Models [crypto/sha256.zcomponent] ([core.cxx]): the compression function,
    the streaming interface ([sha256_init], [sha256_update], [sha256_final]),
    the one-shot [sha256_hash] and [sha256_verify].  The reference is the
    padded-message definition of FIPS 180-4: [digest].  Bytes are 8-bit and
    state words 32-bit integers.  The CPACF instruction KLMD that
    [sha256_hash] uses when the machine has the message-security assist is a
    parameter. *)

From S2P Require Import Prelude Errors.

(** A 32-bit constant, written as its two halves. *)
Definition word (hi lo : Z) : Z := hi * 65536 + lo.

Definition K : list Z := [
  word 0x428a 0x2f98; word 0x7137 0x4491; word 0xb5c0 0xfbcf; word 0xe9b5 0xdba5;
  word 0x3956 0xc25b; word 0x59f1 0x11f1; word 0x923f 0x82a4; word 0xab1c 0x5ed5;
  word 0xd807 0xaa98; word 0x1283 0x5b01; word 0x2431 0x85be; word 0x550c 0x7dc3;
  word 0x72be 0x5d74; word 0x80de 0xb1fe; word 0x9bdc 0x06a7; word 0xc19b 0xf174;
  word 0xe49b 0x69c1; word 0xefbe 0x4786; word 0x0fc1 0x9dc6; word 0x240c 0xa1cc;
  word 0x2de9 0x2c6f; word 0x4a74 0x84aa; word 0x5cb0 0xa9dc; word 0x76f9 0x88da;
  word 0x983e 0x5152; word 0xa831 0xc66d; word 0xb003 0x27c8; word 0xbf59 0x7fc7;
  word 0xc6e0 0x0bf3; word 0xd5a7 0x9147; word 0x06ca 0x6351; word 0x1429 0x2967;
  word 0x27b7 0x0a85; word 0x2e1b 0x2138; word 0x4d2c 0x6dfc; word 0x5338 0x0d13;
  word 0x650a 0x7354; word 0x766a 0x0abb; word 0x81c2 0xc92e; word 0x9272 0x2c85;
  word 0xa2bf 0xe8a1; word 0xa81a 0x664b; word 0xc24b 0x8b70; word 0xc76c 0x51a3;
  word 0xd192 0xe819; word 0xd699 0x0624; word 0xf40e 0x3585; word 0x106a 0xa070;
  word 0x19a4 0xc116; word 0x1e37 0x6c08; word 0x2748 0x774c; word 0x34b0 0xbcb5;
  word 0x391c 0x0cb3; word 0x4ed8 0xaa4a; word 0x5b9c 0xca4f; word 0x682e 0x6ff3;
  word 0x748f 0x82ee; word 0x78a5 0x636f; word 0x84c8 0x7814; word 0x8cc7 0x0208;
  word 0x90be 0xfffa; word 0xa450 0x6ceb; word 0xbef9 0xa3f7; word 0xc671 0x78f2].

Definition rotr32 (x n : Z) : Z := Z.lor (Z.shiftr x n) (u32 (Z.shiftl x (32 - n))).

(** [~e] on 32 bits. *)
Definition not32 (x : Z) : Z := Z.lxor x U32_MAX.

(** Word [i] of a block, big endian. *)
Definition block_word (block : list Z) (i : Z) : Z :=
  Z.lor (Z.lor (Z.lor (Z.shiftl (nthZ 0 block (i * 4)) 24)
                      (Z.shiftl (nthZ 0 block (i * 4 + 1)) 16))
               (Z.shiftl (nthZ 0 block (i * 4 + 2)) 8))
        (nthZ 0 block (i * 4 + 3)).

(** The message schedule [w[64]]. *)
Definition schedule (block : list Z) : list Z :=
  let w := for_up (fun i w => updZ w i (block_word block i)) 0 16 (replicate 64 0) in
  for_up (fun i w =>
    let w15 := nthZ 0 w (i - 15) in
    let w2 := nthZ 0 w (i - 2) in
    let s0 := Z.lxor (Z.lxor (rotr32 w15 7) (rotr32 w15 18)) (Z.shiftr w15 3) in
    let s1 := Z.lxor (Z.lxor (rotr32 w2 17) (rotr32 w2 19)) (Z.shiftr w2 10) in
    updZ w i (u32 (nthZ 0 w (i - 16) + s0 + nthZ 0 w (i - 7) + s1))) 16 48 w.

(** The eight working variables. *)
Record work := Work {
  wa : Z; wb : Z; wc : Z; wd : Z; we : Z; wf : Z; wg : Z; wh : Z
}.

Definition round (w : list Z) (i : Z) (v : work) : work :=
  let s1 := Z.lxor (Z.lxor (rotr32 (we v) 6) (rotr32 (we v) 11)) (rotr32 (we v) 25) in
  let ch := Z.lxor (Z.land (we v) (wf v)) (Z.land (not32 (we v)) (wg v)) in
  let t1 := u32 (wh v + s1 + ch + nthZ 0 K i + nthZ 0 w i) in
  let s0 := Z.lxor (Z.lxor (rotr32 (wa v) 2) (rotr32 (wa v) 13)) (rotr32 (wa v) 22) in
  let maj := Z.lxor (Z.lxor (Z.land (wa v) (wb v)) (Z.land (wa v) (wc v)))
               (Z.land (wb v) (wc v)) in
  let t2 := u32 (s0 + maj) in
  Work (u32 (t1 + t2)) (wa v) (wb v) (wc v) (u32 (wd v + t1)) (we v) (wf v) (wg v).

(** [sha256_block] on the chaining value. *)
Definition sha256_block (st block : list Z) : list Z :=
  let w := schedule block in
  let s i := nthZ 0 st i in
  let v := for_up (round w) 0 64 (Work (s 0) (s 1) (s 2) (s 3) (s 4) (s 5) (s 6) (s 7)) in
  [u32 (s 0 + wa v); u32 (s 1 + wb v); u32 (s 2 + wc v); u32 (s 3 + wd v);
   u32 (s 4 + we v); u32 (s 5 + wf v); u32 (s 6 + wg v); u32 (s 7 + wh v)].

(** ** The streaming context *)

Record sha256_ctx := Ctx {
  cstate : list Z;
  bit_count : Z;
  buf : list Z;
  buf_len : Z;
  finalized : bool
}.

Definition H0 : list Z :=
  [0x6a09e667; 0xbb67ae85; 0x3c6ef372; 0xa54ff53a;
   0x510e527f; 0x9b05688c; 0x1f83d9ab; 0x5be0cd19].

Definition sha256_init (ctx : sha256_ctx) : sha256_ctx := Ctx H0 0 (buf ctx) 0 false.

Definition ctx_default : sha256_ctx := Ctx (replicate 8 0) 0 (replicate 64 0) 0 false.

(** [for (i = 0; i < n; ++i) b[at + i] = f(i)]. *)
Definition blit (at_ : Z) (f : Z -> Z) (n : nat) (b : list Z) : list Z :=
  for_up (fun i b => updZ b (at_ + i) (f i)) 0 n b.

(** The [while (remaining > 0)] loop; [rest] is the input from [offset] on,
    [None] when the fuel runs out. *)
Fixpoint update_loop (fuel : nat) (ctx : sha256_ctx) (rest : list Z) : option sha256_ctx :=
  let remaining := Z.of_nat (length rest) in
  if remaining =? 0 then Some ctx
  else
    match fuel with
    | O => None
    | S fuel' =>
        let space := u32 (64 - buf_len ctx) in
        let take := if u32 remaining <? space then u32 remaining else space in
        let b := blit (buf_len ctx) (nthZ 0 rest) (Z.to_nat take) (buf ctx) in
        let len := u32 (buf_len ctx + take) in
        let ctx1 :=
          if len =? 64
          then Ctx (sha256_block (cstate ctx) b) (bit_count ctx) b 0 (finalized ctx)
          else Ctx (cstate ctx) (bit_count ctx) b len (finalized ctx) in
        update_loop fuel' ctx1 (drop (Z.to_nat take) rest)
    end.

(** [null]: the span's data pointer is null. *)
Definition sha256_update (fuel : nat) (ctx : sha256_ctx) (null : bool) (data : list Z)
    : option (expected unit * sha256_ctx) :=
  let n := Z.of_nat (length data) in
  let bad := Some (Unexpected (from_crypto crypto_invalid_input), ctx) in
  if finalized ctx then bad
  else if null && negb (n =? 0) then bad
  else if n =? 0 then Some (Expected tt, ctx)
  else if (U64_MAX - bit_count ctx) / 8 <? n then bad
  else
    ctx' ← update_loop fuel
      (Ctx (cstate ctx) (u64 (bit_count ctx + u64 (n * 8))) (buf ctx) (buf_len ctx)
         (finalized ctx)) data;
    Some (Expected tt, ctx').

(** [static_cast<u8>(x >> s)]. *)
Definition byte_at (x s : Z) : Z := u8 (Z.shiftr x s).

Definition word_bytes (x : Z) : list Z :=
  [byte_at x 24; byte_at x 16; byte_at x 8; byte_at x 0].

Definition length_bytes (bits : Z) : list Z :=
  [byte_at bits 56; byte_at bits 48; byte_at bits 40; byte_at bits 32;
   byte_at bits 24; byte_at bits 16; byte_at bits 8; byte_at bits 0].

(** On success the digest bytes [out]. *)
Definition sha256_final (ctx : sha256_ctx) : expected (list Z) * sha256_ctx :=
  if finalized ctx then (Unexpected (from_crypto crypto_invalid_input), ctx)
  else
    let b := updZ (buf ctx) (buf_len ctx) 0x80 in
    let len := buf_len ctx + 1 in
    let '(st, b, len) :=
      if 56 <? len
      then
        let b := blit len (fun _ => 0) (Z.to_nat (64 - len)) b in
        (sha256_block (cstate ctx) b, b, 0)
      else (cstate ctx, b, len) in
    let b := blit len (fun _ => 0) (Z.to_nat (56 - len)) b in
    let b := blit 56 (nthZ 0 (length_bytes (bit_count ctx))) 8 b in
    let st := sha256_block st b in
    (Expected (concat (map word_bytes st)), Ctx st (bit_count ctx) b 56 true).

(** [sha256_hash]; [klmd] takes the initial state, the message length in bits
    and the message, and returns the final state. *)
Definition sha256_hash (msa : bool) (klmd : list Z -> Z -> list Z -> list Z)
    (fuel : nat) (null : bool) (data : list Z) : option (expected (list Z)) :=
  if msa then
    Some (Expected (concat (map word_bytes
      (klmd H0 (u64 (Z.of_nat (length data) * 8)) data))))
  else
    '(r, ctx) ← sha256_update fuel (sha256_init ctx_default) null data;
    match r with
    | Unexpected e => Some (Unexpected e)
    | Expected _ => Some (sha256_final ctx).1
    end.

Definition sha256_verify (msa : bool) (klmd : list Z -> Z -> list Z -> list Z)
    (fuel : nat) (null : bool) (data expct : list Z) : option (expected unit) :=
  r ← sha256_hash msa klmd fuel null data;
  match r with
  | Unexpected e => Some (Unexpected e)
  | Expected computed =>
      match find_up (fun i => negb (nthZ 0 computed i =? nthZ 0 expct i)) 0 32 with
      | Some _ => Some (Unexpected (from_crypto crypto_hash_mismatch))
      | None => Some (Expected tt)
      end
  end.

(** ** The reference: padding and blockwise iteration (FIPS 180-4) *)

(** Iterating the compression function over the first [n] blocks. *)
Fixpoint absorb (n : nat) (st msg : list Z) : list Z :=
  match n with
  | O => st
  | S n' => absorb n' (sha256_block st (take 64 msg)) (drop 64 msg)
  end.

Definition pad (msg : list Z) : list Z :=
  msg ++ 0x80 :: replicate (Z.to_nat ((55 - Z.of_nat (length msg)) mod 64)) 0
      ++ length_bytes (8 * Z.of_nat (length msg)).

Definition digest (msg : list Z) : list Z :=
  concat (map word_bytes (absorb (length (pad msg) / 64) H0 (pad msg))).

(** [ctx]'s chaining value and buffer hold exactly the bytes [msg]. *)
Record absorbed (ctx : sha256_ctx) (msg : list Z) : Prop := {
  ab_state : cstate ctx = absorb (length msg / 64) H0 msg;
  ab_len : buf_len ctx = Z.of_nat (length msg mod 64);
  ab_buf : take (Z.to_nat (buf_len ctx)) (buf ctx) = drop (64 * (length msg / 64)) msg;
  ab_size : length (buf ctx) = 64%nat
}.

(** An open context that has been fed [msg]. *)
Record consumed (ctx : sha256_ctx) (msg : list Z) : Prop := {
  co_abs : absorbed ctx msg;
  co_bits : bit_count ctx = 8 * Z.of_nat (length msg);
  co_fit : 8 * Z.of_nat (length msg) < 2 ^ 64;
  co_open : finalized ctx = false
}.

#[local] Opaque sha256_block.

(** ** Writing consecutive bytes *)

Lemma take_S_updZ (l : list Z) i x :
  0 <= i < Z.of_nat (length l) ->
  take (Z.to_nat (i + 1)) (updZ l i x) = take (Z.to_nat i) l ++ [x].
Proof.
  intros Hi. unfold updZ. replace (Z.to_nat (i + 1)) with (S (Z.to_nat i)) by lia.
  rewrite (take_S_r _ _ x) by (apply list_lookup_insert_eq; lia).
  by rewrite take_insert_ge by lia.
Qed.

Lemma blit_spec at_ f n b :
  0 <= at_ -> at_ + Z.of_nat n <= Z.of_nat (length b) ->
  length (blit at_ f n b) = length b /\
  take (Z.to_nat (at_ + Z.of_nat n)) (blit at_ f n b) =
    take (Z.to_nat at_) b ++ map f (seqZ 0 (Z.of_nat n)).
Proof.
  intros Ha Hn. unfold blit.
  pose proof (for_up_inv (fun j b' => length b' = length b /\
    take (Z.to_nat (at_ + j)) b' = take (Z.to_nat at_) b ++ map f (seqZ 0 j))
    (fun i b => updZ b (at_ + i) (f i)) 0 n b) as Hi.
  cbn beta in Hi. rewrite Z.add_0_l in Hi. apply Hi; clear Hi.
  - rewrite Z.add_0_r. simpl. by rewrite app_nil_r.
  - intros j b' Hj [Hl Ht]. rewrite length_updZ. split; [done|].
    rewrite Z.add_assoc, take_S_updZ by lia. rewrite Ht, <- app_assoc. f_equal.
    replace (j + 1) with (Z.of_nat (S (Z.to_nat j))) by lia.
    rewrite seqZ_S, map_app. rewrite Z2Nat.id by lia. done.
Qed.

Lemma map_nthZ (l : list Z) n :
  (n <= length l)%nat -> map (nthZ 0 l) (seqZ 0 (Z.of_nat n)) = take n l.
Proof.
  intros Hn. apply list_eq. intros i. rewrite list_lookup_fmap.
  destruct (decide (i < n)%nat).
  - rewrite lookup_seqZ_lt, lookup_take_lt by lia. simpl. rewrite Z.add_0_l.
    destruct (lookup_lt_is_Some_2 l i) as [x Hx]; [lia|]. rewrite Hx. f_equal.
    unfold nthZ. rewrite Nat2Z.id. by apply nth_lookup_Some.
  - rewrite lookup_seqZ_ge, lookup_take_ge by lia. done.
Qed.

(** ** Iterating the compression function *)

Lemma absorb_add n m st msg :
  absorb (n + m) st msg = absorb m (absorb n st msg) (drop (64 * n) msg).
Proof.
  revert st msg. induction n as [|n IH]; intros st msg; [done|].
  cbn [Nat.add absorb]. rewrite IH, drop_drop. f_equal. f_equal. lia.
Qed.

Lemma absorb_app n st a b : (64 * n <= length a)%nat -> absorb n st (a ++ b) = absorb n st a.
Proof.
  revert st a. induction n as [|n IH]; intros st a Hn; [done|]. cbn [absorb].
  rewrite take_app_le, drop_app_le by lia. apply IH. rewrite length_drop. lia.
Qed.

(** Adding bytes that fit in the buffer. *)
Lemma absorbed_step ctx msg rest k :
  absorbed ctx msg -> (k <= length rest)%nat -> buf_len ctx + Z.of_nat k <= 64 ->
  let b := blit (buf_len ctx) (nthZ 0 rest) k (buf ctx) in
  let len := buf_len ctx + Z.of_nat k in
  absorbed (if len =? 64 then Ctx (sha256_block (cstate ctx) b) (bit_count ctx) b 0 (finalized ctx)
            else Ctx (cstate ctx) (bit_count ctx) b len (finalized ctx))
    (msg ++ take k rest).
Proof.
  intros [Hst Hlen Hbuf Hsz] Hk Hfit b len.
  destruct (blit_spec (buf_len ctx) (nthZ 0 rest) k (buf ctx)) as [Hbl Hbt];
    [lia|rewrite Hsz; lia|]. fold b in Hbl, Hbt. fold len in Hbt.
  rewrite map_nthZ, Hbuf in Hbt by done.
  assert (Hlk : length (take k rest) = k) by (rewrite length_take; lia).
  assert (HL : length (msg ++ take k rest) = (length msg + k)%nat)
    by (rewrite length_app; lia).
  assert (Hdl : (64 * (length msg / 64) <= length msg)%nat) by lia.
  rewrite <- drop_app_le in Hbt by exact Hdl.
  destruct (Z.eqb_spec len 64) as [He|He].
  - assert (Hq : ((length msg + k) / 64 = length msg / 64 + 1)%nat) by lia.
    assert (Hr : ((length msg + k) mod 64 = 0)%nat) by lia.
    split; cbn [cstate buf buf_len]; rewrite ?HL, ?Hq, ?Hr.
    + rewrite absorb_add, absorb_app by lia. rewrite <- Hst. cbn [absorb]. f_equal.
      rewrite He in Hbt. change (Z.to_nat 64) with 64%nat in Hbt.
      rewrite take_ge in Hbt by lia. rewrite Hbt.
      symmetry. apply take_ge. rewrite length_drop, HL. lia.
    + done.
    + rewrite drop_ge by (rewrite HL; lia). done.
    + lia.
  - assert (Hq : ((length msg + k) / 64 = length msg / 64)%nat) by lia.
    assert (Hr : Z.of_nat ((length msg + k) mod 64) = len) by lia.
    split; cbn [cstate buf buf_len]; rewrite ?HL, ?Hq, ?Hr.
    + rewrite absorb_app by lia. done.
    + done.
    + done.
    + lia.
Qed.

(** ** [sha256_update] *)

Lemma update_loop_spec fuel ctx msg rest :
  absorbed ctx msg -> (length rest <= fuel)%nat -> Z.of_nat (length rest) < 2 ^ 32 ->
  exists ctx', update_loop fuel ctx rest = Some ctx' /\ absorbed ctx' (msg ++ rest) /\
    bit_count ctx' = bit_count ctx /\ finalized ctx' = finalized ctx.
Proof.
  revert ctx msg rest. induction fuel as [|fuel IH]; intros ctx msg rest Hab Hf H32.
  { destruct rest; [|simpl in Hf; lia]. exists ctx. rewrite app_nil_r. done. }
  cbn [update_loop]. destruct (Z.eqb_spec (Z.of_nat (length rest)) 0) as [Hz|Hz].
  { destruct rest; [|simpl in Hz; lia]. exists ctx. rewrite app_nil_r. done. }
  pose proof (ab_len _ _ Hab) as Hlen.
  rewrite !(u32_small (Z.of_nat (length rest))) by (unfold fits; lia).
  rewrite (u32_small (64 - buf_len ctx)) by solve_u.
  set (tk := if _ <? _ then _ else _).
  assert (Htk : 0 < tk <= Z.of_nat (length rest) /\ buf_len ctx + tk <= 64).
  { unfold tk. destruct (Z.ltb_spec (Z.of_nat (length rest)) (64 - buf_len ctx)); lia. }
  rewrite (u32_small (buf_len ctx + tk)) by solve_u.
  pose proof (absorbed_step ctx msg rest (Z.to_nat tk) Hab ltac:(lia) ltac:(lia)) as Hst.
  cbn zeta in Hst. rewrite Z2Nat.id in Hst by lia.
  set (ctx1 := if _ =? 64 then _ else _) in *.
  destruct (IH ctx1 (msg ++ take (Z.to_nat tk) rest) (drop (Z.to_nat tk) rest) Hst)
    as (ctx' & He & Hab' & Hb & Hfin); [rewrite length_drop; lia|rewrite length_drop; lia|].
  exists ctx'. rewrite He. rewrite <- app_assoc, take_drop in Hab'.
  split_and!; [done|done| |]; unfold ctx1 in *; destruct (_ =? 64); done.
Qed.

Lemma update_spec fuel ctx msg null data :
  consumed ctx msg -> null = false \/ data = [] ->
  (length data <= fuel)%nat -> Z.of_nat (length data) < 2 ^ 32 ->
  8 * Z.of_nat (length (msg ++ data)) < 2 ^ 64 ->
  exists ctx', sha256_update fuel ctx null data = Some (Expected tt, ctx') /\
    consumed ctx' (msg ++ data).
Proof.
  intros [Hab Hb Hfit Hopen] Hnull Hf H32 Htot. rewrite length_app in Htot.
  unfold sha256_update. rewrite Hopen.
  destruct (Z.eqb_spec (Z.of_nat (length data)) 0) as [Hz|Hz].
  { destruct data; [|simpl in Hz; lia]. rewrite andb_false_r, app_nil_r. eauto using Build_consumed. }
  destruct Hnull as [-> | ->]; [|done]. cbn [negb andb].
  rewrite (proj2 (Z.ltb_ge _ _)) by (rewrite Hb; solve_u).
  rewrite (u64_small (Z.of_nat (length data) * 8)) by solve_u.
  rewrite (u64_small (bit_count ctx + _)) by (rewrite Hb; solve_u).
  set (ctx0 := Ctx _ _ _ _ _).
  assert (Hab0 : absorbed ctx0 msg) by (destruct Hab; by split).
  destruct (update_loop_spec fuel ctx0 msg data Hab0 Hf H32) as (ctx' & -> & Hab' & Hb' & Hf').
  cbn [mbind option_bind]. exists ctx'. split; [done|].
  split; [done| |by rewrite length_app|by rewrite Hf'].
  rewrite Hb', length_app. cbn [ctx0 bit_count]. rewrite Hb. lia.
Qed.

(** From 4 GiB on the loop makes no progress past a multiple of 2^32: the
    number of bytes to take is computed from the length truncated to 32 bits. *)
Lemma update_loop_stuck fuel ctx rest :
  0 <= buf_len ctx <= 64 -> 2 ^ 32 <= Z.of_nat (length rest) -> update_loop fuel ctx rest = None.
Proof.
  revert ctx rest. induction fuel as [|fuel IH]; intros ctx rest Hb Hr; cbn [update_loop];
    rewrite (proj2 (Z.eqb_neq _ _)) by lia; [done|].
  rewrite (u32_small (64 - buf_len ctx)) by solve_u.
  set (n := Z.of_nat (length rest)) in *.
  set (tk := if _ <? _ then _ else _).
  assert (Htk : 0 <= tk <= u32 n /\ buf_len ctx + tk <= 64).
  { unfold tk. destruct (Z.ltb_spec (u32 n) (64 - buf_len ctx)); pose proof (u32_fits n) as Hf;
      unfold fits in Hf; lia. }
  rewrite (u32_small (buf_len ctx + tk)) by solve_u.
  apply IH.
  - destruct (_ =? 64); simpl; lia.
  - rewrite length_drop. unwrap_u. lia.
Qed.

(** ** [sha256_final] *)

Lemma length_pad msg : exists n, length (pad msg) = (64 * n)%nat.
Proof.
  exists ((length msg + 9 + Z.to_nat ((55 - Z.of_nat (length msg)) mod 64)) / 64)%nat.
  unfold pad. rewrite length_app. cbn [length]. rewrite length_app, length_replicate.
  cbn [length length_bytes]. lia.
Qed.

Lemma map_const_seqZ (c : Z) n : map (fun _ => c) (seqZ 0 (Z.of_nat n)) = replicate n c.
Proof.
  induction n as [|n IH]; [done|]. rewrite seqZ_S, map_app, IH.
  symmetry. apply replicate_cons_app.
Qed.

(** A block buffer filled in three moves: prefix, zeros, eight length bytes. *)
Lemma last_block b len bits :
  length b = 64%nat -> 0 <= len <= 56 ->
  blit 56 (nthZ 0 (length_bytes bits)) 8
    (blit len (fun _ => 0) (Z.to_nat (56 - len)) b) =
  take (Z.to_nat len) b ++ replicate (Z.to_nat (56 - len)) 0 ++ length_bytes bits.
Proof.
  intros Hl Hr.
  destruct (blit_spec len (fun _ => 0) (Z.to_nat (56 - len)) b) as [L1 T1]; [lia|lia|].
  set (b1 := blit len _ _ b) in *.
  destruct (blit_spec 56 (nthZ 0 (length_bytes bits)) 8 b1) as [L2 T2]; [lia|lia|].
  rewrite map_nthZ in T2 by (cbn [length length_bytes]; lia).
  change (Z.to_nat (56 + Z.of_nat 8)) with 64%nat in T2.
  rewrite take_ge in T2 by lia. rewrite T2.
  replace (len + Z.of_nat (Z.to_nat (56 - len))) with 56 in T1 by lia.
  rewrite T1, map_const_seqZ, <- app_assoc. done.
Qed.

Lemma zero_block b len :
  length b = 64%nat -> 0 <= len <= 64 ->
  blit len (fun _ => 0) (Z.to_nat (64 - len)) b =
  take (Z.to_nat len) b ++ replicate (Z.to_nat (64 - len)) 0.
Proof.
  intros Hl Hr.
  destruct (blit_spec len (fun _ => 0) (Z.to_nat (64 - len)) b) as [L1 T1]; [lia|lia|].
  replace (len + Z.of_nat (Z.to_nat (64 - len))) with 64 in T1 by lia.
  change (Z.to_nat 64) with 64%nat in T1. rewrite take_ge in T1 by lia.
  by rewrite T1, map_const_seqZ.
Qed.

(** The padded message from the first incomplete block on. *)
Lemma absorb_pad msg :
  let r := (length msg mod 64)%nat in
  let tail := drop (64 * (length msg / 64)) msg in
  let rest := tail ++ 0x80 :: replicate (Z.to_nat ((55 - Z.of_nat r) mod 64)) 0
                ++ length_bytes (8 * Z.of_nat (length msg)) in
  length tail = r /\
  absorb (length (pad msg) / 64) H0 (pad msg) =
  absorb (if decide (r < 56)%nat then 1 else 2) (absorb (length msg / 64) H0 msg) rest.
Proof.
  intros r tail rest.
  assert (Ht : length tail = r) by (unfold tail; rewrite length_drop; lia).
  assert (Hz : (55 - Z.of_nat (length msg)) mod 64 = (55 - Z.of_nat r) mod 64) by lia.
  split; [done|].
  assert (Hd : drop (64 * (length msg / 64)) (pad msg) = rest).
  { unfold pad. rewrite drop_app_le by lia. by rewrite Hz. }
  assert (Hq : (length (pad msg) / 64 =
    length msg / 64 + (if decide (r < 56)%nat then 1 else 2))%nat).
  { unfold pad. rewrite length_app. cbn [length]. rewrite length_app, length_replicate.
    cbn [length length_bytes]. rewrite Hz. case_decide; lia. }
  rewrite Hq, absorb_add, Hd. unfold pad at 1. by rewrite absorb_app by lia.
Qed.

Lemma absorb_one st b : length b = 64%nat -> absorb 1 st b = sha256_block st b.
Proof. intros Hb. cbn [absorb]. by rewrite take_ge by lia. Qed.

Lemma absorb_two st a b :
  length a = 64%nat -> length b = 64%nat ->
  absorb 2 st (a ++ b) = sha256_block (sha256_block st a) b.
Proof.
  intros Ha Hb. change 2%nat with (1 + 1)%nat. rewrite absorb_add.
  rewrite absorb_app, (absorb_one st a), drop_app_length' by lia. by apply absorb_one.
Qed.

Lemma final_spec ctx msg :
  consumed ctx msg ->
  exists ctx', sha256_final ctx = (Expected (digest msg), ctx') /\ finalized ctx' = true.
Proof.
  intros [[Hst Hlen Hbuf Hsz] Hb Hfit Hopen]. unfold sha256_final, digest. rewrite Hopen.
  destruct (absorb_pad msg) as [Htl ->].
  set (tail := drop _ msg) in *. set (r := (length msg mod 64)%nat) in *.
  assert (Hr : (r < 64)%nat) by (unfold r; lia).
  set (b1 := updZ (buf ctx) (buf_len ctx) 128).
  assert (L1 : length b1 = 64%nat) by (unfold b1; by rewrite length_updZ).
  assert (T1 : take (Z.to_nat (buf_len ctx + 1)) b1 = tail ++ [128]).
  { unfold b1. rewrite take_S_updZ by lia. by rewrite Hbuf. }
  assert (Lb : length (length_bytes (8 * Z.of_nat (length msg))) = 8%nat) by done.
  rewrite Hb, <- Hst. set (lb := length_bytes _) in *.
  destruct (Z.ltb_spec 56 (buf_len ctx + 1)) as [Hc|Hc].
  - destruct (decide (r < 56)%nat); [lia|]. rewrite zero_block, T1 by lia.
    set (b2 := (tail ++ [128]) ++ _). assert (L2 : length b2 = 64%nat).
    { unfold b2. rewrite !length_app, length_replicate. simpl. lia. }
    unfold lb. rewrite last_block by (done || lia). fold lb.
    change (take (Z.to_nat 0) b2) with (@nil Z). rewrite app_nil_l.
    replace (tail ++ 128 :: replicate _ _ ++ lb) with (b2 ++ replicate (Z.to_nat (56 - 0)) 0 ++ lb).
    2:{ unfold b2. rewrite <- !app_assoc. cbn [app]. f_equal. f_equal.
        rewrite app_assoc, <- replicate_add. f_equal. f_equal. lia. }
    rewrite absorb_two; [eauto|done|]. rewrite length_app, length_replicate. lia.
  - destruct (decide (r < 56)%nat); [|lia].
    unfold lb. rewrite last_block by (done || lia). fold lb. rewrite T1.
    replace (tail ++ 128 :: replicate _ _ ++ lb)
      with ((tail ++ [128]) ++ replicate (Z.to_nat (56 - (buf_len ctx + 1))) 0 ++ lb).
    2:{ rewrite <- !app_assoc. cbn [app]. f_equal. f_equal. f_equal. f_equal. lia. }
    rewrite absorb_one; [eauto|].
    rewrite !length_app, length_replicate. simpl. lia.
Qed.

(** ** The interface *)

#[local] Transparent sha256_block.
Lemma length_sha256_block st b : length (sha256_block st b) = 8%nat.
Proof. reflexivity. Qed.
#[local] Opaque sha256_block.

Lemma length_absorb n st msg : length st = 8%nat -> length (absorb n st msg) = 8%nat.
Proof.
  revert st msg. induction n as [|n IH]; intros st msg Hs; [done|]. cbn [absorb].
  apply IH, length_sha256_block.
Qed.

Lemma length_digest msg : length (digest msg) = 32%nat.
Proof.
  unfold digest. assert (H : length (absorb (length (pad msg) / 64) H0 (pad msg)) = 8%nat)
    by (by apply length_absorb).
  destruct (absorb _ _ _) as [|w0 [|w1 [|w2 [|w3 [|w4 [|w5 [|w6 [|w7 [|w8 l]]]]]]]]];
    simpl in H; try lia. reflexivity.
Qed.

Lemma nthZ_list_eq (a b : list Z) :
  length a = length b ->
  (forall i, 0 <= i < Z.of_nat (length a) -> nthZ 0 a i = nthZ 0 b i) -> a = b.
Proof.
  intros Hl Hn. apply (nth_ext _ _ 0 0 Hl). intros i Hi.
  specialize (Hn (Z.of_nat i)). unfold nthZ in Hn. rewrite Nat2Z.id in Hn. apply Hn. lia.
Qed.

Lemma init_consumed ctx : length (buf ctx) = 64%nat -> consumed (sha256_init ctx) [].
Proof. intros Hb. split; [split|done|done|done]; done. Qed.

(** Feeding a sequence of spans. *)
Fixpoint feed (ctx : sha256_ctx) (chunks : list (list Z)) : option sha256_ctx :=
  match chunks with
  | [] => Some ctx
  | c :: cs =>
      '(r, ctx') ← sha256_update (length c) ctx false c;
      if has_value r then feed ctx' cs else None
  end.

Lemma feed_spec ctx msg chunks :
  consumed ctx msg -> Forall (fun c => Z.of_nat (length c) < 2 ^ 32) chunks ->
  8 * Z.of_nat (length (msg ++ concat chunks)) < 2 ^ 64 ->
  exists ctx', feed ctx chunks = Some ctx' /\ consumed ctx' (msg ++ concat chunks).
Proof.
  revert ctx msg. induction chunks as [|c cs IH]; intros ctx msg Hc Hf Hl; cbn [feed concat].
  { exists ctx. by rewrite app_nil_r. }
  apply list.Forall_cons in Hf as [Hf1 Hf2]. cbn [concat] in Hl. rewrite app_assoc in Hl.
  destruct (update_spec (length c) ctx msg false c Hc) as (ctx1 & -> & Hc1);
    [by left|lia|done|rewrite length_app in Hl; lia|].
  cbn [mbind option_bind has_value]. rewrite app_assoc. by apply IH.
Qed.

Lemma hash_spec fuel data :
  (length data <= fuel)%nat -> Z.of_nat (length data) < 2 ^ 32 ->
  forall klmd, sha256_hash false klmd fuel false data = Some (Expected (digest data)).
Proof.
  intros Hf H32 klmd. unfold sha256_hash.
  destruct (update_spec fuel (sha256_init ctx_default) [] false data) as (ctx & -> & Hc);
    [by apply init_consumed|by left|done|done|rewrite app_nil_l; lia|].
  cbn [mbind option_bind]. destruct (final_spec ctx _ Hc) as (ctx' & -> & _). done.
Qed.

(** C12: Streaming equals one shot: however a message is cut into spans (each below
    4 GiB), initialising, updating with every span and finalising yields the
    FIPS 180-4 digest of the concatenation, whatever the buffer held before. *)
Theorem streaming_correct ctx chunks :
  length (buf ctx) = 64%nat ->
  Forall (fun c => Z.of_nat (length c) < 2 ^ 32) chunks ->
  8 * Z.of_nat (length (concat chunks)) < 2 ^ 64 ->
  exists ctx1 ctx2, feed (sha256_init ctx) chunks = Some ctx1 /\
    sha256_final ctx1 = (Expected (digest (concat chunks)), ctx2).
Proof.
  intros Hb Hf Hl.
  destruct (feed_spec _ [] chunks (init_consumed ctx Hb) Hf Hl) as (ctx1 & H1 & Hc).
  destruct (final_spec ctx1 _ Hc) as (ctx2 & H2 & _). eauto.
Qed.

Lemma streaming_correct_witness :
  exists ctx1 ctx2, feed (sha256_init ctx_default) [[97]; []; [98; 99]] = Some ctx1 /\
    sha256_final ctx1 = (Expected (digest (concat [[97]; []; [98; 99]])), ctx2).
Proof.
  apply (streaming_correct ctx_default [[97]; []; [98; 99]]).
  - reflexivity.
  - repeat constructor.
  - vm_compute. reflexivity.
Defined.

(** [sha256_verify] accepts exactly the right digest: for data below 4 GiB it
    succeeds if the expected digest is the FIPS 180-4 digest of the data and
    fails with [hash_mismatch] otherwise, on the software path and, given that
    KLMD computes the padded hash of its operand, on the CPACF path. *)
Theorem verify_exact msa klmd fuel data expct :
  (forall d, klmd H0 (u64 (Z.of_nat (length d) * 8)) d =
     absorb (length (pad d) / 64) H0 (pad d)) ->
  (length data <= fuel)%nat -> Z.of_nat (length data) < 2 ^ 32 -> length expct = 32%nat ->
  sha256_verify msa klmd fuel false data expct =
    Some (if decide (expct = digest data) then Expected tt
          else Unexpected (from_crypto crypto_hash_mismatch)).
Proof.
  intros Hk Hf H32 He. unfold sha256_verify.
  assert (Hh : sha256_hash msa klmd fuel false data = Some (Expected (digest data))).
  { destruct msa; [|by apply hash_spec]. unfold sha256_hash, digest. by rewrite Hk. }
  rewrite Hh. cbn [mbind option_bind]. pose proof (length_digest data) as Hd.
  destruct (find_up _ 0 32) as [i|] eqn:Hfu.
  - apply find_up_Some in Hfu as (_ & Hne & _). rewrite decide_False; [done|].
    intros ->. by rewrite Z.eqb_refl in Hne.
  - rewrite decide_True; [done|]. symmetry. apply nthZ_list_eq; [congruence|].
    intros i Hi. pose proof (proj1 (find_up_None _ _ _) Hfu i) as Hn. cbn beta in Hn.
    apply negb_false_iff, Z.eqb_eq in Hn; [done|]. rewrite Hd in Hi. lia.
Qed.

Definition demo_klmd (st : list Z) (bits : Z) (d : list Z) : list Z :=
  absorb (length (pad d) / 64) st (pad d).

Lemma verify_exact_witness :
  sha256_verify true demo_klmd 3 false [97; 98; 99] (replicate 32 0) =
    Some (if decide (replicate 32 0 = digest [97; 98; 99]) then Expected tt
          else Unexpected (from_crypto crypto_hash_mismatch)).
Proof.
  apply (verify_exact true demo_klmd 3 [97; 98; 99] (replicate 32 0)).
  - reflexivity.
  - simpl. lia.
  - vm_compute. reflexivity.
  - reflexivity.
Defined.

(** FIPS 180-4 test vectors: the empty message, a one-block and a two-block
    message through the streaming interface give the published digests. *)
Theorem fips_vectors :
  let hash d := sha256_hash false (fun _ _ _ => []) (length d) false d in
  hash [] = Some (Expected (concat (map word_bytes
    [0xe3b0c442; 0x98fc1c14; 0x9afbf4c8; 0x996fb924;
     0x27ae41e4; 0x649b934c; 0xa495991b; 0x7852b855]))) /\
  hash [97; 98; 99] = Some (Expected (concat (map word_bytes
    [0xba7816bf; 0x8f01cfea; 0x414140de; 0x5dae2223;
     0xb00361a3; 0x96177a9c; 0xb410ff61; 0xf20015ad]))) /\
  hash [97; 98; 99; 100; 98; 99; 100; 101; 99; 100; 101; 102; 100; 101; 102; 103;
        101; 102; 103; 104; 102; 103; 104; 105; 103; 104; 105; 106; 104; 105; 106; 107;
        105; 106; 107; 108; 106; 107; 108; 109; 107; 108; 109; 110; 108; 109; 110; 111;
        109; 110; 111; 112; 110; 111; 112; 113] = Some (Expected (concat (map word_bytes
    [0x248d6a61; 0xd20638b8; 0xe5c02693; 0x0c3e6039;
     0xa33ce459; 0x64ff2167; 0xf6ecedd4; 0x19db06c1]))).
Proof. vm_compute. split_and!; reflexivity. Qed.

(** An open context given 4 GiB or more in one span never returns: the loop
    takes the remaining length modulo 2^32, so it cannot move past a positive
    multiple of 2^32. *)
Theorem update_diverges_at_4GiB ctx data :
  finalized ctx = false -> 0 <= buf_len ctx <= 64 ->
  2 ^ 32 <= Z.of_nat (length data) <= (U64_MAX - bit_count ctx) / 8 ->
  forall fuel, sha256_update fuel ctx false data = None.
Proof.
  intros Ho Hb Hn fuel. unfold sha256_update. rewrite Ho.
  rewrite (proj2 (Z.eqb_neq _ _)) by lia. cbn [andb negb].
  rewrite (proj2 (Z.ltb_ge _ _)) by lia. by rewrite update_loop_stuck by (simpl; lia).
Qed.

Lemma update_diverges_at_4GiB_witness :
  forall fuel, sha256_update fuel (sha256_init ctx_default) false
    (replicate (Z.to_nat 4294967296) 0) = None.
Proof.
  apply (update_diverges_at_4GiB (sha256_init ctx_default)
    (replicate (Z.to_nat 4294967296) 0)).
  - reflexivity.
  - simpl. lia.
  - rewrite length_replicate, Z2Nat.id by lia. vm_compute. split; congruence.
Defined.

(** A finalised context refuses further updates and a second finalisation, and
    so does an update that would overflow the 64-bit bit counter; the context
    is left as it is. *)
Theorem sha256_refusals ctx fuel null data :
  finalized ctx = true \/
  (U64_MAX - bit_count ctx) / 8 < Z.of_nat (length data) /\ data <> [] ->
  sha256_update fuel ctx null data =
    Some (Unexpected (from_crypto crypto_invalid_input), ctx) /\
  (finalized ctx = true ->
   sha256_final ctx = (Unexpected (from_crypto crypto_invalid_input), ctx)).
Proof.
  intros H. split; [|by unfold sha256_final; intros ->].
  unfold sha256_update. destruct (finalized ctx); [done|].
  destruct H as [?|[Hl Hne]]; [done|].
  rewrite (proj2 (Z.eqb_neq _ 0)) by (destruct data; [done|simpl; lia]).
  destruct (null && _); [done|]. by rewrite (proj2 (Z.ltb_lt _ _)).
Qed.

Lemma sha256_refusals_witness :
  sha256_update 5 (sha256_final (sha256_init ctx_default)).2 false [1] =
    Some (Unexpected (from_crypto crypto_invalid_input),
          (sha256_final (sha256_init ctx_default)).2).
Proof.
  apply (sha256_refusals (sha256_final (sha256_init ctx_default)).2 5 false [1]).
  left. vm_compute. reflexivity.
Defined.
