(* ===== verification/Numa.v ===== *)
(** * NUMA topology and placement

    Models [zxfoundation/memory/numa.zcomponent] ([types.cxxm], [core.cxx]) in
    full: building the sixteen-entry node table and the CPU map from the boot
    loader's memory and CPU records, the watermarks, the distance matrix, the
    queries, and the placement policy.  The configured number of CPUs
    ([CONFIG_ZX_MAX_CPUS], set by the build) is an argument. *)

From S2P Require Import Prelude Errors.

Definition NUMA_PAGE_SHIFT : Z := 12.
Definition NUMA_PAGE_SIZE : Z := 4096.
Definition MAX_NUMA_NODES : Z := 16.
Definition NUMA_NODE_ANY : Z := 255.
Definition NUMA_NODE_BOOT : Z := 0.
Definition NUMA_DRAWER_UNKNOWN : Z := 255.

Inductive node_state := ns_offline | ns_online | ns_degraded | ns_draining.
Inductive fallback_mode := fm_local_first | fm_strict_local | fm_interleave | fm_emergency_any.
Inductive topology_source := ts_none | ts_zxfl_memory_map | ts_zxfl_cpu_map | ts_synthetic_single_node.
Inductive slit_source := sl_uninitialized | sl_stsi | sl_synthetic | sl_degraded.

#[global] Instance node_state_eq_dec : EqDecision node_state.
Proof. solve_decision. Defined.
#[global] Instance fallback_mode_eq_dec : EqDecision fallback_mode.
Proof. solve_decision. Defined.
#[global] Instance topology_source_eq_dec : EqDecision topology_source.
Proof. solve_decision. Defined.
#[global] Instance slit_source_eq_dec : EqDecision slit_source.
Proof. solve_decision. Defined.

Record node_topology := NodeTopology {
  nt_node_id : Z;
  nt_drawer_id : Z;
  nt_state : node_state;
  nt_source : topology_source;
  nt_phys_start : Z;
  nt_phys_end : Z;
  nt_free_pages : Z;
  nt_low : Z;
  nt_high : Z;
  nt_cpu_count : Z
}.

(** [node_topology{}]. *)
Definition node_default : node_topology :=
  NodeTopology NUMA_NODE_BOOT NUMA_DRAWER_UNKNOWN ns_offline ts_none 0 0 0 0 0 0.

Record allocation_policy := AllocationPolicy {
  preferred_node : Z;
  ap_fallback : fallback_mode;
  require_dma31 : bool;
  allow_remote : bool
}.

Record placement_result := PlacementResult {
  selected_node : Z;
  fallback_distance : Z;
  pr_remote : bool;
  strict_violation : bool
}.

(** The boot records the topology is built from. *)
Record mem_region := MemRegion {
  mr_base : Z; mr_length : Z; mr_type : Z; mr_numa_node : Z
}.
Record cpu_info := CpuInfo { ci_state : Z; ci_numa_node : Z; ci_drawer_id : Z }.

Definition ZXFL_MEM_MAP_MAX : Z := 16.
Definition ZXFL_MEM_USABLE : Z := 1.
Definition ZXFL_MEM_RESERVED : Z := 2.
Definition ZXFL_MEM_LOADER : Z := 3.
Definition ZXFL_CPU_UNKNOWN : Z := 0.

Record numa := Numa {
  g_nodes : list node_topology;
  g_cpu_to_node : list Z;
  g_slit : list (list Z);
  g_slit_source : slit_source;
  g_initialized : bool;
  g_generation : Z
}.

Definition node_id_is_valid (node_id : Z) : bool := node_id <? MAX_NUMA_NODES.

Definition node_state_is_allocatable (st : node_state) : bool :=
  match st with ns_online | ns_degraded => true | _ => false end.

Definition align_up_page (value : Z) : Z :=
  Z.land (u64 (value + (NUMA_PAGE_SIZE - 1))) (U64_MAX - (NUMA_PAGE_SIZE - 1)).

Definition align_down_page (value : Z) : Z :=
  Z.land value (U64_MAX - (NUMA_PAGE_SIZE - 1)).

Definition sanitize_node_id (node_id : Z) : Z :=
  if node_id_is_valid node_id then node_id else NUMA_NODE_BOOT.

Definition usable_pages_in_range (base length : Z) : Z :=
  if (length =? 0) || (U64_MAX - length <? base) then 0
  else
    let start := align_up_page base in
    let end_ := align_down_page (u64 (base + length)) in
    if end_ <=? start then 0 else Z.shiftr (end_ - start) NUMA_PAGE_SHIFT.

Definition nth_node (ns : list node_topology) (i : Z) : node_topology := nthZ node_default ns i.

(** [node_record]: claims the record on first use, then refines its drawer and
    its evidence; [None] is the null pointer. *)
Definition refresh_record (node_id drawer_id : Z) (source : topology_source)
    (n : node_topology) : node_topology :=
  let n :=
    if bool_decide (nt_source n = ts_none) && bool_decide (nt_state n = ns_offline)
    then NodeTopology node_id drawer_id (nt_state n) source U64_MAX 0 0 0 0 0 else n in
  let n :=
    if negb (drawer_id =? NUMA_DRAWER_UNKNOWN) && (nt_drawer_id n =? NUMA_DRAWER_UNKNOWN)
    then NodeTopology (nt_node_id n) drawer_id (nt_state n) (nt_source n) (nt_phys_start n)
           (nt_phys_end n) (nt_free_pages n) (nt_low n) (nt_high n) (nt_cpu_count n)
    else n in
  if bool_decide (source = ts_zxfl_memory_map) || bool_decide (nt_source n = ts_none)
  then NodeTopology (nt_node_id n) (nt_drawer_id n) (nt_state n) source (nt_phys_start n)
         (nt_phys_end n) (nt_free_pages n) (nt_low n) (nt_high n) (nt_cpu_count n)
  else n.

Definition node_record (ns : list node_topology) (node_id drawer_id : Z)
    (source : topology_source) : option node_topology :=
  if negb (node_id_is_valid node_id) then None
  else Some (refresh_record node_id drawer_id source (nth_node ns node_id)).

Definition apply_memory_region (r : mem_region) (ns : list node_topology) : list node_topology :=
  if negb (mr_type r =? ZXFL_MEM_USABLE) then ns
  else
    let pages := usable_pages_in_range (mr_base r) (mr_length r) in
    if pages =? 0 then ns
    else
      let start := align_up_page (mr_base r) in
      let end_ := align_down_page (u64 (mr_base r + mr_length r)) in
      let id := sanitize_node_id (mr_numa_node r) in
      match node_record ns id NUMA_DRAWER_UNKNOWN ts_zxfl_memory_map with
      | None => ns
      | Some n =>
          updZ ns id
            (NodeTopology (nt_node_id n) (nt_drawer_id n) ns_online (nt_source n)
               (if start <? nt_phys_start n then start else nt_phys_start n)
               (if nt_phys_end n <? end_ then end_ else nt_phys_end n)
               (u64 (nt_free_pages n + pages)) (nt_low n) (nt_high n) (nt_cpu_count n))
      end.

Definition apply_cpu_record (max_cpus logical_cpu : Z) (cpu : cpu_info)
    (st : list node_topology * list Z) : list node_topology * list Z :=
  let '(ns, cmap) := st in
  if max_cpus <=? logical_cpu then st
  else if ci_state cpu =? ZXFL_CPU_UNKNOWN then st
  else
    let id := sanitize_node_id (ci_numa_node cpu) in
    let cmap := updZ cmap logical_cpu id in
    match node_record ns id (ci_drawer_id cpu) ts_zxfl_cpu_map with
    | None => (ns, cmap)
    | Some n =>
        (updZ ns id
           (NodeTopology (nt_node_id n) (nt_drawer_id n)
              (if bool_decide (nt_state n = ns_offline) then ns_degraded else nt_state n)
              (nt_source n) (nt_phys_start n) (nt_phys_end n) (nt_free_pages n)
              (nt_low n) (nt_high n) (u32 (nt_cpu_count n + 1))), cmap)
    end.

Definition synthesize_boot_node (st : list node_topology * list Z) : list node_topology * list Z :=
  let '(ns, cmap) := st in
  match node_record ns NUMA_NODE_BOOT NUMA_DRAWER_UNKNOWN ts_synthetic_single_node with
  | None => st
  | Some n =>
      (updZ ns NUMA_NODE_BOOT
         (NodeTopology (nt_node_id n) (nt_drawer_id n) ns_degraded (nt_source n) 0 0 0
            (nt_low n) (nt_high n) (nt_cpu_count n)),
       updZ cmap 0 NUMA_NODE_BOOT)
  end.

(** A record that describes something. *)
Definition is_known (n : node_topology) : bool :=
  negb (bool_decide (nt_state n = ns_offline)) || negb (bool_decide (nt_source n = ts_none)).

Definition known_node_count (ns : list node_topology) : Z :=
  u8 (Z.of_nat (length (List.filter is_known ns))).

Definition finalize_node (n : node_topology) : node_topology :=
  if bool_decide (nt_source n = ts_none) then n
  else
    let start := if nt_phys_start n =? U64_MAX then 0 else nt_phys_start n in
    let st := if (nt_free_pages n =? 0) && bool_decide (nt_state n = ns_online)
              then ns_degraded else nt_state n in
    let low := nt_free_pages n / 64 in
    let low := if negb (nt_free_pages n =? 0) && (low =? 0) then 1 else low in
    let high := nt_free_pages n / 16 in
    let high := if high <? low then low else high in
    let high := if nt_free_pages n <? high then nt_free_pages n else high in
    NodeTopology (nt_node_id n) (nt_drawer_id n) st (nt_source n) start (nt_phys_end n)
      (nt_free_pages n) low high (nt_cpu_count n).

Definition finalize_topology (st : list node_topology * list Z) : list node_topology * list Z :=
  let ns := map finalize_node st.1 in
  if known_node_count ns =? 0 then synthesize_boot_node (ns, st.2) else (ns, st.2).

Definition synthetic_distance (a b : Z) : Z :=
  if a =? b then 10
  else if (a =? NUMA_NODE_BOOT) || (b =? NUMA_NODE_BOOT) then 20 else 40.

Definition synthetic_slit : list (list Z) :=
  map (fun a => map (synthetic_distance a) (seqZ 0 MAX_NUMA_NODES)) (seqZ 0 MAX_NUMA_NODES).

(** [reset_state]: everything but the generation. *)
Definition reset_state (max_cpus : Z) (s : numa) : numa :=
  Numa (replicate 16 node_default) (replicate (Z.to_nat max_cpus) NUMA_NODE_ANY)
    (replicate 16 (replicate 16 0)) sl_uninitialized false (g_generation s).

Definition apply_cpus (max_cpus : Z) (cpus : list cpu_info)
    (st : list node_topology * list Z) : list node_topology * list Z :=
  for_up (fun i st => apply_cpu_record max_cpus i (nthZ (CpuInfo 0 0 0) cpus i) st)
    0 (length cpus) st.

(** [init]: [regions = None] is a null memory-map pointer with a non-zero count
    [count]; otherwise the map holds the listed regions. *)
Definition numa_init (max_cpus : Z) (count : Z) (regions : option (list mem_region))
    (cpus : list cpu_info) (s : numa) : expected () * numa :=
  let s := reset_state max_cpus s in
  if (ZXFL_MEM_MAP_MAX <? count) || (max_cpus <? Z.of_nat (length cpus)) then
    (Unexpected (from_generic out_of_range), s)
  else
    match regions with
    | None =>
        if negb (count =? 0) then (Unexpected (from_generic invalid_arg), s)
        else
          let '(ns, cmap) := finalize_topology (apply_cpus max_cpus cpus (g_nodes s, g_cpu_to_node s)) in
          (Expected tt, Numa ns cmap synthetic_slit sl_synthetic true (u64 (g_generation s + 1)))
    | Some rs =>
        let ns := fold_left (fun ns r => apply_memory_region r ns) (take (Z.to_nat count) rs) (g_nodes s) in
        let '(ns, cmap) := finalize_topology (apply_cpus max_cpus cpus (ns, g_cpu_to_node s)) in
        (Expected tt, Numa ns cmap synthetic_slit sl_synthetic true (u64 (g_generation s + 1)))
    end.

(** ** Queries *)

Definition node_count (s : numa) : Z := known_node_count (g_nodes s).

Definition has_loader_memory_evidence (s : numa) : bool :=
  existsb (fun n => bool_decide (nt_source n = ts_zxfl_memory_map)) (g_nodes s).

Definition uses_synthetic_fallback (s : numa) : bool :=
  existsb (fun n => bool_decide (nt_source n = ts_synthetic_single_node)) (g_nodes s).

Definition node_at (s : numa) (node_id : Z) : expected node_topology :=
  if negb (g_initialized s) then Unexpected (from_generic uninitialized)
  else if negb (node_id_is_valid node_id) then Unexpected (from_generic out_of_range)
  else
    let n := nth_node (g_nodes s) node_id in
    if bool_decide (nt_state n = ns_offline) && bool_decide (nt_source n = ts_none)
    then Unexpected (from_generic not_found) else Expected n.

(** The test of the [node_for_phys] loop. *)
Definition node_holds (s : numa) (phys i : Z) : bool :=
  let n := nth_node (g_nodes s) i in
  node_state_is_allocatable (nt_state n) && (nt_phys_start n <=? phys) && (phys <? nt_phys_end n).

Definition node_for_phys (s : numa) (phys : Z) : expected Z :=
  if negb (g_initialized s) then Unexpected (from_generic uninitialized)
  else match find_up (node_holds s phys) 0 16 with
       | Some i => Expected i
       | None => Unexpected (from_generic not_found)
       end.

Definition node_for_pfn (s : numa) (pfn : Z) : expected Z :=
  if Z.shiftr U64_MAX NUMA_PAGE_SHIFT <? pfn then Unexpected (from_generic out_of_range)
  else node_for_phys s (u64 (Z.shiftl pfn NUMA_PAGE_SHIFT)).

Definition node_for_cpu (max_cpus : Z) (s : numa) (cpu_id : Z) : expected Z :=
  if negb (g_initialized s) then Unexpected (from_generic uninitialized)
  else if max_cpus <=? cpu_id then Unexpected (from_generic out_of_range)
  else
    let n := nthZ 0 (g_cpu_to_node s) cpu_id in
    if n =? NUMA_NODE_ANY then Expected NUMA_NODE_BOOT else Expected n.

(** ** Placement policy *)

(** Above its low watermark. *)
Definition comfortable (s : numa) (i : Z) : bool :=
  let n := nth_node (g_nodes s) i in
  node_state_is_allocatable (nt_state n) && (nt_low n <? nt_free_pages n).

Definition candidate (preferred distance : Z) : Z := (preferred + distance) mod MAX_NUMA_NODES.

Definition has_memory (s : numa) (i : Z) : bool :=
  let n := nth_node (g_nodes s) i in
  node_state_is_allocatable (nt_state n) && negb (nt_free_pages n =? 0).

Definition resolve_policy (s : numa) (policy : allocation_policy) (local_node : Z)
    : expected placement_result :=
  if negb (g_initialized s) then Unexpected (from_generic uninitialized)
  else
    let preferred :=
      if preferred_node policy =? NUMA_NODE_ANY then
        if node_id_is_valid local_node then local_node else NUMA_NODE_BOOT
      else preferred_node policy in
    if negb (node_id_is_valid preferred) then Unexpected (from_generic out_of_range)
    else if comfortable s preferred then Expected (PlacementResult preferred 0 false false)
    else if bool_decide (ap_fallback policy = fm_strict_local) || negb (allow_remote policy)
    then Unexpected (from_memory mem_zone_exhausted)
    else
      match find_up (fun d => comfortable s (candidate preferred d)) 1 16 with
      | Some d =>
          let c := candidate preferred d in
          Expected (PlacementResult c d (negb (c =? preferred)) false)
      | None =>
          if bool_decide (ap_fallback policy = fm_emergency_any) then
            match find_up (has_memory s) 0 16 with
            | Some c =>
                Expected (PlacementResult c ((c + MAX_NUMA_NODES - preferred) mod MAX_NUMA_NODES)
                            (negb (c =? preferred)) false)
            | None => Unexpected (from_memory mem_zone_exhausted)
            end
          else Unexpected (from_memory mem_zone_exhausted)
      end.

(** ** Distances *)

Definition slit_install (matrix : list (list Z)) (stsi_ok : bool) (s : numa) : numa :=
  Numa (g_nodes s) (g_cpu_to_node s) matrix (if stsi_ok then sl_stsi else sl_degraded)
    (g_initialized s) (g_generation s).

Definition slit_load_synthetic (s : numa) : numa :=
  Numa (g_nodes s) (g_cpu_to_node s) synthetic_slit sl_synthetic (g_initialized s) (g_generation s).

Definition node_distance (s : numa) (a b : Z) : Z :=
  if (MAX_NUMA_NODES <=? a) || (MAX_NUMA_NODES <=? b) then 255
  else nthZ 0 (nthZ [] (g_slit s) a) b.

Definition node_of_cpu (max_cpus : Z) (s : numa) (cpu_id : Z) : Z :=
  if max_cpus <=? cpu_id then NUMA_NODE_BOOT
  else
    let n := nthZ 0 (g_cpu_to_node s) cpu_id in
    if n =? NUMA_NODE_ANY then NUMA_NODE_BOOT else n.

Definition cpu_distance (max_cpus : Z) (s : numa) (cpu_a cpu_b : Z) : Z :=
  node_distance s (node_of_cpu max_cpus s cpu_a) (node_of_cpu max_cpus s cpu_b).

Definition slit_source_kind (s : numa) : Z :=
  match g_slit_source s with
  | sl_uninitialized => 0 | sl_stsi => 1 | sl_synthetic => 2 | sl_degraded => 3
  end.

(** ** Page arithmetic *)

Lemma align_down_spec v : fits 64 v -> align_down_page v = 4096 * (v / 4096).
Proof. apply land_page_mask. Qed.

Lemma align_up_spec v : fits 64 (v + 4095) -> align_up_page v = 4096 * ((v + 4095) / 4096).
Proof.
  intros Hv. unfold align_up_page. change (NUMA_PAGE_SIZE - 1) with 4095.
  rewrite u64_small by done. by apply land_page_mask.
Qed.

(** A boot region whose extent is representable. *)
Definition region_ok (r : mem_region) : Prop :=
  0 <= mr_base r /\ 0 <= mr_length r /\ mr_base r + mr_length r <= U64_MAX /\
  mr_base r + 4095 <= U64_MAX.

(** The first and the last-plus-one whole page of a region. *)
Definition region_first (r : mem_region) : Z := 4096 * ((mr_base r + 4095) / 4096).
Definition region_end (r : mem_region) : Z := 4096 * ((mr_base r + mr_length r) / 4096).

Lemma usable_pages_spec r :
  region_ok r ->
  usable_pages_in_range (mr_base r) (mr_length r) =
  Z.max 0 ((region_end r - region_first r) / 4096).
Proof.
  intros (Hb & Hl & He & Hs). unfold usable_pages_in_range, region_end, region_first.
  rewrite u64_small by solve_u. rewrite align_up_spec by solve_u. rewrite align_down_spec by solve_u.
  unfold NUMA_PAGE_SHIFT. rewrite Z.shiftr_div_pow2 by lia. change (2 ^ 12) with 4096.
  destruct (Z.eqb_spec (mr_length r) 0) as [E|E]; cbn [orb].
  { rewrite E. symmetry. apply Z.max_l. lia. }
  rewrite (proj2 (Z.ltb_ge _ _)) by lia. destruct (Z.leb_spec (4096 * ((mr_base r + mr_length r) / 4096)) (4096 * ((mr_base r + 4095) / 4096))); lia.
Qed.

(** ** The node table during initialisation *)

Definition table_wf (ns : list node_topology) : Prop := length ns = 16%nat.

(** Node [i] accounts for a range: it is allocatable and spans it. *)
Definition spans (ns : list node_topology) (i lo hi : Z) : Prop :=
  node_state_is_allocatable (nt_state (nth_node ns i)) = true /\
  nt_phys_start (nth_node ns i) <= lo /\ hi <= nt_phys_end (nth_node ns i).

Lemma sanitize_range v : 0 <= v -> 0 <= sanitize_node_id v < 16.
Proof.
  intros Hv. unfold sanitize_node_id, node_id_is_valid, MAX_NUMA_NODES, NUMA_NODE_BOOT.
  destruct (Z.ltb_spec v 16); lia.
Qed.

(** Refreshing a record never narrows an allocatable node. *)
Lemma refresh_allocatable id dr src n :
  node_state_is_allocatable (nt_state n) = true ->
  let n' := refresh_record id dr src n in
  nt_state n' = nt_state n /\ nt_phys_start n' = nt_phys_start n /\
  nt_phys_end n' = nt_phys_end n.
Proof.
  intros Ha. unfold refresh_record. rewrite (bool_decide_false (nt_state n = ns_offline))
    by (intros E; by rewrite E in Ha). rewrite andb_false_r.
  repeat (case_match; simpl); done.
Qed.

Lemma apply_memory_region_wf r ns : table_wf ns -> table_wf (apply_memory_region r ns).
Proof.
  unfold table_wf, apply_memory_region. intros Hw.
  destruct (negb _); [done|]. destruct (_ =? 0); [done|].
  destruct (node_record _ _ _ _); [by rewrite length_updZ|done].
Qed.

Lemma nth_node_upd ns i j n :
  table_wf ns -> 0 <= i < 16 -> 0 <= j ->
  nth_node (updZ ns i n) j = if decide (i = j) then n else nth_node ns j.
Proof.
  unfold table_wf, nth_node. intros Hw Hi Hj. destruct (decide (i = j)) as [<-|Hne].
  - apply nthZ_updZ_eq. lia.
  - apply nthZ_updZ_ne; lia.
Qed.

(** Applying a region keeps what other regions established... *)
Lemma apply_memory_region_spans r ns i lo hi :
  table_wf ns -> 0 <= mr_numa_node r -> 0 <= i -> spans ns i lo hi ->
  spans (apply_memory_region r ns) i lo hi.
Proof.
  intros Hw Hn Hi Hs. unfold apply_memory_region.
  destruct (negb _); [done|]. destruct (_ =? 0); [done|].
  pose proof (sanitize_range (mr_numa_node r) Hn) as Hr.
  unfold node_record. destruct (negb (node_id_is_valid _)); [done|].
  unfold spans. rewrite nth_node_upd by done. destruct (decide (_ = i)) as [<-|]; [|done].
  destruct Hs as (Ha & Hlo & Hhi).
  destruct (refresh_allocatable (sanitize_node_id (mr_numa_node r)) NUMA_DRAWER_UNKNOWN
    ts_zxfl_memory_map _ Ha) as (E1 & E2 & E3). cbn [nt_state nt_phys_start nt_phys_end].
  rewrite E2, E3. split; [done|].
  destruct (Z.ltb_spec (align_up_page (mr_base r)) (nt_phys_start (nth_node ns (sanitize_node_id (mr_numa_node r)))));
  destruct (Z.ltb_spec (nt_phys_end (nth_node ns (sanitize_node_id (mr_numa_node r)))) (align_down_page (u64 (mr_base r + mr_length r)))); lia.
Qed.

(** ... and makes its own node span it. *)
Lemma apply_memory_region_own r ns :
  table_wf ns -> 0 <= mr_numa_node r -> region_ok r -> mr_type r = ZXFL_MEM_USABLE ->
  region_first r < region_end r ->
  spans (apply_memory_region r ns) (sanitize_node_id (mr_numa_node r)) (region_first r) (region_end r).
Proof.
  intros Hw Hn Hok Ht Hlt. unfold apply_memory_region.
  rewrite Ht, Z.eqb_refl, usable_pages_spec by done. cbn [negb].
  assert (Hp : 0 < (region_end r - region_first r) / 4096) by (unfold region_end, region_first in *; lia).
  rewrite (proj2 (Z.eqb_neq _ _)) by lia.
  pose proof (sanitize_range (mr_numa_node r) Hn) as Hr.
  unfold node_record, node_id_is_valid, MAX_NUMA_NODES. rewrite (proj2 (Z.ltb_lt _ _)) by lia. cbn [negb].
  unfold spans. rewrite nth_node_upd by (done || lia). rewrite decide_True by done.
  cbn [nt_state nt_phys_start nt_phys_end].
  destruct Hok as (Hb & Hl & He & Hs).
  rewrite align_up_spec by solve_u. rewrite u64_small by solve_u. rewrite align_down_spec by solve_u.
  fold (region_first r) (region_end r). split; [done|].
  split; case_match eqn:E; first [apply Z.ltb_lt in E|apply Z.ltb_ge in E]; lia.
Qed.

Lemma fold_regions_spans rs ns i lo hi :
  Forall (fun r => 0 <= mr_numa_node r) rs -> table_wf ns -> 0 <= i -> spans ns i lo hi ->
  spans (fold_left (fun ns r => apply_memory_region r ns) rs ns) i lo hi.
Proof.
  revert ns. induction rs as [|r rs IH]; intros ns Hf Hw Hi Hs; [done|].
  apply list.Forall_cons in Hf as [Hr Hf]. cbn [fold_left].
  apply IH; [done|by apply apply_memory_region_wf|done|by apply apply_memory_region_spans].
Qed.

Lemma fold_regions_wf rs ns :
  table_wf ns -> table_wf (fold_left (fun ns r => apply_memory_region r ns) rs ns).
Proof.
  revert ns. induction rs as [|r rs IH]; intros ns Hw; [done|]. cbn [fold_left].
  by apply IH, apply_memory_region_wf.
Qed.

Lemma fold_regions_own rs ns r :
  Forall (fun r => 0 <= mr_numa_node r) rs -> table_wf ns -> r ∈ rs ->
  region_ok r -> mr_type r = ZXFL_MEM_USABLE -> region_first r < region_end r ->
  spans (fold_left (fun ns r => apply_memory_region r ns) rs ns)
    (sanitize_node_id (mr_numa_node r)) (region_first r) (region_end r).
Proof.
  revert ns. induction rs as [|r' rs IH]; intros ns Hf Hw Hin Hok Ht Hlt;
    [by apply not_elem_of_nil in Hin|].
  apply list.Forall_cons in Hf as [Hr Hf]. cbn [fold_left].
  pose proof (apply_memory_region_wf r' ns Hw) as Hw'.
  apply elem_of_cons in Hin as [->|Hin]; [|by apply IH].
  apply fold_regions_spans; [done|done|apply sanitize_range; lia|].
  by apply apply_memory_region_own.
Qed.

(** The CPU map: every entry names a node of the table or none. *)
Definition cpu_map_wf (max_cpus : Z) (cmap : list Z) : Prop :=
  length cmap = Z.to_nat max_cpus /\ Forall (fun v => 0 <= v < 16 \/ v = NUMA_NODE_ANY) cmap.

Lemma apply_cpu_record_wf mc i c st :
  0 <= ci_numa_node c -> table_wf st.1 -> cpu_map_wf mc st.2 ->
  table_wf (apply_cpu_record mc i c st).1 /\ cpu_map_wf mc (apply_cpu_record mc i c st).2.
Proof.
  destruct st as [ns cmap]. cbn [fst snd]. intros Hn Hw [Hl Hf]. unfold apply_cpu_record.
  destruct (mc <=? i); [done|]. destruct (_ =? _); [done|].
  pose proof (sanitize_range _ Hn) as Hr.
  assert (Hc : cpu_map_wf mc (updZ cmap i (sanitize_node_id (ci_numa_node c)))).
  { split; [by rewrite length_updZ|]. apply Forall_insert; [done|by left]. }
  destruct (node_record _ _ _ _); cbn [fst snd]; [|done].
  unfold table_wf in *. by rewrite length_updZ.
Qed.

Lemma apply_cpu_record_spans mc j c st i lo hi :
  0 <= ci_numa_node c -> table_wf st.1 -> 0 <= i -> spans st.1 i lo hi ->
  spans (apply_cpu_record mc j c st).1 i lo hi.
Proof.
  destruct st as [ns cmap]. cbn [fst]. intros Hn Hw Hi Hs. unfold apply_cpu_record.
  destruct (mc <=? j); [done|]. destruct (_ =? _); [done|].
  pose proof (sanitize_range _ Hn) as Hr.
  unfold node_record. destruct (negb _); [done|]. cbn [fst].
  unfold spans. rewrite nth_node_upd by done. destruct (decide (_ = i)) as [<-|]; [|done].
  destruct Hs as (Ha & Hlo & Hhi).
  destruct (refresh_allocatable (sanitize_node_id (ci_numa_node c)) (ci_drawer_id c)
    ts_zxfl_cpu_map _ Ha) as (E1 & E2 & E3). cbn [nt_state nt_phys_start nt_phys_end].
  rewrite E1, E2, E3. case_bool_decide as E; [by rewrite E in Ha|done].
Qed.

Lemma finalize_node_spans n :
  node_state_is_allocatable (nt_state n) = true ->
  node_state_is_allocatable (nt_state (finalize_node n)) = true /\
  nt_phys_end (finalize_node n) = nt_phys_end n /\
  (nt_phys_start (finalize_node n) = nt_phys_start n \/
   nt_phys_start (finalize_node n) = 0 /\ nt_phys_start n = U64_MAX).
Proof.
  intros Ha. unfold finalize_node. case_bool_decide; [auto|].
  cbn [nt_state nt_phys_start nt_phys_end]. split_and!.
  - destruct (_ && _); done.
  - done.
  - destruct (Z.eqb_spec (nt_phys_start n) U64_MAX); auto.
Qed.

Lemma nth_node_map f ns i :
  table_wf ns -> 0 <= i < 16 -> nth_node (map f ns) i = f (nth_node ns i).
Proof.
  intros Hw Hi. unfold nth_node, nthZ, table_wf in *.
  rewrite (nth_indep _ node_default (f node_default)) by (rewrite length_map; lia).
  apply map_nth.
Qed.

Lemma nth_node_in ns i : table_wf ns -> 0 <= i < 16 -> In (nth_node ns i) ns.
Proof. unfold table_wf. intros Hw Hi. apply nth_In. lia. Qed.

Lemma known_count_zero ns i :
  table_wf ns -> 0 <= i < 16 -> is_known (nth_node ns i) = true -> known_node_count ns <> 0.
Proof.
  intros Hw Hi Hk. unfold known_node_count, u8, wrap. change (2 ^ 8) with 256.
  assert (Hin : In (nth_node ns i) (List.filter is_known ns))
    by (apply filter_In; split; [by apply nth_node_in|done]).
  pose proof (List.filter_length_le is_known ns) as Hle. unfold table_wf in Hw.
  destruct (List.filter is_known ns) as [|x l]; [done|]. cbn [length] in *.
  rewrite Z.mod_small by lia. lia.
Qed.

Lemma known_count_pos ns : known_node_count ns <> 0 -> 1 <= known_node_count ns.
Proof.
  unfold known_node_count, u8. pose proof (wrap_fits 8 (Z.of_nat (length (List.filter is_known ns)))).
  unfold fits in *. lia.
Qed.

Lemma finalize_topology_spans st i lo hi :
  table_wf st.1 -> 0 <= i < 16 -> 0 <= lo -> spans st.1 i lo hi ->
  spans (finalize_topology st).1 i lo hi.
Proof.
  intros Hw Hi Hlo (Ha & Hs & He). unfold finalize_topology.
  destruct (finalize_node_spans _ Ha) as (Ha' & He' & Hs').
  assert (Hk : known_node_count (map finalize_node st.1) <> 0).
  { apply (known_count_zero _ i); [unfold table_wf in *; by rewrite length_map|done|].
    rewrite nth_node_map by done. unfold is_known.
    destruct (nt_state (finalize_node (nth_node st.1 i))); done. }
  rewrite (proj2 (Z.eqb_neq _ _)) by done. cbn [fst]. unfold spans.
  rewrite nth_node_map by done. split; [done|]. rewrite He'. lia.
Qed.

Lemma apply_cpus_keeps mc cpus st (P : list node_topology * list Z -> Prop) :
  Forall (fun c => 0 <= ci_numa_node c) cpus -> P st ->
  (forall i c st, 0 <= ci_numa_node c -> P st -> P (apply_cpu_record mc i c st)) ->
  P (apply_cpus mc cpus st).
Proof.
  intros Hf H0 Hstep. unfold apply_cpus.
  apply (for_up_inv (fun _ st => P st)); [done|]. intros j a Hj Ha. apply Hstep; [|done].
  unfold nthZ. rewrite nth_lookup.
  destruct (cpus !! Z.to_nat j) as [c|] eqn:E; [|simpl; lia].
  simpl. eapply (Forall_lookup_1 _ _ _ _ Hf E).
Qed.

(** ** The records before and after finalisation *)

(** While the table is filled: a record without evidence is the default one, a
    record with evidence carries its own index, and no watermark is set yet. *)
Definition filling (i : Z) (n : node_topology) : Prop :=
  (nt_source n = ts_none -> n = node_default) /\
  (nt_source n <> ts_none -> nt_node_id n = i) /\
  nt_low n = 0 /\ nt_high n = 0 /\ fits 64 (nt_free_pages n).

(** Afterwards: watermarks ordered below the pages of the node. *)
Definition finalized (i : Z) (n : node_topology) : Prop :=
  (nt_source n = ts_none -> n = node_default) /\
  (nt_source n <> ts_none -> nt_node_id n = i) /\
  0 <= nt_low n <= nt_high n /\ nt_high n <= nt_free_pages n /\
  (nt_free_pages n <> 0 -> 0 < nt_low n).

Definition each_node (P : Z -> node_topology -> Prop) (ns : list node_topology) : Prop :=
  table_wf ns /\ forall i, 0 <= i < 16 -> P i (nth_node ns i).

Lemma each_node_upd P ns i n :
  each_node P ns -> 0 <= i < 16 -> P i n -> each_node P (updZ ns i n).
Proof.
  intros [Hw He] Hi Hn. split; [unfold table_wf in *; by rewrite length_updZ|].
  intros j Hj. rewrite nth_node_upd by (done || lia). destruct (decide (i = j)) as [<-|]; auto.
Qed.

Lemma refresh_filling i dr src n :
  src <> ts_none -> filling i n ->
  let n' := refresh_record i dr src n in filling i n' /\ nt_source n' <> ts_none.
Proof.
  intros Hsrc (H1 & H2 & H3 & H4 & H5). unfold refresh_record.
  destruct (decide (nt_source n = ts_none)) as [E|E].
  - rewrite (H1 E). destruct (negb (dr =? NUMA_DRAWER_UNKNOWN) && _); simpl;
      (destruct (bool_decide (src = ts_zxfl_memory_map)) eqn:Em; simpl;
       [|rewrite bool_decide_false by done; simpl]);
      (split; [split_and!; simpl; try done; vm_compute; split; congruence|done]).
  - rewrite (bool_decide_false (nt_source n = ts_none)) by done. cbn [andb].
    assert (Hid : nt_node_id n = i) by auto.
    destruct (negb (dr =? NUMA_DRAWER_UNKNOWN) && _); cbn [nt_source];
      rewrite (bool_decide_false (nt_source n = ts_none)) by done; rewrite orb_false_r;
      destruct (bool_decide (src = ts_zxfl_memory_map)); unfold filling;
      cbn [nt_source nt_node_id nt_low nt_high nt_free_pages]; (split; [split_and!; done|done]).
Qed.

Lemma apply_memory_region_filling r ns :
  0 <= mr_numa_node r -> each_node filling ns -> each_node filling (apply_memory_region r ns).
Proof.
  intros Hn He. unfold apply_memory_region. destruct (negb _); [done|]. destruct (_ =? 0); [done|].
  pose proof (sanitize_range _ Hn) as Hr. unfold node_record. destruct (negb _); [done|].
  apply each_node_upd; [done|done|].
  destruct (refresh_filling (sanitize_node_id (mr_numa_node r)) NUMA_DRAWER_UNKNOWN
    ts_zxfl_memory_map _ ltac:(done) (proj2 He _ Hr)) as [(H1 & H2 & H3 & H4 & H5) Hs].
  unfold filling. cbn [nt_source nt_node_id nt_low nt_high nt_free_pages].
  split_and!; try done; apply u64_fits.
Qed.

Lemma apply_cpu_record_filling mc j c st :
  0 <= ci_numa_node c -> each_node filling st.1 -> each_node filling (apply_cpu_record mc j c st).1.
Proof.
  destruct st as [ns cmap]. cbn [fst]. intros Hn He. unfold apply_cpu_record.
  destruct (mc <=? j); [done|]. destruct (_ =? _); [done|].
  pose proof (sanitize_range _ Hn) as Hr. unfold node_record. destruct (negb _); [done|].
  cbn [fst]. apply each_node_upd; [done|done|].
  destruct (refresh_filling (sanitize_node_id (ci_numa_node c)) (ci_drawer_id c)
    ts_zxfl_cpu_map _ ltac:(done) (proj2 He _ Hr)) as [(H1 & H2 & H3 & H4 & H5) Hs].
  unfold filling. cbn [nt_source nt_node_id nt_low nt_high nt_free_pages].
  split_and!; done.
Qed.

Lemma finalize_node_finalized i n : filling i n -> finalized i (finalize_node n).
Proof.
  intros (H1 & H2 & H3 & H4 & H5). unfold finalize_node. case_bool_decide as E.
  { rewrite (H1 E). split_and!; simpl; try done; try lia. }
  unfold finalized. cbn [nt_source nt_node_id nt_low nt_high nt_free_pages].
  unfold fits in H5. set (f := nt_free_pages n) in *.
  split; [done|]. split; [auto|].
  destruct (Z.eqb_spec f 0) as [E0|E0]; cbn [negb andb].
  - rewrite E0. change (0 / 64) with 0. change (0 / 16) with 0. simpl. lia.
  - destruct (Z.eqb_spec (f / 64) 0) as [El|El];
    [destruct (Z.ltb_spec (f / 16) 1)|destruct (Z.ltb_spec (f / 16) (f / 64))];
    match goal with |- context [if f <? ?h then _ else _] => destruct (Z.ltb_spec f h) end;
    lia.
Qed.

Lemma finalize_topology_wf mc st :
  each_node filling st.1 -> cpu_map_wf mc st.2 ->
  let st' := finalize_topology st in
  each_node finalized st'.1 /\ cpu_map_wf mc st'.2 /\ known_node_count st'.1 <> 0.
Proof.
  intros [Hw He] [Hl Hf]. unfold finalize_topology.
  assert (Hw' : table_wf (map finalize_node st.1)) by (unfold table_wf in *; by rewrite length_map).
  assert (Hfin : each_node finalized (map finalize_node st.1)).
  { split; [done|]. intros i Hi. rewrite nth_node_map by done. by apply finalize_node_finalized, He. }
  destruct (Z.eqb_spec (known_node_count (map finalize_node st.1)) 0) as [Hk|Hk]; cbn [fst snd];
    [|split_and!; done].
  unfold synthesize_boot_node, node_record.
  change (negb (node_id_is_valid NUMA_NODE_BOOT)) with false. cbn [fst snd].
  assert (H0 : 0 <= NUMA_NODE_BOOT < 16) by (unfold NUMA_NODE_BOOT; lia).
  assert (Hd : nth_node (map finalize_node st.1) NUMA_NODE_BOOT = node_default).
  { destruct (decide (is_known (nth_node (map finalize_node st.1) NUMA_NODE_BOOT) = true)) as [Hkn|Hkn];
      [by destruct (known_count_zero _ _ Hw' H0 Hkn)|].
    apply (proj2 Hfin _ H0). unfold is_known in Hkn. apply not_true_is_false, orb_false_iff in Hkn as [_ Hkn].
    apply negb_false_iff, bool_decide_eq_true in Hkn. done. }
  rewrite Hd. split_and!.
  - apply each_node_upd; [done|done|]. split_and!; simpl; (done || lia).
  - split; [by rewrite length_updZ|]. apply Forall_insert; [done|]. left. unfold NUMA_NODE_BOOT. lia.
  - apply (known_count_zero _ 0); [unfold table_wf in *; by rewrite length_updZ|lia|].
    rewrite nth_node_upd by (done || lia). reflexivity.
Qed.

Lemma fold_regions_filling rs ns :
  Forall (fun r => 0 <= mr_numa_node r) rs -> each_node filling ns ->
  each_node filling (fold_left (fun ns r => apply_memory_region r ns) rs ns).
Proof.
  revert ns. induction rs as [|r rs IH]; intros ns Hf He; [done|].
  apply list.Forall_cons in Hf as [Hr Hf]. cbn [fold_left].
  by apply IH, apply_memory_region_filling.
Qed.

Lemma reset_filling mc s : each_node filling (g_nodes (reset_state mc s)).
Proof.
  split; [reflexivity|]. intros i Hi. cbn [reset_state g_nodes]. unfold nth_node, nthZ.
  rewrite nth_lookup, (proj2 (lookup_replicate _ _ _ _)) by (split; [done|lia]).
  simpl. split_and!; simpl; try done; vm_compute; split; congruence.
Qed.

Lemma reset_cpu_map mc s : cpu_map_wf mc (g_cpu_to_node (reset_state mc s)).
Proof.
  split; [apply length_replicate|]. apply list.Forall_forall. intros v Hv.
  apply elem_of_replicate in Hv as [-> _]. by right.
Qed.

Lemma synthetic_slit_at a b :
  0 <= a < 16 -> 0 <= b < 16 -> nthZ 0 (nthZ [] synthetic_slit a) b = synthetic_distance a b.
Proof.
  intros Ha Hb. unfold synthetic_slit, nthZ.
  assert (Hs : forall k, 0 <= k < 16 -> seqZ 0 MAX_NUMA_NODES !! Z.to_nat k = Some k)
    by (intros k Hk; rewrite lookup_seqZ; unfold MAX_NUMA_NODES; lia).
  rewrite (nth_lookup_Some _ (Z.to_nat a) _ (map (synthetic_distance a) (seqZ 0 MAX_NUMA_NODES))).
  - apply nth_lookup_Some. rewrite list_lookup_fmap, Hs by done. done.
  - rewrite list_lookup_fmap, Hs by done. done.
Qed.

(** ** Claims *)

(** The ring of candidates visits every node. *)
Lemma candidate_0 p : 0 <= p < 16 -> candidate p 0 = p.
Proof. intros Hp. unfold candidate, MAX_NUMA_NODES. rewrite Z.add_0_r. by apply Z.mod_small. Qed.

Lemma candidate_range p d : 0 <= candidate p d < 16.
Proof. unfold candidate, MAX_NUMA_NODES. apply Z.mod_pos_bound. lia. Qed.

Lemma candidate_dist p i :
  0 <= p < 16 -> 0 <= i < 16 -> candidate p ((i + MAX_NUMA_NODES - p) mod MAX_NUMA_NODES) = i.
Proof.
  intros Hp Hi. unfold candidate, MAX_NUMA_NODES. lia.
Qed.

Lemma candidate_onto p i :
  0 <= p < 16 -> 0 <= i < 16 -> i <> p -> exists d, 1 <= d < 17 /\ candidate p d = i.
Proof.
  intros Hp Hi Hne. exists ((i + MAX_NUMA_NODES - p) mod MAX_NUMA_NODES).
  split; [unfold MAX_NUMA_NODES; lia|by apply candidate_dist].
Qed.

Section claims.
Context (max_cpus count : Z) (cpus : list cpu_info) (s0 : numa).
Context (cpus_ok : Forall (fun c => 0 <= ci_numa_node c) cpus).

(** The records [init] leaves when it succeeds, as one function of the regions. *)
Lemma numa_init_success regions :
  count <= ZXFL_MEM_MAP_MAX -> Z.of_nat (length cpus) <= max_cpus ->
  (regions = None -> count = 0) ->
  let rs := match regions with None => [] | Some rs => take (Z.to_nat count) rs end in
  let st := finalize_topology (apply_cpus max_cpus cpus
    (fold_left (fun ns r => apply_memory_region r ns) rs (g_nodes (reset_state max_cpus s0)),
     g_cpu_to_node (reset_state max_cpus s0))) in
  numa_init max_cpus count regions cpus s0 =
  (Expected tt, Numa st.1 st.2 synthetic_slit sl_synthetic true (u64 (g_generation s0 + 1))).
Proof.
  intros Hc Hl Hn rs st. unfold numa_init.
  rewrite (proj2 (Z.ltb_ge ZXFL_MEM_MAP_MAX count)), (proj2 (Z.ltb_ge max_cpus _)) by done. cbn [orb].
  unfold st, rs. destruct regions as [rs'|].
  - by destruct (finalize_topology _).
  - rewrite Hn by done. cbn [Z.eqb negb fold_left]. by destruct (finalize_topology _).
Qed.

Lemma init_filling rs :
  Forall (fun r => 0 <= mr_numa_node r) rs ->
  let st := apply_cpus max_cpus cpus
    (fold_left (fun ns r => apply_memory_region r ns) rs (g_nodes (reset_state max_cpus s0)),
     g_cpu_to_node (reset_state max_cpus s0)) in
  each_node filling st.1 /\ cpu_map_wf max_cpus st.2.
Proof.
  intros Hf. apply apply_cpus_keeps.
  - done.
  - split; [apply fold_regions_filling; [done|apply reset_filling]|apply reset_cpu_map].
  - intros i c st Hc [H1 H2]. split; [by apply apply_cpu_record_filling|].
    by apply apply_cpu_record_wf; [|apply H1|].
Qed.

End claims.

(** Initialisation accepts exactly the bounded, readable boot tables, and then
    leaves a usable topology: at least one known node; every record with evidence
    carries its own index and has watermarks with [low <= high <= free] (and a
    non-zero low mark on a node with memory); every CPU is mapped to a table entry
    or to none; the distance matrix is the symmetric 10/20/40 layout; and the
    generation has advanced.  A rejected boot table leaves the topology
    uninitialised. *)
Theorem numa_init_correct max_cpus count regions cpus s0 :
  Forall (fun c => 0 <= ci_numa_node c) cpus ->
  Forall (fun r => 0 <= mr_numa_node r) (default [] regions) ->
  let '(res, s) := numa_init max_cpus count regions cpus s0 in
  (res = Expected tt <->
     count <= ZXFL_MEM_MAP_MAX /\ Z.of_nat (length cpus) <= max_cpus /\
     (regions = None -> count = 0)) /\
  (g_initialized s = true <-> res = Expected tt) /\
  (res = Expected tt ->
     each_node finalized (g_nodes s) /\ cpu_map_wf max_cpus (g_cpu_to_node s) /\
     1 <= node_count s /\ g_generation s = u64 (g_generation s0 + 1) /\
     (forall a b, 0 <= a < 16 -> 0 <= b < 16 ->
        node_distance s a b = synthetic_distance a b /\
        node_distance s a b = node_distance s b a)).
Proof.
  intros Hcp Hf.
  destruct (decide (count <= ZXFL_MEM_MAP_MAX /\ Z.of_nat (length cpus) <= max_cpus /\
     (regions = None -> count = 0))) as [Hacc|Hrej].
  - destruct Hacc as (H1 & H2 & H3).
    rewrite (numa_init_success max_cpus count cpus s0 regions H1 H2 H3).
    destruct (init_filling max_cpus cpus s0 Hcp
      match regions with None => [] | Some rs => take (Z.to_nat count) rs end) as [Hfi Hcm].
    { destruct regions; [by apply Forall_take|done]. }
    destruct (finalize_topology_wf max_cpus _ Hfi Hcm) as (Hfin & Hcm' & Hk).
    split; [tauto|]. split; [done|]. intros _. cbn [g_nodes g_cpu_to_node g_generation].
    split_and!; [done|done| |done|].
    + by apply known_count_pos.
    + intros a b Ha Hb. unfold node_distance, MAX_NUMA_NODES. cbn [g_slit].
      rewrite (proj2 (Z.leb_gt 16 a)), (proj2 (Z.leb_gt 16 b)) by lia. cbn [orb].
      rewrite !synthetic_slit_at by done. split; [done|]. unfold synthetic_distance, NUMA_NODE_BOOT.
      rewrite (Z.eqb_sym b a), (orb_comm (b =? 0)). done.
  - unfold numa_init. destruct (Z.ltb_spec ZXFL_MEM_MAP_MAX count); cbn [orb].
    { split; [split; [done|intros; lia]|]. done. }
    destruct (Z.ltb_spec max_cpus (Z.of_nat (length cpus))); cbn [orb].
    { split; [split; [done|intros; lia]|]. done. }
    destruct regions as [rs|]; [destruct Hrej; split_and!; [done|done|done]|].
    destruct (Z.eqb_spec count 0); [destruct Hrej; split_and!; done|]. cbn [negb].
    split; [split; [done|intros (_ & _ & H'); by destruct (n (H' eq_refl))]|]. done.
Qed.

Definition demo_region : mem_region := MemRegion 1048577 4194304 ZXFL_MEM_USABLE 3.
Definition demo_cpu : cpu_info := CpuInfo 1 3 7.
Definition numa_zero : numa := Numa [] [] [] sl_uninitialized false 0.
Definition demo_numa : numa := (numa_init 4 1 (Some [demo_region]) [demo_cpu] numa_zero).2.

Lemma numa_init_correct_witness :
  g_initialized demo_numa = true /\ node_count demo_numa = 1 /\
  node_distance demo_numa 0 3 = 20.
Proof.
  pose proof (numa_init_correct 4 1 (Some [demo_region]) [demo_cpu] numa_zero
    ltac:(repeat constructor; simpl; lia) ltac:(repeat constructor; simpl; lia)) as H.
  unfold demo_numa. vm_compute in H |- *. destruct H as (H1 & H2 & H3).
  split; [reflexivity|]. split; reflexivity.
Defined.

(** After a successful initialisation every page of every usable boot region
    resolves to a node: the lowest-numbered allocatable node whose recorded range
    holds the page, which is the region's own node or a lower-numbered one. *)
Theorem node_for_phys_complete max_cpus count rs cpus s0 s r phys :
  Forall (fun c => 0 <= ci_numa_node c) cpus -> Forall (fun r => 0 <= mr_numa_node r) rs ->
  numa_init max_cpus count (Some rs) cpus s0 = (Expected tt, s) ->
  r ∈ take (Z.to_nat count) rs -> region_ok r -> mr_type r = ZXFL_MEM_USABLE ->
  region_first r <= phys < region_end r ->
  exists i, node_for_phys s phys = Expected i /\
    0 <= i <= sanitize_node_id (mr_numa_node r) /\ node_holds s phys i = true /\
    (forall j, 0 <= j < i -> node_holds s phys j = false).
Proof.
  intros Hcp Hf Hinit Hin Hok Ht Hp.
  assert (Hacc : count <= ZXFL_MEM_MAP_MAX /\ Z.of_nat (length cpus) <= max_cpus).
  { unfold numa_init in Hinit. destruct (Z.ltb_spec ZXFL_MEM_MAP_MAX count); cbn [orb] in Hinit; [done|].
    destruct (Z.ltb_spec max_cpus (Z.of_nat (length cpus))); cbn [orb] in Hinit; [done|]. done. }
  rewrite (numa_init_success max_cpus count cpus s0 (Some rs)) in Hinit by (done || apply Hacc).
  injection Hinit as Es.
  assert (Hf' : Forall (fun r => 0 <= mr_numa_node r) (take (Z.to_nat count) rs)) by (by apply Forall_take).
  assert (Hrn : 0 <= mr_numa_node r) by (eapply (proj1 (list.Forall_forall _ _)) in Hf'; [exact Hf'|done]).
  pose proof (sanitize_range _ Hrn) as Hsr.
  pose proof (reset_filling max_cpus s0) as [Hw0 _].
  assert (Hsp : spans (g_nodes s) (sanitize_node_id (mr_numa_node r)) (region_first r) (region_end r)).
  { rewrite <- Es. cbn [g_nodes]. apply finalize_topology_spans.
    - apply (init_filling max_cpus cpus s0 Hcp _ Hf').
    - done.
    - unfold region_first. destruct Hok as (? & _). lia.
    - match goal with |- spans (apply_cpus ?m ?c ?w).1 _ _ _ =>
        pose proof (apply_cpus_keeps m c w (fun st => table_wf st.1 /\
          spans st.1 (sanitize_node_id (mr_numa_node r)) (region_first r) (region_end r))) as Hk end.
      apply Hk; [done| |].
      + split; [by apply fold_regions_wf|]. apply fold_regions_own; try done. lia.
      + intros i c st Hc [Hw Hs]. split; [|apply apply_cpu_record_spans; (done || lia)].
        destruct st as [ns cm]. unfold apply_cpu_record. cbn [fst] in *.
        destruct (max_cpus <=? i); [done|]. destruct (_ =? _); [done|].
        destruct (node_record _ _ _ _); [|done]. cbn [fst]. unfold table_wf in *. by rewrite length_updZ. }
  assert (Hh : node_holds s phys (sanitize_node_id (mr_numa_node r)) = true).
  { unfold node_holds. destruct Hsp as (-> & H1 & H2). cbn [andb].
    rewrite (proj2 (Z.leb_le _ _)), (proj2 (Z.ltb_lt _ _)) by lia. done. }
  assert (Hini : g_initialized s = true) by (by rewrite <- Es).
  unfold node_for_phys. rewrite Hini. cbn [negb].
  destruct (find_up (node_holds s phys) 0 16) as [i|] eqn:E.
  - apply find_up_Some in E as (Hi & Hhi & Hlt). exists i. split_and!; [done|lia| |done|].
    + destruct (decide (i <= sanitize_node_id (mr_numa_node r))); [done|].
      rewrite Hlt in Hh by lia. done.
    + intros j Hj. apply Hlt. lia.
  - rewrite find_up_None in E. rewrite E in Hh by lia. done.
Qed.

Lemma node_for_phys_complete_witness : node_for_phys demo_numa 2097152 = Expected 3.
Proof.
  destruct (node_for_phys_complete 4 1 [demo_region] [demo_cpu] numa_zero demo_numa demo_region 2097152)
    as (i & E & Hi & Hh & _).
  - repeat constructor; simpl; lia.
  - repeat constructor; simpl; lia.
  - vm_compute. reflexivity.
  - left.
  - unfold region_ok, U64_MAX. simpl. lia.
  - reflexivity.
  - vm_compute. split; congruence.
  - rewrite E. f_equal. assert (Hc : i = 0 \/ i = 1 \/ i = 2 \/ i = 3) by (change (sanitize_node_id (mr_numa_node demo_region)) with 3 in Hi; lia).
    destruct Hc as [->|[->|[->| ->]]]; vm_compute in Hh; congruence.
Defined.

(** The placement resolver is exact.  It answers the preferred node (distance 0,
    not remote) when that node is above its low watermark; otherwise, unless the
    policy is strictly local or forbids remote memory, the first comfortable node
    in ring order from the preferred one; otherwise, for emergency requests only,
    the lowest-numbered node with any memory.  It reports zone exhaustion exactly
    when the policy admits no such node. *)
Theorem resolve_policy_exact s policy local_node :
  g_initialized s = true -> 0 <= local_node -> 0 <= preferred_node policy ->
  let preferred :=
    if preferred_node policy =? NUMA_NODE_ANY then
      if node_id_is_valid local_node then local_node else NUMA_NODE_BOOT
    else preferred_node policy in
  let may_roam := ap_fallback policy <> fm_strict_local /\ allow_remote policy = true in
  match resolve_policy s policy local_node with
  | Expected r =>
      0 <= preferred < 16 /\ 0 <= selected_node r < 16 /\
      pr_remote r = negb (selected_node r =? preferred) /\
      selected_node r = candidate preferred (fallback_distance r) /\
      (pr_remote r = true -> may_roam) /\
      (comfortable s (selected_node r) = true /\
         (forall d, 0 <= d < fallback_distance r -> comfortable s (candidate preferred d) = false)
       \/ (ap_fallback policy = fm_emergency_any /\ has_memory s (selected_node r) = true /\
           (forall i, 0 <= i < 16 -> comfortable s i = false) /\
           (forall i, 0 <= i < selected_node r -> has_memory s i = false)))
  | Unexpected e =>
      (e = from_generic out_of_range /\ 16 <= preferred) \/
      (e = from_memory mem_zone_exhausted /\ 0 <= preferred < 16 /\
       comfortable s preferred = false /\
       (may_roam -> (forall i, 0 <= i < 16 -> comfortable s i = false) /\
          (ap_fallback policy = fm_emergency_any ->
             forall i, 0 <= i < 16 -> has_memory s i = false)))
  end.
Proof.
  intros Hini Hln Hpn preferred may_roam. unfold resolve_policy. rewrite Hini. cbn [negb].
  fold preferred. unfold node_id_is_valid, MAX_NUMA_NODES.
  assert (Hp0 : 0 <= preferred).
  { unfold preferred, NUMA_NODE_BOOT. repeat case_match; lia. }
  destruct (Z.ltb_spec preferred 16) as [Hp|Hp]; cbn [negb]; [|left; split; [done|lia]].
  destruct (comfortable s preferred) eqn:Hc.
  { split_and!; cbn [selected_node fallback_distance pr_remote]; [lia|lia|lia|lia| | | |].
    - by rewrite Z.eqb_refl.
    - symmetry. by apply candidate_0.
    - done.
    - left. split; [done|]. intros; lia. }
  destruct (bool_decide (ap_fallback policy = fm_strict_local) || negb (allow_remote policy)) eqn:Hroam.
  { right. split_and!; [done|lia|lia|done|]. intros [Hs Ha]. rewrite Ha, bool_decide_false in Hroam by done. done. }
  assert (Hmr : may_roam).
  { apply orb_false_iff in Hroam as [H1 H2]. apply bool_decide_eq_false in H1.
    apply negb_false_iff in H2. done. }
  destruct (find_up _ 1 16) as [d|] eqn:Hd.
  { apply find_up_Some in Hd as (Hr & Hcd & Hlt).
    pose proof (candidate_range preferred d).
    split_and!; cbn [selected_node fallback_distance pr_remote]; [lia|lia|lia|lia|done|done|done|].
    left. split; [done|]. intros d' Hd'. destruct (decide (d' = 0)) as [->|].
    - by rewrite candidate_0.
    - apply Hlt. lia. }
  assert (Hnone : forall i, 0 <= i < 16 -> comfortable s i = false).
  { intros i Hi. rewrite find_up_None in Hd. destruct (decide (i = preferred)) as [->|]; [done|].
    destruct (candidate_onto preferred i) as (d & Hdr & <-); [lia|done|done|]. apply Hd. lia. }
  destruct (bool_decide_reflect (ap_fallback policy = fm_emergency_any)) as [Hem|Hem].
  - destruct (find_up (has_memory s) 0 16) as [c|] eqn:Hf.
    + apply find_up_Some in Hf as (Hr & Hm & Hlt).
      split_and!; cbn [selected_node fallback_distance pr_remote]; [lia|lia|lia|lia|done| |done|].
      * symmetry. apply candidate_dist; lia.
      * right. split_and!; [done|done|done|]. intros i Hi. apply Hlt. lia.
    + rewrite find_up_None in Hf. right. split_and!; [done|lia|lia|done|]. intros _.
      split; [done|]. intros _ i Hi. apply Hf. lia.
  - right. split_and!; [done|lia|lia|done|]. intros _. split; [done|]. done.
Qed.

Lemma resolve_policy_exact_witness : exists r,
  resolve_policy demo_numa (AllocationPolicy 0 fm_local_first false true) 0 = Expected r /\
  selected_node r = 3 /\ 0 <= selected_node r < 16.
Proof.
  pose proof (resolve_policy_exact demo_numa (AllocationPolicy 0 fm_local_first false true) 0
    ltac:(vm_compute; reflexivity) ltac:(lia) ltac:(simpl; lia)) as H.
  exists (PlacementResult 3 3 true false). split; [vm_compute; reflexivity|].
  split; [reflexivity|]. exact (proj1 (proj2 H)).
Defined.

(** Rounding up wraps at the top of the address space: a one-byte region at
    [2^64 - 4095], whose end is representable, is counted as [2^52 - 1] pages,
    and its node is recorded as spanning all of physical memory. *)
Theorem usable_pages_wraps :
  usable_pages_in_range (2 ^ 64 - 4095) 1 = 2 ^ 52 - 1 /\
  let ns := apply_memory_region (MemRegion (2 ^ 64 - 4095) 1 ZXFL_MEM_USABLE 0) (replicate 16 node_default) in
  nt_phys_start (nth_node ns 0) = 0 /\ nt_phys_end (nth_node ns 0) = 2 ^ 64 - 4096.
Proof. split; [|split]; vm_compute; reflexivity. Qed.
