(* ===== verification/Dlist.v ===== *)
(** * Doubly linked lists through memory

    The kernel threads its free lists and slab lists through the objects
    themselves: a node is an address and a map gives the links (next,
    previous) stored there, with 0 for null.  [dlist] says which list a head
    pointer denotes; pushing at the head and unlinking any node act on it as
    [cons] and [delete]. *)

From S2P Require Import Prelude.

Definition node_at (m : gmap Z (Z * Z)) (p : Z) : Z * Z := default (0, 0) (m !! p).
Definition set_next (m : gmap Z (Z * Z)) (p v : Z) : gmap Z (Z * Z) :=
  <[p := (v, (node_at m p).2)]> m.
Definition set_prev (m : gmap Z (Z * Z)) (p v : Z) : gmap Z (Z * Z) :=
  <[p := ((node_at m p).1, v)]> m.

(** [l] is the list of blocks reachable from head [h], doubly linked. *)
Definition dlist (m : gmap Z (Z * Z)) (h : Z) (l : list Z) : Prop :=
  h = hd 0 l /\
  forall i x, l !! i = Some x ->
    x <> 0 /\
    node_at m x = (default 0 (l !! S i),
                   match i with O => 0 | S j => default 0 (l !! j) end).

Lemma dlist_ext m m' h l :
  (forall x, x ∈ l -> node_at m' x = node_at m x) -> dlist m h l -> dlist m' h l.
Proof.
  intros He [Hh Hl]. split; [done|]. intros i x Hx.
  rewrite He by (by eapply list_elem_of_lookup_2). by apply Hl.
Qed.

Lemma node_at_insert m p v q : node_at (<[p := v]> m) q = if decide (q = p) then v else node_at m q.
Proof.
  unfold node_at. rewrite lookup_insert. destruct (decide (p = q)) as [->|].
  - by rewrite decide_True.
  - by rewrite decide_False by congruence.
Qed.

Lemma node_at_set_prev m p v q :
  node_at (set_prev m p v) q = if decide (q = p) then ((node_at m p).1, v) else node_at m q.
Proof. apply node_at_insert. Qed.

Lemma node_at_set_next m p v q :
  node_at (set_next m p v) q = if decide (q = p) then (v, (node_at m p).2) else node_at m q.
Proof. apply node_at_insert. Qed.

(** The head pointer and the links determine the list. *)
Lemma dlist_inj m h l l' : dlist m h l -> dlist m h l' -> l = l'.
Proof.
  intros [Hh Hl] [Hh' Hl']. apply list_eq. intros i.
  assert (Hd : default 0 (l !! i) = default 0 (l' !! i)).
  { induction i as [|i IH].
    - subst h. destruct l, l'; simpl in *; done.
    - destruct (l !! i) as [x|] eqn:E, (l' !! i) as [x'|] eqn:E'; simpl in IH.
      + subst x'. destruct (Hl i x E) as [_ H1], (Hl' i x E') as [_ H2]. congruence.
      + destruct (Hl i x E). done.
      + destruct (Hl' i x' E'). congruence.
      + rewrite !lookup_ge_None_2; [done|apply lookup_ge_None in E'; lia|
          apply lookup_ge_None in E; lia]. }
  destruct (l !! i) as [x|] eqn:E, (l' !! i) as [x'|] eqn:E'; simpl in Hd; try congruence.
  - destruct (Hl i x E). done.
  - destruct (Hl' i x' E'). congruence.
Qed.

Lemma dlist_push m h l p :
  dlist m h l -> p <> 0 -> p ∉ l -> NoDup l ->
  let m1 := <[p := (h, 0)]> m in
  let m2 := if h =? 0 then m1 else set_prev m1 h p in
  dlist m2 p (p :: l) /\ forall q, q <> p -> q ∉ l -> node_at m2 q = node_at m q.
Proof.
  intros [Hh Hl] Hp0 Hp Hnd m1 m2.
  assert (Hm2 : forall q, node_at m2 q =
    if decide (q = p) then (h, 0)
    else if decide (q = h /\ h <> 0) then ((node_at m q).1, p) else node_at m q).
  { intros q. unfold m2, m1. destruct (Z.eqb_spec h 0) as [Hz|Hz].
    - rewrite node_at_insert. case_decide; [done|]. rewrite decide_False by tauto. done.
    - rewrite node_at_set_prev, !node_at_insert. destruct (decide (q = h)) as [->|].
      + assert (h <> p). { intros ->. destruct l; [done|]. simpl in Hh. subst. apply Hp. left. }
        rewrite !decide_False by done. by rewrite decide_True by done.
      + case_decide; [done|]. rewrite decide_False by tauto. done. }
  split.
  - split; [done|]. intros i x Hx. destruct i as [|i]; simpl in Hx.
    + injection Hx as <-. rewrite Hm2, decide_True by done. split; [done|]. f_equal.
      rewrite Hh. by destruct l.
    + destruct (Hl i x Hx) as [Hx0 Hn]. split; [done|].
      assert (x <> p) by (intros ->; apply Hp; by eapply list_elem_of_lookup_2).
      rewrite Hm2, decide_False by done. destruct i as [|i].
      * assert (x = h) as -> by (destruct l; simpl in *; congruence).
        rewrite decide_True by done. by rewrite Hn.
      * rewrite decide_False; [done|]. intros [-> _].
        assert (l !! 0%nat = Some h).
        { destruct l; [done|]. simpl in Hh. by subst. }
        pose proof (NoDup_lookup l (S i) 0 h Hnd Hx). naive_solver.
  - intros q Hq Hql. rewrite Hm2, decide_False by done. rewrite decide_False; [done|].
    intros [-> Hh0]. destruct l; simpl in Hh; [done|]. subst. apply Hql. left.
Qed.

Lemma dlist_remove m h l i x :
  dlist m h l -> NoDup l -> l !! i = Some x ->
  let nx := (node_at m x).1 in
  let pv := (node_at m x).2 in
  let m1 := if pv =? 0 then m else set_next m pv nx in
  let m2 := if nx =? 0 then m1 else set_prev m1 nx pv in
  dlist m2 (if pv =? 0 then nx else h) (delete i l) /\
  forall q, q ∉ l -> node_at m2 q = node_at m q.
Proof.
  intros [Hh Hl] Hnd Hx. destruct (Hl i x Hx) as [Hx0 Hn]. rewrite Hn. cbn [fst snd].
  set (nx := default 0 (l !! S i)).
  set (pv := match i with O => 0 | S j => default 0 (l !! j) end).
  assert (Hin : forall j y, l !! j = Some y -> y <> 0) by (intros j y Hy; by apply (Hl j)).
  assert (Hinj : forall j k y, l !! j = Some y -> l !! k = Some y -> j = k)
    by (intros; by eapply NoDup_lookup).
  assert (Hpv : pv = 0 <-> i = 0%nat).
  { unfold pv. destruct i as [|i]; [done|]. split; [|done]. intros Hz.
    destruct (lookup_lt_is_Some_2 l i) as [y Hy]; [apply lookup_lt_Some in Hx; lia|].
    rewrite Hy in Hz. simpl in Hz. by apply Hin in Hy. }
  set (m1 := if pv =? 0 then m else set_next m pv nx).
  set (m2 := if nx =? 0 then m1 else set_prev m1 nx pv).
  assert (Hm2 : forall q, node_at m2 q =
    (if decide (q = pv /\ pv <> 0) then nx else (node_at m q).1,
     if decide (q = nx /\ nx <> 0) then pv else (node_at m q).2)).
  { intros q. assert (Hm1 : node_at m1 q =
      (if decide (q = pv /\ pv <> 0) then nx else (node_at m q).1, (node_at m q).2)).
    { unfold m1. destruct (Z.eqb_spec pv 0) as [Hz|Hz].
      - rewrite decide_False by tauto. by destruct (node_at m q).
      - rewrite node_at_set_next. destruct (decide (q = pv)) as [->|].
        + by rewrite decide_True by done.
        + rewrite decide_False by tauto. by destruct (node_at m q). }
    unfold m2. destruct (Z.eqb_spec nx 0) as [Hz|Hz].
    - rewrite (decide_False (P := q = nx /\ _)) by tauto. done.
    - rewrite node_at_set_prev. destruct (decide (q = nx)) as [->|].
      + rewrite (decide_True (P := nx = nx /\ _)) by done. by rewrite Hm1.
      + rewrite (decide_False (P := q = nx /\ _)) by tauto. done. }
  assert (Hnxi : nx <> 0 -> l !! S i = Some nx).
  { unfold nx. by destruct (l !! S i). }
  assert (Hpvi : forall k, i = S k -> l !! k = Some pv).
  { intros k ->. unfold pv. destruct (lookup_lt_is_Some_2 l k) as [y ->];
      [apply lookup_lt_Some in Hx; lia|done]. }
  split; [split|].
  - destruct (Z.eqb_spec pv 0) as [Hz|Hz].
    + apply Hpv in Hz as ->. destruct l as [|y l]; [done|]. simpl. unfold nx. simpl.
      by destruct l.
    + destruct i as [|i]; [by destruct Hz; apply Hpv|]. destruct l; [done|]. simpl in *. done.
  - intros j y Hy. rewrite Hm2. destruct (decide (j < i)%nat) as [Hji|Hji].
    + rewrite list_lookup_delete_lt in Hy by done. destruct (Hl j y Hy) as [Hy0 Hny].
      split; [done|]. rewrite Hny. cbn [fst snd]. f_equal.
      * destruct (decide (y = pv /\ pv <> 0)) as [Hd|Hd].
        -- destruct Hd as [Hyp Hnz]. rewrite Hyp in Hy.
           destruct i as [|i]; [by destruct Hnz; apply Hpv|].
           assert (j = i) as -> by (eapply Hinj; [exact Hy|by apply Hpvi]).
           rewrite list_lookup_delete_ge by lia. done.
        -- destruct (decide (S j < i)%nat); [by rewrite list_lookup_delete_lt|].
           assert (i = S j) as -> by lia. destruct Hd. split; [|by rewrite Hpv].
           pose proof (Hpvi j eq_refl). congruence.
      * rewrite decide_False.
        -- destruct j as [|j]; [done|]. by rewrite list_lookup_delete_lt by lia.
        -- intros [-> Hd]. apply Hnxi in Hd.
           pose proof (Hinj _ _ _ Hy Hd). lia.
    + rewrite list_lookup_delete_ge in Hy by lia. destruct (Hl (S j) y Hy) as [Hy0 Hny].
      split; [done|]. rewrite Hny. cbn [fst snd]. f_equal.
      * rewrite decide_False; [by rewrite list_lookup_delete_ge by lia|].
        intros [-> Hd]. destruct i as [|i]; [by destruct Hd; apply Hpv|].
        pose proof (Hinj _ _ _ Hy (Hpvi i eq_refl)). lia.
      * destruct (decide (j = i)) as [->|Hne].
        -- rewrite decide_True.
           ++ destruct i as [|i]; [done|]. rewrite list_lookup_delete_lt by lia. done.
           ++ split; [|unfold nx; by rewrite Hy]. unfold nx. by rewrite Hy.
        -- rewrite decide_False.
           ++ destruct j as [|j]; [lia|]. by rewrite list_lookup_delete_ge by lia.
           ++ intros [-> Hd]. apply Hnxi in Hd. pose proof (Hinj _ _ _ Hy Hd). lia.
  - intros q Hq. rewrite Hm2. destruct (node_at m q) as [a b] eqn:E. cbn [fst snd]. f_equal.
    + rewrite decide_False; [done|]. intros [-> Hd].
      destruct i as [|i]; [by destruct Hd; apply Hpv|].
      apply Hq. eapply list_elem_of_lookup_2. by apply Hpvi.
    + rewrite decide_False; [done|]. intros [-> Hd].
      apply Hq. eapply list_elem_of_lookup_2. by apply Hnxi.
Qed.
