(* ===== verification/Pmm.v ===== *)
(** * The physical memory manager: buddy zones, frame descriptors, page caches

    Models the allocator core of [zxfoundation/memory/pmm.zcomponent]
    ([types.cxxm], [core.cxx]): the per-order doubly linked free lists threaded
    through the first 16 bytes of each free block, the frame descriptor table,
    [alloc_locked] with splitting, [free_locked] with coalescing, the per-CPU
    page caches, and the boot-time reservation arithmetic.  The contents of a
    page that matter here are its two list links ([nodes]).  [None] is a
    [syschk_fatal].  The NUMA topology queries are parameters. *)

From S2P Require Import Prelude Errors Kobject Numa Dlist.

Definition PAGE_SHIFT : Z := 12.
Definition PAGE_SIZE : Z := 4096.
Definition MAX_ORDER : Z := 10.
Definition PCP_MAX_ORDER : Z := 3.
Definition PCP_BATCH : Z := 16.
Definition PCP_HIGH : Z := 128.
Definition ZONE_DMA_LIMIT : Z := Z.shiftl 2 30.

Inductive zone := dma31 | normal.

#[global] Instance zone_eq_dec : EqDecision zone.
Proof. solve_decision. Defined.

Definition zone_index (z : zone) : Z := match z with dma31 => 0 | normal => 1 end.

Inductive frame_owner :=
  | fo_none | fo_reserved | fo_buddy | fo_slab | fo_domain | fo_page_table
  | fo_stack | fo_device | fo_reserved_typed_view.

#[global] Instance frame_owner_eq_dec : EqDecision frame_owner.
Proof. solve_decision. Defined.

Inductive purpose :=
  | pu_generic | pu_lowcore | pu_stack | pu_page_table | pu_device_dma | pu_heap
  | pu_slab | pu_frame_desc | pu_file_cache | pu_reserved_swap.

#[global] Instance purpose_eq_dec : EqDecision purpose.
Proof. solve_decision. Defined.

Definition ff_none : Z := 0.
Definition ff_suspect : Z := 1.
Definition ff_offline : Z := 2.
Definition ff_zeroed : Z := 4.
Definition ff_shared : Z := 8.

(** [frame_desc]; the packed byte [order_owner] as its two fields. *)
Record frame_desc := FrameDesc {
  fd_order : Z;
  fd_owner : frame_owner;
  fd_flags : Z;
  fd_node : Z;
  fd_refcount : Z;
  fd_object_id : Z;
  fd_object_generation : Z
}.

(** The zero-filled descriptor of a frame no one has described. *)
Definition desc_zero : frame_desc := FrameDesc 0 fo_none 0 0 0 0 0.

(** [frame_desc::set]. *)
Definition desc_set (o : Z) (ow : frame_owner) (node fl : Z) : frame_desc :=
  FrameDesc o ow fl node 0 KOBJECT_ID_INVALID 0.

Definition desc_or_flags (d : frame_desc) (bits : Z) : frame_desc :=
  FrameDesc (fd_order d) (fd_owner d) (Z.lor (fd_flags d) bits) (fd_node d)
    (fd_refcount d) (fd_object_id d) (fd_object_generation d).

(** ** Free lists *)

Record buddy_zone := BuddyZone { heads : list Z; counts : list Z }.

Definition bz_push (m : gmap Z (Z * Z)) (bz : buddy_zone) (ord phys : Z)
    : gmap Z (Z * Z) * buddy_zone :=
  let h := nthZ 0 (heads bz) ord in
  let m := <[phys := (h, 0)]> m in
  let m := if h =? 0 then m else set_prev m h phys in
  (m, BuddyZone (updZ (heads bz) ord phys)
        (updZ (counts bz) ord (u64 (nthZ 0 (counts bz) ord + 1)))).

Definition bz_pop (m : gmap Z (Z * Z)) (bz : buddy_zone) (ord : Z)
    : Z * gmap Z (Z * Z) * buddy_zone :=
  let p := nthZ 0 (heads bz) ord in
  if p =? 0 then (0, m, bz)
  else
    let nx := (node_at m p).1 in
    (p, if nx =? 0 then m else set_prev m nx 0,
     BuddyZone (updZ (heads bz) ord nx)
       (updZ (counts bz) ord (u64 (nthZ 0 (counts bz) ord - 1)))).

Definition bz_remove (m : gmap Z (Z * Z)) (bz : buddy_zone) (ord phys : Z)
    : gmap Z (Z * Z) * buddy_zone :=
  let '(nx, pv) := node_at m phys in
  let '(m, hs) :=
    if pv =? 0 then (m, updZ (heads bz) ord nx)
    else (set_next m pv nx, heads bz) in
  let m := if nx =? 0 then m else set_prev m nx pv in
  (m, BuddyZone hs (updZ (counts bz) ord (u64 (nthZ 0 (counts bz) ord - 1)))).

(** ** Allocator state *)

Record node_zone := NodeZone { nz_buddy : buddy_zone; free_pages : Z; total_pages : Z }.

Definition node_zone_zero : node_zone :=
  NodeZone (BuddyZone (replicate 11 0) (replicate 11 0)) 0 0.

Record pmm := Pmm {
  nodes : gmap Z (Z * Z);
  frame_table : bool;
  frames : gmap Z frame_desc;
  max_pfn : Z;
  node_zones : gmap (Z * Z) node_zone;
  retired_pages : Z
}.

Definition with_nodes (s : pmm) (m : gmap Z (Z * Z)) : pmm :=
  Pmm m (frame_table s) (frames s) (max_pfn s) (node_zones s) (retired_pages s).
Definition with_frames (s : pmm) (f : gmap Z frame_desc) : pmm :=
  Pmm (nodes s) (frame_table s) f (max_pfn s) (node_zones s) (retired_pages s).
Definition nz (s : pmm) (node : Z) (z : zone) : node_zone :=
  default node_zone_zero (node_zones s !! (node, zone_index z)).
Definition with_nz (s : pmm) (node : Z) (z : zone) (v : node_zone) : pmm :=
  Pmm (nodes s) (frame_table s) (frames s) (max_pfn s)
    (<[(node, zone_index z) := v]> (node_zones s)) (retired_pages s).

Definition zone_of (phys : Z) : zone := if phys <? ZONE_DMA_LIMIT then dma31 else normal.

Definition normalize_node_id (node : Z) : Z :=
  if node_id_is_valid node then node else NUMA_NODE_BOOT.

(** [desc_of]: the index of the descriptor, or an error. *)
Definition desc_of (s : pmm) (phys : Z) : expected Z :=
  if negb (frame_table s) then Unexpected (from_memory mem_out_of_memory)
  else
    let pfn := Z.shiftr phys PAGE_SHIFT in
    if max_pfn s <=? pfn then Unexpected (from_memory mem_invalid_address)
    else Expected pfn.

Definition frame (s : pmm) (pfn : Z) : frame_desc := default desc_zero (frames s !! pfn).

(** [if (auto fde = desc_of(phys)) fde->set(...)]. *)
Definition set_desc (s : pmm) (phys : Z) (d : frame_desc) : pmm :=
  match desc_of s phys with
  | Unexpected _ => s
  | Expected i => with_frames s (<[i := d]> (frames s))
  end.

Definition owner_for_purpose (p : purpose) : frame_owner :=
  match p with
  | pu_page_table => fo_page_table
  | pu_stack => fo_stack
  | pu_device_dma => fo_device
  | pu_slab => fo_slab
  | _ => fo_domain
  end.

(** [assert_allocatable_frame]; [false] is fatal. *)
Definition allocatable_frame (s : pmm) (phys : Z) : bool :=
  let max_phys := u64 (Z.shiftl (max_pfn s) PAGE_SHIFT) in
  let owned := match desc_of s phys with
               | Expected i => bool_decide (fd_owner (frame s i) = fo_buddy)
               | Unexpected _ => false
               end in
  negb (phys =? 0) && (Z.land phys (PAGE_SIZE - 1) =? 0) && (phys <? max_phys) && owned.

Definition push (s : pmm) (node : Z) (z : zone) (ord phys : Z) : pmm :=
  let v := nz s node z in
  let '(m, bz) := bz_push (nodes s) (nz_buddy v) ord phys in
  with_nz (with_nodes s m) node z (NodeZone bz (free_pages v) (total_pages v)).

Definition pop (s : pmm) (node : Z) (z : zone) (ord : Z) : Z * pmm :=
  let v := nz s node z in
  let '(p, m, bz) := bz_pop (nodes s) (nz_buddy v) ord in
  (p, with_nz (with_nodes s m) node z (NodeZone bz (free_pages v) (total_pages v))).

Definition remove (s : pmm) (node : Z) (z : zone) (ord phys : Z) : pmm :=
  let v := nz s node z in
  let '(m, bz) := bz_remove (nodes s) (nz_buddy v) ord phys in
  with_nz (with_nodes s m) node z (NodeZone bz (free_pages v) (total_pages v)).

(** [free_pages[zi] += d]. *)
Definition add_free (s : pmm) (node : Z) (z : zone) (d : Z) : pmm :=
  let v := nz s node z in
  with_nz s node z (NodeZone (nz_buddy v) (u64 (free_pages v + d)) (total_pages v)).

(** [PAGE_SIZE << ord], the size in bytes of a block. *)
Definition block_size (ord : Z) : Z := Z.shiftl PAGE_SIZE ord.

(** ** Allocation *)

(** [for (s = ord; s > order; --s)]: give the upper halves back. *)
Fixpoint split_loop (s : pmm) (node : Z) (z : zone) (phys cur : Z) (n : nat) : pmm :=
  match n with
  | O => s
  | S n' =>
      let buddy := phys + block_size (cur - 1) in
      let s := push s node z (cur - 1) buddy in
      let s := set_desc s buddy (desc_set (cur - 1) fo_buddy node ff_none) in
      split_loop s node z phys (cur - 1) n'
  end.

(** [for (ord = order; ord <= MAX_ORDER; ++ord)]: the first order with a block. *)
Fixpoint alloc_scan (s : pmm) (node : Z) (z : zone) (order ord : Z) (n : nat)
    : option (Z * pmm) :=
  match n with
  | O => Some (0, s)
  | S n' =>
      let '(phys, s1) := pop s node z ord in
      if phys =? 0 then alloc_scan s1 node z order (ord + 1) n'
      else if negb (allocatable_frame s1 phys) then None
      else
        let s2 := split_loop s1 node z phys ord (Z.to_nat (ord - order)) in
        Some (phys, add_free s2 node z (- Z.shiftl 1 order))
  end.

Definition alloc_locked (s : pmm) (order : Z) (z : zone) (node_id : Z) : option (Z * pmm) :=
  let node := normalize_node_id node_id in
  alloc_scan s node z order order (Z.to_nat (MAX_ORDER + 1 - order)).

(** ** Freeing *)

Definition has_flag (d : frame_desc) (bit : Z) : bool := negb (Z.land (fd_flags d) bit =? 0).

(** The coalescing loop: returns the final base and order. *)
Fixpoint merge_loop (s : pmm) (node : Z) (z : zone) (phys ord : Z) (n : nat)
    : Z * Z * pmm :=
  match n with
  | O => (phys, ord, s)
  | S n' =>
      let buddy := Z.lxor phys (block_size ord) in
      if negb (bool_decide (zone_of buddy = z)) then (phys, ord, s)
      else
        match desc_of s buddy with
        | Unexpected _ => (phys, ord, s)
        | Expected i =>
            let bd := frame s i in
            if negb (bool_decide (fd_owner bd = fo_buddy)) then (phys, ord, s)
            else if negb (fd_node bd =? node) then (phys, ord, s)
            else if has_flag bd ff_offline then
              (phys, ord,
               match desc_of s phys with
               | Expected j =>
                   with_frames s (<[j := desc_or_flags (frame s j) ff_suspect]> (frames s))
               | Unexpected _ => s
               end)
            else if negb (fd_order bd =? ord) then (phys, ord, s)
            else
              let s := remove s node z ord buddy in
              let s := add_free s node z (- Z.shiftl 1 ord) in
              let s := set_desc s buddy (desc_set 0 fo_none node ff_none) in
              merge_loop s node z (Z.min phys buddy) (ord + 1) n'
        end
  end.

Definition free_locked (s : pmm) (phys order : Z) (z : zone) (node_id : Z) : pmm :=
  let node := normalize_node_id node_id in
  let '(phys, ord, s) := merge_loop s node z phys order (Z.to_nat (MAX_ORDER - order)) in
  let s :=
    match desc_of s phys with
    | Expected i => set_desc s phys
        (desc_set ord fo_buddy node (Z.land (fd_flags (frame s i)) ff_suspect))
    | Unexpected _ => s
    end in
  let s := push s node z ord phys in
  add_free s node z (Z.shiftl 1 ord).

(** ** Arithmetic of blocks *)

Lemma block_size_pow o : 0 <= o -> block_size o = 2 ^ (12 + o).
Proof.
  intros Ho. unfold block_size, PAGE_SIZE. rewrite Z.shiftl_mul_pow2 by done.
  rewrite Z.pow_add_r by lia. done.
Qed.

Lemma block_size_pos o : 0 <= o -> 4096 <= block_size o.
Proof.
  intros Ho. unfold block_size, PAGE_SIZE. rewrite Z.shiftl_mul_pow2 by done.
  pose proof (Z.pow_pos_nonneg 2 o). lia.
Qed.

Lemma block_size_succ o : 0 <= o -> block_size (o + 1) = 2 * block_size o.
Proof.
  intros Ho. rewrite !block_size_pow by lia.
  replace (12 + (o + 1)) with (Z.succ (12 + o)) by lia. by rewrite Z.pow_succ_r by lia.
Qed.

Lemma block_size_divide o o' : 0 <= o <= o' -> (block_size o | block_size o').
Proof.
  intros Ho. rewrite !block_size_pow by lia. exists (2 ^ (o' - o)).
  rewrite <- Z.pow_add_r by lia. f_equal. lia.
Qed.

(** Two multiples of [S] are at least [S] apart. *)
Lemma multiple_gap S x y : (S | x) -> (S | y) -> x < y -> x + S <= y.
Proof.
  intros Hx Hy Hlt. assert (Hd : (S | y - x)) by (by apply Z.divide_sub_r).
  apply Z.divide_pos_le in Hd; lia.
Qed.

Lemma lxor_1 k : Z.lxor k 1 = if Z.even k then k + 1 else k - 1.
Proof.
  assert (H : forall j, Z.lxor (2 * j) 1 = 2 * j + 1).
  { intros j. symmetry. apply Z.add_nocarry_lxor. apply Z.bits_inj'. intros n Hn.
    rewrite Z.land_spec, Z.bits_0. destruct (decide (n = 0)) as [->|].
    - by rewrite Z.testbit_even_0.
    - rewrite (Z.bits_above_log2 1) by (simpl; lia). apply andb_false_r. }
  destruct (Z.even k) eqn:He.
  - apply Z.even_spec in He as [j ->]. apply H.
  - assert (Ho : Z.odd k = true) by (by rewrite <- Z.negb_even, He).
    apply Z.odd_spec in Ho as [j ->]. transitivity (2 * j); [|lia].
    rewrite <- (H j), Z.lxor_assoc, Z.lxor_nilpotent. apply Z.lxor_0_r.
Qed.

(** The buddy of a block at [phys]: the other half of the block of twice the
    size, both halves starting at [min phys buddy]. *)
Lemma buddy_halves phys o :
  0 <= o -> (block_size o | phys) ->
  let b := Z.lxor phys (block_size o) in
  let m := Z.min phys b in
  (block_size o | b) /\ (block_size (o + 1) | m) /\
  ((phys = m /\ b = m + block_size o) \/ (b = m /\ phys = m + block_size o)).
Proof.
  intros Ho [k ->] b m. pose proof (block_size_pos o Ho) as Hp.
  assert (Hb : b = Z.lxor k 1 * block_size o).
  { unfold b. rewrite block_size_pow by done.
    rewrite <- !Z.shiftl_mul_pow2 by lia.
    replace (2 ^ (12 + o)) with (Z.shiftl 1 (12 + o)) by (rewrite Z.shiftl_1_l; done).
    by rewrite <- Z.shiftl_lxor. }
  rewrite lxor_1 in Hb. rewrite (block_size_succ o Ho).
  destruct (Z.even k) eqn:He.
  - apply Z.even_spec in He as [j ->].
    assert (Hm : m = 2 * j * block_size o) by (unfold m; nia).
    split_and!; [rewrite Hb; apply Z.divide_factor_r|exists j; lia|left; split; nia].
  - assert (Hodd : Z.odd k = true) by (by rewrite <- Z.negb_even, He).
    apply Z.odd_spec in Hodd as [j ->].
    assert (Hm : m = 2 * j * block_size o) by (unfold m; nia).
    split_and!; [rewrite Hb; apply Z.divide_factor_r|exists j; lia|right; split; nia].
Qed.

(** ** The allocator invariant *)

Definition order_ok (o : Z) : Prop := 0 <= o <= MAX_ORDER.

(** The frame lists, one per order, with one list replaced. *)
Definition upd_list (L : Z -> list Z) (o : Z) (l : list Z) : Z -> list Z :=
  fun o' => if decide (o' = o) then l else L o'.

Lemma upd_list_eq L o l : upd_list L o l o = l.
Proof. unfold upd_list. by rewrite decide_True. Qed.

Lemma upd_list_ne L o o' l : o' <> o -> upd_list L o l o' = L o'.
Proof. intros. unfold upd_list. by rewrite decide_False. Qed.

(** Pages on the lists of the given orders; on all of them. *)
Definition pages_in (L : Z -> list Z) (os : list Z) : Z :=
  foldr (fun o acc => 2 ^ o * Z.of_nat (length (L o)) + acc) 0 os.
Definition pages (L : Z -> list Z) : Z := pages_in L (seqZ 0 (MAX_ORDER + 1)).

Lemma pages_in_out L o l os : o ∉ os -> pages_in (upd_list L o l) os = pages_in L os.
Proof.
  unfold pages_in. induction os as [|x os IH]; intros Hn; [done|].
  apply not_elem_of_cons in Hn as [Hx Hn]. cbn [foldr].
  rewrite IH, upd_list_ne by done. done.
Qed.

Lemma pages_in_upd L o l os :
  o ∈ os -> NoDup os ->
  pages_in (upd_list L o l) os =
  pages_in L os + 2 ^ o * (Z.of_nat (length l) - Z.of_nat (length (L o))).
Proof.
  induction os as [|x os IH]; intros Hin Hnd; [by apply not_elem_of_nil in Hin|].
  apply list.NoDup_cons in Hnd as [Hx Hnd].
  change (pages_in ?L (x :: os)) with (2 ^ x * Z.of_nat (length (L x)) + pages_in L os).
  destruct (decide (x = o)) as [->|Hne].
  - rewrite pages_in_out, upd_list_eq by done. lia.
  - apply elem_of_cons in Hin as [->|Hin]; [done|].
    rewrite IH, upd_list_ne by done. lia.
Qed.

Lemma pages_upd L o l :
  order_ok o ->
  pages (upd_list L o l) = pages L + 2 ^ o * (Z.of_nat (length l) - Z.of_nat (length (L o))).
Proof.
  intros Ho. apply pages_in_upd; [|apply NoDup_seqZ].
  apply elem_of_seqZ. unfold order_ok in Ho. lia.
Qed.

Section invariant.
Context (node : Z) (z : zone).

Definition max_phys (s : pmm) : Z := max_pfn s * PAGE_SIZE.

Definition wf_block (s : pmm) (p o : Z) : Prop :=
  order_ok o /\ 0 < p /\ (block_size o | p) /\ p + block_size o <= max_phys s /\
  zone_of p = z.

(** The descriptor of [p] says: head of a free block of order [o] of this node. *)
Definition tagged (s : pmm) (p o : Z) : Prop :=
  let d := frame s (p / PAGE_SIZE) in
  fd_owner d = fo_buddy /\ fd_order d = o /\ fd_node d = node.

Definition disjoint_blocks (p o q o' : Z) : Prop :=
  p + block_size o <= q \/ q + block_size o' <= p.

(** Bytes of the block in hand: taken off the lists, not yet given to anyone. *)
Definition in_hand (hand : option (Z * Z)) (x : Z) : Prop :=
  match hand with Some (p, o) => p <= x < p + block_size o | None => False end.

(** [L]: the free lists.  [U]: all blocks, free ([true]) or allocated, by base
    address.  [hand]: a block between the two.  [d]: pages missing from the
    lists but still counted in [free_pages]. *)
Record buddy_inv (s : pmm) (L : Z -> list Z) (U : gmap Z (Z * bool))
    (hand : option (Z * Z)) (d : Z) : Prop := {
  bi_table : frame_table s = true;
  bi_max : 0 <= max_pfn s /\ max_phys s < 2 ^ 64;
  bi_len : length (heads (nz_buddy (nz s node z))) = 11%nat /\
           length (counts (nz_buddy (nz s node z))) = 11%nat;
  bi_list : forall o, order_ok o ->
    dlist (nodes s) (nthZ 0 (heads (nz_buddy (nz s node z))) o) (L o) /\ NoDup (L o) /\
    nthZ 0 (counts (nz_buddy (nz s node z))) o = u64 (Z.of_nat (length (L o)));
  bi_free : forall o p, order_ok o -> p ∈ L o <-> U !! p = Some (o, true);
  bi_wf : forall p o f, U !! p = Some (o, f) -> wf_block s p o;
  bi_disj : forall p o f q o' f', U !! p = Some (o, f) -> U !! q = Some (o', f') ->
    p <> q -> disjoint_blocks p o q o';
  bi_tag : forall p o, U !! p = Some (o, true) -> tagged s p o;
  bi_stale : forall p o, 0 <= p < max_phys s -> (PAGE_SIZE | p) -> zone_of p = z ->
    tagged s p o ->
    U !! p = Some (o, true) \/
    (exists q o' f, U !! q = Some (o', f) /\ q < p < q + block_size o') \/
    in_hand hand p;
  bi_hand : forall p o, hand = Some (p, o) ->
    wf_block s p o /\
    forall q o' f, U !! q = Some (o', f) -> disjoint_blocks p o q o';
  bi_pages : free_pages (nz s node z) = u64 (pages L + d)
}.

(** *** Projections of the state after an update *)

Lemma nz_with_nz s v : nz (with_nz s node z v) node z = v.
Proof. unfold nz, with_nz; simpl. by rewrite lookup_insert_eq. Qed.

Lemma frame_set_desc s p d i :
  desc_of s p = Expected i ->
  forall j, frame (set_desc s p d) j = if decide (j = i) then d else frame s j.
Proof.
  intros Hd j. unfold set_desc. rewrite Hd. unfold frame; simpl. rewrite lookup_insert.
  destruct (decide (i = j)) as [->|]; [by rewrite decide_True|by rewrite decide_False by congruence].
Qed.

Lemma desc_of_ok s p :
  frame_table s = true -> 0 <= p < max_phys s -> desc_of s p = Expected (p / PAGE_SIZE).
Proof.
  intros Ht Hp. unfold desc_of, max_phys, PAGE_SIZE, PAGE_SHIFT in *. rewrite Ht.
  rewrite Z.shiftr_div_pow2 by lia. change (2 ^ 12) with 4096. cbn [negb].
  rewrite (proj2 (Z.leb_gt _ _)) by lia. done.
Qed.

Lemma page_index_inj p q :
  (PAGE_SIZE | p) -> (PAGE_SIZE | q) -> p / PAGE_SIZE = q / PAGE_SIZE -> p = q.
Proof. unfold PAGE_SIZE. intros [a ->] [b ->]. rewrite !Z.div_mul by lia. lia. Qed.

Lemma block_page s p o : wf_block s p o -> (PAGE_SIZE | p) /\ 0 <= p < max_phys s.
Proof.
  intros (Ho & Hp & Hd & Hm & _). unfold order_ok in Ho.
  pose proof (block_size_pos o ltac:(lia)). split; [|lia].
  eapply Z.divide_trans; [|exact Hd]. apply (block_size_divide 0 o). lia.
Qed.

(** Setting a descriptor inside the hand, or any descriptor that is not the
    head of a known block, is invisible. *)
Lemma inv_set_desc s L U hand dl p d :
  buddy_inv s L U hand dl -> (PAGE_SIZE | p) -> 0 <= p < max_phys s -> in_hand hand p ->
  buddy_inv (set_desc s p d) L U hand dl.
Proof.
  intros Hi Hpa Hpr Hh. pose proof (bi_table _ _ _ _ _ Hi) as Ht.
  pose proof (desc_of_ok s p Ht Hpr) as Hd.
  assert (Heq : set_desc s p d = with_frames s (<[p / PAGE_SIZE := d]> (frames s)))
    by (unfold set_desc; by rewrite Hd).
  assert (HU : U !! p = None).
  { destruct (U !! p) as [[o f]|] eqn:E; [|done]. destruct hand as [[hp ho]|]; [|done].
    destruct (bi_hand _ _ _ _ _ Hi hp ho eq_refl) as [_ Hdj].
    pose proof (bi_wf _ _ _ _ _ Hi p o f E) as (Ho & _). unfold order_ok in Ho.
    pose proof (block_size_pos o ltac:(lia)).
    destruct (Hdj p o f E); simpl in Hh; lia. }
  assert (Hfr : forall q, (PAGE_SIZE | q) -> q <> p ->
    frame (set_desc s p d) (q / PAGE_SIZE) = frame s (q / PAGE_SIZE)).
  { intros q Hq Hne. rewrite (frame_set_desc s p d _ Hd). rewrite decide_False; [done|].
    intros E. by apply Hne, page_index_inj. }
  destruct Hi as [H1 H2 H3 H4 H5 H6 H7 H8 H9 H10 H11].
  split; rewrite ?Heq; try done.
  - intros q o Hq. unfold tagged. rewrite <- Heq.
    destruct (block_page s q o (H6 q o true Hq)) as [Hqa _].
    rewrite Hfr by (done || congruence). by apply H8.
  - intros q o Hqr Hqa Hqz. rewrite <- Heq. unfold tagged.
    destruct (decide (q = p)) as [->|Hne]; [by right; right|].
    rewrite Hfr by done. by apply H9.
Qed.

(** Blocks that do not meet a given block are not at its base. *)
Lemma fresh_base s L U hand d b o :
  buddy_inv s L U hand d -> order_ok o ->
  (forall q o' f, U !! q = Some (o', f) -> disjoint_blocks b o q o') -> U !! b = None.
Proof.
  intros Hi Ho Hdj. destruct (U !! b) as [[o' f]|] eqn:E; [|done].
  pose proof (bi_wf _ _ _ _ _ Hi b o' f E) as (Ho' & _). unfold order_ok in *.
  pose proof (block_size_pos o ltac:(lia)). pose proof (block_size_pos o' ltac:(lia)).
  destruct (Hdj b o' f E); lia.
Qed.

Lemma lists_disjoint s L U hand d o o' x :
  buddy_inv s L U hand d -> order_ok o -> order_ok o' -> x ∈ L o -> x ∈ L o' -> o = o'.
Proof.
  intros Hi Ho Ho' Hx Hx'. apply (bi_free _ _ _ _ _ Hi) in Hx; [|done].
  apply (bi_free _ _ _ _ _ Hi) in Hx'; [|done]. congruence.
Qed.

(** Changing the list of one order: the other lists keep their links. *)
Lemma lists_update s L U hand d o l m' h' c' :
  buddy_inv s L U hand d -> order_ok o ->
  dlist m' h' l -> NoDup l -> c' = u64 (Z.of_nat (length l)) ->
  (forall o' q, order_ok o' -> o' <> o -> q ∈ L o' -> node_at m' q = node_at (nodes s) q) ->
  let bz := nz_buddy (nz s node z) in
  forall o', order_ok o' ->
    dlist m' (nthZ 0 (updZ (heads bz) o h') o') (upd_list L o l o') /\
    NoDup (upd_list L o l o') /\
    nthZ 0 (updZ (counts bz) o c') o' = u64 (Z.of_nat (length (upd_list L o l o'))).
Proof.
  intros Hi Ho Hdl Hnd Hc Hoff bz o' Ho'. destruct (bi_len _ _ _ _ _ Hi) as [Hlh Hlc].
  unfold order_ok, MAX_ORDER in *. fold bz in Hlh, Hlc.
  destruct (decide (o' = o)) as [->|Hne].
  - rewrite upd_list_eq, !nthZ_updZ_eq by lia. done.
  - rewrite upd_list_ne, !nthZ_updZ_ne by lia.
    destruct (bi_list _ _ _ _ _ Hi o') as (H1 & H2 & H3); [done|]. split_and!; [|done|done].
    eapply dlist_ext; [|exact H1]. intros x Hx. by apply (Hoff o').
Qed.

Lemma inv_push s L U hand hand' d b o :
  buddy_inv s L U hand d -> wf_block s b o -> tagged s b o ->
  (forall q o' f, U !! q = Some (o', f) -> disjoint_blocks b o q o') ->
  (forall p ho, hand' = Some (p, ho) -> wf_block s p ho /\ disjoint_blocks p ho b o /\
     forall q o' f, U !! q = Some (o', f) -> disjoint_blocks p ho q o') ->
  (forall x, in_hand hand x -> b <= x < b + block_size o \/ in_hand hand' x) ->
  buddy_inv (push s node z o b) (upd_list L o (b :: L o)) (<[b := (o, true)]> U) hand'
    (d - 2 ^ o).
Proof.
  intros Hi Hw Htag Hdj Hh' Hcov. pose proof Hw as (Ho & Hb0 & _).
  assert (HUb : U !! b = None) by (by eapply fresh_base).
  assert (HbL : b ∉ L o) by (intros Hin; apply (bi_free _ _ _ _ _ Hi) in Hin; [congruence|done]).
  destruct (bi_list _ _ _ _ _ Hi o Ho) as (Hdl & Hnd & Hcnt).
  unfold push. set (v := nz s node z) in *.
  destruct (bz_push (nodes s) (nz_buddy v) o b) as [m' bz'] eqn:Hbz.
  unfold bz_push in Hbz. injection Hbz as Hm Hbz'.
  destruct (dlist_push (nodes s) _ (L o) b Hdl ltac:(lia) HbL Hnd) as [Hdl' Hoff].
  cbn zeta in Hdl', Hoff. rewrite Hm in Hdl', Hoff.
  set (s' := with_nz _ _ _ _).
  assert (Hv' : nz s' node z = NodeZone bz' (free_pages v) (total_pages v)) by apply nz_with_nz.
  assert (Hfr : forall i, frame s' i = frame s i) by done.
  assert (Hlists := lists_update s L U hand d o (b :: L o) m' b
    (u64 (nthZ 0 (counts (nz_buddy v)) o + 1)) Hi Ho Hdl').
  pose proof Hi as [H1 H2 H3 H4 H5 H6 H7 H8 H9 H10 H11].
  split; rewrite ?Hv'; cbn [nz_buddy free_pages]; try done.
  - rewrite <- Hbz'. simpl. by rewrite !length_updZ.
  - rewrite <- Hbz'. cbn [heads counts]. apply Hlists.
    + by apply list.NoDup_cons.
    + rewrite Hcnt. cbn [length]. unfold u64, wrap.
      rewrite Zplus_mod_idemp_l. f_equal. lia.
    + intros o' q Ho' Hne Hq. apply Hoff.
      * intros ->. apply H5 in Hq; [congruence|done].
      * intros Hq'. by eapply Hne, lists_disjoint.
  - intros o' p Ho'. unfold upd_list. rewrite lookup_insert. case_decide as Hoo.
    + subst o'. rewrite elem_of_cons, (H5 o p Ho). case_decide as Hbp.
      * subst p. naive_solver.
      * naive_solver.
    + rewrite (H5 o' p Ho'). case_decide as Hbp; [|done]. subst p. rewrite HUb. naive_solver.
  - intros p o' f. rewrite lookup_insert. case_decide; [|apply H6]. intros [= <- _]. by subst p.
  - intros p op f q oq g. rewrite !lookup_insert. repeat case_decide; subst.
    + naive_solver.
    + intros [= <- _] Hq _. by eapply Hdj.
    + intros Hp [= <- _] _. unfold disjoint_blocks in *. destruct (Hdj p op f Hp); auto.
    + apply H7.
  - intros p o'. rewrite lookup_insert. case_decide; [|apply H8]. intros [= <-]. by subst p.
  - intros p o' Hpr Hpa Hpz Ht. rewrite lookup_insert.
    destruct (decide (b = p)) as [->|Hne].
    { left. destruct Htag as (_ & E1 & _). destruct Ht as (_ & E2 & _).
      rewrite Hfr in E2. f_equal. f_equal. congruence. }
    destruct (H9 p o' Hpr Hpa Hpz Ht) as [HU|[(q & oq & f & Hq & Hr)|Hh]].
    + by left.
    + right; left. exists q, oq, f. split; [|done]. rewrite lookup_insert_ne; [done|]. congruence.
    + destruct (Hcov p Hh) as [Hin|Hin]; [|by right; right].
      right; left. exists b, o, true. split; [apply lookup_insert_eq|]. lia.
  - intros p ho Hh. destruct (Hh' p ho Hh) as (Hw' & Hdb & Hdu). split; [done|].
    intros q o' f. rewrite lookup_insert. case_decide; [|apply Hdu]. intros [= <- _]. by subst q.
  - rewrite pages_upd by done. fold v in H11. rewrite H11. cbn [length]. f_equal. lia.
Qed.

Lemma inv_remove s L U hand hand' d x o :
  buddy_inv s L U hand d -> U !! x = Some (o, true) ->
  (forall p ho, hand' = Some (p, ho) -> wf_block s p ho /\
     forall q o' f, q <> x -> U !! q = Some (o', f) -> disjoint_blocks p ho q o') ->
  (forall y, in_hand hand y \/ x <= y < x + block_size o -> in_hand hand' y) ->
  exists l, buddy_inv (remove s node z o x) (upd_list L o l) (delete x U) hand' (d + 2 ^ o) /\
    pages (upd_list L o l) = pages L - 2 ^ o.
Proof.
  intros Hi HUx Hh' Hcov. pose proof (bi_wf _ _ _ _ _ Hi x o true HUx) as (Ho & Hx0 & _).
  assert (HxL : x ∈ L o) by (by apply (bi_free _ _ _ _ _ Hi)).
  apply list_elem_of_lookup in HxL as Hix. destruct Hix as [i Hix].
  destruct (bi_list _ _ _ _ _ Hi o Ho) as (Hdl & Hnd & Hcnt). exists (delete i (L o)).
  assert (Hlen : Z.of_nat (length (L o)) = Z.of_nat (length (delete i (L o))) + 1).
  { rewrite length_delete by eauto. apply lookup_lt_Some in Hix. lia. }
  assert (Hdel : forall q, q ∈ delete i (L o) <-> q ∈ L o /\ q <> x).
  { intros q. rewrite !list_elem_of_lookup. split.
    - intros [j Hj]. destruct (decide (j < i)%nat).
      + rewrite list_lookup_delete_lt in Hj by done. split; [eauto|]. intros ->.
        pose proof (NoDup_lookup _ _ _ _ Hnd Hj Hix). lia.
      + rewrite list_lookup_delete_ge in Hj by lia. split; [eauto|]. intros ->.
        pose proof (NoDup_lookup _ _ _ _ Hnd Hj Hix). lia.
    - intros [[j Hj] Hne]. assert (j <> i) by congruence. destruct (decide (j < i)%nat).
      + exists j. by rewrite list_lookup_delete_lt.
      + exists (pred j). rewrite list_lookup_delete_ge by lia. by replace (S (pred j)) with j by lia. }
  unfold remove. set (v := nz s node z) in *.
  destruct (bz_remove (nodes s) (nz_buddy v) o x) as [m' bz'] eqn:Hbz.
  unfold bz_remove in Hbz.
  destruct (dlist_remove (nodes s) _ (L o) i x Hdl Hnd Hix) as [Hdl' Hoff].
  cbn zeta in Hdl', Hoff. destruct (node_at (nodes s) x) as [nx pv]. cbn [fst snd] in *.
  set (hs := if pv =? 0 then updZ (heads (nz_buddy v)) o nx else heads (nz_buddy v)).
  assert (Hm : m' = (if nx =? 0 then (if pv =? 0 then nodes s else set_next (nodes s) pv nx)
    else set_prev (if pv =? 0 then nodes s else set_next (nodes s) pv nx) nx pv) /\
    bz' = BuddyZone hs (updZ (counts (nz_buddy v)) o (u64 (nthZ 0 (counts (nz_buddy v)) o - 1)))).
  { unfold hs. destruct (pv =? 0); injection Hbz as <- <-; done. }
  destruct Hm as [-> ->]. clear Hbz.
  set (m' := if nx =? 0 then _ else _) in *.
  assert (Hhs : hs = updZ (heads (nz_buddy v)) o (if pv =? 0 then nx else nthZ 0 (heads (nz_buddy v)) o)).
  { unfold hs. destruct (pv =? 0); [done|]. symmetry. apply updZ_id.
    destruct (bi_len _ _ _ _ _ Hi) as [Hl _]. fold v in Hl. rewrite Hl.
    unfold order_ok, MAX_ORDER in Ho. lia. }
  set (s' := with_nz _ _ _ _).
  assert (Hv' : nz s' node z = NodeZone
    (BuddyZone hs (updZ (counts (nz_buddy v)) o (u64 (nthZ 0 (counts (nz_buddy v)) o - 1))))
    (free_pages v) (total_pages v)) by apply nz_with_nz.
  assert (Hlists := lists_update s L U hand d o (delete i (L o)) m'
    (if pv =? 0 then nx else nthZ 0 (heads (nz_buddy v)) o)
    (u64 (nthZ 0 (counts (nz_buddy v)) o - 1)) Hi Ho Hdl').
  assert (Hpg : pages (upd_list L o (delete i (L o))) = pages L - 2 ^ o)
    by (rewrite pages_upd by done; lia).
  split; [|exact Hpg].
  pose proof Hi as [H1 H2 H3 H4 H5 H6 H7 H8 H9 H10 H11].
  split; rewrite ?Hv'; cbn [nz_buddy free_pages heads counts]; try done.
  - rewrite Hhs, !length_updZ. done.
  - rewrite Hhs. apply Hlists.
    + eapply sublist_NoDup; [exact Hnd|apply sublist_delete].
    + rewrite Hcnt, Hlen. unfold u64, wrap. rewrite Zminus_mod_idemp_l. f_equal. lia.
    + intros o' q Ho' Hne Hq. apply Hoff. intros Hq'. by eapply Hne, lists_disjoint.
  - intros o' p Ho'. rewrite lookup_delete. unfold upd_list. case_decide as Hoo.
    + subst o'. rewrite Hdel, (H5 o p Ho). case_decide; naive_solver.
    + rewrite (H5 o' p Ho'). case_decide; [|done]. subst p. rewrite HUx. naive_solver.
  - intros p o' f Hp. apply lookup_delete_Some in Hp as [_ Hp]. by eapply H6.
  - intros p op f q oq g Hp Hq. apply lookup_delete_Some in Hp as [_ Hp].
    apply lookup_delete_Some in Hq as [_ Hq]. by eapply H7.
  - intros p o' Hp. apply lookup_delete_Some in Hp as [_ Hp]. by apply H8.
  - intros p o' Hpr Hpa Hpz Ht.
    destruct (H9 p o' Hpr Hpa Hpz Ht) as [HU|[(q & oq & f & Hq & Hr)|Hh]].
    + destruct (decide (p = x)) as [->|Hne].
      * right; right. apply Hcov. right. unfold order_ok in Ho.
        pose proof (block_size_pos o ltac:(lia)). lia.
      * left. by rewrite lookup_delete_ne.
    + destruct (decide (q = x)) as [->|Hne].
      * right; right. apply Hcov. right. assert (oq = o) as -> by congruence. lia.
      * right; left. exists q, oq, f. by rewrite lookup_delete_ne.
    + right; right. apply Hcov. by left.
  - intros p ho Hh. destruct (Hh' p ho Hh) as [Hw' Hdu]. split; [done|].
    intros q o' f Hq. apply lookup_delete_Some in Hq as [Hne Hq]. by eapply Hdu.
  - rewrite Hpg. fold v in H11. rewrite H11. f_equal. lia.
Qed.

Lemma inv_add_free s L U hand d e :
  buddy_inv s L U hand d -> buddy_inv (add_free s node z e) L U hand (d + e).
Proof.
  intros [H1 H2 H3 H4 H5 H6 H7 H8 H9 H10 H11].
  assert (Hv : nz (add_free s node z e) node z = NodeZone (nz_buddy (nz s node z))
    (u64 (free_pages (nz s node z) + e)) (total_pages (nz s node z))) by apply nz_with_nz.
  split; rewrite ?Hv; try done. cbn [free_pages]. rewrite H11. unfold u64, wrap.
  rewrite Zplus_mod_idemp_l. f_equal. lia.
Qed.

Lemma pop_empty s L U hand d o :
  buddy_inv s L U hand d -> order_ok o -> L o = [] ->
  exists s', pop s node z o = (0, s') /\ buddy_inv s' L U hand d.
Proof.
  intros Hi Ho Hl. destruct (bi_list _ _ _ _ _ Hi o Ho) as ([Hh _] & _). rewrite Hl in Hh.
  unfold pop, bz_pop. rewrite Hh. cbn [hd Z.eqb].
  eexists. split; [done|]. destruct Hi as [H1 H2 H3 H4 H5 H6 H7 H8 H9 H10 H11].
  split; rewrite ?nz_with_nz; done.
Qed.

Lemma pop_head s L U hand d o p l :
  buddy_inv s L U hand d -> order_ok o -> L o = p :: l ->
  p <> 0 /\ pop s node z o = (p, remove s node z o p).
Proof.
  intros Hi Ho Hl. destruct (bi_list _ _ _ _ _ Hi o Ho) as ([Hh Hn] & _). rewrite Hl in Hh, Hn.
  destruct (Hn 0%nat p eq_refl) as [Hp Hnode]. split; [done|].
  unfold pop, remove, bz_pop, bz_remove. rewrite Hh. cbn [hd]. rewrite Hnode. cbn [fst].
  rewrite (proj2 (Z.eqb_neq p 0)) by done. cbn [Z.eqb]. done.
Qed.

(** *** Splitting and merging halves *)

Lemma halves s p o :
  wf_block s p (o + 1) -> 0 <= o ->
  wf_block s p o /\ wf_block s (p + block_size o) o /\
  disjoint_blocks p o (p + block_size o) o.
Proof.
  intros (Ho & Hp & Hd & Hm & Hz) Ho0. rewrite (block_size_succ o Ho0) in Hm.
  pose proof (block_size_pos o Ho0). unfold order_ok in *.
  assert (Hd' : (block_size o | p)).
  { eapply Z.divide_trans; [|exact Hd]. apply block_size_divide. lia. }
  assert (Hok : order_ok o) by (unfold order_ok; lia).
  split; [|split; [|left; lia]]; (split; [done|]).
  { split_and!; [lia|done|lia|done]. }
  split_and!; [lia|by apply Z.divide_add_r|lia|].
  revert Hz. unfold zone_of, ZONE_DMA_LIMIT. change (Z.shiftl 2 30) with 2147483648.
  destruct (Z.ltb_spec p 2147483648) as [Hlt|Hge]; intros Hz.
  - rewrite (proj2 (Z.ltb_lt _ _)); [done|].
    assert (block_size (o + 1) + p <= 2147483648).
    { rewrite Z.add_comm. apply multiple_gap; [done| |done].
      change 2147483648 with (block_size 19). apply block_size_divide. unfold MAX_ORDER in Ho. lia. }
    rewrite (block_size_succ o Ho0) in *. lia.
  - rewrite (proj2 (Z.ltb_ge _ _)) by lia. done.
Qed.

Lemma disjoint_half p o q o' :
  0 <= o -> disjoint_blocks p (o + 1) q o' ->
  disjoint_blocks p o q o' /\ disjoint_blocks (p + block_size o) o q o'.
Proof.
  intros Ho. unfold disjoint_blocks. rewrite (block_size_succ o Ho).
  pose proof (block_size_pos o Ho). lia.
Qed.

Lemma set_desc_push s ord b p d :
  set_desc (push s node z ord b) p d = push (set_desc s p d) node z ord b.
Proof.
  unfold set_desc, push.
  destruct (bz_push (nodes s) (nz_buddy (nz s node z)) ord b) as [m bz] eqn:E.
  assert (Hd : desc_of (with_nz (with_nodes s m) node z
    (NodeZone bz (free_pages (nz s node z)) (total_pages (nz s node z)))) p = desc_of s p) by done.
  rewrite Hd. destruct (desc_of s p); [|by rewrite E].
  change (nz (with_frames s (<[a:=d]> (frames s))) node z) with (nz s node z).
  change (nodes (with_frames s (<[a:=d]> (frames s)))) with (nodes s). by rewrite E.
Qed.

Lemma tagged_set_desc s p o fl :
  frame_table s = true -> 0 <= p < max_phys s ->
  tagged (set_desc s p (desc_set o fo_buddy node fl)) p o.
Proof.
  intros Ht Hp. unfold tagged. rewrite (frame_set_desc _ _ _ _ (desc_of_ok s p Ht Hp)).
  by rewrite decide_True.
Qed.

Lemma wf_block_set_desc s p d q o : wf_block (set_desc s p d) q o <-> wf_block s q o.
Proof. unfold wf_block, max_phys, set_desc. by destruct (desc_of s p). Qed.

(** One step of the splitting loop. *)
Lemma split_step s L U p o d :
  buddy_inv s L U (Some (p, o + 1)) d -> 0 <= o ->
  let b := p + block_size o in
  buddy_inv (set_desc (push s node z o b) b (desc_set o fo_buddy node ff_none))
    (upd_list L o (b :: L o)) (<[b := (o, true)]> U) (Some (p, o)) (d - 2 ^ o).
Proof.
  intros Hi Ho b. rewrite set_desc_push.
  destruct (bi_hand _ _ _ _ _ Hi p (o + 1) eq_refl) as [Hw Hdj].
  destruct (halves s p o Hw Ho) as (Hwp & Hwb & Hpb). fold b in Hwb, Hpb.
  destruct (block_page s b o Hwb) as [Hba Hbr].
  pose proof (block_size_pos o Ho) as Hsz. pose proof (block_size_succ o Ho) as Hsz2.
  apply inv_push with (hand := Some (p, o + 1)).
  - apply inv_set_desc; [done|done|done|]. simpl. unfold b. lia.
  - by apply wf_block_set_desc.
  - apply tagged_set_desc; [apply Hi|done].
  - intros q o' f Hq. by apply disjoint_half, (Hdj q o' f).
  - intros p' ho [= <- <-]. split_and!; [by apply wf_block_set_desc|done|].
    intros q o' f Hq. by apply disjoint_half, (Hdj q o' f).
  - intros x. simpl. unfold b. lia.
Qed.

(** The two ghost maps have the same allocated blocks. *)
Definition same_alloc (U U' : gmap Z (Z * bool)) : Prop :=
  forall q o, U' !! q = Some (o, false) <-> U !! q = Some (o, false).

Lemma same_alloc_trans U1 U2 U3 : same_alloc U1 U2 -> same_alloc U2 U3 -> same_alloc U1 U3.
Proof. intros H1 H2 q o. rewrite (H2 q o). apply H1. Qed.

Lemma same_alloc_insert U b o : U !! b = None -> same_alloc U (<[b := (o, true)]> U).
Proof. intros Hb q o'. rewrite lookup_insert. case_decide; [subst; rewrite Hb|]; naive_solver. Qed.

Lemma same_alloc_delete U b o : U !! b = Some (o, true) -> same_alloc U (delete b U).
Proof. intros Hb q o'. rewrite lookup_delete. case_decide; [subst; rewrite Hb|]; naive_solver. Qed.

Lemma split_loop_spec n s L U p o d :
  buddy_inv s L U (Some (p, o + Z.of_nat n)) d -> 0 <= o ->
  exists L' U', buddy_inv (split_loop s node z p (o + Z.of_nat n) n) L' U' (Some (p, o))
      (d - (2 ^ (o + Z.of_nat n) - 2 ^ o)) /\ same_alloc U U' /\
    pages L' = pages L + (2 ^ (o + Z.of_nat n) - 2 ^ o).
Proof.
  revert s L U d. induction n as [|n IH]; intros s L U d Hi Ho.
  { exists L, U. rewrite Z.add_0_r, Z.sub_diag, Z.sub_0_r, Z.add_0_r in *. done. }
  replace (o + Z.of_nat (S n)) with (o + Z.of_nat n + 1) in * by lia.
  cbn [split_loop]. replace (o + Z.of_nat n + 1 - 1) with (o + Z.of_nat n) by lia.
  set (c := o + Z.of_nat n) in *. set (b := p + block_size c).
  destruct (bi_hand _ _ _ _ _ Hi p (c + 1) eq_refl) as [Hw Hdj].
  pose proof (split_step s L U p c d Hi ltac:(lia)) as Hs. cbn zeta in Hs. fold b in Hs.
  destruct (IH _ _ _ _ Hs Ho) as (L' & U' & Hi' & Ha & Hpg). exists L', U'.
  assert (Hp2 : 2 ^ (c + 1) = 2 * 2 ^ c) by (rewrite Z.pow_add_r by lia; lia).
  split_and!.
  - replace (d - (2 ^ (c + 1) - 2 ^ o)) with (d - 2 ^ c - (2 ^ c - 2 ^ o)) by lia. done.
  - eapply same_alloc_trans; [|exact Ha]. apply same_alloc_insert.
    eapply fresh_base; [exact Hi| |intros q o' f Hq; by eapply disjoint_half, Hdj; [lia|]].
    destruct Hw as (Hok & _). unfold order_ok in *. lia.
  - rewrite Hpg, pages_upd; [cbn [length]; lia|].
    destruct Hw as (Hok & _). unfold order_ok in *. lia.
Qed.

Lemma allocatable_free s L U hand d p o :
  buddy_inv s L U hand d -> U !! p = Some (o, true) ->
  forall s', frame_table s' = frame_table s -> max_pfn s' = max_pfn s -> frames s' = frames s ->
  allocatable_frame s' p = true.
Proof.
  intros Hi HU s' E1 E2 E3. pose proof (bi_wf _ _ _ _ _ Hi p o true HU) as Hw.
  destruct (block_page s p o Hw) as [[k Hk] Hr]. destruct (bi_max _ _ _ _ _ Hi) as [Hm0 Hm].
  destruct (bi_tag _ _ _ _ _ Hi p o HU) as [Ht _]. destruct Hw as (_ & Hp0 & _).
  unfold allocatable_frame, desc_of. rewrite E1, E2, (bi_table _ _ _ _ _ Hi).
  unfold max_phys, PAGE_SIZE, PAGE_SHIFT in *. cbn [negb].
  rewrite Z.shiftr_div_pow2, Z.shiftl_mul_pow2 by lia. change (2 ^ 12) with 4096.
  rewrite (proj2 (Z.leb_gt _ _)) by lia. unfold frame in *. rewrite E3, Ht.
  rewrite bool_decide_true by done. rewrite (u64_small (max_pfn s * 4096)) by (unfold fits; lia).
  rewrite (proj2 (Z.ltb_lt _ _)), (proj2 (Z.eqb_neq _ _)) by lia.
  change (4096 - 1) with (Z.ones 12). rewrite land_ones_mod by lia. change (2 ^ 12) with 4096.
  rewrite (proj2 (Z.eqb_eq _ _)); [done|]. rewrite Hk. apply Z.mod_mul. lia.
Qed.

(** The scan from order [ord] upwards. *)
Lemma alloc_scan_spec n s L U order ord :
  buddy_inv s L U None 0 -> 0 <= order <= ord -> ord + Z.of_nat n = MAX_ORDER + 1 ->
  (forall o, order <= o < ord -> L o = []) ->
  exists p s', alloc_scan s node z order ord n = Some (p, s') /\
    ((p = 0 /\ buddy_inv s' L U None 0 /\ forall o, order <= o <= MAX_ORDER -> L o = []) \/
     (p <> 0 /\ exists L' U', buddy_inv s' L' U' (Some (p, order)) 0 /\ same_alloc U U' /\
        pages L' = pages L - 2 ^ order)).
Proof.
  revert s ord. induction n as [|n IH]; intros s ord Hi Ho Hn Hemp.
  { exists 0, s. split; [done|]. left. split_and!; [done|done|]. intros o Hr. apply Hemp. lia. }
  cbn [alloc_scan]. assert (Hok : order_ok ord) by (unfold order_ok; lia).
  destruct (L ord) as [|p l] eqn:HL.
  - destruct (pop_empty s L U None 0 ord Hi Hok HL) as (s1 & -> & Hi1). cbn [Z.eqb].
    apply IH; [done|lia|lia|]. intros o Hr. destruct (decide (o = ord)) as [->|]; [done|].
    apply Hemp. lia.
  - destruct (pop_head s L U None 0 ord p l Hi Hok HL) as [Hp ->].
    rewrite (proj2 (Z.eqb_neq p 0)) by done.
    assert (HU : U !! p = Some (ord, true)).
    { apply (bi_free _ _ _ _ _ Hi); [done|]. rewrite HL. left. }
    pose proof (bi_wf _ _ _ _ _ Hi p ord true HU) as Hw.
    rewrite (allocatable_free s L U None 0 p ord Hi HU) by
      (unfold remove; by destruct (bz_remove _ _ _ _)). cbn [negb].
    destruct (inv_remove s L U None (Some (p, ord)) 0 p ord Hi HU) as (l' & Hi1 & Hpg).
    { intros p' ho [= <- <-]. split; [done|]. intros q o' f Hne Hq.
      by eapply (bi_disj _ _ _ _ _ Hi p ord true q o' f). }
    { intros y [[]|Hy]. exact Hy. }
    replace (Some (p, ord)) with (Some (p, order + Z.of_nat (Z.to_nat (ord - order)))) in Hi1
      by (do 2 f_equal; lia).
    destruct (split_loop_spec _ _ _ _ p order _ Hi1 ltac:(lia)) as (L' & U' & Hi2 & Ha & Hpg2).
    rewrite Z2Nat.id in * by lia. replace (order + (ord - order)) with ord in * by lia.
    eexists _, _. split; [done|]. right. split; [done|]. exists L', U'.
    apply (inv_add_free _ _ _ _ _ (- Z.shiftl 1 order)) in Hi2.
    rewrite Z.shiftl_1_l in Hi2. split_and!.
    + rewrite Z.shiftl_1_l. replace 0 with (0 + 2 ^ ord - (2 ^ ord - 2 ^ order) + - 2 ^ order) by lia.
      exact Hi2.
    + eapply same_alloc_trans; [|exact Ha]. by eapply same_alloc_delete.
    + lia.
Qed.

(** A descriptor that passes the coalescing checks belongs to a block on the
    list: it cannot be a stale tag inside some other block, since that block
    would also contain the block in hand. *)
Lemma merge_found s L U p o d :
  buddy_inv s L U (Some (p, o)) d ->
  let b := Z.lxor p (block_size o) in
  0 <= b < max_phys s -> zone_of b = z -> tagged s b o ->
  U !! b = Some (o, true).
Proof.
  intros Hi b Hb Hz Ht. destruct (bi_hand _ _ _ _ _ Hi p o eq_refl) as [Hw Hdj].
  destruct Hw as (Hok & Hp & Hd & Hm & Hzp). unfold order_ok in Hok.
  destruct (buddy_halves p o ltac:(lia) Hd) as (Hbd & Hmd & Hcase). fold b in Hbd, Hmd, Hcase.
  set (m := Z.min p b) in *. pose proof (block_size_pos o ltac:(lia)) as Hsz.
  rewrite (block_size_succ o) in Hmd by lia.
  assert (Hba : (PAGE_SIZE | b)).
  { eapply Z.divide_trans; [|exact Hbd]. apply (block_size_divide 0 o). lia. }
  destruct (bi_stale _ _ _ _ _ Hi b o Hb Hba Hz Ht) as [HU|[(q & oq & f & Hq & Hr)|Hh]]; [done| |].
  - exfalso. pose proof (bi_wf _ _ _ _ _ Hi q oq f Hq) as (Hoq & Hq0 & Hqd & _).
    unfold order_ok in Hoq. destruct (decide (oq <= o)) as [Hle|Hgt].
    + assert (q + block_size oq <= b); [|lia]. apply multiple_gap; [done| |lia].
      eapply Z.divide_trans; [|exact Hbd]. apply block_size_divide. lia.
    + assert (Hdiv : (2 * block_size o | block_size oq)).
      { rewrite <- block_size_succ by lia. apply block_size_divide. lia. }
      assert (Hqm : (2 * block_size o | q)) by (by eapply Z.divide_trans).
      assert (q <= m).
      { assert (q + 2 * block_size o <= m + 2 * block_size o); [|lia].
        apply multiple_gap; [done|apply Z.divide_add_r; [done|apply Z.divide_refl]|lia]. }
      assert (m + 2 * block_size o <= q + block_size oq).
      { apply multiple_gap; [done|by apply Z.divide_add_r|lia]. }
      destruct (Hdj q oq f Hq); lia.
  - simpl in Hh. lia.
Qed.

(** One step of the coalescing loop. *)
Lemma merge_step s L U p o d :
  buddy_inv s L U (Some (p, o)) d -> o < MAX_ORDER ->
  let b := Z.lxor p (block_size o) in
  U !! b = Some (o, true) ->
  exists L', buddy_inv
      (set_desc (add_free (remove s node z o b) node z (- Z.shiftl 1 o)) b
         (desc_set 0 fo_none node ff_none))
      L' (delete b U) (Some (Z.min p b, o + 1)) d /\ pages L' = pages L - 2 ^ o.
Proof.
  intros Hi Hmax b HU. destruct (bi_hand _ _ _ _ _ Hi p o eq_refl) as [Hw Hdj].
  pose proof (bi_wf _ _ _ _ _ Hi b o true HU) as Hwb.
  destruct (block_page s b o Hwb) as [Hba Hbr].
  destruct Hw as (Hok & Hp & Hd & Hm & Hzp). destruct Hwb as (_ & Hb0 & _ & Hbm & Hzb).
  unfold order_ok in Hok.
  destruct (buddy_halves p o ltac:(lia) Hd) as (Hbd & Hmd & Hcase). fold b in Hbd, Hmd, Hcase.
  pose proof (block_size_pos o ltac:(lia)) as Hsz. pose proof (block_size_succ o ltac:(lia)) as Hs2.
  destruct (inv_remove s L U (Some (p, o)) (Some (Z.min p b, o + 1)) d b o Hi HU) as (l & Hi1 & Hpg).
  - intros p' ho [= <- <-]. split.
    + split; [unfold order_ok; lia|]. split_and!; [lia|done|lia|].
      destruct Hcase as [[<- _]|[<- _]]; done.
    + intros q o' f Hne Hq. pose proof (Hdj q o' f Hq) as H1.
      pose proof (bi_disj _ _ _ _ _ Hi b o true q o' f HU Hq ltac:(congruence)) as H2.
      pose proof (bi_wf _ _ _ _ _ Hi q o' f Hq) as (Hoq & _). unfold order_ok in Hoq.
      pose proof (block_size_pos o' ltac:(lia)). unfold disjoint_blocks in *. lia.
  - intros y. simpl. lia.
  - exists (upd_list L o l). split; [|done].
    assert (Hrm : forall t, t = remove s node z o b -> frame_table t = frame_table s /\ max_pfn t = max_pfn s).
    { intros t ->. unfold remove. by destruct (bz_remove _ _ _ _). }
    destruct (Hrm _ eq_refl) as [Et Em].
    apply inv_set_desc; [|done| |simpl; lia].
    + apply (inv_add_free _ _ _ _ _ (- Z.shiftl 1 o)) in Hi1. rewrite Z.shiftl_1_l in *.
      replace d with (d + 2 ^ o + - 2 ^ o) by lia. exact Hi1.
    + unfold max_phys. change (max_pfn (add_free ?t _ _ _)) with (max_pfn t). by rewrite Em.
Qed.

(** The descriptors of the allocated blocks are untouched. *)
Definition keeps_heads (U : gmap Z (Z * bool)) (s s' : pmm) : Prop :=
  forall q oq, U !! q = Some (oq, false) -> frame s' (q / PAGE_SIZE) = frame s (q / PAGE_SIZE).

Lemma set_desc_other s p d q : (PAGE_SIZE | p) -> (PAGE_SIZE | q) -> p <> q ->
  frame (set_desc s p d) (q / PAGE_SIZE) = frame s (q / PAGE_SIZE).
Proof.
  intros Hp Hq Hne. unfold set_desc, desc_of. destruct (negb _); [done|].
  destruct (_ <=? _); [done|]. unfold frame. cbn [frames with_frames].
  rewrite lookup_insert_ne; [done|]. unfold PAGE_SHIFT. rewrite Z.shiftr_div_pow2 by lia.
  intros E. by apply Hne, page_index_inj.
Qed.

Lemma keeps_set_desc s L U hand d p x : buddy_inv s L U hand d -> (PAGE_SIZE | p) ->
  (forall oq, U !! p <> Some (oq, false)) -> keeps_heads U s (set_desc s p x).
Proof.
  intros Hi Hp Hno q oq Hq. apply set_desc_other; [done| |congruence].
  by destruct (block_page s q oq (bi_wf _ _ _ _ _ Hi q oq false Hq)).
Qed.

Lemma merge_loop_spec n s L U p o d :
  buddy_inv s L U (Some (p, o)) d -> o + Z.of_nat n = MAX_ORDER ->
  let '(p', o', s') := merge_loop s node z p o n in
  exists L' U', buddy_inv s' L' U' (Some (p', o')) d /\ same_alloc U U' /\
    pages L' = pages L - (2 ^ o' - 2 ^ o) /\ o <= o' /\ keeps_heads U s s'.
Proof.
  revert s L U p o. induction n as [|n IH]; intros s L U p o Hi Hn; cbn [merge_loop].
  { exists L, U. split_and!; [done|done|lia|lia|done]. }
  assert (Hstop : exists L' U', buddy_inv s L' U' (Some (p, o)) d /\ same_alloc U U' /\
    pages L' = pages L - (2 ^ o - 2 ^ o) /\ o <= o /\ keeps_heads U s s).
  { exists L, U. split_and!; [done|done|lia|lia|done]. }
  destruct (bi_hand _ _ _ _ _ Hi p o eq_refl) as [Hw _].
  destruct (block_page s p o Hw) as [Hpa Hpr].
  set (b := Z.lxor p (block_size o)).
  destruct (bool_decide_reflect (zone_of b = z)) as [Hz|]; cbn [negb]; [|done].
  destruct (desc_of s b) as [i|e] eqn:Hd; [|done].
  destruct (bool_decide_reflect (fd_owner (frame s i) = fo_buddy)) as [Hown|]; cbn [negb]; [|done].
  destruct (Z.eqb_spec (fd_node (frame s i)) node) as [Hnode|]; cbn [negb]; [|done].
  destruct (has_flag (frame s i) ff_offline).
  { rewrite (desc_of_ok s p) by (done || apply Hi). exists L, U.
    assert (E : set_desc s p (desc_or_flags (frame s (p / PAGE_SIZE)) ff_suspect) =
      with_frames s (<[p / PAGE_SIZE := desc_or_flags (frame s (p / PAGE_SIZE)) ff_suspect]> (frames s))).
    { unfold set_desc. by rewrite (desc_of_ok s p) by (done || apply Hi). }
    rewrite <- E. split_and!; [|done|lia|lia|].
    2:{ eapply keeps_set_desc; [done..|]. intros oq.
        rewrite (fresh_base s L U (Some (p, o)) d p o); [done|done|by destruct Hw|].
        by apply (bi_hand _ _ _ _ _ Hi p o eq_refl). }
    apply inv_set_desc; try done. simpl. destruct Hw as (Hok & _).
    unfold order_ok in Hok. pose proof (block_size_pos o ltac:(lia)). lia. }
  destruct (Z.eqb_spec (fd_order (frame s i)) o) as [Hord|]; cbn [negb]; [|done].
  assert (Hb : 0 <= b < max_phys s /\ i = b / PAGE_SIZE).
  { unfold desc_of in Hd. rewrite (bi_table _ _ _ _ _ Hi) in Hd. cbn [negb] in Hd.
    unfold PAGE_SHIFT in Hd. rewrite Z.shiftr_div_pow2 in Hd by lia. change (2 ^ 12) with 4096 in Hd.
    destruct (Z.leb_spec (max_pfn s) (b / 4096)); [done|]. injection Hd as <-.
    assert (0 <= b). { unfold b. apply Z.lxor_nonneg. destruct Hw as ((? & _) & _).
      pose proof (block_size_pos o ltac:(lia)). lia. }
    unfold max_phys, PAGE_SIZE. split; [lia|done]. }
  destruct Hb as [Hbr ->].
  assert (HU : U !! b = Some (o, true)) by (by apply (merge_found s L U p o d)).
  destruct (merge_step s L U p o d Hi ltac:(lia) HU) as (L1 & Hi1 & Hpg1). fold b in Hi1.
  specialize (IH _ _ _ _ _ Hi1 ltac:(lia)).
  destruct (merge_loop _ _ _ _ _ _) as [[p' o'] s'].
  destruct IH as (L' & U' & Hi' & Ha & Hpg & Hle & Hkp). exists L', U'. split_and!; [done| | |lia|].
  - eapply same_alloc_trans; [by eapply same_alloc_delete|done].
  - rewrite Hpg, Hpg1. destruct Hw as (Hok & _). unfold order_ok in Hok.
    rewrite (Z.pow_add_r 2 o 1) by lia. lia.
  - intros q oq Hq. rewrite (Hkp q oq) by (rewrite lookup_delete_ne; congruence).
    destruct (block_page s b o (bi_wf _ _ _ _ _ Hi b o true HU)) as [Hba _].
    destruct (block_page s q oq (bi_wf _ _ _ _ _ Hi q oq false Hq)) as [Hqa _].
    rewrite set_desc_other by (done || congruence).
    unfold remove. by destruct (bz_remove _ _ _ _).
Qed.

Lemma free_locked_spec s L U p o :
  buddy_inv s L U (Some (p, o)) 0 -> normalize_node_id node = node ->
  exists L' U', buddy_inv (free_locked s p o z node) L' U' None 0 /\ same_alloc U U' /\
    pages L' = pages L + 2 ^ o /\ keeps_heads U s (free_locked s p o z node).
Proof.
  intros Hi Hnorm. unfold free_locked. rewrite Hnorm.
  destruct (bi_hand _ _ _ _ _ Hi p o eq_refl) as [(Hok & _) _]. unfold order_ok in Hok.
  pose proof (merge_loop_spec (Z.to_nat (MAX_ORDER - o)) s L U p o 0 Hi ltac:(lia)) as Hm.
  destruct (merge_loop _ _ _ _ _ _) as [[p' o'] s']. destruct Hm as (L1 & U1 & Hi1 & Ha & Hpg & Hle & Hkp).
  destruct (bi_hand _ _ _ _ _ Hi1 p' o' eq_refl) as [Hw Hdj].
  destruct (block_page s' p' o' Hw) as [Hpa Hpr].
  rewrite (desc_of_ok s' p') by (done || apply Hi1). set (fl := Z.land _ _).
  assert (Hok' : order_ok o') by (by destruct Hw). unfold order_ok in Hok'.
  pose proof (block_size_pos o' ltac:(lia)) as Hsz.
  assert (HU1 : U1 !! p' = None) by (by eapply fresh_base).
  assert (Hin : in_hand (Some (p', o')) p') by (simpl; lia).
  exists (upd_list L1 o' (p' :: L1 o')), (<[p' := (o', true)]> U1). split_and!.
  - replace 0 with (0 - 2 ^ o' + Z.shiftl 1 o') by (rewrite Z.shiftl_1_l; lia).
    apply inv_add_free. apply inv_push with (hand := Some (p', o')).
    + by apply inv_set_desc.
    + by apply wf_block_set_desc.
    + apply tagged_set_desc; [apply Hi1|done].
    + done.
    + done.
    + intros x Hx. by left.
  - eapply same_alloc_trans; [exact Ha|by apply same_alloc_insert].
  - rewrite pages_upd by done. cbn [length]. lia.
  - intros q oq Hq. rewrite <- (Hkp q oq Hq).
    transitivity (frame (set_desc s' p' (desc_set o' fo_buddy node fl)) (q / PAGE_SIZE)).
    { unfold push. by destruct (bz_push _ _ _ _). }
    apply Ha in Hq. apply set_desc_other; [done| |congruence].
    by destruct (block_page s' q oq (bi_wf _ _ _ _ _ Hi1 q oq false Hq)).
Qed.

(** Handing the block in hand to a client: its descriptor must not say buddy. *)
Lemma inv_grab s L U p o d :
  buddy_inv s L U (Some (p, o)) d -> fd_owner (frame s (p / PAGE_SIZE)) <> fo_buddy ->
  buddy_inv s L (<[p := (o, false)]> U) None d.
Proof.
  intros Hi Hown. destruct (bi_hand _ _ _ _ _ Hi p o eq_refl) as [Hw Hdj].
  assert (HU : U !! p = None) by (eapply fresh_base; [exact Hi|by destruct Hw|exact Hdj]).
  destruct Hi as [H1 H2 H3 H4 H5 H6 H7 H8 H9 H10 H11]. split; try done.
  - intros o' q Ho'. rewrite (H5 o' q Ho'), lookup_insert. case_decide; [subst; rewrite HU|]; naive_solver.
  - intros q o' f. rewrite lookup_insert. case_decide; [|apply H6]. intros [= <- _]. by subst q.
  - intros a oa f q oq g Ha Hq Hne.
    apply lookup_insert_Some in Ha as [[<- [= <- <-]]|[Hpa Ha]];
    apply lookup_insert_Some in Hq as [[<- [= <- <-]]|[Hpq Hq]].
    + by destruct Hne.
    + exact (Hdj q oq g Hq).
    + unfold disjoint_blocks in *. destruct (Hdj a oa f Ha); auto.
    + exact (H7 a oa f q oq g Ha Hq Hne).
  - intros q o' Hq. apply lookup_insert_Some in Hq as [[_ [=]]|[_ Hq]]. by apply H8.
  - intros q o' Hqr Hqa Hqz Ht. rewrite lookup_insert. case_decide as Hpq.
    { subst q. by destruct Ht as [Ht _]. }
    destruct (H9 q o' Hqr Hqa Hqz Ht) as [HU'|[(a & oa & f & Ha & Hr)|Hh]].
    + by left.
    + right; left. exists a, oa, f. rewrite lookup_insert_ne by congruence. done.
    + right; left. exists p, o, false. rewrite lookup_insert_eq. simpl in Hh. split; [done|lia].
Qed.

(** Taking an allocated block back in hand. *)
Lemma inv_ungrab s L U p o d :
  buddy_inv s L U None d -> U !! p = Some (o, false) ->
  buddy_inv s L (delete p U) (Some (p, o)) d.
Proof.
  intros Hi HU. pose proof (bi_wf _ _ _ _ _ Hi p o false HU) as Hw.
  pose proof Hw as (Hok & _). unfold order_ok in Hok.
  pose proof (block_size_pos o ltac:(lia)).
  pose proof Hi as [H1 H2 H3 H4 H5 H6 H7 H8 H9 H10 H11]. split; try done.
  - intros o' q Ho'. rewrite (H5 o' q Ho'), lookup_delete. case_decide; [subst; rewrite HU|]; naive_solver.
  - intros q o' f Hq. apply lookup_delete_Some in Hq as [_ Hq]. by eapply H6.
  - intros a oa f q oq g Ha Hq. apply lookup_delete_Some in Ha as [_ Ha].
    apply lookup_delete_Some in Hq as [_ Hq]. by eapply H7.
  - intros q o' Hq. apply lookup_delete_Some in Hq as [_ Hq]. by apply H8.
  - intros q o' Hqr Hqa Hqz Ht.
    destruct (H9 q o' Hqr Hqa Hqz Ht) as [HU'|[(a & oa & f & Ha & Hr)|[]]].
    + left. rewrite lookup_delete_ne by congruence. done.
    + destruct (decide (a = p)) as [->|]; [right; right; simpl; assert (oa = o) as -> by congruence; lia|].
      right; left. exists a, oa, f. by rewrite lookup_delete_ne by congruence.
  - intros p' o' [= <- <-]. split; [done|]. intros q oq f Hq.
    apply lookup_delete_Some in Hq as [Hne Hq]. by eapply H7.
Qed.

(** Contents of pages no list reads do not matter. *)
Lemma inv_with_nodes s L U d m :
  buddy_inv s L U None d ->
  (forall q o, U !! q = Some (o, true) -> node_at m q = node_at (nodes s) q) ->
  buddy_inv (with_nodes s m) L U None d.
Proof.
  intros [H1 H2 H3 H4 H5 H6 H7 H8 H9 H10 H11] Hm. split; try done.
  intros o Ho. destruct (H4 o Ho) as ([Hh Hl] & Hnd & Hc). split_and!; [|done|done].
  split; [exact Hh|]. intros i x Hx. change (nodes (with_nodes s m)) with m.
  rewrite (Hm x o); [by apply Hl|].
  apply H5; [done|]. by eapply list_elem_of_lookup_2.
Qed.

(** ** A client of the locked allocator

    [live] records the blocks handed out and not yet returned.  The caller of
    [alloc_locked] stamps the descriptor with the new owner, as [alloc] and
    [transaction::alloc] do; between calls it may write anything into its own
    blocks, including the sixteen bytes the allocator uses for its links. *)
Inductive client_step : pmm * gmap Z Z -> pmm * gmap Z Z -> Prop :=
  | cs_alloc s live o ow p s' :
      order_ok o -> ow <> fo_buddy -> alloc_locked s o z node = Some (p, s') -> p <> 0 ->
      client_step (s, live)
        (set_desc s' p (desc_set o ow node ff_none), <[p := o]> live)
  | cs_exhausted s live o s' :
      order_ok o -> alloc_locked s o z node = Some (0, s') ->
      client_step (s, live) (s', live)
  | cs_write s live p o m :
      live !! p = Some o ->
      (forall q, ~ (p <= q < p + block_size o) -> node_at m q = node_at (nodes s) q) ->
      client_step (s, live) (with_nodes s m, live)
  | cs_free s live p o :
      live !! p = Some o ->
      client_step (s, live) (free_locked s p o z node, delete p live).

Definition live_pages (live : gmap Z Z) : Z := map_fold (fun _ o acc => 2 ^ o + acc) 0 live.

Lemma live_pages_insert live p o :
  live !! p = None -> live_pages (<[p := o]> live) = 2 ^ o + live_pages live.
Proof.
  intros Hp. unfold live_pages. rewrite map_fold_insert_L; [done| |done].
  intros. lia.
Qed.

Lemma live_pages_delete live p o :
  live !! p = Some o -> live_pages live = 2 ^ o + live_pages (delete p live).
Proof.
  intros Hp. rewrite <- (live_pages_insert (delete p live) p o) by apply lookup_delete_eq.
  by rewrite insert_delete_id.
Qed.

(** The blocks of [live] are exactly the allocated blocks of the zone. *)
Definition client_inv (N : Z) (c : pmm * gmap Z Z) : Prop :=
  exists L U, buddy_inv c.1 L U None 0 /\
    (forall p o, U !! p = Some (o, false) <-> c.2 !! p = Some o) /\
    pages L + live_pages c.2 = N.

Context (node_ok : normalize_node_id node = node).

(** [alloc_locked] in full: it never meets a corrupt list, reports exhaustion
    exactly when no list of sufficient order has a block, and otherwise hands
    out a block that overlaps no allocated one. *)
Lemma alloc_locked_spec s L U o :
  buddy_inv s L U None 0 -> order_ok o ->
  exists p s', alloc_locked s o z node = Some (p, s') /\
    ((p = 0 /\ buddy_inv s' L U None 0 /\ forall o', o <= o' <= MAX_ORDER -> L o' = []) \/
     (p <> 0 /\ exists L' U', buddy_inv s' L' U' (Some (p, o)) 0 /\ same_alloc U U' /\
        pages L' = pages L - 2 ^ o)).
Proof.
  intros Hi Ho. unfold alloc_locked. rewrite node_ok. unfold order_ok in Ho.
  apply alloc_scan_spec; [done|lia|lia|]. intros o' Hr. lia.
Qed.

Lemma hand_set_desc s L U p o d x :
  buddy_inv s L U (Some (p, o)) d -> buddy_inv (set_desc s p x) L U (Some (p, o)) d.
Proof.
  intros Hi. destruct (bi_hand _ _ _ _ _ Hi p o eq_refl) as [Hw _].
  destruct (block_page s p o Hw) as [Hpa Hpr]. destruct Hw as (Hok & _). unfold order_ok in Hok.
  pose proof (block_size_pos o ltac:(lia)).
  apply inv_set_desc; [done|done|done|simpl; lia].
Qed.

(** Stamping the descriptor of the block in hand and handing it out. *)
Lemma hand_out s L U p o ow :
  buddy_inv s L U (Some (p, o)) 0 -> ow <> fo_buddy ->
  U !! p = None /\
  buddy_inv (set_desc s p (desc_set o ow node ff_none)) L (<[p := (o, false)]> U) None 0.
Proof.
  intros Hi How. destruct (bi_hand _ _ _ _ _ Hi p o eq_refl) as [Hw Hdj].
  destruct (block_page s p o Hw) as [Hpa Hpr].
  split; [eapply fresh_base; [exact Hi|by destruct Hw|exact Hdj]|].
  apply inv_grab; [by apply hand_set_desc|].
  rewrite (frame_set_desc s p _ (p / PAGE_SIZE)) by (apply desc_of_ok; [apply Hi|done]).
  by rewrite decide_True.
Qed.

(** Every step of a client keeps the invariant, and so does any run. *)
Lemma client_step_inv N c c' : client_inv N c -> client_step c c' -> client_inv N c'.
Proof.
  intros (L & U & Hi & Hlive & HN) Hs. destruct Hs as
    [s live o ow p s' Ho How Ha Hp|s live o s' Ho Ha|s live p o m Hp Hm|s live p o Hp];
    cbn [fst snd] in *.
  - destruct (alloc_locked_spec s L U o Hi Ho) as (p1 & s1 & E & [(H0 & _)|(_ & L' & U' & Hi' & Hsa & Hpg)]);
      rewrite Ha in E; injection E as E1 E2; subst p1 s1; [done|].
    destruct (hand_out s' L' U' p o ow Hi' How) as [HUp Hi2].
    assert (Hlp : live !! p = None).
    { destruct (live !! p) as [o'|] eqn:El; [|done].
      apply Hlive, Hsa in El. congruence. }
    exists L', (<[p := (o, false)]> U'). cbn [fst snd]. split_and!; [done| |].
    + intros q oq. rewrite !lookup_insert. destruct (decide (p = q)); [naive_solver|].
      rewrite (Hsa q oq). apply Hlive.
    + rewrite live_pages_insert by done. lia.
  - destruct (alloc_locked_spec s L U o Hi Ho) as (p1 & s1 & E & [(H0 & Hi' & _)|(Hne & _)]);
      rewrite Ha in E; injection E as E1 E2; subst p1 s1; [|done].
    by exists L, U.
  - exists L, U. cbn [fst snd]. split_and!; [|done|done]. apply inv_with_nodes; [done|].
    intros q oq Hq. apply Hm. apply Hlive in Hp.
    assert (p <> q) by congruence.
    destruct (bi_disj _ _ _ _ _ Hi p o false q oq true Hp Hq) as [Hd|Hd]; [done|lia|].
    destruct (bi_wf _ _ _ _ _ Hi q oq true Hq) as [Hok _]. unfold order_ok in Hok.
    pose proof (block_size_pos oq ltac:(lia)). lia.
  - pose proof Hp as HU. apply Hlive in HU.
    destruct (free_locked_spec s L (delete p U) p o) as (L' & U' & Hi' & Hsa & Hpg & _);
      [by apply inv_ungrab|done|].
    exists L', U'. cbn [fst snd]. split_and!; [done| |].
    + intros q oq. rewrite (Hsa q oq), !lookup_delete. destruct (decide (p = q)); [naive_solver|].
      apply Hlive.
    + rewrite (live_pages_delete live p o Hp) in HN. lia.
Qed.

Lemma client_run_inv N c c' : client_inv N c -> rtc client_step c c' -> client_inv N c'.
Proof. intros Hc Hr. induction Hr; eauto using client_step_inv. Qed.

(** What the invariant means for a client. *)
Lemma client_inv_safe N s live :
  client_inv N (s, live) ->
  (forall p o q o', live !! p = Some o -> live !! q = Some o' -> p <> q ->
     p + block_size o <= q \/ q + block_size o' <= p) /\
  (forall p o, live !! p = Some o ->
     0 < p /\ (block_size o | p) /\ p + block_size o <= max_phys s /\ zone_of p = z) /\
  free_pages (nz s node z) = u64 (N - live_pages live) /\
  (forall o, order_ok o -> alloc_locked s o z node <> None).
Proof.
  intros (L & U & Hi & Hlive & HN). cbn [fst snd] in *. split_and!.
  - intros p o q o' Hp Hq Hne. apply Hlive in Hp, Hq. exact (bi_disj _ _ _ _ _ Hi _ _ _ _ _ _ Hp Hq Hne).
  - intros p o Hp. apply Hlive in Hp. destruct (bi_wf _ _ _ _ _ Hi p o false Hp) as (_ & H). exact H.
  - rewrite (bi_pages _ _ _ _ _ Hi). f_equal. lia.
  - intros o Ho. destruct (alloc_locked_spec s L U o Hi Ho) as (p & s' & -> & _). discriminate.
Qed.

End invariant.

(** No operation of the allocator moves the end of memory. *)
Lemma set_desc_max_pfn s p d : max_pfn (set_desc s p d) = max_pfn s.
Proof. unfold set_desc. by destruct (desc_of s p). Qed.

Lemma push_max_pfn s node z o p : max_pfn (push s node z o p) = max_pfn s.
Proof. unfold push. by destruct (bz_push _ _ _ _). Qed.

Lemma split_loop_max_pfn n s node z p o : max_pfn (split_loop s node z p o n) = max_pfn s.
Proof.
  revert s o. induction n as [|n IH]; intros s o; cbn [split_loop]; [done|].
  by rewrite IH, set_desc_max_pfn, push_max_pfn.
Qed.

Lemma alloc_scan_max_pfn n s node z o o' p s' :
  alloc_scan s node z o o' n = Some (p, s') -> max_pfn s' = max_pfn s.
Proof.
  revert s o'. induction n as [|n IH]; intros s o'; cbn [alloc_scan]; [by intros [= _ <-]|].
  assert (Hpop : max_pfn (pop s node z o').2 = max_pfn s)
    by (unfold pop; by destruct (bz_pop _ _ _) as [[? ?] ?]).
  destruct (pop s node z o') as [q s1]. cbn [snd] in Hpop. destruct (q =? 0).
  - intros E. rewrite (IH _ _ E). done.
  - destruct (allocatable_frame s1 q); cbn [negb]; [|done]. intros [= _ <-].
    etransitivity; [exact (split_loop_max_pfn _ s1 node z q o')|done].
Qed.

Lemma alloc_locked_max_pfn s o z node p s' :
  alloc_locked s o z node = Some (p, s') -> max_pfn s' = max_pfn s.
Proof. apply alloc_scan_max_pfn. Qed.

(** ** A small machine

    Four page frames; frames 2 and 3 form one free block of order 1. *)
Definition demo_list (o : Z) : list Z := if decide (o = 1) then [8192] else [].
Definition demo_blocks : gmap Z (Z * bool) := {[ 8192 := (1, true) ]}.
Definition demo_pmm : pmm :=
  add_free (set_desc (push (Pmm ∅ true ∅ 4 ∅ 0) 0 dma31 1 8192) 8192
    (desc_set 1 fo_buddy 0 ff_none)) 0 dma31 2.

(** The same machine with frame 2 allocated and frame 3 free. *)
Definition half_list (o : Z) : list Z := if decide (o = 0) then [12288] else [].
Definition half_blocks : gmap Z (Z * bool) := {[ 8192 := (0, false); 12288 := (0, true) ]}.
Definition half_pmm : pmm :=
  add_free (set_desc (push (set_desc (Pmm ∅ true ∅ 4 ∅ 0) 8192 (desc_set 0 fo_domain 0 ff_none))
    0 dma31 0 12288) 12288 (desc_set 0 fo_buddy 0 ff_none)) 0 dma31 1.

Lemma demo_tagged p o :
  0 <= p < 16384 -> (PAGE_SIZE | p) -> tagged 0 demo_pmm p o -> p = 8192 /\ o = 1.
Proof.
  intros Hp [k Hk] (H1 & H2 & _). unfold PAGE_SIZE in *. rewrite Hk in *.
  assert (Hc : k = 0 \/ k = 1 \/ k = 2 \/ k = 3) by lia.
  rewrite Z.div_mul in * by lia.
  destruct Hc as [->|[->|[->| ->]]]; vm_compute in H1, H2; try discriminate. auto.
Qed.

Lemma half_tagged p o :
  0 <= p < 16384 -> (PAGE_SIZE | p) -> tagged 0 half_pmm p o -> p = 12288 /\ o = 0.
Proof.
  intros Hp [k Hk] (H1 & H2 & _). unfold PAGE_SIZE in *. rewrite Hk in *.
  assert (Hc : k = 0 \/ k = 1 \/ k = 2 \/ k = 3) by lia.
  rewrite Z.div_mul in * by lia.
  destruct Hc as [->|[->|[->| ->]]]; vm_compute in H1, H2; try discriminate. auto.
Qed.

Lemma order_cases o : order_ok o ->
  o = 0 \/ o = 1 \/ o = 2 \/ o = 3 \/ o = 4 \/ o = 5 \/ o = 6 \/ o = 7 \/ o = 8 \/ o = 9 \/ o = 10.
Proof. unfold order_ok, MAX_ORDER. lia. Qed.

(** Discharges [bi_list] on a machine with at most one free block. *)
Ltac demo_lists :=
  match goal with H : order_ok ?o |- _ => apply order_cases in H end;
  repeat match goal with H : _ \/ _ |- _ => destruct H as [H|H] end; subst;
  (split; [split; [reflexivity|intros [|i] x Hx; vm_compute in Hx; try discriminate;
                  injection Hx as <-; (split; [lia|reflexivity])]
          |split; [repeat constructor; set_solver|reflexivity]]).

Lemma demo_inv : buddy_inv 0 dma31 demo_pmm demo_list demo_blocks None 0.
Proof.
  split; unfold demo_blocks.
  - reflexivity.
  - split; vm_compute; congruence.
  - split; reflexivity.
  - intros o Ho. demo_lists.
  - intros o p Ho. unfold demo_list. rewrite lookup_singleton_Some.
    destruct (decide (o = 1)) as [->|]; set_solver.
  - intros p o f [<- [= <- <-]]%lookup_singleton_Some.
    split_and!; [split; done|lia|exists 1; reflexivity|vm_compute; congruence|reflexivity].
  - intros p o f q o' f' [<- _]%lookup_singleton_Some [<- _]%lookup_singleton_Some. done.
  - intros p o [<- [= <-]]%lookup_singleton_Some. split_and!; reflexivity.
  - intros p o Hp Ha _ Ht. apply demo_tagged in Ht as [-> ->]; [by left|exact Hp|done].
  - done.
  - reflexivity.
Qed.

Lemma half_inv : buddy_inv 0 dma31 half_pmm half_list half_blocks None 0.
Proof.
  split; unfold half_blocks.
  - reflexivity.
  - split; vm_compute; congruence.
  - split; reflexivity.
  - intros o Ho. demo_lists.
  - intros o p Ho. unfold half_list.
    rewrite lookup_insert_Some, lookup_singleton_Some.
    destruct (decide (o = 0)) as [->|]; [|set_solver]. rewrite list_elem_of_singleton.
    split; [intros ->; right; split; [lia|done]|]. intros [[_ [=]]|[_ [<- _]]]. done.
  - intros p o f [[<- [= <- <-]]|[_ [<- [= <- <-]]%lookup_singleton_Some]]%lookup_insert_Some;
      (split_and!; [split; done|lia| |vm_compute; congruence|reflexivity]).
    + exists 2; reflexivity.
    + exists 3; reflexivity.
  - intros p o f q o' f'
      [[<- [= <- <-]]|[_ [<- [= <- <-]]%lookup_singleton_Some]]%lookup_insert_Some
      [[<- [= <- <-]]|[_ [<- [= <- <-]]%lookup_singleton_Some]]%lookup_insert_Some Hne;
      try done; [left|right]; vm_compute; congruence.
  - intros p o [[_ [=]]|[_ [<- [= <-]]%lookup_singleton_Some]]%lookup_insert_Some.
    split_and!; reflexivity.
  - intros p o Hp Ha _ Ht. apply half_tagged in Ht as [-> ->]; [by left|exact Hp|done].
  - done.
  - reflexivity.
Qed.

(** ** Claims *)

(** C27: Allocation under the zone lock is sound and complete: it never reports list
    corruption; it fails exactly when every list of the requested order and
    above is empty, changing nothing; otherwise the block is well formed, lies in
    the zone, overlaps no block allocated before, every previously allocated
    block stays allocated, exactly [2^order] pages leave the free lists, and once
    the caller stamps the descriptor the allocator invariant holds again. *)
Theorem alloc_locked_correct node z s L U o ow :
  buddy_inv node z s L U None 0 -> normalize_node_id node = node -> order_ok o ->
  ow <> fo_buddy ->
  exists p s', alloc_locked s o z node = Some (p, s') /\
    ((p = 0 /\ (forall o', o <= o' <= MAX_ORDER -> L o' = []) /\
      buddy_inv node z s' L U None 0) \/
     (p <> 0 /\ wf_block z s p o /\
      (forall q o', U !! q = Some (o', false) -> disjoint_blocks p o q o') /\
      exists L' U',
        buddy_inv node z (set_desc s' p (desc_set o ow node ff_none)) L' U' None 0 /\
        (forall q o', U' !! q = Some (o', false) <->
           (q = p /\ o' = o) \/ U !! q = Some (o', false)) /\
        pages L' = pages L - 2 ^ o)).
Proof.
  intros Hi Hn Ho How.
  destruct (alloc_locked_spec node z Hn s L U o Hi Ho)
    as (p & s' & E & [(-> & Hi' & He)|(Hp & L' & U' & Hi' & Hsa & Hpg)]);
    eexists _, s'; (split; [exact E|]); [left; by split_and!|right].
  destruct (hand_out node z s' L' U' p o ow Hi' How) as [HUp Hi2].
  destruct (bi_hand _ _ _ _ _ _ _ Hi' p o eq_refl) as [Hw Hdj].
  assert (Hm : max_phys s' = max_phys s).
  { unfold max_phys. by rewrite (alloc_locked_max_pfn s o z node p s' E). }
  split_and!; [done| | |].
  - unfold wf_block in *. rewrite <- Hm. exact Hw.
  - intros q o' Hq. apply (Hdj q o' false). by apply Hsa.
  - exists L', (<[p := (o, false)]> U'). split_and!; [done| |done].
    intros q o'. rewrite lookup_insert. destruct (decide (p = q)) as [<-|Hne].
    + split; [intros [= <-]; by left|]. intros [[_ ->]|Hq]; [done|]. apply Hsa in Hq. congruence.
    + rewrite (Hsa q o'). split; [by right|]. intros [[-> _]|Hq]; done.
Qed.

Lemma alloc_locked_correct_witness :
  exists p s', alloc_locked demo_pmm 0 dma31 0 = Some (p, s') /\ p <> 0 /\
    free_pages (nz s' 0 dma31) = 1.
Proof.
  destruct (alloc_locked_correct 0 dma31 demo_pmm demo_list demo_blocks 0 fo_domain
    demo_inv eq_refl ltac:(split; [lia|vm_compute; congruence]) ltac:(discriminate))
    as (p & s' & E & [(-> & He & _)|(Hp & _)]).
  - assert (H : demo_list 1 = []) by (apply He; split; vm_compute; congruence). discriminate H.
  - exists p, s'. split; [exact E|]. split; [exact Hp|].
    vm_compute in E. injection E as _ <-. reflexivity.
Defined.

(** C28: Freeing an allocated block under the zone lock keeps the allocator invariant:
    whatever coalescing takes place, exactly that block stops being allocated,
    every other allocated block stays as it was and exactly [2^order] pages join
    the free lists. *)
Theorem free_locked_correct node z s L U p o :
  buddy_inv node z s L U None 0 -> normalize_node_id node = node ->
  U !! p = Some (o, false) ->
  exists L' U',
    buddy_inv node z (free_locked s p o z node) L' U' None 0 /\
    (forall q o', U' !! q = Some (o', false) <-> q <> p /\ U !! q = Some (o', false)) /\
    pages L' = pages L + 2 ^ o.
Proof.
  intros Hi Hn HU.
  destruct (free_locked_spec node z s L (delete p U) p o) as (L' & U' & Hi' & Hsa & Hpg & _);
    [by apply inv_ungrab|done|].
  exists L', U'. split_and!; [done| |done].
  intros q o'. rewrite (Hsa q o'), lookup_delete_Some. split; intros [? ?]; auto.
Qed.

(** Freeing frame 2 merges it with frame 3. *)
Lemma free_locked_correct_witness :
  (exists L' U', buddy_inv 0 dma31 (free_locked half_pmm 8192 0 dma31 0) L' U' None 0 /\
    pages L' = pages half_list + 2 ^ 0) /\
  nthZ 0 (heads (nz_buddy (nz (free_locked half_pmm 8192 0 dma31 0) 0 dma31))) 1 = 8192.
Proof.
  destruct (free_locked_correct 0 dma31 half_pmm half_list half_blocks 8192 0 half_inv
    eq_refl eq_refl) as (L' & U' & Hi & _ & Hpg).
  split; [|vm_compute; reflexivity]. exists L', U'. split; [exact Hi|exact Hpg].
Defined.

(** C1: Along every run of a client that allocates, writes into its blocks and frees
    what it holds, in any order, the live blocks stay pairwise disjoint, aligned
    and inside the zone's memory, [free_pages] is exactly the pages not held, and
    the allocator never reaches its corruption stop. *)
Theorem buddy_client_safe node z N s0 live0 s live :
  normalize_node_id node = node -> client_inv node z N (s0, live0) ->
  rtc (client_step node z) (s0, live0) (s, live) ->
  (forall p o q o', live !! p = Some o -> live !! q = Some o' -> p <> q ->
     disjoint_blocks p o q o') /\
  (forall p o, live !! p = Some o -> 0 < p /\ (block_size o | p) /\
     p + block_size o <= max_phys s /\ zone_of p = z) /\
  free_pages (nz s node z) = u64 (N - live_pages live) /\
  (forall o, order_ok o -> alloc_locked s o z node <> None).
Proof.
  intros Hn Hc Hr. apply client_inv_safe; [done|]. by eapply client_run_inv.
Qed.

(** The client takes frame 2, scribbles over it and gives it back. *)
Lemma buddy_client_safe_witness :
  exists s, rtc (client_step 0 dma31) (demo_pmm, ∅) (s, ∅) /\
    free_pages (nz s 0 dma31) = 2.
Proof.
  destruct (alloc_locked demo_pmm 0 dma31 0) as [[p s1]|] eqn:E; [|vm_compute in E; discriminate].
  pose (s2 := set_desc s1 8192 (desc_set 0 fo_domain 0 ff_none)).
  pose (s3 := with_nodes s2 (<[8192 := (77, 99)]> (nodes s2))).
  pose (s4 := free_locked s3 8192 0 dma31 0).
  assert (p = 8192) as -> by (vm_compute in E; congruence).
  assert (Hr : rtc (client_step 0 dma31) (demo_pmm, ∅) (s4, ∅)).
  { eapply rtc_l. { eapply (cs_alloc _ _ demo_pmm ∅ 0 fo_domain 8192 s1);
      [split; [lia|vm_compute; congruence]|discriminate|exact E|lia]. }
    fold s2. eapply rtc_l. { apply (cs_write _ _ s2 _ 8192 0 (<[8192 := (77, 99)]> (nodes s2)));
      [reflexivity|]. intros q Hq. unfold node_at. rewrite lookup_insert_ne; [done|].
      intros <-. apply Hq. split; [lia|vm_compute; reflexivity]. }
    fold s3. eapply rtc_l; [apply (cs_free _ _ s3 _ 8192 0); reflexivity|].
    fold s4. replace (delete 8192 (<[8192 := 0]> ∅)) with (∅ : gmap Z Z) by reflexivity.
    apply rtc_refl. }
  exists s4. split; [exact Hr|].
  destruct (buddy_client_safe 0 dma31 2 demo_pmm ∅ s4 ∅ eq_refl) as (_ & _ & Hf & _).
  - exists demo_list, demo_blocks. split; [exact demo_inv|]. split; [|reflexivity].
    intros q o. cbn [snd]. unfold demo_blocks. rewrite lookup_singleton_Some, lookup_empty.
    split; [intros [_ [=]]|intros [=]].
  - exact Hr.
  - rewrite Hf. reflexivity.
Defined.
