(* ===== verification/PmmApi.v ===== *)
(** * The physical memory manager's interface: page caches, placement, transactions

    Models the public half of [zxfoundation/memory/pmm.zcomponent/core.cxx] on top
    of the locked buddy allocator of [Pmm]: the per-CPU page caches (PCP), node
    aware allocation, [alloc] and [free], allocation transactions, frame reference
    counts and mapping authority, and the HHDM range test of
    [zxfoundation/memory/hhdm.zcomponent/core.cxx].  The page reclaimer that
    [alloc] calls between its two attempts is an argument.  [None] is a
    [syschk_fatal].  Locks are the serialisation of the steps. *)

From S2P Require Import Prelude Errors Kobject Numa Dlist Pmm.

Record pcp_list := PcpList { head_phys : Z; pcp_count : Z }.
Definition pcp_empty : pcp_list := PcpList 0 0.

(** The machine: allocator state, per-CPU caches by (CPU, node, zone, order), the
    topology, the end of the direct map and the reclaim latch. *)
Record machine := Machine {
  ph : pmm;
  pcps : gmap (Z * Z * Z * Z) pcp_list;
  topo : numa;
  coverage_end : Z;
  reclaim_active : bool
}.

Definition with_ph (m : machine) (s : pmm) : machine :=
  Machine s (pcps m) (topo m) (coverage_end m) (reclaim_active m).
Definition with_pcp (m : machine) (k : Z * Z * Z * Z) (l : pcp_list) : machine :=
  Machine (ph m) (<[k := l]> (pcps m)) (topo m) (coverage_end m) (reclaim_active m).
Definition with_latch (m : machine) (b : bool) : machine :=
  Machine (ph m) (pcps m) (topo m) (coverage_end m) b.
Definition pcp (m : machine) (k : Z * Z * Z * Z) : pcp_list := default pcp_empty (pcps m !! k).

(** The execution context the guards consult. *)
Record context := Context_ {
  cpu_id : Z; in_mcck : bool; in_hardirq : bool; in_interrupt : bool; can_sleep : bool
}.

Section api.
Context (max_cpus : Z) (reclaim_node : machine -> Z -> Z -> machine).

Definition phys_range_is_mapped (m : machine) (phys bytes : Z) : bool :=
  if (coverage_end m =? 0) || (bytes =? 0) then false
  else if coverage_end m <=? phys then false
  else
    let range_end := u64 (phys + bytes) in
    if range_end <? phys then false else range_end <=? coverage_end m.

Definition node_is_allocatable (m : machine) (node_id : Z) : bool :=
  if negb (node_id_is_valid node_id) then false
  else match Numa.node_at (topo m) node_id with
       | Unexpected _ => node_id =? NUMA_NODE_BOOT
       | Expected n => node_state_is_allocatable (nt_state n)
       end.

Definition local_node_id (m : machine) (c : context) : Z :=
  match node_for_cpu max_cpus (topo m) (cpu_id c) with
  | Expected n => normalize_node_id n
  | Unexpected _ => NUMA_NODE_BOOT
  end.

Definition frame_node_id (m : machine) (phys : Z) : Z :=
  match desc_of (ph m) phys with
  | Unexpected _ => NUMA_NODE_BOOT
  | Expected i =>
      let recorded := fd_node (frame (ph m) i) in
      if node_id_is_valid recorded then recorded
      else match node_for_phys (topo m) phys with
           | Expected n => normalize_node_id n
           | Unexpected _ => NUMA_NODE_BOOT
           end
  end.

Definition validate_page_table_allocation (m : machine) (phys order : Z) (z : zone)
    (node_id : Z) : expected () :=
  let size := u64 (Z.shiftl PAGE_SIZE order) in
  let max_phys := u64 (Z.shiftl (max_pfn (ph m)) PAGE_SHIFT) in
  if negb (frame_table (ph m)) || (MAX_ORDER <? order) || (size =? 0) then
    Unexpected (from_memory mem_invalid_address)
  else if negb (Z.land phys (PAGE_SIZE - 1) =? 0) || negb (Z.land phys (size - 1) =? 0) then
    Unexpected (from_memory mem_alignment_error)
  else if (max_phys <=? phys) || (u64 (phys + size) <? phys) || (max_phys <? u64 (phys + size)) then
    Unexpected (from_memory mem_invalid_address)
  else if negb (phys_range_is_mapped m phys size) then
    Unexpected (from_memory mem_hhdm_init_failed)
  else if negb (bool_decide (zone_of phys = z)) || negb (node_is_allocatable m node_id) then
    Unexpected (from_memory mem_zone_exhausted)
  else
    match desc_of (ph m) phys with
    | Unexpected _ => Unexpected (from_memory mem_invalid_address)
    | Expected i =>
        let fd := frame (ph m) i in
        if negb (bool_decide (fd_owner fd = fo_page_table)) || negb (fd_order fd =? order)
           || negb (fd_node fd =? node_id)
        then Unexpected (from_memory mem_purpose_mismatch)
        else if negb (Z.land (fd_flags fd) (Z.lor ff_offline ff_shared) =? 0)
        then Unexpected (from_memory mem_invalid_address)
        else Expected tt
    end.

Definition add_retired (s : pmm) (n : Z) : pmm :=
  Pmm (nodes s) (frame_table s) (frames s) (max_pfn s) (node_zones s) (u64 (retired_pages s + n)).

Definition quarantine_failed_allocation (m : machine) (phys order node_id : Z) : machine :=
  if negb (frame_table (ph m)) || (max_pfn (ph m) <=? Z.shiftr phys PAGE_SHIFT) then m
  else
    let node := normalize_node_id node_id in
    match desc_of (ph m) phys with
    | Unexpected _ => m
    | Expected _ =>
        with_ph m (add_retired (set_desc (ph m) phys (desc_set order fo_reserved node ff_suspect))
                     (Z.shiftl 1 order))
    end.

(** ** Node-aware allocation *)

Record node_allocation := NodeAllocation {
  na_phys : Z; na_node : Z; na_distance : Z; na_remote : bool
}.
Definition no_allocation : node_allocation := NodeAllocation 0 NUMA_NODE_BOOT 0 false.

Definition try_alloc_node (m : machine) (order : Z) (z : zone) (node_id : Z)
    : option (node_allocation * machine) :=
  let node := normalize_node_id node_id in
  if negb (node_is_allocatable m node) then Some (no_allocation, m)
  else if free_pages (nz (ph m) node z) <? Z.shiftl 1 order then Some (no_allocation, m)
  else
    '(phys, s) ← alloc_locked (ph m) order z node;
    if phys =? 0 then Some (no_allocation, with_ph m s)
    else Some (NodeAllocation phys node 0 false, with_ph m s).

(** The ring of remote nodes, and the emergency scan, from index [i]. *)
Fixpoint try_nodes (m : machine) (order : Z) (z : zone) (preferred : Z)
    (node_of dist_of : Z -> Z) (i : Z) (n : nat) : option (node_allocation * machine) :=
  match n with
  | O => Some (no_allocation, m)
  | S n' =>
      '(a, m1) ← try_alloc_node m order z (node_of i);
      if na_phys a =? 0 then try_nodes m1 order z preferred node_of dist_of (i + 1) n'
      else Some (NodeAllocation (na_phys a) (na_node a) (dist_of i)
                   (negb (node_of i =? preferred)), m1)
  end.

Definition alloc_node_aware (m : machine) (order : Z) (z : zone)
    (policy : allocation_policy) (local_node : Z) : option (node_allocation * machine) :=
  let preferred := normalize_node_id
    (if preferred_node policy =? NUMA_NODE_ANY then local_node else preferred_node policy) in
  '(first, m) ← try_alloc_node m order z preferred;
  if negb (na_phys first =? 0) then Some (first, m)
  else if bool_decide (ap_fallback policy = fm_strict_local) || negb (allow_remote policy) then
    Some (no_allocation, m)
  else
    '(a, m) ← try_nodes m order z preferred
      (fun d => (preferred + d) mod MAX_NUMA_NODES) (fun d => d) 1 15;
    if negb (na_phys a =? 0) then Some (a, m)
    else if bool_decide (ap_fallback policy = fm_emergency_any) then
      try_nodes m order z preferred (fun c => c)
        (fun c => (c + MAX_NUMA_NODES - preferred) mod MAX_NUMA_NODES) 0 16
    else Some (no_allocation, m).

(** ** Per-CPU page caches *)

Definition pcp_pop (m : machine) (k : Z * Z * Z * Z) : option (Z * machine) :=
  let lst := pcp m k in
  if head_phys lst =? 0 then Some (0, m)
  else
    let phys := head_phys lst in
    if negb (allocatable_frame (ph m) phys) then None
    else Some (phys, with_pcp m k (PcpList (Dlist.node_at (nodes (ph m)) phys).1
                                     (u32 (pcp_count lst - 1)))).

Definition pcp_push (m : machine) (k : Z * Z * Z * Z) (phys : Z) : machine :=
  let lst := pcp m k in
  let m := with_ph m (with_nodes (ph m) (set_next (nodes (ph m)) phys (head_phys lst))) in
  with_pcp m k (PcpList phys (u32 (pcp_count lst + 1))).

(** The [PCP_BATCH] iterations of the refill loop. *)
Fixpoint refill_loop (m : machine) (k : Z * Z * Z * Z) (ord : Z) (z : zone) (node : Z)
    (n : nat) : option machine :=
  match n with
  | O => Some m
  | S n' =>
      '(phys, s) ← alloc_locked (ph m) ord z node;
      if phys =? 0 then Some (with_ph m s)
      else
        let s := set_desc s phys (desc_set ord fo_buddy node ff_none) in
        refill_loop (pcp_push (with_ph m s) k phys) k ord z node n'
  end.

Definition pcp_refill (m : machine) (k : Z * Z * Z * Z) (ord : Z) (z : zone) (node_id : Z)
    : option machine :=
  refill_loop m k ord z (normalize_node_id node_id) (Z.to_nat PCP_BATCH).

(** [while (lst.count > target)]: each round shrinks the 32-bit count. *)
Fixpoint drain_loop (m : machine) (k : Z * Z * Z * Z) (ord : Z) (z : zone) (node target : Z)
    (n : nat) : option machine :=
  match n with
  | O => Some m
  | S n' =>
      if pcp_count (pcp m k) <=? target then Some m
      else
        '(phys, m1) ← pcp_pop m k;
        if phys =? 0 then Some m1
        else drain_loop (with_ph m1 (free_locked (ph m1) phys ord z node)) k ord z node target n'
  end.

Definition pcp_drain (m : machine) (k : Z * Z * Z * Z) (ord : Z) (z : zone) (node_id : Z)
    : option machine :=
  drain_loop m k ord z (normalize_node_id node_id) (PCP_HIGH / 2)
    (Z.to_nat (pcp_count (pcp m k))).

(** ** Allocation *)

Inductive page_init := uninitialized_ | zeroed.

Record allocation_request := AllocationRequest {
  rq_order : Z; rq_zone : zone; rq_use : purpose; rq_init : page_init;
  rq_placement : allocation_policy
}.

Record allocation_result := AllocationResult {
  ar_phys : Z; ar_order : Z; ar_use : purpose; ar_zone : zone; ar_placement : placement_result
}.

(** [std::fill_n] over a block: the link words of its pages become zero. *)
Definition zero_block (s : pmm) (phys order : Z) : pmm :=
  with_nodes s (for_up (fun i m => <[phys + i * PAGE_SIZE := (0, 0)]> m) 0
    (Z.to_nat (2 ^ order)) (nodes s)).

(** Stamping, page-table validation and zeroing, the tail shared by [alloc] and
    [transaction::alloc]. *)
Definition finish_allocation (m : machine) (a : node_allocation) (order : Z) (z : zone)
    (use : purpose) (init : page_init) : expected () * machine :=
  let m := with_ph m (set_desc (ph m) (na_phys a)
    (desc_set order (owner_for_purpose use) (na_node a) ff_none)) in
  let validation :=
    if bool_decide (use = pu_page_table)
    then validate_page_table_allocation m (na_phys a) order z (na_node a) else Expected tt in
  match validation with
  | Unexpected e => (Unexpected e, quarantine_failed_allocation m (na_phys a) order (na_node a))
  | Expected _ =>
      (Expected tt,
       match init with
       | zeroed => with_ph m (zero_block (ph m) (na_phys a) order)
       | uninitialized_ => m
       end)
  end.

(** The page-cache attempt of [alloc]. *)
Definition alloc_from_pcp (m : machine) (c : context) (order : Z) (z : zone)
    (preferred local_node : Z) : option (node_allocation * machine) :=
  if order <=? PCP_MAX_ORDER then
    let pcp_node := normalize_node_id preferred in
    let k := (cpu_id c, pcp_node, zone_index z, order) in
    m ← (if head_phys (pcp m k) =? 0 then pcp_refill m k order z pcp_node else Some m);
    '(phys, m) ← pcp_pop m k;
    Some (NodeAllocation phys pcp_node 0 (negb (pcp_node =? local_node)), m)
  else Some (no_allocation, m).

Definition alloc (m : machine) (c : context) (rq : allocation_request)
    : option (expected allocation_result * machine) :=
  if in_mcck c then None
  else if in_hardirq c && (0 <? rq_order rq) then None
  else if MAX_ORDER <? rq_order rq then
    Some (Unexpected (from_memory mem_out_of_memory), m)
  else
    let z := rq_zone rq in
    let local_node := local_node_id m c in
    let pl := rq_placement rq in
    let pl := if preferred_node pl =? NUMA_NODE_ANY
              then AllocationPolicy local_node (ap_fallback pl) (require_dma31 pl) (allow_remote pl)
              else pl in
    if require_dma31 pl && negb (bool_decide (z = dma31)) then
      Some (Unexpected (from_memory mem_zone_exhausted), m)
    else
      '(a, m) ← alloc_from_pcp m c (rq_order rq) z (preferred_node pl) local_node;
      '(a, m) ← (if na_phys a =? 0 then alloc_node_aware m (rq_order rq) z pl local_node
                 else Some (a, m));
      '(a, m) ←
        (if (na_phys a =? 0) && can_sleep c && negb (reclaim_active m) then
           let m := with_latch m true in
           let m := reclaim_node m (preferred_node pl) (Z.shiftl 1 (rq_order rq)) in
           alloc_node_aware (with_latch m false) (rq_order rq) z pl local_node
         else Some (a, m));
      if na_phys a =? 0 then Some (Unexpected (from_memory mem_zone_exhausted), m)
      else
        let '(res, m) := finish_allocation m a (rq_order rq) z (rq_use rq) (rq_init rq) in
        match res with
        | Unexpected e => Some (Unexpected e, m)
        | Expected _ =>
            Some (Expected (AllocationResult (na_phys a) (rq_order rq) (rq_use rq) z
              (PlacementResult (na_node a) (na_distance a) (na_remote a) false)), m)
        end.

(** The compatibility overload. *)
Definition alloc_folio (m : machine) (c : context) (order : Z) (z : zone) (p : purpose)
    (init : page_init) : option (expected allocation_result * machine) :=
  alloc m c (AllocationRequest order z p init
    (AllocationPolicy NUMA_NODE_ANY fm_local_first (bool_decide (z = dma31)) true)).

(** ** Freeing *)

Definition free (m : machine) (c : context) (phys order : Z) (z : zone) : option machine :=
  if phys =? 0 then Some m
  else
    let node := frame_node_id m phys in
    let m := with_ph m (set_desc (ph m) phys (desc_set order fo_buddy node ff_none)) in
    if (order <=? PCP_MAX_ORDER) && negb (in_interrupt c) then
      let k := (cpu_id c, node, zone_index z, order) in
      let m := pcp_push m k phys in
      if PCP_HIGH <? pcp_count (pcp m k) then pcp_drain m k order z node else Some m
    else Some (with_ph m (free_locked (ph m) phys order z node)).

(** ** Transactions *)

Record txn_slot := TxnSlot { sl_phys : Z; sl_order : Z; sl_zone : zone; sl_node : Z }.
Definition TXN_MAX : Z := 16.

(** [m_slots] up to [m_count], and the commit latch of [base::transaction]. *)
Record transaction := Transaction { m_slots : list txn_slot; committed : bool; rolled_back : bool }.

Definition txn_alloc (m : machine) (c : context) (t : transaction) (order : Z) (z : zone)
    (p : purpose) (init : page_init) : option (expected Z * transaction * machine) :=
  if committed t || (TXN_MAX <=? Z.of_nat (length (m_slots t))) then
    Some (Unexpected (from_memory mem_out_of_memory), t, m)
  else if in_mcck c then None
  else if in_hardirq c && (0 <? order) then None
  else
    let local_node := local_node_id m c in
    '(a, m) ← alloc_node_aware m order z
      (AllocationPolicy local_node fm_local_first (bool_decide (z = dma31)) true) local_node;
    if na_phys a =? 0 then Some (Unexpected (from_memory mem_zone_exhausted), t, m)
    else
      let '(res, m) := finish_allocation m a order z p init in
      match res with
      | Unexpected e => Some (Unexpected e, t, m)
      | Expected _ =>
          Some (Expected (na_phys a),
                Transaction (m_slots t ++ [TxnSlot (na_phys a) order z (na_node a)])
                  (committed t) (rolled_back t), m)
      end.

(** One iteration of [on_rollback]. *)
Definition rollback_slot (m : machine) (sl : txn_slot) : machine :=
  match desc_of (ph m) (sl_phys sl) with
  | Unexpected _ => m
  | Expected i =>
      if has_flag (frame (ph m) i) ff_offline then
        with_ph m (add_retired
          (set_desc (ph m) (sl_phys sl)
             (desc_set (sl_order sl) fo_reserved (normalize_node_id (sl_node sl))
                (Z.lor ff_offline ff_suspect)))
          (Z.shiftl 1 (sl_order sl)))
      else
        with_ph m (free_locked (ph m) (sl_phys sl) (sl_order sl) (sl_zone sl)
          (normalize_node_id (sl_node sl)))
  end.

Definition on_rollback (m : machine) (t : transaction) : machine :=
  fold_left rollback_slot (m_slots t) m.

Definition commit (t : transaction) : transaction :=
  Transaction (m_slots t) true (rolled_back t).

(** [~transaction]. *)
Definition txn_destroy (m : machine) (t : transaction) : machine * transaction :=
  if negb (committed t) && negb (rolled_back t) then
    (on_rollback m t, Transaction (m_slots t) (committed t) true)
  else (m, t).

Definition txn_phys (t : transaction) (i : Z) : Z :=
  if i <? Z.of_nat (length (m_slots t))
  then sl_phys (nthZ (TxnSlot 0 0 normal NUMA_NODE_BOOT) (m_slots t) i) else 0.

(** ** Frame references and mapping authority *)

Definition upd_frame (s : pmm) (i : Z) (d : frame_desc) : pmm := with_frames s (<[i := d]> (frames s)).

Definition set_refcount (d : frame_desc) (r : Z) : frame_desc :=
  FrameDesc (fd_order d) (fd_owner d) (fd_flags d) (fd_node d) r (fd_object_id d)
    (fd_object_generation d).

(** [frame_ref], [frame_unref]: both report [out_of_memory] for a bad address. *)
Definition frame_index (s : pmm) (phys : Z) : expected Z :=
  if negb (frame_table s) || (max_pfn s <=? Z.shiftr phys PAGE_SHIFT)
  then Unexpected (from_memory mem_out_of_memory) else Expected (Z.shiftr phys PAGE_SHIFT).

Definition frame_ref (s : pmm) (phys : Z) : expected Z * pmm :=
  match frame_index s phys with
  | Unexpected e => (Unexpected e, s)
  | Expected i =>
      let d := frame s i in
      if fd_refcount d =? 65535 then (Unexpected (from_memory mem_out_of_memory), s)
      else let r := u16 (fd_refcount d + 1) in (Expected r, upd_frame s i (set_refcount d r))
  end.

Definition frame_unref (s : pmm) (phys : Z) : expected Z * pmm :=
  match frame_index s phys with
  | Unexpected e => (Unexpected e, s)
  | Expected i =>
      let d := frame s i in
      if fd_refcount d =? 0 then (Unexpected (from_memory mem_purpose_mismatch), s)
      else let r := u16 (fd_refcount d - 1) in (Expected r, upd_frame s i (set_refcount d r))
  end.

(** [desc_of_checked] has the body of [desc_of]. *)
Definition desc_of_checked (s : pmm) (phys : Z) : expected Z := desc_of s phys.

(** The storage key reset ([sske]) does not touch the state modelled here. *)
Definition frame_release_pin (m : machine) (c : context) (phys : Z)
    : option (expected bool * machine) :=
  match desc_of_checked (ph m) phys with
  | Unexpected e => Some (Unexpected e, m)
  | Expected i =>
      if negb (fd_order (frame (ph m) i) =? 0) then
        Some (Unexpected (from_memory mem_purpose_mismatch), m)
      else
        let '(remaining, s) := frame_unref (ph m) phys in
        match remaining with
        | Unexpected e => Some (Unexpected e, with_ph m s)
        | Expected r =>
            if negb (r =? 0) then Some (Expected false, with_ph m s)
            else
              m ← free (with_ph m s) c phys 0 (zone_of phys);
              Some (Expected true, m)
        end
  end.

Definition frame_set_mapping_metadata (s : pmm) (phys object_id object_generation : Z)
    (writable : bool) : expected () * pmm :=
  match desc_of_checked s phys with
  | Unexpected e => (Unexpected e, s)
  | Expected i =>
      let d := frame s i in
      let fl := if writable && has_flag d ff_zeroed
                then Z.land (fd_flags d) (255 - ff_zeroed) else fd_flags d in
      (Expected tt,
       upd_frame s i (FrameDesc (fd_order d) (fd_owner d) fl (fd_node d) (fd_refcount d)
                        object_id object_generation))
  end.

Definition frame_clear_mapping_metadata (s : pmm) (phys : Z) : expected () * pmm :=
  frame_set_mapping_metadata s phys KOBJECT_ID_INVALID 0 false.

Definition frame_refcount (s : pmm) (phys : Z) : expected Z :=
  match desc_of_checked s phys with
  | Unexpected e => Unexpected e
  | Expected i => Expected (fd_refcount (frame s i))
  end.

(** The page loop of [frame_validate_mapping]. *)
Fixpoint validate_pages (s : pmm) (phys object_id object_generation : Z) (n : nat) : expected () :=
  match n with
  | O => Expected tt
  | S n' =>
      match desc_of_checked s phys with
      | Unexpected e => Unexpected e
      | Expected i =>
          let d := frame s i in
          if negb (fd_object_id d =? object_id)
             || negb (fd_object_generation d =? object_generation) || has_flag d ff_offline
          then Unexpected (from_memory mem_capability_invalid)
          else validate_pages s (phys + PAGE_SIZE) object_id object_generation n'
      end
  end.

Definition frame_validate_mapping (s : pmm) (phys_start length object_id object_generation : Z)
    : expected () :=
  if (length =? 0) || negb (Z.land phys_start (PAGE_SIZE - 1) =? 0)
     || negb (Z.land length (PAGE_SIZE - 1) =? 0) || (u64 (phys_start + length) <? phys_start)
  then Unexpected (from_memory mem_invalid_address)
  else validate_pages s phys_start object_id object_generation (Z.to_nat (length / PAGE_SIZE)).

Definition frame_object_id_of (s : pmm) (phys : Z) : expected Z :=
  match desc_of_checked s phys with
  | Unexpected e => Unexpected e
  | Expected i => Expected (fd_object_id (frame s i))
  end.

Definition frame_object_generation_of (s : pmm) (phys : Z) : expected Z :=
  match desc_of_checked s phys with
  | Unexpected e => Unexpected e
  | Expected i => Expected (fd_object_generation (frame s i))
  end.

Definition frame_node_of (s : pmm) (phys : Z) : expected Z :=
  match desc_of_checked s phys with
  | Unexpected e => Unexpected e
  | Expected i => Expected (fd_node (frame s i))
  end.

(** ** Counters *)

Definition sum_zones (f : node_zone -> Z) (s : pmm) : Z :=
  for_up (fun n acc => u64 (u64 (acc + f (nz s n dma31)) + f (nz s n normal))) 0
    (Z.to_nat MAX_NUMA_NODES) 0.

Definition free_page_count (s : pmm) : Z := sum_zones free_pages s.
Definition total_page_count (s : pmm) : Z := sum_zones total_pages s.

End api.

(** ** Transactions on a single-node machine

    The blocks of one zone of the boot node, seen through [client_inv]. *)

(** Only the boot node can serve allocations. *)
Definition single_node (m : machine) : Prop :=
  forall n, 0 <= n < 16 -> n <> NUMA_NODE_BOOT -> node_is_allocatable m n = false.

Lemma single_node_topo m m' : topo m' = topo m -> single_node m -> single_node m'.
Proof.
  intros E Hs n Hn Hne. specialize (Hs n Hn Hne). unfold node_is_allocatable in *. by rewrite E.
Qed.

Lemma normalize_range n : 0 <= n -> 0 <= normalize_node_id n < 16.
Proof. apply sanitize_range. Qed.

(** Writing a foreign owner into the descriptor of a live block. *)
Lemma stamp_live node z N s live p o d :
  client_inv node z N (s, live) -> live !! p = Some o -> fd_owner d <> fo_buddy ->
  client_inv node z N (set_desc s p d, live).
Proof.
  intros (L & U & Hi & Hlive & HN) Hp Hd. cbn [fst snd] in *.
  pose proof (proj2 (Hlive p o) Hp) as HU.
  pose proof (hand_set_desc node z _ _ _ _ _ _ d (inv_ungrab node z s L U p o 0 Hi HU)) as Hh.
  apply inv_grab in Hh.
  - rewrite insert_delete_id in Hh by done. exists L, U. done.
  - destruct (block_page z s p o (bi_wf _ _ _ _ _ _ _ Hi p o false HU)) as [_ Hpr].
    rewrite (frame_set_desc s p d (p / PAGE_SIZE)) by (apply desc_of_ok; [apply Hi|done]).
    by rewrite decide_True.
Qed.

(** Counters the invariant does not mention. *)
Lemma add_retired_inv node z N s live n :
  client_inv node z N (s, live) -> client_inv node z N (add_retired s n, live).
Proof.
  intros (L & U & [H1 H2 H3 H4 H5 H6 H7 H8 H9 H10 H11] & Hlive & HN). exists L, U.
  split; [|done]. split; done.
Qed.

Lemma zero_block_node_at m p n q :
  (forall i, 0 <= i < Z.of_nat n -> q <> p + i * PAGE_SIZE) ->
  Dlist.node_at (for_up (fun i m => <[p + i * PAGE_SIZE := (0, 0)]> m) 0 n m) q = Dlist.node_at m q.
Proof.
  intros Hq. apply (for_up_inv (fun _ m' => Dlist.node_at m' q = Dlist.node_at m q)); [done|].
  intros j a Hj <-. unfold Dlist.node_at. rewrite lookup_insert_ne; [done|].
  apply not_eq_sym, Hq. lia.
Qed.

(** Zeroing a live block is a write of its holder. *)
Lemma zero_block_step node z s live p o :
  0 <= o -> live !! p = Some o -> client_step node z (s, live) (zero_block s p o, live).
Proof.
  intros Ho Hp. apply (cs_write _ _ s live p o); [done|]. intros q Hq.
  apply zero_block_node_at. intros i Hi ->. apply Hq.
  unfold block_size. rewrite Z.shiftl_mul_pow2 by done. unfold PAGE_SIZE.
  rewrite Z2Nat.id in Hi by (apply Z.pow_nonneg; lia). split; [lia|]. nia.
Qed.

Section single.
Context (z : zone) (N : Z).

Notation inv := (client_inv NUMA_NODE_BOOT z N).

(** The part of the machine allocation leaves alone. *)
Definition same_rest (m m' : machine) : Prop :=
  topo m' = topo m /\ pcps m' = pcps m /\ coverage_end m' = coverage_end m /\
  retired_pages (ph m') = retired_pages (ph m).

Lemma boot_ok : normalize_node_id NUMA_NODE_BOOT = NUMA_NODE_BOOT.
Proof. reflexivity. Qed.

Lemma set_desc_retired s p d : retired_pages (set_desc s p d) = retired_pages s.
Proof. unfold set_desc. by destruct (desc_of s p). Qed.

Lemma push_retired s n zz o p : retired_pages (push s n zz o p) = retired_pages s.
Proof. unfold push. by destruct (bz_push _ _ _ _). Qed.

Lemma remove_retired s n zz o p : retired_pages (remove s n zz o p) = retired_pages s.
Proof. unfold remove. by destruct (bz_remove _ _ _ _). Qed.

Lemma split_loop_retired k s n zz p o : retired_pages (split_loop s n zz p o k) = retired_pages s.
Proof.
  revert s o. induction k as [|k IH]; intros s o; cbn [split_loop]; [done|].
  by rewrite IH, set_desc_retired, push_retired.
Qed.

Lemma alloc_locked_retired s o zz n p s' :
  alloc_locked s o zz n = Some (p, s') -> retired_pages s' = retired_pages s.
Proof.
  unfold alloc_locked. generalize (normalize_node_id n). intros nd.
  generalize (Z.to_nat (MAX_ORDER + 1 - o)). intros k. generalize o at 2. intros oo. revert s oo.
  induction k as [|k IH]; intros s oo; cbn [alloc_scan]; [by intros [= _ <-]|].
  assert (Hpop : retired_pages (pop s nd zz oo).2 = retired_pages s)
    by (unfold pop; by destruct (bz_pop _ _ _) as [[? ?] ?]).
  destruct (pop s nd zz oo) as [q s1]. cbn [snd] in Hpop. destruct (q =? 0).
  - intros E. rewrite (IH _ _ E). done.
  - destruct (allocatable_frame s1 q); cbn [negb]; [|done]. intros [= _ <-].
    etransitivity; [exact (split_loop_retired _ s1 nd zz q oo)|done].
Qed.

Lemma merge_loop_retired k s n zz p o :
  retired_pages (merge_loop s n zz p o k).2 = retired_pages s.
Proof.
  revert s p o. induction k as [|k IH]; intros s p o; cbn [merge_loop]; [done|].
  destruct (negb (bool_decide (zone_of _ = zz))); [done|].
  destruct (desc_of s _) as [i|]; [|done].
  destruct (negb (bool_decide _)); [done|]. destruct (negb (_ =? n)); [done|].
  destruct (has_flag _ _); [by destruct (desc_of s p)|]. destruct (negb (_ =? o)); [done|].
  rewrite IH, set_desc_retired. exact (remove_retired s n zz o _).
Qed.

Lemma free_locked_retired s p o zz n :
  retired_pages (free_locked s p o zz n) = retired_pages s.
Proof.
  unfold free_locked.
  pose proof (merge_loop_retired (Z.to_nat (MAX_ORDER - o)) s (normalize_node_id n) zz p o) as Hm.
  destruct (merge_loop _ _ _ _ _ _) as [[p' o'] s']. cbn [snd] in Hm. rewrite <- Hm.
  etransitivity; [exact (push_retired _ _ _ _ _)|].
  destruct (desc_of s' p'); [apply set_desc_retired|done].
Qed.

(** One attempt: nothing, or a block of the boot node through [alloc_locked]. *)
Lemma try_alloc_single m o n live :
  single_node m -> order_ok o -> 0 <= n -> inv (ph m, live) ->
  exists a m', try_alloc_node m o z n = Some (a, m') /\ same_rest m m' /\
    (na_phys a = 0 /\ inv (ph m', live) \/
     na_phys a <> 0 /\ na_node a = NUMA_NODE_BOOT /\
     alloc_locked (ph m) o z NUMA_NODE_BOOT = Some (na_phys a, ph m')).
Proof.
  intros Hs Ho Hn Hi. unfold try_alloc_node. pose proof (normalize_range n Hn) as Hr.
  assert (Hnone : exists a m', Some (no_allocation, m) = Some (a, m') /\ same_rest m m' /\
    (na_phys a = 0 /\ inv (ph m', live) \/
     na_phys a <> 0 /\ na_node a = NUMA_NODE_BOOT /\
     alloc_locked (ph m) o z NUMA_NODE_BOOT = Some (na_phys a, ph m'))).
  { exists no_allocation, m. split; [done|]. split; [done|]. by left. }
  destruct (node_is_allocatable m (normalize_node_id n)) eqn:Ha; cbn [negb]; [|done].
  destruct (_ <? _); [done|].
  destruct (decide (normalize_node_id n = NUMA_NODE_BOOT)) as [->|Hne];
    [|by rewrite Hs in Ha].
  pose proof Hi as (L & U & Hb & Hlive & HN). cbn [fst snd] in *.
  destruct (alloc_locked_spec _ z boot_ok (ph m) L U o Hb Ho)
    as (p & s' & E & Hcase). rewrite E. cbn.
  pose proof (alloc_locked_retired _ _ _ _ _ _ E) as Hret.
  destruct (Z.eqb_spec p 0) as [->|Hp].
  - exists no_allocation, (with_ph m s'). split; [done|]. split; [done|]. left. split; [done|].
    eapply client_step_inv; [exact boot_ok|exact Hi|]. by apply cs_exhausted with o.
  - eexists _, _. split; [done|]. split; [done|]. right. done.
Qed.

Lemma same_rest_trans m1 m2 m3 : same_rest m1 m2 -> same_rest m2 m3 -> same_rest m1 m3.
Proof. intros (A1 & A2 & A3 & A4) (B1 & B2 & B3 & B4). repeat split; congruence. Qed.

(** The outcome of a placement attempt, as a client sees it. *)
Definition placed (m : machine) (o : Z) (live : gmap Z Z) (a : node_allocation) (m' : machine) : Prop :=
  same_rest m m' /\
  (na_phys a = 0 /\ inv (ph m', live) \/
   na_phys a <> 0 /\ na_node a = NUMA_NODE_BOOT /\
   exists s1, inv (s1, live) /\ alloc_locked s1 o z NUMA_NODE_BOOT = Some (na_phys a, ph m')).

Lemma try_alloc_placed m o n live :
  single_node m -> order_ok o -> 0 <= n -> inv (ph m, live) ->
  exists a m', try_alloc_node m o z n = Some (a, m') /\ placed m o live a m'.
Proof.
  intros Hs Ho Hn Hi. destruct (try_alloc_single m o n live Hs Ho Hn Hi) as (a & m' & E & Hr & Hc).
  exists a, m'. split; [done|]. split; [done|]. destruct Hc as [Hc|(H1 & H2 & H3)]; [by left|].
  right. split_and!; [done|done|]. by exists (ph m).
Qed.

Lemma placed_trans m1 m2 o live a m3 :
  same_rest m1 m2 -> placed m2 o live a m3 -> placed m1 o live a m3.
Proof. intros Hr [Hr' Hc]. split; [by eapply same_rest_trans|done]. Qed.

Lemma try_nodes_placed k m o pref f g i live :
  single_node m -> order_ok o -> (forall j, 0 <= j -> 0 <= f j) -> 0 <= i -> inv (ph m, live) ->
  exists a m', try_nodes m o z pref f g i k = Some (a, m') /\ placed m o live a m'.
Proof.
  revert m i. induction k as [|k IH]; intros m i Hs Ho Hf Hi Hinv; cbn [try_nodes].
  { exists no_allocation, m. split; [done|]. split; [done|]. by left. }
  destruct (try_alloc_placed m o (f i) live Hs Ho (Hf i Hi) Hinv) as (a & m1 & -> & Hp). cbn.
  destruct Hp as [Hr [[Ha Hi1]|(Ha & Hn & Hex)]].
  - rewrite (proj2 (Z.eqb_eq _ _)) by done.
    destruct (IH m1 (i + 1)) as (a2 & m2 & E2 & Hp2);
      [eapply single_node_topo; [apply Hr|done]|done|done|lia|done|].
    exists a2, m2. split; [exact E2|]. by eapply placed_trans.
  - rewrite (proj2 (Z.eqb_neq _ _)) by done. eexists _, _. split; [done|].
    split; [exact Hr|]. right. split_and!; [exact Ha|exact Hn|exact Hex].
Qed.

Lemma alloc_node_aware_placed m o pol ln live :
  single_node m -> order_ok o -> 0 <= ln -> 0 <= preferred_node pol -> inv (ph m, live) ->
  exists a m', alloc_node_aware m o z pol ln = Some (a, m') /\ placed m o live a m'.
Proof.
  intros Hs Ho Hl Hp Hinv. unfold alloc_node_aware.
  assert (Hpr : 0 <= normalize_node_id (if preferred_node pol =? NUMA_NODE_ANY then ln else preferred_node pol)).
  { apply normalize_range. destruct (_ =? _); done. }
  set (pref := normalize_node_id _) in *.
  destruct (try_alloc_placed m o pref live Hs Ho Hpr Hinv) as (a & m1 & -> & Hpl). cbn [mbind option_bind].
  destruct (Z.eqb_spec (na_phys a) 0) as [Ha|Ha]; cbn [negb]; [|by exists a, m1].
  destruct Hpl as [Hr [[_ Hi1]|(Hne & _)]]; [|done].
  assert (Hs1 : single_node m1) by (eapply single_node_topo; [apply Hr|done]).
  assert (Hno : forall mm, same_rest m mm -> inv (ph mm, live) -> placed m o live no_allocation mm).
  { intros mm Hrr Hii. split; [done|]. by left. }
  destruct (_ || _); [exists no_allocation, m1; auto|].
  destruct (try_nodes_placed 15 m1 o pref (fun d => (pref + d) mod MAX_NUMA_NODES) (fun d => d) 1 live
    Hs1 Ho) as (a2 & m2 & E2 & Hp2); [intros; apply Z.mod_pos_bound; unfold MAX_NUMA_NODES; lia|lia|done|].
  rewrite E2. cbn [mbind option_bind]. apply (placed_trans m) in Hp2; [|done].
  destruct (Z.eqb_spec (na_phys a2) 0) as [Ha2|Ha2]; cbn [negb]; [|by exists a2, m2].
  destruct Hp2 as [Hr2 [[_ Hi2]|(Hne & _)]]; [|done].
  destruct (bool_decide _); [|exists no_allocation, m2; auto].
  destruct (try_nodes_placed 16 m2 o pref (fun c => c)
    (fun c => (c + MAX_NUMA_NODES - pref) mod MAX_NUMA_NODES) 0 live) as (a3 & m3 & E3 & Hp3);
    [eapply single_node_topo; [apply Hr2|done]|done|done|done|done|].
  exists a3, m3. split; [exact E3|]. by apply (placed_trans m) in Hp3.
Qed.

Definition slot_ok (live : gmap Z Z) (sl : txn_slot) : Prop :=
  live !! sl_phys sl = Some (sl_order sl) /\ 0 <= sl_order sl /\ sl_zone sl = z /\
  sl_node sl = NUMA_NODE_BOOT.

Context (max_cpus : Z).

(** One transactional allocation: it fails with the live set as it was, or adds
    one fresh block to the live set and to the slots. *)
Lemma txn_alloc_single m c t o p init live :
  single_node m -> order_ok o -> p <> pu_page_table -> 0 <= local_node_id max_cpus m c ->
  in_mcck c = false -> in_hardirq c && (0 <? o) = false -> inv (ph m, live) ->
  exists res t' m', txn_alloc max_cpus m c t o z p init = Some (res, t', m') /\ same_rest m m' /\
    match res with
    | Unexpected _ => t' = t /\ inv (ph m', live)
    | Expected q => live !! q = None /\ inv (ph m', <[q := o]> live) /\
        t' = Transaction (m_slots t ++ [TxnSlot q o z NUMA_NODE_BOOT]) (committed t) (rolled_back t)
    end.
Proof.
  intros Hs Ho Hp Hl Hmc Hhi Hinv. unfold txn_alloc.
  destruct (_ || _); [eexists _, _, _; done|]. rewrite Hmc, Hhi.
  destruct (alloc_node_aware_placed m o (AllocationPolicy (local_node_id max_cpus m c) fm_local_first
    (bool_decide (z = dma31)) true) (local_node_id max_cpus m c) live) as (a & m1 & -> & [Hr Hc]); try done.
  cbn [mbind option_bind].
  destruct (Z.eqb_spec (na_phys a) 0) as [Ha|Ha].
  { destruct Hc as [[_ Hi]|(Hne & _)]; [|done]. eexists _, _, _. done. }
  destruct Hc as [[? _]|(_ & Hn & s1 & Hi1 & Hal)]; [done|].
  unfold finish_allocation. rewrite (bool_decide_false (p = pu_page_table)) by done.
  rewrite Hn. set (s2 := set_desc (ph m1) (na_phys a) _).
  assert (Hi2 : inv (s2, <[na_phys a := o]> live)).
  { eapply client_step_inv; [exact boot_ok|exact Hi1|]. apply cs_alloc; try done. by destruct p. }
  assert (Hfresh : live !! na_phys a = None).
  { destruct Hi1 as (L & U & Hb & Hlive & _). cbn [fst snd] in *.
    destruct (alloc_locked_spec _ z boot_ok s1 L U o Hb Ho) as (q & s' & E & [(? & _)|(_ & L' & U' & Hb' & Hsa & _)]);
      rewrite Hal in E; injection E as E1 E2; [congruence|]. subst q.
    destruct (hand_out _ z s' L' U' _ o fo_domain Hb' ltac:(done)) as [HU _].
    destruct (live !! na_phys a) eqn:El; [|done]. apply Hlive, Hsa in El. congruence. }
  assert (Hret : retired_pages s2 = retired_pages (ph m)).
  { unfold s2. rewrite set_desc_retired. apply Hr. }
  destruct Hr as (R1 & R2 & R3 & R4).
  eexists _, _, _. split; [done|]. split; [|split_and!; [done| |done]].
  - destruct init; repeat split; done.
  - destruct init; [done|]. eapply client_step_inv; [exact boot_ok|exact Hi2|].
    apply zero_block_step; [destruct Ho; done|]. apply lookup_insert_eq.
Qed.

(** Pages of a list of slots. *)
Definition slot_pages (l : list txn_slot) : Z := foldr (fun sl acc => 2 ^ sl_order sl + acc) 0 l.

Lemma txn_filter_agree {A} (P Q : A -> Prop) `{!forall x, Decision (P x), !forall x, Decision (Q x)} (l : list A) :
  (forall x, x ∈ l -> P x <-> Q x) -> filter P l = filter Q l.
Proof.
  induction l as [|x l IH]; intros Hpq; [done|]. rewrite !filter_cons.
  rewrite IH by (intros y Hy; apply Hpq; by right).
  specialize (Hpq x ltac:(by left)). repeat case_decide; tauto.
Qed.

(** The head frame of the slot is marked offline. *)
Definition offline_at (m : machine) (sl : txn_slot) : bool :=
  has_flag (frame (ph m) (sl_phys sl / PAGE_SIZE)) ff_offline.

Lemma live_page m live q o : inv (ph m, live) -> live !! q = Some o ->
  (PAGE_SIZE | q) /\ 0 <= q < max_phys (ph m).
Proof.
  intros (L & U & Hb & Hlive & _) Hq. cbn [fst snd] in *.
  apply (block_page z (ph m) q o). eapply bi_wf; [exact Hb|by apply Hlive].
Qed.

(** Freeing a block leaves the descriptors of the other allocated blocks. *)
Lemma free_keeps_head m live p o q oq : inv (ph m, live) ->
  live !! p = Some o -> live !! q = Some oq -> q <> p ->
  frame (free_locked (ph m) p o z NUMA_NODE_BOOT) (q / PAGE_SIZE) = frame (ph m) (q / PAGE_SIZE).
Proof.
  intros (L & U & Hb & Hlive & _) Hp Hq Hne. cbn [fst snd] in *. apply Hlive in Hp, Hq.
  destruct (free_locked_spec NUMA_NODE_BOOT z (ph m) L (delete p U) p o) as (L' & U' & _ & _ & _ & Hk);
    [by apply inv_ungrab|done|].
  apply (Hk q oq). by rewrite lookup_delete_ne.
Qed.

(** One iteration of [on_rollback] for a live slot. *)
Lemma rollback_slot_spec m live sl : inv (ph m, live) -> slot_ok live sl ->
  let m1 := rollback_slot m sl in
  inv (ph m1, if offline_at m sl then live else delete (sl_phys sl) live) /\
  u64 (retired_pages (ph m1)) =
    u64 (retired_pages (ph m) + if offline_at m sl then 2 ^ sl_order sl else 0) /\
  forall q oq, live !! q = Some oq -> q <> sl_phys sl ->
    frame (ph m1) (q / PAGE_SIZE) = frame (ph m) (q / PAGE_SIZE).
Proof.
  intros Hinv (Hsl & Hso & Hz & Hn) m1. destruct (live_page m live _ _ Hinv Hsl) as [Hpa Hpr].
  assert (Hidx : desc_of (ph m) (sl_phys sl) = Expected (sl_phys sl / PAGE_SIZE)).
  { destruct Hinv as (L & U & Hb & _). apply desc_of_ok; [apply Hb|done]. }
  unfold m1, rollback_slot, offline_at. rewrite Hidx. destruct (has_flag _ _).
  - split_and!.
    + apply add_retired_inv. by apply stamp_live with (sl_order sl).
    + unfold add_retired. cbn [ph with_ph retired_pages].
      rewrite set_desc_retired, Z.shiftl_1_l. unfold u64, wrap. by rewrite Z.mod_mod by lia.
    + intros q oq Hq Hne. destruct (live_page m live _ _ Hinv Hq) as [Hqa _].
      exact (set_desc_other (ph m) _ _ q Hpa Hqa ltac:(congruence)).
  - rewrite Hn, Hz. split_and!; cbn [ph with_ph].
    + eapply client_step_inv; [exact boot_ok|exact Hinv|]. by apply cs_free.
    + by rewrite free_locked_retired, Z.add_0_r.
    + intros q oq Hq Hne. by eapply (free_keeps_head m live).
Qed.

(** Rolling back releases every slot, except those whose frame has meanwhile gone
    offline: these stay allocated, as reserved, and are counted as retired. *)
Lemma rollback_single slots m live :
  inv (ph m, live) -> NoDup (map sl_phys slots) -> Forall (slot_ok live) slots ->
  let kept := filter (fun sl => offline_at m sl = true) slots in
  exists live', inv (ph (fold_left rollback_slot slots m), live') /\
    u64 (retired_pages (ph (fold_left rollback_slot slots m))) =
      u64 (retired_pages (ph m) + slot_pages kept) /\
    forall q o, live' !! q = Some o <->
      live !! q = Some o /\ (q ∉ map sl_phys slots \/ q ∈ map sl_phys kept).
Proof.
  revert m live. induction slots as [|sl slots IH]; intros m live Hinv Hnd Hf kept.
  { exists live. cbn [fold_left map slot_pages foldr kept]. rewrite Z.add_0_r.
    split_and!; try done. intros q o. rewrite elem_of_nil. tauto. }
  cbn [map] in Hnd. apply list.NoDup_cons in Hnd as [Hni Hnd].
  apply list.Forall_cons in Hf as [Hsl Hf]. cbn [fold_left].
  destruct (rollback_slot_spec m live sl Hinv Hsl) as (Hi1 & Hret1 & Hfr).
  set (m1 := rollback_slot m sl) in *. set (live1 := if offline_at m sl then live else _) in Hi1.
  assert (Hne : forall x, x ∈ slots -> sl_phys x <> sl_phys sl).
  { intros x Hx E. apply Hni. rewrite <- E. apply list_elem_of_fmap. by exists x. }
  assert (Hf' : Forall (slot_ok live1) slots).
  { apply list.Forall_forall. intros x Hx. apply (proj1 (list.Forall_forall _ _) Hf) in Hx as Hok.
    destruct Hok as (H1 & H2). split; [|done]. unfold live1. destruct (offline_at m sl); [done|].
    rewrite lookup_delete_ne; [done|]. apply not_eq_sym, (Hne x Hx). }
  assert (Hkept : filter (fun x => offline_at m1 x = true) slots =
    filter (fun x => offline_at m x = true) slots).
  { apply txn_filter_agree. intros x Hx. unfold offline_at.
    destruct (proj1 (list.Forall_forall _ _) Hf x Hx) as (Hlx & _).
    by rewrite (Hfr _ _ Hlx (Hne x Hx)). }
  destruct (IH m1 live1 Hi1 Hnd Hf') as (live' & Hi & Hret & Hl). rewrite Hkept in Hret, Hl.
  exists live'. unfold kept. rewrite filter_cons. unfold live1 in Hl.
  destruct (offline_at m sl) eqn:Eoff.
  - rewrite decide_True by done. cbn [map slot_pages foldr]. fold (slot_pages (filter (fun x => offline_at m x = true) slots)).
    split_and!; [done| |].
    + rewrite Hret. unfold u64, wrap in *. rewrite Z.add_mod, Hret1, <- Z.add_mod by lia. f_equal. lia.
    + intros q oq. rewrite (Hl q oq), not_elem_of_cons, elem_of_cons.
      destruct (decide (q = sl_phys sl)) as [->|Hq]; [|tauto].
      split; (intros [H1 _]; split; [exact H1|auto]).
  - rewrite decide_False by done. split_and!; [done| |].
    + rewrite Hret. unfold u64, wrap in *. rewrite Z.add_mod, Hret1, <- Z.add_mod by lia. f_equal. lia.
    + intros q oq. rewrite (Hl q oq), lookup_delete_Some. cbn [map]. rewrite not_elem_of_cons.
      assert (Hkn : sl_phys sl ∉ map sl_phys (filter (fun x => offline_at m x = true) slots)).
      { intros (x & E & [_ Hx]%list_elem_of_filter)%list_elem_of_fmap. by apply (Hne x Hx). }
      naive_solver.
Qed.

(** A transaction that has turned [live0] into [live]. *)
Definition txn_inv (live0 live : gmap Z Z) (t : transaction) : Prop :=
  committed t = false /\ rolled_back t = false /\ (length (m_slots t) <= 16)%nat /\
  NoDup (map sl_phys (m_slots t)) /\ Forall (slot_ok live) (m_slots t) /\
  Forall (fun sl => sl_order sl <= MAX_ORDER) (m_slots t) /\
  (forall q o, live !! q = Some o /\ q ∉ map sl_phys (m_slots t) <-> live0 !! q = Some o).

(** Allocate along a list of requests, carrying on after a refusal. *)
Fixpoint txn_run (m : machine) (c : context) (t : transaction)
    (reqs : list (Z * purpose * page_init)) : option (transaction * machine) :=
  match reqs with
  | [] => Some (t, m)
  | (o, p, init) :: reqs =>
      '(_, t, m) ← txn_alloc max_cpus m c t o z p init;
      txn_run m c t reqs
  end.

Definition req_ok (c : context) (r : Z * purpose * page_init) : Prop :=
  order_ok r.1.1 /\ r.1.2 <> pu_page_table /\ in_hardirq c && (0 <? r.1.1) = false.

Lemma txn_alloc_inv m c t r live0 live :
  single_node m -> req_ok c r -> 0 <= local_node_id max_cpus m c -> in_mcck c = false ->
  inv (ph m, live) -> txn_inv live0 live t ->
  exists res t' m' live', txn_alloc max_cpus m c t r.1.1 z r.1.2 r.2 = Some (res, t', m') /\
    same_rest m m' /\ inv (ph m', live') /\ txn_inv live0 live' t'.
Proof.
  intros Hs (Ho & Hp & Hh) Hl Hmc Hinv Ht.
  destruct (decide (length (m_slots t) = 16%nat)) as [Hfull|Hfull].
  { unfold txn_alloc. rewrite Hfull, orb_true_r. by eexists _, _, _, live. }
  destruct (txn_alloc_single m c t r.1.1 r.1.2 r.2 live) as (res & t' & m' & E & Hr & Hres); try done.
  exists res, t', m'. destruct res as [q|e].
  2:{ destruct Hres as [-> Hi]. by exists live. }
  destruct Hres as (Hq & Hi & ->). exists (<[q := r.1.1]> live). split_and!; [done|done|done|].
  destruct Ht as (H1 & H2 & H3 & H4 & H5 & H6 & H7). cbn [m_slots committed rolled_back].
  assert (Hnq : q ∉ map sl_phys (m_slots t)).
  { intros (x & E' & Hx)%list_elem_of_fmap. apply (proj1 (list.Forall_forall _ _) H5) in Hx.
    destruct Hx as (Hx & _). congruence. }
  assert (Hq0 : live0 !! q = None).
  { destruct (live0 !! q) eqn:E0; [|done]. apply H7 in E0 as [E0 _]. congruence. }
  destruct Ho as [Ho1 Ho2]. split_and!; [done|done| | | | |]; cbn [m_slots].
  - rewrite length_app. cbn [length]. lia.
  - rewrite map_app. apply list.NoDup_app. split_and!; [done| |apply list.NoDup_singleton].
    intros x Hx Hx'. apply list_elem_of_singleton in Hx' as ->. done.
  - apply Forall_app. split; [|repeat constructor; [apply lookup_insert_eq|done]].
    eapply list.Forall_impl; [exact H5|]. intros x (Hx & Hx'). split; [|done].
    rewrite lookup_insert_ne by congruence. done.
  - apply Forall_app. split; [done|by repeat constructor].
  - intros x ox. rewrite map_app, not_elem_of_app. cbn [map sl_phys].
    rewrite list_elem_of_singleton, <- (H7 x ox), lookup_insert.
    destruct (decide (q = x)) as [<-|]; [rewrite Hq; naive_solver|naive_solver].
Qed.

Lemma txn_run_inv reqs m c t live0 live :
  single_node m -> Forall (req_ok c) reqs -> 0 <= local_node_id max_cpus m c -> in_mcck c = false ->
  inv (ph m, live) -> txn_inv live0 live t ->
  exists t' m' live', txn_run m c t reqs = Some (t', m') /\
    same_rest m m' /\ inv (ph m', live') /\ txn_inv live0 live' t'.
Proof.
  revert m t live. induction reqs as [|[[o p] init] reqs IH]; intros m t live Hs Hf Hl Hmc Hinv Ht.
  { by exists t, m, live. }
  apply list.Forall_cons in Hf as [Hr Hf]. cbn [txn_run].
  destruct (txn_alloc_inv m c t (o, p, init) live0 live Hs Hr Hl Hmc Hinv Ht)
    as (res & t1 & m1 & live1 & E & Hsr & Hi1 & Ht1). cbn [fst snd] in E. rewrite E.
  cbn [mbind option_bind].
  destruct (IH m1 t1 live1) as (t' & m' & live' & E' & Hsr' & Hi' & Ht'); try done.
  { eapply single_node_topo; [apply Hsr|done]. }
  { unfold local_node_id. destruct Hsr as (-> & _). exact Hl. }
  exists t', m', live'. split_and!; [done| |done|done]. by eapply same_rest_trans.
Qed.

End single.

(** ** Claims *)

(** A machine check marks the frame at index [i] offline. *)
Definition mark_offline (m : machine) (i : Z) : machine :=
  with_ph m (upd_frame (ph m) i (desc_or_flags (frame (ph m) i) ff_offline)).

Lemma mark_offline_inv node z N m live i :
  client_inv node z N (ph m, live) -> client_inv node z N (ph (mark_offline m i), live).
Proof.
  intros (L & U & [H1 H2 H3 H4 H5 H6 H7 H8 H9 H10 H11] & Hlive & HN). cbn [fst snd] in *. exists L, U.
  split; [|done].
  assert (Ht : forall p o, tagged node (ph (mark_offline m i)) p o <-> tagged node (ph m) p o).
  { intros p o. unfold tagged, mark_offline. cbn [ph with_ph upd_frame]. unfold frame, upd_frame. cbn [frames with_frames].
    rewrite lookup_insert. by destruct (decide (i = p / PAGE_SIZE)) as [->|]. }
  split; try done.
  - intros p o Hp. by apply Ht, H8.
  - intros p o Hr Hp Hz. rewrite Ht. by apply H9.
Qed.

Lemma mark_all_inv node z N marks m live :
  client_inv node z N (ph m, live) ->
  client_inv node z N (ph (fold_left mark_offline marks m), live) /\
  retired_pages (ph (fold_left mark_offline marks m)) = retired_pages (ph m).
Proof.
  revert m. induction marks as [|i marks IH]; intros m Hi; [done|]. cbn [fold_left].
  destruct (IH (mark_offline m i) (mark_offline_inv node z N m live i Hi)) as [H1 H2]. done.
Qed.

(** C35: A transaction that is dropped without commit returns what it took.  On a
    machine whose only node with memory is the boot node, for a transaction on
    one zone that asks for blocks of valid order for other purposes than page
    tables (those are validated, and a block that fails is quarantined), outside
    machine checks and hard interrupts (there only single pages): whatever
    sequence of allocations it attempted, some of which may have failed, and
    whichever frames a machine check has marked offline since, its destructor
    keeps exactly the blocks whose head frame is offline (as reserved, counted in
    [retired_pages]) and returns every other block; when none is offline, the
    zone's allocated blocks, its free page count and [retired_pages] are exactly
    what they were before. *)
Theorem txn_rollback_restores max_cpus z N m c live reqs marks :
  single_node m -> Forall (req_ok c) reqs -> 0 <= local_node_id max_cpus m c -> in_mcck c = false ->
  client_inv NUMA_NODE_BOOT z N (ph m, live) ->
  exists t m1, txn_run z max_cpus m c (Transaction [] false false) reqs = Some (t, m1) /\
    let m2 := fold_left mark_offline marks m1 in
    let kept := filter (fun sl => offline_at m2 sl = true) (m_slots t) in
    let '(m3, t3) := txn_destroy m2 t in
    rolled_back t3 = true /\
    exists live', client_inv NUMA_NODE_BOOT z N (ph m3, live') /\
      (forall q o, live' !! q = Some o <->
         live !! q = Some o \/ TxnSlot q o z NUMA_NODE_BOOT ∈ kept) /\
      u64 (retired_pages (ph m3)) = u64 (retired_pages (ph m) + slot_pages kept) /\
      (kept = [] -> live' = live /\
         free_pages (nz (ph m3) NUMA_NODE_BOOT z) = free_pages (nz (ph m) NUMA_NODE_BOOT z)).
Proof.
  intros Hs Hf Hl Hmc Hinv.
  destruct (txn_run_inv z N max_cpus reqs m c (Transaction [] false false) live live Hs Hf Hl Hmc Hinv)
    as (t & m1 & live1 & E & Hsr & Hi1 & H1 & H2 & H3 & H4 & H5 & H6 & H7).
  { split_and!; [done|done|cbn; lia|constructor|constructor|constructor|].
    intros q o. cbn [m_slots map]. split; [by intros [? _]|]. intros Hq.
    split; [done|apply not_elem_of_nil]. }
  exists t, m1. split; [exact E|]. cbv zeta. unfold txn_destroy. rewrite H1, H2. cbn [negb andb].
  split; [done|]. destruct (mark_all_inv NUMA_NODE_BOOT z N marks m1 live1 Hi1) as [Hi2 Hret2].
  set (m2 := fold_left mark_offline marks m1) in *. set (kept := filter _ (m_slots t)).
  destruct (rollback_single z N (m_slots t) m2 live1 Hi2 H4 H5) as (live' & Hi & Hret & Hlv).
  fold kept in Hret, Hlv.
  assert (Hk : forall x, x ∈ kept -> x ∈ m_slots t) by (intros x Hx; by apply list_elem_of_filter in Hx as [_ ?]).
  assert (Hchar : forall q o, live' !! q = Some o <->
      live !! q = Some o \/ TxnSlot q o z NUMA_NODE_BOOT ∈ kept).
  { intros q o. rewrite (Hlv q o), <- (H7 q o). split.
    - intros [Hq [Hni|(x & -> & Hx)%list_elem_of_fmap]]; [by left|right].
      assert (Hok : slot_ok z live1 x) by (apply (proj1 (list.Forall_forall _ _) H5); by apply Hk).
      destruct Hok as (Hx1 & _ & Hx3 & Hx4). destruct x as [xp xo xz xn]. simpl in *.
      assert (xo = o) as -> by congruence. subst. done.
    - intros [[Hq Hni]|Hx]; [split; [done|by left]|].
      assert (Hok : slot_ok z live1 (TxnSlot q o z NUMA_NODE_BOOT))
        by (apply (proj1 (list.Forall_forall _ _) H5); by apply Hk).
      destruct Hok as (Hx1 & _). split; [exact Hx1|right].
      apply list_elem_of_fmap. exists (TxnSlot q o z NUMA_NODE_BOOT). split; done. }
  exists live'. split_and!; [exact Hi|exact Hchar| |].
  { unfold on_rollback. rewrite Hret, Hret2. destruct Hsr as (_ & _ & _ & ->). done. }
  intros Hk0.
  assert (El : live' = live).
  { apply map_eq. intros q. apply option_eq. intros o. rewrite (Hchar q o), Hk0.
    split; [|by left]. intros [|Hx]; [done|]. by apply not_elem_of_nil in Hx. }
  split; [exact El|]. subst live'.
  destruct (client_inv_safe _ z boot_ok N _ _ Hi) as (_ & _ & E1 & _).
  destruct (client_inv_safe _ z boot_ok N _ _ Hinv) as (_ & _ & E2 & _).
  etransitivity; [exact E1|by symmetry].
Qed.

Definition boot_machine : machine := Machine demo_pmm ∅ numa_zero 16384 false.
Definition thread (cpu : Z) : context := Context_ cpu false false false true.
Definition softirq (cpu : Z) : context := Context_ cpu false false true false.

Lemma demo_client : client_inv NUMA_NODE_BOOT dma31 2 (demo_pmm, ∅).
Proof.
  exists demo_list, demo_blocks. split; [exact demo_inv|]. split; [|reflexivity].
  intros q o. cbn [snd]. unfold demo_blocks. rewrite lookup_singleton_Some, lookup_empty.
  split; [intros [_ [=]]|intros [=]].
Qed.

Lemma boot_single : single_node boot_machine.
Proof.
  intros n Hn Hne. unfold node_is_allocatable, boot_machine. cbn [topo].
  destruct (negb _); [done|]. unfold Numa.node_at. cbn. by apply Z.eqb_neq.
Qed.

(** Two pages taken, a third refused; one page goes offline and is retired, the
    other is returned. *)
Lemma txn_rollback_restores_witness :
  exists t m1, txn_run dma31 4 boot_machine (thread 0) (Transaction [] false false)
    [(0, pu_generic, zeroed); (0, pu_stack, uninitialized_); (1, pu_generic, zeroed)] = Some (t, m1) /\
  length (m_slots t) = 2%nat /\ free_pages (nz (ph m1) 0 dma31) = 0 /\
  let m2 := mark_offline m1 (sl_phys (hd (TxnSlot 0 0 dma31 0) (m_slots t)) / PAGE_SIZE) in
  free_pages (nz (ph (txn_destroy m2 t).1) 0 dma31) = 1 /\
  u64 (retired_pages (ph (txn_destroy m2 t).1)) = 1.
Proof.
  destruct (txn_run dma31 4 boot_machine (thread 0) (Transaction [] false false)
    [(0, pu_generic, zeroed); (0, pu_stack, uninitialized_); (1, pu_generic, zeroed)]) as [[t0 m0]|] eqn:E0;
    [|vm_compute in E0; discriminate].
  set (i0 := sl_phys (hd (TxnSlot 0 0 dma31 0) (m_slots t0)) / PAGE_SIZE).
  destruct (txn_rollback_restores 4 dma31 2 boot_machine (thread 0) ∅
    [(0, pu_generic, zeroed); (0, pu_stack, uninitialized_); (1, pu_generic, zeroed)] [i0])
    as (t & m1 & E & H).
  - exact boot_single.
  - repeat constructor; try discriminate; vm_compute; congruence.
  - vm_compute. congruence.
  - reflexivity.
  - exact demo_client.
  - rewrite E0 in E. injection E as -> ->. exists t, m1. split; [reflexivity|].
    cbv zeta in H |- *. fold i0. change (fold_left mark_offline [i0] m1) with (mark_offline m1 i0) in H.
    destruct (txn_destroy (mark_offline m1 i0) t) as [m3 t3] eqn:E3.
    destruct H as (_ & live' & _ & _ & Hret & _). cbn [fst]. rewrite Hret. clear Hret.
    subst i0. vm_compute in E0. injection E0 as <- <-. vm_compute in E3. injection E3 as <- <-.
    vm_compute. done.
Defined.

(** ** Frame pins *)

(** The state with one refcount rewritten. *)
Lemma frame_upd s i d j : frame (upd_frame s i d) j = if decide (i = j) then d else frame s j.
Proof. unfold frame, upd_frame. cbn. rewrite lookup_insert. by destruct (decide (i = j)). Qed.

Lemma frame_index_ok s phys :
  frame_table s = true -> 0 <= phys < max_phys s -> frame_index s phys = Expected (phys / PAGE_SIZE).
Proof.
  intros Ht Hp. unfold frame_index, max_phys, PAGE_SIZE, PAGE_SHIFT in *. rewrite Ht. cbn [negb orb].
  rewrite Z.shiftr_div_pow2 by lia. change (2 ^ 12) with 4096.
  by rewrite (proj2 (Z.leb_gt _ _)) by lia.
Qed.

(** Pins are counted exactly.  Taking a pin adds one to the sixteen-bit count or,
    at its ceiling, is refused and changes nothing; dropping a pin of an order-0
    frame is refused at zero, gives up one pin while others remain, and returns
    the frame to the allocator exactly when it was the last. *)
Theorem frame_pins_exact m c phys r :
  frame_table (ph m) = true -> 0 <= phys < max_phys (ph m) ->
  fd_order (frame (ph m) (phys / PAGE_SIZE)) = 0 ->
  fd_refcount (frame (ph m) (phys / PAGE_SIZE)) = r -> fits 16 r ->
  let i := phys / PAGE_SIZE in
  let counted n := upd_frame (ph m) i (set_refcount (frame (ph m) i) n) in
  frame_ref (ph m) phys =
    (if r =? 65535 then (Unexpected (from_memory mem_out_of_memory), ph m)
     else (Expected (r + 1), counted (r + 1))) /\
  frame_release_pin m c phys =
    (if r =? 0 then Some (Unexpected (from_memory mem_purpose_mismatch), m)
     else if r =? 1 then
       option_map (fun m' => (Expected true, m')) (free (with_ph m (counted 0)) c phys 0 (zone_of phys))
     else Some (Expected false, with_ph m (counted (r - 1)))) /\
  (r <> 65535 -> (frame_unref (frame_ref (ph m) phys).2 phys).1 = Expected r).
Proof.
  intros Ht Hp Ho Hr Hfit i counted. unfold fits in Hfit. change (2 ^ 16) with 65536 in Hfit.
  pose proof (frame_index_ok _ _ Ht Hp) as Hi. fold i in Hi, Ho, Hr.
  assert (Href : frame_ref (ph m) phys =
    (if r =? 65535 then (Unexpected (from_memory mem_out_of_memory), ph m)
     else (Expected (r + 1), counted (r + 1)))).
  { unfold frame_ref. rewrite Hi, Hr. destruct (Z.eqb_spec r 65535); [done|].
    replace (u16 (r + 1)) with (r + 1) by solve_u. done. }
  split; [exact Href|]. split.
  - unfold frame_release_pin, desc_of_checked. rewrite (desc_of_ok _ _ Ht Hp). fold i.
    rewrite Ho. cbn [Z.eqb negb]. unfold frame_unref. rewrite Hi, Hr.
    destruct (Z.eqb_spec r 0) as [->|Hr0]; [by destruct m|].
    destruct (Z.eqb_spec r 1) as [->|Hr1].
    + change (u16 (1 - 1)) with 0. cbn [Z.eqb negb]. fold (counted 0).
      by destruct (free _ _ _ _ _).
    + replace (u16 (r - 1)) with (r - 1) by solve_u. rewrite (proj2 (Z.eqb_neq _ _)) by lia. done.
  - intros Hne. rewrite Href, (proj2 (Z.eqb_neq _ _)) by done. cbn [snd]. unfold frame_unref.
    assert (Hi' : frame_index (counted (r + 1)) phys = Expected i) by exact Hi. rewrite Hi'.
    unfold counted. rewrite frame_upd, decide_True by done. cbn [set_refcount fd_refcount].
    rewrite (proj2 (Z.eqb_neq _ _)) by lia. cbn [fst]. f_equal. solve_u.
Qed.

(** Frame 2, allocated with one pin: pinned, unpinned, and released for good. *)
Definition pinned_machine : machine :=
  Machine (upd_frame half_pmm 2 (set_refcount (frame half_pmm 2) 1)) ∅ numa_zero 16384 false.

Lemma frame_pins_exact_witness :
  (frame_ref (ph pinned_machine) 8192).1 = Expected 2 /\
  exists m', frame_release_pin pinned_machine (thread 0) 8192 = Some (Expected true, m') /\
    head_phys (pcp m' (0, 0, 0, 0)) = 8192.
Proof.
  destruct (frame_pins_exact pinned_machine (thread 0) 8192 1) as (H1 & H2 & _).
  - reflexivity.
  - split; [lia|vm_compute; reflexivity].
  - reflexivity.
  - reflexivity.
  - vm_compute. split; congruence.
  - split; [rewrite H1; reflexivity|].
    vm_compute in H2. eexists. split; [exact H2|reflexivity].
Defined.

(** ** Mapping authority *)

(** Page [q] is stamped with this object and generation and is not offline. *)
Definition page_authorised (s : pmm) (oid gen q : Z) : Prop :=
  exists i, desc_of s q = Expected i /\ fd_object_id (frame s i) = oid /\
    fd_object_generation (frame s i) = gen /\ has_flag (frame s i) ff_offline = false.

Lemma validate_pages_spec n s phys oid gen :
  validate_pages s phys oid gen n = Expected tt <->
  forall k, 0 <= k < Z.of_nat n -> page_authorised s oid gen (phys + k * PAGE_SIZE).
Proof.
  revert phys. induction n as [|n IH]; intros phys; cbn [validate_pages].
  { split; [intros; lia|done]. }
  unfold desc_of_checked.
  assert (Hsplit : (forall k, 0 <= k < Z.of_nat (S n) -> page_authorised s oid gen (phys + k * PAGE_SIZE)) <->
    page_authorised s oid gen phys /\
    forall k, 0 <= k < Z.of_nat n -> page_authorised s oid gen (phys + PAGE_SIZE + k * PAGE_SIZE)).
  { split.
    - intros H. split; [replace phys with (phys + 0 * PAGE_SIZE) by lia; apply H; lia|].
      intros k Hk. replace (phys + PAGE_SIZE + k * PAGE_SIZE) with (phys + (k + 1) * PAGE_SIZE)
        by (unfold PAGE_SIZE; lia). apply H. lia.
    - intros [H0 H] k Hk. destruct (decide (k = 0)) as [->|]; [by rewrite Z.mul_0_l, Z.add_0_r|].
      replace (phys + k * PAGE_SIZE) with (phys + PAGE_SIZE + (k - 1) * PAGE_SIZE)
        by (unfold PAGE_SIZE; lia). apply H. lia. }
  rewrite Hsplit, <- IH. clear Hsplit. unfold page_authorised.
  destruct (desc_of s phys) as [i|e]; [|split; [done|intros [(i & [=] & _) _]]].
  destruct (Z.eqb_spec (fd_object_id (frame s i)) oid) as [E1|E1]; cbn [negb orb];
    [|split; [done|intros [(j & [= <-] & ? & _) _]; done]].
  destruct (Z.eqb_spec (fd_object_generation (frame s i)) gen) as [E2|E2]; cbn [negb orb];
    [|split; [done|intros [(j & [= <-] & _ & ? & _) _]; done]].
  destruct (has_flag (frame s i) ff_offline) eqn:E3;
    [split; [done|intros [(j & [= <-] & _ & _ & ?) _]; congruence]|].
  split; [|by intros [_ ?]]. intros Hv. split; [|done]. by exists i.
Qed.

(** A physical range is accepted for mapping under an object exactly when it is a
    non-empty page-aligned range that does not wrap and every one of its pages is
    stamped with that object and generation and is not offline. *)
Theorem frame_validate_mapping_exact s phys len oid gen :
  fits 64 phys -> fits 64 len ->
  frame_validate_mapping s phys len oid gen = Expected tt <->
  0 < len /\ (PAGE_SIZE | phys) /\ (PAGE_SIZE | len) /\ phys + len < 2 ^ 64 /\
  forall q, phys <= q < phys + len -> (PAGE_SIZE | q) -> page_authorised s oid gen q.
Proof.
  intros Hp Hl. unfold frame_validate_mapping. change (PAGE_SIZE - 1) with (Z.ones 12).
  rewrite !land_ones_mod by lia. change (2 ^ 12) with 4096. change PAGE_SIZE with 4096 in *.
  destruct (Z.eqb_spec len 0) as [El|El]; cbn [orb]; [split; [done|intros; unfold fits in *; lia]|].
  destruct (Z.eqb_spec (phys mod 4096) 0) as [Ep|Ep]; cbn [negb orb].
  2:{ split; [done|]. intros (_ & [k ->] & _). by rewrite Z.mod_mul in Ep by lia. }
  destruct (Z.eqb_spec (len mod 4096) 0) as [Em|Em]; cbn [negb orb].
  2:{ split; [done|]. intros (_ & _ & [k ->] & _). by rewrite Z.mod_mul in Em by lia. }
  destruct (Z.ltb_spec (u64 (phys + len)) phys) as [Hw|Hw].
  { split; [done|]. intros (_ & _ & _ & Hlt & _). revert Hw Hlt. solve_u. }
  assert (Hnw : phys + len < 2 ^ 64) by (revert Hw; unwrap_u; lia).
  rewrite validate_pages_spec. change PAGE_SIZE with 4096.
  assert (Hdp : (4096 | phys)) by (apply Z.mod_divide; [lia|done]).
  assert (Hdl : (4096 | len)) by (apply Z.mod_divide; [lia|done]).
  unfold fits in *. split.
  - intros H. split_and!; [lia|done|done|done|]. intros q Hq [kq Eq].
    destruct Hdp as [kp Ekp]. replace q with (phys + (kq - kp) * 4096) by lia. apply H. lia.
  - intros (_ & _ & _ & _ & H) k Hk. apply H; [lia|].
    apply Z.divide_add_r; [done|apply Z.divide_factor_r].
Qed.

Definition stamped_pmm : pmm := (frame_set_mapping_metadata half_pmm 8192 7 3 true).2.

Lemma frame_validate_mapping_exact_witness :
  frame_validate_mapping stamped_pmm 8192 4096 7 3 = Expected tt /\
  page_authorised stamped_pmm 7 3 8192 /\
  frame_validate_mapping stamped_pmm 8192 8192 7 3 <> Expected tt.
Proof.
  assert (E : frame_validate_mapping stamped_pmm 8192 4096 7 3 = Expected tt) by (vm_compute; reflexivity).
  split; [exact E|]. split; [|vm_compute; discriminate].
  apply frame_validate_mapping_exact in E; [|vm_compute; split; congruence|vm_compute; split; congruence].
  destruct E as (_ & _ & _ & _ & H). apply H; [lia|]. exists 2. reflexivity.
Defined.

(** ** Placement *)

Lemma try_alloc_node_sound m order z n a m' :
  try_alloc_node m order z n = Some (a, m') ->
  topo m' = topo m /\
  (na_phys a <> 0 -> na_node a = normalize_node_id n /\
     node_is_allocatable m (normalize_node_id n) = true /\
     Z.shiftl 1 order <= free_pages (nz (ph m) (normalize_node_id n) z)).
Proof.
  unfold try_alloc_node.
  destruct (node_is_allocatable m (normalize_node_id n)); cbn [negb]; [|by intros [= <- <-]].
  destruct (Z.ltb_spec (free_pages (nz (ph m) (normalize_node_id n) z)) (Z.shiftl 1 order));
    [by intros [= <- <-]|].
  destruct (alloc_locked _ _ _ _) as [[p s]|]; [|done]. cbn [mbind option_bind].
  destruct (p =? 0); intros [= <- <-]; [done|]. split; done.
Qed.

Lemma node_is_allocatable_topo m m' n :
  topo m' = topo m -> node_is_allocatable m' n = node_is_allocatable m n.
Proof. intros E. unfold node_is_allocatable. by rewrite E. Qed.

Lemma try_nodes_sound k m order z pref f g i a m' :
  (forall j, i <= j < i + Z.of_nat k -> 0 <= f j < 16) ->
  try_nodes m order z pref f g i k = Some (a, m') ->
  topo m' = topo m /\
  (na_phys a <> 0 -> exists j, i <= j < i + Z.of_nat k /\ na_node a = f j /\ na_distance a = g j /\
     na_remote a = negb (f j =? pref) /\ node_is_allocatable m (f j) = true).
Proof.
  revert m i. induction k as [|k IH]; intros m i Hf; cbn [try_nodes]; [by intros [= <- <-]|].
  destruct (try_alloc_node m order z (f i)) as [[a1 m1]|] eqn:E; [|done]. cbn [mbind option_bind].
  apply try_alloc_node_sound in E as [Et Ha].
  assert (Hn : normalize_node_id (f i) = f i).
  { specialize (Hf i ltac:(lia)). unfold normalize_node_id, node_id_is_valid, MAX_NUMA_NODES.
    by rewrite (proj2 (Z.ltb_lt _ _)) by lia. }
  destruct (Z.eqb_spec (na_phys a1) 0) as [H0|H0].
  - intros H. apply IH in H as [Et' H]; [|intros j Hj; apply Hf; lia]. split; [congruence|].
    intros Hp. destruct (H Hp) as (j & Hj & H1 & H2 & H3 & H4). exists j. split_and!; try done; try lia.
    by rewrite <- (node_is_allocatable_topo m m1).
  - intros [= <- <-]. split; [done|]. intros _. destruct (Ha H0) as (H1 & H2 & _). rewrite Hn in *.
    exists i. split_and!; try done; lia.
Qed.

(** Placement obeys the policy: memory only ever comes from a node that the
    topology reports online or degraded; a strict-local request, or one that forbids
    remote memory, is served by the preferred node or not at all; and the reported
    distance and remoteness describe the node that served. *)
Theorem alloc_placement_respects_policy m order z pol ln a m' :
  0 <= ln -> 0 <= preferred_node pol ->
  alloc_node_aware m order z pol ln = Some (a, m') -> na_phys a <> 0 ->
  let pref := normalize_node_id
    (if preferred_node pol =? NUMA_NODE_ANY then ln else preferred_node pol) in
  0 <= na_node a < 16 /\ node_is_allocatable m (na_node a) = true /\
  na_remote a = negb (na_node a =? pref) /\
  na_node a = (pref + na_distance a) mod MAX_NUMA_NODES /\
  (ap_fallback pol = fm_strict_local \/ allow_remote pol = false -> na_node a = pref).
Proof.
  intros Hl Hpn. unfold alloc_node_aware.
  assert (Hpr : 0 <= normalize_node_id (if preferred_node pol =? NUMA_NODE_ANY then ln else preferred_node pol) < 16).
  { apply normalize_range. by destruct (_ =? _). }
  set (pref := normalize_node_id _) in *.
  assert (Hpp : normalize_node_id pref = pref).
  { unfold normalize_node_id, node_id_is_valid, MAX_NUMA_NODES. by rewrite (proj2 (Z.ltb_lt _ _)) by lia. }
  destruct (try_alloc_node m order z pref) as [[a1 m1]|] eqn:E; [|done]. cbn [mbind option_bind].
  pose proof E as E'. apply try_alloc_node_sound in E as [Et Ha]. rewrite Hpp in Ha.
  destruct (Z.eqb_spec (na_phys a1) 0) as [H0|H0]; cbn [negb].
  2:{ intros [= <- <-] _. destruct (Ha H0) as (H1 & H2 & _).
      assert (na_remote a1 = false /\ na_distance a1 = 0) as [Hr Hd].
      { unfold try_alloc_node in E'. destruct (negb _); [by injection E' as <- _|].
        destruct (_ <? _); [by injection E' as <- _|].
        destruct (alloc_locked _ _ _ _) as [[p s]|]; [|done]. cbn [mbind option_bind] in E'.
        destruct (p =? 0); by injection E' as <- _. }
      rewrite H1, Hr, Hd, Z.eqb_refl, Z.add_0_r. unfold MAX_NUMA_NODES.
      rewrite Z.mod_small by lia. split_and!; (done || lia). }
  destruct (bool_decide (ap_fallback pol = fm_strict_local) || negb (allow_remote pol)) eqn:Hroam;
    [by intros [= <- <-]|].
  assert (Hfree : ~ (ap_fallback pol = fm_strict_local \/ allow_remote pol = false)).
  { apply orb_false_iff in Hroam as [H1 H2]. apply bool_decide_eq_false in H1.
    apply negb_false_iff in H2. intros [?|?]; [done|congruence]. }
  destruct (try_nodes m1 _ _ _ _ _ 1 15) as [[a2 m2]|] eqn:E2; [|done]. cbn [mbind option_bind].
  apply try_nodes_sound in E2 as [Et2 H2];
    [|intros; apply Z.mod_pos_bound; unfold MAX_NUMA_NODES; lia].
  destruct (Z.eqb_spec (na_phys a2) 0) as [H02|H02]; cbn [negb].
  2:{ intros [= <- <-] _. destruct (H2 H02) as (j & Hj & -> & -> & -> & Hal).
      rewrite (node_is_allocatable_topo m m1) in Hal by done.
      pose proof (Z.mod_pos_bound (pref + j) MAX_NUMA_NODES ltac:(unfold MAX_NUMA_NODES; lia)).
      unfold MAX_NUMA_NODES in *. split_and!; (done || lia). }
  destruct (bool_decide (ap_fallback pol = fm_emergency_any)); [|by intros [= <- <-]].
  intros E3 Hne. apply try_nodes_sound in E3 as [Et3 H3]; [|intros; lia].
  destruct (H3 Hne) as (j & Hj & -> & -> & -> & Hal).
  rewrite (node_is_allocatable_topo m m2) in Hal by congruence.
  split_and!; [lia|lia|done|done| |done]. unfold MAX_NUMA_NODES. lia.
Qed.

(** The boot node serves a request that prefers node 3. *)
Lemma alloc_placement_respects_policy_witness :
  exists a m', alloc_node_aware boot_machine 0 dma31 (AllocationPolicy 3 fm_local_first false true) 3
    = Some (a, m') /\ na_node a = 0 /\ na_remote a = true /\ na_distance a = 13.
Proof.
  destruct (alloc_node_aware boot_machine 0 dma31 (AllocationPolicy 3 fm_local_first false true) 3)
    as [[a m']|] eqn:E; [|vm_compute in E; discriminate].
  exists a, m'. split; [reflexivity|].
  assert (Hp : na_phys a <> 0) by (vm_compute in E; injection E as <- _; discriminate).
  destruct (alloc_placement_respects_policy boot_machine 0 dma31 (AllocationPolicy 3 fm_local_first false true) 3 a m'
    ltac:(lia) ltac:(simpl; lia) E Hp) as (H1 & H2 & H3 & H4 & _).
  rewrite H3. vm_compute in E. injection E as <- _. split; [reflexivity|]. split; reflexivity.
Defined.

(** ** Where the page caches break the allocator *)

Definition no_reclaim (m : machine) (_ _ : Z) : machine := m.

(** An order-[o] allocation of the demo machine: its address (0 if refused). *)
Definition take_page (m : machine) (c : context) (o : Z) : option (Z * machine) :=
  '(r, m) ← alloc_folio 4 no_reclaim m c o dma31 pu_generic uninitialized_;
  match r with Expected a => Some (ar_phys a, m) | Unexpected _ => Some (0, m) end.

Definition give_page (m : machine) (c : context) (p o : Z) : option machine := free m c p o dma31.

(** Pages cached per CPU keep the descriptor of a free buddy block (owner [buddy],
    their order), so [free_locked] coalesces with them although they are on no
    free list.  On a machine with one free two-page block, each page below is
    freed once by its holder, two of them from interrupt context; at the end the
    block [[8192, 16384)] and the page [12288] inside it are both handed out. *)
Theorem pcp_double_allocation :
  exists m1 m2 m3 m4 m5 m6 m7 m8,
    take_page boot_machine (thread 0) 0 = Some (12288, m1) /\
    take_page m1 (thread 0) 0 = Some (8192, m2) /\
    give_page m2 (thread 0) 12288 0 = Some m3 /\
    give_page m3 (softirq 0) 8192 0 = Some m4 /\
    take_page m4 (thread 1) 0 = Some (12288, m5) /\
    give_page m5 (softirq 1) 12288 0 = Some m6 /\
    take_page m6 (thread 1) 1 = Some (8192, m7) /\
    take_page m7 (thread 0) 0 = Some (12288, m8) /\
    ~ disjoint_blocks 8192 1 12288 0.
Proof.
  do 8 eexists.
  do 8 (split; [vm_compute; reflexivity|]).
  intros [H|H]; vm_compute in H; congruence.
Qed.

(** [frame_desc] documents [ff_offline] as excluding a frame from allocation, but
    [free] rewrites the flags: a frame marked offline while allocated is handed
    out again by the next allocation, its mark gone. *)
Theorem offline_mark_lost_on_free :
  let m := Machine (upd_frame half_pmm 2 (desc_or_flags (frame half_pmm 2) ff_offline))
             ∅ numa_zero 16384 false in
  has_flag (frame (ph m) 2) ff_offline = true /\
  exists m1 m2, give_page m (thread 0) 8192 0 = Some m1 /\
    take_page m1 (thread 0) 0 = Some (8192, m2) /\
    has_flag (frame (ph m2) 2) ff_offline = false.
Proof.
  split; [vm_compute; reflexivity|]. do 2 eexists.
  split; [vm_compute; reflexivity|]. split; vm_compute; reflexivity.
Qed.
