(* ===== verification/PmmBoot.v ===== *)
(** * Building the free lists at boot

    Models [pmm::init] of [zxfoundation/memory/pmm.zcomponent/core.cxx]: staging,
    sorting and merging the reserved ranges, placing the frame table, and carving
    the usable regions around the reservations into naturally aligned buddy blocks
    that never straddle the DMA limit.  [None] is a [syschk_fatal]. *)

From stdpp Require Import sorting.
From S2P Require Import Prelude Errors Kobject Numa Dlist Pmm PmmApi.

Record resv_entry := Resv { rs_start : Z; rs_end : Z }.

(** [ZXFL_MEM_MAP_MAX + 5]. *)
Definition MAX_RESERVATIONS : Z := 21.

(** ** Sorting and merging reservations *)

(** The inner [while] of the insertion sort: the sorted prefix is scanned from its
    last element, kept here in reverse. *)
Fixpoint insert_rev (key : resv_entry) (rev_prefix : list resv_entry) : list resv_entry :=
  match rev_prefix with
  | [] => [key]
  | x :: r => if rs_start key <? rs_start x then x :: insert_rev key r else key :: x :: r
  end.

Definition insertion_sort (l : list resv_entry) : list resv_entry :=
  rev (fold_left (fun acc key => insert_rev key acc) l []).

(** The compaction loop; the output written so far is kept in reverse. *)
Definition merge_one (out : list resv_entry) (e : resv_entry) : list resv_entry :=
  match out with
  | p :: out' =>
      if rs_start e <=? rs_end p then Resv (rs_start p) (Z.max (rs_end p) (rs_end e)) :: out'
      else e :: out
  | [] => [e]
  end.

Definition sort_merge_reservations (l : list resv_entry) : list resv_entry :=
  rev (fold_left merge_one (insertion_sort l) []).

Definition align_resv (r : resv_entry) : resv_entry :=
  Resv (Z.land (rs_start r) (U64_MAX - (PAGE_SIZE - 1)))
       (Z.land (u64 (rs_end r + PAGE_SIZE - 1)) (U64_MAX - (PAGE_SIZE - 1))).

Fixpoint resv_skip_end (phys : Z) (resv : list resv_entry) : Z :=
  match resv with
  | [] => 0
  | e :: resv' =>
      if phys <? rs_start e then 0
      else if phys <? rs_end e then rs_end e
      else resv_skip_end phys resv'
  end.

Definition next_resv_start (phys limit : Z) (resv : list resv_entry) : Z :=
  fold_left (fun nearest e =>
    if (phys <? rs_start e) && (rs_start e <? nearest) then rs_start e else nearest) resv limit.

(** ** Carving a run into blocks *)

(** [while (ord > 0) { if (aligned && fits) break; --ord; }], from [ord]. *)
Fixpoint pick_order (run zone_end : Z) (ord : nat) : Z :=
  match ord with
  | O => 0
  | S o' =>
      let size := block_size (Z.of_nat ord) in
      if (Z.land run (size - 1) =? 0) && (u64 (run + size) <=? zone_end) then Z.of_nat ord
      else pick_order run zone_end o'
  end.

Definition zone_end_of (run run_end : Z) : Z :=
  match zone_of run with dma31 => Z.min run_end ZONE_DMA_LIMIT | normal => run_end end.

(** The blocks of [run, run_end), with the fuel of the loop. *)
Fixpoint carve_run (run run_end : Z) (n : nat) : list (Z * Z) :=
  match n with
  | O => []
  | S n' =>
      if run_end <=? run then []
      else
        let ord := pick_order run (zone_end_of run run_end) (Z.to_nat MAX_ORDER) in
        (run, ord) :: carve_run (u64 (run + block_size ord)) run_end n'
  end.

(** What [init] does with a region: reserve a page range or add free blocks. *)
Inductive boot_step :=
  | bs_reserved (lo hi : Z)
  | bs_run (blocks : list (Z * Z)).

Definition page_fuel (lo hi : Z) : nat := Z.to_nat ((hi - lo) / PAGE_SIZE + 1).

Fixpoint carve_region (cur region_end : Z) (resv : list resv_entry) (n : nat) : list boot_step :=
  match n with
  | O => []
  | S n' =>
      if region_end <=? cur then []
      else
        let skip_to := resv_skip_end cur resv in
        if negb (skip_to =? 0) then
          let resv_end := Z.min skip_to region_end in
          bs_reserved cur resv_end :: carve_region resv_end region_end resv n'
        else
          let run_end := next_resv_start cur region_end resv in
          bs_run (carve_run cur run_end (page_fuel cur run_end))
            :: carve_region run_end region_end resv n'
  end.

(** The free blocks of a region, in the order [init] pushes them. *)
Definition step_blocks (st : boot_step) : list (Z * Z) :=
  match st with bs_reserved _ _ => [] | bs_run l => l end.
Definition free_blocks (cur region_end : Z) (resv : list resv_entry) : list (Z * Z) :=
  concat (map step_blocks (carve_region cur region_end resv (page_fuel cur region_end))).

(** ** [init] *)

Record boot_protocol := BootProtocol {
  mem_map_count : Z;
  mem_map : option (list mem_region);
  kernel_phys_start : Z;
  kernel_phys_end : Z;
  pgtbl_pool_end : Z;
  lowcore_phys : Z
}.

Definition nth_region (map : list mem_region) (i : Z) : mem_region :=
  nthZ (MemRegion 0 0 0 0) map i.

(** The first loop: [g_max_pfn], or a fatal stop on a range that overflows. *)
Fixpoint scan_max_pfn (map : list mem_region) (max : Z) : option Z :=
  match map with
  | [] => Some max
  | r :: map' =>
      if negb (mr_length r =? 0) && (U64_MAX - mr_length r <? mr_base r) then None
      else
        let region_end := u64 (mr_base r + mr_length r) in
        let pfn_end := Z.shiftr (u64 (region_end + PAGE_SIZE - 1)) PAGE_SHIFT in
        scan_max_pfn map' (if max <? pfn_end then pfn_end else max)
  end.

(** [push_resv]: the staging vector is bounded. *)
Definition push_resv (e : resv_entry) (resv : list resv_entry) : option (list resv_entry) :=
  if Z.of_nat (length resv) <? MAX_RESERVATIONS then Some (resv ++ [align_resv e]) else None.

Fixpoint push_map_resv (map : list mem_region) (resv : list resv_entry) : option (list resv_entry) :=
  match map with
  | [] => Some resv
  | r :: map' =>
      if (mr_type r =? ZXFL_MEM_RESERVED) || (mr_type r =? ZXFL_MEM_LOADER) then
        resv ← push_resv (Resv (mr_base r) (u64 (mr_base r + mr_length r))) resv;
        push_map_resv map' resv
      else push_map_resv map' resv
  end.

(** The reservations before the frame table is placed; [bss_phys] is the linked
    end of the kernel image. *)
Definition stage_reservations (proto : boot_protocol) (map : list mem_region) (bss_phys : Z)
    : option (list resv_entry) :=
  resv ← push_resv (Resv 0 (Z.shiftl 1 20)) [];
  resv ← push_resv (Resv (Z.shiftl 1 20) (Z.shiftl 2 20)) resv;
  resv ← push_resv (Resv (kernel_phys_start proto)
    (Z.max (Z.max (kernel_phys_end proto) bss_phys) (pgtbl_pool_end proto))) resv;
  resv ← (if kernel_phys_end proto <? pgtbl_pool_end proto
          then push_resv (Resv (kernel_phys_end proto) (pgtbl_pool_end proto)) resv
          else Some resv);
  resv ← push_map_resv map (sort_merge_reservations resv);
  Some (sort_merge_reservations resv).

(** [sizeof(frame_desc)]. *)
Definition FRAME_DESC_SIZE : Z := 16.

Definition page_round_up (v : Z) : Z :=
  Z.land (u64 (v + PAGE_SIZE - 1)) (U64_MAX - (PAGE_SIZE - 1)).

(** Where the frame table goes: start and length in pages. *)
Definition place_frame_table (m : machine) (max_pfn : Z) (resv : list resv_entry)
    : option (Z * Z) :=
  let table_bytes := u64 (max_pfn * FRAME_DESC_SIZE) in
  let table_pages := Z.shiftr (u64 (table_bytes + PAGE_SIZE - 1)) PAGE_SHIFT in
  let table_phys := page_round_up
    (fold_left (fun acc e => if acc <? rs_end e then rs_end e else acc) resv 0) in
  let table_end := u64 (table_phys + u64 (Z.shiftl table_pages PAGE_SHIFT)) in
  if (table_end <? table_phys) || (u64 (Z.shiftl max_pfn PAGE_SHIFT) <? table_end)
     || negb (phys_range_is_mapped m table_phys (u64 (Z.shiftl table_pages PAGE_SHIFT)))
  then None else Some (table_phys, table_pages).

Definition boot_region_node_id (m : machine) (r : mem_region) (phys : Z) : Z :=
  if node_id_is_valid (mr_numa_node r) then mr_numa_node r
  else match node_for_phys (topo m) phys with
       | Expected n => normalize_node_id n
       | Unexpected _ => NUMA_NODE_BOOT
       end.

(** [free_pages[zi] += n; total_pages[zi] += n]. *)
Definition add_pages (s : pmm) (node : Z) (z : zone) (n : Z) : pmm :=
  let v := nz s node z in
  with_nz s node z (NodeZone (nz_buddy v) (u64 (free_pages v + n)) (u64 (total_pages v + n))).

Definition add_block (m : machine) (r : mem_region) (b : Z * Z) : machine :=
  let '(run, ord) := b in
  let z := zone_of run in
  let node := boot_region_node_id m r run in
  let s := push (ph m) node z ord run in
  let s := set_desc s run (desc_set ord fo_buddy node ff_none) in
  with_ph m (add_pages s node z (Z.shiftl 1 ord)).

Definition reserve_pages (m : machine) (lo hi : Z) : machine :=
  with_ph m (for_up (fun i s => set_desc s (lo + i * PAGE_SIZE) (desc_set 0 fo_reserved 0 ff_none))
    0 (Z.to_nat ((hi - lo + PAGE_SIZE - 1) / PAGE_SIZE)) (ph m)).

Definition run_step (r : mem_region) (m : machine) (st : boot_step) : machine :=
  match st with
  | bs_reserved lo hi => reserve_pages m lo hi
  | bs_run blocks => fold_left (fun m b => add_block m r b) blocks m
  end.

Definition add_region (resv : list resv_entry) (m : machine) (r : mem_region) : machine :=
  if negb (mr_type r =? ZXFL_MEM_USABLE) then m
  else
    let region_start := page_round_up (mr_base r) in
    let region_end := Z.land (u64 (mr_base r + mr_length r)) (U64_MAX - (PAGE_SIZE - 1)) in
    if region_end <=? region_start then m
    else fold_left (run_step r)
           (carve_region region_start region_end resv (page_fuel region_start region_end)) m.

(** ** [reserve] *)

(** [while (ret_ord + 1 <= ord)]: the largest order that fits at [ret]. *)
Fixpoint grow_order (ret limit ret_ord : Z) (n : nat) : Z :=
  match n with
  | O => ret_ord
  | S n' =>
      let ns := block_size (ret_ord + 1) in
      if (Z.land ret (ns - 1) =? 0) && (u64 (ret + ns) <=? limit)
      then grow_order ret limit (ret_ord + 1) n' else ret_ord
  end.

(** Give back [[ret, limit)], a part of a block of order [ord]. *)
Fixpoint give_back (s : pmm) (node : Z) (z : zone) (ord ret limit : Z) (n : nat) : pmm :=
  match n with
  | O => s
  | S n' =>
      if limit <=? ret then s
      else
        let ret_ord := grow_order ret limit 0 (Z.to_nat ord) in
        let s := push s node z ret_ord ret in
        let s := set_desc s ret (desc_set ret_ord fo_buddy node ff_none) in
        let s := add_pages s node z (Z.shiftl 1 ret_ord) in
        give_back s node z ord (u64 (ret + block_size ret_ord)) limit n'
  end.

(** The walk of one free list; [n] bounds its length. *)
Fixpoint reserve_walk (s : pmm) (node : Z) (z : zone) (ord phys end_ cur : Z) (n : nat) : pmm :=
  match n with
  | O => s
  | S n' =>
      if cur =? 0 then s
      else
        let nxt := (Dlist.node_at (nodes s) cur).1 in
        let blk_end := u64 (cur + block_size ord) in
        let s :=
          if (cur <? end_) && (phys <? blk_end) then
            let s := remove s node z ord cur in
            let s := add_pages s node z (- Z.shiftl 1 ord) in
            let s := set_desc s cur (desc_set ord fo_reserved node ff_none) in
            let s := if cur <? phys then give_back s node z ord cur phys (page_fuel cur phys) else s in
            if end_ <? blk_end then give_back s node z ord end_ blk_end (page_fuel end_ blk_end) else s
          else s in
        reserve_walk s node z ord phys end_ nxt n'
  end.

Definition reserve (m : machine) (phys order : Z) : machine :=
  let z := zone_of phys in
  let end_ := u64 (phys + block_size order) in
  for_up (fun node m =>
    if total_pages (nz (ph m) node z) =? 0 then m
    else
      let overlaps :=
        match Numa.node_at (topo m) node with
        | Expected n => negb ((nt_phys_end n <=? phys) || (end_ <=? nt_phys_start n))
        | Unexpected _ => true
        end in
      if negb overlaps then m
      else
        with_ph m (for_up (fun ord s =>
          reserve_walk s node z ord phys end_ (nthZ 0 (heads (nz_buddy (nz s node z))) ord)
            (Z.to_nat (max_pfn s))) 0 (Z.to_nat (MAX_ORDER + 1)) (ph m)))
    0 (Z.to_nat MAX_NUMA_NODES) m.

(** [init]; [initialized] is the latch [g_initialized], set by the first call. *)
Definition pmm_init (initialized : bool) (m : machine) (proto : boot_protocol) (bss_phys : Z)
    : option machine :=
  if initialized then Some m
  else if (ZXFL_MEM_MAP_MAX <? mem_map_count proto)
     || (negb (mem_map_count proto =? 0) && bool_decide (mem_map proto = None)) then None
  else
    let map := take (Z.to_nat (mem_map_count proto)) (default [] (mem_map proto)) in
    max ← scan_max_pfn map (max_pfn (ph m));
    resv ← stage_reservations proto map bss_phys;
    '(table_phys, table_pages) ← place_frame_table m max resv;
    let s := Pmm (nodes (ph m)) true ∅ max (node_zones (ph m)) (retired_pages (ph m)) in
    resv ← push_resv (Resv table_phys (u64 (table_phys + u64 (Z.shiftl table_pages PAGE_SHIFT)))) resv;
    let resv := sort_merge_reservations resv in
    let m := fold_left (add_region resv) map (with_ph m s) in
    Some (reserve m (lowcore_phys proto) 1).

(** ** What the reservations cover *)

Definition resv_ok (e : resv_entry) : Prop := 0 <= rs_start e <= rs_end e.

Definition within (e : resv_entry) (p : Z) : Prop := rs_start e <= p < rs_end e.
Definition covered (l : list resv_entry) (p : Z) : Prop := exists e, e ∈ l /\ within e p.

(** Sorted with a gap between consecutive entries. *)
Fixpoint gapped (l : list resv_entry) : Prop :=
  match l with
  | [] => True
  | e :: l' => match l' with [] => True | e' :: _ => rs_end e < rs_start e' end /\ gapped l'
  end.

Lemma covered_nil p : ~ covered [] p.
Proof. intros (e & He & _). by apply not_elem_of_nil in He. Qed.

Lemma covered_cons e l p : covered (e :: l) p <-> within e p \/ covered l p.
Proof.
  unfold covered. split.
  - intros (x & Hx & Hw). apply elem_of_cons in Hx as [->|Hx]; [by left|right; by exists x].
  - intros [Hw|(x & Hx & Hw)]; [exists e|exists x]; (split; [|done]); [left|by right].
Qed.

Lemma covered_perm l l' p : Permutation l l' -> covered l p <-> covered l' p.
Proof. intros Hp. unfold covered. by setoid_rewrite Hp. Qed.

Lemma insert_rev_perm k l : Permutation (insert_rev k l) (k :: l).
Proof.
  induction l as [|x l IH]; cbn [insert_rev]; [done|].
  destruct (_ <? _); [|done]. rewrite IH. apply Permutation_swap.
Qed.

(** The reversed prefix descends by start. *)
Definition descending (l : list resv_entry) : Prop :=
  StronglySorted (fun a b => rs_start b <= rs_start a) l.

Lemma insert_rev_sorted k l : descending l -> descending (insert_rev k l).
Proof.
  unfold descending. induction l as [|x l IH]; intros Hs; cbn [insert_rev].
  { repeat constructor. }
  apply StronglySorted_inv in Hs as [Hs Hf].
  destruct (Z.ltb_spec (rs_start k) (rs_start x)).
  - constructor; [by apply IH|]. rewrite insert_rev_perm. constructor; [lia|done].
  - constructor; [by constructor|]. constructor; [lia|].
    eapply list.Forall_impl; [exact Hf|]. simpl. lia.
Qed.

Lemma insertion_sort_fold l acc :
  descending acc ->
  descending (fold_left (fun acc k => insert_rev k acc) l acc) /\
  Permutation (fold_left (fun acc k => insert_rev k acc) l acc) (l ++ acc).
Proof.
  revert acc. induction l as [|k l IH]; intros acc Hd; cbn [fold_left]; [done|].
  destruct (IH (insert_rev k acc) (insert_rev_sorted k acc Hd)) as [H1 H2]. split; [done|].
  rewrite H2, insert_rev_perm. simpl. by rewrite Permutation_middle.
Qed.

(** The entry at the head of the reversed output starts no later than the rest. *)
Fixpoint gapped_rev (out : list resv_entry) : Prop :=
  match out with
  | [] => True
  | e :: out' => match out' with [] => True | p :: _ => rs_end p < rs_start e end /\ gapped_rev out'
  end.

Definition ascending_from (out : list resv_entry) (l : list resv_entry) : Prop :=
  StronglySorted (fun a b => rs_start a <= rs_start b) l /\
  match out with [] => True | p :: _ => Forall (fun e => rs_start p <= rs_start e) l end.

Lemma merge_one_step out e l :
  Forall resv_ok out -> resv_ok e -> gapped_rev out -> ascending_from out (e :: l) ->
  Forall resv_ok (merge_one out e) /\ gapped_rev (merge_one out e) /\
  ascending_from (merge_one out e) l /\
  (forall p, covered (merge_one out e) p <-> covered out p \/ within e p) /\
  (length (merge_one out e) <= S (length out))%nat.
Proof.
  intros Hok He Hg [Hs Ha]. apply StronglySorted_inv in Hs as [Hs Hf].
  destruct out as [|p out]; cbn [merge_one].
  { split; [constructor; [done|constructor]|]. split; [done|]. split; [done|].
    split; [|simpl; lia]. intros q. rewrite covered_cons. split; [intros [?|?%covered_nil]; [by right|done]|].
    intros [?%covered_nil|?]; [done|by left]. }
  apply list.Forall_cons in Hok as [Hp Hok]. apply list.Forall_cons in Ha as [Hpe Ha].
  unfold resv_ok in *. destruct (Z.leb_spec (rs_start e) (rs_end p)) as [Hle|Hgt].
  - split; [constructor; [simpl; lia|done]|]. split; [exact Hg|]. split; [done|].
    split; [|simpl; lia]. intros q. rewrite !covered_cons. unfold within. simpl. split.
      * intros [Hq|Hq]; [|auto]. destruct (decide (q < rs_end p)); [left; left; lia|right; lia].
      * intros [[Hq|Hq]|Hq]; [left; lia|by right|left; lia].
  - split; [constructor; [done|by constructor]|]. split; [done|]. split; [done|].
    split; [|simpl; lia]. intros q. rewrite !covered_cons. tauto.
Qed.

Lemma merge_fold l out :
  Forall resv_ok out -> Forall resv_ok l -> gapped_rev out -> ascending_from out l ->
  let r := fold_left merge_one l out in
  Forall resv_ok r /\ gapped_rev r /\
  (forall p, covered r p <-> covered out p \/ covered l p) /\
  (length r <= length l + length out)%nat.
Proof.
  revert out. induction l as [|e l IH]; intros out Hok Hl Hg Ha; cbn [fold_left].
  { split_and!; [done|done| |simpl; lia]. intros p. pose proof (covered_nil p). tauto. }
  apply list.Forall_cons in Hl as [He Hl].
  destruct (merge_one_step out e l Hok He Hg Ha) as (H1 & H2 & H3 & H4 & H5).
  destruct (IH (merge_one out e) H1 Hl H2 H3) as (I1 & I2 & I3 & I4).
  split_and!; [done|done| |simpl; lia].
  intros p. rewrite I3, H4, covered_cons. tauto.
Qed.

Lemma gapped_snoc l p e :
  gapped (l ++ [p]) -> rs_end p < rs_start e -> gapped (l ++ [p; e]).
Proof.
  induction l as [|x l IH]; simpl; [done|]. intros [H1 H2] Hpe. split; [|by apply IH].
  destruct l; done.
Qed.

Lemma gapped_rev_spec out : gapped_rev out -> gapped (rev out).
Proof.
  induction out as [|e out IH]; [done|]. intros [H1 H2]. specialize (IH H2). simpl.
  destruct out as [|p out]; [done|]. simpl in *. rewrite <- app_assoc. simpl.
  by apply gapped_snoc.
Qed.

(** Boot reservations are normalised exactly: the result is in increasing order
    with a gap between neighbours, covers precisely the addresses the input
    entries cover, and needs no more entries than the input. *)
Theorem sort_merge_exact l :
  Forall resv_ok l ->
  let r := sort_merge_reservations l in
  gapped r /\ Forall resv_ok r /\ (forall p, covered r p <-> covered l p) /\
  (length r <= length l)%nat.
Proof.
  intros Hl. unfold sort_merge_reservations, insertion_sort.
  destruct (insertion_sort_fold l [] ltac:(constructor)) as [Hd Hp].
  rewrite app_nil_r in Hp. set (d := fold_left _ l []) in *.
  assert (Hp' : Permutation (rev d) l) by (by rewrite <- Permutation_rev).
  destruct (merge_fold (rev d) []) as (H1 & H2 & H3 & H4).
  - constructor.
  - by rewrite Hp'.
  - done.
  - split; [|done]. unfold descending in Hd. clear -Hd. induction d as [|x d IH]; simpl; [constructor|].
    apply StronglySorted_inv in Hd as [Hd Hf]. apply StronglySorted_app_2; [|by apply IH|by repeat constructor].
    intros a b Ha Hb. apply list_elem_of_singleton in Hb as ->.
    rewrite <- Permutation_rev in Ha. by apply (proj1 (list.Forall_forall _ _) Hf).
  - split_and!.
    + by apply gapped_rev_spec.
    + by rewrite <- Permutation_rev.
    + intros p. rewrite <- (covered_perm _ _ p (Permutation_rev _)), H3, (covered_perm _ _ p Hp').
      pose proof (covered_nil p). tauto.
    + rewrite length_rev. apply Permutation_length in Hp'. simpl in H4. lia.
Qed.

Definition demo_resv : list resv_entry := [Resv 20480 28672; Resv 0 8192; Resv 8192 12288; Resv 4096 6000].

Lemma sort_merge_exact_witness :
  sort_merge_reservations demo_resv = [Resv 0 12288; Resv 20480 28672] /\
  (covered (sort_merge_reservations demo_resv) 9000 <-> covered demo_resv 9000).
Proof.
  destruct (sort_merge_exact demo_resv) as (_ & _ & H & _).
  - repeat constructor; simpl; lia.
  - split; [vm_compute; reflexivity|]. apply H.
Defined.

(** ** Finding the next run *)

Lemma gapped_later e l x :
  gapped (e :: l) -> Forall resv_ok (e :: l) -> x ∈ l -> rs_end e < rs_start x.
Proof.
  revert e. induction l as [|y l IH]; intros e [Hg Hg'] Hok Hx; [by apply not_elem_of_nil in Hx|].
  apply list.Forall_cons in Hok as [He Hok]. apply elem_of_cons in Hx as [->|Hx]; [done|].
  pose proof (IH y Hg' Hok Hx) as H. apply list.Forall_cons in Hok as [Hy _]. unfold resv_ok in *. lia.
Qed.

Lemma resv_skip_end_spec l p :
  gapped l -> Forall resv_ok l -> 0 <= p ->
  let e := resv_skip_end p l in
  (e = 0 -> ~ covered l p) /\
  (e <> 0 -> p < e /\ (exists x, x ∈ l /\ rs_end x = e) /\ forall q, p <= q < e -> covered l q).
Proof.
  induction l as [|x l IH]; intros Hg Hok Hp; cbn [resv_skip_end].
  { split; [intros _; apply covered_nil|done]. }
  pose proof Hok as Hok'. apply list.Forall_cons in Hok as [Hx Hok]. unfold resv_ok in Hx.
  assert (Hlater : forall y, y ∈ l -> rs_end x < rs_start y) by (intros y Hy; by eapply gapped_later).
  destruct (Z.ltb_spec p (rs_start x)).
  { split; [|done]. intros _ (y & Hy & Hw). apply elem_of_cons in Hy as [->|Hy]; unfold within in Hw; [lia|].
    specialize (Hlater y Hy). lia. }
  destruct (Z.ltb_spec p (rs_end x)).
  { split; [lia|]. intros _. split; [done|]. split; [exists x; split; [left|done]|].
    intros q Hq. exists x. split; [left|unfold within; lia]. }
  destruct (IH (proj2 Hg) Hok Hp) as [I1 I2]. split.
  - intros He. rewrite covered_cons. unfold within. intros [?|Hc]; [lia|by apply I1].
  - intros He. destruct (I2 He) as (H1 & (y & Hy & Ey) & H3). split; [done|]. split; [exists y; split; [by right|done]|].
    intros q Hq. rewrite covered_cons. right. auto.
Qed.

Lemma next_resv_start_spec l p lim :
  let r := next_resv_start p lim l in
  r <= lim /\ (p < lim -> p < r) /\ (r = lim \/ exists x, x ∈ l /\ rs_start x = r) /\
  (forall x, x ∈ l -> ~ (p < rs_start x < r)).
Proof.
  unfold next_resv_start. revert lim. induction l as [|e l IH]; intros lim; cbn [fold_left].
  { split_and!; [lia|done|by left|]. intros x Hx. by apply not_elem_of_nil in Hx. }
  set (lim' := if (p <? rs_start e) && (rs_start e <? lim) then rs_start e else lim).
  destruct (IH lim') as (H1 & H2 & H3 & H4).
  assert (Hl : lim' <= lim /\ (p < lim -> p < lim') /\ ~ (p < rs_start e < lim') /\
    (lim' = lim \/ lim' = rs_start e)).
  { unfold lim'. destruct (Z.ltb_spec p (rs_start e)); cbn [andb]; [|split_and!; (lia || auto)].
    destruct (Z.ltb_spec (rs_start e) lim); split_and!; (lia || auto). }
  destruct Hl as (L1 & L2 & L3 & L4). split_and!.
  - lia.
  - auto.
  - destruct H3 as [->|(x & Hx & Ex)]; [|right; exists x; split; [by right|done]].
    destruct L4 as [->|L4]; [by left|right; exists e; split; [left|done]].
  - intros x Hx. apply elem_of_cons in Hx as [->|Hx]; [lia|by apply H4].
Qed.

Lemma next_run_uncovered l p lim q :
  ~ covered l p -> p <= q < next_resv_start p lim l -> ~ covered l q.
Proof.
  intros Hn Hq (x & Hx & Hw). unfold within in Hw.
  destruct (next_resv_start_spec l p lim) as (_ & _ & _ & H4). specialize (H4 x Hx).
  apply Hn. exists x. split; [done|]. unfold within. lia.
Qed.

(** ** Tilings *)

Definition in_block (bs : list (Z * Z)) (x : Z) : Prop :=
  exists p o, (p, o) ∈ bs /\ p <= x < p + block_size o.

(** A block the allocator can hold. *)
Definition good_block (p o : Z) : Prop :=
  order_ok o /\ (block_size o | p) /\ zone_of (p + block_size o - 1) = zone_of p.

(** [bs] lists, in increasing order, good blocks inside [[lo, hi)] that make up
    exactly the addresses of [[lo, hi)] satisfying [S]. *)
Definition fills (lo hi : Z) (S : Z -> Prop) (bs : list (Z * Z)) : Prop :=
  Forall (fun b => good_block b.1 b.2 /\ lo <= b.1 /\ b.1 + block_size b.2 <= hi) bs /\
  StronglySorted (fun a b => a.1 + block_size a.2 <= b.1) bs /\
  (forall x, lo <= x < hi -> in_block bs x <-> S x).

Lemma in_block_app l1 l2 x : in_block (l1 ++ l2) x <-> in_block l1 x \/ in_block l2 x.
Proof.
  unfold in_block. setoid_rewrite elem_of_app. split.
  - intros (p & o & [H|H] & Hx); [left|right]; by exists p, o.
  - intros [(p & o & H & Hx)|(p & o & H & Hx)]; exists p, o; auto.
Qed.

Lemma in_block_range lo hi S bs x : fills lo hi S bs -> in_block bs x -> lo <= x < hi.
Proof.
  intros (Hf & _) (p & o & Hb & Hx). apply (proj1 (list.Forall_forall _ _) Hf) in Hb as (_ & Hlo & Hhi).
  simpl in *. lia.
Qed.

Lemma fills_app lo mid hi S b1 b2 :
  lo <= mid <= hi -> fills lo mid S b1 -> fills mid hi S b2 -> fills lo hi S (b1 ++ b2).
Proof.
  intros Hm F1 F2. pose proof F1 as (H1 & H2 & H3). pose proof F2 as (G1 & G2 & G3). split_and!.
  - apply Forall_app. split; (eapply list.Forall_impl; [eassumption|]); simpl; intros b (Hb & ? & ?);
      (split; [exact Hb|lia]).
  - apply StronglySorted_app_2; [|done|done]. intros a b Ha Hb.
    apply (proj1 (list.Forall_forall _ _) H1) in Ha. apply (proj1 (list.Forall_forall _ _) G1) in Hb.
    destruct Ha as (_ & _ & Ha), Hb as (_ & Hb & _). lia.
  - intros x Hx. rewrite in_block_app. destruct (decide (x < mid)).
    + rewrite <- H3 by lia. split; [|by left]. intros [?|Hb]; [done|].
      pose proof (in_block_range _ _ _ _ _ F2 Hb). lia.
    + rewrite <- G3 by lia. split; [|by right]. intros [Hb|?]; [|done].
      pose proof (in_block_range _ _ _ _ _ F1 Hb). lia.
Qed.

Lemma fills_nil lo hi S : (forall x, lo <= x < hi -> ~ S x) -> fills lo hi S [].
Proof.
  intros HS. split_and!; [constructor|constructor|]. intros x Hx.
  split; [|by intros ?%HS]. intros (p & o & Hb & _). by apply not_elem_of_nil in Hb.
Qed.

Lemma fills_single p o S :
  good_block p o -> (forall x, p <= x < p + block_size o -> S x) -> fills p (p + block_size o) S [(p, o)].
Proof.
  intros Hg HS. split_and!.
  - constructor; [|constructor]. simpl. split; [done|lia].
  - repeat constructor.
  - intros x Hx. split; [auto|]. intros _. exists p, o. split; [left|done].
Qed.

Lemma page_size_block o : 0 <= o -> (4096 | block_size o).
Proof. intros Ho. apply (block_size_divide 0 o). lia. Qed.

(** The order chosen at [run]. *)
Lemma pick_order_spec n run ze :
  (n <= 10)%nat -> 0 <= run -> (4096 | run) -> (4096 | ze) -> run < ze -> ze <= 2 ^ 64 - 2 ^ 22 ->
  let o := pick_order run ze n in
  0 <= o <= Z.of_nat n /\ (block_size o | run) /\ run + block_size o <= ze.
Proof.
  intros Hn Hr Hd Hdz Hlt Hmax. induction n as [|n IH]; cbn [pick_order].
  { split; [lia|]. split; [exact Hd|]. by apply multiple_gap. }
  destruct ((Z.land run (block_size (Z.of_nat (S n)) - 1) =? 0) &&
    (u64 (run + block_size (Z.of_nat (S n))) <=? ze)) eqn:E.
  - apply andb_true_iff in E as [E1 E2]. apply Z.eqb_eq in E1. apply Z.leb_le in E2.
    assert (Hbs : block_size (Z.of_nat (S n)) = 2 ^ (12 + Z.of_nat (S n))) by (apply block_size_pow; lia).
    split; [lia|]. split.
    + rewrite Hbs in E1 |- *. rewrite Z.sub_1_r, <- Z.ones_equiv, land_ones_mod in E1 by lia.
      by apply Z.mod_divide; [apply Z.pow_nonzero; lia|].
    + assert (block_size (Z.of_nat (S n)) <= 2 ^ 22)
        by (rewrite Hbs; apply Z.pow_le_mono_r; lia).
      pose proof (block_size_pos (Z.of_nat (S n)) ltac:(lia)).
      rewrite u64_small in E2 by (unfold fits; lia). done.
  - destruct (IH ltac:(lia)) as (H1 & H2 & H3). split; [lia|done].
Qed.

Lemma zone_end_spec run re :
  0 <= run < re -> (4096 | run) -> (4096 | re) ->
  (4096 | zone_end_of run re) /\ run < zone_end_of run re <= re /\
  forall p, run <= p <= zone_end_of run re - 1 -> zone_of p = zone_of run.
Proof.
  intros Hr Hd Hde. unfold zone_end_of, zone_of.
  assert (HL : (4096 | ZONE_DMA_LIMIT)) by (exists (2 ^ 19); reflexivity).
  destruct (Z.ltb_spec run ZONE_DMA_LIMIT) as [Hlt|Hge].
  - split; [destruct (Z.min_spec re ZONE_DMA_LIMIT) as [[_ ->]|[_ ->]]; done|]. split; [lia|].
    intros p Hp. by rewrite (proj2 (Z.ltb_lt _ _)) by lia.
  - split; [done|]. split; [lia|]. intros p Hp. by rewrite (proj2 (Z.ltb_ge _ _)) by lia.
Qed.

Lemma carve_run_fills n run re (S : Z -> Prop) :
  0 <= run <= re -> (4096 | run) -> (4096 | re) -> re <= 2 ^ 64 - 2 ^ 22 ->
  re - run < 4096 * Z.of_nat n -> (forall x, run <= x < re -> S x) ->
  fills run re S (carve_run run re n).
Proof.
  revert run. induction n as [|n IH]; intros run Hr Hd Hde Hmax Hn HS; [lia|]. cbn [carve_run].
  destruct (Z.leb_spec re run) as [Hle|Hlt].
  { apply fills_nil. intros; lia. }
  destruct (zone_end_spec run re ltac:(lia) Hd Hde) as (Hz1 & Hz2 & Hz3).
  destruct (pick_order_spec (Z.to_nat MAX_ORDER) run (zone_end_of run re))
    as (Ho & Hal & Hfit); try done; try lia.
  set (o := pick_order run (zone_end_of run re) (Z.to_nat MAX_ORDER)) in *.
  change (Z.of_nat (Z.to_nat MAX_ORDER)) with MAX_ORDER in Ho.
  pose proof (block_size_pos o ltac:(lia)) as Hsz.
  rewrite u64_small by (unfold fits; lia).
  change ((run, o) :: ?l) with ([(run, o)] ++ l).
  apply (fills_app run (run + block_size o) re); [lia| |].
  - apply fills_single; [|intros; apply HS; lia]. split_and!; [done|done|]. apply Hz3. lia.
  - apply IH; [lia| |done|done|lia|intros; apply HS; lia].
    apply Z.divide_add_r; [done|apply page_size_block; lia].
Qed.

(** ** Carving a region *)

Definition resv_aligned (e : resv_entry) : Prop := (4096 | rs_start e) /\ (4096 | rs_end e).

Lemma carve_region_fills n cur re l :
  gapped l -> Forall resv_ok l -> Forall resv_aligned l ->
  0 <= cur <= re -> (4096 | cur) -> (4096 | re) -> re <= 2 ^ 64 - 2 ^ 22 ->
  re - cur < 4096 * Z.of_nat n ->
  fills cur re (fun x => ~ covered l x) (concat (map step_blocks (carve_region cur re l n))).
Proof.
  intros Hg Hok Hal. revert cur. induction n as [|n IH]; intros cur Hr Hd Hde Hmax Hn; [lia|].
  cbn [carve_region]. destruct (Z.leb_spec re cur) as [Hle|Hlt].
  { apply fills_nil. intros; lia. }
  destruct (resv_skip_end_spec l cur Hg Hok ltac:(lia)) as [Hs0 Hs1].
  destruct (Z.eqb_spec (resv_skip_end cur l) 0) as [E|E]; cbn [negb].
  - specialize (Hs0 E). destruct (next_resv_start_spec l cur re) as (H1 & H2 & H3 & _).
    set (r := next_resv_start cur re l) in *. specialize (H2 Hlt).
    assert (Hdr : (4096 | r)).
    { destruct H3 as [->|(x & Hx & <-)]; [done|].
      by apply (proj1 (list.Forall_forall _ _) Hal). }
    cbn [map step_blocks concat]. apply (fills_app cur r re); [lia| |].
    + apply carve_run_fills; [lia|done|done|lia| |].
      * unfold page_fuel. rewrite Z2Nat.id by (unfold PAGE_SIZE; lia). unfold PAGE_SIZE. lia.
      * intros x Hx. by apply (next_run_uncovered l cur re).
    + apply IH; [lia|done|done|done|].
      pose proof (multiple_gap 4096 cur r Hd Hdr H2). lia.
  - destruct (Hs1 E) as (H1 & (x & Hx & Ex) & H3). set (r := resv_skip_end cur l) in *.
    assert (Hdr : (4096 | Z.min r re)).
    { destruct (Z.min_spec r re) as [[_ ->]|[_ ->]]; [|done]. rewrite <- Ex.
      by apply (proj1 (list.Forall_forall _ _) Hal). }
    cbn [map step_blocks concat app]. change (concat (map ?f ?l)) with ([] ++ concat (map f l)).
    apply (fills_app cur (Z.min r re) re); [lia| |].
    + apply fills_nil. intros y Hy Hn'. apply Hn', H3. lia.
    + apply IH; [lia|done|done|done|].
      pose proof (multiple_gap 4096 cur (Z.min r re) Hd Hdr ltac:(lia)). lia.
Qed.

(** C23: Boot carving is exact: around any normalised page-aligned reservations, the
    blocks [init] takes from a usable region are naturally aligned, of legal
    order, inside one zone, listed in increasing disjoint order, and together they
    hold every byte of the region that no reservation covers and nothing else. *)
Theorem boot_carving_exact cur re l :
  gapped l -> Forall resv_ok l -> Forall resv_aligned l ->
  0 <= cur <= re -> (4096 | cur) -> (4096 | re) -> re <= 2 ^ 64 - 2 ^ 22 ->
  Forall (fun b => good_block b.1 b.2 /\ cur <= b.1 /\ b.1 + block_size b.2 <= re)
    (free_blocks cur re l) /\
  StronglySorted (fun a b => a.1 + block_size a.2 <= b.1) (free_blocks cur re l) /\
  (forall x, cur <= x < re -> in_block (free_blocks cur re l) x <-> ~ covered l x).
Proof.
  intros Hg Hok Hal Hr Hd Hde Hmax. apply carve_region_fills; try done.
  unfold page_fuel, PAGE_SIZE. rewrite Z2Nat.id by lia. lia.
Qed.

Lemma boot_carving_exact_witness :
  free_blocks 0 40960 (sort_merge_reservations demo_resv) = [(12288, 0); (16384, 0); (28672, 0); (32768, 1)] /\
  (in_block (free_blocks 0 40960 (sort_merge_reservations demo_resv)) 36000 <->
   ~ covered (sort_merge_reservations demo_resv) 36000).
Proof.
  destruct (boot_carving_exact 0 40960 (sort_merge_reservations demo_resv)) as (_ & _ & H).
  - vm_compute. repeat split.
  - vm_compute. repeat constructor; discriminate.
  - replace (sort_merge_reservations demo_resv) with [Resv 0 12288; Resv 20480 28672] by (vm_compute; reflexivity).
    constructor; [split; [exists 0|exists 3]; reflexivity|].
    constructor; [split; [exists 5|exists 7]; reflexivity|constructor].
  - lia.
  - exists 0. reflexivity.
  - exists 10. reflexivity.
  - vm_compute. discriminate.
  - split; [vm_compute; reflexivity|]. apply H. lia.
Defined.

(** ** The staging vector *)

Lemma push_resv_room e l :
  (length l < 21)%nat -> exists l', push_resv e l = Some l' /\ length l' = S (length l).
Proof.
  intros Hl. unfold push_resv, MAX_RESERVATIONS. rewrite (proj2 (Z.ltb_lt _ _)) by lia.
  eexists. split; [done|]. rewrite length_app. simpl. lia.
Qed.

Lemma merge_one_length out e : (length (merge_one out e) <= S (length out))%nat.
Proof. destruct out as [|p out]; simpl; [lia|]. destruct (_ <=? _); simpl; lia. Qed.

Lemma sort_merge_length l : (length (sort_merge_reservations l) <= length l)%nat.
Proof.
  unfold sort_merge_reservations, insertion_sort. rewrite length_rev.
  destruct (insertion_sort_fold l [] ltac:(constructor)) as [_ Hp].
  apply Permutation_length in Hp. rewrite app_nil_r in Hp.
  assert (Hm : forall k out, (length (fold_left merge_one k out) <= length k + length out)%nat).
  { induction k as [|e k IH]; intros out; simpl; [lia|].
    pose proof (IH (merge_one out e)). pose proof (merge_one_length out e). lia. }
  pose proof (Hm (rev (fold_left (fun acc k => insert_rev k acc) l [])) []) as H.
  rewrite length_rev in H. simpl in H. lia.
Qed.

Lemma push_map_resv_room map l :
  (length l + length map <= 21)%nat ->
  exists l', push_map_resv map l = Some l' /\ (length l' <= length l + length map)%nat.
Proof.
  revert l. induction map as [|r map IH]; intros l Hl; cbn [push_map_resv length] in *.
  { exists l. split; [done|lia]. }
  destruct (_ || _).
  - destruct (push_resv_room (Resv (mr_base r) (u64 (mr_base r + mr_length r))) l) as (l1 & E & Hl1); [lia|].
    rewrite E. cbn [mbind option_bind]. destruct (IH l1 ltac:(lia)) as (l' & E' & Hl').
    exists l'. split; [done|lia].
  - destruct (IH l ltac:(lia)) as (l' & E' & Hl'). exists l'. split; [done|lia].
Qed.

(** The staging vector is sized right: with a memory map of at most sixteen
    entries no reservation is ever refused, including the final one for the frame
    table, whatever the addresses. *)
Theorem reservations_never_overflow proto map bss :
  (length map <= 16)%nat ->
  exists l, stage_reservations proto map bss = Some l /\
    forall e, exists l', push_resv e l = Some l'.
Proof.
  intros Hm. unfold stage_reservations.
  destruct (push_resv_room (Resv 0 (Z.shiftl 1 20)) []) as (l1 & -> & H1); [simpl; lia|]. cbn [mbind option_bind].
  destruct (push_resv_room (Resv (Z.shiftl 1 20) (Z.shiftl 2 20)) l1) as (l2 & -> & H2); [simpl in *; lia|].
  cbn [mbind option_bind].
  destruct (push_resv_room (Resv (kernel_phys_start proto)
    (Z.max (Z.max (kernel_phys_end proto) bss) (pgtbl_pool_end proto))) l2) as (l3 & -> & H3); [simpl in *; lia|].
  cbn [mbind option_bind].
  assert (Hk : exists l4, (if kernel_phys_end proto <? pgtbl_pool_end proto
    then push_resv (Resv (kernel_phys_end proto) (pgtbl_pool_end proto)) l3 else Some l3) = Some l4 /\
    (length l4 <= 4)%nat).
  { simpl in *. destruct (_ <? _); [|exists l3; split; [done|lia]].
    destruct (push_resv_room (Resv (kernel_phys_end proto) (pgtbl_pool_end proto)) l3) as (l4 & -> & H4); [lia|].
    exists l4. split; [done|lia]. }
  destruct Hk as (l4 & -> & H4). cbn [mbind option_bind].
  pose proof (sort_merge_length l4) as Hsm.
  destruct (push_map_resv_room map (sort_merge_reservations l4) ltac:(lia)) as (l5 & -> & H5).
  cbn [mbind option_bind]. eexists. split; [done|]. intros e.
  pose proof (sort_merge_length l5) as Hs5.
  destruct (push_resv_room e (sort_merge_reservations l5)) as (l' & E & _); [lia|]. by exists l'.
Qed.

Lemma reservations_never_overflow_witness :
  exists l, stage_reservations (BootProtocol 16 None 65536 131072 262144 0)
    (replicate 16 (MemRegion 4096 4096 ZXFL_MEM_RESERVED 0)) 0 = Some l /\ length l = 1%nat.
Proof.
  destruct (reservations_never_overflow (BootProtocol 16 None 65536 131072 262144 0)
    (replicate 16 (MemRegion 4096 4096 ZXFL_MEM_RESERVED 0)) 0 ltac:(simpl; lia)) as (l & E & _).
  exists l. split; [exact E|]. vm_compute in E. injection E as <-. reflexivity.
Defined.
