(* ===== verification/Prog.v ===== *)
(** * Programs over an unmodelled environment

    Code that drives other subsystems is a program: a tree whose nodes are calls
    and whose branches are the answers the environment may give.  Nothing is
    assumed of the answers.  [run p t a]: under some environment the program [p]
    makes exactly the calls of the trace [t], with those answers, and returns [a].
    [wlp p Q]: [Q] holds of the result and trace of every run. *)

From S2P Require Import Prelude.

Inductive prog (E : Type -> Type) (A : Type) : Type :=
  | Ret (a : A)
  | Do {R : Type} (c : E R) (k : R -> prog E A).
Arguments Ret {E A} a.
Arguments Do {E A R} c k.

#[global] Instance prog_ret {E} : MRet (prog E) := fun A a => Ret a.

Fixpoint prog_bind {E A B} (f : A -> prog E B) (p : prog E A) : prog E B :=
  match p with
  | Ret a => f a
  | Do c k => Do c (fun r => prog_bind f (k r))
  end.

#[global] Instance prog_mbind {E} : MBind (prog E) := fun A B f p => prog_bind f p.

(** A single call. *)
Definition call_ {E R} (c : E R) : prog E R := Do c Ret.

(** A call with the answer it got. *)
Inductive event (E : Type -> Type) : Type :=
  | Ev {R : Type} (c : E R) (r : R).
Arguments Ev {E R} c r.

Inductive run {E A} : prog E A -> list (event E) -> A -> Prop :=
  | run_ret a : run (Ret a) [] a
  | run_do R (c : E R) k r t a : run (k r) t a -> run (Do c k) (Ev c r :: t) a.

Fixpoint wlp {E A} (p : prog E A) (Q : list (event E) -> A -> Prop) : Prop :=
  match p with
  | Ret a => Q [] a
  | Do c k => forall r, wlp (k r) (fun t a => Q (Ev c r :: t) a)
  end.

Lemma wlp_mono {E A} (p : prog E A) (Q Q' : list (event E) -> A -> Prop) :
  (forall t a, Q t a -> Q' t a) -> wlp p Q -> wlp p Q'.
Proof.
  revert Q Q'. induction p as [a|R c k IH]; intros Q Q' HQ; simpl; [apply HQ|].
  intros Hw r. eapply IH; [|apply Hw]. intros t a. apply HQ.
Qed.

Lemma wlp_bind {E A B} (p : prog E A) (f : A -> prog E B) Q :
  wlp p (fun t a => wlp (f a) (fun t' b => Q (t ++ t') b)) -> wlp (p ≫= f) Q.
Proof.
  unfold mbind, prog_mbind. revert Q. induction p as [a|R c k IH]; intros Q; simpl; [done|].
  intros Hw r. apply IH. exact (Hw r).
Qed.

(** [wlp] is about all runs and only about runs. *)
Lemma wlp_run {E A} (p : prog E A) Q : wlp p Q <-> forall t a, run p t a -> Q t a.
Proof.
  split.
  - intros Hw t a Hr. revert Q Hw. induction Hr as [a|R c k r t a Hr IH]; intros Q Hw; simpl in Hw; [done|].
    apply (IH (fun t a => Q (Ev c r :: t) a)). apply Hw.
  - revert Q. induction p as [a|R c k IH]; intros Q HQ; simpl; [apply HQ; constructor|].
    intros r. apply IH. intros t a Hr. apply HQ. by constructor.
Qed.

(** A weight of events, summed over a trace. *)
Definition weigh {E} (w : event E -> Z) (t : list (event E)) : Z :=
  foldr (fun e acc => w e + acc) 0 t.

Lemma weigh_app {E} (w : event E -> Z) t t' : weigh w (t ++ t') = weigh w t + weigh w t'.
Proof. induction t as [|e t IH]; simpl; [done|]. rewrite IH. lia. Qed.

(** ** Running against a given environment *)

(** An environment answers a call from the calls made so far (latest first). *)
Definition environment (E : Type -> Type) : Type := list (event E) -> forall R, E R -> R.

Fixpoint exec {E A} (env : environment E) (past : list (event E)) (p : prog E A)
    : list (event E) * A :=
  match p with
  | Ret a => ([], a)
  | @Do _ _ R c k =>
      let r := env past R c in
      let '(t, a) := exec env (Ev c r :: past) (k r) in (Ev c r :: t, a)
  end.

Lemma exec_run {E A} (env : environment E) (p : prog E A) past :
  run p (exec env past p).1 (exec env past p).2.
Proof.
  revert past. induction p as [a|R c k IH]; intros past; simpl; [constructor|].
  specialize (IH (env past R c) (Ev c (env past R c) :: past)).
  destruct (exec env _ (k (env past R c))) as [t a]. by constructor.
Qed.
