(* ===== verification/Elf.v ===== *)
(** * The ELF loader

    Models [fs/exec/elf.zcomponent] ([types.cxxm], [core.cxx]): the header check,
    the program-header walk, loading one [PT_LOAD] segment page by page, and the
    user stack.  The memory subsystems the loader drives (VM regions, commit
    accounting, the PMM, page tables, reverse map) are calls of a [prog]: their
    answers are arbitrary.  The image is a byte at every offset from the image
    pointer, of which the first [elf_size] belong to the file; the kernel reads
    big-endian fields in place, as the machine does. *)

From S2P Require Import Prelude Errors Prog.

Definition ELF_PAGE_SIZE : Z := 4096.
Definition PT_LOAD : Z := 1.
Definition PF_X : Z := 1.
Definition PF_W : Z := 2.
Definition EHDR_SIZE : Z := 64.
Definition PHDR_SIZE : Z := 56.
Definition USER_STACK_TOP : Z := 549755813888.
Definition USER_STACK_PAGES : Z := 4.

(** [PAGE_KERNEL_RWX] and its siblings. *)
Inductive page_prot := prot_RWX | prot_RW | prot_RX | prot_RO.

(** [vm_prot] and [vm_flags] bits. *)
Definition vp_read : Z := 1.
Definition vp_write : Z := 2.
Definition vp_exec : Z := 4.
Definition vf_fixed : Z := 1.
Definition vf_anonymous : Z := 2.
Definition vf_stack : Z := 16.
Definition vf_no_merge : Z := 256.
Definition vf_user : Z := 512.

Record elf64_ehdr := Ehdr {
  e_ident : list Z; e_type : Z; e_machine : Z; e_entry : Z; e_phoff : Z;
  e_phentsize : Z; e_phnum : Z
}.

Record elf64_phdr := Phdr {
  p_type : Z; p_flags : Z; p_offset : Z; p_vaddr : Z; p_filesz : Z; p_memsz : Z
}.

(** ** Reading the image *)

(** An [n]-byte big-endian field at [off]. *)
Fixpoint be (rd : Z -> Z) (off : Z) (n : nat) (acc : Z) : Z :=
  match n with
  | O => acc
  | S n' => be rd (off + 1) n' (acc * 256 + rd off)
  end.
Definition field (rd : Z -> Z) (off : Z) (n : nat) : Z := be rd off n 0.

Definition read_ehdr (rd : Z -> Z) : elf64_ehdr :=
  Ehdr (map rd (seqZ 0 16)) (field rd 16 2) (field rd 18 2) (field rd 24 8) (field rd 32 8)
    (field rd 54 2) (field rd 56 2).

Definition read_phdr (rd : Z -> Z) (off : Z) : elf64_phdr :=
  Phdr (field rd off 4) (field rd (off + 4) 4) (field rd (off + 8) 8) (field rd (off + 16) 8)
    (field rd (off + 32) 8) (field rd (off + 40) 8).

Definition elf64_validate (h : elf64_ehdr) : bool :=
  let id i := nthZ 0 (e_ident h) i in
  (id 0 =? 127) && (id 1 =? 69) && (id 2 =? 76) && (id 3 =? 70)
  && (id 4 =? 2) && (id 5 =? 2) && ((id 7 =? 0) || (id 7 =? 66))
  && (e_type h =? 2) && (e_machine h =? 22) && negb (e_phnum h =? 0)
  && (e_phentsize h =? PHDR_SIZE).

Definition flags_to_prot (fl : Z) : page_prot :=
  let w := negb (Z.land fl PF_W =? 0) in
  let x := negb (Z.land fl PF_X =? 0) in
  if w && x then prot_RWX else if w then prot_RW else if x then prot_RX else prot_RO.

Definition elf_flags_to_vm_prot (fl : Z) : Z :=
  let p := vp_read in
  let p := if negb (Z.land fl PF_W =? 0) then Z.lor p vp_write else p in
  if negb (Z.land fl PF_X =? 0) then Z.lor p vp_exec else p.

Definition page_mask (v : Z) : Z := Z.land v (U64_MAX - (ELF_PAGE_SIZE - 1)).

(** ** The environment *)

(** [read_image] marks the access to a header in the image; its bytes come from
    the image itself.  The answer of [vm_unmap] is discarded by the code. *)
Inductive call : Type -> Type :=
  | read_image (off len : Z) : call ()
  | vm_map_fixed (va size prot flags : Z) : call (expected ())
  | vm_find (va : Z) : call (option (Z * Z))
  | vm_unmap (va size : Z) : call (expected ())
  | vm_space_try_charge_commit : call bool
  | vm_space_uncharge_commit : call ()
  | pmm_alloc_zeroed : call (expected Z)
  | frame_is_usable (phys : Z) : call bool
  | pmm_free (phys : Z) : call ()
  | frame_ref (phys : Z) : call (expected Z)
  | frame_release_pin (phys : Z) : call ()
  | frame_set_mapping_metadata (phys oid gen : Z) (writable : bool) : call (expected ())
  | copy_n (file_off phys page_off len : Z) : call ()
  | map_page (va phys : Z) (prot : page_prot) : call (expected ())
  | unmap_page (va : Z) : call ()
  | sske (phys : Z) : call ()
  | reserve_page (va : Z) : call (option Z)
  | fill_slot (slot phys : Z) : call ()
  | clear_slot (slot : Z) : call ()
  | rmap_insert (slot phys : Z) : call (expected ())
  | set_user_sp (sp : Z) : call ().

(** [frame_is_usable] is the HHDM and descriptor half of [validate_user_frame]. *)
Definition validate_user_frame (phys : Z) : prog call (expected ()) :=
  let aligned := Z.land phys (ELF_PAGE_SIZE - 1) =? 0 in
  usable ← call_ (frame_is_usable phys);
  if aligned && (usable : bool) then mret (Expected tt)
  else mret (Unexpected (from_memory mem_invalid_address)).

Definition alloc_user_page : prog call (expected Z) :=
  result ← call_ pmm_alloc_zeroed;
  match result with
  | Unexpected e => mret (Unexpected e)
  | Expected phys =>
      v ← validate_user_frame phys;
      match v with
      | Unexpected e => mret (Unexpected e)
      | Expected _ => mret (Expected phys)
      end
  end.

(** ** One page *)

(** The bytes the loader copies into the page at [va]: file offset, offset in the
    page and length. *)
Definition copy_plan (ph : elf64_phdr) (va : Z) : option (Z * Z * Z) :=
  let file_end := u64 (p_vaddr ph + p_filesz ph) in
  if va <? file_end then
    let copy_start := if p_vaddr ph <? va then va else p_vaddr ph in
    let copy_end := if u64 (va + ELF_PAGE_SIZE) <? file_end then u64 (va + ELF_PAGE_SIZE) else file_end in
    if copy_start <? copy_end then
      Some (u64 (p_offset ph + (copy_start - p_vaddr ph)), copy_start - va, copy_end - copy_start)
    else None
  else None.

(** Leaving the segment: drop the region and report. *)
Definition fail_region (start size : Z) (e : kernel_error) : prog call (expected ()) :=
  _ ← call_ (vm_unmap start size);
  mret (Unexpected e).

(** The common body of the page loops of [load_segment] and [setup_user_stack]:
    [plan] is the copy into the fresh page, if any. *)
Definition install_page (start size : Z) (rgn : Z * Z) (writable : bool) (prot : page_prot)
    (va : Z) (plan : option (Z * Z * Z)) : prog call (expected ()) :=
  charged ← call_ vm_space_try_charge_commit;
  if negb (charged : bool) then fail_region start size (from_memory mem_out_of_memory)
  else
    phys_r ← alloc_user_page;
    match phys_r with
    | Unexpected e =>
        _ ← call_ vm_space_uncharge_commit;
        fail_region start size e
    | Expected phys =>
        pin ← call_ (frame_ref phys);
        match pin with
        | Unexpected e =>
            _ ← call_ (pmm_free phys);
            _ ← call_ vm_space_uncharge_commit;
            fail_region start size e
        | Expected _ =>
            metadata ← call_ (frame_set_mapping_metadata phys rgn.1 rgn.2 writable);
            match metadata with
            | Unexpected e =>
                _ ← call_ (frame_release_pin phys);
                _ ← call_ vm_space_uncharge_commit;
                fail_region start size e
            | Expected _ =>
                _ ← match plan with
                    | Some (file_off, page_off, len) => call_ (copy_n file_off phys page_off len)
                    | None => mret tt
                    end;
                hw_r ← call_ (map_page va phys prot);
                match hw_r with
                | Unexpected e =>
                    _ ← call_ (frame_release_pin phys);
                    _ ← call_ vm_space_uncharge_commit;
                    fail_region start size e
                | Expected _ =>
                    _ ← call_ (sske phys);
                    slot ← call_ (reserve_page va);
                    match slot with
                    | None =>
                        _ ← call_ (unmap_page va);
                        _ ← call_ (frame_release_pin phys);
                        _ ← call_ vm_space_uncharge_commit;
                        fail_region start size (from_memory mem_out_of_memory)
                    | Some slot =>
                        _ ← call_ (fill_slot slot phys);
                        rmap_result ← call_ (rmap_insert slot phys);
                        match rmap_result with
                        | Unexpected e =>
                            _ ← call_ (clear_slot slot);
                            _ ← call_ (unmap_page va);
                            _ ← call_ (frame_release_pin phys);
                            fail_region start size e
                        | Expected _ => mret (Expected tt)
                        end
                    end
                end
            end
        end
    end.

(** ** Segments and the stack *)

Definition seg_start (ph : elf64_phdr) : Z := page_mask (p_vaddr ph).
Definition seg_end (ph : elf64_phdr) : Z :=
  page_mask (u64 (p_vaddr ph + p_memsz ph + ELF_PAGE_SIZE - 1)).

(** [for (va = seg_start; va < seg_end; va += PAGE_SIZE)]. *)
Fixpoint page_loop (body : Z -> prog call (expected ())) (va end_ : Z) (n : nat)
    : prog call (expected ()) :=
  match n with
  | O => mret (Expected tt)
  | S n' =>
      if end_ <=? va then mret (Expected tt)
      else
        r ← body va;
        match r with
        | Unexpected e => mret (Unexpected e)
        | Expected _ => page_loop body (va + ELF_PAGE_SIZE) end_ n'
        end
  end.

Definition load_segment (ph : elf64_phdr) : prog call (expected ()) :=
  let start := seg_start ph in
  let end_ := seg_end ph in
  let size := u64 (end_ - start) in
  let vprot := elf_flags_to_vm_prot (p_flags ph) in
  let vflags := Z.lor (Z.lor (Z.lor vf_fixed vf_user) vf_anonymous) vf_no_merge in
  map_r ← call_ (vm_map_fixed start size vprot vflags);
  match map_r with
  | Unexpected e => mret (Unexpected e)
  | Expected _ =>
      rgn ← call_ (vm_find start);
      match rgn with
      | None => fail_region start size (from_generic not_found)
      | Some rgn =>
          page_loop
            (fun va => install_page start size rgn (negb (Z.land vprot vp_write =? 0))
                         (flags_to_prot (p_flags ph)) va (copy_plan ph va))
            start end_ (Z.to_nat ((end_ - start) / ELF_PAGE_SIZE))
      end
  end.

Definition stack_bottom : Z := USER_STACK_TOP - USER_STACK_PAGES * ELF_PAGE_SIZE.
Definition stack_size : Z := USER_STACK_PAGES * ELF_PAGE_SIZE.

Definition setup_user_stack : prog call (expected Z) :=
  let vflags := Z.lor (Z.lor (Z.lor (Z.lor vf_fixed vf_user) vf_anonymous) vf_stack) vf_no_merge in
  map_r ← call_ (vm_map_fixed stack_bottom stack_size (Z.lor vp_read vp_write) vflags);
  match map_r with
  | Unexpected e => mret (Unexpected e)
  | Expected _ =>
      rgn ← call_ (vm_find stack_bottom);
      r ← match rgn with
          | None => fail_region stack_bottom stack_size (from_generic not_found)
          | Some rgn =>
              page_loop
                (fun va => install_page stack_bottom stack_size rgn true prot_RW va None)
                stack_bottom USER_STACK_TOP (Z.to_nat USER_STACK_PAGES)
          end;
      match r with
      | Unexpected e => mret (Unexpected e)
      | Expected _ => mret (Expected USER_STACK_TOP)
      end
  end.

(** ** [load] *)

(** The program-header loop from index [i]; answers how many segments it loaded. *)
Fixpoint load_headers (rd : Z -> Z) (elf_size phoff i : Z) (loaded : Z) (n : nat)
    : prog call (expected Z) :=
  match n with
  | O => mret (Expected loaded)
  | S n' =>
      _ ← call_ (read_image (phoff + i * PHDR_SIZE) PHDR_SIZE);
      let ph := read_phdr rd (phoff + i * PHDR_SIZE) in
      if negb (p_type ph =? PT_LOAD) then load_headers rd elf_size phoff (i + 1) loaded n'
      else if p_memsz ph =? 0 then load_headers rd elf_size phoff (i + 1) loaded n'
      else if elf_size <? u64 (p_offset ph + p_filesz ph) then
        mret (Unexpected (from_generic invalid_arg))
      else
        r ← load_segment ph;
        match r with
        | Unexpected e => mret (Unexpected e)
        | Expected _ => load_headers rd elf_size phoff (i + 1) (u32 (loaded + 1)) n'
        end
  end.

(** [load], for a non-null domain and image. *)
Definition load (rd : Z -> Z) (elf_size : Z) : prog call (expected Z) :=
  if elf_size <? EHDR_SIZE then mret (Unexpected (from_generic invalid_arg))
  else
    _ ← call_ (read_image 0 EHDR_SIZE);
    let h := read_ehdr rd in
    if negb (elf64_validate h) then mret (Unexpected (from_generic invalid_arg))
    else
      let ph_end := u64 (e_phoff h + e_phnum h * PHDR_SIZE) in
      if elf_size <? ph_end then mret (Unexpected (from_generic invalid_arg))
      else
        r ← load_headers rd elf_size (e_phoff h) 0 0 (Z.to_nat (e_phnum h));
        match r with
        | Unexpected e => mret (Unexpected e)
        | Expected loaded =>
            if loaded =? 0 then mret (Unexpected (from_generic not_found))
            else
              stack_r ← setup_user_stack;
              match stack_r with
              | Unexpected e => mret (Unexpected e)
              | Expected sp =>
                  _ ← call_ (set_user_sp sp);
                  mret (Expected (e_entry h))
              end
        end.

(** ** The resource ledger

    What a trace has acquired and not given back.  [fill_slot] makes a page
    resident: the region then owns its frame, its pin and its commit charge, and
    returns them when it is unmapped; [clear_slot] takes frame and pin back. *)

(** Commit charges held by neither the loader's caller nor a region. *)
Definition w_commit (e : event call) : Z :=
  match e with
  | Ev c r =>
      match c in call R return R -> Z with
      | vm_space_try_charge_commit => fun b => Z.b2z b
      | vm_space_uncharge_commit => fun _ => -1
      | fill_slot _ _ => fun _ => -1
      | _ => fun _ => 0
      end r
  end.

(** Frame pins not owned by a resident slot. *)
Definition w_pin (e : event call) : Z :=
  match e with
  | Ev c r =>
      match c in call R return R -> Z with
      | frame_ref _ => fun x => Z.b2z (has_value x)
      | frame_release_pin _ => fun _ => -1
      | fill_slot _ _ => fun _ => -1
      | clear_slot _ => fun _ => 1
      | _ => fun _ => 0
      end r
  end.

(** Frames taken from the allocator that neither it nor a slot owns. *)
Definition w_frame (e : event call) : Z :=
  match e with
  | Ev c r =>
      match c in call R return R -> Z with
      | pmm_alloc_zeroed => fun x => Z.b2z (has_value x)
      | pmm_free _ => fun _ => -1
      | frame_release_pin _ => fun _ => -1
      | fill_slot _ _ => fun _ => -1
      | clear_slot _ => fun _ => 1
      | _ => fun _ => 0
      end r
  end.

(** Frames the allocator handed out and [validate_user_frame] turned down. *)
Definition w_rejected (e : event call) : Z :=
  match e with
  | Ev c r =>
      match c in call R return R -> Z with
      | frame_is_usable phys => fun b => Z.b2z (negb ((Z.land phys (ELF_PAGE_SIZE - 1) =? 0) && b))
      | _ => fun _ => 0
      end r
  end.

(** The regions mapped, and the regions the loader asked to have unmapped, in
    order. *)
Definition mapped_regions (t : list (event call)) : list (Z * Z) :=
  omap (fun e => match e with
    | Ev c r =>
        match c in call R return R -> option (Z * Z) with
        | vm_map_fixed va size _ _ => fun x => if has_value x then Some (va, size) else None
        | _ => fun _ => None
        end r
    end) t.

Definition unmapped_regions (t : list (event call)) : list (Z * Z) :=
  omap (fun e => match e with
    | Ev c r =>
        match c in call R return R -> option (Z * Z) with
        | vm_unmap va size => fun _ => Some (va, size)
        | _ => fun _ => None
        end r
    end) t.

(** The calls but for the accesses to the image. *)
Definition acts (t : list (event call)) : list (event call) :=
  omap (fun e => match e with
    | Ev c r => match c with read_image _ _ => None | _ => Some e end
    end) t.

Lemma acts_app t t' : acts (t ++ t') = acts t ++ acts t'.
Proof. apply omap_app. Qed.

(** Nothing is left over but rejected frames. *)
Definition settled (t : list (event call)) : Prop :=
  weigh w_commit t = 0 /\ weigh w_pin t = 0 /\ weigh w_frame t = weigh w_rejected t.

Lemma settled_app t1 t2 : settled t1 -> settled t2 -> settled (t1 ++ t2).
Proof. unfold settled. intros (A1 & A2 & A3) (B1 & B2 & B3). rewrite !weigh_app. lia. Qed.

(** A trace that maps [m] and asks to unmap [u], reading no header. *)
Record ledger (t : list (event call)) (m u : list (Z * Z)) : Prop := {
  le_settled : settled t;
  le_mapped : mapped_regions t = m;
  le_unmapped : unmapped_regions t = u;
  le_acts : acts t = t
}.

Lemma ledger_app t t' m m' u u' :
  ledger t m u -> ledger t' m' u' -> ledger (t ++ t') (m ++ m') (u ++ u').
Proof.
  intros [A1 A2 A3 A4] [B1 B2 B3 B4]. split; [by apply settled_app|..].
  - unfold mapped_regions in *. by rewrite omap_app, A2, B2.
  - unfold unmapped_regions in *. by rewrite omap_app, A3, B3.
  - by rewrite acts_app, A4, B4.
Qed.

(** Symbolic execution: branch on each answer, then weigh the trace. *)
Ltac answers :=
  repeat (cbn; intros;
    match goal with
    | |- context [match ?x with _ => _ end] => is_var x; destruct x
    | |- context [if ?b then _ else _] => is_var b; destruct b
    end).
Ltac weigh_trace :=
  match goal with
  | |- settled _ => unfold settled, weigh; cbn; lia
  | |- ledger _ _ _ => split; [unfold settled, weigh; cbn; lia|reflexivity..]
  end.

(** One page settles its accounts whatever the environment answers, giving the
    region up on failure. *)
Lemma install_page_settled start size rgn w prot va plan :
  wlp (install_page start size rgn w prot va plan)
    (fun t r => ledger t [] (if has_value r then [] else [(start, size)])).
Proof.
  unfold install_page, alloc_user_page, validate_user_frame, fail_region.
  cbn. intros charged. destruct charged; cbn; [|intros ?; weigh_trace].
  intros [phys|e]; cbn; [|intros [] ?; weigh_trace].
  intros usable. destruct ((Z.land phys (ELF_PAGE_SIZE - 1) =? 0) && usable) eqn:E; cbn.
  2:{ intros [] ?. split; [|reflexivity..]. unfold settled, weigh. cbn. rewrite E. cbn. lia. }
  destruct plan as [[[fo po] len]|]; answers;
    (split; [unfold settled, weigh; cbn; rewrite E; cbn; lia|reflexivity..]).
Qed.

Lemma page_loop_settled start size body n va end_ :
  (forall va, wlp (body va) (fun t r => ledger t [] (if has_value r then [] else [(start, size)]))) ->
  wlp (page_loop body va end_ n) (fun t r => ledger t [] (if has_value r then [] else [(start, size)])).
Proof.
  intros Hb. revert va. induction n as [|n IH]; intros va; cbn [page_loop]; [cbn; weigh_trace|].
  destruct (end_ <=? va); [cbn; weigh_trace|]. apply wlp_bind. eapply wlp_mono; [|apply Hb].
  intros t [[]|e] Ht; cbn.
  - eapply wlp_mono; [|apply IH]. intros t' r Ht'. by apply (ledger_app t t' [] [] []).
  - by rewrite app_nil_r.
Qed.

(** A region is kept exactly when its pages were all installed. *)
Definition kept_on_success (start size : Z) (t : list (event call)) (ok : bool) : Prop :=
  if ok then ledger t [(start, size)] [] else exists l, ledger t l l.

Lemma kept_acts start size t ok : kept_on_success start size t ok -> acts t = t.
Proof. destruct ok; [intros []|intros [l []]]; done. Qed.

Lemma kept_prefix start size rgn t u vprot vflags :
  ledger t [] u ->
  ledger (Ev (vm_map_fixed start size vprot vflags) (Expected tt) :: Ev (vm_find start) rgn :: t)
    [(start, size)] u.
Proof. intros Ht. apply (ledger_app [_; _] t [(start, size)] [] [] u); [weigh_trace|done]. Qed.

Lemma load_segment_settled ph :
  wlp (load_segment ph)
    (fun t r => kept_on_success (seg_start ph) (u64 (seg_end ph - seg_start ph)) t (has_value r)).
Proof.
  unfold load_segment. cbn [wlp mbind prog_mbind prog_bind call_].
  intros [[]|e]; cbn; [|exists []; weigh_trace].
  intros [rgn|]; cbn; [|intros ?; eexists [_]; weigh_trace].
  eapply wlp_mono; [|apply page_loop_settled; intros; apply install_page_settled].
  intros t r Ht. destruct r; cbn; [by apply kept_prefix|].
  eexists [_]. by apply kept_prefix.
Qed.

Lemma setup_user_stack_settled :
  wlp setup_user_stack (fun t r => kept_on_success stack_bottom stack_size t (has_value r)).
Proof.
  unfold setup_user_stack. cbn [wlp mbind prog_mbind prog_bind call_].
  intros [[]|e]; cbn [wlp mbind prog_mbind prog_bind call_]; [|exists []; weigh_trace].
  intros rgn. change (prog_bind ?f ?p) with (p ≫= f). apply wlp_bind.
  apply (wlp_mono _ (fun t r => ledger t [] (if has_value r then [] else [(stack_bottom, stack_size)]))).
  - intros t r Ht. destruct r; cbn in *; rewrite app_nil_r; [by apply kept_prefix|].
    eexists [_]. by apply kept_prefix.
  - destruct rgn as [rgn|]; [apply page_loop_settled; intros; apply install_page_settled|].
    cbn. intros ?. weigh_trace.
Qed.

(** The headers that call for a segment, from index [i]. *)
Definition loadable (rd : Z -> Z) (phoff i : Z) (n : nat) : list elf64_phdr :=
  filter (fun ph => p_type ph = PT_LOAD /\ p_memsz ph <> 0)
    (map (fun k => read_phdr rd (phoff + k * PHDR_SIZE)) (seqZ i (Z.of_nat n))).

Lemma loadable_S rd phoff i n :
  let ph := read_phdr rd (phoff + i * PHDR_SIZE) in
  loadable rd phoff i (S n) =
    if decide (p_type ph = PT_LOAD /\ p_memsz ph <> 0) then ph :: loadable rd phoff (i + 1) n
    else loadable rd phoff (i + 1) n.
Proof.
  intros ph. unfold loadable. rewrite seqZ_cons by lia.
  replace (Z.pred (Z.of_nat (S n))) with (Z.of_nat n) by lia.
  replace (Z.succ i) with (i + 1) by lia. cbn [map]. by rewrite filter_cons.
Qed.

(** [tr] is the trace of a complete load of [ph], which keeps its region. *)
Definition loaded_by (ph : elf64_phdr) (tr : list (event call)) : Prop :=
  run (load_segment ph) tr (Expected tt) /\
  mapped_regions tr = [(seg_start ph, u64 (seg_end ph - seg_start ph))] /\ unmapped_regions tr = [].

(** The segments [segs] were loaded one after the other, and then [rest] was done. *)
Definition loads (t : list (event call)) (segs : list elf64_phdr) (rest : list (event call)) : Prop :=
  exists trs, acts t = concat trs ++ rest /\ Forall2 loaded_by segs trs.

Lemma loads_cons ph tr t segs rest : acts tr = tr -> loaded_by ph tr ->
  loads t segs rest -> loads (tr ++ t) (ph :: segs) rest.
Proof.
  intros Ha Hl (trs & E & HF). exists (tr :: trs). split; [|by constructor].
  by rewrite acts_app, Ha, E, app_assoc.
Qed.

Lemma loads_app t t' segs : loads t segs [] -> loads (t ++ t') segs (acts t').
Proof. intros (trs & E & HF). exists trs. by rewrite acts_app, E, app_nil_r. Qed.

(** The header loop. *)
Definition headers_post (rd : Z -> Z) (phoff i loaded : Z) (n : nat) (t : list (event call))
    (r : expected Z) : Prop :=
  settled t /\ exists segs rest, loads t segs rest /\ segs `prefix_of` loadable rd phoff i n /\
    match r with
    | Expected l => rest = [] /\ segs = loadable rd phoff i n /\
        (0 <= loaded -> loaded + Z.of_nat n < 2 ^ 32 -> l = loaded + Z.of_nat (length segs))
    | Unexpected _ => mapped_regions rest = unmapped_regions rest
    end.

Lemma load_headers_settled n rd size phoff i loaded :
  wlp (load_headers rd size phoff i loaded n) (headers_post rd phoff i loaded n).
Proof.
  revert i loaded. induction n as [|n IH]; intros i loaded; cbn [load_headers].
  { split; [done|]. exists [], []. split; [exists []; done|]. split; [done|].
    split; [done|]. split; [done|]. simpl. lia. }
  cbn [wlp mbind prog_mbind prog_bind call_]. intros [].
  set (ev := Ev (read_image _ _) tt).
  pose proof (loadable_S rd phoff i n) as HS. cbv zeta in HS.
  set (ph := read_phdr rd (phoff + i * PHDR_SIZE)) in *.
  assert (Hskip : ~ (p_type ph = PT_LOAD /\ p_memsz ph <> 0) ->
    wlp (load_headers rd size phoff (i + 1) loaded n)
      (fun t r => headers_post rd phoff i loaded (S n) (ev :: t) r)).
  { intros Hno. rewrite decide_False in HS by done. eapply wlp_mono; [|apply IH].
    intros t r (Hs & segs & rest & Hl & Hp & Hr). split; [exact Hs|]. exists segs, rest.
    rewrite HS. split; [exact Hl|]. split; [done|].
    destruct r as [l|e]; [|done]. destruct Hr as (H1 & H2 & H3). split_and!; [done..|]. lia. }
  destruct (Z.eqb_spec (p_type ph) PT_LOAD) as [Ety|Ety]; cbn [negb]; [|apply Hskip; tauto].
  destruct (Z.eqb_spec (p_memsz ph) 0) as [Em|Em]; [apply Hskip; tauto|]. clear Hskip.
  rewrite decide_True in HS by done.
  destruct (_ <? _).
  { cbn. split; [weigh_trace|]. exists [], []. split; [exists []; done|].
    split; [apply prefix_nil|done]. }
  change (prog_bind ?f ?p) with (p ≫= f). apply wlp_bind.
  apply (wlp_mono _ (fun t r => kept_on_success (seg_start ph) (u64 (seg_end ph - seg_start ph)) t (has_value r)
    /\ run (load_segment ph) t r)).
  2:{ apply wlp_run. intros t r Hrun. split; [|done].
      by apply (proj1 (wlp_run _ _) (load_segment_settled ph)). }
  intros t [[]|e] [Hk Hrun]; cbn [has_value kept_on_success] in Hk.
  - destruct Hk as [K1 K2 K3 K4].
    eapply wlp_mono; [|apply IH]. intros t' r (Hs & segs & rest & Hl & Hp & Hr).
    split; [apply (settled_app t t' K1 Hs)|]. exists (ph :: segs), rest. rewrite HS.
    split; [apply (loads_cons ph t t'); [done|by split_and!|done]|]. split; [by apply prefix_cons|].
    destruct r as [l|e]; [|done]. destruct Hr as (H1 & H2 & H3). split; [done|]. split; [congruence|].
    intros H0 Hlt. assert (E : u32 (loaded + 1) = loaded + 1)
      by (apply u32_small; unfold fits; change (2 ^ 32) with 4294967296 in *; lia).
    rewrite E in H3. rewrite H3 by lia. cbn [length]. lia.
  - destruct Hk as [l [K1 K2 K3 K4]]. cbn. rewrite app_nil_r. split; [exact K1|].
    exists [], (acts t). split; [exists []; done|]. split; [apply prefix_nil|].
    rewrite K4. congruence.
Qed.

(** Every offset holds a byte. *)
Definition bytes (rd : Z -> Z) : Prop := forall i, 0 <= rd i < 256.

Lemma be_fits rd n off acc :
  bytes rd -> 0 <= acc -> 0 <= be rd off n acc < (acc + 1) * 256 ^ Z.of_nat n.
Proof.
  intros Hb. revert off acc. induction n as [|n IH]; intros off acc Ha; cbn [be]; [lia|].
  specialize (IH (off + 1) (acc * 256 + rd off)). pose proof (Hb off).
  rewrite Nat2Z.inj_succ, Z.pow_succ_r by lia.
  assert (0 < 256 ^ Z.of_nat n) by (apply Z.pow_pos_nonneg; lia). nia.
Qed.

Lemma field_fits rd off n : bytes rd -> 0 <= field rd off n < 256 ^ Z.of_nat n.
Proof. intros Hb. pose proof (be_fits rd n off 0 Hb). unfold field. lia. Qed.

(** The program headers of the image that call for a segment. *)
Definition segments (rd : Z -> Z) : list elf64_phdr :=
  loadable rd (e_phoff (read_ehdr rd)) 0 (Z.to_nat (e_phnum (read_ehdr rd))).

(** The whole load. *)
Definition load_post (rd : Z -> Z) (t : list (event call)) (r : expected Z) : Prop :=
  settled t /\ exists segs rest, loads t segs rest /\ segs `prefix_of` segments rd /\
    if has_value r then
      segs = segments rd /\ segs <> [] /\
      mapped_regions rest = [(stack_bottom, stack_size)] /\ unmapped_regions rest = []
    else mapped_regions rest = unmapped_regions rest.

Lemma load_settled rd size : bytes rd -> wlp (load rd size) (load_post rd).
Proof.
  intros Hb.
  assert (Hnone : forall (t : list (event call)) (e : kernel_error), settled t -> acts t = [] ->
    load_post rd t (Unexpected e)).
  { intros t e Hs Ha. split; [done|]. exists [], []. split; [exists []; by rewrite Ha|].
    split; [apply prefix_nil|done]. }
  unfold load. destruct (_ <? _); [by apply Hnone|].
  cbn [wlp mbind prog_mbind prog_bind call_]. intros [].
  set (ev := Ev (read_image _ _) tt).
  destruct (negb _); [apply Hnone; [weigh_trace|done]|].
  destruct (_ <? _); [apply Hnone; [weigh_trace|done]|].
  change (prog_bind ?f ?p) with (p ≫= f). apply wlp_bind.
  eapply wlp_mono; [|apply load_headers_settled].
  intros t r (Hs & segs & rest & Hl & Hp & Hr).
  destruct r as [loaded|e].
  2:{ cbn. rewrite app_nil_r. split; [exact Hs|]. by exists segs, rest. }
  destruct Hr as (-> & -> & Hcount). fold (segments rd) in *.
  destruct (Z.eqb_spec loaded 0) as [|Hne].
  { cbn. rewrite app_nil_r. split; [exact Hs|]. by exists (segments rd), []. }
  assert (Hsegs : segments rd <> []).
  { intros E. rewrite E in Hcount. pose proof (field_fits rd 56 2 Hb) as Hf.
    change (256 ^ Z.of_nat 2) with 65536 in Hf. apply Hne, Hcount; [lia|].
    change (e_phnum (read_ehdr rd)) with (field rd 56 2). change (2 ^ 32) with 4294967296. lia. }
  apply wlp_bind. eapply wlp_mono; [|apply setup_user_stack_settled]. intros t2 [sp|e] Hk; cbn in Hk.
  - destruct Hk as [K1 K2 K3 K4]. cbn. intros []. split.
    { apply (settled_app t (t2 ++ _)); [done|]. apply settled_app; [done|weigh_trace]. }
    exists (segments rd), (acts (t2 ++ [Ev (set_user_sp sp) tt])).
    split; [apply (loads_app t _ _ Hl)|]. split; [done|].
    assert (Ha : ledger (t2 ++ [Ev (set_user_sp sp) tt]) [(stack_bottom, stack_size)] []).
    { apply (ledger_app t2 _ [_] [] [] []); [done|weigh_trace]. }
    destruct Ha as [A1 A2 A3 A4]. by rewrite A4.
  - destruct Hk as [l [K1 K2 K3 K4]]. cbn. rewrite app_nil_r. split; [by apply (settled_app t t2)|].
    exists (segments rd), (acts t2). split; [apply (loads_app t _ _ Hl)|]. split; [done|].
    rewrite K4. cbn. congruence.
Qed.

(** ** What a page receives *)

(** The bytes copied into the page at [va] are exactly the file bytes of the
    addresses it holds: nothing outside the page or outside the segment's file
    image is touched, and address [a] gets file byte [p_offset + (a - p_vaddr)]. *)
Lemma copy_plan_spec ph va :
  0 <= p_vaddr ph -> 0 <= p_filesz ph -> 0 <= p_offset ph -> 0 <= va ->
  p_vaddr ph + p_filesz ph < 2 ^ 64 -> p_offset ph + p_filesz ph < 2 ^ 64 -> va + 4096 < 2 ^ 64 ->
  match copy_plan ph va with
  | Some (fo, po, len) =>
      0 < len /\ 0 <= po /\ po + len <= 4096 /\
      p_offset ph <= fo /\ fo + len <= p_offset ph + p_filesz ph /\
      (forall i, 0 <= i < 4096 ->
         (po <= i < po + len <-> p_vaddr ph <= va + i < p_vaddr ph + p_filesz ph) /\
         (po <= i < po + len -> fo + (i - po) = p_offset ph + (va + i - p_vaddr ph)))
  | None => forall i, 0 <= i < 4096 -> ~ (p_vaddr ph <= va + i < p_vaddr ph + p_filesz ph)
  end.
Proof.
  intros Hv Hf Ho Hva H1 H2 H3. unfold copy_plan, ELF_PAGE_SIZE.
  rewrite !(u64_small (p_vaddr ph + p_filesz ph)) by (unfold fits; lia).
  rewrite (u64_small (va + 4096)) by (unfold fits; lia).
  destruct (Z.ltb_spec va (p_vaddr ph + p_filesz ph)) as [Hlt|Hge]; [|intros i Hi; lia].
  set (cs := if p_vaddr ph <? va then va else p_vaddr ph).
  set (ce := if va + 4096 <? p_vaddr ph + p_filesz ph then va + 4096 else p_vaddr ph + p_filesz ph).
  assert (Hcs : cs = Z.max va (p_vaddr ph)) by (unfold cs; destruct (Z.ltb_spec (p_vaddr ph) va); lia).
  assert (Hce : ce = Z.min (va + 4096) (p_vaddr ph + p_filesz ph))
    by (unfold ce; destruct (Z.ltb_spec (va + 4096) (p_vaddr ph + p_filesz ph)); lia).
  clearbody cs ce. destruct (Z.ltb_spec cs ce) as [Hc|Hc]; [|intros i Hi; lia].
  rewrite u64_small by (unfold fits; lia).
  split_and!; lia.
Qed.

(** A header whose file and memory extents are representable. *)
Definition header_ok (ph : elf64_phdr) : Prop :=
  0 <= p_vaddr ph /\ 0 <= p_filesz ph /\ 0 <= p_offset ph /\ 0 <= p_memsz ph /\
  p_vaddr ph + p_filesz ph < 2 ^ 64 /\ p_offset ph + p_filesz ph < 2 ^ 64 /\
  p_vaddr ph + p_memsz ph + 4095 < 2 ^ 64.

(** ** What a successful load has mapped *)

(** Pages the hardware tables received, in order. *)
Definition mapped (t : list (event call)) : list (Z * page_prot) :=
  omap (fun e => match e with
    | Ev c r =>
        match c in call R return R -> option (Z * page_prot) with
        | map_page va phys prot => fun x => if has_value x then Some (va, prot) else None
        | _ => fun _ => None
        end r
    end) t.

(** File ranges read while copying. *)
Definition copied (t : list (event call)) : list (Z * Z * Z) :=
  omap (fun e => match e with
    | Ev c r =>
        match c in call R return R -> option (Z * Z * Z) with
        | copy_n fo phys po len => fun _ => Some (fo, po, len)
        | _ => fun _ => None
        end r
    end) t.

Lemma mapped_app t t' : mapped (t ++ t') = mapped t ++ mapped t'.
Proof. apply omap_app. Qed.

Lemma copied_app t t' : copied (t ++ t') = copied t ++ copied t'.
Proof. apply omap_app. Qed.

(** Installing a page copies at most the planned range, and on success has
    mapped exactly that page. *)
Lemma install_page_maps start size rgn w prot va plan :
  wlp (install_page start size rgn w prot va plan)
    (fun t r => (has_value r = true -> mapped t = [(va, prot)]) /\
                (forall c, c ∈ copied t -> plan = Some c)).
Proof.
  unfold install_page, alloc_user_page, validate_user_frame, fail_region.
  cbn. intros charged. destruct charged; cbn; [|intros ?; split; [done|set_solver]].
  intros [phys|e]; cbn; [|intros [] ?; split; [done|set_solver]].
  intros usable. destruct ((Z.land phys (ELF_PAGE_SIZE - 1) =? 0) && usable); cbn;
    [|intros [] ?; split; [done|set_solver]].
  destruct plan as [[[fo po] len]|]; answers; (split; [done|]); cbn;
    intros c; rewrite ?elem_of_cons, ?elem_of_nil; naive_solver.
Qed.

Lemma page_loop_maps prot (plan : Z -> option (Z * Z * Z)) body n va end_ :
  (forall va, wlp (body va) (fun t r => (has_value r = true -> mapped t = [(va, prot)]) /\
                (forall c, c ∈ copied t -> plan va = Some c))) ->
  end_ = va + Z.of_nat n * 4096 ->
  wlp (page_loop body va end_ n)
    (fun t r => (has_value r = true ->
                 mapped t = map (fun k => (va + k * 4096, prot)) (seqZ 0 (Z.of_nat n))) /\
                (forall c, c ∈ copied t -> exists k, 0 <= k < Z.of_nat n /\ plan (va + k * 4096) = Some c)).
Proof.
  intros Hb. revert va. induction n as [|n IH]; intros va He; cbn [page_loop].
  { split; [done|]. intros c Hc. by apply not_elem_of_nil in Hc. }
  rewrite (proj2 (Z.leb_gt _ _)) by lia. apply wlp_bind. eapply wlp_mono; [|apply Hb].
  intros t [[]|e] [Hm Hc].
  - eapply wlp_mono; [|apply (IH (va + 4096)); lia]. intros t' r [Hm' Hc']. split.
    + intros Hr. rewrite mapped_app, Hm, (Hm' Hr) by done.
      replace (Z.of_nat (S n)) with (Z.succ (Z.of_nat n)) by lia.
      rewrite (seqZ_cons 0 (Z.succ (Z.of_nat n))) by lia. rewrite Z.pred_succ. cbn [map app]. f_equal.
      { f_equal. lia. }
      rewrite <- (fmap_add_seqZ 1 0). unfold fmap. rewrite map_map. apply map_ext.
      intros k. f_equal. lia.
    + intros c. rewrite copied_app, elem_of_app. intros [H|H].
      * exists 0. split; [lia|]. rewrite Z.mul_0_l, Z.add_0_r. auto.
      * destruct (Hc' c H) as (k & Hk & Ek). exists (k + 1). split; [lia|]. rewrite <- Ek. f_equal. lia.
  - cbn. rewrite app_nil_r. split; [done|]. intros c H. exists 0. split; [lia|].
    rewrite Z.mul_0_l, Z.add_0_r. auto.
Qed.

Lemma page_mask_spec v : fits 64 v -> page_mask v = 4096 * (v / 4096).
Proof. apply land_page_mask. Qed.

(** The pages a segment occupies. *)
Definition segment_pages (ph : elf64_phdr) : list Z :=
  map (fun k => 4096 * (p_vaddr ph / 4096) + k * 4096)
    (seqZ 0 ((p_vaddr ph + p_memsz ph + 4095) / 4096 - p_vaddr ph / 4096)).

Lemma load_segment_maps ph :
  header_ok ph ->
  wlp (load_segment ph) (fun t r =>
    (has_value r = true -> mapped t = map (fun va => (va, flags_to_prot (p_flags ph))) (segment_pages ph)) /\
    (forall c, c ∈ copied t -> exists va, va ∈ segment_pages ph /\ copy_plan ph va = Some c)).
Proof.
  intros (H1 & H2 & H3 & H4 & H5 & H6 & H7). unfold load_segment.
  assert (Es : seg_start ph = 4096 * (p_vaddr ph / 4096)) by (apply page_mask_spec; solve_u).
  assert (Ee : seg_end ph = 4096 * ((p_vaddr ph + p_memsz ph + 4095) / 4096)).
  { unfold seg_end, ELF_PAGE_SIZE. replace (p_vaddr ph + p_memsz ph + 4096 - 1) with (p_vaddr ph + p_memsz ph + 4095) by lia.
    rewrite u64_small by solve_u. apply page_mask_spec. solve_u. }
  cbn [wlp mbind prog_mbind prog_bind call_].
  intros [[]|e]; cbn [wlp mbind prog_mbind prog_bind call_];
    [|split; [done|intros c Hc; by apply not_elem_of_nil in Hc]].
  intros [rgn|]; cbn [wlp mbind prog_mbind prog_bind call_ fail_region];
    [|intros ?; split; [done|intros c Hc; by apply not_elem_of_nil in Hc]].
  set (n := Z.to_nat ((seg_end ph - seg_start ph) / ELF_PAGE_SIZE)).
  assert (Hn : Z.of_nat n = (p_vaddr ph + p_memsz ph + 4095) / 4096 - p_vaddr ph / 4096).
  { unfold n, ELF_PAGE_SIZE. rewrite Es, Ee. lia. }
  eapply wlp_mono; [|apply (page_loop_maps (flags_to_prot (p_flags ph)) (copy_plan ph));
    [intros va; apply install_page_maps|rewrite Es, Ee; lia]].
  intros t r [Hm Hc]. cbn. rewrite Es, Hn in *. split.
  - intros Hr. change (mapped t = map (fun va => (va, flags_to_prot (p_flags ph))) (segment_pages ph)).
    rewrite (Hm Hr). unfold segment_pages. rewrite map_map. done.
  - intros c Hin. destruct (Hc c Hin) as (k & Hk & Ek). exists (4096 * (p_vaddr ph / 4096) + k * 4096).
    split; [|done]. unfold segment_pages. apply list_elem_of_fmap. exists k. split; [done|].
    apply elem_of_seqZ. lia.
Qed.

(** The byte at offset [i] of the fresh page mapped at [va]. *)
Definition page_byte (rd : Z -> Z) (ph : elf64_phdr) (va i : Z) : Z :=
  match copy_plan ph va with
  | Some (fo, po, len) => if (po <=? i) && (i <? po + len) then rd (fo + (i - po)) else 0
  | None => 0
  end.

Lemma segment_pages_range ph va :
  header_ok ph -> va ∈ segment_pages ph -> 0 <= va /\ va + 4096 <= p_vaddr ph + p_memsz ph + 4095.
Proof.
  intros (H1 & H2 & H3 & H4 & H5 & H6 & H7) Hva.
  apply list_elem_of_fmap in Hva as (k & -> & Hk). apply elem_of_seqZ in Hk. lia.
Qed.

(** ** Claims *)

(** Loading a segment, in every run and whatever the memory subsystems answer:
    on success the page tables received exactly the segment's pages, in order,
    with the protection of its flags; and each page holds exactly the segment's
    image, the file bytes at the addresses the file backs and zero elsewhere. *)
Theorem load_segment_image ph rd t r :
  header_ok ph -> run (load_segment ph) t r ->
  (r = Expected tt -> mapped t = map (fun va => (va, flags_to_prot (p_flags ph))) (segment_pages ph)) /\
  (forall va i, va ∈ segment_pages ph -> 0 <= i < 4096 ->
     page_byte rd ph va i =
       if (p_vaddr ph <=? va + i) && (va + i <? p_vaddr ph + p_filesz ph)
       then rd (p_offset ph + (va + i - p_vaddr ph)) else 0) /\
  (forall fo po len, (fo, po, len) ∈ copied t ->
     p_offset ph <= fo /\ fo + len <= p_offset ph + p_filesz ph /\ 0 <= po /\ po + len <= 4096).
Proof.
  intros Hok Hrun. pose proof (proj1 (wlp_run _ _) (load_segment_maps ph Hok) t r Hrun) as [Hm Hc].
  pose proof Hok as (H1 & H2 & H3 & H4 & H5 & H6 & H7). split_and!.
  - intros ->. by apply Hm.
  - intros va i Hva Hi. destruct (segment_pages_range ph va Hok Hva) as [Hv0 Hv1].
    pose proof (copy_plan_spec ph va H1 H2 H3 Hv0 H5 H6 ltac:(lia)) as Hp. unfold page_byte.
    destruct (copy_plan ph va) as [[[fo po] len]|].
    + destruct Hp as (_ & _ & _ & _ & _ & Hp). destruct (Hp i Hi) as [Hiff Heq].
      destruct (Z.leb_spec po i), (Z.ltb_spec i (po + len)), (Z.leb_spec (p_vaddr ph) (va + i)),
        (Z.ltb_spec (va + i) (p_vaddr ph + p_filesz ph)); cbn [andb]; try done; try lia.
      f_equal. apply Heq. lia.
    + specialize (Hp i Hi). destruct (Z.leb_spec (p_vaddr ph) (va + i)),
        (Z.ltb_spec (va + i) (p_vaddr ph + p_filesz ph)); cbn [andb]; (done || lia).
  - intros fo po len Hin. destruct (Hc _ Hin) as (va & Hva & E).
    destruct (segment_pages_range ph va Hok Hva) as [Hv0 Hv1].
    pose proof (copy_plan_spec ph va H1 H2 H3 Hv0 H5 H6 ltac:(lia)) as Hp. rewrite E in Hp. lia.
Qed.

(** An environment in which everything succeeds: frames are handed out upwards. *)
Definition happy : environment call := fun past R c =>
  match c in call R return R with
  | read_image _ _ => tt
  | vm_map_fixed _ _ _ _ => Expected tt
  | vm_find _ => Some (7, 1)
  | vm_unmap _ _ => Expected tt
  | vm_space_try_charge_commit => true
  | vm_space_uncharge_commit => tt
  | pmm_alloc_zeroed => Expected (4096 * (100 + Z.of_nat (length past)))
  | frame_is_usable _ => true
  | pmm_free _ => tt
  | frame_ref _ => Expected 1
  | frame_release_pin _ => tt
  | frame_set_mapping_metadata _ _ _ _ => Expected tt
  | copy_n _ _ _ _ => tt
  | map_page _ _ _ => Expected tt
  | unmap_page _ => tt
  | sske _ => tt
  | reserve_page va => Some (va / 4096)
  | fill_slot _ _ => tt
  | clear_slot _ => tt
  | rmap_insert _ _ => Expected tt
  | set_user_sp _ => tt
  end.

(** A segment that starts and ends inside pages, with a zero-filled tail. *)
Definition demo_phdr : elf64_phdr := Phdr PT_LOAD 5 120 1048676 5000 9000.

Lemma load_segment_image_witness :
  mapped (exec happy [] (load_segment demo_phdr)).1 =
    [(1048576, prot_RX); (1052672, prot_RX); (1056768, prot_RX)] /\
  page_byte (fun i => i mod 251) demo_phdr 1052672 1003 = 5119 mod 251 /\
  page_byte (fun i => i mod 251) demo_phdr 1052672 1004 = 0.
Proof.
  destruct (load_segment_image demo_phdr (fun i => i mod 251) _ _
    ltac:(unfold header_ok, demo_phdr; simpl; lia) (exec_run happy (load_segment demo_phdr) []))
    as (Hm & Hb & _).
  split; [rewrite Hm by (vm_compute; reflexivity); vm_compute; reflexivity|].
  assert (Hin : 1052672 ∈ segment_pages demo_phdr).
  { replace (segment_pages demo_phdr) with [1048576; 1052672; 1056768] by (vm_compute; reflexivity).
    right. left. }
  split; (rewrite Hb; [vm_compute; reflexivity|exact Hin|lia]).
Defined.

(** C13: No run of the loader leaks.  Whatever the subsystems answer and however far
    the load gets, at the end every commit charge has been returned or belongs to
    a region, every frame pin has been dropped or belongs to a resident slot, and
    every frame has been freed or belongs to a slot, except frames the loader
    itself rejected.  The run is a sequence of complete loads of the first
    loadable headers, each of which keeps the region it mapped, followed by a
    rest: on success all loadable headers, at least one, were loaded and the rest
    maps the stack region and keeps it; on failure the rest has asked [vm_unmap]
    for exactly the regions it mapped (whether [vm_unmap] answers with an error is
    discarded by the code). *)
Theorem load_leaves_no_debt rd size t r :
  bytes rd -> run (load rd size) t r ->
  weigh w_commit t = 0 /\ weigh w_pin t = 0 /\ weigh w_frame t = weigh w_rejected t /\
  exists segs rest, loads t segs rest /\ segs `prefix_of` segments rd /\
    if has_value r then
      segs = segments rd /\ segs <> [] /\
      mapped_regions rest = [(stack_bottom, stack_size)] /\ unmapped_regions rest = []
    else mapped_regions rest = unmapped_regions rest.
Proof.
  intros Hb Hrun.
  destruct (proj1 (wlp_run _ _) (load_settled rd size Hb) t r Hrun) as ((H1 & H2 & H3) & Hrest). auto.
Qed.

(** A two-page executable image. *)
Fixpoint be_bytes (n : nat) (v : Z) : list Z :=
  match n with O => [] | S n' => be_bytes n' (v / 256) ++ [v mod 256] end.

Definition demo_image : list Z :=
  [127; 69; 76; 70; 2; 2; 1; 0; 0; 0; 0; 0; 0; 0; 0; 0] ++
  be_bytes 2 2 ++ be_bytes 2 22 ++ be_bytes 4 1 ++ be_bytes 8 1048676 ++ be_bytes 8 64 ++
  be_bytes 8 0 ++ be_bytes 4 0 ++ be_bytes 2 64 ++ be_bytes 2 56 ++ be_bytes 2 1 ++
  be_bytes 2 0 ++ be_bytes 2 0 ++ be_bytes 2 0 ++
  be_bytes 4 1 ++ be_bytes 4 5 ++ be_bytes 8 0 ++ be_bytes 8 1048576 ++ be_bytes 8 0 ++
  be_bytes 8 120 ++ be_bytes 8 5000 ++ be_bytes 8 4096.
Definition demo_rd (i : Z) : Z := nthZ 0 demo_image i.

Lemma demo_bytes : bytes demo_rd.
Proof.
  assert (H : Forall (fun b => 0 <= b < 256) demo_image).
  { apply (bool_decide_unpack _). vm_compute. exact I. }
  intros i. unfold demo_rd, nthZ. rewrite nth_lookup.
  destruct (demo_image !! Z.to_nat i) eqn:E; simpl; [|lia]. exact (Forall_lookup_1 _ _ _ _ H E).
Qed.

(** The frame of the third page cannot be pinned: the stack is given up, the
    segment is kept. *)
Definition unlucky : environment call := fun past R c =>
  match c in call R return R -> R with
  | frame_ref _ => fun d => if (length past <? 30)%nat then d else Unexpected (from_generic not_found)
  | _ => fun d => d
  end (happy past R c).

Lemma load_leaves_no_debt_witness :
  exists segs rest, (exec unlucky [] (load demo_rd 120)).2 = Unexpected (from_generic not_found) /\
    loads (exec unlucky [] (load demo_rd 120)).1 segs rest /\ segs `prefix_of` segments demo_rd /\
    mapped_regions rest = unmapped_regions rest /\
    weigh w_frame (exec unlucky [] (load demo_rd 120)).1 = 0.
Proof.
  destruct (load_leaves_no_debt demo_rd 120 _ _ demo_bytes (exec_run unlucky (load demo_rd 120) []))
    as (_ & _ & H3 & segs & rest & H4 & H5 & H6).
  assert (Er : (exec unlucky [] (load demo_rd 120)).2 = Unexpected (from_generic not_found))
    by (vm_compute; reflexivity).
  rewrite Er in H6. exists segs, rest. split; [exact Er|]. split; [exact H4|]. split; [exact H5|].
  split; [exact H6|]. rewrite H3. vm_compute. reflexivity.
Defined.

(** ** Bounds of the image *)

(** The ranges of the image a trace reads: headers and copied bytes. *)
Definition image_reads (t : list (event call)) : list (Z * Z) :=
  omap (fun e => match e with
    | Ev c r =>
        match c with
        | read_image off len => Some (off, len)
        | copy_n fo phys po len => Some (fo, len)
        | _ => None
        end
    end) t.

Definition within (size : Z) (t : list (event call)) : Prop :=
  forall off len, (off, len) ∈ image_reads t -> 0 <= off /\ off + len <= size.

Lemma within_nil size : within size [].
Proof. intros off len H. by apply not_elem_of_nil in H. Qed.

Lemma within_app size t t' : within size t -> within size t' -> within size (t ++ t').
Proof.
  intros H H' off len. unfold image_reads. rewrite omap_app, elem_of_app. intros [Hin|Hin]; eauto.
Qed.

Lemma within_read size off len t : 0 <= off -> off + len <= size -> within size t ->
  within size (Ev (read_image off len) tt :: t).
Proof.
  intros H0 H1 Ht o l. cbn. rewrite elem_of_cons. intros [[= -> ->]|Hin]; [done|]. by apply Ht.
Qed.

(** Without header accesses, the reads are the copies. *)
Lemma image_reads_acts t : image_reads (acts t) = map (fun c => (c.1.1, c.2)) (copied t).
Proof.
  induction t as [|[R c r] t IH]; [done|].
  destruct c; first [exact IH|cbn; f_equal; exact IH].
Qed.

Lemma within_copied size t : acts t = t ->
  (forall fo po len, (fo, po, len) ∈ copied t -> 0 <= fo /\ fo + len <= size) -> within size t.
Proof.
  intros Ha Hc off len. rewrite <- Ha, image_reads_acts.
  intros ([[fo po] l] & [= -> ->] & Hin)%list_elem_of_fmap. by apply (Hc fo po l).
Qed.

Lemma load_segment_acts ph : wlp (load_segment ph) (fun t _ => acts t = t).
Proof.
  eapply wlp_mono; [|apply load_segment_settled]. intros t r. apply kept_acts.
Qed.

Lemma wlp_and {E A} (p : prog E A) Q Q' :
  wlp p Q -> wlp p Q' -> wlp p (fun t a => Q t a /\ Q' t a).
Proof. rewrite !wlp_run. intros H H' t a Hr. split; auto. Qed.

Lemma load_segment_within ph size : header_ok ph -> p_offset ph + p_filesz ph <= size ->
  wlp (load_segment ph) (fun t _ => within size t).
Proof.
  intros Hok Hle. pose proof Hok as (H1 & H2 & H3 & H4 & H5 & H6 & H7).
  eapply wlp_mono; [|apply (wlp_and _ _ _ (load_segment_acts ph) (load_segment_maps ph Hok))].
  intros t r [Ha [_ Hc]]. apply (within_copied _ _ Ha). intros fo po len Hin.
  destruct (Hc _ Hin) as (va & Hva & E).
  destruct (segment_pages_range ph va Hok Hva) as [Hv0 Hv1].
  pose proof (copy_plan_spec ph va H1 H2 H3 Hv0 H5 H6 ltac:(lia)) as Hp. rewrite E in Hp. lia.
Qed.

Lemma load_headers_reads n rd size phoff i loaded :
  0 <= phoff -> 0 <= i -> phoff + (i + Z.of_nat n) * PHDR_SIZE <= size ->
  (forall k, i <= k < i + Z.of_nat n -> header_ok (read_phdr rd (phoff + k * PHDR_SIZE))) ->
  wlp (load_headers rd size phoff i loaded n) (fun t r => within size t).
Proof.
  intros H0. revert i loaded. induction n as [|n IH]; intros i loaded Hi Hle Hok'; cbn [load_headers].
  { apply within_nil. }
  assert (Hrest : forall l, wlp (load_headers rd size phoff (i + 1) l n) (fun t r => within size t))
    by (intros l; apply IH; [lia|lia|intros k Hk; apply Hok'; lia]).
  pose proof (Hok' i ltac:(lia)) as Hok. clear Hok' IH.
  cbn [wlp mbind prog_mbind prog_bind call_]. intros [].
  assert (Hread : forall t, within size t ->
    within size (Ev (read_image (phoff + i * PHDR_SIZE) PHDR_SIZE) tt :: t)).
  { intros t. apply within_read; unfold PHDR_SIZE in *; nia. }
  apply (wlp_mono _ (fun t _ => within size t)); [intros t _; apply Hread|]. clear Hread.
  destruct (negb _); [apply Hrest|]. destruct (_ =? 0); [apply Hrest|].
  set (ph := read_phdr rd (phoff + i * PHDR_SIZE)) in *.
  destruct (Z.ltb_spec size (u64 (p_offset ph + p_filesz ph))) as [|Hseg]; [apply within_nil|].
  pose proof Hok as (H1 & H2 & H3 & H4 & H5 & H6 & H7).
  rewrite u64_small in Hseg by (unfold fits; lia).
  change (prog_bind ?f ?p) with (p ≫= f).
  apply wlp_bind. eapply wlp_mono; [|apply (load_segment_within ph size Hok Hseg)].
  intros t [[]|e] Ht; [|cbn; by rewrite app_nil_r].
  eapply wlp_mono; [|apply Hrest]. intros t' r'. by apply within_app.
Qed.

(** An environment-independent fact of the stack: it copies nothing. *)
Lemma setup_user_stack_copies : wlp setup_user_stack (fun t _ => copied t = []).
Proof.
  unfold setup_user_stack. cbn [wlp mbind prog_mbind prog_bind call_].
  intros [[]|e]; cbn [wlp mbind prog_mbind prog_bind call_]; [|done].
  intros rgn. change (prog_bind ?f ?p) with (p ≫= f). apply wlp_bind.
  apply (wlp_mono _ (fun t _ => copied t = [])).
  - intros t r Ht. destruct r; cbn; rewrite app_nil_r; exact Ht.
  - destruct rgn as [rgn|]; [|cbn; by intros ?].
    eapply wlp_mono; [|apply (page_loop_maps prot_RW (fun _ => None));
      [intros va; apply install_page_maps|reflexivity]].
    intros t r [_ Hc]. cbn. destruct (copied t) as [|c l] eqn:E; [done|].
    destruct (Hc c) as (k & _ & [=]). left.
Qed.

Lemma setup_user_stack_within size : wlp setup_user_stack (fun t _ => within size t).
Proof.
  eapply wlp_mono; [|apply (wlp_and _ _ _ setup_user_stack_settled setup_user_stack_copies)].
  intros t r [Hk Hc]. apply within_copied; [by eapply kept_acts|].
  rewrite Hc. intros ??? H. by apply not_elem_of_nil in H.
Qed.

(** C38: With headers whose extents are representable, the loader reads the image only
    within its [elf_size] bytes, in every run, also one that fails: the ELF
    header, every program header it looks at and every copied range lie inside
    it. *)
Theorem load_reads_in_bounds rd size t r :
  bytes rd -> fits 64 size ->
  e_phoff (read_ehdr rd) + e_phnum (read_ehdr rd) * PHDR_SIZE < 2 ^ 64 ->
  (forall k, 0 <= k < e_phnum (read_ehdr rd) ->
     header_ok (read_phdr rd (e_phoff (read_ehdr rd) + k * PHDR_SIZE))) ->
  run (load rd size) t r ->
  forall off len, (off, len) ∈ image_reads t -> 0 <= off /\ off + len <= size.
Proof.
  intros Hb Hs Hph Hok Hrun. change (within size t). revert t r Hrun. apply wlp_run.
  unfold load. destruct (Z.ltb_spec size EHDR_SIZE) as [|H64]; [apply within_nil|].
  cbn [wlp mbind prog_mbind prog_bind call_]. intros [].
  apply (wlp_mono _ (fun t _ => within size t)).
  { intros t _. apply within_read; [done|unfold EHDR_SIZE in *; lia]. }
  destruct (negb _); [apply within_nil|].
  destruct (Z.ltb_spec size (u64 (e_phoff (read_ehdr rd) + e_phnum (read_ehdr rd) * PHDR_SIZE))) as [|Hle];
    [apply within_nil|].
  pose proof (field_fits rd 56 2 Hb) as Hf1. pose proof (field_fits rd 32 8 Hb) as Hf2.
  rewrite u64_small in Hle by (unfold fits, PHDR_SIZE in *; cbn [read_ehdr e_phoff e_phnum] in *; lia).
  change (prog_bind ?f ?p) with (p ≫= f).
  apply wlp_bind. eapply wlp_mono; [|apply load_headers_reads;
    [cbn [read_ehdr e_phoff]; lia|lia|cbn [read_ehdr e_phoff e_phnum] in *; rewrite Z2Nat.id; lia|intros k Hk; apply Hok;
    cbn [read_ehdr e_phnum] in *; lia]]. intros t r Ht.
  destruct r as [loaded|e]; [|cbn; by rewrite app_nil_r].
  destruct (loaded =? 0); [cbn; by rewrite app_nil_r|].
  apply wlp_bind. eapply wlp_mono; [|apply (setup_user_stack_within size)]. intros t2 r2 Ht2.
  destruct r2 as [sp|e]; cbn; [intros []|]; apply within_app; try done.
  - apply within_app; [done|]. apply within_nil.
  - by rewrite app_nil_r.
Qed.

Lemma load_reads_in_bounds_witness :
  image_reads (exec unlucky [] (load demo_rd 120)).1 = [(0, 64); (64, 56); (0, 120)] /\
  forall off len, (off, len) ∈ image_reads (exec unlucky [] (load demo_rd 120)).1 ->
    0 <= off /\ off + len <= 120.
Proof.
  pose proof (load_reads_in_bounds demo_rd 120 _ _ demo_bytes
    ltac:(vm_compute; split; congruence) ltac:(vm_compute; reflexivity)
    ltac:(intros k Hk; change (e_phnum (read_ehdr demo_rd)) with 1 in Hk;
          assert (k = 0) as -> by lia; vm_compute; repeat split; congruence)
    (exec_run unlucky (load demo_rd 120) [])) as H.
  split; [vm_compute; reflexivity|exact H].
Defined.

(** Both bound checks of [load] add in 64 bits and can wrap.  A program-header
    table at the top of the address space is accepted for every image, and so is a
    segment whose file range wraps; the first page of such a segment is then read
    from 4096 bytes in front of the image. *)
Theorem elf_bound_checks_wrap :
  (forall size, 64 <= size -> (size <? u64 ((2 ^ 64 - PHDR_SIZE) + 1 * PHDR_SIZE)) = false) /\
  exists ph, p_memsz ph <> 0 /\
    (forall size, 4096 <= size -> (size <? u64 (p_offset ph + p_filesz ph)) = false) /\
    copy_plan ph (p_vaddr ph) = Some (2 ^ 64 - 4096, 0, 4096).
Proof.
  split.
  - intros size Hs. change (u64 ((2 ^ 64 - PHDR_SIZE) + 1 * PHDR_SIZE)) with 0. apply Z.ltb_ge. lia.
  - exists (Phdr PT_LOAD 5 (2 ^ 64 - 4096) 1048576 8192 8192). split; [discriminate|]. split.
    + intros size Hs. change (u64 _) with 4096. by apply Z.ltb_ge.
    + vm_compute. reflexivity.
Qed.

(** A frame that fails the loader's own validation is dropped without being freed:
    the run that allocates it and sees it rejected ends there. *)
Theorem rejected_frame_leaks phys :
  exists t, run alloc_user_page t (Unexpected (from_memory mem_invalid_address)) /\
    t = [Ev pmm_alloc_zeroed (Expected phys); Ev (frame_is_usable phys) false] /\
    weigh w_frame t = 1.
Proof.
  eexists. split; [|split; [reflexivity|reflexivity]].
  apply (run_do _ _ _ (Expected phys)). cbn.
  apply (run_do _ _ _ false). rewrite andb_false_r. constructor.
Qed.
