(* ===== verification/MinHeap.v ===== *)
(** * The fixed-capacity binary min-heap ([src/lib/min_heap.cxxm])

    [min_heap<T, Capacity>] is an array of [Capacity] elements and a count.
    The comparator [Less] is an argument of every operation, as in the code;
    what the operations need of it is the class [WeakOrder].  Element
    indices are [nat]: [left_of] and [right_of] stay below [2 * Capacity + 2],
    which is far below [2^32] for the one instance the kernel has
    ([Capacity = 256]), and [parent_of] is only evaluated at positive
    indices.

    The heap order and the permutation of the elements are proved for
    [push], [pop] and [remove]; [peek] is then the minimum. *)

From S2P Require Import Prelude.

#[local] Open Scope nat_scope.

(** What a comparator has to be: a strict weak order.  [a] is not after [b]
    when [less b a] is false. *)
Definition leq {A} (less : A -> A -> bool) (a b : A) : Prop := less b a = false.

Class WeakOrder {A} (less : A -> A -> bool) : Prop := {
  less_asym : forall a b, less a b = true -> leq less a b;
  leq_trans : forall a b c, leq less a b -> leq less b c -> leq less a c
}.

Record min_heap (A : Type) := MinHeap { entries : list A; m_count : nat }.
Arguments MinHeap {A} entries m_count.
Arguments entries {A} _.
Arguments m_count {A} _.

Definition parent_of (i : nat) : nat := (i - 1) / 2.
Definition left_of (i : nat) : nat := 2 * i + 1.
Definition right_of (i : nat) : nat := 2 * i + 2.

Section heap.
  Context {A : Type} `{EqDecision A, Inhabited A} (Capacity : nat).
  (** [T{}]. *)
  Abbreviation null := (inhabitant : A).

Definition size (h : min_heap A) : nat := m_count h.
Definition empty (h : min_heap A) : bool := m_count h =? 0.
Definition peek (h : min_heap A) : A :=
  if 0 <? m_count h then entries h !!! 0 else null.

(** [tmp = entries[i]; entries[i] = entries[j]; entries[j] = tmp]. *)
Definition swap (es : list A) (i j : nat) : list A :=
  <[j := es !!! i]> (<[i := es !!! j]> es).

(** The [while] loop of [sift_up]; [None] is running out of fuel. *)
Fixpoint sift_up (less : A -> A -> bool) (fuel : nat) (es : list A) (idx : nat)
    : option (list A) :=
  match fuel with
  | O => None
  | S fuel =>
      if 0 <? idx then
        let p := parent_of idx in
        if negb (less (es !!! idx) (es !!! p)) then Some es
        else sift_up less fuel (swap es p idx) p
      else Some es
  end.

(** The child (or [idx] itself) the body of [sift_down] selects. *)
Definition smallest_of (less : A -> A -> bool) (count : nat) (es : list A)
    (idx : nat) : nat :=
  let l := left_of idx in
  let r := right_of idx in
  let smallest := idx in
  let smallest :=
    if (l <? count) && less (es !!! l) (es !!! smallest) then l else smallest in
  if (r <? count) && less (es !!! r) (es !!! smallest) then r else smallest.

Fixpoint sift_down (less : A -> A -> bool) (fuel count : nat) (es : list A)
    (idx : nat) : option (list A) :=
  match fuel with
  | O => None
  | S fuel =>
      let smallest := smallest_of less count es idx in
      if smallest =? idx then Some es
      else sift_down less fuel count (swap es idx smallest) smallest
  end.

Definition push (less : A -> A -> bool) (h : min_heap A) (elem : A)
    : option (bool * min_heap A) :=
  if Capacity <=? m_count h then Some (false, h)
  else
    let idx := m_count h in
    let es := <[idx := elem]> (entries h) in
    es ← sift_up less (S idx) es idx;
    Some (true, MinHeap es (S idx)).

Definition pop (less : A -> A -> bool) (h : min_heap A) : option (min_heap A) :=
  if m_count h =? 0 then Some h
  else
    let c := m_count h - 1 in
    if 0 <? c then
      let es := <[0 := entries h !!! c]> (entries h) in
      let es := <[c := null]> es in
      es ← sift_down less (S c) c es 0;
      Some (MinHeap es c)
    else Some (MinHeap (<[0 := null]> (entries h)) c).

(** The linear scan of [remove]: the first position holding [elem], or
    [m_count]. *)
Fixpoint scan (es : list A) (elem : A) (i n : nat) : nat :=
  match n with
  | O => i
  | S n => if decide (es !!! i = elem) then i else scan es elem (S i) n
  end.

Definition remove (less : A -> A -> bool) (h : min_heap A) (elem : A)
    : option (bool * min_heap A) :=
  let pos := scan (entries h) elem 0 (m_count h) in
  if pos =? m_count h then Some (false, h)
  else
    let c := m_count h - 1 in
    if pos <? c then
      let es := <[pos := entries h !!! c]> (entries h) in
      let es := <[c := null]> es in
      es ← (if (0 <? pos) && less (es !!! pos) (es !!! parent_of pos)
            then sift_up less (S pos) es pos
            else sift_down less (S c) c es pos);
      Some (true, MinHeap es c)
    else Some (true, MinHeap (<[pos := null]> (entries h)) c).

(** ** The invariant *)

Definition elements (h : min_heap A) : list A := take (m_count h) (entries h).

Definition ordered (less : A -> A -> bool) (n : nat) (es : list A) : Prop :=
  forall i, 0 < i < n -> leq less (es !!! parent_of i) (es !!! i).

Record heap_ok (less : A -> A -> bool) (h : min_heap A) : Prop := {
  ok_length : length (entries h) = Capacity;
  ok_count : m_count h <= Capacity;
  ok_order : ordered less (m_count h) (entries h);
  ok_clear : forall i, m_count h <= i < Capacity -> entries h !!! i = null
}.

(** ** Arithmetic of the tree *)

Lemma parent_lt i : 0 < i -> parent_of i < i.
Proof. intros Hi. unfold parent_of. apply Nat.Div0.div_lt_upper_bound. lia. Qed.

Lemma parent_inv i p : 0 < i ->
  parent_of i = p <-> i = left_of p \/ i = right_of p.
Proof.
  unfold parent_of, left_of, right_of. intros Hi.
  pose proof (Nat.div_mod_eq (i - 1) 2).
  pose proof (Nat.mod_upper_bound (i - 1) 2). lia.
Qed.

(** ** Swapping *)

Lemma swap_length es i j : length (swap es i j) = length es.
Proof. unfold swap. by rewrite !length_insert. Qed.

Lemma swap_lookup es i j k : i < length es -> j < length es ->
  swap es i j !!! k =
    if decide (k = j) then es !!! i
    else if decide (k = i) then es !!! j else es !!! k.
Proof.
  intros Hi Hj. unfold swap. destruct (decide (k = j)) as [->|Hkj].
  { rewrite list_lookup_total_insert_eq; [done|]. by rewrite length_insert. }
  rewrite list_lookup_total_insert_ne by done.
  destruct (decide (k = i)) as [->|Hki].
  - by rewrite list_lookup_total_insert_eq.
  - by rewrite list_lookup_total_insert_ne.
Qed.

(** The transposition of two positions. *)
Definition transpose (i j k : nat) : nat :=
  if decide (k = j) then i else if decide (k = i) then j else k.

Lemma transpose_invol i j k : transpose i j (transpose i j k) = k.
Proof. unfold transpose. repeat case_decide; congruence. Qed.

Lemma swap_lookup_opt es i j k : i < length es -> j < length es ->
  swap es i j !! k = es !! transpose i j k.
Proof.
  intros Hi Hj. unfold swap, transpose.
  destruct (decide (k = j)) as [->|Hkj].
  { rewrite list_lookup_insert_eq by (by rewrite length_insert).
    symmetry. by apply list_lookup_lookup_total_lt. }
  rewrite list_lookup_insert_ne by done.
  destruct (decide (k = i)) as [->|Hki].
  - rewrite list_lookup_insert_eq by done.
    symmetry. by apply list_lookup_lookup_total_lt.
  - by rewrite list_lookup_insert_ne.
Qed.

Lemma swap_take es i j n : i < n -> j < n -> n <= length es ->
  take n (swap es i j) ≡ₚ take n es.
Proof.
  intros Hi Hj Hn. apply Permutation_inj. split.
  { rewrite !length_take, swap_length. done. }
  exists (transpose i j). split.
  { intros x y Hxy. rewrite <-(transpose_invol i j x), <-(transpose_invol i j y).
    by rewrite Hxy. }
  intros k. destruct (decide (k < n)) as [Hk|Hk].
  - rewrite lookup_take_lt by done. rewrite swap_lookup_opt by lia.
    rewrite lookup_take_lt; [done|]. unfold transpose. repeat case_decide; lia.
  - rewrite !lookup_take_ge; [done| |lia]. unfold transpose.
    repeat case_decide; lia.
Qed.

(** ** Sifting restores the order *)

Section order.
  Context (less : A -> A -> bool) `{!WeakOrder less}.

(** Only the edge above [idx] may be wrong, and moving [idx]'s parent below
    it stays in order. *)
Definition up_inv (n : nat) (es : list A) (idx : nat) : Prop :=
  (forall i, 0 < i < n -> i <> idx -> leq less (es !!! parent_of i) (es !!! i)) /\
  (forall i, 0 < i < n -> 0 < idx -> parent_of i = idx ->
     leq less (es !!! parent_of idx) (es !!! i)).

(** Only the edges below [idx] may be wrong. *)
Definition down_inv (n : nat) (es : list A) (idx : nat) : Prop :=
  (forall i, 0 < i < n -> parent_of i <> idx ->
     leq less (es !!! parent_of i) (es !!! i)) /\
  (forall i, 0 < i < n -> 0 < idx -> parent_of i = idx ->
     leq less (es !!! parent_of idx) (es !!! i)).

(** What sifting keeps: the length, the elements below [n] up to order and
    everything above [n]. *)
Definition same_cells (n : nat) (es es' : list A) : Prop :=
  length es' = length es /\ take n es' ≡ₚ take n es /\
  forall k, n <= k -> es' !!! k = es !!! k.

Lemma same_cells_refl n es : same_cells n es es.
Proof. done. Qed.

Lemma same_cells_swap n es es' i j : i < n -> j < n -> n <= length es ->
  same_cells n (swap es i j) es' -> same_cells n es es'.
Proof.
  intros Hi Hj Hn (Hl & Hp & Hk). rewrite swap_length in Hl. split; [done|].
  split; [by rewrite Hp, swap_take|].
  intros k Hkn. rewrite (Hk k Hkn), swap_lookup by lia.
  repeat case_decide; lia || done.
Qed.

Lemma leq_refl a : leq less a a.
Proof.
  unfold leq. destruct (less a a) eqn:E; [|done].
  pose proof (less_asym a a E) as H0. unfold leq in H0. congruence.
Qed.

Lemma up_inv_step n es idx : 0 < idx < n -> n <= length es ->
  up_inv n es idx -> less (es !!! idx) (es !!! parent_of idx) = true ->
  up_inv n (swap es (parent_of idx) idx) (parent_of idx).
Proof.
  intros Hidx Hn [Hord Hgr] Hless. pose proof (parent_lt idx ltac:(lia)) as Hp.
  set (p := parent_of idx) in *.
  split.
  - intros i Hi Hip. rewrite !swap_lookup by lia.
    pose proof (parent_lt i ltac:(lia)) as Hpi.
    destruct (decide (i = idx)) as [->|Hne].
    + fold p. rewrite decide_False by lia. rewrite decide_True by done.
      by apply less_asym.
    + destruct (decide (parent_of i = idx)) as [Hpidx|Hpidx].
      { rewrite decide_False by done. apply Hgr; [lia..|done]. }
      rewrite (decide_False (P := i = p)) by done.
      destruct (decide (parent_of i = p)) as [Hpp|Hpp].
      * apply leq_trans with (es !!! p); [by apply less_asym|].
        rewrite <-Hpp. apply Hord; lia.
      * apply Hord; lia.
  - intros i Hi Hp0 Hip. rewrite !swap_lookup by lia.
    pose proof (parent_lt p ltac:(lia)) as Hpp.
    rewrite (decide_False (P := parent_of p = idx)) by lia.
    rewrite (decide_False (P := parent_of p = p)) by lia.
    destruct (decide (i = idx)) as [->|Hne]; [apply Hord; lia|].
    pose proof (parent_lt i ltac:(lia)) as Hpi.
    rewrite decide_False by lia.
    apply leq_trans with (es !!! p); [apply Hord; lia|].
    rewrite <-Hip at 1. apply Hord; lia.
Qed.

(** [sift_up] terminates within [idx + 1] iterations and repairs the edge
    above [idx]. *)
Lemma sift_up_correct fuel n es idx : idx < fuel -> idx < n -> n <= length es ->
  up_inv n es idx ->
  exists es', sift_up less fuel es idx = Some es' /\ same_cells n es es' /\
    ordered less n es'.
Proof.
  revert es idx. induction fuel as [|fuel IH]; intros es idx Hf Hidx Hn Hinv; [lia|].
  cbn [sift_up]. destruct (0 <? idx) eqn:E0; cycle 1.
  { apply Nat.ltb_ge in E0. exists es. split; [done|]. split; [done|].
    intros i Hi. apply Hinv; lia. }
  apply Nat.ltb_lt in E0. pose proof (parent_lt idx E0) as Hp.
  destruct (less (es !!! idx) (es !!! parent_of idx)) eqn:E; cbn [negb]; cycle 1.
  { exists es. split; [done|]. split; [done|]. intros i Hi.
    destruct (decide (i = idx)) as [->|]; [exact E|]. by apply Hinv. }
  destruct (IH (swap es (parent_of idx) idx) (parent_of idx)) as (es' & -> & Hc & Ho).
  - lia.
  - lia.
  - rewrite swap_length. lia.
  - apply up_inv_step; [lia|lia|done|done].
  - exists es'. split; [done|]. split; [|done].
    eapply same_cells_swap; [| | |exact Hc]; lia.
Qed.

(** The three outcomes of the selection in [sift_down]. *)
Lemma smallest_of_spec n es idx :
  let s := smallest_of less n es idx in
  (forall i, 0 < i < n -> parent_of i = idx -> leq less (es !!! s) (es !!! i)) /\
  (s = idx \/ (idx < s < n /\ parent_of s = idx /\
               less (es !!! s) (es !!! idx) = true)).
Proof.
  cbn zeta. unfold smallest_of.
  set (l := left_of idx). set (r := right_of idx).
  set (s1 := if (l <? n) && less (es !!! l) (es !!! idx) then l else idx).
  assert (Hs1 : (l < n -> leq less (es !!! s1) (es !!! l)) /\
    leq less (es !!! s1) (es !!! idx) /\
    (s1 = idx \/ (s1 = l /\ l < n /\ less (es !!! l) (es !!! idx) = true))).
  { subst s1. destruct (l <? n) eqn:El; cbn [andb].
    - apply Nat.ltb_lt in El.
      destruct (less (es !!! l) (es !!! idx)) eqn:E.
      + split; [intros _; apply leq_refl|]. split; [by apply less_asym|]. by right.
      + split; [by intros _|]. split; [apply leq_refl|]. by left.
    - apply Nat.ltb_ge in El. split; [lia|]. split; [apply leq_refl|]. by left. }
  destruct Hs1 as (Hl & Hi & Hc).
  assert (Hpl : parent_of l = idx) by (apply parent_inv; subst l; unfold left_of; lia).
  assert (Hpr : parent_of r = idx) by (apply parent_inv; subst r; unfold right_of; lia).
  assert (Hidx : idx < l /\ idx < r) by (subst l r; unfold left_of, right_of; lia).
  destruct (r <? n) eqn:Er; cbn [andb]; [apply Nat.ltb_lt in Er|apply Nat.ltb_ge in Er];
    [destruct (less (es !!! r) (es !!! s1)) eqn:E|].
  - split.
    + intros i Hin Hp. apply parent_inv in Hp as [-> | ->]; [|apply leq_refl|lia].
      apply leq_trans with (es !!! s1); [by apply less_asym|]. apply Hl. fold l in Hin; lia.
    + right. split; [lia|]. split; [done|].
      destruct (less (es !!! r) (es !!! idx)) eqn:E2; [done|].
      assert (leq less (es !!! s1) (es !!! r)) as H1.
      { apply leq_trans with (es !!! idx); [done|exact E2]. }
      unfold leq in H1. congruence.
  - split.
    + intros i Hin Hp. apply parent_inv in Hp as [-> | ->]; [|exact E|lia].
      apply Hl. fold l in Hin; lia.
    + destruct Hc as [->|(-> & ? & ?)]; [by left|right]. split; [lia|done].
  - split.
    + intros i Hin Hp. apply parent_inv in Hp as [-> | ->];
        [apply Hl; fold l in Hin; lia|fold r in Hin; lia|lia].
    + destruct Hc as [->|(-> & ? & ?)]; [by left|right]. split; [lia|done].
Qed.

Lemma down_inv_step n es idx s : idx < s < n -> n <= length es ->
  parent_of s = idx -> down_inv n es idx ->
  less (es !!! s) (es !!! idx) = true ->
  (forall i, 0 < i < n -> parent_of i = idx -> leq less (es !!! s) (es !!! i)) ->
  down_inv n (swap es idx s) s.
Proof.
  intros Hs Hn Hps [Hord Hgr] Hless Hmin. split.
  - intros i Hi Hpi. rewrite !swap_lookup by lia.
    rewrite (decide_False (P := parent_of i = s)) by done.
    destruct (decide (i = s)) as [->|His].
    { rewrite decide_True by done. by apply less_asym. }
    destruct (decide (parent_of i = idx)) as [Hpx|Hpx].
    + pose proof (parent_lt i ltac:(lia)). rewrite decide_False by lia.
      apply Hmin; [lia|done].
    + destruct (decide (i = idx)) as [->|Hix]; [|apply Hord; [lia|done]].
      apply Hgr; [lia|lia|done].
  - intros i Hi Hs0 Hpi. rewrite !swap_lookup by lia. rewrite Hps.
    pose proof (parent_lt i ltac:(lia)).
    rewrite (decide_False (P := idx = s)) by lia. rewrite decide_True by done.
    rewrite decide_False by lia. rewrite decide_False by lia.
    rewrite <-Hpi. apply Hord; lia.
Qed.

(** [sift_down] terminates within [count - idx + 1] iterations and repairs
    the edges below [idx]. *)
Lemma sift_down_correct fuel n es idx : n - idx < fuel -> idx < n -> n <= length es ->
  down_inv n es idx ->
  exists es', sift_down less fuel n es idx = Some es' /\ same_cells n es es' /\
    ordered less n es'.
Proof.
  revert es idx. induction fuel as [|fuel IH]; intros es idx Hf Hidx Hn Hinv; [lia|].
  cbn [sift_down]. pose proof (smallest_of_spec n es idx) as Hsm. cbn zeta in Hsm.
  set (s := smallest_of less n es idx) in *. destruct Hsm as [Hmin Hcase].
  destruct (s =? idx) eqn:Es.
  { apply Nat.eqb_eq in Es. rewrite Es in Hmin. exists es. split; [done|].
    split; [done|]. intros i Hi.
    destruct (decide (parent_of i = idx)) as [Hp|Hp]; [|by apply Hinv].
    rewrite Hp. by apply Hmin. }
  apply Nat.eqb_neq in Es. destruct Hcase as [|(Hs & Hps & Hless)]; [done|].
  destruct (IH (swap es idx s) s) as (es' & -> & Hc & Ho).
  - lia.
  - lia.
  - rewrite swap_length. lia.
  - by apply down_inv_step.
  - exists es'. split; [done|]. split; [|done].
    eapply same_cells_swap; [| | |exact Hc]; lia.
Qed.

(** ** The operations *)

Lemma ordered_min n es i : ordered less n es -> i < n -> leq less (es !!! 0) (es !!! i).
Proof.
  intros Hord. induction i as [i IH] using lt_wf_ind. intros Hi.
  destruct (decide (i = 0)) as [->|Hi0]; [apply leq_refl|].
  pose proof (parent_lt i ltac:(lia)).
  apply leq_trans with (es !!! parent_of i); [apply IH; lia|apply Hord; lia].
Qed.

Lemma elements_length h : heap_ok less h -> length (elements h) = m_count h.
Proof. intros Hok. unfold elements. rewrite length_take, (ok_length _ _ Hok).
  pose proof (ok_count _ _ Hok). lia. Qed.

Lemma elem_of_elements h x : heap_ok less h ->
  x ∈ elements h <-> exists i, i < m_count h /\ entries h !!! i = x.
Proof.
  intros Hok. unfold elements. rewrite list_elem_of_lookup.
  pose proof (ok_count _ _ Hok). pose proof (ok_length _ _ Hok). split.
  - intros [i Hi]. apply lookup_take_Some in Hi as [Hi ?].
    exists i. split; [done|]. by apply list_lookup_total_correct.
  - intros (i & Hi & <-). exists i. rewrite lookup_take_lt by done.
    apply list_lookup_lookup_total_lt. lia.
Qed.

(** [peek] is an element no element precedes. *)
Lemma peek_minimum h : heap_ok less h -> 0 < m_count h ->
  peek h ∈ elements h /\ forall x, x ∈ elements h -> leq less (peek h) x.
Proof.
  intros Hok Hc. unfold peek. rewrite (proj2 (Nat.ltb_lt _ _) Hc). split.
  - apply elem_of_elements; [done|]. by exists 0.
  - intros x Hx. apply elem_of_elements in Hx as (i & Hi & <-); [|done].
    by apply (ordered_min (m_count h)); [apply ok_order|].
Qed.

Lemma push_correct h x : heap_ok less h ->
  (m_count h = Capacity /\ push less h x = Some (false, h)) \/
  (m_count h < Capacity /\ exists h', push less h x = Some (true, h') /\
     heap_ok less h' /\ elements h' ≡ₚ x :: elements h).
Proof.
  intros Hok. destruct Hok as [Hlen Hcnt Hord Hclr]. unfold push.
  destruct (Capacity <=? m_count h) eqn:E.
  { apply Nat.leb_le in E. left. split; [lia|done]. }
  apply Nat.leb_gt in E. right. split; [done|].
  set (c := m_count h) in *. set (es := <[c:=x]> (entries h)).
  assert (Hles : length es = Capacity) by (subst es; by rewrite length_insert).
  destruct (sift_up_correct (S c) (S c) es c) as (es' & -> & (Hl & Hp & Hk) & Ho).
  - lia.
  - lia.
  - lia.
  - split.
    + intros i Hi Hic. subst es. pose proof (parent_lt i ltac:(lia)).
      rewrite !list_lookup_total_insert_ne by lia. apply Hord. lia.
    + intros i Hi Hc0 Hpi. pose proof (parent_lt i ltac:(lia)). lia.
  - cbn [mbind option_bind]. eexists. split; [done|]. split.
    + split; cbn [entries m_count]; [lia|lia|done|].
      intros i Hi. rewrite Hk by lia. subst es.
      rewrite list_lookup_total_insert_ne by lia. apply Hclr. lia.
    + unfold elements; cbn [entries m_count]. fold c. rewrite Hp. subst es.
      rewrite (take_S_r _ _ x) by (apply list_lookup_insert_eq; lia).
      rewrite take_insert_ge by lia. by rewrite Permutation_app_comm.
Qed.

(** Overwriting a position below the last with the last element removes the
    overwritten element. *)
Lemma take_overwrite (es : list A) c pos : pos < c -> c < length es ->
  es !!! pos :: take c (<[c := null]> (<[pos := es !!! c]> es)) ≡ₚ take (S c) es.
Proof.
  intros Hpos Hc. rewrite take_insert_ge by lia. rewrite take_insert_lt by done.
  rewrite (take_S_r es c (es !!! c)) by (apply list_lookup_lookup_total_lt; lia).
  assert (Hx : take c es !! pos = Some (es !!! pos)).
  { rewrite lookup_take_lt by done. apply list_lookup_lookup_total_lt. lia. }
  revert Hx. generalize (es !!! pos), (es !!! c), (take c es). intros x y t Hx.
  apply list_elem_of_split_length in Hx as (t1 & t2 & -> & ->).
  rewrite <-(Nat.add_0_r (length t1)), insert_app_r. cbn [insert list_insert].
  rewrite <-app_assoc. cbn [app]. rewrite <-(Permutation_middle t1 (t2 ++ [y]) x). apply perm_skip.
  apply Permutation_app_head. by rewrite Permutation_cons_append.
Qed.

(** The shared tail of [pop] and [remove]: the vacated position may be sifted
    either way. *)
Lemma overwrite_inv h c pos : heap_ok less h -> m_count h = S c -> pos < c ->
  let es := <[c := null]> (<[pos := entries h !!! c]> (entries h)) in
  (0 < pos -> less (es !!! pos) (es !!! parent_of pos) = true -> up_inv c es pos) /\
  (0 < pos -> less (es !!! pos) (es !!! parent_of pos) = false -> down_inv c es pos) /\
  (pos = 0 -> down_inv c es pos).
Proof.
  intros Hok Hc Hpos es. pose proof (ok_order _ _ Hok) as Hord.
  pose proof (ok_length _ _ Hok) as Hlen. pose proof (ok_count _ _ Hok) as Hcnt.
  rewrite Hc in Hord, Hcnt.
  assert (Hes : forall k, k < c -> k <> pos -> es !!! k = entries h !!! k).
  { intros k Hk Hkp. subst es. by rewrite !list_lookup_total_insert_ne by lia. }
  assert (Hesp : es !!! pos = entries h !!! c).
  { subst es. rewrite list_lookup_total_insert_ne by lia.
    apply list_lookup_total_insert_eq. lia. }
  assert (Hedge : forall i, 0 < i < c -> i <> pos -> parent_of i <> pos ->
    leq less (es !!! parent_of i) (es !!! i)).
  { intros i Hi Hip Hpp. pose proof (parent_lt i ltac:(lia)).
    rewrite !Hes by lia. apply Hord. lia. }
  assert (Hgrand : forall i, 0 < i < c -> 0 < pos -> parent_of i = pos ->
    leq less (es !!! parent_of pos) (es !!! i)).
  { intros i Hi Hp0 Hpi. pose proof (parent_lt pos Hp0).
    pose proof (parent_lt i ltac:(lia)). rewrite !Hes by lia.
    apply leq_trans with (entries h !!! pos); [apply Hord; lia|].
    rewrite <-Hpi. apply Hord. lia. }
  split; [|split].
  - intros Hp0 Hl. split; [|done]. intros i Hi Hip.
    destruct (decide (parent_of i = pos)) as [Hpi|]; [|by apply Hedge].
    rewrite Hpi. apply leq_trans with (es !!! parent_of pos);
      [by apply less_asym|by apply Hgrand].
  - intros Hp0 Hl. split; [|done]. intros i Hi Hpi.
    destruct (decide (i = pos)) as [->|]; [exact Hl|by apply Hedge].
  - intros Hp0. split; [|lia]. intros i Hi Hpi.
    apply Hedge; [done|lia|done].
Qed.

Lemma shrink_ok h c es es' : heap_ok less h -> m_count h = S c ->
  length es = Capacity -> (forall k, S c <= k < Capacity -> es !!! k = entries h !!! k) ->
  es !!! c = null -> same_cells c es es' -> ordered less c es' ->
  heap_ok less (MinHeap es' c).
Proof.
  intros [Hlen Hcnt Hord Hclr] Hc Hles Hk Hn (Hl & _ & Hsame) Ho.
  split; cbn [entries m_count]; [lia|lia|done|].
  intros i Hi. rewrite Hsame by lia. destruct (decide (i = c)) as [->|]; [done|].
  rewrite Hk by lia. apply Hclr. lia.
Qed.

Lemma overwrite_cells h c pos : heap_ok less h -> m_count h = S c -> pos <= c ->
  let es := <[c := null]> (<[pos := entries h !!! c]> (entries h)) in
  length es = Capacity /\ es !!! c = null /\
  forall k, S c <= k < Capacity -> es !!! k = entries h !!! k.
Proof.
  intros Hok Hc Hpos es. pose proof (ok_length _ _ Hok). pose proof (ok_count _ _ Hok).
  subst es. rewrite !length_insert. split; [done|]. split.
  - apply list_lookup_total_insert_eq. rewrite length_insert. lia.
  - intros k Hk. by rewrite !list_lookup_total_insert_ne by lia.
Qed.

Lemma pop_correct h : heap_ok less h ->
  (m_count h = 0 /\ pop less h = Some h) \/
  (0 < m_count h /\ exists h', pop less h = Some h' /\ heap_ok less h' /\
     peek h :: elements h' ≡ₚ elements h).
Proof.
  intros Hok. unfold pop. destruct (m_count h) as [|c] eqn:Hc; [by left|right].
  split; [lia|]. cbn [Nat.eqb]. replace (S c - 1) with c by lia.
  pose proof (ok_count _ _ Hok) as Hcnt. pose proof (ok_length _ _ Hok) as Hlen.
  rewrite Hc in Hcnt. unfold peek, elements. rewrite Hc. change (0 <? S c) with true. cbv iota.
  destruct (0 <? c) eqn:E0.
  - apply Nat.ltb_lt in E0.
    destruct (overwrite_inv h c 0 Hok Hc E0) as (_ & _ & Hdown).
    destruct (overwrite_cells h c 0 Hok Hc ltac:(lia)) as (Hl & Hn & Hk).
    set (es := <[c:=null]> _) in *.
    destruct (sift_down_correct (S c) c es 0) as (es' & -> & Hsc & Ho);
      [lia|lia|lia|by apply Hdown|].
    cbn [mbind option_bind]. eexists. split; [done|]. split; [by apply (shrink_ok h c es es' Hok Hc Hl Hk Hn Hsc Ho)|].
    cbn [entries m_count]. destruct Hsc as (_ & Hp & _). rewrite Hp.
    apply take_overwrite; lia.
  - apply Nat.ltb_ge in E0. assert (c = 0) as -> by lia.
    eexists. split; [done|]. split.
    + destruct Hok as [? ? ? Hclr]. split; cbn [entries m_count];
        [by rewrite length_insert|lia|intros i; lia|].
      intros i Hi. destruct i as [|i].
      * apply list_lookup_total_insert_eq. lia.
      * rewrite list_lookup_total_insert_ne by lia. apply Hclr. lia.
    + cbn [entries m_count]. rewrite (take_S_r _ _ (entries h !!! 0));
        [done|apply list_lookup_lookup_total_lt; lia].
Qed.

Lemma scan_spec es x i n :
  i <= scan es x i n <= i + n /\
  (forall k, i <= k < scan es x i n -> es !!! k <> x) /\
  (scan es x i n < i + n -> es !!! (scan es x i n) = x).
Proof.
  revert i. induction n as [|n IH]; intros i; cbn [scan];
    [split; [lia|]; split; intros; lia|].
  destruct (decide (es !!! i = x)) as [Hx|Hx].
  - split; [lia|]. split; [lia|done].
  - destruct (IH (S i)) as (H1 & H2 & H3). split; [lia|]. split.
    + intros k Hk. destruct (decide (k = i)) as [->|]; [done|]. apply H2. lia.
    + intros Hs. apply H3. lia.
Qed.

Lemma remove_correct h x : heap_ok less h ->
  (x ∉ elements h /\ remove less h x = Some (false, h)) \/
  (x ∈ elements h /\ exists h', remove less h x = Some (true, h') /\
     heap_ok less h' /\ x :: elements h' ≡ₚ elements h).
Proof.
  intros Hok. unfold remove.
  destruct (scan_spec (entries h) x 0 (m_count h)) as (Hr & Hno & Hyes).
  set (pos := scan _ _ _ _) in *. destruct (pos =? m_count h) eqn:E.
  { apply Nat.eqb_eq in E. left. split; [|done].
    rewrite elem_of_elements by done. intros (i & Hi & Hx).
    apply (Hno i); [lia|done]. }
  apply Nat.eqb_neq in E. right. specialize (Hyes ltac:(lia)).
  destruct (m_count h) as [|c] eqn:Hc; [lia|].
  pose proof (ok_count _ _ Hok) as Hcnt. pose proof (ok_length _ _ Hok) as Hlen.
  split; [rewrite elem_of_elements by done; exists pos; split; [lia|done]|].
  replace (S c - 1) with c by lia. unfold elements. rewrite Hc.
  destruct (pos <? c) eqn:Epc.
  - apply Nat.ltb_lt in Epc.
    destruct (overwrite_inv h c pos Hok Hc Epc) as (Hup & Hdn & Hdn0).
    destruct (overwrite_cells h c pos Hok Hc ltac:(lia)) as (Hl & Hn & Hk).
    assert (Hov : x :: take c (<[c:=null]> (<[pos:=entries h !!! c]> (entries h)))
                    ≡ₚ take (S c) (entries h)).
    { rewrite <-Hyes at 1. apply take_overwrite; [done|lia]. }
    set (es := <[c:=null]> _) in *.
    assert (exists es', (if (0 <? pos) && less (es !!! pos) (es !!! parent_of pos)
            then sift_up less (S pos) es pos
            else sift_down less (S c) c es pos) = Some es' /\
            same_cells c es es' /\ ordered less c es') as (es' & -> & Hsc & Ho).
    { destruct (0 <? pos) eqn:Ep; cbn [andb].
      - apply Nat.ltb_lt in Ep.
        destruct (less (es !!! pos) (es !!! parent_of pos)) eqn:El.
        + apply sift_up_correct; [lia|lia|lia|by apply Hup].
        + apply sift_down_correct; [lia|lia|lia|by apply Hdn].
      - apply Nat.ltb_ge in Ep. apply sift_down_correct; [lia|lia|lia|apply Hdn0; lia]. }
    cbn [mbind option_bind]. eexists. split; [done|]. split; [by eapply shrink_ok|].
    cbn [entries m_count]. destruct Hsc as (_ & Hp & _). by rewrite Hp.
  - apply Nat.ltb_ge in Epc. assert (pos = c) as Epos by lia. rewrite Epos in *.
    eexists. split; [done|]. split.
    + destruct Hok as [? ? Hord Hclr]. split; cbn [entries m_count];
        [by rewrite length_insert|lia| |].
      * intros i Hi. pose proof (parent_lt i ltac:(lia)).
        rewrite !list_lookup_total_insert_ne by lia. apply Hord. lia.
      * intros i Hi. destruct (decide (i = c)) as [->|].
        { apply list_lookup_total_insert_eq. lia. }
        rewrite list_lookup_total_insert_ne by lia. apply Hclr. lia.
    + cbn [entries m_count]. rewrite take_insert_ge by lia.
      rewrite (take_S_r _ _ (entries h !!! c))
        by (apply list_lookup_lookup_total_lt; lia).
      rewrite Hyes. by rewrite Permutation_app_comm.
Qed.

(** The order only reads the keys of the elements. *)
Lemma heap_ok_less (less' : A -> A -> bool) h :
  (forall a b, a ∈ elements h -> b ∈ elements h -> less a b = less' a b) ->
  heap_ok less h -> heap_ok less' h.
Proof.
  intros Heq Hok. pose proof Hok as [Hlen Hcnt Hord Hclr]. split; [done..| |done].
  intros i Hi. pose proof (parent_lt i ltac:(lia)). unfold leq.
  rewrite <-Heq; [by apply Hord| |];
    (apply elem_of_elements; [done|]; eexists; split; [|reflexivity]; lia).
Qed.

End order.
End heap.

(** C32: The min-heap operations are total on well-formed heaps, keep them
    well formed (heap order, unused slots cleared) and act on the elements
    as operations on a multiset: [push] adds its argument or refuses when the
    array is full, [pop] removes a minimum, [remove] removes one occurrence
    of its argument or reports that there is none, and [peek] is a
    minimum. *)
Theorem min_heap_sound {A} `{EqDecision A, Inhabited A} (Capacity : nat)
    (less : A -> A -> bool) `{!WeakOrder less} (h : min_heap A) (x : A) :
  heap_ok Capacity less h ->
  (exists b h', push Capacity less h x = Some (b, h') /\ heap_ok Capacity less h' /\
     b = negb (m_count h =? Capacity) /\
     (if b then elements h' ≡ₚ x :: elements h else h' = h)) /\
  (exists h', pop less h = Some h' /\ heap_ok Capacity less h' /\
     (if empty h then h' = h else peek h :: elements h' ≡ₚ elements h)) /\
  (exists b h', remove less h x = Some (b, h') /\ heap_ok Capacity less h' /\
     (if b then x :: elements h' ≡ₚ elements h else x ∉ elements h /\ h' = h)) /\
  (empty h = false -> peek h ∈ elements h /\
     forall y, y ∈ elements h -> less y (peek h) = false).
Proof.
  intros Hok. split; [|split; [|split]].
  - destruct (push_correct Capacity less h x Hok) as [(Hf & ->)|(Hr & h' & -> & Hok' & Hp)].
    + exists false, h. rewrite Hf, Nat.eqb_refl. done.
    + exists true, h'. rewrite (proj2 (Nat.eqb_neq _ _)) by lia. done.
  - unfold empty.
    destruct (pop_correct Capacity less h Hok) as [(Hz & ->)|(Hz & h' & -> & Hok' & Hp)].
    + exists h. by rewrite Hz.
    + exists h'. rewrite (proj2 (Nat.eqb_neq _ _)) by lia. done.
  - destruct (remove_correct Capacity less h x Hok) as [(Hn & ->)|(Hn & h' & -> & Hok' & Hp)].
    + by exists false, h.
    + by exists true, h'.
  - unfold empty. intros Hz%Nat.eqb_neq.
    apply (peek_minimum Capacity less h Hok). lia.
Qed.

(** A heap of three numbers in an array of four. *)
#[local] Instance ltb_order : WeakOrder Nat.ltb.
Proof. split; unfold leq; intros *; rewrite ?Nat.ltb_lt, ?Nat.ltb_ge; lia. Qed.

#[local] Instance zero_inhabited : Inhabited nat := populate 0.

Definition demo_heap3 : min_heap nat := MinHeap [1; 7; 3; 0] 3.

Lemma demo_heap3_ok : heap_ok 4 Nat.ltb demo_heap3.
Proof.
  split; cbn [demo_heap3 entries m_count length]; [done|lia| |].
  - intros i Hi. assert (i = 1 \/ i = 2) as [-> | ->] by lia; reflexivity.
  - intros i Hi. assert (i = 3) as -> by lia. reflexivity.
Qed.

Lemma min_heap_sound_witness :
  exists h', pop Nat.ltb demo_heap3 = Some h' /\ heap_ok 4 Nat.ltb h' /\
    1 :: elements h' ≡ₚ [1; 7; 3].
Proof.
  exact (proj1 (proj2 (min_heap_sound 4 Nat.ltb demo_heap3 5 demo_heap3_ok))).
Defined.
