(* ===== verification/Timer.v ===== *)
(** * Kernel timers ([src/zxfoundation/sys/timer.zcomponent])

    The timers live in memory ([timers], a map from addresses), each CPU has
    a min-heap of timer addresses ([g_heaps], MinHeap.v) and a clock
    comparator register.  The comparator of the heap reads the deadlines
    through the pointers, so the heap order is a property of the heap and of
    the timers together.  The CPU number and the values of the TOD clock
    ([stck]) are arguments; a timer's callback is code outside the component
    and is a parameter of the section, a function on the whole timer state.

    [timers_ok] says that the timers in CPU [c]'s heap are exactly the armed
    timers whose [cpu] field is [c], once each, in heap order. *)

From Stdlib Require Import Sorted.
From S2P Require Import Prelude Errors MinHeap.

(** ** Data *)

Definition TIMER_HEAP_CAPACITY : nat := 256.

Inductive timer_mode := oneshot | periodic.

#[global] Instance timer_mode_eq_dec : EqDecision timer_mode.
Proof. solve_decision. Defined.

Record kernel_timer := KernelTimer {
  deadline_tod : Z; interval_tod : Z; callback : Z; data : Z;
  mode : timer_mode; armed : bool; cpu : nat
}.

#[global] Instance kernel_timer_inhabited : Inhabited kernel_timer :=
  populate (KernelTimer 0 0 0 0 oneshot false 0).

Definition null : Z := 0.

(** [T{}] for the element type [kernel_timer*]. *)
#[local] Instance pointer_inhabited : Inhabited Z := populate null.

Record world := World {
  timers : gmap Z kernel_timer;
  g_heaps : list (min_heap Z);
  comparators : list Z
}.

Definition empty_heap : min_heap Z := MinHeap (replicate TIMER_HEAP_CAPACITY null) 0.

#[global] Instance heap_inhabited : Inhabited (min_heap Z) := populate empty_heap.

Definition timer_at (w : world) (t : Z) : kernel_timer := timers w !!! t.
Definition heap_of (w : world) (c : nat) : min_heap Z := g_heaps w !!! c.

Definition set_heap (c : nat) (h : min_heap Z) (w : world) : world :=
  World (timers w) (<[c := h]> (g_heaps w)) (comparators w).
Definition set_timer (t : Z) (f : kernel_timer -> kernel_timer) (w : world) : world :=
  World (alter f t (timers w)) (g_heaps w) (comparators w).

Definition with_armed (b : bool) (k : kernel_timer) : kernel_timer :=
  KernelTimer (deadline_tod k) (interval_tod k) (callback k) (data k) (mode k) b (cpu k).
Definition with_cpu (c : nat) (k : kernel_timer) : kernel_timer :=
  KernelTimer (deadline_tod k) (interval_tod k) (callback k) (data k) (mode k)
    (armed k) c.
Definition with_deadline (d : Z) (k : kernel_timer) : kernel_timer :=
  KernelTimer d (interval_tod k) (callback k) (data k) (mode k) (armed k) (cpu k).

(** ** Operations *)

Definition timer_less (ts : gmap Z kernel_timer) (a b : Z) : bool :=
  deadline_tod (ts !!! a) <? deadline_tod (ts !!! b).

(** [sckc]: set the clock comparator of CPU [c]. *)
Definition sckc (c : nat) (tod : Z) (w : world) : world :=
  World (timers w) (g_heaps w) (<[c := tod]> (comparators w)).

Definition rearm_comparator (stck : Z) (c : nat) (w : world) : world :=
  let top := peek (heap_of w c) in
  if negb (top =? null) then sckc c (deadline_tod (timer_at w top)) w
  else sckc c (u64 (stck + 40960000000)) w.

Definition irq_handler_timing_alert (stck : Z) (c : nat) (w : world) : world :=
  sckc c (u64 (stck + 40960000000)) w.


Definition timer_cancel (stck : Z) (current_cpu : nat) (t : Z) (w : world)
    : option (expected unit * world) :=
  if negb (armed (timer_at w t)) then
    Some (Unexpected (from_generic invalid_arg), w)
  else if negb (cpu (timer_at w t) =? current_cpu)%nat then
    Some (Unexpected (from_generic not_supported), w)
  else
    let c := cpu (timer_at w t) in
    '(_, h) ← remove (timer_less (timers w)) (heap_of w c) t;
    let w := set_heap c h w in
    let w := set_timer t (with_armed false) w in
    Some (Expected tt, rearm_comparator stck (cpu (timer_at w t)) w).

(** The next deadline of a periodic timer that expired. *)
Definition next_deadline (now : Z) (k : kernel_timer) : Z :=
  let next := u64 (deadline_tod k + interval_tod k) in
  if next <=? now then
    let missed := u64 (now - deadline_tod k) / interval_tod k in
    u64 (deadline_tod k + u64 (u64 (missed + 1) * interval_tod k))
  else next.

(** The last step of the loop of [timer_interrupt]: a periodic timer goes
    back on the heap. *)
Definition rearm_periodic (now : Z) (cpu_id : nat) (t : Z) (w : world) : option world :=
  if bool_decide (mode (timer_at w t) = periodic) && (0 <? interval_tod (timer_at w t))
  then
    let w := set_timer t (with_deadline (next_deadline now (timer_at w t))) w in
    let w := set_timer t (with_cpu cpu_id) w in
    '(pushed, h) ← push TIMER_HEAP_CAPACITY (timer_less (timers w))
                     (heap_of w cpu_id) t;
    let w := set_heap cpu_id h w in
    Some (if pushed : bool then set_timer t (with_armed true) w else w)
  else Some w.

Section interrupt.
  (** What calling [t->callback(t->data)] does to the timers. *)
  Context (run_callback : Z -> Z -> world -> world).

(** The body of the loop of [timer_interrupt] for the timer at the top. *)
Definition expire_one (now : Z) (cpu_id : nat) (t : Z) (w : world) : option world :=
  '(_, h) ← remove (timer_less (timers w)) (heap_of w cpu_id) t;
  let w := set_heap cpu_id h w in
  let w := set_timer t (with_armed false) w in
  let w := if negb (callback (timer_at w t) =? null)
           then run_callback (callback (timer_at w t)) (data (timer_at w t)) w
           else w in
  rearm_periodic now cpu_id t w.

(** The [while] loop; the first component lists the timers in the order in
    which they expired. *)
Fixpoint expire (fuel : nat) (now : Z) (cpu_id : nat) (w : world)
    : option (list Z * world) :=
  match fuel with
  | O => None
  | S fuel =>
      if empty (heap_of w cpu_id) then Some ([], w)
      else
        let t := peek (heap_of w cpu_id) in
        if now <? deadline_tod (timer_at w t) then Some ([], w)
        else
          w ← expire_one now cpu_id t w;
          '(fired, w) ← expire fuel now cpu_id w;
          Some (t :: fired, w)
  end.

(** [now] is the clock read on entry, [stck] the one [rearm_comparator]
    reads. *)
Definition timer_interrupt (fuel : nat) (now stck : Z) (cpu_id : nat) (w : world)
    : option (list Z * world) :=
  '(fired, w) ← expire fuel now cpu_id w;
  Some (fired, rearm_comparator stck cpu_id w).

End interrupt.

(** ** The invariant *)

#[global] Instance timer_less_order ts : WeakOrder (timer_less ts).
Proof.
  split; unfold leq, timer_less; intros *; rewrite ?Z.ltb_lt, ?Z.ltb_ge; lia.
Qed.

Record timers_ok (w : world) : Prop := {
  ok_heap : forall c, (c < length (g_heaps w))%nat ->
    heap_ok TIMER_HEAP_CAPACITY (timer_less (timers w)) (heap_of w c);
  ok_nodup : forall c, (c < length (g_heaps w))%nat -> NoDup (elements (heap_of w c));
  ok_members : forall c t, (c < length (g_heaps w))%nat ->
    t ∈ elements (heap_of w c) <->
    exists k, timers w !! t = Some k /\ armed k = true /\ cpu k = c;
  ok_cpu : forall t k, timers w !! t = Some k -> armed k = true ->
    (cpu k < length (g_heaps w))%nat;
  ok_null : timers w !! null = None;
  ok_range : forall t k, timers w !! t = Some k ->
    fits 64 (deadline_tod k) /\ fits 64 (interval_tod k);
  ok_comparators : length (comparators w) = length (g_heaps w)
}.

(** The comparator of CPU [c] is set to its earliest deadline. *)
Definition clock_ok (c : nat) (w : world) : Prop :=
  forall t, t ∈ elements (heap_of w c) ->
    exists m, m ∈ elements (heap_of w c) /\
      comparators w !! c = Some (deadline_tod (timer_at w m)) /\
      deadline_tod (timer_at w m) <= deadline_tod (timer_at w t).

Lemma timer_at_some w t k : timers w !! t = Some k -> timer_at w t = k.
Proof. apply lookup_total_correct. Qed.

Lemma timer_at_set f t u w :
  timers w !! t <> None ->
  timer_at (set_timer t f w) u = if decide (u = t) then f (timer_at w t) else timer_at w u.
Proof.
  intros Ht. unfold timer_at, set_timer; cbn [timers].
  destruct (timers w !! t) as [k|] eqn:E; [|done].
  destruct (decide (u = t)) as [->|Hne].
  - rewrite (lookup_total_correct _ _ (f k)) by (rewrite lookup_alter_eq, E; done).
    by rewrite (lookup_total_correct _ _ _ E).
  - unfold lookup_total, map_lookup_total. by rewrite lookup_alter_ne.
Qed.

Lemma lookup_set_timer f t u w :
  timers (set_timer t f w) !! u =
    if decide (u = t) then f <$> timers w !! u else timers w !! u.
Proof.
  cbn [set_timer timers]. destruct (decide (u = t)) as [->|Hne];
    [by rewrite lookup_alter_eq|by rewrite lookup_alter_ne].
Qed.

Lemma heap_of_set_heap c d h w : (c < length (g_heaps w))%nat ->
  heap_of (set_heap c h w) d = if decide (d = c) then h else heap_of w d.
Proof.
  intros Hc. unfold heap_of, set_heap; cbn [g_heaps].
  destruct (decide (d = c)) as [->|Hne].
  - by apply list_lookup_total_insert_eq.
  - by apply list_lookup_total_insert_ne.
Qed.

Lemma set_heap_self c w : (c < length (g_heaps w))%nat -> set_heap c (heap_of w c) w = w.
Proof.
  intros Hc. unfold set_heap. destruct w as [ts hs cs].
  cbn [timers g_heaps comparators] in *. f_equal. apply list_insert_id.
  unfold heap_of; cbn [g_heaps]. by apply list_lookup_lookup_total_lt.
Qed.

(** Comparisons of timers whose deadlines agree agree. *)
Lemma heap_ok_deadlines w ts c :
  timers_ok w -> (c < length (g_heaps w))%nat ->
  (forall u, u ∈ elements (heap_of w c) ->
     deadline_tod (ts !!! u) = deadline_tod (timer_at w u)) ->
  heap_ok TIMER_HEAP_CAPACITY (timer_less ts) (heap_of w c).
Proof.
  intros Hok Hc Heq. eapply heap_ok_less; [|by apply ok_heap].
  intros a b Ha Hb. unfold timer_less. by rewrite !Heq.
Qed.

Lemma not_null w t : timers_ok w -> timers w !! t <> None -> t <> null.
Proof. intros Hok Ht ->. by rewrite (ok_null w Hok) in Ht. Qed.

Lemma member_alloc w c t : timers_ok w -> (c < length (g_heaps w))%nat ->
  t ∈ elements (heap_of w c) -> timers w !! t <> None.
Proof. intros Hok Hc Ht. apply (ok_members w Hok) in Ht as (k & -> & _); done. Qed.

Lemma member_armed w c t : timers_ok w -> (c < length (g_heaps w))%nat ->
  t ∈ elements (heap_of w c) -> armed (timer_at w t) = true.
Proof.
  intros Hok Hc Ht. apply (ok_members w Hok) in Ht as (k & Hk & Ha & _); [|done].
  by rewrite (timer_at_some _ _ _ Hk).
Qed.

(** A timer that is not armed can be edited freely. *)
Lemma edit_idle w t f : timers_ok w -> armed (timer_at w t) = false ->
  (forall k, armed (f k) = armed k) ->
  (forall k, timers w !! t = Some k ->
     fits 64 (deadline_tod (f k)) /\ fits 64 (interval_tod (f k))) ->
  timers_ok (set_timer t f w).
Proof.
  intros Hok Hidle Harm Hr.
  assert (Hk : forall k, timers w !! t = Some k -> armed k = false).
  { intros k Hk. by rewrite <-(timer_at_some _ _ _ Hk). }
  assert (Hmem : forall u k, timers (set_timer t f w) !! u = Some k -> armed k = true ->
    timers w !! u = Some k).
  { intros u k Hu Ha. rewrite lookup_set_timer in Hu. case_decide as Hd; [|done].
    subst u. destruct (timers w !! t) as [k0|] eqn:E; [|done].
    injection Hu as <-. rewrite Harm, (Hk k0) in Ha; done. }
  split.
  - intros c Hc. apply (heap_ok_deadlines w); [done..|]. intros u Hu.
    pose proof (member_armed w c u Hok Hc Hu) as Ha.
    fold (timer_at (set_timer t f w) u). destruct (decide (u = t)) as [->|Hne]; [congruence|].
    unfold timer_at, lookup_total, map_lookup_total.
    rewrite lookup_set_timer. by rewrite decide_False.
  - intros c Hc. by apply (ok_nodup w Hok).
  - intros c u Hc. change (heap_of (set_timer t f w) c) with (heap_of w c).
    rewrite (ok_members w Hok) by done. split.
    + intros (k & Hu & Ha & Hcpu). exists k. split; [|done].
      rewrite lookup_set_timer. case_decide as Hd; [|done]. subst u.
      rewrite (Hk k Hu) in Ha. done.
    + intros (k & Hu & Ha & Hcpu). exists k. split; [by apply Hmem|done].
  - intros u k Hu Ha. by apply (ok_cpu w Hok u k); [apply Hmem|].
  - rewrite lookup_set_timer. rewrite (ok_null w Hok). by case_decide.
  - intros u k Hu. rewrite lookup_set_timer in Hu. case_decide as Hd.
    + subst u. destruct (timers w !! t) as [k0|] eqn:E; [|done].
      injection Hu as <-. by apply Hr.
    + by apply (ok_range w Hok u).
  - apply (ok_comparators w Hok).
Qed.

(** Setting [armed] and changing the heap to match, in either direction. *)
Lemma relink w t c h b : timers_ok w -> (c < length (g_heaps w))%nat ->
  timers w !! t <> None -> cpu (timer_at w t) = c ->
  heap_ok TIMER_HEAP_CAPACITY (timer_less (timers w)) h -> NoDup (elements h) ->
  (forall u, u ∈ elements h <->
     (u = t /\ b = true) \/ (u <> t /\ u ∈ elements (heap_of w c))) ->
  timers_ok (set_timer t (with_armed b) (set_heap c h w)).
Proof.
  intros Hok Hc Ht Hcpu Hh Hnd Hmem.
  set (w' := set_timer t (with_armed b) (set_heap c h w)).
  assert (Hheap : forall d, heap_of w' d = if decide (d = c) then h else heap_of w d).
  { intros d. change (heap_of w' d) with (heap_of (set_heap c h w) d).
    by apply heap_of_set_heap. }
  assert (Hdl : forall u, deadline_tod (timers w' !!! u) = deadline_tod (timer_at w u)).
  { intros u. subst w'. unfold timer_at, lookup_total, map_lookup_total.
    rewrite lookup_set_timer. cbn [set_heap timers].
    case_decide; [subst; by destruct (timers w !! t)|done]. }
  assert (Hlen : length (g_heaps w') = length (g_heaps w)) by apply length_insert.
  destruct (timers w !! t) as [kt|] eqn:Et; [|done].
  rewrite (timer_at_some _ _ _ Et) in Hcpu.
  assert (Hlook : forall u, timers w' !! u =
    if decide (u = t) then Some (with_armed b kt) else timers w !! u).
  { intros u. subst w'. rewrite lookup_set_timer. cbn [set_heap timers].
    case_decide; [subst; by rewrite Et|done]. }
  split.
  - intros d Hd. rewrite Hheap. rewrite Hlen in Hd. case_decide as Hdc.
    + eapply heap_ok_less; [|exact Hh]. intros u v _ _.
      unfold timer_less. by rewrite !Hdl.
    + apply heap_ok_deadlines; [done..|]. intros u _. apply Hdl.
  - intros d Hd. rewrite Hheap. rewrite Hlen in Hd.
    case_decide; [done|by apply (ok_nodup w Hok)].
  - intros d u Hd. rewrite Hheap. rewrite Hlen in Hd. rewrite Hlook.
    case_decide as Hdc; [subst d; rewrite Hmem|];
      rewrite (ok_members w Hok) by done; (case_decide as Hut; [subst u|]).
    + split; [|intros (k & [= <-] & Ha & _); by left].
      intros [[_ ->]|[? _]]; [by exists (with_armed true kt)|done].
    + split; [by intros [[? _]|[_ ?]]|by right].
    + rewrite Et. split; intros (k & [= <-] & _ & Hkc); cbn in Hkc; congruence.
    + done.
  - intros u k Hu Ha. rewrite Hlen. rewrite Hlook in Hu. case_decide.
    + injection Hu as <-. cbn [with_armed cpu]. by rewrite Hcpu.
    + by apply (ok_cpu w Hok u).
  - rewrite Hlook. rewrite decide_False; [apply (ok_null w Hok)|].
    intros <-. by rewrite (ok_null w Hok) in Et.
  - intros u k Hu. rewrite Hlook in Hu. case_decide.
    + injection Hu as <-. exact (ok_range w Hok t kt Et).
    + by apply (ok_range w Hok u).
  - rewrite Hlen. apply (ok_comparators w Hok).
Qed.

(** Arming a timer and putting it on its CPU's heap. *)
Lemma put_in w t c h : timers_ok w -> (c < length (g_heaps w))%nat ->
  timers w !! t <> None -> armed (timer_at w t) = false -> cpu (timer_at w t) = c ->
  heap_ok TIMER_HEAP_CAPACITY (timer_less (timers w)) h ->
  elements h ≡ₚ t :: elements (heap_of w c) ->
  timers_ok (set_timer t (with_armed true) (set_heap c h w)).
Proof.
  intros Hok Hc Ht Hidle Hcpu Hh Hp.
  assert (Hnotin : t ∉ elements (heap_of w c)).
  { intros Hin. rewrite (member_armed w c t Hok Hc Hin) in Hidle. done. }
  apply relink; [done..| |].
  - rewrite Hp. apply list.NoDup_cons. split; [done|]. by apply (ok_nodup w Hok).
  - intros u. rewrite Hp, elem_of_cons. destruct (decide (u = t)) as [->|Hne]; tauto.
Qed.

(** Taking a timer off its CPU's heap and disarming it. *)
Lemma take_out w t c h : timers_ok w -> (c < length (g_heaps w))%nat ->
  heap_ok TIMER_HEAP_CAPACITY (timer_less (timers w)) h ->
  t :: elements h ≡ₚ elements (heap_of w c) ->
  timers_ok (set_timer t (with_armed false) (set_heap c h w)).
Proof.
  intros Hok Hc Hh Hp.
  assert (Hin : t ∈ elements (heap_of w c)) by (rewrite <-Hp; by left).
  pose proof (ok_nodup w Hok c Hc) as Hnd. rewrite <-Hp in Hnd.
  apply list.NoDup_cons in Hnd as [Hnotin Hnd].
  pose proof Hin as Hin2. apply (ok_members w Hok) in Hin2 as (kt & Et & Hat & Hct); [|done].
  apply relink; [done|done|by rewrite Et|by rewrite (timer_at_some _ _ _ Et)|done..|].
  intros u. rewrite <-Hp, elem_of_cons.
  destruct (decide (u = t)) as [->|Hne]; split; intros; naive_solver.
Qed.

(** ** The clock comparator *)

Lemma rearm_timers stck c w : timers (rearm_comparator stck c w) = timers w /\
  g_heaps (rearm_comparator stck c w) = g_heaps w /\
  length (comparators (rearm_comparator stck c w)) = length (comparators w).
Proof.
  unfold rearm_comparator. destruct (negb _); cbn [sckc timers g_heaps comparators];
    by rewrite length_insert.
Qed.

Lemma rearm_ok stck c w : timers_ok w -> timers_ok (rearm_comparator stck c w).
Proof.
  intros Hok. destruct (rearm_timers stck c w) as (Ht & Hg & Hl).
  destruct Hok as [H1 H2 H3 H4 H5 H6 H7].
  split; unfold heap_of in *; rewrite ?Ht, ?Hg, ?Hl; done.
Qed.

(** A heap with a member: its top is a member with the earliest deadline. *)
Lemma top_earliest w c t : timers_ok w -> (c < length (g_heaps w))%nat ->
  t ∈ elements (heap_of w c) ->
  empty (heap_of w c) = false /\ peek (heap_of w c) ∈ elements (heap_of w c) /\
  peek (heap_of w c) <> null /\
  deadline_tod (timer_at w (peek (heap_of w c))) <= deadline_tod (timer_at w t).
Proof.
  intros Hok Hc Hin. pose proof (ok_heap w Hok c Hc) as Hh.
  assert (Hpos : (0 < m_count (heap_of w c))%nat).
  { apply (elem_of_elements _ _ _ _ Hh) in Hin as (i & Hi & _). lia. }
  destruct (peek_minimum _ _ _ Hh Hpos) as [Hp Hmin].
  split; [unfold empty; apply Nat.eqb_neq; lia|]. split; [done|].
  split; [by eapply not_null, member_alloc|].
  specialize (Hmin t Hin). unfold leq, timer_less in Hmin. by apply Z.ltb_ge.
Qed.

Lemma empty_elements w c : timers_ok w -> (c < length (g_heaps w))%nat ->
  empty (heap_of w c) = true -> elements (heap_of w c) = [].
Proof.
  intros Hok Hc He. unfold empty in He. apply Nat.eqb_eq in He.
  unfold elements. by rewrite He.
Qed.

Lemma rearm_clock stck c w : timers_ok w -> (c < length (g_heaps w))%nat ->
  clock_ok c (rearm_comparator stck c w).
Proof.
  intros Hok Hc t Hin. destruct (rearm_timers stck c w) as (Ht & Hg & Hl).
  unfold clock_ok, heap_of, timer_at in *. rewrite Ht, Hg in *.
  destruct (top_earliest w c t Hok Hc Hin) as (_ & Hp & Hn & Hle).
  exists (peek (g_heaps w !!! c)). split; [done|]. split; [|done].
  unfold rearm_comparator. unfold heap_of in *.
  rewrite (proj2 (Z.eqb_neq _ _) Hn). cbn [negb sckc comparators].
  apply list_lookup_insert_eq. by rewrite (ok_comparators w Hok).
Qed.

(** ** timer_add *)


Lemma heap_of_rearm stck c d w : heap_of (rearm_comparator stck c w) d = heap_of w d.
Proof. unfold heap_of. by destruct (rearm_timers stck c w) as (_ & -> & _). Qed.

Lemma timer_at_rearm stck c u w : timer_at (rearm_comparator stck c w) u = timer_at w u.
Proof. unfold timer_at. by destruct (rearm_timers stck c w) as (-> & _). Qed.





(** ** timer_cancel *)

(** On a state satisfying the timer invariant, [timer_cancel] always
    returns: an idle timer is refused with [invalid_arg] and a timer of
    another CPU with [not_supported], both without effect; otherwise the
    timer is disarmed and off the heap, every other timer stays in place,
    the invariant holds and the comparator is set to the earliest of the
    remaining deadlines. *)
Theorem timer_cancel_correct stck c t w :
  timers_ok w -> clock_ok c w -> (c < length (g_heaps w))%nat ->
  timers w !! t <> None ->
  exists r w', timer_cancel stck c t w = Some (r, w') /\ timers_ok w' /\ clock_ok c w' /\
    ((armed (timer_at w t) = false /\ r = Unexpected (from_generic invalid_arg) /\ w' = w) \/
     (armed (timer_at w t) = true /\ cpu (timer_at w t) <> c /\
      r = Unexpected (from_generic not_supported) /\ w' = w) \/
     (armed (timer_at w t) = true /\ cpu (timer_at w t) = c /\ r = Expected tt /\
      timers w' = alter (with_armed false) t (timers w) /\
      t :: elements (heap_of w' c) ≡ₚ elements (heap_of w c) /\
      forall d, d <> c -> heap_of w' d = heap_of w d)).
Proof.
  intros Hok Hclk Hc Ht. unfold timer_cancel.
  destruct (armed (timer_at w t)) eqn:Harm; cbn [negb]; cycle 1.
  { eexists _, w. split; [done|]. split; [done|]. split; [done|]. by left. }
  destruct (cpu (timer_at w t) =? c)%nat eqn:Ecpu; cbn [negb]; cycle 1.
  { apply Nat.eqb_neq in Ecpu.
    eexists _, w. split; [done|]. split; [done|]. split; [done|]. right; by left. }
  apply Nat.eqb_eq in Ecpu. rewrite Ecpu.
  assert (Hin : t ∈ elements (heap_of w c)).
  { apply (ok_members w Hok c t Hc). destruct (timers w !! t) as [k|] eqn:E; [|done].
    rewrite (timer_at_some _ _ _ E) in *. by exists k. }
  destruct (remove_correct TIMER_HEAP_CAPACITY (timer_less (timers w)) (heap_of w c) t)
    as [(? & _)|(_ & h & -> & Hh & Hp)]; [exact (ok_heap w Hok c Hc)|done|].
  cbn [mbind option_bind].
  pose proof (take_out w t c h Hok Hc Hh Hp) as Hok2.
  set (w2 := set_timer t (with_armed false) (set_heap c h w)) in *.
  assert (Hcpu2 : cpu (timer_at w2 t) = c).
  { subst w2. rewrite timer_at_set, decide_True by done. exact Ecpu. }
  assert (Hheap2 : forall d, heap_of w2 d = if decide (d = c) then h else heap_of w d).
  { intros d. transitivity (heap_of (set_heap c h w) d); [done|].
    by apply heap_of_set_heap. }
  rewrite Hcpu2. eexists _, _. split; [done|]. split; [by apply rearm_ok|].
  split.
  { apply rearm_clock; [done|]. subst w2; cbn [set_timer set_heap g_heaps].
    by rewrite length_insert. }
  right; right. do 3 (split; [done|]).
  destruct (rearm_timers stck c w2) as (-> & _). split; [done|].
  split; [by rewrite heap_of_rearm, Hheap2, decide_True|].
  intros d Hd. by rewrite heap_of_rearm, Hheap2, decide_False.
Qed.

(** ** timer_interrupt *)

(** The next deadline is the first point after [now] on the grid of the
    timer, provided the clock does not wrap before it. *)
Lemma next_deadline_grid now k :
  fits 64 (deadline_tod k) -> 0 < interval_tod k -> deadline_tod k <= now ->
  now + interval_tod k < 2 ^ 64 ->
  next_deadline now k =
    deadline_tod k + ((now - deadline_tod k) / interval_tod k + 1) * interval_tod k /\
  now < next_deadline now k <= now + interval_tod k.
Proof.
  intros Hd Hi Hle Hnw. unfold fits in Hd.
  set (d := deadline_tod k) in *. set (i := interval_tod k) in *.
  set (q := (now - d) / i).
  assert (Hq : q * i <= now - d < (q + 1) * i).
  { pose proof (Z.div_mod (now - d) i ltac:(lia)) as Hdm.
    pose proof (Z.mod_pos_bound (now - d) i Hi). fold q in Hdm. nia. }
  assert (Hq0 : 0 <= q) by (apply Z.div_pos; lia).
  assert (Hqi : q <= q * i) by nia.
  unfold next_deadline. fold d i.
  rewrite (u64_small (d + i)) by (unfold fits; lia).
  destruct (d + i <=? now) eqn:E.
  - apply Z.leb_le in E.
    rewrite (u64_small (now - d)) by (unfold fits; lia). fold q.
    rewrite (u64_small (q + 1)) by (unfold fits; nia).
    rewrite (u64_small ((q + 1) * i)) by (unfold fits; nia).
    rewrite u64_small by (unfold fits; nia). nia.
  - apply Z.leb_gt in E. assert (q = 0) as -> by (apply Z.div_small; lia). lia.
Qed.

(** The timers on CPU [c]'s heap whose deadline has passed. *)
Definition expired (now : Z) (c : nat) (w : world) : list Z :=
  filter (fun t => deadline_tod (timer_at w t) <= now) (elements (heap_of w c)).

(** No timer's next period reaches the end of the TOD clock. *)
Definition no_wrap (now : Z) (w : world) : Prop :=
  forall t k, timers w !! t = Some k -> now + interval_tod k < 2 ^ 64.

(** What is asked of the callback of the timer [t] that is expiring: it may
    add and cancel other timers, on this CPU only with deadlines after
    [now], and leaves [t] itself alone. *)
Record polite (now : Z) (c : nat) (t : Z) (w w' : world) : Prop := {
  pol_ok : timers_ok w';
  pol_cpus : length (g_heaps w') = length (g_heaps w);
  pol_self : timers w' !! t = timers w !! t;
  pol_expired : forall u, u ∈ expired now c w' -> u ∈ expired now c w;
  pol_wrap : no_wrap now w'
}.

Lemma polite_refl now c t w : timers_ok w -> no_wrap now w -> polite now c t w w.
Proof. done. Qed.

Lemma alter_alter (f g : kernel_timer -> kernel_timer) (t : Z) (m : gmap Z kernel_timer) :
  alter f t (alter g t m) = alter (fun k => f (g k)) t m.
Proof.
  apply map_eq. intros u. destruct (decide (u = t)) as [->|Hne].
  - rewrite !lookup_alter_eq. by destruct (m !! t).
  - by rewrite !lookup_alter_ne.
Qed.

(** The record of a periodic timer after its expiry. *)
Definition renewed (now : Z) (c : nat) (k : kernel_timer) : kernel_timer :=
  with_cpu c (with_deadline (next_deadline now k) k).

Definition is_periodic (k : kernel_timer) : bool :=
  bool_decide (mode k = periodic) && (0 <? interval_tod k).

Lemma rearm_periodic_spec now c t w : timers_ok w -> (c < length (g_heaps w))%nat ->
  timers w !! t <> None -> armed (timer_at w t) = false ->
  exists w', rearm_periodic now c t w = Some w' /\ timers_ok w' /\
    length (g_heaps w') = length (g_heaps w) /\
    (forall d, d <> c -> heap_of w' d = heap_of w d) /\
    ((is_periodic (timer_at w t) = false /\ w' = w) \/
     (is_periodic (timer_at w t) = true /\ m_count (heap_of w c) = TIMER_HEAP_CAPACITY /\
      timers w' = alter (renewed now c) t (timers w) /\ heap_of w' c = heap_of w c) \/
     (is_periodic (timer_at w t) = true /\
      timers w' = alter (fun k => with_armed true (renewed now c k)) t (timers w) /\
      elements (heap_of w' c) ≡ₚ t :: elements (heap_of w c))).
Proof.
  intros Hok Hc Ht Hidle. unfold rearm_periodic. fold (is_periodic (timer_at w t)).
  destruct (is_periodic (timer_at w t)) eqn:Eper; cycle 1.
  { exists w. do 4 (split; [done|]). by left. }
  set (nd := next_deadline now (timer_at w t)).
  set (w1 := set_timer t (with_cpu c) (set_timer t (with_deadline nd) w)).
  assert (Hnd : fits 64 nd).
  { subst nd. unfold next_deadline. destruct (_ <=? now); apply u64_fits. }
  assert (Hta : forall u, timer_at (set_timer t (with_deadline nd) w) u =
    if decide (u = t) then with_deadline nd (timer_at w t) else timer_at w u).
  { intros u. by apply timer_at_set. }
  assert (Hok1 : timers_ok w1).
  { subst w1. apply edit_idle; [|by rewrite Hta, decide_True|done|].
    - apply edit_idle; [done..|]. intros k Hk.
      split; [done|exact (proj2 (ok_range w Hok t k Hk))].
    - intros k Hk. rewrite lookup_set_timer, decide_True in Hk by done.
      destruct (timers w !! t) as [k0|] eqn:E; [|done]. injection Hk as <-.
      split; [done|exact (proj2 (ok_range w Hok t k0 E))]. }
  assert (Htw : timers w1 = alter (renewed now c) t (timers w)).
  { subst w1. cbn [set_timer timers]. rewrite alter_alter.
    destruct (timers w !! t) as [k|] eqn:E; [|done].
    apply map_eq. intros u. destruct (decide (u = t)) as [->|Hne].
    - rewrite !lookup_alter_eq, E. cbn. unfold renewed. subst nd.
      by rewrite (timer_at_some _ _ _ E).
    - by rewrite !lookup_alter_ne. }
  assert (Ht1 : timers w1 !! t <> None).
  { rewrite Htw, lookup_alter_eq. by destruct (timers w !! t). }
  assert (Hat1 : timer_at w1 t = with_cpu c (with_deadline nd (timer_at w t))).
  { subst w1. rewrite timer_at_set, decide_True, Hta, decide_True; [done..|].
    rewrite lookup_set_timer, decide_True by done. by destruct (timers w !! t). }
  change (heap_of w c) with (heap_of w1 c).
  destruct (push_correct TIMER_HEAP_CAPACITY (timer_less (timers w1)) (heap_of w1 c) t)
    as [(Hfull & ->)|(Hroom & h & -> & Hh & Hp)]; [exact (ok_heap w1 Hok1 c Hc)| |];
    cbn [mbind option_bind].
  - rewrite (set_heap_self c w1 Hc). exists w1. do 4 (split; [done|]).
    right; left. done.
  - assert (Hheap2 : forall d, heap_of (set_timer t (with_armed true) (set_heap c h w1)) d
      = if decide (d = c) then h else heap_of w1 d).
    { intros d. transitivity (heap_of (set_heap c h w1) d); [done|].
      by apply heap_of_set_heap. }
    eexists. split; [done|]. split; [by apply put_in; try done; rewrite Hat1|].
    split; [apply length_insert|].
    split; [intros d Hd; by rewrite Hheap2, decide_False|].
    right; right. split; [done|]. split.
    + cbn [set_timer set_heap timers]. rewrite Htw. by rewrite alter_alter.
    + by rewrite Hheap2, decide_True.
Qed.

Lemma elem_of_expired now c w u :
  u ∈ expired now c w <->
  u ∈ elements (heap_of w c) /\ deadline_tod (timer_at w u) <= now.
Proof. unfold expired. rewrite list_elem_of_filter. tauto. Qed.

Lemma timers_alter_at w w' t f u : timers w !! t <> None ->
  timers w' = alter f t (timers w) ->
  timer_at w' u = if decide (u = t) then f (timer_at w t) else timer_at w u.
Proof.
  intros Ht Hw. rewrite <-(timer_at_set f t u w Ht). unfold timer_at. by rewrite Hw.
Qed.

Lemma no_wrap_alter now w w' t f : no_wrap now w ->
  timers w' = alter f t (timers w) -> (forall k, interval_tod (f k) = interval_tod k) ->
  no_wrap now w'.
Proof.
  intros Hnw Hw Hf u k Hu. rewrite Hw in Hu. destruct (decide (u = t)) as [->|Hne].
  - rewrite lookup_alter_eq in Hu. destruct (timers w !! t) as [k0|] eqn:E; [|done].
    injection Hu as <-. rewrite Hf. by apply (Hnw t).
  - rewrite lookup_alter_ne in Hu by done. by apply (Hnw u).
Qed.

(** The timer that leaves the heap leaves the expired ones. *)
Lemma expired_take_out now c t w h : timers_ok w -> (c < length (g_heaps w))%nat ->
  t :: elements h ≡ₚ elements (heap_of w c) ->
  forall u, u ∈ expired now c (set_timer t (with_armed false) (set_heap c h w)) <->
    u ∈ expired now c w /\ u <> t.
Proof.
  intros Hok Hc Hp u. rewrite !elem_of_expired.
  assert (Hin : t ∈ elements (heap_of w c)) by (rewrite <-Hp; by left).
  pose proof (ok_nodup w Hok c Hc) as Hnd. rewrite <-Hp in Hnd.
  apply list.NoDup_cons in Hnd as [Hnot _].
  assert (Hheap : heap_of (set_timer t (with_armed false) (set_heap c h w)) c = h).
  { transitivity (heap_of (set_heap c h w) c); [done|].
    by rewrite heap_of_set_heap, decide_True. }
  rewrite Hheap, <-Hp, elem_of_cons.
  rewrite timer_at_set by (exact (member_alloc w c t Hok Hc Hin)).
  case_decide as Hut; [subst u|]; split.
  - intros [? _]. done.
  - intros [_ ?]. done.
  - intros [??]. split; [|done]. by split; [right|].
  - intros [[[?|?] ?] _]; done.
Qed.

(** Putting a periodic timer back adds no expired timer. *)
Lemma rearm_periodic_expired now c t w w' : timers_ok w -> no_wrap now w ->
  (c < length (g_heaps w))%nat -> timers w !! t <> None ->
  armed (timer_at w t) = false -> deadline_tod (timer_at w t) <= now ->
  rearm_periodic now c t w = Some w' ->
  timers_ok w' /\ no_wrap now w' /\ length (g_heaps w') = length (g_heaps w) /\
  forall u, u ∈ expired now c w' <-> u ∈ expired now c w.
Proof.
  intros Hok Hnw Hc Ht Hidle Hdl Hrun.
  destruct (rearm_periodic_spec now c t w Hok Hc Ht Hidle)
    as (w2 & Hrun2 & Hok2 & Hlen & _ & Hcase).
  rewrite Hrun in Hrun2. injection Hrun2 as <-.
  assert (Hnotin : t ∉ elements (heap_of w c)).
  { intros Hin. rewrite (member_armed w c t Hok Hc Hin) in Hidle. done. }
  split; [done|].
  destruct Hcase as [(_ & ->)|[(Hper & _ & Htw & Hh)|(Hper & Htw & Hp)]].
  - split; [done|]. split; [done|]. done.
  - split; [by eapply no_wrap_alter|]. split; [done|].
    intros u. rewrite !elem_of_expired, Hh.
    rewrite (timers_alter_at w w' t _ u Ht Htw). case_decide; [subst u|done].
    split; intros [? _]; done.
  - split; [by eapply no_wrap_alter|]. split; [done|].
    intros u. rewrite !elem_of_expired, Hp, elem_of_cons.
    rewrite (timers_alter_at w w' t _ u Ht Htw). case_decide as Hut; [subst u|].
    + split; [|intros [? _]; done]. intros [_ Hd]. exfalso.
      apply andb_true_iff in Hper as [_ Hi]. apply Z.ltb_lt in Hi.
      destruct (timers w !! t) as [k|] eqn:E; [|done].
      rewrite (timer_at_some _ _ _ E) in *.
      destruct (next_deadline_grid now k) as [_ ?];
        [exact (proj1 (ok_range w Hok t k E))|done..|exact (Hnw t k E)|].
      cbn [with_armed renewed with_cpu with_deadline deadline_tod] in Hd. lia.
    + split; [intros [[?|?] ?]; done|intros [??]; split; [by right|done]].
Qed.

Section polite.
  Context (run_callback : Z -> Z -> world -> world) (now : Z) (c : nat).

  (** Every callback is polite when its timer expires. *)
  Hypothesis callbacks_polite : forall t w, timers_ok w -> no_wrap now w ->
    timers w !! t <> None -> armed (timer_at w t) = false ->
    polite now c t w (run_callback (callback (timer_at w t)) (data (timer_at w t)) w).

Lemma expire_one_polite t w : timers_ok w -> no_wrap now w ->
  (c < length (g_heaps w))%nat -> t ∈ expired now c w ->
  exists w', expire_one run_callback now c t w = Some w' /\ timers_ok w' /\
    no_wrap now w' /\ length (g_heaps w') = length (g_heaps w) /\
    forall u, u ∈ expired now c w' -> u ∈ expired now c w /\ u <> t.
Proof.
  intros Hok Hnw Hc Hexp. apply elem_of_expired in Hexp as [Hin Hdl].
  unfold expire_one.
  destruct (remove_correct TIMER_HEAP_CAPACITY (timer_less (timers w)) (heap_of w c) t)
    as [(? & _)|(_ & h & -> & Hh & Hp)]; [exact (ok_heap w Hok c Hc)|done|].
  cbn [mbind option_bind].
  pose proof (take_out w t c h Hok Hc Hh Hp) as Hok1.
  pose proof (expired_take_out now c t w h Hok Hc Hp) as Hex1.
  pose proof (member_alloc w c t Hok Hc Hin) as Ht.
  pose proof (timer_at_set (with_armed false) t t (set_heap c h w) Ht) as Hat1.
  rewrite decide_True in Hat1 by done.
  change (timer_at (set_heap c h w) t) with (timer_at w t) in Hat1.
  set (w1 := set_timer t (with_armed false) (set_heap c h w)) in *.
  assert (Ht1 : timers w1 !! t <> None).
  { subst w1. rewrite lookup_set_timer, decide_True by done.
    cbn [set_heap timers]. by destruct (timers w !! t). }
  assert (Hnw1 : no_wrap now w1) by (by eapply (no_wrap_alter now w w1 t)).
  assert (Hlen1 : length (g_heaps w1) = length (g_heaps w)) by apply length_insert.
  assert (Hpol : polite now c t w1
    (if negb (callback (timer_at w1 t) =? null)
     then run_callback (callback (timer_at w1 t)) (data (timer_at w1 t)) w1 else w1)).
  { destruct (negb _); [|by apply polite_refl]. apply callbacks_polite; try done.
    by rewrite Hat1. }
  set (w2 := if negb _ then _ else _) in *.
  destruct Hpol as [Hok2 Hlen2 Hself Hex2 Hnw2].
  assert (Hat2 : timer_at w2 t = timer_at w1 t).
  { unfold timer_at, lookup_total, map_lookup_total. by rewrite Hself. }
  assert (Hc2 : (c < length (g_heaps w2))%nat) by lia.
  assert (Ht2 : timers w2 !! t <> None) by (by rewrite Hself).
  destruct (rearm_periodic_spec now c t w2 Hok2 Hc2 Ht2) as (w3 & Hrun & _).
  { by rewrite Hat2, Hat1. }
  destruct (rearm_periodic_expired now c t w2 w3) as (Hok3 & Hnw3 & Hlen3 & Hex3);
    [done..|by rewrite Hat2, Hat1|by rewrite Hat2, Hat1|done|].
  exists w3. split; [done|]. split; [done|]. split; [done|]. split; [lia|].
  intros u Hu. apply Hex1, Hex2, Hex3, Hu.
Qed.

Lemma expire_polite fuel w : timers_ok w -> no_wrap now w ->
  (c < length (g_heaps w))%nat -> (length (expired now c w) < fuel)%nat ->
  exists fired w', expire run_callback fuel now c w = Some (fired, w') /\
    timers_ok w' /\ length (g_heaps w') = length (g_heaps w) /\
    expired now c w' = [] /\ NoDup fired /\ forall t, t ∈ fired -> t ∈ expired now c w.
Proof.
  revert w. induction fuel as [|fuel IH]; intros w Hok Hnw Hc Hf; [lia|].
  cbn [expire]. destruct (empty (heap_of w c)) eqn:Eemp.
  { exists [], w. do 3 (split; [done|]). split.
    - unfold expired. by rewrite (empty_elements w c Hok Hc Eemp).
    - split; [constructor|]. intros t Ht. by apply elem_of_nil in Ht. }
  assert (Hpk : peek (heap_of w c) ∈ elements (heap_of w c)).
  { apply (peek_minimum _ _ _ (ok_heap w Hok c Hc)). unfold empty in Eemp.
    apply Nat.eqb_neq in Eemp. lia. }
  set (t := peek (heap_of w c)) in *.
  destruct (now <? deadline_tod (timer_at w t)) eqn:Enow.
  { apply Z.ltb_lt in Enow. exists [], w. do 3 (split; [done|]). split.
    - destruct (expired now c w) as [|u us] eqn:Eus; [done|].
      assert (Hu : u ∈ expired now c w) by (rewrite Eus; by left).
      apply elem_of_expired in Hu as [Hu1 Hu2].
      destruct (top_earliest w c u Hok Hc Hu1) as (_ & _ & _ & Hle). fold t in Hle. lia.
    - split; [constructor|]. intros u Hu. by apply elem_of_nil in Hu. }
  apply Z.ltb_ge in Enow.
  assert (Hex : t ∈ expired now c w) by (by apply elem_of_expired).
  destruct (expire_one_polite t w Hok Hnw Hc Hex) as (w1 & -> & Hok1 & Hnw1 & Hlen1 & Hsub).
  cbn [mbind option_bind].
  assert (Hnd1 : NoDup (expired now c w1)).
  { apply list.NoDup_filter. apply (ok_nodup w1 Hok1). lia. }
  assert (Hlt : (length (t :: expired now c w1) <= length (expired now c w))%nat).
  { apply submseteq_length, NoDup_submseteq.
    - apply list.NoDup_cons. split; [|done]. intros Hin. by apply Hsub in Hin as [_ ?].
    - intros u Hu. apply elem_of_cons in Hu as [->|Hu]; [done|]. by apply Hsub. }
  cbn [length] in Hlt.
  destruct (IH w1 Hok1 Hnw1 ltac:(lia) ltac:(lia))
    as (fired & w2 & -> & Hok2 & Hlen2 & Hex2 & Hnd & Hfired).
  exists (t :: fired), w2. split; [done|]. split; [done|]. split; [lia|].
  split; [done|]. split.
  - apply list.NoDup_cons. split; [|done]. intros Hin.
    apply Hfired, Hsub in Hin as [_ ?]. done.
  - intros u Hu. apply elem_of_cons in Hu as [->|Hu]; [done|]. by apply Hsub, Hfired.
Qed.

(** C31: The clock comparator interrupt terminates when no timer's next period
    reaches the end of the 64-bit clock ([no_wrap]: the interrupt's time plus
    the interval is below 2^64 for every timer; [timer_interrupt_wrap_livelock]
    shows what happens there) and the callbacks are polite (they may add and
    cancel other timers, but on this CPU only with
    deadlines after the interrupt's time, leave the expiring timer alone and
    keep [no_wrap] and the invariant): after at most one iteration per
    expired timer, no timer fires twice, only expired timers fire, none is
    left expired on the heap, the invariant holds and the comparator is set
    to the earliest remaining deadline. *)
Theorem timer_interrupt_terminates stck fuel w :
  timers_ok w -> no_wrap now w -> (c < length (g_heaps w))%nat ->
  (length (expired now c w) < fuel)%nat ->
  exists fired w', timer_interrupt run_callback fuel now stck c w = Some (fired, w') /\
    timers_ok w' /\ clock_ok c w' /\ expired now c w' = [] /\
    NoDup fired /\ forall t, t ∈ fired -> t ∈ expired now c w.
Proof.
  intros Hok Hnw Hc Hf. unfold timer_interrupt.
  destruct (expire_polite fuel w Hok Hnw Hc Hf)
    as (fired & w1 & -> & Hok1 & Hlen1 & Hex1 & Hnd & Hfired).
  cbn [mbind option_bind]. eexists _, _. split; [done|].
  split; [by apply rearm_ok|]. split; [apply rearm_clock; [done|lia]|].
  split; [|done]. unfold expired in *. rewrite heap_of_rearm.
  rewrite <-Hex1. apply list_filter_iff. intros t. by rewrite timer_at_rearm.
Qed.

End polite.

(** What expiry makes of a timer. *)
Definition after_expiry (now : Z) (c : nat) (k : kernel_timer) : kernel_timer :=
  if is_periodic k then with_armed true (renewed now c k) else with_armed false k.

Lemma alter_at (f g : kernel_timer -> kernel_timer) (t : Z) (m : gmap Z kernel_timer) k :
  m !! t = Some k -> f k = g k -> alter f t m = alter g t m.
Proof.
  intros Hk Hfg. apply map_eq. intros u. destruct (decide (u = t)) as [->|Hne].
  - rewrite !lookup_alter_eq, Hk. cbn. by rewrite Hfg.
  - by rewrite !lookup_alter_ne.
Qed.

Section quiet.
  Context (run_callback : Z -> Z -> world -> world) (now : Z) (c : nat).

  (** The callbacks do not call into the timer component. *)
  Hypothesis callbacks_quiet : forall fn d w, run_callback fn d w = w.

Lemma expire_one_timers t w : timers_ok w ->
  (c < length (g_heaps w))%nat -> t ∈ elements (heap_of w c) ->
  exists w', expire_one run_callback now c t w = Some w' /\ timers_ok w' /\
    length (g_heaps w') = length (g_heaps w) /\
    timers w' = alter (after_expiry now c) t (timers w).
Proof.
  intros Hok Hc Hin.
  unfold expire_one.
  pose proof (ok_heap w Hok c Hc) as Hh0.
  destruct (remove_correct TIMER_HEAP_CAPACITY (timer_less (timers w)) (heap_of w c) t)
    as [(? & _)|(_ & h & -> & Hh & Hp)]; [done..|].
  cbn [mbind option_bind].
  pose proof (take_out w t c h Hok Hc Hh Hp) as Hok1.
  pose proof (member_alloc w c t Hok Hc Hin) as Ht.
  pose proof (timer_at_set (with_armed false) t t (set_heap c h w) Ht) as Hat1.
  rewrite decide_True in Hat1 by done.
  change (timer_at (set_heap c h w) t) with (timer_at w t) in Hat1.
  set (w1 := set_timer t (with_armed false) (set_heap c h w)) in *.
  rewrite callbacks_quiet. replace (if negb _ then w1 else w1) with w1
    by (by destruct (negb _)).
  assert (Ht1 : timers w1 !! t <> None).
  { subst w1. rewrite lookup_set_timer, decide_True by done.
    cbn [set_heap timers]. by destruct (timers w !! t). }
  assert (Hlen1 : length (g_heaps w1) = length (g_heaps w)) by apply length_insert.
  assert (Hidle : armed (timer_at w1 t) = false) by (by rewrite Hat1).
  destruct (rearm_periodic_spec now c t w1 Hok1 ltac:(lia) Ht1 Hidle)
    as (w2 & Hrun & Hok2 & Hlen2 & _ & Hcase).
  exists w2. do 2 (split; [done|]). split; [lia|].
  destruct (timers w !! t) as [k|] eqn:Et; [|done].
  rewrite Hat1, (timer_at_some _ _ _ Et) in Hcase.
  change (is_periodic (with_armed false k)) with (is_periodic k) in Hcase.
  assert (Hroom : m_count (heap_of w1 c) <> TIMER_HEAP_CAPACITY).
  { replace (heap_of w1 c) with h.
    - apply Permutation_length in Hp. cbn [length] in Hp.
      rewrite (elements_length _ _ _ Hh0), (elements_length _ _ _ Hh) in Hp.
      pose proof (ok_count _ _ _ Hh0). lia.
    - transitivity (heap_of (set_heap c h w) c); [|done].
      by rewrite heap_of_set_heap, decide_True. }
  destruct Hcase as [(Hper & ->)|[(_ & ? & _)|(Hper & -> & _)]]; [|done|].
  - subst w1. cbn [set_timer set_heap timers]. apply (alter_at _ _ _ _ k Et).
    unfold after_expiry. by rewrite Hper.
  - subst w1. cbn [set_timer set_heap timers]. rewrite alter_alter.
    apply (alter_at _ _ _ _ k Et). unfold after_expiry. by rewrite Hper.
Qed.

(** A timer is on the heap of its CPU while it is armed. *)
Lemma member_lookup w t k : timers_ok w -> (c < length (g_heaps w))%nat ->
  timers w !! t = Some k ->
  t ∈ elements (heap_of w c) <-> armed k = true /\ cpu k = c.
Proof.
  intros Hok Hc Hk. rewrite (ok_members w Hok) by done.
  split; [intros (k' & Hk' & ?); congruence|intros []; by exists k].
Qed.

Lemma expire_one_quiet t w : timers_ok w -> no_wrap now w ->
  (c < length (g_heaps w))%nat -> t ∈ expired now c w ->
  exists w', expire_one run_callback now c t w = Some w' /\ timers_ok w' /\
    no_wrap now w' /\ length (g_heaps w') = length (g_heaps w) /\
    timers w' = alter (after_expiry now c) t (timers w) /\
    forall u, u ∈ expired now c w' <-> u ∈ expired now c w /\ u <> t.
Proof.
  intros Hok Hnw Hc [Hin Hdl]%elem_of_expired.
  destruct (expire_one_timers t w Hok Hc Hin) as (w' & Hrun & Hok' & Hlen & Htw).
  exists w'. do 2 (split; [done|]). split; [|do 2 (split; [done|])].
  { eapply no_wrap_alter; [done..|]. intros k. unfold after_expiry. by destruct (is_periodic k). }
  pose proof (member_alloc w c t Hok Hc Hin) as Ht. intros u.
  rewrite !elem_of_expired, (timers_alter_at w w' t _ u Ht Htw). case_decide as Hu; [subst u|].
  - split; [|tauto]. intros [Hin' Hd]. exfalso. destruct (timers w !! t) as [k|] eqn:Et; [|done].
    rewrite (timer_at_some _ _ _ Et) in *.
    rewrite (member_lookup w' t (after_expiry now c k)) in Hin';
      [|done|lia|by rewrite Htw, lookup_alter_eq, Et].
    unfold after_expiry in *. destruct (is_periodic k) eqn:Hper; [|by destruct Hin'].
    apply andb_true_iff in Hper as [_ Hi%Z.ltb_lt].
    destruct (next_deadline_grid now k) as [_ ?];
      [exact (proj1 (ok_range w Hok t k Et))|done..|exact (Hnw t k Et)|].
    cbn [with_armed renewed with_cpu with_deadline deadline_tod] in Hd. lia.
  - assert (Hmem : u ∈ elements (heap_of w' c) <-> u ∈ elements (heap_of w c)); [|tauto].
    rewrite (ok_members w' Hok'), (ok_members w Hok), Htw, lookup_alter_ne by (done || lia). done.
Qed.

Lemma expire_quiet fuel w : timers_ok w -> no_wrap now w ->
  (c < length (g_heaps w))%nat -> (length (expired now c w) < fuel)%nat ->
  exists fired w', expire run_callback fuel now c w = Some (fired, w') /\
    timers_ok w' /\ length (g_heaps w') = length (g_heaps w) /\
    fired ≡ₚ expired now c w /\
    StronglySorted (fun a b => deadline_tod (timer_at w a) <= deadline_tod (timer_at w b))
      fired /\
    forall t, timers w' !! t =
      if decide (t ∈ fired) then after_expiry now c <$> timers w !! t
      else timers w !! t.
Proof.
  revert w. induction fuel as [|fuel IH]; intros w Hok Hnw Hc Hf; [lia|].
  assert (Hstop : expired now c w = [] -> exists fired w',
    Some ([], w) = Some (fired, w') /\
    timers_ok w' /\ length (g_heaps w') = length (g_heaps w) /\
    fired ≡ₚ expired now c w /\
    StronglySorted (fun a b => deadline_tod (timer_at w a) <= deadline_tod (timer_at w b))
      fired /\
    forall t, timers w' !! t =
      if decide (t ∈ fired) then after_expiry now c <$> timers w !! t
      else timers w !! t).
  { intros Hnil. exists [], w. do 3 (split; [done|]). split; [by rewrite Hnil|].
    split; [constructor|]. intros t. rewrite decide_False; [done|].
    apply not_elem_of_nil. }
  cbn [expire]. destruct (empty (heap_of w c)) eqn:Eemp.
  { apply Hstop. unfold expired. by rewrite (empty_elements w c Hok Hc Eemp). }
  assert (Hpk : peek (heap_of w c) ∈ elements (heap_of w c)).
  { apply (peek_minimum _ _ _ (ok_heap w Hok c Hc)). unfold empty in Eemp.
    apply Nat.eqb_neq in Eemp. lia. }
  set (t := peek (heap_of w c)) in *.
  assert (Hmin : forall u, u ∈ expired now c w ->
    deadline_tod (timer_at w t) <= deadline_tod (timer_at w u)).
  { intros u [Hu _]%elem_of_expired. by apply (top_earliest w c u Hok Hc Hu). }
  destruct (now <? deadline_tod (timer_at w t)) eqn:Enow.
  { apply Z.ltb_lt in Enow. apply Hstop.
    destruct (expired now c w) as [|u us] eqn:Eus; [done|].
    assert (Hu : u ∈ expired now c w) by (rewrite Eus; by left).
    pose proof Hu as [_ ?]%elem_of_expired. rewrite <-Eus in Hmin.
    specialize (Hmin u Hu). lia. }
  clear Hstop. apply Z.ltb_ge in Enow.
  assert (Hex : t ∈ expired now c w) by (by apply elem_of_expired).
  destruct (expire_one_quiet t w Hok Hnw Hc Hex)
    as (w1 & -> & Hok1 & Hnw1 & Hlen1 & Htw & Hsub).
  cbn [mbind option_bind].
  assert (Hperm : t :: expired now c w1 ≡ₚ expired now c w).
  { apply NoDup_Permutation.
    - apply list.NoDup_cons. split; [intros Hin; by apply Hsub in Hin as [_ ?]|].
      apply list.NoDup_filter. apply (ok_nodup w1 Hok1). lia.
    - apply list.NoDup_filter, (ok_nodup w Hok c Hc).
    - intros u. rewrite elem_of_cons, Hsub.
      destruct (decide (u = t)) as [->|]; tauto. }
  pose proof (Permutation_length Hperm) as Hl. cbn [length] in Hl.
  destruct (IH w1 Hok1 Hnw1 ltac:(lia) ltac:(lia))
    as (fired & w2 & -> & Hok2 & Hlen2 & Hfired & Hsort & Hfin).
  assert (Hnt : t ∉ fired).
  { rewrite Hfired. intros Hin. by apply Hsub in Hin as [_ ?]. }
  assert (Hkeep : forall u, u ∈ fired -> timer_at w1 u = timer_at w u).
  { intros u Hu. pose proof (member_alloc w c t Hok Hc Hpk) as Ht.
    rewrite (timers_alter_at w w1 t _ u Ht Htw). rewrite decide_False; [done|].
    by intros ->. }
  exists (t :: fired), w2. split; [done|]. split; [done|]. split; [lia|].
  split; [by rewrite Hfired|]. split.
  - constructor.
    + revert Hsort Hkeep. clear. induction 1 as [|a l Hs IH Ha]; intros Hk; constructor.
      * apply IH. intros u Hu. apply Hk. by right.
      * apply list.Forall_forall. intros u Hu.
        rewrite <-(Hk a), <-(Hk u) by (by left || by right).
        by apply (proj1 (list.Forall_forall _ _) Ha).
    + apply list.Forall_forall. intros u Hu. apply Hmin.
      rewrite Hfired in Hu. by apply Hsub.
  - intros u. rewrite Hfin, Htw. destruct (decide (u = t)) as [->|Hne].
    + rewrite decide_False by done. rewrite decide_True by (by left).
      by rewrite lookup_alter_eq.
    + rewrite lookup_alter_ne by done.
      destruct (decide (u ∈ fired)) as [Hu|Hu].
      * by rewrite decide_True by (by right).
      * rewrite decide_False; [done|]. intros [?|?]%elem_of_cons; done.
Qed.

(** C11: With callbacks that stay out of the timer component, and when the
    interrupt's time plus the interval is below 2^64 for every timer
    ([no_wrap]), the interrupt fires exactly the timers whose deadline has passed, in the order of
    their deadlines; a one-shot timer is then idle, a periodic one is armed
    again at a multiple of its interval from its old deadline (no drift), at
    the first such point after the interrupt's time; no other timer
    changes. *)
Theorem timer_interrupt_exact stck fuel w :
  timers_ok w -> no_wrap now w -> (c < length (g_heaps w))%nat ->
  (length (expired now c w) < fuel)%nat ->
  exists fired w', timer_interrupt run_callback fuel now stck c w = Some (fired, w') /\
    fired ≡ₚ expired now c w /\
    StronglySorted (fun a b => deadline_tod (timer_at w a) <= deadline_tod (timer_at w b))
      fired /\
    (forall t, t ∉ fired -> timers w' !! t = timers w !! t) /\
    (forall t k, t ∈ fired -> timers w !! t = Some k ->
      exists k', timers w' !! t = Some k' /\ armed k' = is_periodic k /\
        if is_periodic k then
          now < deadline_tod k' <= now + interval_tod k /\
          (interval_tod k | deadline_tod k' - deadline_tod k)
        else deadline_tod k' = deadline_tod k).
Proof.
  intros Hok Hnw Hc Hf. unfold timer_interrupt.
  destruct (expire_quiet fuel w Hok Hnw Hc Hf)
    as (fired & w1 & -> & Hok1 & Hlen1 & Hfired & Hsort & Hfin).
  cbn [mbind option_bind]. eexists _, _. split; [done|].
  destruct (rearm_timers stck c w1) as (-> & _).
  split; [done|]. split; [done|]. split.
  { intros t Ht. by rewrite Hfin, decide_False. }
  intros t k Ht Hk. rewrite Hfin, decide_True by done. rewrite Hk. cbn [fmap option_fmap option_map].
  rewrite Hfired in Ht. apply elem_of_expired in Ht as [_ Hd].
  rewrite (timer_at_some _ _ _ Hk) in Hd.
  eexists. split; [done|]. unfold after_expiry.
  destruct (is_periodic k) eqn:Hper; [|done]. split; [done|].
  apply andb_true_iff in Hper as [_ Hi]. apply Z.ltb_lt in Hi.
  destruct (next_deadline_grid now k) as [Hnd Hb];
    [exact (proj1 (ok_range w Hok t k Hk))|done..|exact (Hnw t k Hk)|].
  cbn [with_armed renewed with_cpu with_deadline deadline_tod]. split; [done|].
  rewrite Hnd. exists ((now - deadline_tod k) / interval_tod k + 1). lia.
Qed.

(** *** The end of the clock *)

(** No time between [now] and the end of the 64-bit clock lies on the grid
    of the timer, taken modulo 2^64. *)
Definition off_the_clock (k : kernel_timer) : Prop :=
  forall x, now < x < 2 ^ 64 -> ~ (Z.gcd (interval_tod k) (2 ^ 64) | x - deadline_tod k).

Lemma next_deadline_mod k :
  (Z.gcd (interval_tod k) (2 ^ 64) | next_deadline now k - deadline_tod k).
Proof.
  set (g := Z.gcd _ _).
  assert (Hi : (g | interval_tod k)) by apply Z.gcd_divide_l.
  assert (Hw : forall x, (g | u64 x - x)).
  { intros x. apply (Z.divide_trans _ (2 ^ 64)); [apply Z.gcd_divide_r|].
    exists (- (x / 2 ^ 64)). unfold u64, wrap.
    pose proof (Z.div_mod x (2 ^ 64) ltac:(lia)). lia. }
  unfold next_deadline. destruct (_ <=? now).
  - set (m := u64 (_ + 1)).
    replace (_ - _) with
      (u64 (deadline_tod k + u64 (m * interval_tod k)) - (deadline_tod k + u64 (m * interval_tod k))
       + (u64 (m * interval_tod k) - m * interval_tod k) + m * interval_tod k) by lia.
    apply Z.divide_add_r; [by apply Z.divide_add_r|by apply Z.divide_mul_r].
  - replace (_ - _) with (u64 (deadline_tod k + interval_tod k) - (deadline_tod k + interval_tod k)
      + interval_tod k) by lia. by apply Z.divide_add_r.
Qed.

(** Such a timer is due again as soon as it has expired. *)
Lemma stuck_again k : off_the_clock k -> is_periodic k = true ->
  off_the_clock (after_expiry now c k) /\ deadline_tod (after_expiry now c k) <= now /\
  is_periodic (after_expiry now c k) = true.
Proof.
  intros Hoff Hper. unfold after_expiry. rewrite Hper.
  pose proof (next_deadline_mod k) as Hm.
  assert (Hf : fits 64 (next_deadline now k)).
  { unfold next_deadline. destruct (_ <=? now); apply u64_fits. }
  unfold off_the_clock. cbn [with_armed renewed with_cpu with_deadline deadline_tod interval_tod].
  split; [|split; [|exact Hper]].
  - intros x Hx Hd. apply (Hoff x Hx).
    replace (x - deadline_tod k) with ((x - next_deadline now k) + (next_deadline now k - deadline_tod k)) by lia.
    by apply Z.divide_add_r.
  - destruct (Z.le_gt_cases (next_deadline now k) now) as [|Hgt]; [done|].
    destruct (Hoff (next_deadline now k)); [|done]. unfold fits in Hf. lia.
Qed.

(** Some timer of CPU [c] is due and will never be put past [now]. *)
Definition stuck (w : world) : Prop :=
  exists t k, timers w !! t = Some k /\ armed k = true /\ cpu k = c /\
    is_periodic k = true /\ deadline_tod k <= now /\ off_the_clock k.

Lemma stuck_expire_one t w : timers_ok w -> (c < length (g_heaps w))%nat ->
  t ∈ elements (heap_of w c) -> stuck w ->
  exists w', expire_one run_callback now c t w = Some w' /\ timers_ok w' /\
    length (g_heaps w') = length (g_heaps w) /\ stuck w'.
Proof.
  intros Hok Hc Hin (u & k & Hu & Ha & Hcp & Hper & Hd & Hoff).
  destruct (expire_one_timers t w Hok Hc Hin) as (w' & Hrun & Hok' & Hlen & Htw).
  exists w'. do 3 (split; [done|]). exists u.
  destruct (decide (u = t)) as [->|Hne].
  - destruct (stuck_again k Hoff Hper) as (Hoff' & Hd' & Hper').
    exists (after_expiry now c k). rewrite Htw, lookup_alter_eq, Hu. split; [done|].
    split_and!; try done; unfold after_expiry; by rewrite Hper.
  - exists k. rewrite Htw, lookup_alter_ne by done. by split_and!.
Qed.

(** C40: The interrupt never ends at the end of the 64-bit TOD clock: when, in any
    state that satisfies the invariant and with callbacks that stay out of the
    timer component, a due periodic timer has no point of its grid (its deadline
    plus multiples of its interval, modulo 2^64) between the interrupt's time
    and the end of the clock, every renewed deadline wraps into the past and no
    amount of fuel suffices for the loop of [timer_interrupt]. *)
Theorem timer_interrupt_wrap_livelock stck fuel w :
  timers_ok w -> (c < length (g_heaps w))%nat -> stuck w ->
  timer_interrupt run_callback fuel now stck c w = None.
Proof.
  intros Hok Hc Hs. unfold timer_interrupt.
  enough (expire run_callback fuel now c w = None) as -> by done. revert w Hok Hc Hs.
  induction fuel as [|fuel IH]; intros w Hok Hc Hs; [done|]. cbn [expire].
  pose proof Hs as (u & k & Hu & Ha & Hcp & _ & Hd & _).
  assert (Hin : u ∈ elements (heap_of w c)) by (by apply (member_lookup w u k)).
  destruct (top_earliest w c u Hok Hc Hin) as (He & Hpk & _ & Hle).
  rewrite He. rewrite (timer_at_some _ _ _ Hu) in Hle.
  destruct (Z.ltb_spec now (deadline_tod (timer_at w (peek (heap_of w c))))) as [|_]; [lia|].
  destruct (stuck_expire_one _ w Hok Hc Hpk Hs) as (w' & -> & Hok' & Hlen & Hs').
  cbn [mbind option_bind]. rewrite IH; [done|done|lia|done].
Qed.

End quiet.

(** ** Examples and boundary behaviour *)

(** One CPU whose heap holds one timer, at address 8. *)
Definition solo (k : kernel_timer) : world :=
  World {[ 8 := k ]} [MinHeap (8 :: replicate 255 null) 1] [deadline_tod k].

Lemma solo_lookup k t k' : timers (solo k) !! t = Some k' <-> t = 8 /\ k' = k.
Proof.
  cbn [solo timers]. rewrite lookup_singleton_Some. split; intros [-> ->]; done.
Qed.

Lemma solo_ok k : armed k = true -> cpu k = 0%nat -> fits 64 (deadline_tod k) ->
  fits 64 (interval_tod k) -> timers_ok (solo k).
Proof.
  intros Ha Hcpu Hd Hi.
  assert (Hone : forall c, (c < length (g_heaps (solo k)))%nat -> c = 0%nat).
  { cbn. lia. }
  split.
  - intros c ->%Hone. split; cbn [solo heap_of g_heaps lookup_total list_lookup_total
      entries m_count].
    + reflexivity.
    + unfold TIMER_HEAP_CAPACITY. lia.
    + intros i Hi0. lia.
    + intros i Hi0. destruct i as [|i]; [lia|]. unfold TIMER_HEAP_CAPACITY in *.
      apply list_lookup_total_correct. change (replicate 255 null !! i = Some null).
      apply lookup_replicate. split; [done|lia].
  - intros c ->%Hone. apply list.NoDup_singleton.
  - intros c t ->%Hone. change (elements (heap_of (solo k) 0)) with [8].
    rewrite list_elem_of_singleton. split.
    + intros ->. exists k. by rewrite solo_lookup.
    + intros (k' & [-> _]%solo_lookup & _). done.
  - intros t k' [-> ->]%solo_lookup _. rewrite Hcpu. cbn. lia.
  - done.
  - intros t k' [-> ->]%solo_lookup. done.
  - done.
Qed.

Lemma solo_clock k : clock_ok 0 (solo k).
Proof.
  intros t Ht. change (elements (heap_of (solo k) 0)) with [8] in *.
  apply list_elem_of_singleton in Ht as ->. exists 8. split; [by left|]. done.
Qed.

(** A periodic timer due at 100 with interval 50. *)
Definition demo_timer : kernel_timer := KernelTimer 100 50 4096 7 periodic true 0.


Lemma demo_ok : timers_ok (solo demo_timer).
Proof. by apply solo_ok. Qed.


Lemma timer_cancel_correct_witness :
  exists w', timer_cancel 0 0 8 (solo demo_timer) = Some (Expected tt, w') /\
    clock_ok 0 w' /\ comparators w' = [40960000000].
Proof.
  destruct (timer_cancel_correct 0 0 8 (solo demo_timer) demo_ok (solo_clock demo_timer)
    ltac:(cbn; lia) ltac:(done)) as (r & w' & Hrun & _ & Hclk & _).
  assert (Hcalc : exists w2, timer_cancel 0 0 8 (solo demo_timer) = Some (Expected tt, w2) /\
    comparators w2 = [40960000000]) by (eexists; split; vm_compute; reflexivity).
  destruct Hcalc as (w2 & Hrun2 & Hcmp). rewrite Hrun in Hrun2.
  injection Hrun2 as -> ->. exists w2. split; [exact Hrun|]. split; [exact Hclk|exact Hcmp].
Defined.

Lemma demo_no_wrap : no_wrap 210 (solo demo_timer).
Proof. intros t k [_ ->]%solo_lookup. reflexivity. Qed.

Lemma quiet_polite now c t w : timers_ok w -> no_wrap now w ->
  timers w !! t <> None -> armed (timer_at w t) = false ->
  polite now c t w ((fun _ _ w => w) (callback (timer_at w t)) (data (timer_at w t)) w).
Proof. intros. by apply polite_refl. Qed.

(** At time 210 the timer due at 100 has missed 150 and 200; it fires once
    and is next due at 250. *)
Lemma timer_interrupt_terminates_witness :
  exists w', timer_interrupt (fun _ _ w => w) 2 210 211 0 (solo demo_timer) = Some ([8], w') /\
    expired 210 0 w' = [] /\ comparators w' = [250].
Proof.
  destruct (timer_interrupt_terminates (fun _ _ w => w) 210 0 (quiet_polite 210 0)
    211 2 (solo demo_timer) demo_ok demo_no_wrap ltac:(cbn; lia) ltac:(vm_compute; lia))
    as (fired & w' & Hrun & _ & _ & Hex & _).
  assert (Hcalc : exists w2, timer_interrupt (fun _ _ w => w) 2 210 211 0 (solo demo_timer)
    = Some ([8], w2) /\ comparators w2 = [250]) by (eexists; split; vm_compute; reflexivity).
  destruct Hcalc as (w2 & Hrun2 & Hcmp). rewrite Hrun in Hrun2.
  injection Hrun2 as -> ->. exists w2. split; [exact Hrun|]. split; [exact Hex|exact Hcmp].
Defined.

Lemma timer_interrupt_exact_witness :
  exists fired w', timer_interrupt (fun _ _ w => w) 2 210 211 0 (solo demo_timer)
      = Some (fired, w') /\ fired ≡ₚ [8].
Proof.
  destruct (timer_interrupt_exact (fun _ _ w => w) 210 0 (fun _ _ _ => eq_refl)
    211 2 (solo demo_timer) demo_ok demo_no_wrap ltac:(cbn; lia) ltac:(vm_compute; lia))
    as (fired & w' & Hrun & Hperm & _).
  exists fired, w'. split; [exact Hrun|]. exact Hperm.
Defined.

(** A timer with a period of 15 ms, in the last 7 microseconds of the clock. *)
Definition wrap_timer : kernel_timer := KernelTimer 0 61440000 0 0 periodic true 0.

Lemma timer_interrupt_wrap_livelock_witness :
  timers_ok (solo wrap_timer) /\
  timer_interrupt (fun _ _ w => w) 1000 (U64_MAX - 30000) 0 0 (solo wrap_timer) = None.
Proof.
  assert (Hok : timers_ok (solo wrap_timer)) by (by apply solo_ok). split; [exact Hok|].
  apply (timer_interrupt_wrap_livelock (fun _ _ w => w) (U64_MAX - 30000) 0 (fun _ _ _ => eq_refl)
    0 1000 (solo wrap_timer) Hok); [cbn; lia|].
  exists 8, wrap_timer. split_and!; try done. intros x Hx.
  change (Z.gcd _ _) with 32768. intros [q Hq]. unfold U64_MAX in Hx.
  cbn [wrap_timer deadline_tod] in Hq. lia.
Defined.

(** A callback that cancels the timer whose address is its argument. *)
Definition cancel_callback (stck : Z) (c : nat) (fn d : Z) (w : world) : world :=
  match timer_cancel stck c d w with Some (_, w') => w' | None => w end.

(** A timer cannot be cancelled from its own callback: while the callback
    runs the timer is not armed, [timer_cancel] refuses it, and a periodic
    timer is put back on the heap as if the callback had done nothing. *)
Theorem self_cancel_ineffective stck now c t w :
  timers w !! t <> None -> data (timer_at w t) = t ->
  expire_one (cancel_callback stck c) now c t w = expire_one (fun _ _ w => w) now c t w.
Proof.
  intros Ht Hself. unfold expire_one.
  destruct (remove _ _ _) as [[b h]|]; [|done]. cbn [mbind option_bind].
  set (w1 := set_timer t (with_armed false) (set_heap c h w)).
  assert (Hat : timer_at w1 t = with_armed false (timer_at w t)).
  { subst w1. by rewrite timer_at_set, decide_True. }
  unfold cancel_callback. rewrite Hat. cbn [with_armed data callback]. rewrite Hself.
  unfold timer_cancel. rewrite Hat. cbn [with_armed armed negb]. done.
Qed.
