(* ===== verification/MemContract.v ===== *)
(** * The DGP memory contract ([src/zxfoundation/dgp/memory_contract.zcomponent])

    Pure validation of memory requests and the policy record an authorized
    request receives.  The global generation counter is an argument, and
    [generation_bump] returns its next value.  Page protections are the raw
    page-table bits of [page_prot::raw()]. *)

From S2P Require Import Prelude Errors.

(** ** Data *)

Definition STORAGE_KEY_AUTO : Z := 255.
Definition STORAGE_KEY_COUNT : Z := 16.

Definition PTE_PROTECT : Z := 512.
Definition PTE_NOEXEC : Z := 256.
Definition CONTRACT_PAGE_SIZE : Z := 4096.

(** [isolation_rights], as bit masks. *)
Definition right_none : Z := 0.
Definition right_enter : Z := 1.
Definition right_map : Z := 2.
Definition right_share : Z := 4.
Definition right_signal : Z := 8.
Definition right_io : Z := 16.
Definition right_lifecycle : Z := 32.
Definition right_delegate : Z := 64.
Definition right_quota : Z := 128.
Definition right_debug : Z := 256.
Definition right_sched : Z := 512.
Definition right_console : Z := 1024.
Definition right_service : Z := 2048.

(** [memory_access], as bit masks. *)
Definition access_share : Z := 8.

Inductive memory_scope := private_domain | portal_shared | nucleus.

#[global] Instance memory_scope_eq_dec : EqDecision memory_scope.
Proof. solve_decision. Defined.

Inductive invalidation_scope :=
  | inv_none | inv_local_cpu | inv_address_space | inv_single_page | inv_global
  | inv_alb_global.

Record contract_request := ContractRequest {
  rq_domain_id : Z; va_start : Z; va_end : Z; phys_start : Z; rq_length : Z;
  rq_prot : Z; rq_storage_key : Z; rq_numa_node : Z; access : Z;
  scope : memory_scope
}.

Record contract_result := ContractResult {
  res_storage_key : Z; res_numa_node : Z; invalidate : invalidation_scope;
  res_required_rights : Z; res_generation : Z; res_access : Z;
  res_scope : memory_scope
}.

(** ** Operations *)

Definition generation_bump (g : Z) : Z := u64 (g + 1).

Definition memory_access_has (available requested : Z) : bool :=
  Z.land available requested =? requested.

Definition is_page_aligned (address : Z) : bool :=
  Z.land address (CONTRACT_PAGE_SIZE - 1) =? 0.

Definition required_rights (a : Z) (s : memory_scope) : Z :=
  let rights := right_map in
  if memory_access_has a access_share || bool_decide (s = portal_shared)
  then Z.lor rights right_share else rights.

Definition validate_range (start end_ : Z) : expected unit :=
  if (end_ =? 0) || (end_ <=? start) then Unexpected (from_generic invalid_arg)
  else if negb (is_page_aligned start) || negb (is_page_aligned end_)
  then Unexpected (from_memory mem_alignment_error)
  else Expected tt.

Definition validate_storage_key (key : Z) : expected unit :=
  if key =? STORAGE_KEY_AUTO then Expected tt
  else if STORAGE_KEY_COUNT <=? key then Unexpected (from_generic out_of_range)
  else Expected tt.

(** Writable and executable at once: neither bit set. *)
Definition prot_rwx (prot : Z) : bool :=
  (Z.land prot PTE_NOEXEC =? 0) && (Z.land prot PTE_PROTECT =? 0).

Definition validate_request (r : contract_request) : expected unit :=
  _ ← validate_range (va_start r) (va_end r);
  if (rq_length r =? 0) || negb (rq_length r =? u64 (va_end r - va_start r))
  then Unexpected (from_generic invalid_arg)
  else if prot_rwx (rq_prot r) then Unexpected (from_memory mem_capability_invalid)
  else if negb (phys_start r =? 0) && negb (is_page_aligned (phys_start r))
  then Unexpected (from_memory mem_alignment_error)
  else validate_storage_key (rq_storage_key r).

Definition resolve_storage_key (key : Z) : expected Z :=
  _ ← validate_storage_key key;
  if key =? STORAGE_KEY_AUTO then Expected 0 else Expected key.

Definition authorize_mapping (g : Z) (r : contract_request) : expected contract_result :=
  _ ← validate_request r;
  if bool_decide (scope r = portal_shared) && negb (memory_access_has (access r) access_share)
  then Unexpected (from_memory mem_capability_invalid)
  else if prot_rwx (rq_prot r) then Unexpected (from_memory mem_capability_invalid)
  else
    key ← resolve_storage_key (rq_storage_key r);
    Expected (ContractResult key (rq_numa_node r)
      (if negb (phys_start r =? 0) then inv_address_space else inv_none)
      (required_rights (access r) (scope r)) g (access r) (scope r)).

Definition with_invalidate (i : invalidation_scope) (c : contract_result)
    : contract_result :=
  ContractResult (res_storage_key c) (res_numa_node c) i (res_required_rights c)
    (res_generation c) (res_access c) (res_scope c).

Definition authorize_protect (g : Z) (r : contract_request) (old_prot : Z)
    : expected contract_result :=
  result ← authorize_mapping g r;
  Expected (with_invalidate
    (if old_prot =? rq_prot r then inv_none else inv_address_space) result).

Definition authorize_unmap (g : Z) (r : contract_request) : expected contract_result :=
  result ← authorize_mapping g r;
  Expected (with_invalidate
    (if memory_access_has (access r) access_share then inv_alb_global
     else inv_address_space) result).

(** ** Properties *)

(** What the contract promises of an admitted request. *)
Record admissible (r : contract_request) : Prop := {
  adm_range : va_start r < va_end r;
  adm_align : is_page_aligned (va_start r) = true /\ is_page_aligned (va_end r) = true;
  adm_length : rq_length r = va_end r - va_start r;
  adm_wx : prot_rwx (rq_prot r) = false;
  adm_phys : phys_start r = 0 \/ is_page_aligned (phys_start r) = true;
  adm_key : rq_storage_key r = STORAGE_KEY_AUTO \/ rq_storage_key r < STORAGE_KEY_COUNT;
  adm_portal : scope r = portal_shared -> memory_access_has (access r) access_share = true
}.

(** The ranges the types of the request's fields give. *)
Definition request_typed (r : contract_request) : Prop :=
  fits 64 (va_start r) /\ fits 64 (va_end r) /\ fits 64 (rq_length r).

Lemma validate_range_ok s e : fits 64 s ->
  validate_range s e = Expected tt <->
  s < e /\ is_page_aligned s = true /\ is_page_aligned e = true.
Proof.
  unfold validate_range, fits. intros Hs.
  destruct (e =? 0) eqn:E0; cbn [orb].
  { apply Z.eqb_eq in E0. split; [done|lia]. }
  destruct (e <=? s) eqn:E1; [apply Z.leb_le in E1; split; [done|lia]|].
  apply Z.leb_gt in E1. destruct (is_page_aligned s), (is_page_aligned e); cbn [negb orb];
    (split; [|tauto || naive_solver]); intros; try done.
Qed.

Lemma storage_key_ok k :
  validate_storage_key k = Expected tt <-> k = STORAGE_KEY_AUTO \/ k < STORAGE_KEY_COUNT.
Proof.
  unfold validate_storage_key. destruct (Z.eqb_spec k STORAGE_KEY_AUTO); [tauto|].
  destruct (Z.leb_spec STORAGE_KEY_COUNT k); split; intros; try done; lia || tauto.
Qed.

Lemma expected_unit_bind {A} (x : expected unit) (f : unit -> expected A) a :
  x ≫= f = Expected a <-> x = Expected tt /\ f tt = Expected a.
Proof. destruct x as [[]|e]; cbn; split; intros; tauto || naive_solver. Qed.

Lemma validate_request_ok r : request_typed r ->
  validate_request r = Expected tt <->
  va_start r < va_end r /\
  (is_page_aligned (va_start r) = true /\ is_page_aligned (va_end r) = true) /\
  rq_length r = va_end r - va_start r /\ prot_rwx (rq_prot r) = false /\
  (phys_start r = 0 \/ is_page_aligned (phys_start r) = true) /\
  (rq_storage_key r = STORAGE_KEY_AUTO \/ rq_storage_key r < STORAGE_KEY_COUNT).
Proof.
  intros (Hs & He & Hl). unfold validate_request.
  rewrite expected_unit_bind, validate_range_ok by done.
  unfold fits in *. rewrite <-storage_key_ok.
  destruct (decide (va_start r < va_end r)) as [Hlt|Hlt]; [|tauto].
  rewrite (u64_small (va_end r - va_start r)) by (unfold fits; lia).
  destruct (Z.eqb_spec (rq_length r) 0) as [H0|H0]; cbn [orb].
  { split; [intros [_ ?]; done|lia]. }
  destruct (Z.eqb_spec (rq_length r) (va_end r - va_start r)) as [H1|H1]; cbn [negb];
    [|split; [intros [_ ?]; done|lia]].
  destruct (prot_rwx (rq_prot r)); [split; [intros [_ ?]; done|intros H2; naive_solver]|].
  destruct (Z.eqb_spec (phys_start r) 0) as [H2|H2]; cbn [negb andb]; [tauto|].
  destruct (is_page_aligned (phys_start r)); cbn [negb]; [tauto|].
  split; [intros [_ ?]; done|]. intros (_ & _ & _ & _ & [?|?] & _); done.
Qed.

(** [authorize_mapping] accepts exactly the admissible requests. *)
Lemma authorize_mapping_ok g r c : request_typed r ->
  authorize_mapping g r = Expected c <->
  admissible r /\
  c = ContractResult (if rq_storage_key r =? STORAGE_KEY_AUTO then 0 else rq_storage_key r)
        (rq_numa_node r)
        (if negb (phys_start r =? 0) then inv_address_space else inv_none)
        (required_rights (access r) (scope r)) g (access r) (scope r).
Proof.
  intros Ht. unfold authorize_mapping. rewrite expected_unit_bind, validate_request_ok by done.
  unfold resolve_storage_key.
  destruct (prot_rwx (rq_prot r)) eqn:Ewx.
  { split; [intros ((_ & _ & _ & ? & _) & _); done|]. intros [[_ _ _ ? _ _ _] _]. congruence. }
  destruct (bool_decide_reflect (scope r = portal_shared)) as [Hsc|Hsc]; cbn [andb];
    [destruct (memory_access_has (access r) access_share) eqn:Esh; cbn [negb]|].
  - split.
    + intros ((H1 & H2 & H3 & H4 & H5 & H6) & Hc). apply storage_key_ok in H6 as Hk.
      rewrite Hk in Hc. cbn in Hc. split; [done|]. by destruct (rq_storage_key r =? STORAGE_KEY_AUTO); injection Hc as <-.
    + intros ([H1 H2 H3 H4 H5 H6 H7] & ->). apply storage_key_ok in H6 as Hk.
      split; [done|]. rewrite Hk. cbn. by destruct (rq_storage_key r =? STORAGE_KEY_AUTO).
  - split; [intros [_ ?]; done|]. intros ([_ _ _ _ _ _ H7] & _). specialize (H7 Hsc). congruence.
  - split.
    + intros ((H1 & H2 & H3 & H4 & H5 & H6) & Hc). apply storage_key_ok in H6 as Hk.
      rewrite Hk in Hc. cbn in Hc. split; [done|]. by destruct (rq_storage_key r =? STORAGE_KEY_AUTO); injection Hc as <-.
    + intros ([H1 H2 H3 H4 H5 H6 H7] & ->). apply storage_key_ok in H6 as Hk.
      split; [done|]. rewrite Hk. cbn. by destruct (rq_storage_key r =? STORAGE_KEY_AUTO).
Qed.

(** The memory contract admits exactly the well-formed requests: mapping,
    protecting and unmapping are all authorized when the range is ordered,
    page-aligned and of the stated length, the protection is not writable
    and executable at once, the physical address is aligned, the storage
    key is representable and a portal mapping asks for sharing, and are all
    refused otherwise; the policy record carries a storage key below 16,
    demands the [map] right (and [share] for shared memory) and asks for an
    invalidation whenever the translation may have changed. *)
Theorem contract_admits_exactly g r old :
  request_typed r ->
  (admissible r <-> has_value (authorize_mapping g r) = true) /\
  (admissible r <-> has_value (authorize_protect g r old) = true) /\
  (admissible r <-> has_value (authorize_unmap g r) = true) /\
  forall c, authorize_mapping g r = Expected c \/ authorize_protect g r old = Expected c \/
    authorize_unmap g r = Expected c ->
    prot_rwx (rq_prot r) = false /\
    (0 <= rq_storage_key r -> 0 <= res_storage_key c < STORAGE_KEY_COUNT) /\
    Z.testbit (res_required_rights c) 1 = true /\
    (scope r = portal_shared \/ memory_access_has (access r) access_share = true ->
       Z.testbit (res_required_rights c) 2 = true) /\
    (authorize_protect g r old = Expected c -> old <> rq_prot r ->
       invalidate c = inv_address_space) /\
    (authorize_unmap g r = Expected c -> invalidate c <> inv_none).
Proof.
  intros Ht. pose proof (authorize_mapping_ok g r) as Hm.
  assert (Hiff : admissible r <-> has_value (authorize_mapping g r) = true).
  { destruct (authorize_mapping g r) as [c|e] eqn:E; cbn [has_value].
    - split; [done|]. intros _. by apply (Hm c Ht).
    - split; [|done]. intros Ha.
      pose proof (proj2 (Hm _ Ht) (conj Ha eq_refl)). congruence. }
  unfold authorize_protect, authorize_unmap.
  destruct (authorize_mapping g r) as [c0|e] eqn:E; cbn in Hiff |- *.
  2:{ split; [done|]. split; [done|]. split; [done|]. intros c [?|[?|?]]; done. }
  split; [done|]. split; [done|]. split; [done|].
  destruct (proj1 (Hm c0 Ht) eq_refl) as [Ha ->].
  intros c Hc. split; [by apply adm_wx|].
  assert (Hkey : 0 <= rq_storage_key r ->
    0 <= (if rq_storage_key r =? STORAGE_KEY_AUTO then 0 else rq_storage_key r)
      < STORAGE_KEY_COUNT).
  { intros H0. destruct (Z.eqb_spec (rq_storage_key r) STORAGE_KEY_AUTO);
      [done|]. destruct (adm_key r Ha); [done|lia]. }
  assert (Hmap : Z.testbit (required_rights (access r) (scope r)) 1 = true).
  { unfold required_rights. by destruct (_ || _). }
  assert (Hsh : scope r = portal_shared \/ memory_access_has (access r) access_share = true ->
    Z.testbit (required_rights (access r) (scope r)) 2 = true).
  { unfold required_rights. intros [-> | ->]; cbn [orb].
    - rewrite bool_decide_true, orb_true_r by done. done.
    - done. }
  assert (Hf : res_storage_key c = (if rq_storage_key r =? STORAGE_KEY_AUTO then 0
                 else rq_storage_key r) /\
               res_required_rights c = required_rights (access r) (scope r)).
  { destruct Hc as [Hc|[Hc|Hc]]; injection Hc as <-; done. }
  destruct Hf as [-> ->]. split; [done|]. split; [done|]. split; [done|]. split.
  - intros [= <-] Hne. cbn. by destruct (Z.eqb_spec old (rq_prot r)).
  - intros [= <-]. cbn. by destruct (memory_access_has _ _).
Qed.

Definition demo_request : contract_request :=
  ContractRequest 1 4096 12288 0 8192 PTE_NOEXEC STORAGE_KEY_AUTO 0 11 portal_shared.

Lemma contract_admits_exactly_witness :
  admissible demo_request <-> has_value (authorize_unmap 1 demo_request) = true.
Proof.
  apply (contract_admits_exactly 1 demo_request 0).
  repeat split; vm_compute; done.
Defined.
