(* ===== verification/Isolation.v ===== *)
(** * DGP isolation: storage keys, domain rights and admission checks
    ([src/zxfoundation/dgp/isolation.zcomponent])

    The component's static state is the storage-key registry (which of the
    sixteen keys are taken, and a generation per key) and the flag set by
    [init]; the memory contract's generation counter, which completing a
    revocation advances, is carried with it.  The spin lock around the
    registry makes each operation one step.  The fields of the domain that
    the operations take by reference (lifecycle state, key, key generation,
    key state, revocation epoch) are the record [key_authority]. *)

From S2P Require Import Prelude Errors Kobject MemContract.

Definition STORAGE_KEY_USER_BASE : Z := 8.
Definition STORAGE_KEY_USER_MAX : Z := 15.
Definition MAX_DOMAINS : Z := 256.

Inductive skey_revocation_state := sk_none | sk_active | sk_draining | sk_reusable.

#[global] Instance skey_state_eq_dec : EqDecision skey_revocation_state.
Proof. solve_decision. Defined.

Record registry := Registry {
  g_isolation_initialized : bool;
  g_storage_key_used : gmap Z bool;
  g_storage_key_generation : gmap Z Z;
  contract_generation : Z
}.

Definition key_used (r : registry) (k : Z) : bool :=
  default false (g_storage_key_used r !! k).
Definition key_generation (r : registry) (k : Z) : Z :=
  default 0 (g_storage_key_generation r !! k).

Definition set_used (k : Z) (b : bool) (r : registry) : registry :=
  Registry (g_isolation_initialized r) (<[k := b]> (g_storage_key_used r))
    (g_storage_key_generation r) (contract_generation r).
Definition set_key_generation (k g : Z) (r : registry) : registry :=
  Registry (g_isolation_initialized r) (g_storage_key_used r)
    (<[k := g]> (g_storage_key_generation r)) (contract_generation r).
Definition bump_contract (r : registry) : registry :=
  Registry (g_isolation_initialized r) (g_storage_key_used r)
    (g_storage_key_generation r) (generation_bump (contract_generation r)).

(** ** Rights *)

Definition has_all_rights (available requested : Z) : bool :=
  Z.land available requested =? requested.

(** ** The registry *)

(** The search loop: the first unused key from [key] on. *)
Fixpoint first_free (r : registry) (key : Z) (n : nat) : option Z :=
  match n with
  | O => None
  | S n => if negb (key_used r key) then Some key else first_free r (key + 1) n
  end.

Definition allocate_storage_key (requested : Z) (r : registry)
    : expected Z * registry :=
  if negb (requested =? STORAGE_KEY_AUTO) then
    if (requested <? STORAGE_KEY_USER_BASE) || (STORAGE_KEY_USER_MAX <? requested)
    then (Unexpected (from_generic invalid_arg), r)
    else if key_used r requested then (Unexpected (from_memory mem_out_of_memory), r)
    else (Expected requested, set_used requested true r)
  else
    match first_free r STORAGE_KEY_USER_BASE
            (Z.to_nat (STORAGE_KEY_USER_MAX - STORAGE_KEY_USER_BASE + 1)) with
    | Some key => (Expected key, set_used key true r)
    | None => (Unexpected (from_memory mem_out_of_memory), r)
    end.

Definition release_storage_key (key : Z) (r : registry) : Z * registry :=
  if (STORAGE_KEY_USER_BASE <=? key) && (key <=? STORAGE_KEY_USER_MAX) then
    let r := if key_used r key
             then set_key_generation key (u32 (key_generation r key + 1))
                    (set_used key false r)
             else r in
    (key_generation r key, r)
  else (0, r).

Definition storage_key_generation_of (key : Z) (r : registry) : Z :=
  if STORAGE_KEY_COUNT <=? key then 0 else key_generation r key.

(** [init]: every key is free except key 0, every generation is 1. *)
Definition isolation_init (r : registry) : registry :=
  Registry true
    (<[0 := true]> (list_to_map ((fun k => (k, false)) <$> seqZ 0 STORAGE_KEY_COUNT)))
    (list_to_map ((fun k => (k, 1)) <$> seqZ 0 STORAGE_KEY_COUNT))
    (contract_generation r).

(** ** Domains *)

Record isolation_policy := IsolationPolicy {
  default_rights : Z; pol_storage_key : Z; pol_numa_node : Z; bootstrap_admin : bool
}.

Record isolation_domain_state := IsolationDomainState {
  st_domain_id : Z; st_asce : Z; st_root_phys : Z; st_storage_key : Z;
  st_numa_node : Z; st_revocation_epoch : Z; st_storage_key_generation : Z;
  st_storage_key_state : skey_revocation_state; st_granted_rights : Z
}.

Definition admin_rights (granted : Z) : Z :=
  Z.lor (Z.lor (Z.lor (Z.lor (Z.lor (Z.lor (Z.lor granted right_lifecycle)
    right_delegate) right_quota) right_debug) right_sched) right_console) right_service.

Definition create_domain (domain_id : Z) (policy : isolation_policy) (r : registry)
    : expected isolation_domain_state * registry :=
  if negb (g_isolation_initialized r)
  then (Unexpected (from_generic uninitialized), r)
  else
    match allocate_storage_key (pol_storage_key policy) r with
    | (Unexpected e, r) => (Unexpected e, r)
    | (Expected key, r) =>
        let rights := default_rights policy in
        (Expected (IsolationDomainState domain_id 0 0 key (pol_numa_node policy) 0
           (storage_key_generation_of key r) sk_active
           (if bootstrap_admin policy then admin_rights rights else rights)), r)
    end.

Definition bind_asce_root (s : isolation_domain_state) (current_ls : lifecycle_state)
    (asce root_phys : Z) : expected unit * isolation_domain_state :=
  if negb (bool_decide (current_ls = sealed)) || (root_phys =? 0) || (asce =? 0)
  then (Unexpected (from_generic invalid_arg), s)
  else (Expected tt, IsolationDomainState (st_domain_id s) asce root_phys
         (st_storage_key s) (st_numa_node s) (st_revocation_epoch s)
         (st_storage_key_generation s) (st_storage_key_state s) (st_granted_rights s)).

Definition activate_domain (ls : lifecycle_state) (asce root_phys : Z) : expected unit :=
  if negb (bool_decide (ls = sealed)) || (root_phys =? 0) || (asce =? 0)
  then Unexpected (from_generic invalid_arg) else Expected tt.

(** The domain fields the revocation functions take by reference. *)
Record key_authority := KeyAuthority {
  ka_state : lifecycle_state; ka_key : Z; ka_key_generation : Z;
  ka_key_state : skey_revocation_state; ka_epoch : Z
}.

Definition begin_storage_key_revocation (a : key_authority) : key_authority :=
  if bool_decide (ka_state a = destroyed) || bool_decide (ka_key_state a = sk_reusable)
  then a
  else KeyAuthority dying (ka_key a) (ka_key_generation a) sk_draining
         (u16 (ka_epoch a + 1)).

Definition complete_storage_key_revocation (a : key_authority) (r : registry)
    : expected unit * key_authority * registry :=
  let reusable g := KeyAuthority (ka_state a) (ka_key a) g sk_reusable (ka_epoch a) in
  if bool_decide (ka_key_state a = sk_reusable) || (ka_key a =? 0)
  then (Expected tt, reusable (ka_key_generation a), r)
  else if negb (bool_decide (ka_key_state a = sk_draining))
  then (Unexpected (from_generic invalid_arg), a, r)
  else
    let (g, r) := release_storage_key (ka_key a) r in
    (Expected tt, reusable g, bump_contract r).

Definition begin_portal_teardown (a : key_authority) : key_authority :=
  KeyAuthority (ka_state a) (ka_key a) (ka_key_generation a) (ka_key_state a)
    (u16 (ka_epoch a + 1)).

Definition destroy_domain (a : key_authority) (r : registry)
    : expected unit * key_authority * registry :=
  if bool_decide (ka_state a = destroyed) then (Expected tt, a, r)
  else complete_storage_key_revocation (begin_storage_key_revocation a) r.

(** ** Admission checks *)

Definition validate_scheduler_admission (r : registry) (ls : lifecycle_state)
    (root_phys asce_raw : Z) : expected unit :=
  if negb (g_isolation_initialized r) then Unexpected (from_generic uninitialized)
  else if negb (bool_decide (ls = active)) || (root_phys =? 0) || (asce_raw =? 0)
  then Unexpected (from_generic invalid_arg) else Expected tt.

Inductive sched_class_id := class_idle | class_fair | class_rt | class_deadline.

Record sched_policy := SchedPolicy {
  class_id : sched_class_id; rt_priority : Z; runtime_ns : Z; deadline_ns : Z;
  period_ns : Z; allowed_cpus : Z; allowed_numa_nodes : Z; allow_smt_sibling : bool
}.

Record sched_admission_result := SchedAdmissionResult {
  admitted_runtime_ns : Z; admitted_period_ns : Z; preferred_cpu : Z;
  remote_node_allowed : bool; smt_sibling_allowed : bool; admitted_class : sched_class_id
}.

Definition mask_is_valid (bits limit : Z) : bool :=
  if bits =? 0 then true
  else if 64 <=? limit then true
  else Z.ldiff bits (Z.shiftl 1 limit - 1) =? 0.

Definition validate_scheduler_policy (max_cpus : Z) (ls : lifecycle_state)
    (p : sched_policy) (has_rt_authority : bool) : expected sched_admission_result :=
  let refuse := Unexpected (from_generic invalid_arg) in
  let result rt per := SchedAdmissionResult rt per 0 true (allow_smt_sibling p) (class_id p) in
  if negb (bool_decide (ls = active)) then refuse
  else
    match class_id p with
    | class_idle | class_fair => Expected (result 0 0)
    | class_rt =>
        if negb has_rt_authority || (rt_priority p =? 0) || (99 <? rt_priority p) then refuse
        else if (runtime_ns p =? 0) || (period_ns p =? 0) || (period_ns p <? runtime_ns p)
        then refuse
        else if negb (mask_is_valid (allowed_cpus p) max_cpus)
                || negb (mask_is_valid (allowed_numa_nodes p) 64) then refuse
        else Expected (result (runtime_ns p) (period_ns p))
    | class_deadline =>
        if negb has_rt_authority then refuse
        else if (runtime_ns p =? 0) || (deadline_ns p =? 0) || (period_ns p =? 0)
                || (deadline_ns p <? runtime_ns p) || (period_ns p <? deadline_ns p)
        then refuse
        else if negb (mask_is_valid (allowed_cpus p) max_cpus)
                || negb (mask_is_valid (allowed_numa_nodes p) 64) then refuse
        else Expected (result (runtime_ns p) (period_ns p))
    end.

Definition validate_gate_entry (r : registry) (caller_domain_id gate_id requested : Z)
    : expected unit :=
  let refuse := Unexpected (from_generic invalid_arg) in
  if negb (g_isolation_initialized r) then refuse
  else if requested =? right_none then refuse
  else if MAX_DOMAINS <=? caller_domain_id then refuse
  else if 31 <? Z.shiftr gate_id 5 then refuse
  else Expected tt.

Definition validate_portal (r : registry) (start end_ requested : Z) : expected unit :=
  let refuse := Unexpected (from_generic invalid_arg) in
  if negb (g_isolation_initialized r) then refuse
  else if end_ <=? start then refuse
  else if negb (has_all_rights requested right_share) then refuse
  else Expected tt.

(** ** Rights of a domain *)

(** The part of [domain] that authorization reads. *)
Record domain := Domain {
  ko : bobject; granted_rights : Z; pending_rights_revoke_raw : Z; revocation_epoch : Z
}.

Definition revoke_domain_rights (d : domain) (drop_mask : Z) : expected unit * domain :=
  if negb (bool_decide (state (ko d) = active))
  then (Unexpected (from_generic invalid_arg), d)
  else
    let effective_drop := Z.land drop_mask (granted_rights d) in
    if effective_drop =? 0 then (Expected tt, d)
    else
      (Expected tt,
       Domain (ko d) (Z.ldiff (granted_rights d) effective_drop)
         (Z.lor (pending_rights_revoke_raw d) effective_drop)
         (u16 (revocation_epoch d + 1))).

(** ** Bit masks *)

Lemma has_all_rights_bits a r :
  has_all_rights a r = true <-> forall i, 0 <= i -> Z.testbit r i = true -> Z.testbit a i = true.
Proof.
  unfold has_all_rights. rewrite Z.eqb_eq. split.
  - intros Heq i Hi Hr. rewrite <-Heq, Z.land_spec in Hr.
    by apply andb_true_iff in Hr as [? _].
  - intros Hb. apply Z.bits_inj'. intros i Hi. rewrite Z.land_spec.
    destruct (Z.testbit r i) eqn:E; [|by rewrite andb_false_r].
    by rewrite (Hb i Hi E).
Qed.

Lemma has_all_rights_lor a r s :
  has_all_rights a (Z.lor r s) = has_all_rights a r && has_all_rights a s.
Proof.
  apply eq_bool_prop_intro. rewrite andb_True. rewrite !Is_true_true, !has_all_rights_bits.
  setoid_rewrite Z.lor_spec. setoid_rewrite orb_true_iff. split.
  - intros H0. split; intros i Hi Hr; apply H0; tauto.
  - intros [H1 H2] i Hi [Hr|Hr]; [by apply H1|by apply H2].
Qed.

(** ** Allocation of keys *)

Lemma key_used_set k b r j : key_used (set_used k b r) j = if decide (j = k) then b else key_used r j.
Proof.
  unfold key_used, set_used; cbn [g_storage_key_used].
  destruct (decide (j = k)) as [->|Hne]; [by rewrite lookup_insert_eq|by rewrite lookup_insert_ne].
Qed.

Lemma key_generation_set k g r j :
  key_generation (set_key_generation k g r) j = if decide (j = k) then g else key_generation r j.
Proof.
  unfold key_generation, set_key_generation; cbn [g_storage_key_generation].
  destruct (decide (j = k)) as [->|Hne]; [by rewrite lookup_insert_eq|by rewrite lookup_insert_ne].
Qed.

Lemma first_free_spec r k n :
  match first_free r k n with
  | Some j => k <= j < k + Z.of_nat n /\ key_used r j = false /\
              forall i, k <= i < j -> key_used r i = true
  | None => forall i, k <= i < k + Z.of_nat n -> key_used r i = true
  end.
Proof.
  revert k. induction n as [|n IH]; intros k; cbn [first_free].
  { intros i Hi. lia. }
  destruct (key_used r k) eqn:E; cbn [negb].
  - specialize (IH (k + 1)). destruct (first_free r (k + 1) n) as [j|].
    + destruct IH as (H1 & H2 & H3). split; [lia|]. split; [done|].
      intros i Hi. destruct (decide (i = k)) as [->|]; [done|]. apply H3. lia.
    + intros i Hi. destruct (decide (i = k)) as [->|]; [done|]. apply IH. lia.
  - split; [lia|]. split; [done|]. intros i Hi. lia.
Qed.

Definition user_key (k : Z) : Prop := STORAGE_KEY_USER_BASE <= k <= STORAGE_KEY_USER_MAX.

#[global] Instance user_key_dec k : Decision (user_key k).
Proof. unfold user_key. apply _. Defined.

(** The three outcomes of an allocation. *)
Lemma allocate_spec req r :
  (exists k, allocate_storage_key req r = (Expected k, set_used k true r) /\
     user_key k /\ key_used r k = false) \/
  (exists e, allocate_storage_key req r = (Unexpected e, r)).
Proof.
  unfold allocate_storage_key, user_key. destruct (Z.eqb_spec req STORAGE_KEY_AUTO) as [->|Hne];
    cbn [negb].
  - pose proof (first_free_spec r STORAGE_KEY_USER_BASE
      (Z.to_nat (STORAGE_KEY_USER_MAX - STORAGE_KEY_USER_BASE + 1))) as Hf.
    destruct (first_free _ _ _) as [k|]; [left|right; by eexists].
    destruct Hf as (H1 & H2 & _). exists k. split; [done|]. split; [|done].
    unfold STORAGE_KEY_USER_BASE, STORAGE_KEY_USER_MAX in *. lia.
  - destruct (Z.ltb_spec req STORAGE_KEY_USER_BASE); cbn [orb]; [right; by eexists|].
    destruct (Z.ltb_spec STORAGE_KEY_USER_MAX req); cbn [orb]; [right; by eexists|].
    destruct (key_used r req) eqn:E; [right; by eexists|left].
    exists req. split; [done|]. split; [lia|done].
Qed.

(** Automatic storage-key allocation hands out the lowest free user key
    and fails with [out_of_memory] exactly when all eight user keys are
    taken; a specific key is refused with [invalid_arg] outside 8..15 and
    with [out_of_memory] when taken.  A refused request changes nothing, a
    granted one marks exactly that key. *)
Theorem allocate_key_exact req r :
  let '(res, r') := allocate_storage_key req r in
  match res with
  | Expected k =>
      user_key k /\ key_used r k = false /\ r' = set_used k true r /\
      (req = STORAGE_KEY_AUTO -> forall j, user_key j -> key_used r j = false -> k <= j) /\
      (req <> STORAGE_KEY_AUTO -> k = req)
  | Unexpected e =>
      r' = r /\
      ((e = from_memory mem_out_of_memory /\
        (req = STORAGE_KEY_AUTO /\ (forall j, user_key j -> key_used r j = true) \/
         user_key req /\ key_used r req = true)) \/
       (e = from_generic invalid_arg /\ req <> STORAGE_KEY_AUTO /\ ~ user_key req))
  end.
Proof.
  unfold allocate_storage_key, user_key. destruct (Z.eqb_spec req STORAGE_KEY_AUTO) as [->|Hne];
    cbn [negb].
  - pose proof (first_free_spec r STORAGE_KEY_USER_BASE
      (Z.to_nat (STORAGE_KEY_USER_MAX - STORAGE_KEY_USER_BASE + 1))) as Hf.
    unfold STORAGE_KEY_USER_BASE, STORAGE_KEY_USER_MAX in *.
    destruct (first_free _ _ _) as [k|].
    + destruct Hf as (H1 & H2 & H3). split; [lia|]. split; [done|]. split; [done|].
      split; [|done]. intros _ j Hj Hu. destruct (decide (k <= j)) as [|Hlt]; [done|].
      rewrite H3 in Hu by lia. done.
    + split; [done|]. left. split; [done|]. left. split; [done|].
      intros j Hj. apply Hf. lia.
  - destruct (Z.ltb_spec req STORAGE_KEY_USER_BASE); cbn [orb].
    { split; [done|]. right. split; [done|]. split; [done|]. lia. }
    destruct (Z.ltb_spec STORAGE_KEY_USER_MAX req); cbn [orb].
    { split; [done|]. right. split; [done|]. split; [done|]. lia. }
    destruct (key_used r req) eqn:E.
    + split; [done|]. left. split; [done|]. right. split; [lia|done].
    + split; [lia|]. split; [done|]. split; [done|]. split; [done|]. done.
Qed.

(** ** Exclusive ownership of keys *)

Record machine := Machine { reg : registry; domains : gmap Z key_authority }.

Definition authority_of (s : isolation_domain_state) : key_authority :=
  KeyAuthority embryo (st_storage_key s) (st_storage_key_generation s)
    (st_storage_key_state s) (st_revocation_epoch s).

Definition with_lifecycle (ls : lifecycle_state) (a : key_authority) : key_authority :=
  KeyAuthority ls (ka_key a) (ka_key_generation a) (ka_key_state a) (ka_epoch a).

(** The operations on domains, in any order and any number of times.  The
    lifecycle state belongs to the object system and changes freely; a
    domain slot is forgotten once its key has been given back. *)
Inductive step : machine -> machine -> Prop :=
  | step_create id policy s r r' ds : ds !! id = None ->
      create_domain id policy r = (Expected s, r') ->
      step (Machine r ds) (Machine r' (<[id := authority_of s]> ds))
  | step_create_fails id policy e r r' ds :
      create_domain id policy r = (Unexpected e, r') ->
      step (Machine r ds) (Machine r' ds)
  | step_lifecycle id a ls r ds : ds !! id = Some a ->
      step (Machine r ds) (Machine r (<[id := with_lifecycle ls a]> ds))
  | step_portal id a r ds : ds !! id = Some a ->
      step (Machine r ds) (Machine r (<[id := begin_portal_teardown a]> ds))
  | step_begin id a r ds : ds !! id = Some a ->
      step (Machine r ds) (Machine r (<[id := begin_storage_key_revocation a]> ds))
  | step_complete id a res a' r r' ds : ds !! id = Some a ->
      complete_storage_key_revocation a r = (res, a', r') ->
      step (Machine r ds) (Machine r' (<[id := a']> ds))
  | step_destroy id a res a' r r' ds : ds !! id = Some a ->
      destroy_domain a r = (res, a', r') ->
      step (Machine r ds) (Machine r' (<[id := a']> ds))
  | step_forget id a r ds : ds !! id = Some a -> ka_key_state a = sk_reusable ->
      step (Machine r ds) (Machine r (delete id ds)).

Inductive reachable : machine -> Prop :=
  | reach_init r : reachable (Machine (isolation_init r) ∅)
  | reach_step m m' : reachable m -> step m m' -> reachable m'.

Definition holds (a : key_authority) (k : Z) : Prop :=
  ka_key a = k /\ ka_key_state a <> sk_reusable.

Record keys_ok (m : machine) : Prop := {
  ko_used : forall k, user_key k ->
    key_used (reg m) k = true <-> exists id a, domains m !! id = Some a /\ holds a k;
  ko_unique : forall i j a b k, domains m !! i = Some a -> domains m !! j = Some b ->
    holds a k -> holds b k -> i = j;
  ko_user : forall i a, domains m !! i = Some a -> user_key (ka_key a);
  ko_fresh : forall i a k, domains m !! i = Some a -> holds a k ->
    ka_key_generation a = key_generation (reg m) k
}.

(** Replacing one authority by another that holds the same key. *)
Lemma keys_ok_same r ds id a a' : keys_ok (Machine r ds) -> ds !! id = Some a ->
  ka_key a' = ka_key a -> ka_key_generation a' = ka_key_generation a ->
  (ka_key_state a' = sk_reusable <-> ka_key_state a = sk_reusable) ->
  keys_ok (Machine r (<[id := a']> ds)).
Proof.
  intros [H1 H2 H3 H4] Hid Hk Hg Hs. cbn [reg domains] in *.
  assert (Hh : forall k, holds a' k <-> holds a k).
  { intros k. unfold holds. by rewrite Hk, Hs. }
  assert (Hback : forall i b, <[id := a']> ds !! i = Some b -> exists c,
    ds !! i = Some c /\ ka_key b = ka_key c /\ ka_key_generation b = ka_key_generation c /\
    forall k, holds b k <-> holds c k).
  { intros i b Hb. apply lookup_insert_Some in Hb as [[<- <-]|[Hne Hb]];
      [by exists a|by exists b]. }
  split; cbn [reg domains].
  - intros k Hu. rewrite (H1 k Hu). split; intros (i & b & Hb & Hhb).
    + destruct (decide (i = id)) as [->|Hne].
      * exists id, a'. rewrite lookup_insert_eq. split; [done|]. apply Hh. congruence.
      * exists i, b. by rewrite lookup_insert_ne.
    + apply Hback in Hb as (c & Hc & _ & _ & Hbc). exists i, c. split; [done|]. by apply Hbc.
  - intros i j b c k Hb Hc Hhb Hhc.
    apply Hback in Hb as (b0 & Hb & _ & _ & Hbb). apply Hback in Hc as (c0 & Hc & _ & _ & Hcc).
    apply (H2 i j b0 c0 k); [done..|by apply Hbb|by apply Hcc].
  - intros i b Hb. apply Hback in Hb as (c & Hc & -> & _). by apply (H3 i c).
  - intros i b k Hb Hhb. apply Hback in Hb as (c & Hc & _ & -> & Hbc).
    apply (H4 i c k Hc). by apply Hbc.
Qed.

Lemma complete_cases a r : user_key (ka_key a) ->
  (ka_key_state a = sk_draining /\ key_used r (ka_key a) = true /\
   complete_storage_key_revocation a r =
     (Expected tt,
      KeyAuthority (ka_state a) (ka_key a) (u32 (key_generation r (ka_key a) + 1))
        sk_reusable (ka_epoch a),
      bump_contract (set_key_generation (ka_key a) (u32 (key_generation r (ka_key a) + 1))
        (set_used (ka_key a) false r)))) \/
  (ka_key_state a = sk_draining /\ key_used r (ka_key a) = false /\
   exists g, complete_storage_key_revocation a r =
     (Expected tt, KeyAuthority (ka_state a) (ka_key a) g sk_reusable (ka_epoch a),
      bump_contract r)) \/
  (ka_key_state a <> sk_draining /\ exists res,
   complete_storage_key_revocation a r = (res, a, r)).
Proof.
  intros Hu. unfold complete_storage_key_revocation, user_key in *.
  unfold STORAGE_KEY_USER_BASE, STORAGE_KEY_USER_MAX in Hu.
  destruct (bool_decide_reflect (ka_key_state a = sk_reusable)) as [Hr|Hr]; cbn [orb].
  { right; right. split; [by rewrite Hr|]. eexists.
    destruct a as [? ? ? ks ?]; cbn in *. by subst ks. }
  rewrite (proj2 (Z.eqb_neq (ka_key a) 0)) by lia.
  destruct (bool_decide_reflect (ka_key_state a = sk_draining)) as [Hd|Hd]; cbn [negb].
  2:{ right; right. split; [done|]. by eexists. }
  unfold release_storage_key.
  rewrite (proj2 (Z.leb_le STORAGE_KEY_USER_BASE (ka_key a))) by (unfold STORAGE_KEY_USER_BASE; lia).
  rewrite (proj2 (Z.leb_le (ka_key a) STORAGE_KEY_USER_MAX)) by (unfold STORAGE_KEY_USER_MAX; lia).
  cbn [andb]. destruct (key_used r (ka_key a)) eqn:E.
  - left. split; [done|]. split; [done|]. by rewrite key_generation_set, decide_True.
  - right; left. split; [done|]. split; [done|]. by eexists.
Qed.

(** Giving the key of [id] back. *)
Lemma keys_ok_release r ds id a g : keys_ok (Machine r ds) -> ds !! id = Some a ->
  ka_key_state a <> sk_reusable ->
  keys_ok (Machine
    (bump_contract (set_key_generation (ka_key a) g (set_used (ka_key a) false r)))
    (<[id := KeyAuthority (ka_state a) (ka_key a) g sk_reusable (ka_epoch a)]> ds)).
Proof.
  intros [H1 H2 H3 H4] Hid Hs. cbn [reg domains] in *.
  set (r' := bump_contract _).
  assert (Hused : forall k, key_used r' k = if decide (k = ka_key a) then false else key_used r k).
  { intros k. transitivity (key_used (set_used (ka_key a) false r) k); [done|]. apply key_used_set. }
  assert (Hgen : forall k, k <> ka_key a -> key_generation r' k = key_generation r k).
  { intros k Hk. transitivity (key_generation (set_key_generation (ka_key a) g
      (set_used (ka_key a) false r)) k); [done|].
    by rewrite key_generation_set, decide_False. }
  assert (Hother : forall i b k, i <> id -> ds !! i = Some b -> holds b k -> k <> ka_key a).
  { intros i b k Hne Hb Hhb ->. apply Hne. by apply (H2 i id b a (ka_key a)). }
  assert (Hback : forall i b k, <[id := KeyAuthority (ka_state a) (ka_key a) g sk_reusable
      (ka_epoch a)]> ds !! i = Some b -> holds b k -> i <> id /\ ds !! i = Some b).
  { intros i b k Hb Hhb. apply lookup_insert_Some in Hb as [[<- <-]|[Hne Hb]]; [|done].
    by destruct Hhb as [_ Hhb]. }
  split; cbn [reg domains].
  - intros k Hu. rewrite Hused. case_decide as Hk.
    + split; [done|]. intros (i & b & Hb & Hhb). destruct (Hback i b k Hb Hhb) as [Hne Hb'].
      by destruct (Hother i b k Hne Hb' Hhb).
    + rewrite (H1 k Hu). split; intros (i & b & Hb & Hhb).
      * exists i, b. split; [|done]. rewrite lookup_insert_ne; [done|]. intros <-.
        rewrite Hid in Hb. injection Hb as <-. destruct Hhb as [Hhb _]. congruence.
      * destruct (Hback i b k Hb Hhb) as [_ Hb']. by exists i, b.
  - intros i j b c k Hb Hc Hhb Hhc.
    destruct (Hback i b k Hb Hhb) as [_ Hb']. destruct (Hback j c k Hc Hhc) as [_ Hc'].
    by apply (H2 i j b c k).
  - intros i b Hb. apply lookup_insert_Some in Hb as [[<- <-]|[Hne Hb]]; [|by apply (H3 i)].
    cbn [ka_key]. by apply (H3 id).
  - intros i b k Hb Hhb. destruct (Hback i b k Hb Hhb) as [Hne Hb'].
    rewrite Hgen by (by apply (Hother i b)). by apply (H4 i b).
Qed.

Lemma keys_ok_complete r ds id a res a' r' : keys_ok (Machine r ds) -> ds !! id = Some a ->
  complete_storage_key_revocation a r = (res, a', r') ->
  keys_ok (Machine r' (<[id := a']> ds)).
Proof.
  intros Hok Hid Hrun. pose proof (ko_user _ Hok id a Hid) as Hu.
  destruct (complete_cases a r Hu) as [(Hd & Huse & Heq)|[(Hd & Huse & g & Heq)|(Hd & res0 & Heq)]];
    rewrite Heq in Hrun; injection Hrun as <- <- <-.
  - apply keys_ok_release; [done..|]. by rewrite Hd.
  - exfalso. assert (key_used r (ka_key a) = true); [|congruence].
    apply (ko_used _ Hok (ka_key a) Hu). exists id, a. split; [done|].
    split; [done|]. by rewrite Hd.
  - by apply (keys_ok_same r ds id a a).
Qed.

Lemma begin_same a :
  ka_key (begin_storage_key_revocation a) = ka_key a /\
  ka_key_generation (begin_storage_key_revocation a) = ka_key_generation a /\
  (ka_key_state (begin_storage_key_revocation a) = sk_reusable <-> ka_key_state a = sk_reusable).
Proof.
  unfold begin_storage_key_revocation.
  destruct (bool_decide_reflect (ka_state a = destroyed)); cbn [orb]; [done|].
  destruct (bool_decide_reflect (ka_key_state a = sk_reusable)); done.
Qed.

Lemma keys_ok_begin r ds id a : keys_ok (Machine r ds) -> ds !! id = Some a ->
  keys_ok (Machine r (<[id := begin_storage_key_revocation a]> ds)).
Proof.
  intros Hok Hid. destruct (begin_same a) as (H1 & H2 & H3).
  by apply (keys_ok_same r ds id a).
Qed.

Lemma keys_ok_create id policy s r r' ds : keys_ok (Machine r ds) -> ds !! id = None ->
  create_domain id policy r = (Expected s, r') ->
  keys_ok (Machine r' (<[id := authority_of s]> ds)).
Proof.
  intros [H1 H2 H3 H4] Hid Hrun. cbn [reg domains] in *. unfold create_domain in Hrun.
  destruct (negb _); [done|].
  destruct (allocate_spec (pol_storage_key policy) r) as [(k & Heq & Hu & Hfree)|(e & Heq)];
    rewrite Heq in Hrun; [|done].
  injection Hrun as <- <-. set (a := authority_of _).
  assert (Ha : ka_key a = k /\ ka_key_state a = sk_active) by done.
  assert (Hnone : forall i b, ds !! i = Some b -> holds b k -> False).
  { intros i b Hb Hhb. assert (key_used r k = true); [|congruence].
    apply (H1 k Hu). by exists i, b. }
  assert (Hgen : forall j, key_generation (set_used k true r) j = key_generation r j) by done.
  split; cbn [reg domains].
  - intros j Hj. rewrite key_used_set. case_decide as Hjk.
    + split; [|done]. intros _. exists id, a. rewrite lookup_insert_eq. split; [done|].
      subst j. split; [exact (proj1 Ha)|done].
    + rewrite (H1 j Hj). split; intros (i & b & Hb & Hhb).
      * exists i, b. split; [|done]. rewrite lookup_insert_ne; [done|]. congruence.
      * apply lookup_insert_Some in Hb as [[<- <-]|[Hne Hb]]; [|by exists i, b].
        destruct Hhb as [Hhb _]. destruct Ha as [Ha _]. congruence.
  - intros i j b c k' Hb Hc Hhb Hhc.
    apply lookup_insert_Some in Hb as [[<- <-]|[Hnb Hb]];
      apply lookup_insert_Some in Hc as [[<- <-]|[Hnc Hc]]; [done| | |by apply (H2 i j b c k')].
    + exfalso. apply (Hnone j c Hc). destruct Hhb as [Hka _].
      rewrite (proj1 Ha) in Hka. by subst k'.
    + exfalso. apply (Hnone i b Hb). destruct Hhc as [Hka _].
      rewrite (proj1 Ha) in Hka. by subst k'.
  - intros i b Hb. apply lookup_insert_Some in Hb as [[<- <-]|[Hne Hb]]; [|by apply (H3 i)].
    exact Hu.
  - intros i b k' Hb Hhb. rewrite Hgen.
    apply lookup_insert_Some in Hb as [[<- <-]|[Hne Hb]]; [|by apply (H4 i b)].
    destruct Hhb as [<- _]. subst a. cbn [authority_of ka_key ka_key_generation
      st_storage_key st_storage_key_generation]. unfold storage_key_generation_of.
    unfold user_key, STORAGE_KEY_USER_BASE, STORAGE_KEY_USER_MAX, STORAGE_KEY_COUNT in *.
    destruct (Z.leb_spec 16 k); [lia|done].
Qed.

Lemma keys_ok_step m m' : keys_ok m -> step m m' -> keys_ok m'.
Proof.
  intros Hok Hstep. destruct Hstep.
  - by eapply keys_ok_create.
  - unfold create_domain in H. destruct (negb _); [by injection H as _ <-|].
    destruct (allocate_spec (pol_storage_key policy) r) as [(k & Heq & _)|(e0 & Heq)];
      rewrite Heq in H; [done|]. by injection H as _ <-.
  - by apply (keys_ok_same r ds id a).
  - by apply (keys_ok_same r ds id a).
  - by apply keys_ok_begin.
  - by eapply keys_ok_complete.
  - unfold destroy_domain in H0. destruct (bool_decide_reflect (ka_state a = destroyed)).
    { injection H0 as <- <- <-. by apply (keys_ok_same r ds id a a). }
    pose proof (keys_ok_begin r ds id a Hok H) as Hok1.
    rewrite <-(insert_insert_eq ds id a' (begin_storage_key_revocation a)).
    eapply keys_ok_complete; [exact Hok1| |exact H0]. apply lookup_insert_eq.
  - destruct Hok as [H1 H2 H3 H4]. cbn [reg domains] in *.
    assert (Hback : forall i b, delete id ds !! i = Some b -> ds !! i = Some b).
    { intros i b Hb. by apply lookup_delete_Some in Hb as [_ ?]. }
    split; cbn [reg domains].
    + intros k Hu. rewrite (H1 k Hu). split; intros (i & b & Hb & Hhb).
      * exists i, b. split; [|done]. rewrite lookup_delete_ne; [done|]. intros <-.
        rewrite H in Hb. injection Hb as <-. by destruct Hhb.
      * exists i, b. split; [by apply Hback|done].
    + intros i j b c k Hb Hc. apply (H2 i j b c k); by apply Hback.
    + intros i b Hb. apply (H3 i). by apply Hback.
    + intros i b k Hb. apply (H4 i). by apply Hback.
Qed.

Lemma init_used r k : user_key k -> key_used (isolation_init r) k = false.
Proof.
  unfold user_key, STORAGE_KEY_USER_BASE, STORAGE_KEY_USER_MAX. intros Hk.
  assert (Hin : k ∈ seqZ 8 8) by (apply elem_of_seqZ; lia).
  clear Hk. revert k Hin. apply list.Forall_forall. vm_compute. repeat constructor.
Qed.

Lemma reachable_keys_ok m : reachable m -> keys_ok m.
Proof.
  induction 1 as [r|m m' _ IH Hs]; [|by eapply keys_ok_step].
  split; cbn [reg domains].
  - intros k Hu. rewrite init_used by done. split; [done|].
    intros (i & a & Ha & _). by rewrite lookup_empty in Ha.
  - intros i j a b k Ha. by rewrite lookup_empty in Ha.
  - intros i a Ha. by rewrite lookup_empty in Ha.
  - intros i a k Ha. by rewrite lookup_empty in Ha.
Qed.

(** C10: Storage keys are owned exclusively.  In every state reachable from
    [init] by creating domains, tearing them down (in any order, repeatedly,
    with lifecycle changes in between) and recycling their slots, two
    domains whose keys have not been given back never hold the same key,
    every held key is one of the user keys 8..15, carries the registry's
    current generation, and the registry marks a user key as taken exactly
    while some domain holds it. *)
Theorem storage_keys_exclusive m : reachable m ->
  (forall i j a b, domains m !! i = Some a -> domains m !! j = Some b -> i <> j ->
     ka_key_state a <> sk_reusable -> ka_key_state b <> sk_reusable ->
     ka_key a <> ka_key b) /\
  (forall i a, domains m !! i = Some a -> ka_key_state a <> sk_reusable ->
     8 <= ka_key a <= 15 /\ ka_key_generation a = key_generation (reg m) (ka_key a)) /\
  (forall k, 8 <= k <= 15 -> key_used (reg m) k = true <->
     exists i a, domains m !! i = Some a /\ ka_key a = k /\ ka_key_state a <> sk_reusable).
Proof.
  intros Hr. destruct (reachable_keys_ok m Hr) as [H1 H2 H3 H4]. split; [|split].
  - intros i j a b Ha Hb Hne Hsa Hsb Heq. apply Hne. by apply (H2 i j a b (ka_key a)).
  - intros i a Ha Hs. split; [by apply (H3 i)|by apply (H4 i)].
  - exact H1.
Qed.

(** Two domains, the first one torn down again. *)
Definition demo_policy : isolation_policy := IsolationPolicy right_map STORAGE_KEY_AUTO 0 false.

Lemma storage_keys_exclusive_witness : exists m a,
  reachable m /\ domains m !! 2 = Some a /\ ka_key_state a <> sk_reusable /\
  8 <= ka_key a <= 15 /\ key_used (reg m) 8 = false.
Proof.
  assert (Hr : exists m a, reachable m /\ domains m !! 2 = Some a /\
    ka_key_state a <> sk_reusable /\ key_used (reg m) 8 = false).
  { eexists _, _. split; [|split; [|split]].
    - eapply reach_step; [eapply reach_step; [eapply reach_step; [apply (reach_init
        (Registry false ∅ ∅ 1))|]|]|].
      + apply (step_create 1 demo_policy); [apply lookup_empty|vm_compute; reflexivity].
      + apply (step_create 2 demo_policy); [vm_compute; reflexivity|vm_compute; reflexivity].
      + eapply (step_destroy 1); [vm_compute; reflexivity|vm_compute; reflexivity].
    - vm_compute; reflexivity.
    - vm_compute; discriminate.
    - vm_compute; reflexivity. }
  destruct Hr as (m & a & Hr & Ha & Hs & Hu). exists m, a.
  split; [exact Hr|]. split; [exact Ha|]. split; [exact Hs|]. split; [|exact Hu].
  apply (storage_keys_exclusive m Hr) with (i := 2); [exact Ha|exact Hs].
Defined.

(** Creating a domain and destroying it gives the registry back: the
    same keys are taken as before and only the generation of the domain's
    key has advanced, by one modulo [2^32], so that records of the old
    holder no longer match; a second destruction changes nothing. *)
Theorem create_destroy_roundtrip id policy s r r' ls :
  create_domain id policy r = (Expected s, r') -> ls <> destroyed ->
  exists a' r'',
    destroy_domain (with_lifecycle ls (authority_of s)) r' = (Expected tt, a', r'') /\
    (forall k, key_used r'' k = key_used r k) /\
    (forall k, key_generation r'' k =
       if decide (k = st_storage_key s) then u32 (key_generation r k + 1)
       else key_generation r k) /\
    contract_generation r'' = u64 (contract_generation r + 1) /\
    destroy_domain a' r'' = (Expected tt, a', r'').
Proof.
  intros Hrun Hls. unfold create_domain in Hrun. destruct (negb _); [done|].
  destruct (allocate_spec (pol_storage_key policy) r) as [(k & Heq & Hu & Hfree)|(e & Heq)];
    rewrite Heq in Hrun; [|done].
  injection Hrun as <- <-. unfold destroy_domain at 1. cbn [with_lifecycle ka_state authority_of].
  rewrite bool_decide_false by done. set (a := begin_storage_key_revocation _).
  assert (Ha : ka_key a = k /\ ka_key_state a = sk_draining /\ ka_state a = dying).
  { subst a. unfold begin_storage_key_revocation, with_lifecycle, authority_of.
    cbn [ka_state ka_key_state st_storage_key_state]. rewrite bool_decide_false by done. done. }
  destruct Ha as (Hk & Hd & Hdy).
  destruct (complete_cases a (set_used k true r)) as [(_ & _ & Hc)|[(_ & Hc & _)|(Hc & _)]].
  - by rewrite Hk.
  - rewrite Hc, Hk. eexists _, _. split; [done|]. cbn [st_storage_key].
    split; [|split; [|split]].
    + intros j. transitivity (key_used (set_used k false (set_used k true r)) j); [done|].
      rewrite !key_used_set. case_decide as Hj; [by rewrite Hj|done].
    + intros j. transitivity (key_generation (set_key_generation k
        (u32 (key_generation r k + 1)) (set_used k true r)) j); [done|].
      rewrite key_generation_set. case_decide as Hj; [by rewrite Hj|done].
    + done.
    + unfold destroy_domain, begin_storage_key_revocation, complete_storage_key_revocation.
      cbn [ka_state ka_key_state ka_key ka_key_generation ka_epoch]. rewrite Hdy. done.
  - rewrite Hk, key_used_set, decide_True in Hc by done. done.
  - by rewrite Hd in Hc.
Qed.

Lemma create_destroy_roundtrip_witness : exists s r' a' r'',
  create_domain 1 demo_policy (isolation_init (Registry false ∅ ∅ 1)) = (Expected s, r') /\
  destroy_domain (with_lifecycle active (authority_of s)) r' = (Expected tt, a', r'') /\
  key_generation r'' 8 = 2.
Proof.
  assert (Hc : exists s r', create_domain 1 demo_policy (isolation_init (Registry false ∅ ∅ 1))
    = (Expected s, r') /\ st_storage_key s = 8) by (eexists _, _; vm_compute; split; reflexivity).
  destruct Hc as (s & r' & Hc & Hk).
  destruct (create_destroy_roundtrip 1 demo_policy s _ r' active Hc ltac:(discriminate))
    as (a' & r'' & Hd & _ & Hg & _).
  exists s, r', a', r''. split; [exact Hc|]. split; [exact Hd|].
  rewrite Hg, Hk. vm_compute. reflexivity.
Defined.

(** ** Scheduler admission *)

Lemma mask_is_valid_bits bits limit : 0 <= bits < 2 ^ 64 -> 0 <= limit ->
  mask_is_valid bits limit = true <-> forall i, limit <= i -> Z.testbit bits i = false.
Proof.
  intros Hb Hl. unfold mask_is_valid.
  assert (Hhigh : forall i, 64 <= i -> Z.testbit bits i = false).
  { intros i Hi. destruct (decide (bits = 0)) as [->|]; [apply Z.bits_0|].
    apply Z.bits_above_log2; [lia|]. apply Z.log2_lt_pow2; [lia|].
    eapply Z.lt_le_trans; [apply Hb|]. apply Z.pow_le_mono_r; lia. }
  destruct (Z.eqb_spec bits 0) as [->|Hb0].
  { split; [|done]. intros _ i _. apply Z.bits_0. }
  destruct (Z.leb_spec 64 limit).
  { split; [|done]. intros _ i Hi. apply Hhigh. lia. }
  rewrite Z.eqb_eq.
  assert (Hones : Z.shiftl 1 limit - 1 = Z.ones limit).
  { rewrite Z.ones_equiv, Z.shiftl_1_l. lia. }
  rewrite Hones. rewrite Z.ldiff_ones_r by lia. split.
  - intros Hz i Hi. apply (f_equal (fun z => Z.testbit z i)) in Hz.
    rewrite Z.bits_0, Z.shiftl_spec, Z.shiftr_spec in Hz by lia.
    replace (i - limit + limit) with i in Hz by lia. done.
  - intros Hi. apply Z.bits_inj'. intros i Hi0.
    rewrite Z.bits_0, Z.shiftl_spec by lia. destruct (decide (limit <= i)).
    + rewrite Z.shiftr_spec by lia. apply Hi. lia.
    + apply Z.testbit_neg_r. lia.
Qed.

(** What the scheduler policy of a real-time or deadline strand must
    satisfy. *)
Definition reservation_ok (max_cpus : Z) (p : sched_policy) (authority : bool) : Prop :=
  authority = true /\ 0 < runtime_ns p <= period_ns p /\
  (forall i, max_cpus <= i -> Z.testbit (allowed_cpus p) i = false) /\
  match class_id p with
  | class_rt => 1 <= rt_priority p <= 99
  | _ => runtime_ns p <= deadline_ns p <= period_ns p
  end.

(** Scheduler admission accepts exactly active domains, and real-time
    and deadline strands only with authority, a positive reservation within
    its period (and within its deadline), a priority in 1..99 and a CPU mask
    naming existing CPUs; an accepted reservation is admitted as requested,
    and idle and fair strands reserve nothing. *)
Theorem scheduler_admission_exact max_cpus ls p authority :
  0 <= max_cpus -> 0 <= rt_priority p -> 0 <= runtime_ns p -> 0 <= deadline_ns p ->
  0 <= period_ns p -> fits 64 (allowed_cpus p) ->
  match validate_scheduler_policy max_cpus ls p authority with
  | Expected res =>
      ls = active /\ admitted_class res = class_id p /\
      match class_id p with
      | class_idle | class_fair => admitted_runtime_ns res = 0 /\ admitted_period_ns res = 0
      | _ => reservation_ok max_cpus p authority /\
             admitted_runtime_ns res = runtime_ns p /\ admitted_period_ns res = period_ns p
      end
  | Unexpected e =>
      e = from_generic invalid_arg /\
      (ls <> active \/
       ((class_id p = class_rt \/ class_id p = class_deadline) /\
        ~ reservation_ok max_cpus p authority))
  end.
Proof.
  intros Hm Hp Hrt Hdl Hper Hc. unfold validate_scheduler_policy, reservation_ok.
  pose proof (mask_is_valid_bits (allowed_cpus p) max_cpus Hc Hm) as Hmask.
  set (Q := forall i, max_cpus <= i -> Z.testbit (allowed_cpus p) i = false) in *.
  assert (Hn : mask_is_valid (allowed_numa_nodes p) 64 = true).
  { unfold mask_is_valid. by destruct (_ =? 0). }
  rewrite Hn. cbn [negb].
  destruct (bool_decide_reflect (ls = active)) as [->|Hls]; cbn [negb]; [|by split; [|left]].
  destruct (class_id p); try done.
  - destruct authority; cbn [negb orb].
    2:{ split; [done|]. right. split; [by left|]. intros [? _]. done. }
    destruct (Z.eqb_spec (rt_priority p) 0), (Z.ltb_spec 99 (rt_priority p)),
      (Z.eqb_spec (runtime_ns p) 0), (Z.eqb_spec (period_ns p) 0),
      (Z.ltb_spec (period_ns p) (runtime_ns p)), (mask_is_valid (allowed_cpus p) max_cpus);
      cbn [negb orb admitted_class admitted_runtime_ns admitted_period_ns];
      first [ split; [done|]; split; [done|]; split; [|done];
              split; [done|]; split; [lia|]; split; [by apply Hmask|lia]
            | split; [done|]; right; split; [by left|];
              intros (_ & ? & HQ & ?); first [lia|apply Hmask in HQ; done] ].
  - destruct authority; cbn [negb orb].
    2:{ split; [done|]. right. split; [by right|]. intros [? _]. done. }
    destruct (Z.eqb_spec (deadline_ns p) 0), (Z.ltb_spec (deadline_ns p) (runtime_ns p)),
      (Z.eqb_spec (runtime_ns p) 0), (Z.eqb_spec (period_ns p) 0),
      (Z.ltb_spec (period_ns p) (deadline_ns p)), (mask_is_valid (allowed_cpus p) max_cpus);
      cbn [negb orb admitted_class admitted_runtime_ns admitted_period_ns];
      first [ split; [done|]; split; [done|]; split; [|done];
              split; [done|]; split; [lia|]; split; [by apply Hmask|lia]
            | split; [done|]; right; split; [by right|];
              intros (_ & ? & HQ & ?); first [lia|apply Hmask in HQ; done] ].
Qed.

Definition demo_rt : sched_policy := SchedPolicy class_rt 50 1000 0 5000 3 0 true.

Lemma scheduler_admission_exact_witness :
  reservation_ok 8 demo_rt true /\ ~ reservation_ok 1 demo_rt true.
Proof.
  assert (Hf : fits 64 (allowed_cpus demo_rt)) by (vm_compute; split; [discriminate|reflexivity]).
  split.
  - pose proof (scheduler_admission_exact 8 active demo_rt true ltac:(lia) ltac:(cbn; lia)
      ltac:(cbn; lia) ltac:(cbn; lia) ltac:(cbn; lia) Hf) as H.
    exact (proj1 (proj2 (proj2 H))).
  - pose proof (scheduler_admission_exact 1 active demo_rt true ltac:(lia) ltac:(cbn; lia)
      ltac:(cbn; lia) ltac:(cbn; lia) ltac:(cbn; lia) Hf) as H.
    destruct (proj2 H) as [Hne|Hr]; [destruct (Hne eq_refl)|exact (proj2 Hr)].
Defined.
