(* ===== verification/Authorize.v ===== *)
(** * DGP authorization ([src/zxfoundation/dgp/authorize.zcomponent] and
    [sync_contract.zcomponent])

    Every privileged operation passes through [authorize], which checks the
    two domains, the operation's metadata and the caller's rights, and
    returns a lease: a single-use proof bound to the generations of both
    objects.  Domains live in a heap (a map from addresses), since a lease
    keeps pointers to the object headers and is validated against their
    current contents.  The per-CPU synchronization state read by
    [contract_snapshot] is an argument. *)

From S2P Require Import Prelude Errors Kobject MemContract Isolation.

(** ** Synchronization contract *)

Inductive lock_context :=
  | ctx_boot_single_cpu | ctx_thread | ctx_irq_disabled | ctx_rcu_read_side | ctx_teardown.

Inductive irq_contract := irq_unchanged | irq_must_be_enabled | irq_must_be_disabled.

Inductive teardown_phase :=
  | phase_none | deny_new_entries | drain_gates | drain_portals | release_memory
  | release_identity.

#[global] Instance lock_context_eq_dec : EqDecision lock_context.
Proof. solve_decision. Defined.
#[global] Instance irq_contract_eq_dec : EqDecision irq_contract.
Proof. solve_decision. Defined.
#[global] Instance teardown_phase_eq_dec : EqDecision teardown_phase.
Proof. solve_decision. Defined.

Record percpu := PerCpu {
  pc_cpu_id : Z; pc_lock_depth : Z; pc_irqs_enabled : bool; pc_in_rcu_read_side : Z
}.

Record contract_state := ContractState {
  cs_domain_id : Z; cs_cpu_id : Z; cs_lock_depth : Z; cs_irqs_disabled : bool;
  cs_rcu_read_side : bool; cs_context : lock_context; cs_phase : teardown_phase
}.

Definition contract_snapshot (pc : percpu) (context : lock_context)
    (phase : teardown_phase) (domain_id : Z) : contract_state :=
  ContractState domain_id (pc_cpu_id pc) (u16 (pc_lock_depth pc))
    (negb (pc_irqs_enabled pc)) (negb (pc_in_rcu_read_side pc =? 0)) context phase.

Definition validate_irq_state (s : contract_state) (c : irq_contract) : expected unit :=
  if bool_decide (c = irq_must_be_disabled) && negb (cs_irqs_disabled s)
  then Unexpected (from_locking lock_not_locked)
  else if bool_decide (c = irq_must_be_enabled) && cs_irqs_disabled s
  then Unexpected (from_locking lock_already_locked)
  else Expected tt.

Definition validate_teardown_phase (current requested : teardown_phase) : expected unit :=
  let edge p q := bool_decide (current = p) && bool_decide (requested = q) in
  let is_next :=
    edge phase_none deny_new_entries || edge deny_new_entries drain_gates
    || edge drain_gates drain_portals || edge drain_portals release_memory
    || edge release_memory release_identity in
  if negb is_next then Unexpected (from_generic invalid_arg) else Expected tt.

Definition advance_teardown_phase (current expect requested : teardown_phase)
    : expected unit * teardown_phase :=
  if negb (bool_decide (current = expect)) then (Unexpected (from_generic invalid_arg), current)
  else
    match validate_teardown_phase expect requested with
    | Unexpected e => (Unexpected e, current)
    | Expected _ => (Expected tt, requested)
    end.

Definition validate_authority_lookup (s : contract_state) : expected unit :=
  if bool_decide (cs_context s = ctx_teardown) && bool_decide (cs_phase s = release_identity)
  then Unexpected (from_generic invalid_arg) else Expected tt.

(** ** Operations and metadata *)

Inductive operation_kind :=
  | op_none | op_domain_create | op_domain_destroy | op_domain_exit
  | op_domain_info | op_domain_query | op_strand_create | op_address_space_create
  | op_gate_create | op_gate_destroy | op_gate_entry | op_portal_create
  | op_portal_destroy | op_io_bind | op_io_unbind | op_io_submit | op_io_irq_bind
  | op_io_dma_extent | op_io_completion_dequeue | op_signal_register
  | op_signal_poll | op_signal_ack | op_signal_send | op_signal_mask_set
  | op_signal_mask_get | op_signal_wait | op_mem_alloc | op_mem_free | op_mem_map
  | op_mem_unmap | op_mem_protect | op_mem_share | op_cap_acquire | op_cap_release
  | op_cap_validate | op_cap_revoke | op_time_yield | op_time_deadline
  | op_time_now | op_console_write | op_register_service | op_lookup_service
  | op_unregister_service | op_strand_set_policy | op_strand_set_affinity
  | op_strand_query_state | op_ipc_endpoint_create | op_ipc_endpoint_destroy
  | op_ipc_send | op_ipc_receive | op_shm_export | op_shm_import | op_shm_map
  | op_policy_server_register | op_policy_server_unregister.

#[global] Instance operation_kind_eq_dec : EqDecision operation_kind.
Proof. solve_decision. Defined.

Record authorization_metadata := AuthorizationMetadata {
  requested_rights : Z; target_va_start : Z; target_va_end : Z; gate_id : Z
}.

Abbreviation heap := (gmap addr domain).

Record authorization_lease := AuthorizationLease {
  l_caller : addr; l_target : addr; l_caller_generation : Z; l_target_generation : Z;
  l_operation : operation_kind; l_rights : Z; l_consumed : bool
}.

Definition lease_valid (h : heap) (l : authorization_lease) : bool :=
  negb (l_consumed l) &&
  match h !! l_caller l, h !! l_target l with
  | Some c, Some t =>
      (generation (ko c) =? l_caller_generation l)
      && (generation (ko t) =? l_target_generation l)
      && bool_decide (state (ko c) = active) && bool_decide (state (ko t) = active)
  | _, _ => false
  end.

Definition consume (h : heap) (l : authorization_lease) : bool * authorization_lease :=
  if negb (lease_valid h l) then (false, l)
  else (true, AuthorizationLease (l_caller l) (l_target l) (l_caller_generation l)
          (l_target_generation l) (l_operation l) (l_rights l) true).

(** ** The checks *)

Definition validate_common (pc : percpu) (caller target : domain) : expected unit :=
  if negb (bool_decide (state (ko caller) = active))
  then Unexpected (from_generic invalid_arg)
  else if negb (bool_decide (state (ko target) = active))
  then Unexpected (from_generic invalid_arg)
  else validate_authority_lookup
         (contract_snapshot pc ctx_thread phase_none (id (ko caller))).

Definition required_rights_for_op (op : operation_kind) : Z :=
  match op with
  | op_domain_create => right_lifecycle
  | op_domain_destroy => right_lifecycle
  | op_gate_create => right_lifecycle
  | op_gate_destroy => right_lifecycle
  | op_portal_destroy => right_lifecycle
  | op_portal_create => Z.lor right_lifecycle right_share
  | op_strand_create => Z.lor right_lifecycle right_sched
  | op_address_space_create => right_lifecycle
  | op_ipc_endpoint_create => right_signal
  | op_ipc_endpoint_destroy => right_signal
  | op_ipc_send => right_signal
  | op_ipc_receive => right_signal
  | op_shm_export => right_share
  | op_shm_import => right_map
  | op_shm_map => Z.lor right_map right_share
  | op_policy_server_register => right_service
  | op_policy_server_unregister => right_service
  | op_io_bind => right_io
  | op_io_unbind => right_io
  | op_io_submit => right_io
  | op_io_irq_bind => right_io
  | op_io_dma_extent => right_io
  | op_io_completion_dequeue => right_io
  | op_signal_register => right_signal
  | op_signal_poll => right_signal
  | op_signal_ack => right_signal
  | op_signal_send => right_signal
  | op_signal_mask_set => right_signal
  | op_signal_mask_get => right_signal
  | op_signal_wait => right_signal
  | op_mem_alloc => right_map
  | op_mem_free => right_map
  | op_mem_map => right_map
  | op_mem_unmap => right_map
  | op_mem_protect => right_map
  | op_mem_share => right_share
  | op_gate_entry => right_enter
  | op_cap_acquire => right_none
  | op_cap_release => right_none
  | op_cap_validate => right_none
  | op_cap_revoke => Z.lor right_delegate right_lifecycle
  | op_time_yield => right_none
  | op_time_deadline => right_none
  | op_time_now => right_none
  | op_console_write => right_console
  | op_register_service => right_service
  | op_lookup_service => right_service
  | op_unregister_service => Z.lor right_service right_lifecycle
  | op_domain_exit => right_none
  | op_domain_info => right_none
  | op_domain_query => right_debug
  | op_strand_set_policy => right_sched
  | op_strand_set_affinity => right_sched
  | op_strand_query_state => Z.lor right_sched right_debug
  | op_none => right_none
  end.

Definition validate_op_metadata (op : operation_kind) (meta : authorization_metadata)
    : expected unit :=
  match op with
  | op_portal_create | op_mem_map | op_mem_share | op_mem_unmap | op_mem_protect
  | op_mem_free | op_shm_export =>
      if target_va_end meta <=? target_va_start meta
      then Unexpected (from_generic invalid_arg) else Expected tt
  | op_gate_entry | op_io_irq_bind =>
      if gate_id meta =? 0 then Unexpected (from_generic invalid_arg) else Expected tt
  | _ => Expected tt
  end.

(** [None] only for a dangling reference. *)
Definition authorize (pc : percpu) (h : heap) (caller target : addr)
    (op : operation_kind) (meta : authorization_metadata)
    : option (expected authorization_lease) :=
  c ← h !! caller;
  t ← h !! target;
  Some (
    _ ← validate_common pc c t;
    _ ← validate_op_metadata op meta;
    let required := required_rights_for_op op in
    let effective := Z.lor (requested_rights meta) required in
    if negb (required =? right_none) && negb (has_all_rights (granted_rights c) effective)
    then Unexpected (from_memory mem_capability_invalid)
    else Expected (AuthorizationLease caller target (generation (ko c))
           (generation (ko t)) op required false)).

(** ** Authorization decides exactly *)

(** The operations that act on an address range of the target, and those
    that name a gate. *)
Definition range_operations : list operation_kind :=
  [op_portal_create; op_mem_map; op_mem_share; op_mem_unmap; op_mem_protect;
   op_mem_free; op_shm_export].
Definition gate_operations : list operation_kind := [op_gate_entry; op_io_irq_bind].

Definition metadata_ok (op : operation_kind) (meta : authorization_metadata) : Prop :=
  (op ∈ range_operations -> target_va_start meta < target_va_end meta) /\
  (op ∈ gate_operations -> gate_id meta <> 0).

(** The operation needs no right, or the caller holds what it needs and what it
    asked for: the code compares rights only inside [if (required != none)]. *)
Definition rights_ok (c : domain) (op : operation_kind) (meta : authorization_metadata) : Prop :=
  required_rights_for_op op = right_none \/
  forall i, 0 <= i ->
    Z.testbit (requested_rights meta) i || Z.testbit (required_rights_for_op op) i = true ->
    Z.testbit (granted_rights c) i = true.

Lemma metadata_exact op meta :
  (metadata_ok op meta /\ validate_op_metadata op meta = Expected tt) \/
  (~ metadata_ok op meta /\
   validate_op_metadata op meta = Unexpected (from_generic invalid_arg)).
Proof.
  assert (Hin : forall l, Decision (op ∈ l)) by (intros l; apply _).
  unfold metadata_ok. destruct op; cbn [validate_op_metadata].
  all: first
    [ left; split; [|reflexivity]; split; intros Hop; exfalso; revert Hop;
      apply (bool_decide_unpack _); vm_compute; exact I
    | destruct (Z.leb_spec (target_va_end meta) (target_va_start meta));
      [ right; split; [|reflexivity]; intros [Hop _];
        specialize (Hop ltac:(apply (bool_decide_unpack _); vm_compute; exact I)); lia
      | left; split; [|reflexivity]; split; [intros _; lia|];
        intros Hop; exfalso; revert Hop; apply (bool_decide_unpack _); vm_compute; exact I ]
    | destruct (Z.eqb_spec (gate_id meta) 0);
      [ right; split; [|reflexivity]; intros [_ Hop];
        specialize (Hop ltac:(apply (bool_decide_unpack _); vm_compute; exact I)); done
      | left; split; [|reflexivity]; split; [|by intros _];
        intros Hop; exfalso; revert Hop; apply (bool_decide_unpack _); vm_compute; exact I ] ].
Qed.

Lemma rights_exact c op meta :
  negb (required_rights_for_op op =? right_none) &&
  negb (has_all_rights (granted_rights c)
          (Z.lor (requested_rights meta) (required_rights_for_op op))) = false <->
  rights_ok c op meta.
Proof.
  unfold rights_ok. rewrite andb_false_iff, !negb_false_iff, Z.eqb_eq, has_all_rights_bits.
  by setoid_rewrite Z.lor_spec.
Qed.

(** C14: [authorize] decides exactly: with both domains present it returns a
    lease precisely when caller and target are active, the metadata fits the
    operation and either the operation requires no right, in which case the
    requested rights are not looked at (the documentation of [authorize] says
    that they are, see [requested_rights_unchecked]), or
    the caller's granted rights cover what the operation
    requires together with what was requested; the lease then records both
    addresses, both generations, the operation and its required rights,
    unconsumed.  Inactive domains and bad metadata are refused with
    [invalid_arg], missing rights with [capability_invalid]. *)
Theorem authorize_exact pc h a b op meta c t :
  h !! a = Some c -> h !! b = Some t ->
  (exists l, authorize pc h a b op meta = Some (Expected l) /\
     l = AuthorizationLease a b (generation (ko c)) (generation (ko t)) op
           (required_rights_for_op op) false /\
     state (ko c) = active /\ state (ko t) = active /\ metadata_ok op meta /\
     rights_ok c op meta /\ lease_valid h l = true) \/
  (authorize pc h a b op meta = Some (Unexpected (from_generic invalid_arg)) /\
   (state (ko c) <> active \/ state (ko t) <> active \/ ~ metadata_ok op meta)) \/
  (authorize pc h a b op meta = Some (Unexpected (from_memory mem_capability_invalid)) /\
   state (ko c) = active /\ state (ko t) = active /\ metadata_ok op meta /\
   ~ rights_ok c op meta).
Proof.
  intros Ha Hb. unfold authorize. rewrite Ha, Hb. cbn [mbind option_bind].
  unfold validate_common.
  destruct (bool_decide_reflect (state (ko c) = active)) as [Hc|Hc]; cbn [negb];
    [|right; left; split; [done|by left]].
  destruct (bool_decide_reflect (state (ko t) = active)) as [Ht|Ht]; cbn [negb];
    [|right; left; split; [done|right; by left]].
  change (validate_authority_lookup _) with (Expected tt). cbn [mbind expected_bind].
  destruct (metadata_exact op meta) as [[Hm ->]|[Hm ->]]; cbn [mbind expected_bind];
    [|right; left; split; [done|by right; right]].
  pose proof (rights_exact c op meta) as Hr. destruct (_ && _).
  - right; right. do 4 (split; [done|]). intros Hok. by apply Hr in Hok.
  - left. eexists. split; [done|]. split; [done|]. do 3 (split; [done|]).
    split; [by apply Hr|]. unfold lease_valid; cbn [l_consumed l_caller l_target
      l_caller_generation l_target_generation negb andb].
    rewrite Ha, Hb, !Z.eqb_refl, !bool_decide_true by done. done.
Qed.

(** A domain holding [map] and [enter], and the nucleus. *)
Definition demo_domain (rights : Z) : domain :=
  Domain (Bobject 3 kt_domain active 1 7 0) rights 0 0.
Definition demo_heap : heap :=
  <[1%positive := demo_domain 3]> {[ 2%positive := demo_domain 65535 ]}.
Definition no_heap : heap := ∅.
Definition demo_cpu : percpu := PerCpu 0 0 true 0.
Definition demo_meta : authorization_metadata := AuthorizationMetadata right_map 4096 8192 0.

Lemma authorize_exact_witness :
  exists l, authorize demo_cpu demo_heap 1%positive 2%positive op_mem_map demo_meta
    = Some (Expected l) /\ lease_valid demo_heap l = true.
Proof.
  destruct (authorize_exact demo_cpu demo_heap 1%positive 2%positive op_mem_map demo_meta
    (demo_domain 3) (demo_domain 65535) eq_refl eq_refl)
    as [(l & Hl & _ & _ & _ & _ & _ & Hv)|[[Hl _]|[Hl _]]].
  - exists l. split; [exact Hl|exact Hv].
  - vm_compute in Hl. discriminate Hl.
  - vm_compute in Hl. discriminate Hl.
Defined.

(** ** Leases *)

(** Consuming one lease again and again while the heap changes. *)
Fixpoint consume_all (hs : list heap) (l : authorization_lease) : list bool :=
  match hs with
  | [] => []
  | h :: hs => let (ok, l) := consume h l in ok :: consume_all hs l
  end.

Lemma consume_spent hs l : l_consumed l = true ->
  consume_all hs l = replicate (length hs) false.
Proof.
  intros Hl. induction hs as [|h hs IH]; [done|]. cbn [consume_all length replicate].
  unfold consume, lease_valid. rewrite Hl. cbn [negb andb]. by rewrite IH.
Qed.

(** A lease is a single-use proof: whatever happens to the object heap
    between attempts, at most one attempt to consume a lease succeeds, it is
    the first one made while the lease is valid, and at that moment caller
    and target are both present, active and of the generation recorded when
    the lease was issued. *)
Theorem lease_single_use hs l i :
  consume_all hs l !! i = Some true ->
  (forall j, consume_all hs l !! j = Some true -> j = i) /\
  exists h c t, hs !! i = Some h /\ h !! l_caller l = Some c /\ h !! l_target l = Some t /\
    state (ko c) = active /\ state (ko t) = active /\
    generation (ko c) = l_caller_generation l /\
    generation (ko t) = l_target_generation l.
Proof.
  revert i. induction hs as [|h hs IH]; intros i Hi; [done|].
  cbn [consume_all] in *. unfold consume in *.
  destruct (lease_valid h l) eqn:Ev; cbn [negb] in *.
  - rewrite consume_spent in * by done.
    assert (Hz : forall j, (true :: replicate (length hs) false) !! j = Some true -> j = 0%nat).
    { intros [|j] Hj; [done|]. cbn in Hj. apply lookup_replicate in Hj as [? _]. done. }
    pose proof (Hz i Hi) as ->. split; [exact Hz|]. unfold lease_valid in Ev.
    apply andb_true_iff in Ev as [_ Ev].
    destruct (h !! l_caller l) as [c|] eqn:Ec; [|done].
    destruct (h !! l_target l) as [t|] eqn:Et; [|done].
    repeat rewrite andb_true_iff in Ev. rewrite !bool_decide_eq_true, !Z.eqb_eq in Ev.
    destruct Ev as [[[? ?] ?] ?]. by exists h, c, t.
  - destruct i as [|i]; [done|]. destruct (IH i Hi) as [Hu Hx]. split; [|exact Hx].
    intros [|j] Hj; [done|]. by rewrite (Hu j Hj).
Qed.

Lemma lease_single_use_witness :
  let l := AuthorizationLease 1 2 7 7 op_mem_map right_map false in
  consume_all [no_heap; demo_heap; demo_heap] l = [false; true; false] /\
  exists h c t, [no_heap; demo_heap; demo_heap] !! 1%nat = Some h /\
    h !! 1%positive = Some c /\ h !! 2%positive = Some t /\
    state (ko c) = active /\ state (ko t) = active /\
    generation (ko c) = 7 /\ generation (ko t) = 7.
Proof.
  cbn zeta. split; [vm_compute; reflexivity|].
  exact (proj2 (lease_single_use [no_heap; demo_heap; demo_heap]
    (AuthorizationLease 1 2 7 7 op_mem_map right_map false) 1 ltac:(vm_compute; reflexivity))).
Defined.

(** ** Revocation of rights *)

(** Revoking rights is effective at the authorization chokepoint: after
    [revoke_domain_rights] succeeds the domain has exactly its old rights
    without the dropped ones, and every operation that requires one of the
    dropped rights is refused to it, whatever metadata it supplies. *)
Theorem revocation_effective pc h a b d d' mask op meta :
  h !! a = Some d -> h !! b <> None ->
  revoke_domain_rights d mask = (Expected tt, d') ->
  (forall i, Z.testbit (granted_rights d') i =
     Z.testbit (granted_rights d) i && negb (Z.testbit mask i)) /\
  (Z.land (required_rights_for_op op) mask <> 0 -> exists e,
     authorize pc (<[a := d']> h) a b op meta = Some (Unexpected e)).
Proof.
  intros Ha Hb Hrev.
  assert (Hbits : forall i, Z.testbit (granted_rights d') i =
    Z.testbit (granted_rights d) i && negb (Z.testbit mask i)).
  { intros i. unfold revoke_domain_rights in Hrev. destruct (negb _); [done|].
    destruct (Z.eqb_spec (Z.land mask (granted_rights d)) 0) as [H0|_];
      injection Hrev as <-; cbn [granted_rights].
    - apply (f_equal (fun z => Z.testbit z i)) in H0. rewrite Z.land_spec, Z.bits_0 in H0.
      by destruct (Z.testbit mask i), (Z.testbit (granted_rights d) i).
    - rewrite Z.ldiff_spec, Z.land_spec.
      by destruct (Z.testbit mask i), (Z.testbit (granted_rights d) i). }
  split; [exact Hbits|]. intros Hneed.
  destruct (h !! b) as [t|] eqn:Eb; [|done].
  assert (Hb' : exists t', <[a := d']> h !! b = Some t').
  { destruct (decide (a = b)) as [->|]; [exists d'; apply lookup_insert_eq|].
    exists t. by rewrite lookup_insert_ne. }
  destruct Hb' as [t' Ht']. unfold authorize. rewrite lookup_insert_eq, Ht'.
  cbn [mbind option_bind]. destruct (validate_common pc d' t'); [|by eexists].
  cbn [mbind expected_bind]. destruct (validate_op_metadata op meta); [|by eexists].
  cbn [mbind expected_bind]. pose proof (rights_exact d' op meta) as Hr.
  destruct (_ && _); [by eexists|]. exfalso.
  destruct (proj1 Hr eq_refl) as [H0|Hall].
  { apply Hneed. by rewrite H0. }
  apply Hneed, Z.bits_inj'. intros i Hi. rewrite Z.land_spec, Z.bits_0.
  destruct (Z.testbit (required_rights_for_op op) i) eqn:E; [|done].
  specialize (Hall i Hi). rewrite E, orb_true_r, Hbits in Hall. specialize (Hall eq_refl).
  by destruct (Z.testbit mask i), (Z.testbit (granted_rights d) i).
Qed.

Lemma revocation_effective_witness : exists d' e,
  revoke_domain_rights (demo_domain 3) right_map = (Expected tt, d') /\
  authorize demo_cpu (<[1%positive := d']> demo_heap) 1%positive 2%positive op_mem_map demo_meta
    = Some (Unexpected e).
Proof.
  destruct (revoke_domain_rights (demo_domain 3) right_map) as [r d'] eqn:E.
  assert (Hr : r = Expected tt) by (vm_compute in E; injection E as <- _; reflexivity).
  subst r.
  destruct (revocation_effective demo_cpu demo_heap 1%positive 2%positive (demo_domain 3) d'
    right_map op_mem_map demo_meta eq_refl ltac:(vm_compute; discriminate) E) as [_ Hx].
  destruct (Hx ltac:(vm_compute; discriminate)) as [e He]. exists d', e.
  split; [reflexivity|exact He].
Defined.

(** For the operations that require no right, the rights the caller asks for
    are not compared with the rights it holds: a domain without any right
    obtains a lease for an operation it requested with every right. *)
Theorem requested_rights_unchecked pc (h : heap) a b c t op meta :
  h !! a = Some c -> h !! b = Some t -> state (ko c) = active -> state (ko t) = active ->
  op ∈ [op_cap_acquire; op_cap_release; op_cap_validate; op_time_yield; op_time_deadline;
        op_time_now; op_domain_exit; op_domain_info; op_none] ->
  authorize pc h a b op meta =
    Some (Expected (AuthorizationLease a b (generation (ko c)) (generation (ko t)) op
      right_none false)).
Proof.
  intros Ha Hb Hc Ht Hop. unfold authorize. rewrite Ha, Hb. cbn [mbind option_bind].
  unfold validate_common. rewrite !bool_decide_true by done. cbn [negb].
  repeat (apply elem_of_cons in Hop as [->|Hop]; [reflexivity|]).
  by apply elem_of_nil in Hop.
Qed.

(** ** Teardown phases *)

Definition teardown_order : list teardown_phase :=
  [deny_new_entries; drain_gates; drain_portals; release_memory; release_identity].

(** The phases a sequence of requests records, refused requests included. *)
Fixpoint recorded (current : teardown_phase) (reqs : list (teardown_phase * teardown_phase))
    : list teardown_phase :=
  match reqs with
  | [] => []
  | (expect, requested) :: reqs =>
      match advance_teardown_phase current expect requested with
      | (Expected _, next) => next :: recorded next reqs
      | (Unexpected _, same) => recorded same reqs
      end
  end.

(** The phases still ahead of a phase. *)
Definition ahead (p : teardown_phase) : list teardown_phase :=
  match p with
  | phase_none => teardown_order
  | deny_new_entries => [drain_gates; drain_portals; release_memory; release_identity]
  | drain_gates => [drain_portals; release_memory; release_identity]
  | drain_portals => [release_memory; release_identity]
  | release_memory => [release_identity]
  | release_identity => []
  end.

Lemma advance_cases cur e q :
  (exists err, advance_teardown_phase cur e q = (Unexpected err, cur)) \/
  (advance_teardown_phase cur e q = (Expected tt, q) /\ cur = e /\ ahead cur = q :: ahead q).
Proof. destruct cur, e, q; cbn; first [left; eexists; reflexivity|right; repeat split]. Qed.

(** Teardown phases are never skipped, repeated or reordered: whatever
    sequence of advances is requested (with whatever expected phases), the
    phases a domain records are an initial segment of deny, drain gates,
    drain portals, release memory, release identity; a refused request
    leaves the phase unchanged. *)
Theorem teardown_in_order reqs : recorded phase_none reqs `prefix_of` teardown_order.
Proof.
  change teardown_order with (ahead phase_none). generalize phase_none as cur.
  induction reqs as [|[e q] reqs IH]; intros cur; cbn [recorded]; [apply prefix_nil|].
  destruct (advance_cases cur e q) as [[err ->]|(-> & _ & ->)]; [apply IH|].
  apply prefix_cons, IH.
Qed.
