(* ===== verification/Slub.v ===== *)
(** * The slab allocator ([src/zxfoundation/memory/slub.zcomponent])

    One cache: its geometry is [kmem_cache]; its per-node and per-CPU state,
    the headers of its slabs and the free-pointer words stored in free
    objects are the [world].  The list links of a header live in a map of
    their own ([links], see Dlist.v).  Addresses are those of the direct map;
    a header is named by its address.  Frames come from the page allocator
    as an argument (the answer of [pmm::alloc]) and frames given back are
    recorded in [released].  Sections that the code runs with interrupts and
    preemption disabled are single steps: [alloc_slow] is the composition of
    its three sections.  [None] is a trap. *)

From S2P Require Import Prelude Errors Numa Dlist.

(** ** Data *)

Definition SLUB_MAX_SIZE : Z := 32768.
Definition SLUB_MAX_ORDER : Z := 5.
Definition SLUB_MIN_PARTIAL : Z := 5.
Definition SLUB_MAX_PARTIAL : Z := 20.
Definition SLUB_CPU_PARTIAL_DEFAULT : Z := 13.
Definition SLUB_MAX_CACHES : Z := 64.
Definition SLUB_PAGE_SIZE : Z := 4096.
Definition CACHE_LINE_SIZE : Z := 256.
Definition KERNEL_VIRTUAL_OFFSET : Z := 0xFFFF800000000000.
(** [sizeof(slab_header)]. *)
Definition SLAB_HEADER_SIZE : Z := 88.

Definition flag_typesafe_by_rcu : Z := 1.
Definition flag_hwcache_align : Z := 2.
Definition flag_no_reap : Z := 16.

Record kmem_cache := KmemCache {
  object_size : Z; size : Z; align : Z; fp_offset : Z; order : Z;
  objects_per_slab : Z; cpu_partial : Z; flags : Z; random_seq : Z
}.

Record slab_header := SlabHeader {
  cpu_partial_next : Z; freelist : Z; phys : Z; inuse : Z; objects : Z;
  slab_order : Z; frozen : bool; node_id : Z; on_node_partial : bool
}.

Record kmem_cache_node := KmemCacheNode {
  partial : Z; nr_partial : Z; min_partial : Z; total_slabs : Z; total_objects : Z
}.

Record kmem_cache_cpu := KmemCacheCpu {
  c_freelist : Z; c_slab : Z; c_partial : Z; partial_count : Z;
  stat_fast_alloc : Z; stat_fast_free : Z
}.

Record counters := Counters {
  stat_alloc_slow : Z; stat_free_slow : Z; stat_alloc_slab : Z; stat_free_slab : Z
}.

Record world := World {
  nodes : list kmem_cache_node; cpus : list kmem_cache_cpu;
  slabs : gmap Z slab_header; links : gmap Z (Z * Z); words : gmap Z Z;
  live_objects : Z; stats : counters; released : list (Z * Z * bool)
}.

Definition slab_zero : slab_header := SlabHeader 0 0 0 0 0 0 false 0 false.
(** A node of a new cache: the table of caches is a zeroed frame and no
    constructor runs on it, so [min_partial] is 0, not [SLUB_MIN_PARTIAL]. *)
Definition node_zero : kmem_cache_node := KmemCacheNode 0 0 0 0 0.
Definition cpu_zero : kmem_cache_cpu := KmemCacheCpu 0 0 0 0 0 0.

Definition hdr (w : world) (b : Z) : slab_header := default slab_zero (slabs w !! b).
Definition node (w : world) (n : Z) : kmem_cache_node := nthZ node_zero (nodes w) n.
Definition cpu (w : world) (c : Z) : kmem_cache_cpu := nthZ cpu_zero (cpus w) c.

Definition with_nodes (x : list kmem_cache_node) (w : world) : world :=
  World x (cpus w) (slabs w) (links w) (words w) (live_objects w) (stats w) (released w).
Definition with_cpus (x : list kmem_cache_cpu) (w : world) : world :=
  World (nodes w) x (slabs w) (links w) (words w) (live_objects w) (stats w) (released w).
Definition with_slabs (x : gmap Z slab_header) (w : world) : world :=
  World (nodes w) (cpus w) x (links w) (words w) (live_objects w) (stats w) (released w).
Definition with_links (x : gmap Z (Z * Z)) (w : world) : world :=
  World (nodes w) (cpus w) (slabs w) x (words w) (live_objects w) (stats w) (released w).
Definition with_words (x : gmap Z Z) (w : world) : world :=
  World (nodes w) (cpus w) (slabs w) (links w) x (live_objects w) (stats w) (released w).
Definition add_live (d : Z) (w : world) : world :=
  World (nodes w) (cpus w) (slabs w) (links w) (words w) (live_objects w + d) (stats w)
    (released w).
Definition with_stats (f : counters -> counters) (w : world) : world :=
  World (nodes w) (cpus w) (slabs w) (links w) (words w) (live_objects w) (f (stats w))
    (released w).
Definition give_frames (p : Z * Z * bool) (w : world) : world :=
  World (nodes w) (cpus w) (slabs w) (links w) (words w) (live_objects w) (stats w)
    (released w ++ [p]).

Definition upd_hdr (b : Z) (f : slab_header -> slab_header) (w : world) : world :=
  with_slabs (<[b := f (hdr w b)]> (slabs w)) w.
Definition upd_node (n : Z) (f : kmem_cache_node -> kmem_cache_node) (w : world) : world :=
  with_nodes (updZ (nodes w) n (f (node w n))) w.
Definition upd_cpu (c : Z) (f : kmem_cache_cpu -> kmem_cache_cpu) (w : world) : world :=
  with_cpus (updZ (cpus w) c (f (cpu w c))) w.

Definition set_cpu_partial_next (v : Z) (h : slab_header) : slab_header :=
  SlabHeader v (freelist h) (phys h) (inuse h) (objects h) (slab_order h) (frozen h)
    (node_id h) (on_node_partial h).
Definition set_freelist (v : Z) (h : slab_header) : slab_header :=
  SlabHeader (cpu_partial_next h) v (phys h) (inuse h) (objects h) (slab_order h)
    (frozen h) (node_id h) (on_node_partial h).
Definition set_inuse (v : Z) (h : slab_header) : slab_header :=
  SlabHeader (cpu_partial_next h) (freelist h) (phys h) v (objects h) (slab_order h)
    (frozen h) (node_id h) (on_node_partial h).
Definition set_frozen (v : bool) (h : slab_header) : slab_header :=
  SlabHeader (cpu_partial_next h) (freelist h) (phys h) (inuse h) (objects h)
    (slab_order h) v (node_id h) (on_node_partial h).
Definition set_on_node (v : bool) (h : slab_header) : slab_header :=
  SlabHeader (cpu_partial_next h) (freelist h) (phys h) (inuse h) (objects h)
    (slab_order h) (frozen h) (node_id h) v.

Definition set_node_list (p nr : Z) (n : kmem_cache_node) : kmem_cache_node :=
  KmemCacheNode p nr (min_partial n) (total_slabs n) (total_objects n).
Definition add_totals (s o : Z) (n : kmem_cache_node) : kmem_cache_node :=
  KmemCacheNode (partial n) (nr_partial n) (min_partial n) (u64 (total_slabs n + s))
    (u64 (total_objects n + o)).

Definition set_active (fl sl : Z) (k : kmem_cache_cpu) : kmem_cache_cpu :=
  KmemCacheCpu fl sl (c_partial k) (partial_count k) (stat_fast_alloc k) (stat_fast_free k).
Definition set_c_freelist (fl : Z) (k : kmem_cache_cpu) : kmem_cache_cpu :=
  set_active fl (c_slab k) k.
Definition set_c_partial (p n : Z) (k : kmem_cache_cpu) : kmem_cache_cpu :=
  KmemCacheCpu (c_freelist k) (c_slab k) p n (stat_fast_alloc k) (stat_fast_free k).
Definition count_fast (a f : Z) (k : kmem_cache_cpu) : kmem_cache_cpu :=
  KmemCacheCpu (c_freelist k) (c_slab k) (c_partial k) (partial_count k)
    (u32 (stat_fast_alloc k + a)) (u32 (stat_fast_free k + f)).

Definition count_slow (a f : Z) (s : counters) : counters :=
  Counters (u64 (stat_alloc_slow s + a)) (u64 (stat_free_slow s + f)) (stat_alloc_slab s)
    (stat_free_slab s).
Definition count_slab (a f : Z) (s : counters) : counters :=
  Counters (stat_alloc_slow s) (stat_free_slow s) (u64 (stat_alloc_slab s + a))
    (u64 (stat_free_slab s + f)).

Definition align_up (v a : Z) : Z := Z.land (u64 (v + a - 1)) (Z.lxor U64_MAX (a - 1)).

Section slub.
  (** The cache, the NUMA topology and the number of CPUs. *)
  Context (k : kmem_cache) (topo : numa) (max_cpus : Z).

(** ** Free pointers *)

Definition encode_fp (obj next : Z) : Z :=
  Z.lxor (Z.lxor next (random_seq k)) (u64 (obj + fp_offset k)).
Definition decode_fp (obj stored : Z) : Z :=
  Z.lxor (Z.lxor stored (random_seq k)) (u64 (obj + fp_offset k)).
Definition set_fp (obj next : Z) (w : world) : world :=
  with_words (<[obj + fp_offset k := encode_fp obj next]> (words w)) w.
Definition get_fp (w : world) (obj : Z) : Z :=
  decode_fp obj (default 0 (words w !! (obj + fp_offset k))).

Definition node_index (id : Z) : Z := if id <? MAX_NUMA_NODES then id else NUMA_NODE_BOOT.
Definition node_of (w : world) (b : Z) : Z := node_index (node_id (hdr w b)).

Definition slab_bytes (ord : Z) : Z := Z.shiftl SLUB_PAGE_SIZE ord.

Definition slab_of (obj : Z) : Z :=
  let p := u64 (obj - KERNEL_VIRTUAL_OFFSET) in
  let slabmsk := Z.lxor U64_MAX (slab_bytes (order k) - 1) in
  u64 (Z.land p slabmsk + KERNEL_VIRTUAL_OFFSET).

Definition first_object (b : Z) : Z := align_up (u64 (b + SLAB_HEADER_SIZE)) (align k).

(** ** Slabs *)

Definition free_slab (b : Z) (w : world) : world :=
  let h := hdr w b in
  let w := with_stats (count_slab 0 1) w in
  let w := upd_node (node_index (node_id h)) (add_totals (-1) (- objects h)) w in
  let use_rcu := negb (Z.land (flags k) flag_typesafe_by_rcu =? 0) in
  with_slabs (delete b (slabs w)) (give_frames (phys h, order k, use_rcu) w).

Fixpoint init_objects (obj : Z) (n : nat) (w : world)
    {struct n} : world :=
  match n with
  | O => set_fp obj 0 w
  | S n => init_objects (obj + size k) n (set_fp obj (obj + size k) w)
  end.

(** [result] is the answer of [pmm::alloc]: physical base and node. *)
Definition alloc_new_slab (result : option (Z * Z)) (w : world) : Z * world :=
  match result with
  | None => (0, w)
  | Some (ph, nid) =>
      let b := ph + KERNEL_VIRTUAL_OFFSET in
      let first := first_object b in
      let w := with_links (<[b := (0, 0)]> (links w)) w in
      let w := init_objects first (Z.to_nat (objects_per_slab k - 1)) w in
      let w := with_slabs (<[b := SlabHeader 0 first ph 0 (objects_per_slab k) (order k)
                                  true nid false]> (slabs w)) w in
      let w := with_stats (count_slab 1 0) w in
      (b, upd_node (node_index nid) (add_totals 1 (objects_per_slab k)) w)
  end.

Definition node_remove_partial (b : Z) (w : world) : option world :=
  let n := node_of w b in
  if negb (on_node_partial (hdr w b)) || (nr_partial (node w n) =? 0) then None
  else
    let (nx, pv) := node_at (links w) b in
    let m := links w in
    let m := if negb (pv =? 0) then set_next m pv nx else m in
    let head := if negb (pv =? 0) then partial (node w n) else nx in
    let m := if negb (nx =? 0) then set_prev m nx pv else m in
    let w := with_links (<[b := (0, 0)]> m) w in
    let w := upd_hdr b (set_on_node false) w in
    Some (upd_node n (set_node_list head (nr_partial (node w n) - 1)) w).

Definition node_add_partial (b : Z) (w : world) : option world :=
  let n := node_of w b in
  if on_node_partial (hdr w b) then None
  else
    let h := partial (node w n) in
    let m := <[b := (h, 0)]> (links w) in
    let m := if negb (h =? 0) then set_prev m h b else m in
    let w := with_links m w in
    let w := upd_hdr b (set_on_node true) w in
    Some (upd_node n (set_node_list b (u32 (nr_partial (node w n) + 1))) w).

Definition activate_slab (c b : Z) (w : world) : option world :=
  if on_node_partial (hdr w b) then None
  else
    let w := upd_hdr b (set_frozen true) w in
    let w := upd_cpu c (set_active (freelist (hdr w b)) b) w in
    Some (upd_hdr b (set_freelist 0) w).

(** [while (next = get_fp(tail)) tail = next]. *)
Fixpoint last_free (w : world) (tail : Z) (fuel : nat)
    {struct fuel} : option Z :=
  match fuel with
  | O => None
  | S fuel =>
      let next := get_fp w tail in
      if negb (next =? 0) then last_free w next fuel else Some tail
  end.

Definition deactivate_cpu_slab (c : Z) (w : world) : option world :=
  let b := c_slab (cpu w c) in
  if b =? 0 then Some w
  else
    let fl := c_freelist (cpu w c) in
    w ← (if negb (fl =? 0) then
           tail ← last_free w fl (Z.to_nat (objects_per_slab k));
           let w := set_fp tail (freelist (hdr w b)) w in
           Some (upd_hdr b (set_freelist fl) w)
         else Some w);
    let w := upd_cpu c (set_active 0 0) w in
    let w := upd_hdr b (set_frozen false) w in
    if (inuse (hdr w b) <? objects (hdr w b)) && negb (on_node_partial (hdr w b))
    then node_add_partial b w else Some w.

(** ** Allocation *)

(** Take the head of CPU [c]'s freelist, which belongs to slab [b]. *)
Definition pop_active (c b : Z) (w : world) : Z * world :=
  let obj := c_freelist (cpu w c) in
  let w := upd_cpu c (set_c_freelist (get_fp w obj)) w in
  (obj, upd_hdr b (fun h => set_inuse (u32 (inuse h + 1)) h) w).

(** A slow allocation that found an object. *)
Definition pop_slow (c b : Z) (w : world) : Z * world :=
  let (obj, w) := pop_active c b w in
  (obj, add_live 1 (with_stats (count_slow 1 0) w)).

(** The second section of [alloc_slow]: the CPU's own partial slabs.  The
    result is an object, or 0 to go on. *)
Definition take_cpu_partial (c : Z) (w : world) : option (Z * world) :=
  let b := c_partial (cpu w c) in
  if b =? 0 then Some (0, w)
  else
    let h := hdr w b in
    let w := upd_cpu c (set_c_partial (cpu_partial_next h)
               (u32 (partial_count (cpu w c) - u32 (objects h - inuse h)))) w in
    let w := upd_hdr b (set_cpu_partial_next 0) w in
    w ← activate_slab c b w;
    if negb (c_freelist (cpu w c) =? 0) then Some (pop_slow c b w) else Some (0, w).

(** The nearest node not inspected yet. *)
Fixpoint nearest (local inspected : Z) (candidate : Z) (best : Z * Z) (n : nat)
    {struct n} : Z * Z :=
  match n with
  | O => best
  | S n =>
      let best :=
        if Z.testbit inspected candidate then best
        else
          let d := node_distance topo local candidate in
          if d <? best.2 then (candidate, d) else best in
      nearest local inspected (candidate + 1) best n
  end.

Definition next_node (local inspected : Z) : Z :=
  (nearest local inspected 0 (NUMA_NODE_ANY, 255) (Z.to_nat MAX_NUMA_NODES)).1.

(** Move partial slabs of node [n] to the CPU's list, up to [cpu_partial]
    free objects. *)
Fixpoint bulk (n c bulk_obj : Z) (fuel : nat) (w : world)
    {struct fuel} : option world :=
  match fuel with
  | O => None
  | S fuel =>
      let extra := partial (node w n) in
      if negb (extra =? 0) && (bulk_obj <? cpu_partial k) then
        w ← node_remove_partial extra w;
        let w := upd_hdr extra (set_frozen true) w in
        let w := upd_hdr extra (set_cpu_partial_next (c_partial (cpu w c))) w in
        let free_objects := u32 (objects (hdr w extra) - inuse (hdr w extra)) in
        let w := upd_cpu c (set_c_partial extra
                   (u32 (partial_count (cpu w c) + free_objects))) w in
        bulk n c (u32 (bulk_obj + free_objects)) fuel w
      else Some w
  end.

(** One node of the search: its first partial slab is activated. *)
Definition take_node (n c : Z) (w : world) : option (Z * world) :=
  let b := partial (node w n) in
  if b =? 0 then Some (0, w)
  else
    w ← node_remove_partial b w;
    w ← activate_slab c b w;
    w ← bulk n c 0 (S (Z.to_nat (nr_partial (node w n)))) w;
    if negb (c_freelist (cpu w c) =? 0) then Some (pop_slow c b w) else None.

Fixpoint scan_nodes (local inspected c : Z) (passes : nat) (w : world) {struct passes}
    : option (Z * world) :=
  match passes with
  | O => Some (0, w)
  | S passes =>
      let n := next_node local inspected in
      if n =? NUMA_NODE_ANY then Some (0, w)
      else
        match take_node (node_index n) c w with
        | Some (obj, w) =>
            if negb (obj =? 0) then Some (obj, w)
            else scan_nodes local (Z.lor inspected (Z.shiftl 1 n)) c passes w
        | None => None
        end
  end.

(** The last section: a new slab. *)
Definition take_new (c : Z) (result : option (Z * Z)) (w : world) : option (Z * world) :=
  let (b, w) := alloc_new_slab result w in
  if b =? 0 then Some (0, w)
  else
    w ← activate_slab c b w;
    if negb (c_freelist (cpu w c) =? 0) then Some (pop_slow c b w)
    else Some (0, w).

Definition local_node_of (c : Z) : Z :=
  match node_for_cpu max_cpus topo c with Expected n => n | Unexpected _ => NUMA_NODE_BOOT end.

(** After the active slab is retired: the rest of [alloc_slow]. *)
Definition refill (c : Z) (result : option (Z * Z)) (w : world) : option (Z * world) :=
  '(obj, w) ← take_cpu_partial c w;
  if negb (obj =? 0) then Some (obj, w)
  else
    '(obj, w) ← scan_nodes (local_node_of c) 0 c (Z.to_nat MAX_NUMA_NODES) w;
    if negb (obj =? 0) then Some (obj, w) else take_new c result w.

Definition alloc_slow (c : Z) (result : option (Z * Z)) (w : world) : option (Z * world) :=
  w ← deactivate_cpu_slab c w;
  refill c result w.

Definition kmem_alloc (c : Z) (result : option (Z * Z)) (w : world) : option (Z * world) :=
  if negb (c_freelist (cpu w c) =? 0) then
    let (obj, w) := pop_active c (c_slab (cpu w c)) w in
    Some (obj, add_live 1 (upd_cpu c (count_fast 1 0) w))
  else alloc_slow c result w.

(** *** The sections of an allocation

    [alloc_slow] restores interrupts and preemption between its critical
    sections, so other CPUs' operations run in between.  [phase] says which
    section comes next. *)

Inductive phase :=
  | Entry                                          (* the fast path of [kmem_alloc] *)
  | Retire                                         (* [deactivate_cpu_slab] *)
  | OwnPartial                                     (* [cs.partial] *)
  | Scan (inspected : Z) (passes : nat)            (* one node *)
  | Fresh.                                         (* [alloc_new_slab] *)

Inductive outcome := Continue (p : phase) | Return (obj : Z).

Definition alloc_section (c : Z) (p : phase) (result : option (Z * Z)) (w : world)
    : option (outcome * world) :=
  match p with
  | Entry =>
      if negb (c_freelist (cpu w c) =? 0) then
        let (obj, w) := pop_active c (c_slab (cpu w c)) w in
        Some (Return obj, add_live 1 (upd_cpu c (count_fast 1 0) w))
      else Some (Continue Retire, w)
  | Retire => w ← deactivate_cpu_slab c w; Some (Continue OwnPartial, w)
  | OwnPartial =>
      '(obj, w) ← take_cpu_partial c w;
      Some (if negb (obj =? 0) then Return obj
            else Continue (Scan 0 (Z.to_nat MAX_NUMA_NODES)), w)
  | Scan inspected O => Some (Continue Fresh, w)
  | Scan inspected (S passes) =>
      let n := next_node (local_node_of c) inspected in
      if n =? NUMA_NODE_ANY then Some (Continue Fresh, w)
      else
        '(obj, w) ← take_node (node_index n) c w;
        Some (if negb (obj =? 0) then Return obj
              else Continue (Scan (Z.lor inspected (Z.shiftl 1 n)) passes), w)
  | Fresh => '(obj, w) ← take_new c result w; Some (Return obj, w)
  end.

(** The sections one after the other. *)
Fixpoint run_alloc (c : Z) (p : phase) (result : option (Z * Z)) (fuel : nat) (w : world)
    {struct fuel} : option (Z * world) :=
  match fuel with
  | O => None
  | S fuel =>
      match alloc_section c p result w with
      | Some (Return obj, w) => Some (obj, w)
      | Some (Continue p, w) => run_alloc c p result fuel w
      | None => None
      end
  end.

(** ** Freeing *)

Definition free_slow (b obj : Z) (w : world) : option world :=
  let w := add_live (-1) (with_stats (count_slow 0 1) w) in
  let n := node_of w b in
  let w := set_fp obj (freelist (hdr w b)) w in
  let w := upd_hdr b (set_freelist obj) w in
  let prior := inuse (hdr w b) in
  let w := upd_hdr b (set_inuse (u32 (prior - 1))) w in
  if prior =? 0 then None
  else
    if (prior - 1 =? 0) && negb (frozen (hdr w b)) && (SLUB_MAX_PARTIAL <? nr_partial (node w n))
    then
      w ← node_remove_partial b w;
      Some (free_slab b w)
    else if negb (frozen (hdr w b)) && negb (on_node_partial (hdr w b))
    then node_add_partial b w
    else Some w.

Definition kmem_free (c obj : Z) (w : world) : option world :=
  if obj =? 0 then Some w
  else
    let b := slab_of obj in
    if b =? c_slab (cpu w c) then
      let w := set_fp obj (c_freelist (cpu w c)) w in
      let w := upd_cpu c (set_c_freelist obj) w in
      let prior := inuse (hdr w b) in
      let w := upd_hdr b (set_inuse (u32 (prior - 1))) w in
      if prior =? 0 then None
      else Some (add_live (-1) (upd_cpu c (count_fast 0 1) w))
    else free_slow b obj w.

(** ** Shrinking and destruction *)

(** The walk over a node's list; [nx] is read before the slab is removed. *)
Fixpoint shrink_list (n b freed : Z) (fuel : nat) (w : world)
    {struct fuel} : option (Z * world) :=
  match fuel with
  | O => None
  | S fuel =>
      if b =? 0 then Some (freed, w)
      else
        let nx := (node_at (links w) b).1 in
        if (inuse (hdr w b) =? 0) && (min_partial (node w n) <? nr_partial (node w n))
        then
          w ← node_remove_partial b w;
          shrink_list n nx (u32 (freed + 1)) fuel (free_slab b w)
        else shrink_list n nx freed fuel w
  end.

Fixpoint shrink_nodes (n : Z) (freed : Z) (count : nat) (w : world)
    {struct count} : option (Z * world) :=
  match count with
  | O => Some (freed, w)
  | S count =>
      '(freed, w) ← shrink_list n (partial (node w n)) freed
                      (S (Z.to_nat (nr_partial (node w n)))) w;
      shrink_nodes (n + 1) freed count w
  end.

Definition kmem_cache_shrink (w : world) : option (Z * world) :=
  if negb (Z.land (flags k) flag_no_reap =? 0) then Some (0, w)
  else shrink_nodes 0 0 (Z.to_nat MAX_NUMA_NODES) w.

(** The loop over a CPU's partial slabs. *)
Fixpoint drain_partial (b : Z) (fuel : nat) (w : world)
    {struct fuel} : option world :=
  match fuel with
  | O => None
  | S fuel =>
      if b =? 0 then Some w
      else
        let nx := cpu_partial_next (hdr w b) in
        let w := upd_hdr b (set_frozen false) w in
        let w := upd_hdr b (set_cpu_partial_next 0) w in
        w ← (if inuse (hdr w b) <? objects (hdr w b) then node_add_partial b w else Some w);
        drain_partial nx fuel w
  end.

Definition destroy_cpu (c : Z) (w : world) : option world :=
  w ← deactivate_cpu_slab c w;
  w ← drain_partial (c_partial (cpu w c)) (S (Datatypes.length (map_to_list (slabs w)))) w;
  Some (upd_cpu c (set_c_partial 0 0) w).

(** [online c] is whether CPU [c] has a lowcore. *)
Fixpoint destroy_cpus (online : Z -> bool) (c : Z) (count : nat) (w : world)
    {struct count} : option world :=
  match count with
  | O => Some w
  | S count =>
      w ← (if online c then destroy_cpu c w else Some w);
      destroy_cpus online (c + 1) count w
  end.

Fixpoint release_list (b : Z) (fuel : nat) (w : world)
    {struct fuel} : option world :=
  match fuel with
  | O => None
  | S fuel =>
      if b =? 0 then Some w
      else
        let nx := (node_at (links w) b).1 in
        w ← node_remove_partial b w;
        if negb (inuse (hdr w b) =? 0) then None
        else release_list nx fuel (free_slab b w)
  end.

Fixpoint release_nodes (n : Z) (count : nat) (w : world)
    {struct count} : option world :=
  match count with
  | O => Some w
  | S count =>
      w ← release_list (partial (node w n)) (S (Z.to_nat (nr_partial (node w n)))) w;
      release_nodes (n + 1) count w
  end.

(** [kmem_cache_destroy], up to the release of the cache's memory object. *)
Definition kmem_cache_destroy (online : Z -> bool) (w : world) : option world :=
  if negb (live_objects w =? 0) then None
  else
    w ← destroy_cpus online 0 (Z.to_nat max_cpus) w;
    release_nodes 0 (Z.to_nat MAX_NUMA_NODES) w.

End slub.

(** The state of a cache just created. *)
Definition world_zero (max_cpus : Z) : world :=
  World (replicate (Z.to_nat MAX_NUMA_NODES) node_zero) (replicate (Z.to_nat max_cpus) cpu_zero)
    ∅ ∅ ∅ 0 (Counters 0 0 0 0) [].

(** ** Creating a cache *)

(** The smallest order whose slab holds an object. *)
Fixpoint fit_order (eff_align eff_size ord : Z) (n : nat)
    {struct n} : option (Z * Z) :=
  match n with
  | O => None
  | S n =>
      let hdr_end := align_up SLAB_HEADER_SIZE eff_align in
      let obj_count :=
        if hdr_end <? slab_bytes ord then u32 ((slab_bytes ord - hdr_end) / eff_size) else 0 in
      if 1 <=? obj_count then Some (ord, obj_count)
      else fit_order eff_align eff_size (ord + 1) n
  end.

(** [kmem_cache_create]: [ready] is [g_initialized], [count] the number of
    caches, [stck] the clock and [name] the address of the name string. *)
Definition kmem_cache_create (ready : bool) (count stck name obj_size al fl : Z)
    : expected kmem_cache :=
  if negb ready || (name =? 0) || (obj_size =? 0) || (SLUB_MAX_SIZE <? obj_size)
  then Unexpected (from_generic invalid_arg)
  else
    let eff_align := if 0 <? al then al else 8 in
    let eff_align := if negb (Z.land fl flag_hwcache_align =? 0)
                     then Z.max eff_align CACHE_LINE_SIZE else eff_align in
    let eff_size := u32 (align_up obj_size eff_align) in
    match fit_order eff_align eff_size 0 (Z.to_nat (SLUB_MAX_ORDER + 1)) with
    | None => Unexpected (from_generic invalid_arg)
    | Some (ord, obj_count) =>
        if SLUB_MAX_CACHES <=? count then Unexpected (from_memory mem_out_of_memory)
        else
          let rseq := Z.lxor (Z.lxor (Z.lxor stck name) obj_size) count in
          Expected (KmemCache obj_size eff_size eff_align 0 ord obj_count
                      SLUB_CPU_PARTIAL_DEFAULT fl rseq)
    end.

(** ** [kmalloc] size classes *)

Definition KMALLOC_NUM_SIZES : Z := 13.
Definition KMALLOC_MAX_SIZE : Z := 32768.

Definition kmalloc_bucket_size (idx : Z) : Z :=
  if KMALLOC_NUM_SIZES <=? idx then 0
  else nthZ 0 [8; 16; 32; 64; 128; 256; 512; 1024; 2048; 4096; 8192; 16384; 32768] idx.

(** [64 - clzll(v)] for [0 < v < 2^64]. *)
Definition bit_width (v : Z) : Z := Z.log2 v + 1.

Definition bucket_for (sz : Z) : Z :=
  if sz <=? 8 then 0
  else if KMALLOC_MAX_SIZE <? sz then KMALLOC_NUM_SIZES
  else bit_width (sz - 1) - 3.
