(* ===== verification/SlubInv.v ===== *)
(** * The slab allocator: its invariant

    [G : gmap Z slab_ghost] says, for every slab of the cache, which objects
    are on its own free list ([sf]), which are on the free list of the CPU
    that owns it ([cf]) and where the slab is: active on a CPU, on a CPU's
    partial list, on a node's partial list, full, or held by the operation
    in progress.  [inv] ties [G] to the concrete [world]; each primitive of
    the allocator moves one slab from a place to another. *)

From S2P Require Import Prelude Errors Numa Dlist Slub.

(** ** Geometry *)

(** Slabs lie below 8 TiB, so that a 32-bit counter can count them. *)
Definition SLUB_PHYS_LIMIT : Z := 2 ^ 43.

Record cache_ok (k : kmem_cache) : Prop := {
  ck_fp : fp_offset k = 0;
  ck_order : 0 <= order k <= SLUB_MAX_ORDER;
  ck_align : exists a, 0 <= a <= 31 /\ align k = 2 ^ a;
  ck_size : 8 <= size k;
  ck_object : object_size k <= size k;
  ck_multiple : (align k | size k);
  ck_count : 1 <= objects_per_slab k;
  ck_fit : align_up SLAB_HEADER_SIZE (align k) + objects_per_slab k * size k
           <= slab_bytes (order k)
}.

Lemma align_up_pow2 v a :
  0 <= v -> 0 <= a <= 64 -> v + 2 ^ a <= 2 ^ 64 ->
  align_up v (2 ^ a) = 2 ^ a * ((v + 2 ^ a - 1) / 2 ^ a).
Proof.
  intros Hv Ha Hs. unfold align_up.
  assert (0 < 2 ^ a) by lia.
  rewrite u64_small by (unfold fits; lia). apply land_mask_down; [unfold fits; lia|done].
Qed.

Lemma slab_bytes_pow2 ord : 0 <= ord -> slab_bytes ord = 2 ^ (12 + ord).
Proof.
  intros Ho. unfold slab_bytes, SLUB_PAGE_SIZE. rewrite Z.shiftl_mul_pow2 by lia.
  rewrite Z.pow_add_r by lia. done.
Qed.

Section geometry.
  Context (k : kmem_cache) (Hk : cache_ok k).

Definition slab_at (b : Z) : Prop :=
  exists i, b = KERNEL_VIRTUAL_OFFSET + i * slab_bytes (order k) /\
    0 <= i /\ (i + 1) * slab_bytes (order k) <= SLUB_PHYS_LIMIT.

Definition hdr_end : Z := align_up SLAB_HEADER_SIZE (align k).

Definition object (b i : Z) : Z := b + hdr_end + i * size k.

(** The objects of slab [b], in address order. *)
Definition objs (b : Z) : list Z := object b <$> seqZ 0 (objects_per_slab k).

Lemma slab_bytes_range : 4096 <= slab_bytes (order k) <= 131072.
Proof.
  destruct (ck_order k Hk) as [H1 H2]. unfold slab_bytes, SLUB_PAGE_SIZE, SLUB_MAX_ORDER in *.
  assert (order k = 0 \/ order k = 1 \/ order k = 2 \/ order k = 3 \/ order k = 4 \/ order k = 5)
    as Ho by lia.
  destruct Ho as [-> | [-> | [-> | [-> | [-> | ->]]]]]; vm_compute; split; discriminate.
Qed.

Lemma slab_at_range b :
  slab_at b -> KERNEL_VIRTUAL_OFFSET <= b /\ b + slab_bytes (order k) <= 2 ^ 64 - 2 ^ 46.
Proof.
  intros (i & -> & Hi & Hl). pose proof slab_bytes_range.
  unfold KERNEL_VIRTUAL_OFFSET, SLUB_PHYS_LIMIT in *. change (2 ^ 64 - 2 ^ 46) with 18446673704965373952.
  change (2 ^ 43) with 8796093022208 in Hl. lia.
Qed.

Lemma slab_at_pos b : slab_at b -> b <> 0.
Proof. intros Hb. destruct (slab_at_range b Hb). unfold KERNEL_VIRTUAL_OFFSET in *. lia. Qed.

Lemma align_range : exists a, align k = 2 ^ a /\ 0 <= a <= 12 + order k /\
  SLAB_HEADER_SIZE <= hdr_end < slab_bytes (order k).
Proof.
  destruct (ck_align k Hk) as (a & Ha & E). exists a. split; [done|].
  pose proof (ck_fit k Hk) as Hf. pose proof (ck_count k Hk). pose proof (ck_size k Hk).
  pose proof slab_bytes_range as Hr. destruct (ck_order k Hk) as [Ho _].
  assert (0 < objects_per_slab k * size k) by (apply Z.mul_pos_pos; lia).
  unfold hdr_end. rewrite E in *.
  assert (2 ^ a <= 2 ^ 31) by (apply Z.pow_le_mono_r; lia). change (2 ^ 31) with 2147483648 in *.
  assert (0 < 2 ^ a) by lia. unfold SLAB_HEADER_SIZE in *.
  rewrite align_up_pow2 in * by (try change (2 ^ 64) with 18446744073709551616; lia).
  pose proof (Z.div_mod (88 + 2 ^ a - 1) (2 ^ a) ltac:(lia)).
  pose proof (Z.mod_pos_bound (88 + 2 ^ a - 1) (2 ^ a) ltac:(lia)).
  assert (1 <= (88 + 2 ^ a - 1) / 2 ^ a) by (apply Z.div_le_lower_bound; lia).
  split; [|lia]. split; [lia|].
  apply (Z.pow_le_mono_r_iff 2); [lia|lia|]. rewrite <- slab_bytes_pow2 by lia. nia.
Qed.

Lemma slab_aligned b a : slab_at b -> 0 <= a <= 12 + order k -> exists q, b = q * 2 ^ a.
Proof.
  intros (i & -> & _ & _) Ha. destruct (ck_order k Hk) as [Ho Ho'].
  unfold KERNEL_VIRTUAL_OFFSET, SLUB_MAX_ORDER in *. rewrite slab_bytes_pow2 by lia.
  exists (0x1FFFF * 2 ^ (47 - a) + i * 2 ^ (12 + order k - a)).
  rewrite Z.mul_add_distr_r, <- !Z.mul_assoc, <- !Z.pow_add_r by lia.
  replace (47 - a + a) with 47 by lia. replace (12 + order k - a + a) with (12 + order k) by lia.
  reflexivity.
Qed.

Lemma first_object_at b : slab_at b -> first_object k b = object b 0.
Proof.
  intros Hb. destruct (slab_at_range b Hb) as [Hlo Hhi].
  destruct align_range as (a & E & Ha & Hh). destruct (ck_order k Hk) as [Ho Ho'].
  pose proof slab_bytes_range as Hr. unfold SLUB_MAX_ORDER in *.
  unfold first_object, object. rewrite Z.mul_0_l, Z.add_0_r. unfold hdr_end in *. rewrite E in *.
  assert (2 ^ a <= slab_bytes (order k)).
  { rewrite slab_bytes_pow2 by lia. apply Z.pow_le_mono_r; lia. }
  assert (0 < 2 ^ a) by lia. unfold SLAB_HEADER_SIZE, KERNEL_VIRTUAL_OFFSET in *.
  change (2 ^ 64 - 2 ^ 46) with 18446673704965373952 in *.
  rewrite u64_small by solve_u.
  rewrite !align_up_pow2 by (try change (2 ^ 64) with 18446744073709551616; lia).
  destruct (slab_aligned b a Hb ltac:(lia)) as [q ->].
  replace (q * 2 ^ a + 88 + 2 ^ a - 1) with (88 + 2 ^ a - 1 + q * 2 ^ a) by lia.
  rewrite Z.div_add by lia. lia.
Qed.

Lemma elem_of_objs o b :
  o ∈ objs b <-> exists i, 0 <= i < objects_per_slab k /\ o = object b i.
Proof.
  unfold objs. rewrite list_elem_of_fmap. setoid_rewrite elem_of_seqZ.
  split; intros (i & H1 & H2); exists i; split; [lia|done|done|lia].
Qed.

Lemma object_bounds b i :
  0 <= i < objects_per_slab k ->
  b + SLAB_HEADER_SIZE <= object b i /\ object b i + size k <= b + slab_bytes (order k).
Proof.
  intros Hi. destruct align_range as (a & _ & _ & Hh). pose proof (ck_fit k Hk) as Hf.
  pose proof (ck_size k Hk). unfold object. fold hdr_end in Hf.
  assert (i * size k + size k <= objects_per_slab k * size k) by nia. nia.
Qed.

(** Objects are aligned as the cache promises. *)
Lemma object_aligned b i : slab_at b -> (align k | object b i).
Proof.
  intros Hb. destruct align_range as (a & E & Ha & Hh). pose proof slab_bytes_range as Hr.
  destruct (slab_aligned b a Hb Ha) as [q ->]. unfold object.
  repeat apply Z.divide_add_r; [exists q; by rewrite E| |].
  - unfold hdr_end. rewrite E, align_up_pow2; [by exists ((SLAB_HEADER_SIZE + 2 ^ a - 1) / 2 ^ a); lia|..].
    + unfold SLAB_HEADER_SIZE. lia.
    + destruct (ck_order k Hk). unfold SLUB_MAX_ORDER in *. lia.
    + destruct (ck_order k Hk). unfold SLUB_MAX_ORDER, SLAB_HEADER_SIZE in *.
      assert (2 ^ a <= 2 ^ 17) by (apply Z.pow_le_mono_r; lia).
      change (2 ^ 17) with 131072 in *. change (2 ^ 64) with 18446744073709551616. lia.
  - apply Z.divide_mul_r, (ck_multiple k Hk).
Qed.

(** Rounding an object's address down gives its slab. *)
Lemma slab_of_obj b o : slab_at b -> o ∈ objs b -> slab_of k o = b.
Proof.
  intros Hb (i & Hi & ->)%elem_of_objs. destruct (object_bounds b i Hi) as [H1 H2].
  destruct (ck_order k Hk) as [Ho Ho']. pose proof slab_bytes_range.
  destruct (slab_at_range b Hb) as [Hlo Hhi].
  destruct Hb as (j & Ej & Hj & Hl). pose proof (ck_size k Hk).
  unfold slab_of, SLAB_HEADER_SIZE, KERNEL_VIRTUAL_OFFSET, SLUB_MAX_ORDER, SLUB_PHYS_LIMIT in *.
  change (2 ^ 43) with 8796093022208 in *. change (2 ^ 64 - 2 ^ 46) with 18446673704965373952 in *.
  set (sb := slab_bytes (order k)) in *.
  rewrite (u64_small (object b i - _)) by solve_u.
  assert (Es : sb = 2 ^ (12 + order k)) by (apply slab_bytes_pow2; lia).
  rewrite Es at 1. rewrite land_mask_down by (solve [solve_u|lia]). rewrite <- Es.
  replace ((object b i - 0xFFFF800000000000) / sb) with j.
  - rewrite u64_small by solve_u. lia.
  - apply (Z.div_unique _ sb j (object b i - b)); lia.
Qed.

Lemma obj_pos b o : slab_at b -> o ∈ objs b -> o <> 0.
Proof.
  intros Hb (i & Hi & ->)%elem_of_objs. destruct (object_bounds b i Hi).
  destruct (slab_at_range b Hb). unfold SLAB_HEADER_SIZE, KERNEL_VIRTUAL_OFFSET in *. lia.
Qed.

Lemma NoDup_objs b : NoDup (objs b).
Proof.
  unfold objs. apply NoDup_fmap_2_strong; [|apply NoDup_seqZ].
  intros i j _ _. unfold object. pose proof (ck_size k Hk). nia.
Qed.

Lemma length_objs b : Z.of_nat (length (objs b)) = objects_per_slab k.
Proof.
  unfold objs. rewrite length_fmap, length_seqZ. pose proof (ck_count k Hk). lia.
Qed.

(** Distinct objects do not overlap. *)
Lemma objs_disjoint b b' o o' :
  slab_at b -> slab_at b' -> o ∈ objs b -> o' ∈ objs b' -> o <> o' ->
  o + size k <= o' \/ o' + size k <= o.
Proof.
  intros Hb Hb' (i & Hi & ->)%elem_of_objs (j & Hj & ->)%elem_of_objs Hne.
  destruct (object_bounds b i Hi), (object_bounds b' j Hj). pose proof (ck_size k Hk).
  pose proof slab_bytes_range. unfold SLAB_HEADER_SIZE in *.
  destruct Hb as (p & -> & _), Hb' as (q & -> & _).
  destruct (Z.lt_trichotomy p q) as [Hpq | [-> | Hpq]].
  - left. assert ((p + 1) * slab_bytes (order k) <= q * slab_bytes (order k)) by nia. lia.
  - destruct (Z.lt_trichotomy i j) as [Hij | [-> | Hij]]; [|done|]; unfold object in *.
    + left. assert ((i + 1) * size k <= j * size k) by nia. lia.
    + right. assert ((j + 1) * size k <= i * size k) by nia. lia.
  - right. assert ((q + 1) * slab_bytes (order k) <= p * slab_bytes (order k)) by nia. lia.
Qed.

(** ** Free pointers *)

Lemma decode_encode obj next : decode_fp k obj (encode_fp k obj next) = next.
Proof.
  unfold decode_fp, encode_fp. generalize (u64 (obj + fp_offset k)) as p. intros p.
  rewrite (Z.lxor_assoc (Z.lxor next _) p), (Z.lxor_comm p), <- Z.lxor_assoc.
  rewrite (Z.lxor_assoc next), Z.lxor_nilpotent, Z.lxor_0_r.
  rewrite (Z.lxor_assoc next), Z.lxor_nilpotent, Z.lxor_0_r. done.
Qed.

(** What [get_fp] reads from the words [wd]. *)
Definition fp (wd : gmap Z Z) (o : Z) : Z := decode_fp k o (default 0 (wd !! o)).

Lemma get_fp_fp w o : get_fp k w o = fp (words w) o.
Proof. unfold get_fp, fp. by rewrite (ck_fp k Hk), Z.add_0_r. Qed.

Lemma fp_insert wd o v o' :
  fp (<[o := encode_fp k o v]> wd) o' = if decide (o' = o) then v else fp wd o'.
Proof.
  unfold fp. case_decide as Hd.
  - subst. rewrite lookup_insert_eq. apply decode_encode.
  - by rewrite lookup_insert_ne by done.
Qed.

(** [l] is the free list that starts at [p]. *)
Fixpoint fchain (wd : gmap Z Z) (p : Z) (l : list Z) : Prop :=
  match l with
  | [] => p = 0
  | x :: l => p = x /\ x <> 0 /\ fchain wd (fp wd x) l
  end.

Lemma fchain_hd wd p l : fchain wd p l -> p = hd 0 l.
Proof. destruct l; simpl; tauto. Qed.

Lemma fchain_null wd p l : fchain wd p l -> p = 0 <-> l = [].
Proof. destruct l; simpl; naive_solver. Qed.

Lemma fchain_ext wd wd' p l :
  (forall x, x ∈ l -> wd' !! x = wd !! x) -> fchain wd p l -> fchain wd' p l.
Proof.
  revert p. induction l as [|x l IH]; intros p He; simpl; [done|].
  intros (-> & Hx & Hl). split_and!; [done..|]. unfold fp. rewrite He by left.
  apply IH; [|done]. intros y Hy. apply He. by right.
Qed.

Lemma fchain_push wd p l o :
  fchain wd p l -> o ∉ l -> o <> 0 -> fchain (<[o := encode_fp k o p]> wd) o (o :: l).
Proof.
  intros Hl Hn Ho. simpl. rewrite fp_insert, decide_True by done. split_and!; [done..|].
  revert Hl. apply fchain_ext. intros x Hx. rewrite lookup_insert_ne by naive_solver. done.
Qed.

(** Splicing: the walk of [last_free] and the store at the tail. *)
Lemma fchain_splice wd p q l1 l2 :
  fchain wd p l1 -> fchain wd q l2 -> NoDup (l1 ++ l2) -> l1 <> [] ->
  exists tail, tail ∈ l1 /\
    (forall w fuel, words w = wd -> (length l1 <= fuel)%nat ->
      last_free k w p fuel = Some tail) /\
    fchain (<[tail := encode_fp k tail q]> wd) p (l1 ++ l2).
Proof.
  revert p. induction l1 as [|x l1 IH]; intros p H1 H2 Hnd Hne; [done|].
  simpl in H1. destruct H1 as (-> & Hx & H1). simpl in Hnd.
  apply list.NoDup_cons in Hnd as [Hxn Hnd].
  destruct l1 as [|y l1].
  - exists x. split_and!; [left| |].
    + intros w fuel <- Hf. destruct fuel; [simpl in Hf; lia|]. simpl.
      rewrite get_fp_fp, H1. done.
    + simpl. rewrite fp_insert, decide_True by done. split_and!; [done..|].
      revert H2. apply fchain_ext. intros z Hz. rewrite lookup_insert_ne by set_solver. done.
  - destruct (IH _ H1 H2 Hnd ltac:(done)) as (tail & Ht & Hlast & Hc).
    exists tail. split_and!; [by right| |].
    + intros w fuel Hw Hf. destruct fuel; [simpl in Hf; lia|]. simpl.
      rewrite get_fp_fp, Hw. destruct (Z.eqb_spec (fp wd x) 0) as [E|E]; [simpl in H1; naive_solver|].
      simpl. apply Hlast; [done|simpl in *; lia].
    + change (x = x /\ x <> 0 /\ fchain (<[tail := encode_fp k tail q]> wd)
        (fp (<[tail := encode_fp k tail q]> wd) x) ((y :: l1) ++ l2)).
      rewrite fp_insert, decide_False by set_solver. done.
Qed.
End geometry.

(** ** The invariant *)

Inductive place := PActive (c : Z) | PCpu (c : Z) | PNode (n : Z) | PFull | PHeld.

#[export] Instance place_eq_dec : EqDecision place.
Proof. solve_decision. Defined.

Record slab_ghost := SlabGhost { sf : list Z; cf : list Z; sp : place }.

Definition at_place (p : place) (s : slab_ghost) : slab_ghost := SlabGhost (sf s) (cf s) p.

Definition is_frozen (p : place) : bool :=
  match p with PActive _ | PCpu _ => true | _ => false end.
Definition is_listed (p : place) : bool := match p with PNode _ => true | _ => false end.

(** The place of slab [b], if it is a slab. *)
Definition pl (G : gmap Z slab_ghost) (b : Z) : option place := sp <$> G !! b.

(** The list of slabs chained by [cpu_partial_next] from [p]. *)
Fixpoint pchain (S : gmap Z slab_header) (p : Z) (l : list Z) : Prop :=
  match l with
  | [] => p = 0
  | x :: l => p = x /\ x <> 0 /\ pchain S (cpu_partial_next (default slab_zero (S !! x))) l
  end.

(** The objects handed out: those of a slab that are on no free list. *)
Definition live (k : kmem_cache) (G : gmap Z slab_ghost) (o : Z) : Prop :=
  exists b s, G !! b = Some s /\ o ∈ objs k b /\ o ∉ sf s /\ o ∉ cf s.

Record cpu_ok (S : gmap Z slab_header) (G : gmap Z slab_ghost) (c : Z)
    (x : kmem_cache_cpu) : Prop := {
  co_active : forall b, pl G b = Some (PActive c) <-> b = c_slab x /\ b <> 0;
  co_free : c_freelist x = default 0 (hd 0 ∘ cf <$> G !! c_slab x);
  co_partial : exists l, pchain S (c_partial x) l /\ NoDup l /\
    forall b, b ∈ l <-> pl G b = Some (PCpu c)
}.

Definition node_ok (K : gmap Z (Z * Z)) (G : gmap Z slab_ghost) (n : Z)
    (x : kmem_cache_node) : Prop :=
  exists l, dlist K (partial x) l /\ NoDup l /\ nr_partial x = Z.of_nat (length l) /\
    forall b, b ∈ l <-> pl G b = Some (PNode n).

Section invariant.
  Context (k : kmem_cache) (max_cpus : Z).

Record slab_ok (W : gmap Z Z) (b : Z) (h : slab_header) (s : slab_ghost) : Prop := {
  so_addr : slab_at k b;
  so_phys : phys h + KERNEL_VIRTUAL_OFFSET = b;
  so_objects : objects h = objects_per_slab k;
  so_node : 0 <= node_id h;
  so_inuse : inuse h + Z.of_nat (length (sf s ++ cf s)) = objects_per_slab k;
  so_nodup : NoDup (sf s ++ cf s);
  so_sub : forall o, o ∈ sf s ++ cf s -> o ∈ objs k b;
  so_sf : fchain k W (freelist h) (sf s);
  so_cf : fchain k W (hd 0 (cf s)) (cf s);
  so_frozen : sp s <> PHeld -> frozen h = is_frozen (sp s);
  so_listed : on_node_partial h = is_listed (sp s);
  so_place : match sp s with
             | PActive c => 0 <= c < max_cpus
             | PCpu c => 0 <= c < max_cpus /\ cf s = [] /\ sf s <> []
             | PNode n => n = node_index (node_id h) /\ cf s = [] /\ sf s <> []
             | PFull => sf s = [] /\ cf s = []
             | PHeld => cf s = []
             end
}.

(** [held] is the slab the operation in progress has in its hands. *)
Record ainv (held : option Z) (N : list kmem_cache_node) (C : list kmem_cache_cpu)
    (S : gmap Z slab_header) (K : gmap Z (Z * Z)) (W : gmap Z Z) (G : gmap Z slab_ghost)
    : Prop := {
  ai_slabs : map_Forall2 (slab_ok W) S G;
  ai_cpus : forall c, 0 <= c < max_cpus -> cpu_ok S G c (nthZ cpu_zero C c);
  ai_nodes : forall n, 0 <= n < MAX_NUMA_NODES -> node_ok K G n (nthZ node_zero N n);
  ai_ncpus : Z.of_nat (length C) = max_cpus;
  ai_nnodes : Z.of_nat (length N) = MAX_NUMA_NODES;
  ai_held : forall b s, G !! b = Some s -> sp s = PHeld <-> held = Some b
}.

Definition inv (held : option Z) (w : world) (G : gmap Z slab_ghost) : Prop :=
  ainv held (nodes w) (cpus w) (slabs w) (links w) (words w) G.

End invariant.

(** ** Framing *)

Lemma pchain_ext S S' p l :
  (forall x, x ∈ l -> cpu_partial_next (default slab_zero (S' !! x)) =
                      cpu_partial_next (default slab_zero (S !! x))) ->
  pchain S p l -> pchain S' p l.
Proof.
  revert p. induction l as [|x l IH]; intros p He; simpl; [done|].
  intros (-> & Hx & Hl). split_and!; [done..|]. rewrite He by left.
  apply IH; [|done]. intros y Hy. apply He. by right.
Qed.

Lemma cpu_ok_frame S G S' G' c x :
  (forall b, pl G' b = Some (PActive c) <-> pl G b = Some (PActive c)) ->
  (forall b, pl G' b = Some (PCpu c) <-> pl G b = Some (PCpu c)) ->
  (forall b, pl G b = Some (PCpu c) -> cpu_partial_next (default slab_zero (S' !! b)) =
                                       cpu_partial_next (default slab_zero (S !! b))) ->
  G' !! c_slab x = G !! c_slab x \/
    cf <$> G' !! c_slab x = cf <$> G !! c_slab x ->
  cpu_ok S G c x -> cpu_ok S' G' c x.
Proof.
  intros Ha Hc Hn Hf [H1 H2 (l & Hl & Hnd & Hm)]. split.
  - intros b. by rewrite Ha.
  - rewrite H2. destruct Hf as [-> | Hf]; [done|].
    destruct (G' !! c_slab x), (G !! c_slab x); simpl in *; congruence.
  - exists l. split_and!; [|done|].
    + revert Hl. apply pchain_ext. intros b Hb. by apply Hn, Hm.
    + intros b. by rewrite Hc.
Qed.

Lemma node_ok_frame K G K' G' n x :
  (forall b, pl G' b = Some (PNode n) <-> pl G b = Some (PNode n)) ->
  (forall b, pl G b = Some (PNode n) -> node_at K' b = node_at K b) ->
  node_ok K G n x -> node_ok K' G' n x.
Proof.
  intros Hp Hk (l & Hl & Hnd & Hnr & Hm). exists l. split_and!; [|done..|].
  - revert Hl. apply dlist_ext. intros b Hb. by apply Hk, Hm.
  - intros b. by rewrite Hp.
Qed.

Lemma pl_insert G b s b' : pl (<[b := s]> G) b' = if decide (b' = b) then Some (sp s) else pl G b'.
Proof.
  unfold pl. case_decide as Hd; [subst; by rewrite lookup_insert_eq|].
  by rewrite lookup_insert_ne by done.
Qed.

Lemma pl_Some G b s : G !! b = Some s -> pl G b = Some (sp s).
Proof. unfold pl. by intros ->. Qed.

Lemma pl_inv G b p : pl G b = Some p -> exists s, G !! b = Some s /\ sp s = p.
Proof. unfold pl. intros (s & ? & ?)%fmap_Some. eauto. Qed.

(** A CPU or a node is not affected by a slab that is not at it. *)
Lemma cpu_ok_other S G c x b h s' :
  b <> 0 -> pl G b <> Some (PActive c) -> pl G b <> Some (PCpu c) ->
  sp s' <> PActive c -> sp s' <> PCpu c ->
  cpu_ok S G c x -> cpu_ok (<[b := h]> S) (<[b := s']> G) c x.
Proof.
  intros Hb Ha Hc Ha' Hc' Hok. pose proof (co_active _ _ _ _ Hok) as H1.
  revert Hok. apply cpu_ok_frame.
  - intros b'. rewrite pl_insert. case_decide; naive_solver.
  - intros b'. rewrite pl_insert. case_decide; naive_solver.
  - intros b' Hb'. rewrite lookup_insert_ne by naive_solver. done.
  - left. rewrite lookup_insert_ne; [done|]. naive_solver.
Qed.

Lemma cpu_ok_same S G c x b h h' s s' :
  G !! b = Some s -> sp s' = sp s -> cf s' = cf s ->
  S !! b = Some h -> cpu_partial_next h' = cpu_partial_next h ->
  cpu_ok S G c x -> cpu_ok (<[b := h']> S) (<[b := s']> G) c x.
Proof.
  intros Hb Hp Hf Hh Hn. apply pl_Some in Hb as Hpl. apply cpu_ok_frame.
  - intros b'. rewrite pl_insert. case_decide; [subst; rewrite Hpl, Hp|]; done.
  - intros b'. rewrite pl_insert. case_decide; [subst; rewrite Hpl, Hp|]; done.
  - intros b' _. rewrite lookup_insert. case_decide; [subst; rewrite Hh|]; done.
  - right. rewrite lookup_insert. case_decide; [subst; rewrite Hb; simpl; congruence|done].
Qed.

Lemma node_ok_other K K' G n x b s' :
  pl G b <> Some (PNode n) -> sp s' <> PNode n ->
  (forall b', b' <> b -> pl G b' = Some (PNode n) -> node_at K' b' = node_at K b') ->
  node_ok K G n x -> node_ok K' (<[b := s']> G) n x.
Proof.
  intros Hb Hp Hk. apply node_ok_frame.
  - intros b'. rewrite pl_insert. case_decide; naive_solver.
  - intros b' Hb'. apply Hk; naive_solver.
Qed.

Lemma node_ok_same K G n x b s s' :
  G !! b = Some s -> sp s' = sp s -> node_ok K G n x -> node_ok K (<[b := s']> G) n x.
Proof.
  intros Hb Hp. apply node_ok_frame; [|done].
  intros b'. rewrite pl_insert. case_decide; [subst; rewrite (pl_Some _ _ _ Hb), Hp|]; done.
Qed.

(** ** Moving one slab *)

Section moves.
  Context (k : kmem_cache) (max_cpus : Z) (Hk : cache_ok k).
  Abbreviation slab_ok := (slab_ok k max_cpus).
  Abbreviation ainv := (ainv k max_cpus).
  Abbreviation inv := (inv k max_cpus).

Lemma slab_ok_ext W W' b h s :
  (forall o, o ∈ sf s ++ cf s -> W' !! o = W !! o) -> slab_ok W b h s -> slab_ok W' b h s.
Proof.
  intros He []. split; try done.
  - revert so_sf0. apply fchain_ext. intros x Hx. apply He, elem_of_app. by left.
  - revert so_cf0. apply fchain_ext. intros x Hx. apply He, elem_of_app. by right.
Qed.

Lemma objs_other b b' o : slab_at k b -> slab_at k b' -> b <> b' -> o ∈ objs k b -> o ∉ objs k b'.
Proof.
  intros Hb Hb' Hne Ho Ho'. apply Hne.
  rewrite <- (slab_of_obj k Hk b o), <- (slab_of_obj k Hk b' o) by done. done.
Qed.

Lemma slabs_insert W W' (S : gmap Z slab_header) (G : gmap Z slab_ghost) b h s' :
  map_Forall2 (slab_ok W) S G -> (forall o, o ∉ objs k b -> W' !! o = W !! o) ->
  slab_ok W' b h s' -> map_Forall2 (slab_ok W') (<[b := h]> S) (<[b := s']> G).
Proof.
  intros HS HW Hb b'. destruct (decide (b = b')) as [<-|Hne].
  - rewrite !lookup_insert_eq. by constructor.
  - rewrite !lookup_insert_ne by done. destruct (HS b') as [h' s Hok|]; constructor.
    apply (slab_ok_ext W); [|done]. intros o Ho. apply HW.
    eapply objs_other; [by apply Hok|by apply Hb|done|]. by apply Hok.
Qed.

Lemma ainv_move held held' N N' C C' S K K' W W' G b h s' :
  ainv held N C S K W G ->
  slab_ok W' b h s' ->
  (forall o, o ∉ objs k b -> W' !! o = W !! o) ->
  length C' = length C -> length N' = length N ->
  (forall c, 0 <= c < max_cpus -> cpu_ok S G c (nthZ cpu_zero C c) ->
     cpu_ok (<[b := h]> S) (<[b := s']> G) c (nthZ cpu_zero C' c)) ->
  (forall n, 0 <= n < MAX_NUMA_NODES -> node_ok K G n (nthZ node_zero N n) ->
     node_ok K' (<[b := s']> G) n (nthZ node_zero N' n)) ->
  held = None \/ held = Some b ->
  held' = (if decide (sp s' = PHeld) then Some b else None) ->
  ainv held' N' C' (<[b := h]> S) K' W' (<[b := s']> G).
Proof.
  intros [H1 H2 H3 H4 H5 H6] Hb HW HC HN Hc Hn Hh ->. split.
  - by eapply slabs_insert.
  - intros c Hr. by apply Hc, H2.
  - intros n Hr. by apply Hn, H3.
  - lia.
  - lia.
  - intros b' s. destruct (decide (b = b')) as [<-|Hne].
    + rewrite lookup_insert_eq. intros [= <-]. case_decide; naive_solver.
    + rewrite lookup_insert_ne by done. intros Hs. rewrite (H6 b' s Hs).
      case_decide; naive_solver.
Qed.

Lemma inv_slab held w G b s :
  inv held w G -> G !! b = Some s ->
  slabs w !! b = Some (hdr w b) /\ slab_ok (words w) b (hdr w b) s.
Proof.
  intros Hi Hb. pose proof (ai_slabs _ _ _ _ _ _ _ _ _ Hi b) as H. rewrite Hb in H.
  unfold hdr. inversion H as [h s0 Hok Eh Es|]; subst. done.
Qed.

Lemma inv_fresh held w G b : inv held w G -> slabs w !! b = None <-> G !! b = None.
Proof.
  intros Hi. pose proof (ai_slabs _ _ _ _ _ _ _ _ _ Hi b) as H.
  inversion H; by split.
Qed.

Lemma inv_cpu held w G c :
  inv held w G -> 0 <= c < max_cpus -> cpu_ok (slabs w) G c (cpu w c).
Proof. intros Hi. apply (ai_cpus _ _ _ _ _ _ _ _ _ Hi). Qed.

Lemma inv_node held w G n :
  inv held w G -> 0 <= n < MAX_NUMA_NODES -> node_ok (links w) G n (node w n).
Proof. intros Hi. apply (ai_nodes _ _ _ _ _ _ _ _ _ Hi). Qed.

Lemma node_index_range i : 0 <= i -> 0 <= node_index i < MAX_NUMA_NODES.
Proof.
  intros Hi. unfold node_index, MAX_NUMA_NODES, NUMA_NODE_BOOT. destruct (Z.ltb_spec i 16); lia.
Qed.
End moves.
