(* ===== verification/SlubOps.v ===== *)
(** * The slab allocator: its operations keep the invariant *)

From S2P Require Import Prelude Errors Numa Dlist Slub SlubInv.

(** ** Reading a world after an update *)

Lemma hdr_upd_hdr w b f : hdr (upd_hdr b f w) b = f (hdr w b).
Proof. unfold hdr at 1. simpl. by rewrite lookup_insert_eq. Qed.

Lemma hdr_upd_cpu w b c f : hdr (upd_cpu c f w) b = hdr w b.
Proof. done. Qed.

Lemma hdr_set_fp k w b o v : hdr (set_fp k o v w) b = hdr w b.
Proof. done. Qed.

Lemma hdr_count w b d f : hdr (add_live d (with_stats f w)) b = hdr w b.
Proof. done. Qed.

Lemma cpu_upd_hdr w b c f : cpu (upd_hdr b f w) c = cpu w c.
Proof. done. Qed.

Lemma cpu_set_fp k w c o v : cpu (set_fp k o v w) c = cpu w c.
Proof. done. Qed.

Lemma node_upd_hdr w b n f : node (upd_hdr b f w) n = node w n.
Proof. done. Qed.

Create Rewrite HintDb slub.
#[export] Hint Rewrite hdr_upd_hdr hdr_upd_cpu hdr_set_fp hdr_count cpu_upd_hdr cpu_set_fp
  node_upd_hdr : slub.

Section ops.
  Context (k : kmem_cache) (topo : numa) (max_cpus : Z) (Hk : cache_ok k).
  Abbreviation slab_ok := (slab_ok k max_cpus).
  Abbreviation ainv := (ainv k max_cpus).
  Abbreviation inv := (inv k max_cpus).

(** ** Node lists *)

Lemma node_upd N n f m :
  0 <= n < Z.of_nat (length N) -> 0 <= m ->
  nthZ node_zero (updZ N n f) m = if decide (m = n) then f else nthZ node_zero N m.
Proof.
  intros Hn Hm. case_decide as Hd; [subst; by apply nthZ_updZ_eq|].
  apply nthZ_updZ_ne; lia.
Qed.

Lemma cpu_upd C c f d :
  0 <= c < Z.of_nat (length C) -> 0 <= d ->
  nthZ cpu_zero (updZ C c f) d = if decide (d = c) then f else nthZ cpu_zero C d.
Proof.
  intros Hn Hm. case_decide as Hd; [subst; by apply nthZ_updZ_eq|].
  apply nthZ_updZ_ne; lia.
Qed.

Lemma slab_ok_held W b h s n :
  slab_ok W b h s -> sp s = PNode n ->
  slab_ok W b (set_on_node false h) (at_place PHeld s).
Proof.
  intros [] Hp. rewrite Hp in *. split; try done. simpl. naive_solver.
Qed.

(** Node [n] loses slab [b] from its list. *)
Lemma node_ok_remove K G n x b s' i l :
  dlist K (partial x) l -> NoDup l -> nr_partial x = Z.of_nat (length l) ->
  (forall b, b ∈ l <-> pl G b = Some (PNode n)) ->
  l !! i = Some b -> sp s' <> PNode n ->
  let nx := (node_at K b).1 in
  let pv := (node_at K b).2 in
  let K1 := if pv =? 0 then K else set_next K pv nx in
  let K2 := <[b := (0, 0)]> (if nx =? 0 then K1 else set_prev K1 nx pv) in
  node_ok K2 (<[b := s']> G) n
    (set_node_list (if pv =? 0 then nx else partial x) (nr_partial x - 1) x) /\
  (forall q, q ∉ l -> node_at K2 q = node_at K q) /\
  dlist K2 (if pv =? 0 then nx else partial x) (delete i l).
Proof.
  intros Hl Hnd Hnr Hm Hi Hs nx pv K1 K2.
  destruct (dlist_remove K (partial x) l i b Hl Hnd Hi) as [Hd Ho].
  assert (Hbl : b ∈ l) by (by eapply list_elem_of_lookup_2).
  assert (Hperm : l ≡ₚ b :: delete i l) by (by apply delete_Permutation).
  assert (Hbd : b ∉ delete i l /\ NoDup (delete i l)).
  { rewrite Hperm in Hnd. apply list.NoDup_cons in Hnd. done. }
  destruct Hbd as [Hbd Hnd'].
  assert (Hd2 : dlist K2 (if pv =? 0 then nx else partial x) (delete i l)).
  { revert Hd. apply dlist_ext. intros q Hq. unfold K2. rewrite node_at_insert, decide_False.
    - done.
    - by intros ->. }
  split; [|split; [|done]].
  - exists (delete i l). split_and!; [done..| |].
    + simpl. rewrite Hnr. rewrite (Permutation_length Hperm). simpl. lia.
    + intros b'. rewrite pl_insert. case_decide as Hd'; [subst; naive_solver|].
      rewrite <- Hm, (elem_of_Permutation_proper b' _ _ Hperm), elem_of_cons. naive_solver.
  - intros q Hq. unfold K2. rewrite node_at_insert, decide_False by (by intros ->). by apply Ho.
Qed.

Lemma node_remove_inv w G b s n :
  inv None w G -> G !! b = Some s -> sp s = PNode n ->
  exists w', node_remove_partial b w = Some w' /\
    inv (Some b) w' (<[b := at_place PHeld s]> G) /\
    cpus w' = cpus w /\ words w' = words w /\ live_objects w' = live_objects w /\
    slabs w' = <[b := set_on_node false (hdr w b)]> (slabs w) /\
    nr_partial (node w' n) = nr_partial (node w n) - 1 /\
    min_partial (node w' n) = min_partial (node w n) /\
    (forall pre post, dlist (links w) (partial (node w n)) (pre ++ b :: post) ->
       dlist (links w') (partial (node w' n)) (pre ++ post)).
Proof.
  intros Hi Hb Hp. destruct (inv_slab _ _ _ _ _ _ _ Hi Hb) as [Hs Hok].
  pose proof (so_listed _ _ _ _ _ _ Hok) as Hlist. pose proof (so_place _ _ _ _ _ _ Hok) as Hpl.
  rewrite Hp in Hlist, Hpl. destruct Hpl as [Hn _]. simpl in Hlist.
  assert (Hrange : 0 <= n < MAX_NUMA_NODES)
    by (subst n; apply node_index_range, (so_node _ _ _ _ _ _ Hok)).
  pose proof (inv_node _ _ _ _ _ _ Hi Hrange) as (l & Hl & Hnd & Hnr & Hm).
  assert (Hbl : b ∈ l) by (apply Hm; rewrite (pl_Some _ _ _ Hb), Hp; done).
  apply list_elem_of_lookup in Hbl as [i Hlb].
  assert (Hlen : 0 < Z.of_nat (length l)) by (destruct l; [done|simpl; lia]).
  destruct (node_ok_remove (links w) G n (node w n) b (at_place PHeld s) i l
              Hl Hnd Hnr Hm Hlb ltac:(done)) as (Hnode & Hother & Hlist').
  destruct (node_at (links w) b) as [nx pv] eqn:Eb. simpl in Hnode, Hother, Hlist'.
  eexists. split.
  { unfold node_remove_partial, node_of. rewrite <- Hn, Hlist, Eb.
    destruct (Z.eqb_spec (nr_partial (node w n)) 0) as [E|E]; [lia|]. reflexivity. }
  assert (Hlen' : 0 <= n < Z.of_nat (length (nodes w)))
    by (rewrite (ai_nnodes _ _ _ _ _ _ _ _ _ Hi); done).
  split_and!; try done.
  - unfold SlubInv.inv. simpl. eapply ainv_move; try done.
    + by eapply slab_ok_held.
    + apply length_updZ.
    + intros c Hc Hco. apply cpu_ok_other; try done.
      * apply (slab_at_pos k), Hok. done.
      * rewrite (pl_Some _ _ _ Hb), Hp. done.
      * rewrite (pl_Some _ _ _ Hb), Hp. done.
    + intros m Hm' Hmo. rewrite node_upd by lia. case_decide as Hd.
      * subst m. unfold node in *. simpl in *.
        destruct (pv =? 0), (nx =? 0); exact Hnode.
      * revert Hmo. apply node_ok_other.
        -- rewrite (pl_Some _ _ _ Hb), Hp. naive_solver.
        -- done.
        -- intros b' Hb' Hpl'. destruct (pv =? 0), (nx =? 0); apply Hother; rewrite Hm; naive_solver.
    + by left.
  - unfold node at 1. simpl. by rewrite nthZ_updZ_eq.
  - unfold node at 1. simpl. by rewrite nthZ_updZ_eq.
  - intros pre post Hpp. assert (pre ++ b :: post = l) as <-.
    { eapply dlist_inj; [exact Hpp|exact Hl]. }
    assert (i = length pre) as ->.
    { eapply NoDup_lookup; [exact Hnd|exact Hlb|]. by rewrite list_lookup_middle. }
    rewrite delete_middle in Hlist'. unfold node in *. simpl. rewrite nthZ_updZ_eq by done. simpl.
    destruct (pv =? 0), (nx =? 0); exact Hlist'.
Qed.

(** A list of slabs fits a 32-bit counter. *)
Lemma slab_list_bound l :
  NoDup l -> (forall b, b ∈ l -> slab_at k b) -> Z.of_nat (length l) <= 2 ^ 31.
Proof.
  intros Hnd Hl. pose proof (slab_bytes_range k Hk) as Hr.
  set (idx := fun b => (b - KERNEL_VIRTUAL_OFFSET) / slab_bytes (order k)).
  assert (Hidx : forall b, b ∈ l -> b = KERNEL_VIRTUAL_OFFSET + idx b * slab_bytes (order k) /\
                                    0 <= idx b < 2 ^ 31).
  { intros b (i & -> & Hi & Hb)%Hl. unfold idx.
    replace (_ + i * _ - _) with (i * slab_bytes (order k)) by lia.
    rewrite Z.div_mul by lia. unfold SLUB_PHYS_LIMIT in Hb.
    change (2 ^ 43) with 8796093022208 in Hb. change (2 ^ 31) with 2147483648. nia. }
  assert (length (idx <$> l) <= length (seqZ 0 (2 ^ 31)))%nat as Hle.
  { apply submseteq_length, NoDup_submseteq.
    - apply NoDup_fmap_2_strong; [|done]. intros x y Hx Hy E.
      destruct (Hidx x Hx), (Hidx y Hy). congruence.
    - intros i (b & -> & Hb)%list_elem_of_fmap. apply elem_of_seqZ.
      destruct (Hidx b Hb). lia. }
  rewrite length_fmap, length_seqZ in Hle. lia.
Qed.

Lemma node_ok_push K G n x b s' :
  node_ok K G n x -> (forall b, pl G b = Some (PNode n) -> slab_at k b) ->
  pl G b <> Some (PNode n) -> b <> 0 -> sp s' = PNode n ->
  let h := partial x in
  let K1 := <[b := (h, 0)]> K in
  let K2 := if h =? 0 then K1 else set_prev K1 h b in
  node_ok K2 (<[b := s']> G) n (set_node_list b (u32 (nr_partial x + 1)) x) /\
  forall q, q <> b -> pl G q <> Some (PNode n) -> node_at K2 q = node_at K q.
Proof.
  intros (l & Hl & Hnd & Hnr & Hm) Ha Hb Hb0 Hs h K1 K2.
  assert (Hbl : b ∉ l) by (by rewrite Hm).
  assert (Hlen : Z.of_nat (length l) <= 2 ^ 31)
    by (apply slab_list_bound; [done|intros b' Hb'; apply Ha, Hm, Hb']).
  change (2 ^ 31) with 2147483648 in Hlen.
  destruct (dlist_push K (partial x) l b Hl Hb0 Hbl Hnd) as [Hd Ho]. split.
  - exists (b :: l). split_and!; [done|by constructor| |].
    + simpl. rewrite u32_small; [lia|]. solve_u.
    + intros b'. rewrite pl_insert, elem_of_cons, Hm. case_decide as Hd'; [subst b'|].
      * rewrite Hs. split; [done|by left].
      * split; [by intros [?|?]|by right].
  - intros q Hq Hp. apply Ho; [done|]. by rewrite Hm.
Qed.

Lemma inv_place_at held w G b p : inv held w G -> pl G b = Some p -> slab_at k b.
Proof.
  intros Hi (s & Hb & _)%pl_inv. destruct (inv_slab _ _ _ _ _ _ _ Hi Hb) as [_ Hok]. apply Hok.
Qed.

Lemma node_add_inv w G b s :
  inv (Some b) w G -> G !! b = Some s -> sf s <> [] -> frozen (hdr w b) = false ->
  exists w', node_add_partial b w = Some w' /\
    inv None w' (<[b := at_place (PNode (node_of w b)) s]> G) /\
    cpus w' = cpus w /\ words w' = words w /\ live_objects w' = live_objects w.
Proof.
  intros Hi Hb Hf Hz. destruct (inv_slab _ _ _ _ _ _ _ Hi Hb) as [Hs Hok].
  assert (Hp : sp s = PHeld) by (by apply (ai_held _ _ _ _ _ _ _ _ _ Hi b s Hb)).
  assert (Hr : 0 <= node_of w b < MAX_NUMA_NODES) by (apply node_index_range, Hok).
  assert (Hb0 : b <> 0) by (by apply (slab_at_pos k), Hok).
  assert (Hlen : 0 <= node_of w b < Z.of_nat (length (nodes w)))
    by (rewrite (ai_nnodes _ _ _ _ _ _ _ _ _ Hi); done).
  destruct (node_ok_push _ _ _ _ b (at_place (PNode (node_of w b)) s)
              (inv_node _ _ _ _ _ _ Hi Hr)) as [Hn Ho]; try done.
  { intros b' Hb'. by eapply inv_place_at. }
  { rewrite (pl_Some _ _ _ Hb), Hp. done. }
  eexists. split.
  { unfold node_add_partial. rewrite (so_listed _ _ _ _ _ _ Hok), Hp. reflexivity. }
  split_and!; try done. unfold SlubInv.inv. simpl. eapply ainv_move; try done.
  - pose proof (so_place _ _ _ _ _ _ Hok) as Hcf. rewrite Hp in Hcf.
    destruct Hok. split; simpl; done.
  - apply length_updZ.
  - intros c Hc. apply cpu_ok_other; try done; rewrite (pl_Some _ _ _ Hb), Hp; done.
  - intros m Hm' Hmo. rewrite node_upd by lia. case_decide as Hd.
    + subst m. unfold node in *. simpl in *. destruct (partial _ =? 0); exact Hn.
    + revert Hmo. apply node_ok_other.
      * rewrite (pl_Some _ _ _ Hb), Hp. done.
      * simpl. congruence.
      * intros b' Hne Hb'. unfold node in *. simpl in *.
        destruct (partial _ =? 0); simpl; apply Ho; try done; rewrite Hb'; congruence.
  - by right.
Qed.

(** ** The CPU's active slab *)

Lemma cpu_ok_set_active S G c x b h s' fl sl :
  cpu_ok S G c x -> pl G b <> Some (PCpu c) -> sp s' <> PCpu c -> b <> 0 ->
  (forall b', b' <> b -> pl G b' <> Some (PActive c)) ->
  (sp s' = PActive c /\ sl = b /\ fl = hd 0 (cf s')) \/
  (sp s' <> PActive c /\ sl = 0 /\ fl = 0 /\ G !! 0 = None) ->
  cpu_ok (<[b := h]> S) (<[b := s']> G) c (set_active fl sl x).
Proof.
  intros [H1 H2 (l & Hl & Hnd & Hm)] Hb Hs Hb0 Ha Hcase. split; simpl.
  - intros b'. rewrite pl_insert. case_decide as Hd.
    + subst b'. destruct Hcase as [(-> & -> & _) | (Hn & -> & _)]; [done|].
      split; [congruence|by intros [? ?]].
    + split; [intros E; by destruct (Ha b' Hd)|].
      destruct Hcase as [(_ & -> & _) | (_ & -> & _)]; by intros [? ?].
  - destruct Hcase as [(_ & -> & ->) | (_ & -> & -> & E)].
    + by rewrite lookup_insert_eq.
    + rewrite lookup_insert_ne, E by done. done.
  - exists l. split_and!; [|done|].
    + revert Hl. apply pchain_ext. intros b' Hb'. rewrite lookup_insert_ne; [done|].
      intros ->. apply Hb. by apply Hm.
    + intros b'. rewrite pl_insert, Hm. case_decide; [subst|done]. split; [done|congruence].
Qed.

Lemma inv_null held w G : inv held w G -> G !! 0 = None.
Proof.
  intros Hi. destruct (G !! 0) as [s|] eqn:E; [|done].
  destruct (inv_slab _ _ _ _ _ _ _ Hi E) as [_ Hok]. by destruct (slab_at_pos k Hk 0); [apply Hok|].
Qed.

Lemma activate_inv w G b s c :
  inv (Some b) w G -> G !! b = Some s -> 0 <= c < max_cpus -> c_slab (cpu w c) = 0 ->
  exists w', activate_slab c b w = Some w' /\
    inv None w' (<[b := SlabGhost [] (sf s) (PActive c)]> G) /\
    c_slab (cpu w' c) = b /\ c_freelist (cpu w' c) = hd 0 (sf s) /\
    nodes w' = nodes w /\ live_objects w' = live_objects w.
Proof.
  intros Hi Hb Hc Hz. destruct (inv_slab _ _ _ _ _ _ _ Hi Hb) as [Hs Hok].
  assert (Hp : sp s = PHeld) by (by apply (ai_held _ _ _ _ _ _ _ _ _ Hi b s Hb)).
  assert (Hb0 : b <> 0) by (by apply (slab_at_pos k), Hok).
  assert (Hlen : 0 <= c < Z.of_nat (length (cpus w)))
    by (rewrite (ai_ncpus _ _ _ _ _ _ _ _ _ Hi); done).
  pose proof (so_place _ _ _ _ _ _ Hok) as Hcf. rewrite Hp in Hcf.
  pose proof (fchain_hd _ _ _ _ (so_sf _ _ _ _ _ _ Hok)) as Hfl.
  unfold activate_slab. rewrite (so_listed _ _ _ _ _ _ Hok), Hp. simpl.
  eexists. split; [reflexivity|]. unfold SlubInv.inv. simpl. autorewrite with slub. simpl.
  rewrite insert_insert_eq, Hfl. unfold cpu at 2 3. simpl.
  rewrite nthZ_updZ_eq by done. split_and!; try done.
  eapply ainv_move; try done.
  - destruct Hok. rewrite Hcf in *. split; simpl; try done.
    + by rewrite app_nil_r in so_inuse.
    + by rewrite app_nil_r in so_nodup.
    + intros o Ho. apply so_sub. by rewrite app_nil_r.
    + rewrite <- Hfl. done.
    + by rewrite Hp in so_listed.
  - apply length_updZ.
  - intros c' Hc' Hco. rewrite cpu_upd by lia. case_decide as Hd.
    + subst c'. apply cpu_ok_set_active; try done.
      * rewrite (pl_Some _ _ _ Hb), Hp. done.
      * intros b' Hne E. apply (co_active _ _ _ _ Hco) in E. unfold cpu in Hz. naive_solver.
      * by left.
    + revert Hco. apply cpu_ok_other; try done; try (rewrite (pl_Some _ _ _ Hb), Hp; done).
      simpl. congruence.
  - intros n Hn. apply node_ok_other; try done. rewrite (pl_Some _ _ _ Hb), Hp. done.
  - by right.
Qed.

Lemma slab_counts W b h s :
  slab_ok W b h s -> 0 <= inuse h <= objects_per_slab k /\ objects_per_slab k <= 131072.
Proof.
  intros Hok. pose proof (so_inuse _ _ _ _ _ _ Hok) as Hi.
  assert (length (sf s ++ cf s) <= length (objs k b))%nat as Hl.
  { apply submseteq_length, NoDup_submseteq; apply Hok. }
  pose proof (length_objs k Hk b). pose proof (ck_fit k Hk) as Hf.
  destruct (align_range k Hk) as (a & _ & _ & Hh). pose proof (slab_bytes_range k Hk).
  pose proof (ck_size k Hk). fold (hdr_end k) in Hf. unfold SLAB_HEADER_SIZE in *. nia.
Qed.

Lemma inv_active held w G b s c :
  inv held w G -> G !! b = Some s -> sp s = PActive c ->
  0 <= c < max_cpus /\ b <> 0 /\ c_slab (cpu w c) = b /\ c_freelist (cpu w c) = hd 0 (cf s).
Proof.
  intros Hi Hb Hp. destruct (inv_slab _ _ _ _ _ _ _ Hi Hb) as [_ Hok].
  pose proof (so_place _ _ _ _ _ _ Hok) as Hc. rewrite Hp in Hc.
  pose proof (inv_cpu _ _ _ _ _ _ Hi Hc) as Hco.
  destruct (proj1 (co_active _ _ _ _ Hco b)) as [E Hb0]; [by rewrite (pl_Some _ _ _ Hb), Hp|].
  split_and!; try done; try lia. rewrite (co_free _ _ _ _ Hco), <- E, Hb. done.
Qed.

(** Changing the free lists of an active slab. *)
Lemma active_upd_inv w G b s s' c h W N :
  inv None w G -> G !! b = Some s -> sp s = PActive c -> sp s' = PActive c ->
  slab_ok W b h s' -> (forall o, o ∉ objs k b -> W !! o = words w !! o) -> N = nodes w ->
  ainv None N (updZ (cpus w) c (set_c_freelist (hd 0 (cf s')) (cpu w c)))
    (<[b := h]> (slabs w)) (links w) W (<[b := s']> G).
Proof.
  intros Hi Hb Hp Hp' Hok HW ->. destruct (inv_active _ _ _ _ _ _ Hi Hb Hp) as (Hc & Hb0 & Es & _).
  assert (Hlen : 0 <= c < Z.of_nat (length (cpus w)))
    by (rewrite (ai_ncpus _ _ _ _ _ _ _ _ _ Hi); done).
  eapply ainv_move; try done.
  - apply length_updZ.
  - intros c' Hc' Hco. rewrite cpu_upd by lia. case_decide as Hd.
    + subst c'. unfold set_c_freelist. apply cpu_ok_set_active; try done.
      * rewrite (pl_Some _ _ _ Hb), Hp. done.
      * congruence.
      * intros b' Hne E. apply (co_active _ _ _ _ Hco) in E. unfold cpu in Es. naive_solver.
      * by left.
    + revert Hco. apply cpu_ok_other; try done; try (rewrite (pl_Some _ _ _ Hb)); congruence.
  - intros n Hn. eapply node_ok_same; [done|]. congruence.
  - by left.
  - rewrite decide_False by congruence. done.
Qed.

Lemma pop_active_inv w G b s c o l :
  inv None w G -> G !! b = Some s -> sp s = PActive c -> cf s = o :: l ->
  exists w', pop_active k c b w = (o, w') /\
    inv None w' (<[b := SlabGhost (sf s) l (PActive c)]> G) /\
    live_objects w' = live_objects w.
Proof.
  intros Hi Hb Hp Hcf. destruct (inv_slab _ _ _ _ _ _ _ Hi Hb) as [Hs Hok].
  destruct (inv_active _ _ _ _ _ _ Hi Hb Hp) as (Hc & Hb0 & Es & Ef).
  rewrite Hcf in Ef. simpl in Ef. pose proof (slab_counts _ _ _ _ Hok) as [Hu Hn].
  pose proof (so_cf _ _ _ _ _ _ Hok) as Hch. rewrite Hcf in Hch. destruct Hch as (_ & _ & Hch).
  pose proof (fchain_hd _ _ _ _ Hch) as Hfp. pose proof (so_inuse _ _ _ _ _ _ Hok) as Hin.
  pose proof (so_nodup _ _ _ _ _ _ Hok) as Hnd. pose proof (so_sub _ _ _ _ _ _ Hok) as Hsub.
  rewrite Hcf in Hin, Hnd, Hsub.
  eexists. split; [unfold pop_active; rewrite Ef; reflexivity|]. split; [|done].
  unfold SlubInv.inv. simpl. autorewrite with slub. rewrite (get_fp_fp k Hk), Hfp.
  rewrite length_app in Hin. simpl in Hin.
  eapply (active_upd_inv w G b s (SlabGhost (sf s) l (PActive c))); try done.
  destruct Hok. split; simpl; try done; try (by rewrite <- Hfp).
  - rewrite u32_small by solve_u. rewrite length_app. lia.
  - rewrite <- Permutation_middle in Hnd. by apply list.NoDup_cons in Hnd as [_ ?].
  - intros x Hx. apply Hsub. set_solver.
  - rewrite Hp in so_frozen. by apply so_frozen.
  - by rewrite Hp in so_listed.
Qed.

(** An object that is on no free list is counted as in use. *)
Lemma slab_live_inuse W b h s o :
  slab_ok W b h s -> o ∈ objs k b -> o ∉ sf s ++ cf s -> 1 <= inuse h.
Proof.
  intros Hok Ho Hn. pose proof (so_inuse _ _ _ _ _ _ Hok) as Hi.
  assert (length (o :: sf s ++ cf s) <= length (objs k b))%nat as Hl.
  { apply submseteq_length, NoDup_submseteq; [constructor; [done|apply Hok]|].
    intros x [-> | Hx]%elem_of_cons; [done|by apply Hok]. }
  pose proof (length_objs k Hk b). simpl in Hl. lia.
Qed.

Lemma push_active_inv w G b s c o :
  inv None w G -> G !! b = Some s -> sp s = PActive c ->
  o ∈ objs k b -> o ∉ sf s ++ cf s ->
  1 <= inuse (hdr w b) /\
  inv None (upd_hdr b (set_inuse (u32 (inuse (hdr w b) - 1)))
             (upd_cpu c (set_c_freelist o) (set_fp k o (c_freelist (cpu w c)) w)))
    (<[b := SlabGhost (sf s) (o :: cf s) (PActive c)]> G).
Proof.
  intros Hi Hb Hp Ho Hn. destruct (inv_slab _ _ _ _ _ _ _ Hi Hb) as [Hs Hok].
  destruct (inv_active _ _ _ _ _ _ Hi Hb Hp) as (Hc & Hb0 & Es & Ef).
  pose proof (slab_counts _ _ _ _ Hok) as [Hu Hmax].
  pose proof (slab_live_inuse _ _ _ _ _ Hok Ho Hn) as H1. split; [done|].
  pose proof (obj_pos k Hk b o (so_addr _ _ _ _ _ _ Hok) Ho) as Ho0.
  pose proof (so_inuse _ _ _ _ _ _ Hok) as Hin. rewrite length_app in Hin.
  unfold SlubInv.inv. simpl. autorewrite with slub. rewrite (ck_fp k Hk), Z.add_0_r, Ef.
  rewrite elem_of_app in Hn.
  eapply (active_upd_inv w G b s (SlabGhost (sf s) (o :: cf s) (PActive c))); try done.
  - destruct Hok. split; simpl; try done.
    + rewrite u32_small by solve_u. rewrite length_app. simpl. lia.
    + rewrite <- Permutation_middle. constructor; [by rewrite elem_of_app|done].
    + intros x Hx. assert (x = o \/ x ∈ sf s ++ cf s) as [-> | Hx'] by set_solver; auto.
    + revert so_sf. apply fchain_ext. intros x Hx. rewrite lookup_insert_ne by naive_solver. done.
    + apply (fchain_push k _ _ (cf s) o); [done|naive_solver|done].
    + rewrite Hp in so_frozen. by apply so_frozen.
    + by rewrite Hp in so_listed.
  - intros x Hx. rewrite lookup_insert_ne by naive_solver. done.
Qed.

(** CPU [c] lets go of its active slab. *)
Lemma active_drop_inv w G b s s' c h W :
  inv None w G -> G !! b = Some s -> sp s = PActive c -> sp s' = PHeld \/ sp s' = PFull ->
  slab_ok W b h s' -> (forall o, o ∉ objs k b -> W !! o = words w !! o) ->
  ainv (if decide (sp s' = PHeld) then Some b else None) (nodes w)
    (updZ (cpus w) c (set_active 0 0 (cpu w c)))
    (<[b := h]> (slabs w)) (links w) W (<[b := s']> G).
Proof.
  intros Hi Hb Hp Hp' Hok HW. destruct (inv_active _ _ _ _ _ _ Hi Hb Hp) as (Hc & Hb0 & Es & _).
  assert (Hlen : 0 <= c < Z.of_nat (length (cpus w)))
    by (rewrite (ai_ncpus _ _ _ _ _ _ _ _ _ Hi); done).
  assert (Hq : (forall d, sp s' <> PActive d) /\ (forall d, sp s' <> PCpu d) /\
               (forall d, sp s' <> PNode d)) by (destruct Hp' as [-> | ->]; done).
  destruct Hq as (Hq1 & Hq2 & Hq3). eapply ainv_move; try done.
  - apply length_updZ.
  - intros c' Hc' Hco. rewrite cpu_upd by lia. case_decide as Hd.
    + subst c'. apply cpu_ok_set_active; try done.
      * rewrite (pl_Some _ _ _ Hb), Hp. done.
      * intros b' Hne E. apply (co_active _ _ _ _ Hco) in E. unfold cpu in Es. naive_solver.
      * right. split_and!; try done. by eapply inv_null.
    + revert Hco. apply cpu_ok_other; try done; rewrite (pl_Some _ _ _ Hb); congruence.
  - intros n Hn. apply node_ok_other; try done. rewrite (pl_Some _ _ _ Hb). congruence.
  - by left.
Qed.

(** The active slab takes back the objects on its CPU's free list. *)
Lemma slab_ok_retire W b h s c W' fl :
  slab_ok W b h s -> sp s = PActive c ->
  fchain k W' fl (cf s ++ sf s) ->
  slab_ok W' b (set_frozen false (set_freelist fl h))
    (SlabGhost (cf s ++ sf s) [] (if decide (cf s ++ sf s = []) then PFull else PHeld)).
Proof.
  intros Hok Hp Hch. destruct Hok. rewrite Hp in *. split; simpl; try done.
  - rewrite app_nil_r. rewrite length_app in *. lia.
  - rewrite app_nil_r. by rewrite (Permutation_app_comm (cf s)).
  - intros o. rewrite app_nil_r. intros Ho. apply so_sub. set_solver.
  - case_decide; done.
  - rewrite so_listed. simpl. case_decide; done.
  - case_decide; done.
Qed.

Lemma live_ext G b s s' :
  G !! b = Some s -> (forall o, o ∈ sf s' ++ cf s' <-> o ∈ sf s ++ cf s) ->
  forall o, live k (<[b := s']> G) o <-> live k G o.
Proof.
  intros Hb He o. specialize (He o). rewrite !elem_of_app in He.
  split; intros (b' & t & Ht & Ho & H1 & H2).
  - apply lookup_insert_Some in Ht as [[<- <-] | [Hne Ht]];
      [exists b, s|exists b', t]; split_and!; naive_solver.
  - destruct (decide (b = b')) as [<-|Hne].
    + exists b, s'. rewrite lookup_insert_eq. split_and!; naive_solver.
    + exists b', t. rewrite lookup_insert_ne by done. done.
Qed.

(** The CPU's free list is spliced in front of the slab's own. *)
Lemma retire_join w b fl s :
  slabs w !! b = Some (hdr w b) -> slab_ok (words w) b (hdr w b) s -> fl = hd 0 (cf s) ->
  exists W' fl',
    (if negb (fl =? 0) then
       tail ← last_free k w fl (Z.to_nat (objects_per_slab k));
       Some (upd_hdr b (set_freelist fl) (set_fp k tail (freelist (hdr w b)) w))
     else Some w) = Some (upd_hdr b (set_freelist fl') (with_words W' w)) /\
    fchain k W' fl' (cf s ++ sf s) /\ (forall o, o ∉ objs k b -> W' !! o = words w !! o).
Proof.
  intros Hs Hok ->. destruct (cf s) as [|o l] eqn:Hcf; simpl.
  - exists (words w), (freelist (hdr w b)). split_and!; [|apply Hok|done].
    unfold upd_hdr, with_slabs, with_words. simpl. f_equal. destruct w as [N C S K W L st r]. simpl in *.
    f_equal. symmetry. apply insert_id. unfold hdr in *. simpl in *. rewrite Hs at 1.
    destruct (default slab_zero (S !! b)). done.
  - assert (Hnd : NoDup ((o :: l) ++ sf s)).
    { rewrite Permutation_app_comm, <- Hcf. apply Hok. }
    assert (Hlen : (length (o :: l) <= Z.to_nat (objects_per_slab k))%nat).
    { pose proof (so_inuse _ _ _ _ _ _ Hok) as Hin. rewrite length_app, Hcf in Hin.
      destruct (slab_counts _ _ _ _ Hok). simpl in *. lia. }
    destruct (fchain_splice k Hk (words w) o (freelist (hdr w b)) (o :: l) (sf s))
      as (tail & Ht & Hlast & Hch); [|apply Hok|done|done|].
    { pose proof (so_cf _ _ _ _ _ _ Hok) as H. by rewrite Hcf in H. }
    assert (Hto : tail ∈ objs k b)
      by (apply (so_sub _ _ _ _ _ _ Hok); rewrite Hcf, elem_of_app; by right).
    assert (Ho0 : o <> 0).
    { apply (obj_pos k Hk b); [apply Hok|]. apply (so_sub _ _ _ _ _ _ Hok).
      rewrite Hcf, elem_of_app. right. left. }
    destruct (Z.eqb_spec o 0) as [|_]; [done|]. cbn [negb].
    rewrite (Hlast w _ eq_refl Hlen). cbn [mbind option_bind]. eexists _, o. split; [|split].
    + unfold set_fp. rewrite (ck_fp k Hk), Z.add_0_r. reflexivity.
    + exact Hch.
    + intros x Hx. rewrite lookup_insert_ne by naive_solver. done.
Qed.

Lemma deactivate_inv w G c :
  inv None w G -> 0 <= c < max_cpus ->
  exists w' G', deactivate_cpu_slab k c w = Some w' /\ inv None w' G' /\
    c_slab (cpu w' c) = 0 /\ live_objects w' = live_objects w /\
    (forall o, live k G' o <-> live k G o) /\ forall b, G !! b = None -> G' !! b = None.
Proof.
  intros Hi Hc. unfold deactivate_cpu_slab. pose proof (inv_cpu _ _ _ _ _ _ Hi Hc) as Hco.
  destruct (Z.eqb_spec (c_slab (cpu w c)) 0) as [E|E]; [by exists w, G|].
  destruct (pl_inv G (c_slab (cpu w c)) (PActive c)) as (s & Hb & Hp);
    [by apply (co_active _ _ _ _ Hco)|].
  destruct (inv_active _ _ _ _ _ _ Hi Hb Hp) as (_ & Hb0 & _ & Ef).
  assert (Hlen : 0 <= c < Z.of_nat (length (cpus w)))
    by (rewrite (ai_ncpus _ _ _ _ _ _ _ _ _ Hi); done).
  generalize dependent (c_slab (cpu w c)). intros b E Hb Hb0.
  destruct (inv_slab _ _ _ _ _ _ _ Hi Hb) as [Hs Hok].
  destruct (retire_join w b _ s Hs Hok Ef) as (W' & fl' & -> & Hch & HW). simpl.
  pose proof (slab_ok_retire _ _ _ _ _ _ _ Hok Hp Hch) as Hok'.
  set (s' := SlabGhost _ _ _) in Hok'. set (w1 := upd_hdr b (set_frozen false) _).
  assert (Hh : hdr w1 b = set_frozen false (set_freelist fl' (hdr w b)))
    by (unfold w1; by autorewrite with slub).
  assert (Hi' : inv (if decide (sp s' = PHeld) then Some b else None) w1 (<[b := s']> G)).
  { unfold SlubInv.inv, w1. simpl. rewrite insert_insert_eq. autorewrite with slub.
    eapply (active_drop_inv w G b s s'); try done. simpl. case_decide; auto. }
  assert (Hc1 : c_slab (cpu w1 c) = 0) by (unfold cpu; simpl; by rewrite nthZ_updZ_eq).
  assert (Hlv : forall o, live k (<[b := s']> G) o <-> live k G o).
  { apply (live_ext _ _ _ _ Hb). intros o. simpl. rewrite app_nil_r. set_solver. }
  pose proof (so_inuse _ _ _ _ _ _ Hok') as Hin. simpl in Hin.
  rewrite Hh. simpl. rewrite (so_objects _ _ _ _ _ _ Hok), (so_listed _ _ _ _ _ _ Hok), Hp. simpl.
  rewrite andb_true_r. rewrite app_nil_r in Hin.
  destruct (decide (cf s ++ sf s = [])) as [Hnil|Hne].
  - rewrite Hnil in Hin. simpl in Hin.
    destruct (Z.ltb_spec (inuse (hdr w b)) (objects_per_slab k)); [lia|].
    exists w1, (<[b := s']> G). split_and!; try done.
    intros b' Hb'. rewrite lookup_insert_ne; congruence.
  - destruct (Z.ltb_spec (inuse (hdr w b)) (objects_per_slab k)) as [_|Hge];
      [|destruct (cf s ++ sf s); [done|simpl in Hin; lia]].
    rewrite decide_True in Hi' by done.
    destruct (node_add_inv w1 _ b s' Hi') as (w2 & -> & Hi2 & Ec & _ & El);
      [apply lookup_insert_eq|done|by rewrite Hh|].
    eexists w2, _. split_and!; [done|exact Hi2| |done| |].
    + unfold cpu in *. by rewrite Ec.
    + intros o. rewrite live_ext; [apply Hlv|apply lookup_insert_eq|done].
    + intros b' Hb'. rewrite !lookup_insert_ne; congruence.
Qed.

(** ** The CPU's partial list *)

Lemma cpu_ok_pop S G c x b h s' v :
  cpu_ok S G c x -> b = c_partial x -> b <> 0 -> sp s' <> PCpu c -> sp s' <> PActive c ->
  pl G b = Some (PCpu c) /\
  cpu_ok (<[b := h]> S) (<[b := s']> G) c
    (set_c_partial (cpu_partial_next (default slab_zero (S !! b))) v x).
Proof.
  intros [H1 H2 (l & Hl & Hnd & Hm)] Hb Hb0 Hs1 Hs2.
  destruct l as [|b' l]; [simpl in Hl; congruence|]. simpl in Hl. destruct Hl as (E & _ & Hl).
  assert (b' = b) as -> by congruence. apply list.NoDup_cons in Hnd as [Hbl Hnd].
  assert (Hpl : pl G b = Some (PCpu c)) by (apply Hm; left). split; [done|].
  assert (Hna : c_slab x <> b).
  { intros E'. pose proof (proj2 (H1 b) (conj (eq_sym E') Hb0)). congruence. }
  split; simpl.
  - intros b'. rewrite pl_insert. case_decide; [subst b'|apply H1].
    split; [congruence|]. intros [? _]. congruence.
  - rewrite lookup_insert_ne by congruence. done.
  - exists l. split_and!; [|done|].
    + revert Hl. apply pchain_ext. intros y Hy. rewrite lookup_insert_ne; [done|congruence].
    + intros b'. rewrite pl_insert. case_decide as Hd.
      * subst b'. split; [done|congruence].
      * rewrite <- Hm, elem_of_cons. naive_solver.
Qed.

Lemma cpu_pop_inv w G c b v :
  inv None w G -> 0 <= c < max_cpus -> b = c_partial (cpu w c) -> b <> 0 ->
  exists s, G !! b = Some s /\ sf s <> [] /\ cf s = [] /\
    inv (Some b) (upd_hdr b (set_cpu_partial_next 0)
                   (upd_cpu c (set_c_partial (cpu_partial_next (hdr w b)) v) w))
      (<[b := at_place PHeld s]> G).
Proof.
  intros Hi Hc Eb Hb0.
  destruct (pl_inv G b (PCpu c)) as (s & Hb & Hp).
  { exact (proj1 (cpu_ok_pop _ _ _ _ b slab_zero (SlabGhost [] [] PHeld) 0
                    (inv_cpu _ _ _ _ _ _ Hi Hc) Eb Hb0 ltac:(done) ltac:(done))). }
  destruct (inv_slab _ _ _ _ _ _ _ Hi Hb) as [Hs Hok].
  pose proof (so_place _ _ _ _ _ _ Hok) as Hpl. rewrite Hp in Hpl. destruct Hpl as (_ & Hcf & Hsf).
  assert (Hlen : 0 <= c < Z.of_nat (length (cpus w)))
    by (rewrite (ai_ncpus _ _ _ _ _ _ _ _ _ Hi); done).
  exists s. split_and!; try done. unfold SlubInv.inv. simpl. autorewrite with slub.
  eapply ainv_move; try done.
  - destruct Hok. rewrite Hp in *. split; simpl; done.
  - apply length_updZ.
  - intros c' Hc' Hco. rewrite cpu_upd by lia. case_decide as Hd.
    + subst c'. by eapply cpu_ok_pop.
    + revert Hco. apply cpu_ok_other; try done; rewrite (pl_Some _ _ _ Hb); congruence.
  - intros n Hn. apply node_ok_other; try done. rewrite (pl_Some _ _ _ Hb). congruence.
  - by left.
Qed.

Lemma cpu_ok_push S G c x b h s' v :
  cpu_ok S G c x -> pl G b = Some PHeld -> b <> 0 -> sp s' = PCpu c ->
  cpu_partial_next h = c_partial x ->
  cpu_ok (<[b := h]> S) (<[b := s']> G) c (set_c_partial b v x).
Proof.
  intros [H1 H2 (l & Hl & Hnd & Hm)] Hb Hb0 Hs Hh.
  assert (Hbl : b ∉ l) by (rewrite Hm; congruence).
  assert (Hna : c_slab x <> b).
  { intros E'. pose proof (proj2 (H1 b) (conj (eq_sym E') Hb0)). congruence. }
  split; simpl.
  - intros b'. rewrite pl_insert. case_decide; [subst b'|apply H1].
    split; [congruence|]. intros [? _]. congruence.
  - rewrite lookup_insert_ne by congruence. done.
  - exists (b :: l). split_and!; [|by constructor|].
    + simpl. rewrite lookup_insert_eq. simpl. rewrite Hh. split_and!; try done.
      revert Hl. apply pchain_ext. intros y Hy. rewrite lookup_insert_ne; [done|congruence].
    + intros b'. rewrite pl_insert, elem_of_cons, Hm. case_decide as Hd.
      * subst b'. rewrite Hs. split; [done|by left].
      * split; [by intros [?|?]|by right].
Qed.

Lemma cpu_push_inv w G c b s v :
  inv (Some b) w G -> 0 <= c < max_cpus -> G !! b = Some s -> sf s <> [] ->
  inv None (upd_cpu c (set_c_partial b v)
             (upd_hdr b (set_cpu_partial_next (c_partial (cpu w c)))
               (upd_hdr b (set_frozen true) w)))
    (<[b := at_place (PCpu c) s]> G).
Proof.
  intros Hi Hc Hb Hsf. destruct (inv_slab _ _ _ _ _ _ _ Hi Hb) as [Hs Hok].
  assert (Hp : sp s = PHeld) by (by apply (ai_held _ _ _ _ _ _ _ _ _ Hi b s Hb)).
  assert (Hb0 : b <> 0) by (by apply (slab_at_pos k), Hok).
  pose proof (so_place _ _ _ _ _ _ Hok) as Hcf. rewrite Hp in Hcf.
  assert (Hlen : 0 <= c < Z.of_nat (length (cpus w)))
    by (rewrite (ai_ncpus _ _ _ _ _ _ _ _ _ Hi); done).
  unfold SlubInv.inv. simpl. autorewrite with slub. rewrite insert_insert_eq.
  eapply ainv_move; try done.
  - destruct Hok. rewrite Hp in *. split; simpl; done.
  - apply length_updZ.
  - intros c' Hc' Hco. rewrite cpu_upd by lia. case_decide as Hd.
    + subst c'. apply cpu_ok_push; try done. by rewrite (pl_Some _ _ _ Hb), Hp.
    + revert Hco. apply cpu_ok_other; try done; try (rewrite (pl_Some _ _ _ Hb)); simpl; congruence.
  - intros n Hn. apply node_ok_other; try done. rewrite (pl_Some _ _ _ Hb). congruence.
  - by right.
Qed.

(** ** New and released slabs *)

(** The loop of [alloc_new_slab] chains the objects [i], ..., [i + n]. *)
Lemma init_objects_chain b i n w :
  (forall j, i <= j <= i + Z.of_nat n -> object k b j <> 0) ->
  exists W', init_objects k (object k b i) n w = with_words W' w /\
    fchain k W' (object k b i) (object k b <$> seqZ i (Z.of_nat (S n))) /\
    forall o, (forall j, i <= j <= i + Z.of_nat n -> o <> object k b j) ->
      W' !! o = words w !! o.
Proof.
  revert i w. induction n as [|n IH]; intros i w Hpos; cbn [init_objects].
  - unfold set_fp. rewrite (ck_fp k Hk), Z.add_0_r. eexists. split; [reflexivity|]. split.
    + rewrite seqZ_cons by lia. simpl.
      rewrite fp_insert, decide_True by done. split_and!; [done|apply Hpos; lia|done].
    + intros o Ho. rewrite lookup_insert_ne; [done|]. specialize (Ho i). intros E. apply Ho; lia.
  - assert (Enext : object k b i + size k = object k b (i + 1)) by (unfold object; lia).
    rewrite Enext.
    destruct (IH (i + 1) (set_fp k (object k b i) (object k b (i + 1)) w)) as (W' & -> & Hch & Ho).
    { intros j Hj. apply Hpos. lia. }
    eexists. split; [reflexivity|]. split.
    + rewrite seqZ_cons by lia. replace (Z.succ i) with (i + 1) by lia.
      replace (Z.pred (Z.of_nat (S (S n)))) with (Z.of_nat (S n)) by lia.
      rewrite fmap_cons. refine (conj eq_refl (conj _ _)); [apply Hpos; lia|].
      enough (fp k W' (object k b i) = object k b (i + 1)) as -> by done.
      unfold fp. rewrite Ho.
      * simpl. rewrite (ck_fp k Hk), Z.add_0_r, lookup_insert_eq. apply decode_encode.
      * intros j Hj. unfold object. pose proof (ck_size k Hk). nia.
    + intros o Hne. rewrite Ho by (intros j Hj; apply Hne; lia). simpl.
      rewrite (ck_fp k Hk), Z.add_0_r, lookup_insert_ne; [done|]. specialize (Hne i).
      intros E. apply Hne; lia.
Qed.

(** What the page allocator promises: an aligned block below the limit that
    no slab of the cache occupies. *)
Definition frame_fresh (w : world) (result : option (Z * Z)) : Prop :=
  match result with
  | None => True
  | Some (ph, nid) =>
      slab_at k (ph + KERNEL_VIRTUAL_OFFSET) /\ slabs w !! (ph + KERNEL_VIRTUAL_OFFSET) = None /\
      0 <= nid
  end.

Lemma alloc_new_slab_inv w G ph nid :
  inv None w G -> frame_fresh w (Some (ph, nid)) ->
  let b := ph + KERNEL_VIRTUAL_OFFSET in
  exists w', alloc_new_slab k (Some (ph, nid)) w = (b, w') /\
    inv (Some b) w' (<[b := SlabGhost (objs k b) [] PHeld]> G) /\ G !! b = None /\
    cpus w' = cpus w /\ live_objects w' = live_objects w.
Proof.
  intros Hi (Ha & Hf & Hn) b. apply (inv_fresh _ _ _ _ _ _ Hi) in Hf. fold b in Ha, Hf.
  assert (Hb0 : b <> 0) by (by apply (slab_at_pos k)).
  assert (Hpl : pl G b = None) by (unfold pl; by rewrite Hf).
  pose proof (ck_count k Hk) as Hcnt. unfold alloc_new_slab.
  fold b. rewrite (first_object_at k Hk b Ha).
  destruct (init_objects_chain b 0 (Z.to_nat (objects_per_slab k - 1))
              (with_links (<[b := (0, 0)]> (links w)) w)) as (W' & -> & Hch & Ho).
  { intros j Hj. apply (obj_pos k Hk b); [done|]. apply elem_of_objs. exists j. split; [lia|done]. }
  replace (Z.of_nat (S (Z.to_nat (objects_per_slab k - 1)))) with (objects_per_slab k) in Hch by lia.
  fold (objs k b) in Hch. eexists. split; [reflexivity|]. split_and!; try done.
  assert (Hnid : 0 <= node_index nid < Z.of_nat (length (nodes w))).
  { rewrite (ai_nnodes _ _ _ _ _ _ _ _ _ Hi). by apply node_index_range. }
  unfold SlubInv.inv. simpl. eapply ainv_move; try done.
  - split; simpl; try done.
    + rewrite app_nil_r. rewrite (length_objs k Hk). lia.
    + rewrite app_nil_r. by apply NoDup_objs.
    + intros o. by rewrite app_nil_r.
  - intros o Hno. rewrite Ho; [done|]. intros j Hj ->. apply Hno, elem_of_objs.
    exists j. split; [lia|done].
  - apply length_updZ.
  - intros c Hc. apply cpu_ok_other; try done; congruence.
  - intros m Hm Hmo. rewrite node_upd by lia.
    enough (node_ok (<[b := (0, 0)]> (links w)) (<[b := SlabGhost (objs k b) [] PHeld]> G) m
              (nthZ node_zero (nodes w) m)) as H.
    { case_decide; [subst m|done]. exact H. }
    revert Hmo. apply node_ok_other; try done; [congruence|]. intros b' Hne _.
    by rewrite node_at_insert, decide_False.
  - by left.
Qed.

Lemma free_slab_inv w G b s :
  inv (Some b) w G -> G !! b = Some s ->
  inv None (free_slab k b w) (delete b G) /\ cpus (free_slab k b w) = cpus w /\
  words (free_slab k b w) = words w /\ live_objects (free_slab k b w) = live_objects w.
Proof.
  intros Hi Hb. destruct (inv_slab _ _ _ _ _ _ _ Hi Hb) as [Hs Hok].
  assert (Hp : sp s = PHeld) by (by apply (ai_held _ _ _ _ _ _ _ _ _ Hi b s Hb)).
  assert (Hb0 : b <> 0) by (by apply (slab_at_pos k), Hok).
  assert (Hn : 0 <= node_index (node_id (hdr w b)) < Z.of_nat (length (nodes w))).
  { rewrite (ai_nnodes _ _ _ _ _ _ _ _ _ Hi). apply node_index_range, Hok. }
  assert (Hpl : forall b', pl (delete b G) b' = if decide (b' = b) then None else pl G b').
  { intros b'. unfold pl. case_decide; [subst; by rewrite lookup_delete_eq|].
    by rewrite lookup_delete_ne by done. }
  pose proof (pl_Some _ _ _ Hb) as Hpb. rewrite Hp in Hpb.
  split_and!; try done. unfold SlubInv.inv. simpl. destruct Hi as [H1 H2 H3 H4 H5 H6]. split.
  - intros b'. destruct (decide (b = b')) as [<-|Hne].
    + rewrite !lookup_delete_eq. constructor.
    + rewrite !lookup_delete_ne by done. apply H1.
  - intros c Hc. specialize (H2 c Hc). pose proof (co_active _ _ _ _ H2) as Hact.
    revert H2. apply cpu_ok_frame; try (intros b'; rewrite ?Hpl; case_decide; naive_solver).
    + intros b' Hb'. rewrite lookup_delete_ne; [done|]. congruence.
    + left. rewrite lookup_delete_ne; [done|]. intros ->. specialize (Hact (c_slab (cpu w c))).
      unfold cpu in *. rewrite Hpb in Hact. naive_solver.
  - intros n Hr. rewrite node_upd by (unfold MAX_NUMA_NODES in *; lia).
    specialize (H3 n Hr).
    apply (node_ok_frame _ _ (links w) (delete b G)) in H3;
      [case_decide; [subst n; exact H3|exact H3]| |done].
    intros b'. rewrite Hpl. case_decide; naive_solver.
  - done.
  - by rewrite length_updZ.
  - intros b' t Ht. apply lookup_delete_Some in Ht as [Hne Ht]. rewrite (H6 b' t Ht).
    split; [congruence|done].
Qed.

(** Releasing a slab leaves the node lists alone. *)
Lemma free_slab_node b w n :
  0 <= node_index (node_id (hdr w b)) < Z.of_nat (length (nodes w)) -> 0 <= n ->
  nr_partial (node (free_slab k b w) n) = nr_partial (node w n) /\
  min_partial (node (free_slab k b w) n) = min_partial (node w n) /\
  partial (node (free_slab k b w) n) = partial (node w n).
Proof.
  intros Hi Hn. unfold node. simpl. rewrite node_upd by done. case_decide; [subst n|]; done.
Qed.
End ops.
