(* ===== verification/SlubSpec.v ===== *)
(** * The slab allocator: allocation, freeing and shrinking are correct *)

From S2P Require Import Prelude Errors Numa Dlist Slub SlubInv SlubOps.

Section spec.
  Context (k : kmem_cache) (topo : numa) (max_cpus : Z) (Hk : cache_ok k).
  Abbreviation slab_ok := (slab_ok k max_cpus).
  Abbreviation inv := (inv k max_cpus).

(** Nothing but the internal arrangement changed. *)
Record same_live (w : world) (G : gmap Z slab_ghost) (w' : world) (G' : gmap Z slab_ghost)
    : Prop := {
  sl_live : forall o, live k G' o <-> live k G o;
  sl_count : live_objects w' = live_objects w;
  sl_dom : forall b, G !! b = None -> G' !! b = None
}.

(** Object [o] was free and is now handed out. *)
Record taken (o : Z) (w : world) (G : gmap Z slab_ghost) (w' : world) (G' : gmap Z slab_ghost)
    : Prop := {
  tk_nonnull : o <> 0;
  tk_free : ~ live k G o;
  tk_live : forall x, live k G' x <-> live k G x \/ x = o;
  tk_count : live_objects w' = live_objects w + 1
}.

(** An attempt to allocate on CPU [c]: an object, or nothing and no active
    slab. *)
Definition attempt (c : Z) (w : world) (G : gmap Z slab_ghost) (r : option (Z * world)) : Prop :=
  exists o w' G', r = Some (o, w') /\ inv None w' G' /\
    ((o = 0 /\ c_slab (cpu w' c) = 0 /\ same_live w G w' G') \/ taken o w G w' G').

Lemma same_live_refl w G : same_live w G w G.
Proof. done. Qed.

Lemma same_live_trans w G w1 G1 w2 G2 :
  same_live w G w1 G1 -> same_live w1 G1 w2 G2 -> same_live w G w2 G2.
Proof.
  intros [H1 H2 H3] [H4 H5 H6]. split; [intros o; by rewrite H4|congruence|auto].
Qed.

Lemma taken_mono o w G w1 G1 w' G' :
  (forall x, live k G1 x <-> live k G x) -> live_objects w1 = live_objects w ->
  taken o w1 G1 w' G' -> taken o w G w' G'.
Proof.
  intros H1 H2 [T1 T2 T3 T4]. split; [done| | |lia].
  - by rewrite <- H1.
  - intros x. by rewrite T3, H1.
Qed.

Lemma attempt_mono c w G w1 G1 r :
  same_live w G w1 G1 -> attempt c w1 G1 r -> attempt c w G r.
Proof.
  intros Hs (o & w' & G' & Hr & Hi & Ho). exists o, w', G'. split_and!; [done..|].
  destruct Ho as [(-> & Hc & Hl) | Ht].
  - left. split_and!; [done..|]. by eapply same_live_trans.
  - right. destruct Hs. by eapply taken_mono.
Qed.

(** Moving a slab without touching its free objects. *)
Lemma same_live_move w G b s s' w' :
  G !! b = Some s -> (forall o, o ∈ sf s' ++ cf s' <-> o ∈ sf s ++ cf s) ->
  live_objects w' = live_objects w -> same_live w G w' (<[b := s']> G).
Proof.
  intros Hb He Hl. split; [by eapply live_ext|done|].
  intros b' Hb'. rewrite lookup_insert_ne; congruence.
Qed.

(** Taking the head of an active slab's free list. *)
Lemma pop_active_taken w G b s c :
  inv None w G -> G !! b = Some s -> sp s = PActive c -> cf s <> [] ->
  c_freelist (cpu w c) <> 0 /\
  exists o w' G', pop_active k c b w = (o, w') /\ inv None w' G' /\
    taken o w G (add_live 1 w') G'.
Proof.
  intros Hi Hb Hp Hne. destruct (cf s) as [|o l] eqn:Hcf; [done|].
  destruct (inv_slab _ _ _ _ _ _ _ Hi Hb) as [_ Hok].
  destruct (inv_active k max_cpus _ _ _ _ _ _ Hi Hb Hp) as (_ & _ & _ & Ef). rewrite Hcf in Ef.
  assert (Ho : o ∈ objs k b)
    by (apply (so_sub _ _ _ _ _ _ Hok); rewrite Hcf; set_solver).
  pose proof (obj_pos k Hk b o (so_addr _ _ _ _ _ _ Hok) Ho) as Ho0.
  split; [by rewrite Ef|].
  destruct (pop_active_inv k max_cpus Hk w G b s c o l Hi Hb Hp Hcf) as (w1 & E & Hi1 & Hl).
  eexists o, w1, _. split_and!; [exact E|exact Hi1|].
  pose proof (so_nodup _ _ _ _ _ _ Hok) as Hnd. rewrite Hcf in Hnd.
  split; [done| | |simpl; lia].
  - intros (b' & t & Ht & Ho' & H1 & H2).
    destruct (inv_slab _ _ _ _ _ _ _ Hi Ht) as [_ Hok'].
    assert (b' = b) as ->.
    { rewrite <- (slab_of_obj k Hk b' o), <- (slab_of_obj k Hk b o); try done;
        [apply Hok|apply Hok']. }
    assert (t = s) as -> by congruence. rewrite Hcf in H2. set_solver.
  - intros x. split.
    + intros (b' & t & Ht & Hx & H1 & H2). destruct (decide (x = o)) as [->|]; [by right|]. left.
      apply lookup_insert_Some in Ht as [[<- <-] | [Hne' Ht]].
      * exists b, s. split_and!; try done. rewrite Hcf. simpl in H2. set_solver.
      * by exists b', t.
    + intros [(b' & t & Ht & Hx & H1 & H2) | ->].
      * destruct (decide (b = b')) as [<-|Hne'].
        -- exists b. eexists. rewrite lookup_insert_eq. split; [done|]. simpl.
           assert (t = s) as -> by congruence. rewrite Hcf in H2. set_solver.
        -- exists b', t. rewrite lookup_insert_ne by done. done.
      * exists b. eexists. rewrite lookup_insert_eq. split; [done|]. simpl. split; [done|].
        apply list.NoDup_app in Hnd as (_ & Hd & Hnd). apply list.NoDup_cons in Hnd as [Hol _].
        split; [|done]. intros Hin. apply (Hd o Hin). left.
Qed.

Lemma pop_slow_attempt w G b s c :
  inv None w G -> G !! b = Some s -> sp s = PActive c -> cf s <> [] ->
  c_freelist (cpu w c) <> 0 /\
  exists o w' G', pop_slow k c b w = (o, w') /\ inv None w' G' /\ taken o w G w' G'.
Proof.
  intros Hi Hb Hp Hne.
  destruct (pop_active_taken w G b s c Hi Hb Hp Hne) as (Hf & o & w' & G' & E & Hi' & Ht).
  split; [done|]. unfold pop_slow. rewrite E. eexists o, _, G'. split_and!; [done|exact Hi'|].
  by destruct Ht.
Qed.

Lemma inv_count_fast held w G c a f :
  inv held w G -> 0 <= c < max_cpus -> inv held (upd_cpu c (count_fast a f) w) G.
Proof.
  intros Hi Hc. assert (Hlen : 0 <= c < Z.of_nat (length (cpus w)))
    by (rewrite (ai_ncpus _ _ _ _ _ _ _ _ _ Hi); done).
  destruct Hi as [H1 H2 H3 H4 H5 H6]. split; simpl; try done.
  - intros d Hd. rewrite cpu_upd by lia. case_decide; [subst d|by apply H2].
    destruct (H2 c Hc). by split.
  - by rewrite length_updZ.
Qed.

(** Activating a slab with free objects and taking one. *)
Lemma activate_pop w G b s c :
  inv (Some b) w G -> G !! b = Some s -> sf s <> [] -> cf s = [] ->
  0 <= c < max_cpus -> c_slab (cpu w c) = 0 ->
  exists o w' G',
    (w ← activate_slab c b w;
     if negb (c_freelist (cpu w c) =? 0) then Some (pop_slow k c b w) else Some (0, w))
    = Some (o, w') /\ inv None w' G' /\ taken o w G w' G'.
Proof.
  intros Hi Hb Hsf Hcf Hc Hz.
  destruct (activate_inv k max_cpus Hk w G b s c Hi Hb Hc Hz)
    as (w1 & -> & Hi1 & _ & _ & _ & Hl). cbn [mbind option_bind].
  destruct (pop_slow_attempt w1 _ b (SlabGhost [] (sf s) (PActive c)) c Hi1
              ltac:(apply lookup_insert_eq) ltac:(done) Hsf)
    as (Hf & o & w2 & G2 & E & Hi2 & Ht).
  destruct (Z.eqb_spec (c_freelist (cpu w1 c)) 0) as [|_]; [done|]. cbn [negb].
  exists o, w2, G2. rewrite E. split_and!; [done..|]. revert Ht. apply taken_mono; [|done].
  apply (live_ext k G b s); [done|]. intros x. simpl. by rewrite Hcf, app_nil_r.
Qed.

(** No object, and nothing changed. *)
Lemma attempt_none w G c :
  inv None w G -> c_slab (cpu w c) = 0 -> attempt c w G (Some (0, w)).
Proof. intros Hi Hz. exists 0, w, G. split_and!; [done..|]. left. by split_and!. Qed.

Lemma take_cpu_partial_attempt w G c :
  inv None w G -> 0 <= c < max_cpus -> c_slab (cpu w c) = 0 ->
  attempt c w G (take_cpu_partial k c w).
Proof.
  intros Hi Hc Hz. unfold take_cpu_partial.
  destruct (Z.eqb_spec (c_partial (cpu w c)) 0) as [E|E]; [by apply attempt_none|].
  set (v := u32 _). set (b := c_partial (cpu w c)).
  destruct (cpu_pop_inv k max_cpus Hk w G c b v Hi Hc eq_refl E) as (s & Hb & Hsf & Hcf & Hi1).
  destruct (activate_pop _ _ b (at_place PHeld s) c Hi1) as (o & w2 & G2 & E2 & Hi2 & Ht);
    try done.
  - apply lookup_insert_eq.
  - unfold cpu. simpl. rewrite nthZ_updZ_eq; [exact Hz|].
    rewrite (ai_ncpus _ _ _ _ _ _ _ _ _ Hi). done.
  - exists o, w2, G2. split_and!; [exact E2|done|]. right. revert Ht. apply taken_mono; [|done].
    by apply (live_ext k G b s).
Qed.

(** A new slab always yields an object. *)
Lemma take_new_taken w G c ph nid :
  inv None w G -> 0 <= c < max_cpus -> c_slab (cpu w c) = 0 -> frame_fresh k w (Some (ph, nid)) ->
  exists o w' G', take_new k c (Some (ph, nid)) w = Some (o, w') /\ inv None w' G' /\
    taken o w G w' G'.
Proof.
  intros Hi Hc Hz Hf. unfold take_new.
  destruct (alloc_new_slab_inv k max_cpus Hk w G ph nid Hi Hf) as (w1 & -> & Hi1 & Hn & Ec & El).
  set (b := ph + KERNEL_VIRTUAL_OFFSET) in *.
  assert (Hok : slab_at k b) by apply Hf.
  destruct (Z.eqb_spec b 0) as [E|_]; [by destruct (slab_at_pos k Hk b)|].
  destruct (activate_pop _ _ b (SlabGhost (objs k b) [] PHeld) c Hi1)
    as (o & w2 & G2 & E2 & Hi2 & Ht); try done.
  - apply lookup_insert_eq.
  - simpl. intros E. pose proof (length_objs k Hk b) as Hl. rewrite E in Hl. simpl in Hl.
    pose proof (ck_count k Hk). lia.
  - unfold cpu in *. by rewrite Ec.
  - exists o, w2, G2. split_and!; [exact E2|done|]. revert Ht. apply taken_mono; [|done].
    intros x. split.
    + intros (b' & t & Ht & Ho & H1 & H2). apply lookup_insert_Some in Ht as [[<- <-] | [Hne Ht]].
      * done.
      * by exists b', t.
    + intros (b' & t & Ht & Ho). exists b', t. rewrite lookup_insert_ne by congruence. done.
Qed.

Lemma take_new_attempt w G c result :
  inv None w G -> 0 <= c < max_cpus -> c_slab (cpu w c) = 0 -> frame_fresh k w result ->
  attempt c w G (take_new k c result w).
Proof.
  intros Hi Hc Hz Hf. destruct result as [[ph nid]|]; [|by apply attempt_none].
  destruct (take_new_taken w G c ph nid Hi Hc Hz Hf) as (o & w' & G' & E & Hi' & Ht).
  exists o, w', G'. auto.
Qed.

(** The head of a node's list is a slab of that node with free objects. *)
Lemma node_head w G n b :
  inv None w G -> 0 <= n < MAX_NUMA_NODES -> b = partial (node w n) -> b <> 0 ->
  exists s, G !! b = Some s /\ sp s = PNode n /\ sf s <> [] /\ cf s = [] /\
    0 < nr_partial (node w n).
Proof.
  intros Hi Hn Eb Hb0. destruct (inv_node _ _ _ _ _ _ Hi Hn) as (l & [Hh Hl] & _ & Hnr & Hm).
  destruct l as [|b' l]; [simpl in Hh; congruence|]. simpl in Hh, Hnr.
  assert (b' = b) as -> by congruence.
  destruct (pl_inv G b (PNode n)) as (s & Hb & Hp); [apply Hm; left|].
  destruct (inv_slab _ _ _ _ _ _ _ Hi Hb) as [_ Hok].
  pose proof (so_place _ _ _ _ _ _ Hok) as Hpl. rewrite Hp in Hpl.
  exists s. destruct Hpl as (_ & ? & ?). split_and!; try done. lia.
Qed.

(** The loop that moves slabs to the CPU's list leaves its active slab alone. *)
Lemma bulk_inv n c fuel : forall bo w G,
  inv None w G -> 0 <= n < MAX_NUMA_NODES -> 0 <= c < max_cpus ->
  nr_partial (node w n) < Z.of_nat fuel ->
  exists w' G', bulk k n c bo fuel w = Some w' /\ inv None w' G' /\ same_live w G w' G' /\
    forall b s, G !! b = Some s -> sp s = PActive c -> G' !! b = Some s.
Proof.
  induction fuel as [|fuel IH]; intros bo w G Hi Hn Hc Hf.
  { destruct (inv_node _ _ _ _ _ _ Hi Hn) as (l & _ & _ & Hnr & _). lia. }
  simpl. destruct (Z.eqb_spec (partial (node w n)) 0) as [E|E]; [by exists w, G|]. simpl.
  destruct (bo <? cpu_partial k); [|by exists w, G]. simpl.
  destruct (node_head w G n _ Hi Hn eq_refl E) as (s & Hb & Hp & Hsf & Hcf & Hpos).
  set (b := partial (node w n)) in *.
  destruct (node_remove_inv k max_cpus Hk w G b s n Hi Hb Hp)
    as (w1 & -> & Hi1 & Ec & Ew & El & Eh & Enr & _ & _).
  cbn [mbind option_bind]. rewrite !cpu_upd_hdr. set (fo := u32 (objects _ - _)).
  set (v := u32 (partial_count _ + fo)).
  pose proof (cpu_push_inv k max_cpus Hk w1 _ c b (at_place PHeld s) v Hi1 Hc
                ltac:(apply lookup_insert_eq) Hsf) as Hi2.
  rewrite insert_insert_eq in Hi2. set (w2 := upd_cpu c _ _) in *.
  destruct (IH (u32 (bo + fo)) w2 _ Hi2 Hn Hc) as (w3 & G3 & E3 & Hi3 & Hs3 & Hk3).
  { change (node w2 n) with (node w1 n). lia. }
  exists w3, G3. split_and!; [exact E3|done| |].
  - eapply same_live_trans; [|exact Hs3]. by apply (same_live_move _ _ b s).
  - intros b' t Ht Hpt. apply Hk3; [|done]. rewrite lookup_insert_ne; [done|]. congruence.
Qed.

Lemma take_node_attempt w G n c :
  inv None w G -> 0 <= n < MAX_NUMA_NODES -> 0 <= c < max_cpus -> c_slab (cpu w c) = 0 ->
  attempt c w G (take_node k n c w).
Proof.
  intros Hi Hn Hc Hz. unfold take_node.
  destruct (Z.eqb_spec (partial (node w n)) 0) as [E|E].
  { by apply attempt_none. }
  destruct (node_head w G n _ Hi Hn eq_refl E) as (s & Hb & Hp & Hsf & Hcf & _).
  set (b := partial (node w n)) in *.
  destruct (node_remove_inv k max_cpus Hk w G b s n Hi Hb Hp)
    as (w1 & -> & Hi1 & Ec & _ & El & _). cbn [mbind option_bind].
  assert (Hz1 : c_slab (cpu w1 c) = 0) by (unfold cpu in *; by rewrite Ec).
  destruct (activate_inv k max_cpus Hk w1 _ b (at_place PHeld s) c Hi1
              ltac:(apply lookup_insert_eq) Hc Hz1) as (w2 & -> & Hi2 & _ & _ & En & El2).
  cbn [mbind option_bind]. rewrite insert_insert_eq in Hi2.
  destruct (inv_node _ _ _ _ _ _ Hi2 Hn) as (l & _ & _ & Hnr & _).
  destruct (bulk_inv n c (S (Z.to_nat (nr_partial (node w2 n)))) 0 w2 _ Hi2 Hn Hc ltac:(lia))
    as (w3 & G3 & -> & Hi3 & Hs3 & Hk3). cbn [mbind option_bind].
  destruct (pop_slow_attempt w3 G3 b (SlabGhost [] (sf s) (PActive c)) c Hi3)
    as (Hf & o & w4 & G4 & E4 & Hi4 & Ht); [|done|done|].
  { apply Hk3; [apply lookup_insert_eq|done]. }
  destruct (Z.eqb_spec (c_freelist (cpu w3 c)) 0) as [|_]; [done|]. cbn [negb]. rewrite E4.
  apply (attempt_mono c w G w3 G3); [|exists o, w4, G4; auto].
  eapply same_live_trans; [|exact Hs3].
  apply (same_live_move _ _ b s); [done| |congruence].
  intros x. simpl. by rewrite Hcf, app_nil_r.
Qed.

Lemma next_node_nonneg local inspected : 0 <= next_node topo local inspected.
Proof.
  unfold next_node. generalize (Z.to_nat MAX_NUMA_NODES). intros m.
  assert (H : forall cand best, 0 <= cand -> 0 <= best.1 ->
    0 <= (nearest topo local inspected cand best m).1).
  { induction m as [|m IH]; intros cand best H1 H2; simpl; [done|]. apply IH; [lia|].
    destruct (Z.testbit inspected cand); [done|]. by destruct (_ <? _). }
  apply H; simpl; unfold NUMA_NODE_ANY; lia.
Qed.

(** The search over the nodes ends. *)
Lemma scan_nodes_attempt local c passes : forall inspected w G,
  inv None w G -> 0 <= c < max_cpus -> c_slab (cpu w c) = 0 ->
  attempt c w G (scan_nodes k topo local inspected c passes w).
Proof.
  induction passes as [|passes IH]; intros inspected w G Hi Hc Hz; cbn [scan_nodes];
    [by apply attempt_none|].
  destruct (Z.eqb_spec (next_node topo local inspected) NUMA_NODE_ANY) as [|_];
    [by apply attempt_none|].
  pose proof (next_node_nonneg local inspected) as Hn.
  pose proof (node_index_range _ Hn) as Hr.
  destruct (take_node_attempt w G _ c Hi Hr Hc Hz) as (o & w1 & G1 & -> & Hi1 & Ho).
  destruct Ho as [(-> & Hz1 & Hs) | Ht].
  - eapply attempt_mono; [exact Hs|]. by apply IH.
  - destruct (Z.eqb_spec o 0) as [->|_]; [by destruct (tk_nonnull _ _ _ _ _ Ht)|].
    exists o, w1, G1. auto.
Qed.

Lemma frame_fresh_same w G w' G' result :
  inv None w G -> inv None w' G' -> same_live w G w' G' ->
  frame_fresh k w result -> frame_fresh k w' result.
Proof.
  intros Hi Hi' Hs. destruct result as [[ph nid]|]; simpl; [|done].
  intros (Ha & Hf & Hn). split_and!; [done| |done].
  apply (inv_fresh _ _ _ _ _ _ Hi'), (sl_dom _ _ _ _ Hs), (inv_fresh _ _ _ _ _ _ Hi), Hf.
Qed.

Lemma refill_attempt w G c result :
  inv None w G -> 0 <= c < max_cpus -> c_slab (cpu w c) = 0 -> frame_fresh k w result ->
  attempt c w G (refill k topo max_cpus c result w).
Proof.
  intros Hi Hc Hz Hf. unfold refill.
  destruct (take_cpu_partial_attempt w G c Hi Hc Hz) as (o & w1 & G1 & -> & Hi1 & Ho).
  cbn [mbind option_bind]. destruct Ho as [(-> & Hz1 & Hs1) | Ht]; cycle 1.
  { destruct (Z.eqb_spec o 0) as [->|_]; [by destruct (tk_nonnull _ _ _ _ _ Ht)|].
    exists o, w1, G1. auto. }
  change (negb (0 =? 0)) with false. cbv iota. apply (attempt_mono c w G w1 G1 _ Hs1).
  destruct (scan_nodes_attempt (local_node_of topo max_cpus c) c (Z.to_nat MAX_NUMA_NODES) 0
              w1 G1 Hi1 Hc Hz1) as (o & w2 & G2 & -> & Hi2 & Ho).
  cbn [mbind option_bind]. destruct Ho as [(-> & Hz2 & Hs2) | Ht]; cycle 1.
  { destruct (Z.eqb_spec o 0) as [->|_]; [by destruct (tk_nonnull _ _ _ _ _ Ht)|].
    exists o, w2, G2. auto. }
  change (negb (0 =? 0)) with false. cbv iota. apply (attempt_mono c w1 G1 w2 G2 _ Hs2).
  apply take_new_attempt; try done. apply (frame_fresh_same w1 G1 w2 G2); try done.
  by apply (frame_fresh_same w G w1 G1).
Qed.

(** A CPU with a free list has an active slab to take from. *)
Lemma active_taken w G c :
  inv None w G -> 0 <= c < max_cpus -> c_freelist (cpu w c) <> 0 ->
  exists o w' G', pop_active k c (c_slab (cpu w c)) w = (o, w') /\ inv None w' G' /\
    taken o w G (add_live 1 w') G'.
Proof.
  intros Hi Hc E. pose proof (inv_cpu _ _ _ _ _ _ Hi Hc) as Hco.
  pose proof (co_free _ _ _ _ Hco) as Hfl.
  destruct (G !! c_slab (cpu w c)) as [s|] eqn:Hb; [|done]. simpl in Hfl.
  assert (Hp : sp s = PActive c).
  { pose proof (proj2 (co_active _ _ _ _ Hco (c_slab (cpu w c)))) as H. unfold pl in H.
    rewrite Hb in H. destruct (inv_slab _ _ _ _ _ _ _ Hi Hb) as [_ Hok].
    assert (c_slab (cpu w c) <> 0) by (by apply (slab_at_pos k), Hok). naive_solver. }
  destruct (pop_active_taken w G _ s c Hi Hb Hp) as (_ & H); [|done].
  intros E'. by rewrite E' in Hfl.
Qed.

Lemma kmem_alloc_attempt w G c result :
  inv None w G -> 0 <= c < max_cpus -> frame_fresh k w result ->
  attempt c w G (kmem_alloc k topo max_cpus c result w).
Proof.
  intros Hi Hc Hf. unfold kmem_alloc.
  destruct (Z.eqb_spec (c_freelist (cpu w c)) 0) as [E|E]; simpl negb; cbv iota.
  - unfold alloc_slow.
    destruct (deactivate_inv k max_cpus Hk w G c Hi Hc) as (w1 & G1 & -> & Hi1 & Hz & Hl & Hlv & Hd).
    cbn [mbind option_bind].
    assert (Hs : same_live w G w1 G1) by done.
    apply (attempt_mono c w G w1 G1 _ Hs). apply refill_attempt; try done.
    by apply (frame_fresh_same w G w1 G1).
  - destruct (active_taken w G c Hi Hc E) as (o & w1 & G1 & -> & Hi1 & Ht).
    eexists o, _, G1. split_and!; [reflexivity| |right; by destruct Ht].
    exact (inv_count_fast None w1 G1 c 1 0 Hi1 Hc).
Qed.

(** ** Freeing *)

(** Object [o] was handed out and is free again. *)
Record given_back (o : Z) (w : world) (G : gmap Z slab_ghost) (w' : world)
    (G' : gmap Z slab_ghost) : Prop := {
  gb_live : forall x, live k G' x <-> live k G x /\ x <> o;
  gb_count : live_objects w' = live_objects w - 1
}.

Lemma live_slab w G o :
  inv None w G -> live k G o ->
  exists s, G !! slab_of k o = Some s /\ o ∈ objs k (slab_of k o) /\ o ∉ sf s ++ cf s.
Proof.
  intros Hi (b & s & Hb & Ho & H1 & H2). destruct (inv_slab _ _ _ _ _ _ _ Hi Hb) as [_ Hok].
  rewrite (slab_of_obj k Hk b o (so_addr _ _ _ _ _ _ Hok) Ho).
  exists s. split_and!; [done..|]. set_solver.
Qed.

Lemma live_push w G b s s' o :
  inv None w G -> G !! b = Some s -> o ∈ objs k b ->
  (forall x, x ∈ sf s' ++ cf s' <-> x = o \/ x ∈ sf s ++ cf s) ->
  forall x, live k (<[b := s']> G) x <-> live k G x /\ x <> o.
Proof.
  intros Hi Hb Ho He x. specialize (He x). rewrite !elem_of_app in He. split.
  - intros (b' & t & Ht & Hx & H1 & H2).
    apply lookup_insert_Some in Ht as [[<- <-] | [Hne Ht]].
    + split; [exists b, s; split_and!; naive_solver|naive_solver].
    + split; [by exists b', t|]. intros ->.
      destruct (inv_slab _ _ _ _ _ _ _ Hi Ht) as [_ Hok'].
      destruct (inv_slab _ _ _ _ _ _ _ Hi Hb) as [_ Hok].
      eapply (objs_other k Hk b b'); [apply Hok|apply Hok'|done|exact Ho|exact Hx].
  - intros [(b' & t & Ht & Hx & H1 & H2) Hne]. destruct (decide (b = b')) as [<-|Hne'].
    + exists b, s'. rewrite lookup_insert_eq. assert (t = s) as -> by congruence.
      split_and!; naive_solver.
    + exists b', t. rewrite lookup_insert_ne by done. done.
Qed.

(** A slab none of whose objects is in use has them all on free lists. *)
Lemma empty_slab_free W b h s x :
  slab_ok W b h s -> inuse h = 0 -> x ∈ objs k b -> x ∈ sf s ++ cf s.
Proof.
  intros Hok Hz Hx. pose proof (so_inuse _ _ _ _ _ _ Hok) as Hin.
  destruct (decide (x ∈ sf s ++ cf s)) as [|Hn]; [done|].
  pose proof (slab_live_inuse k max_cpus Hk _ _ _ _ _ Hok Hx Hn). lia.
Qed.

(** The store of [free_slow]: [o] goes on the slab's own free list. *)
Lemma slow_push_inv w G b s o p :
  inv None w G -> G !! b = Some s -> o ∈ objs k b -> o ∉ sf s ++ cf s ->
  p = (if decide (sp s = PFull) then PHeld else sp s) ->
  inv (if decide (p = PHeld) then Some b else None)
    (upd_hdr b (set_inuse (u32 (inuse (hdr w b) - 1)))
      (upd_hdr b (set_freelist o) (set_fp k o (freelist (hdr w b)) w)))
    (<[b := SlabGhost (o :: sf s) (cf s) p]> G).
Proof.
  intros Hi Hb Ho Hn ->. destruct (inv_slab _ _ _ _ _ _ _ Hi Hb) as [Hs Hok].
  pose proof (slab_counts k max_cpus Hk _ _ _ _ Hok) as [Hu Hmax].
  pose proof (slab_live_inuse k max_cpus Hk _ _ _ _ _ Hok Ho Hn) as H1.
  pose proof (obj_pos k Hk b o (so_addr _ _ _ _ _ _ Hok) Ho) as Ho0.
  assert (Hnh : sp s <> PHeld)
    by (intros E; by apply (ai_held _ _ _ _ _ _ _ _ _ Hi b s Hb) in E).
  unfold SlubInv.inv. simpl. autorewrite with slub. rewrite insert_insert_eq.
  rewrite (ck_fp k Hk), Z.add_0_r. eapply ainv_move; [exact Hk|exact Hi|..]; try done.
  - destruct Hok. split; simpl; try done.
    + rewrite u32_small by solve_u. rewrite length_app in *. simpl. lia.
    + by constructor.
    + intros x [-> | Hx]%elem_of_cons; auto.
    + apply (fchain_push k _ _ (sf s) o); [done|set_solver|done].
    + revert so_cf. apply fchain_ext. intros x Hx. rewrite lookup_insert_ne; [done|set_solver].
    + intros _. rewrite so_frozen by done. case_decide as E; [by rewrite E|done].
    + rewrite so_listed. case_decide as E; [by rewrite E|done].
    + case_decide as E; [rewrite E in so_place; by destruct so_place|].
      destruct (sp s); naive_solver.
  - intros x Hx. rewrite lookup_insert_ne; [done|]. congruence.
  - intros c Hc. case_decide as E.
    + apply cpu_ok_other; try done; try (rewrite (pl_Some _ _ _ Hb); congruence).
      by apply (slab_at_pos k), Hok.
    + by apply (cpu_ok_same _ _ _ _ b (hdr w b) _ s).
  - intros n Hr. case_decide as E.
    + apply node_ok_other; try done. rewrite (pl_Some _ _ _ Hb). congruence.
    + by apply (node_ok_same _ _ _ _ b s).
  - by left.
Qed.

Lemma empty_slab_unlive w G b s x :
  inv (Some b) w G -> G !! b = Some s -> inuse (hdr w b) = 0 ->
  live k (delete b G) x <-> live k G x.
Proof.
  intros Hi Hb Hz. destruct (inv_slab _ _ _ _ _ _ _ Hi Hb) as [_ Hok]. split.
  - intros (b' & t & Ht & Hx). apply lookup_delete_Some in Ht as [Hne Ht]. by exists b', t.
  - intros (b' & t & Ht & Hx & H1 & H2). exists b', t. rewrite lookup_delete_ne; [done|].
    intros <-. assert (t = s) as -> by congruence.
    pose proof (empty_slab_free _ _ _ _ _ Hok Hz Hx). set_solver.
Qed.

(** Unlinking an empty slab and releasing its frames. *)
Lemma discard_slab w G b s n :
  inv None w G -> G !! b = Some s -> sp s = PNode n -> inuse (hdr w b) = 0 ->
  exists w', node_remove_partial b w = Some w' /\ inv None (free_slab k b w') (delete b G) /\
    same_live w G (free_slab k b w') (delete b G) /\ hdr w' b = set_on_node false (hdr w b) /\
    nr_partial (node (free_slab k b w') n) = nr_partial (node w n) - 1 /\
    min_partial (node (free_slab k b w') n) = min_partial (node w n) /\
    (forall x, x <> b -> hdr (free_slab k b w') x = hdr w x) /\
    (forall pre post, dlist (links w) (partial (node w n)) (pre ++ b :: post) ->
       dlist (links (free_slab k b w')) (partial (node (free_slab k b w') n)) (pre ++ post)).
Proof.
  intros Hi Hb Hp Hz.
  destruct (node_remove_inv k max_cpus Hk w G b s n Hi Hb Hp)
    as (w1 & -> & Hi1 & Ec & Ew & El & Es & Enr & Emin & Hlist).
  assert (Eh : hdr w1 b = set_on_node false (hdr w b))
    by (unfold hdr at 1; by rewrite Es, lookup_insert_eq).
  destruct (free_slab_inv k max_cpus Hk w1 _ b (at_place PHeld s) Hi1) as (Hi2 & _ & _ & El2);
    [apply lookup_insert_eq|].
  destruct (free_slab_node k b w1 n) as (En1 & En2 & En3).
  { destruct (inv_slab _ _ _ _ _ _ _ Hi1 (lookup_insert_eq _ _ _)) as [_ Hok1].
    rewrite (ai_nnodes _ _ _ _ _ _ _ _ _ Hi1). apply node_index_range, Hok1. }
  { destruct (inv_slab _ _ _ _ _ _ _ Hi Hb) as [_ Hok].
    pose proof (so_place _ _ _ _ _ _ Hok) as Hpl. rewrite Hp in Hpl. destruct Hpl as [-> _].
    by apply node_index_range, Hok. }
  rewrite delete_insert_eq in Hi2. exists w1. rewrite En1, En2, En3. split_and!; try done.
  - split.
    + intros x. rewrite <- (live_ext k G b s (at_place PHeld s) Hb) by done.
      rewrite <- (empty_slab_unlive w1 _ b (at_place PHeld s) x Hi1) by
        (try apply lookup_insert_eq; by rewrite Eh). by rewrite delete_insert_eq.
    + congruence.
    + intros b' Hb'. rewrite lookup_delete_ne; congruence.
  - intros x Hx. unfold hdr. simpl. rewrite lookup_delete_ne, Es, lookup_insert_ne by done. done.
Qed.

Lemma free_slow_ok w G b s o :
  2 <= objects_per_slab k ->
  inv None w G -> G !! b = Some s -> o ∈ objs k b -> o ∉ sf s ++ cf s ->
  exists w' G', free_slow k b o w = Some w' /\ inv None w' G' /\ given_back o w G w' G'.
Proof.
  intros Hmulti Hi Hb Ho Hn. unfold free_slow. set (w0 := add_live _ _).
  assert (Hi0 : inv None w0 G) by exact Hi.
  assert (El0 : live_objects w0 = live_objects w - 1) by done.
  destruct (inv_slab _ _ _ _ _ _ _ Hi0 Hb) as [_ Hok]. clearbody w0.
  pose proof (slab_counts k max_cpus Hk _ _ _ _ Hok) as [Hu Hmax].
  pose proof (slab_live_inuse k max_cpus Hk _ _ _ _ _ Hok Ho Hn) as H1.
  pose proof (slow_push_inv w0 G b s o _ Hi0 Hb Ho Hn eq_refl) as Hi1.
  autorewrite with slub. simpl inuse.
  set (w1 := upd_hdr b (set_inuse _) _) in *. set (p := if decide (sp s = PFull) then _ else _) in *.
  assert (Hlv : forall x, live k (<[b := SlabGhost (o :: sf s) (cf s) p]> G) x <->
                          live k G x /\ x <> o).
  { apply (live_push w0 G b s); try done. intros x. simpl. by rewrite elem_of_cons. }
  assert (Hh : hdr w1 b = set_inuse (u32 (inuse (hdr w0 b) - 1)) (set_freelist o (hdr w0 b)))
    by (unfold w1; by autorewrite with slub).
  destruct (Z.eqb_spec (inuse (hdr w0 b)) 0) as [|_]; [lia|].
  change (node (set_fp k o (freelist (hdr w0 b)) w0)) with (node w0). simpl frozen.
  simpl on_node_partial.
  pose proof (so_listed _ _ _ _ _ _ Hok) as Hlist. rewrite Hlist.
  assert (Hnh : sp s <> PHeld)
    by (intros E; by apply (ai_held _ _ _ _ _ _ _ _ _ Hi0 b s Hb) in E).
  rewrite (so_frozen _ _ _ _ _ _ Hok Hnh).
  assert (Hdone : p <> PHeld -> exists w' G', Some w1 = Some w' /\ inv None w' G' /\
            given_back o w G w' G').
  { intros Hp. eexists w1, _. split_and!; [done| |by split]. by rewrite decide_False in Hi1. }
  pose proof (so_place _ _ _ _ _ _ Hok) as Hpl. subst p.
  destruct (sp s) as [d|d|n| |] eqn:Hp; try done; simpl; rewrite ?andb_false_r; simpl.
  - by apply Hdone.
  - by apply Hdone.
  - rewrite andb_true_r. destruct ((_ =? 0) && _) eqn:Hcond; [|by apply Hdone].
    apply andb_prop in Hcond as [Hz%Z.eqb_eq _]. rewrite decide_False in Hi1 by done.
    destruct (discard_slab w1 _ b (SlabGhost (o :: sf s) (cf s) (PNode n)) n Hi1)
      as (w2 & -> & Hi2 & Hs2 & _); [apply lookup_insert_eq|done| |].
    { rewrite Hh. simpl. rewrite Hz. done. }
    eexists _, _. split_and!; [reflexivity|exact Hi2|]. destruct Hs2 as [S1 S2 _].
    split; [intros x; by rewrite S1|]. rewrite S2. done.
  - destruct Hpl as [Hsf Hcf]. pose proof (so_inuse _ _ _ _ _ _ Hok) as Hin.
    rewrite Hsf, Hcf in Hin. simpl in Hin.
    destruct (Z.eqb_spec (inuse (hdr w0 b) - 1) 0) as [|_]; [lia|]. simpl.
    destruct (node_add_inv k max_cpus Hk w1 _ b (SlabGhost (o :: sf s) (cf s) PHeld) Hi1)
      as (w2 & -> & Hi2 & _ & _ & El2); [apply lookup_insert_eq|done| |].
    { rewrite Hh. simpl. by rewrite (so_frozen _ _ _ _ _ _ Hok), Hp by congruence. }
    eexists w2, _. split_and!; [done|exact Hi2|]. split; [|by rewrite El2].
    intros x. rewrite live_ext; [apply Hlv|apply lookup_insert_eq|done].
Qed.

Lemma kmem_free_ok w G c o :
  2 <= objects_per_slab k -> inv None w G -> 0 <= c < max_cpus -> live k G o ->
  exists w' G', kmem_free k c o w = Some w' /\ inv None w' G' /\ given_back o w G w' G'.
Proof.
  intros Hmulti Hi Hc Hl. destruct (live_slab w G o Hi Hl) as (s & Hb & Ho & Hn).
  destruct (inv_slab _ _ _ _ _ _ _ Hi Hb) as [_ Hok].
  pose proof (obj_pos k Hk _ o (so_addr _ _ _ _ _ _ Hok) Ho) as Ho0.
  unfold kmem_free. destruct (Z.eqb_spec o 0) as [|_]; [done|].
  destruct (Z.eqb_spec (slab_of k o) (c_slab (cpu w c))) as [E|E].
  - assert (Hp : sp s = PActive c).
    { pose proof (inv_cpu _ _ _ _ _ _ Hi Hc) as Hco.
      pose proof (proj2 (co_active _ _ _ _ Hco (slab_of k o))) as H.
      rewrite (pl_Some _ _ _ Hb) in H.
      assert (slab_of k o <> 0) by (by apply (slab_at_pos k), Hok). naive_solver. }
    destruct (push_active_inv k max_cpus Hk w G _ s c o Hi Hb Hp Ho Hn) as [H1 Hi1].
    autorewrite with slub. destruct (Z.eqb_spec (inuse (hdr w (slab_of k o))) 0) as [|_]; [lia|].
    set (w1 := upd_hdr _ _ _) in *.
    eexists _, _. split_and!; [reflexivity|exact (inv_count_fast None w1 _ c 0 1 Hi1 Hc)|].
    split; [|done]. apply (live_push w G _ s); try done. intros x. simpl. set_solver.
  - by apply (free_slow_ok w G _ s).
Qed.

(** ** Shrinking *)

Lemma shrink_list_ok n fuel : forall freed pre rest w G,
  inv None w G -> 0 <= n < MAX_NUMA_NODES ->
  dlist (links w) (partial (node w n)) (pre ++ rest) -> NoDup (pre ++ rest) ->
  (forall x, x ∈ pre ++ rest <-> pl G x = Some (PNode n)) ->
  (length rest < fuel)%nat ->
  (min_partial (node w n) < nr_partial (node w n) -> forall x, x ∈ pre -> inuse (hdr w x) <> 0) ->
  exists freed' w' G', shrink_list k n (hd 0 rest) freed fuel w = Some (freed', w') /\
    inv None w' G' /\ same_live w G w' G' /\
    (min_partial (node w' n) < nr_partial (node w' n) ->
     forall x, pl G' x = Some (PNode n) -> inuse (hdr w' x) <> 0).
Proof.
  induction fuel as [|fuel IH]; intros freed pre rest w G Hi Hn Hd Hnd Hm Hf Hpre; [lia|].
  destruct rest as [|b rest].
  { simpl. exists freed, w, G. split_and!; try done. intros Hlt x Hx. apply (Hpre Hlt).
    apply Hm in Hx. by rewrite app_nil_r in Hx. }
  cbn [shrink_list hd]. destruct (pl_inv G b (PNode n)) as (s & Hb & Hp); [apply Hm; set_solver|].
  destruct (inv_slab _ _ _ _ _ _ _ Hi Hb) as [_ Hok].
  destruct (Z.eqb_spec b 0) as [E|_]; [by destruct (slab_at_pos k Hk b); [apply Hok|]|].
  assert (Hnx : (node_at (links w) b).1 = hd 0 rest).
  { destruct (proj2 Hd (length pre) b) as [_ ->]; [by apply list_lookup_middle|]. cbn [fst].
    replace (S (length pre)) with (length pre + 1)%nat by lia. rewrite lookup_app_r by lia.
    replace (length pre + 1 - length pre)%nat with 1%nat by lia. by destruct rest. }
  rewrite Hnx. assert (Hsplit : pre ++ b :: rest = (pre ++ [b]) ++ rest) by (by rewrite <- app_assoc).
  destruct (Z.eqb_spec (inuse (hdr w b)) 0) as [Hz|Hz]; simpl andb; cycle 1.
  { apply (IH freed (pre ++ [b]) rest w G); rewrite <- ?Hsplit; try done; [simpl in Hf; lia|].
    intros Hlt x [Hx | ->%list_elem_of_singleton]%elem_of_app; [by apply Hpre|done]. }
  destruct (Z.ltb_spec (min_partial (node w n)) (nr_partial (node w n))) as [Hlt|Hge]; cycle 1.
  { apply (IH freed (pre ++ [b]) rest w G); rewrite <- ?Hsplit; try done; [simpl in Hf; lia|lia]. }
  destruct (discard_slab w G b s n Hi Hb Hp Hz)
    as (w1 & -> & Hi1 & Hs1 & _ & En & Emin & Eh & Hd1). cbn [mbind option_bind].
  rewrite <- Permutation_middle in Hnd. apply list.NoDup_cons in Hnd as [Hbn Hnd].
  destruct (IH (u32 (freed + 1)) pre rest (free_slab k b w1) (delete b G))
    as (f' & w2 & G2 & E2 & Hi2 & Hs2 & Hpost); try done; [by apply Hd1| |simpl in Hf; lia| |].
  - intros x. unfold pl. destruct (decide (x = b)) as [->|Hne].
    + rewrite lookup_delete_eq. split; [done|done].
    + rewrite lookup_delete_ne by done. fold (pl G x). rewrite <- Hm. set_solver.
  - intros _ x Hx. rewrite Eh by (intros ->; set_solver). by apply Hpre.
  - exists f', w2, G2. split_and!; try done. by eapply same_live_trans.
Qed.

Lemma shrink_node_ok n freed w G :
  inv None w G -> 0 <= n < MAX_NUMA_NODES ->
  exists freed' w' G',
    shrink_list k n (partial (node w n)) freed (S (Z.to_nat (nr_partial (node w n)))) w
      = Some (freed', w') /\
    inv None w' G' /\ same_live w G w' G'.
Proof.
  intros Hi Hn. destruct (inv_node _ _ _ _ _ _ Hi Hn) as (l & Hl & Hnd & Hnr & Hm).
  rewrite (proj1 Hl).
  destruct (shrink_list_ok n (S (Z.to_nat (nr_partial (node w n)))) freed [] l w G)
    as (f' & w' & G' & E & Hi' & Hs & _); simpl; try done; [lia|set_solver|].
  by exists f', w', G'.
Qed.

Lemma shrink_nodes_ok count : forall n freed w G,
  inv None w G -> 0 <= n -> n + Z.of_nat count <= MAX_NUMA_NODES ->
  exists freed' w' G', shrink_nodes k n freed count w = Some (freed', w') /\
    inv None w' G' /\ same_live w G w' G'.
Proof.
  induction count as [|count IH]; intros n freed w G Hi Hn Hc; cbn [shrink_nodes].
  { by exists freed, w, G. }
  destruct (shrink_node_ok n freed w G Hi ltac:(lia)) as (f1 & w1 & G1 & -> & Hi1 & Hs1).
  cbn [mbind option_bind].
  destruct (IH (n + 1) f1 w1 G1 Hi1 ltac:(lia) ltac:(lia)) as (f2 & w2 & G2 & E2 & Hi2 & Hs2).
  exists f2, w2, G2. split_and!; try done. by eapply same_live_trans.
Qed.

Lemma kmem_cache_shrink_ok w G :
  inv None w G -> exists freed w' G', kmem_cache_shrink k w = Some (freed, w') /\
    inv None w' G' /\ same_live w G w' G'.
Proof.
  intros Hi. unfold kmem_cache_shrink. destruct (negb _); [by exists 0, w, G|].
  apply (shrink_nodes_ok _ 0 0 w G Hi); vm_compute; done.
Qed.
End spec.
