(* ===== verification/SlubClient.v ===== *)
(** * The slab allocator and its clients

    Allocations run section by section ([alloc_section]) on several CPUs at
    once, interleaved with frees, shrinks and writes of the clients into
    their objects.  The transition system keeps, beside the world, the phase
    of each CPU's allocation and the set of objects the clients hold. *)

From S2P Require Import Prelude Errors Numa Dlist Slub SlubInv SlubOps SlubSpec.

(** ** Operations of one CPU leave the others alone *)

Section frame.
  Context (k : kmem_cache) (topo : numa) (max_cpus : Z).

Definition other_cpus (c : Z) (w w' : world) : Prop :=
  forall d, 0 <= d -> d <> c -> cpu w' d = cpu w d.

Lemma other_cpus_eq c w w' : cpus w' = cpus w -> other_cpus c w w'.
Proof. intros E d _ _. unfold cpu. by rewrite E. Qed.

Lemma other_cpus_upd c f w : 0 <= c -> other_cpus c w (upd_cpu c f w).
Proof. intros Hc d Hd Hne. unfold cpu. simpl. apply nthZ_updZ_ne; lia. Qed.

Lemma other_cpus_trans c w1 w2 w3 :
  other_cpus c w1 w2 -> other_cpus c w2 w3 -> other_cpus c w1 w3.
Proof. intros H1 H2 d Hd Hne. rewrite H2 by done. by apply H1. Qed.

Lemma node_remove_cpus b w w' : node_remove_partial b w = Some w' -> cpus w' = cpus w.
Proof.
  unfold node_remove_partial. destruct (_ || _); [done|].
  destruct (node_at _ _). by intros [= <-].
Qed.

Lemma node_add_cpus b w w' : node_add_partial b w = Some w' -> cpus w' = cpus w.
Proof. unfold node_add_partial. destruct (on_node_partial _); [done|]. by intros [= <-]. Qed.

Lemma activate_cpus c b w w' : 0 <= c -> activate_slab c b w = Some w' -> other_cpus c w w'.
Proof.
  intros Hc. unfold activate_slab. destruct (on_node_partial _); [done|]. intros [= <-].
  eapply other_cpus_trans; [|by apply other_cpus_eq].
  eapply other_cpus_trans; [|by apply other_cpus_upd]. by apply other_cpus_eq.
Qed.

Lemma deactivate_cpus c w w' :
  0 <= c -> deactivate_cpu_slab k c w = Some w' -> other_cpus c w w'.
Proof.
  intros Hc. unfold deactivate_cpu_slab. set (b := c_slab _). destruct (b =? 0); [by intros [= <-]|].
  intros (w1 & E1 & E2)%bind_Some.
  assert (H1 : cpus w1 = cpus w).
  { destruct (negb _); [|by injection E1 as <-]. apply bind_Some in E1 as (t & _ & E1).
    by injection E1 as <-. }
  assert (H2 : other_cpus c w (upd_cpu c (set_active 0 0) w1)).
  { eapply other_cpus_trans; [by apply other_cpus_eq, H1|by apply other_cpus_upd]. }
  eapply other_cpus_trans; [exact H2|]. apply other_cpus_eq.
  destruct (_ && _); [by apply node_add_cpus in E2|by injection E2 as <-].
Qed.

Lemma pop_slow_cpus c b w : 0 <= c -> other_cpus c w (pop_slow k c b w).2.
Proof.
  intros Hc. eapply other_cpus_trans; [|by apply other_cpus_eq]. by apply other_cpus_upd.
Qed.

Lemma pop_or_none_cpus c b w (o : Z) w' :
  0 <= c ->
  (if negb (c_freelist (cpu w c) =? 0) then Some (pop_slow k c b w) else Some (0, w))
    = Some (o, w') -> other_cpus c w w'.
Proof.
  intros Hc. pose proof (pop_slow_cpus c b w Hc) as H.
  destruct (negb _); [|by intros [= _ <-]]. destruct (pop_slow k c b w). by intros [= _ <-].
Qed.

Lemma take_cpu_partial_cpus c w o w' :
  0 <= c -> take_cpu_partial k c w = Some (o, w') -> other_cpus c w w'.
Proof.
  intros Hc. unfold take_cpu_partial. destruct (_ =? 0); [by intros [= _ <-]|].
  intros (w1 & E1 & E2)%bind_Some. apply pop_or_none_cpus in E2; [|done].
  apply activate_cpus in E1; [|done]. eapply other_cpus_trans; [|exact E2].
  eapply other_cpus_trans; [|exact E1]. by apply other_cpus_upd.
Qed.

Lemma bulk_cpus n c fuel : 0 <= c -> forall bo w w',
  bulk k n c bo fuel w = Some w' -> other_cpus c w w'.
Proof.
  intros Hc. induction fuel as [|fuel IH]; intros bo w w'; [done|]. simpl.
  destruct (_ && _); [|by intros [= <-]]. intros (w1 & E1 & E2)%bind_Some.
  apply IH in E2. eapply other_cpus_trans; [by apply other_cpus_eq, (node_remove_cpus _ _ _ E1)|].
  eapply other_cpus_trans; [|exact E2].
  eapply other_cpus_trans; [|by apply other_cpus_upd]. by apply other_cpus_eq.
Qed.

Lemma take_node_cpus n c w o w' :
  0 <= c -> take_node k n c w = Some (o, w') -> other_cpus c w w'.
Proof.
  intros Hc. unfold take_node. destruct (_ =? 0); [by intros [= _ <-]|].
  intros (w1 & E1 & (w2 & E2 & (w3 & E3 & E4)%bind_Some)%bind_Some)%bind_Some.
  eapply other_cpus_trans; [by apply other_cpus_eq, (node_remove_cpus _ _ _ E1)|].
  eapply other_cpus_trans; [by apply (activate_cpus _ _ _ _ Hc E2)|].
  eapply other_cpus_trans; [by apply (bulk_cpus _ _ _ Hc _ _ _ E3)|].
  apply (pop_or_none_cpus c (partial (node w n)) w3 o w' Hc). destruct (negb _); [done|done].
Qed.

Lemma take_new_cpus c result w o w' :
  0 <= c -> take_new k c result w = Some (o, w') -> other_cpus c w w'.
Proof.
  intros Hc. unfold take_new. destruct (alloc_new_slab k result w) as [b w1] eqn:E.
  assert (H1 : cpus w1 = cpus w).
  { unfold alloc_new_slab in E. destruct result as [[ph nid]|]; [|by injection E as _ <-].
    injection E as _ <-. simpl.
    assert (H : forall n obj w, cpus (init_objects k obj n w) = cpus w).
    { clear. induction n as [|n IH]; intros obj w; simpl; [done|]. by rewrite IH. }
    by rewrite H. }
  destruct (b =? 0); [intros [= _ <-]; by apply other_cpus_eq|].
  intros (w2 & E2 & E3)%bind_Some. apply pop_or_none_cpus in E3; [|done].
  apply activate_cpus in E2; [|done].
  eapply other_cpus_trans; [by apply other_cpus_eq, H1|]. by eapply other_cpus_trans.
Qed.

Lemma alloc_section_cpus c p result w r w' :
  0 <= c -> alloc_section k topo max_cpus c p result w = Some (r, w') -> other_cpus c w w'.
Proof.
  intros Hc. destruct p as [| | |ins [|passes]|]; cbn [alloc_section].
  - destruct (negb _); [|by intros [= _ <-]]. intros [= _ <-].
    eapply other_cpus_trans; [|by apply other_cpus_eq].
    eapply other_cpus_trans; [|by apply other_cpus_upd].
    eapply other_cpus_trans; [|by apply other_cpus_eq]. by apply other_cpus_upd.
  - intros (w1 & E & [= _ <-])%bind_Some. by apply deactivate_cpus.
  - intros ([o w1] & E & [= _ <-])%bind_Some. by apply take_cpu_partial_cpus in E.
  - by intros [= _ <-].
  - destruct (_ =? _); [by intros [= _ <-]|].
    intros ([o w1] & E & [= _ <-])%bind_Some. by apply take_node_cpus in E.
  - intros ([o w1] & E & [= _ <-])%bind_Some. by apply take_new_cpus in E.
Qed.

(** Freeing never changes which slab is active. *)
Lemma kmem_free_c_slab c o w w' d :
  0 <= c < Z.of_nat (length (cpus w)) -> 0 <= d ->
  kmem_free k c o w = Some w' -> c_slab (cpu w' d) = c_slab (cpu w d).
Proof.
  intros Hc Hd. unfold kmem_free. destruct (o =? 0); [by intros [= <-]|].
  destruct (_ =? _); intros E.
  - destruct (_ =? 0) in E; [done|]. injection E as <-. unfold cpu. simpl.
    rewrite cpu_upd by (rewrite ?length_updZ; lia). case_decide as Hd'; [subst d; simpl|].
    + unfold cpu. simpl. rewrite cpu_upd, decide_True by (done || lia). done.
    + rewrite cpu_upd, decide_False by (done || lia). done.
  - unfold free_slow in E. destruct (_ =? 0) in E; [done|].
    enough (cpus w' = cpus w) as E' by (unfold cpu; by rewrite E').
    destruct (_ && _) in E.
    + apply bind_Some in E as (w1 & E1 & E2). apply node_remove_cpus in E1.
      by injection E2 as <-.
    + destruct (_ && _) in E; [by apply node_add_cpus in E|by injection E as <-].
Qed.
End frame.

(** ** One section of an allocation *)

Definition in_flight (p : phase) : bool :=
  match p with Entry | Retire => false | _ => true end.

Section sections.
  Context (k : kmem_cache) (topo : numa) (max_cpus : Z) (Hk : cache_ok k).
  Abbreviation inv := (inv k max_cpus).

Lemma alloc_section_ok c p result w G :
  inv None w G -> 0 <= c < max_cpus ->
  (in_flight p = true -> c_slab (cpu w c) = 0) -> (p = Fresh -> frame_fresh k w result) ->
  exists r w' G', alloc_section k topo max_cpus c p result w = Some (r, w') /\ inv None w' G' /\
    match r with
    | Continue p' => same_live k w G w' G' /\ (in_flight p' = true -> c_slab (cpu w' c) = 0)
    | Return o => taken k o w G w' G' \/
                  (o = 0 /\ p = Fresh /\ result = None /\ same_live k w G w' G')
    end.
Proof.
  intros Hi Hc Hfl Hfr.
  assert (Hnz : forall o w' G', taken k o w G w' G' -> negb (o =? 0) = true).
  { intros o w' G' []. by apply negb_true_iff, Z.eqb_neq. }
  destruct p as [| | |ins [|passes]|]; cbn [alloc_section]; simpl in Hfl.
  - destruct (Z.eqb_spec (c_freelist (cpu w c)) 0) as [E|E]; cbn [negb].
    { exists (Continue Retire), w, G. by split_and!. }
    destruct (active_taken k max_cpus Hk w G c Hi Hc E) as (o & w1 & G1 & -> & Hi1 & Ht).
    eexists (Return o), _, G1. split_and!; [reflexivity| |left; by destruct Ht].
    exact (inv_count_fast k max_cpus None w1 G1 c 1 0 Hi1 Hc).
  - destruct (deactivate_inv k max_cpus Hk w G c Hi Hc) as (w1 & G1 & -> & Hi1 & Hz & Hl & Hlv & Hd).
    exists (Continue OwnPartial), w1, G1. by split_and!.
  - destruct (take_cpu_partial_attempt k max_cpus Hk w G c Hi Hc (Hfl eq_refl))
      as (o & w1 & G1 & -> & Hi1 & Ho). cbn [mbind option_bind].
    eexists _, w1, G1. split_and!; [reflexivity|done|].
    destruct Ho as [(-> & Hz & Hs) | Ht]; [done|]. rewrite (Hnz _ _ _ Ht). by left.
  - exists (Continue Fresh), w, G. by split_and!.
  - destruct (Z.eqb_spec (next_node topo (local_node_of topo max_cpus c) ins) NUMA_NODE_ANY) as [|_].
    { exists (Continue Fresh), w, G. by split_and!. }
    pose proof (node_index_range _ (next_node_nonneg topo (local_node_of topo max_cpus c) ins)) as Hr.
    destruct (take_node_attempt k max_cpus Hk w G _ c Hi Hr Hc (Hfl eq_refl))
      as (o & w1 & G1 & -> & Hi1 & Ho). cbn [mbind option_bind].
    eexists _, w1, G1. split_and!; [reflexivity|done|].
    destruct Ho as [(-> & Hz & Hs) | Ht]; [done|]. rewrite (Hnz _ _ _ Ht). by left.
  - destruct result as [[ph nid]|].
    + destruct (take_new_taken k max_cpus Hk w G c ph nid Hi Hc (Hfl eq_refl) (Hfr eq_refl))
        as (o & w1 & G1 & -> & Hi1 & Ht). exists (Return o), w1, G1. auto.
    + exists (Return 0), w, G. split_and!; try done. right. by split_and!.
Qed.

Lemma shrink_cpus w freed w' : kmem_cache_shrink k w = Some (freed, w') -> cpus w' = cpus w.
Proof.
  unfold kmem_cache_shrink. destruct (negb _); [by intros [= _ <-]|].
  assert (Hl : forall n fuel b f w f' w',
    shrink_list k n b f fuel w = Some (f', w') -> cpus w' = cpus w).
  { clear. intros n. induction fuel as [|fuel IH]; intros b f w f' w'; [done|].
    cbn [shrink_list]. destruct (b =? 0); [by intros [= _ <-]|]. destruct (_ && _); [|apply IH].
    intros (w1 & E1 & E2)%bind_Some. apply node_remove_cpus in E1. apply IH in E2. by rewrite E2. }
  assert (Hn : forall count n f w f' w',
    shrink_nodes k n f count w = Some (f', w') -> cpus w' = cpus w).
  { induction count as [|count IH]; intros n f w1 f' w1'; cbn [shrink_nodes]; [by intros [= _ <-]|].
    intros ([f1 w2] & E1 & E2)%bind_Some. apply Hl in E1. apply IH in E2. congruence. }
  apply Hn.
Qed.

Lemma run_alloc_S c p result fuel w :
  run_alloc k topo max_cpus c p result (S fuel) w =
  match alloc_section k topo max_cpus c p result w with
  | Some (Return obj, w) => Some (obj, w)
  | Some (Continue p, w) => run_alloc k topo max_cpus c p result fuel w
  | None => None
  end.
Proof. done. Qed.

(** Run to the end without interruption, the sections are [kmem_alloc]. *)
Lemma run_scan c result passes : forall ins fuel w,
  (passes + 2 <= fuel)%nat ->
  run_alloc k topo max_cpus c (Scan ins passes) result fuel w =
  ('(obj, w) ← scan_nodes k topo (local_node_of topo max_cpus c) ins c passes w;
   if negb (obj =? 0) then Some (obj, w) else take_new k c result w).
Proof.
  assert (Hfresh : forall fuel w, run_alloc k topo max_cpus c Fresh result (S fuel) w =
                                  take_new k c result w).
  { intros fuel w. cbn [run_alloc alloc_section]. by destruct (take_new k c result w) as [[o w']|]. }
  induction passes as [|passes IH]; intros ins fuel w Hf; (destruct fuel as [|fuel]; [lia|]);
    cbn [run_alloc alloc_section scan_nodes].
  - destruct fuel as [|fuel]; [lia|]. apply Hfresh.
  - destruct (_ =? NUMA_NODE_ANY); [destruct fuel as [|fuel]; [lia|]; apply Hfresh|].
    destruct (take_node k _ c w) as [[o w1]|]; cbn [mbind option_bind]; [|done].
    destruct (Z.eqb_spec o 0) as [->|Ho]; cbn [negb].
    + apply IH. lia.
    + cbn [mbind option_bind]. by destruct (Z.eqb_spec o 0).
Qed.

(** An allocation that is not interrupted between its critical sections
    is [kmem_alloc]: running the sections one after the other from the fast
    path ends within 21 sections with the result and the state of the whole
    function, traps included. *)
Theorem sections_compose c result w :
  run_alloc k topo max_cpus c Entry result 21 w = kmem_alloc k topo max_cpus c result w.
Proof.
  unfold kmem_alloc. rewrite run_alloc_S. cbn [alloc_section].
  destruct (negb (c_freelist (cpu w c) =? 0)).
  { by destruct (pop_active k c (c_slab (cpu w c)) w). }
  rewrite run_alloc_S. cbn [alloc_section]. unfold alloc_slow.
  destruct (deactivate_cpu_slab k c w) as [w1|]; [|done].
  cbn [mbind option_bind]. rewrite run_alloc_S. cbn [alloc_section]. unfold refill.
  destruct (take_cpu_partial k c w1) as [[o w2]|]; [|done]. cbn [mbind option_bind].
  destruct (negb (o =? 0)); [done|]. apply run_scan. vm_compute. lia.
Qed.
End sections.

(** ** Clients *)

Record config := Config { cw : world; cph : gmap Z phase; held : gset Z }.

Definition phase_of (g : config) (c : Z) : phase := default Entry (cph g !! c).

(** The configuration after a section of CPU [c] ended with [r]. *)
Definition after (c : Z) (r : outcome) (w : world) (g : config) : config :=
  match r with
  | Continue p => Config w (<[c := p]> (cph g)) (held g)
  | Return o => Config w (<[c := Entry]> (cph g))
                  (if o =? 0 then held g else {[ o ]} ∪ held g)
  end.

Section clients.
  Context (k : kmem_cache) (topo : numa) (max_cpus : Z).
  Abbreviation inv := (inv k max_cpus).

(** A client writes inside an object it holds: only words that overlap the
    object change. *)
Definition inside (o : Z) (W W' : gmap Z Z) : Prop :=
  forall a, a + 8 <= o \/ o + size k <= a -> W' !! a = W !! a.

Inductive client_step : config -> config -> Prop :=
  | step_alloc c result r w' g :
      0 <= c < max_cpus -> (phase_of g c = Fresh -> frame_fresh k (cw g) result) ->
      alloc_section k topo max_cpus c (phase_of g c) result (cw g) = Some (r, w') ->
      client_step g (after c r w' g)
  | step_free c o w' g :
      0 <= c < max_cpus -> o ∈ held g -> kmem_free k c o (cw g) = Some w' ->
      client_step g (Config w' (cph g) (held g ∖ {[ o ]}))
  | step_write o W' g :
      o ∈ held g -> inside o (words (cw g)) W' ->
      client_step g (Config (with_words W' (cw g)) (cph g) (held g))
  | step_shrink freed w' g :
      kmem_cache_shrink k (cw g) = Some (freed, w') ->
      client_step g (Config w' (cph g) (held g)).

Definition initial : config := Config (world_zero max_cpus) ∅ ∅.

Record config_ok (g : config) : Prop := {
  cg_inv : exists G, inv None (cw g) G /\ (forall o, live k G o <-> o ∈ held g);
  cg_count : live_objects (cw g) = Z.of_nat (base.size (held g));
  cg_flight : forall c, 0 <= c < max_cpus -> in_flight (phase_of g c) = true ->
    c_slab (cpu (cw g) c) = 0
}.
End clients.

Section safety.
  Context (k : kmem_cache) (topo : numa) (max_cpus : Z).
  Context (Hk : cache_ok k) (Hmulti : 2 <= objects_per_slab k) (Hcpus : 0 <= max_cpus).
  Abbreviation inv := (inv k max_cpus).

Lemma initial_ok : config_ok k max_cpus (initial max_cpus).
Proof.
  assert (Hpl : forall b, pl ∅ b = None) by done.
  assert (Hnth : forall {A} (d : A) n c, nthZ d (replicate n d) c = d).
  { intros A d n c. unfold nthZ. rewrite nth_lookup. destruct (replicate n d !! Z.to_nat c) eqn:E;
      [|done]. by apply lookup_replicate in E as [-> _]. }
  split; [|done|done]. exists ∅. split.
  - unfold SlubInv.inv, initial, world_zero. cbn [cw nodes cpus slabs links words]. split.
    + intros b. rewrite !lookup_empty. constructor.
    + intros c Hc. rewrite Hnth. split; simpl.
      * intros b. rewrite Hpl. split; [done|by intros [-> ?]].
      * done.
      * exists []. split_and!; [done|constructor|]. intros b. rewrite Hpl. set_solver.
    + intros n Hn. rewrite Hnth. exists []. split_and!; [|constructor|done|].
      * by split.
      * intros b. rewrite Hpl. set_solver.
    + rewrite length_replicate. lia.
    + by rewrite length_replicate.
    + intros b s. by rewrite lookup_empty.
  - intros o. split; [|set_solver]. intros (b & s & Hb & _). by rewrite lookup_empty in Hb.
Qed.

(** Writes of a client into its object do not reach the free pointers. *)
Lemma inv_inside w G o W' :
  inv None w G -> live k G o -> inside k o (words w) W' -> inv None (with_words W' w) G.
Proof.
  intros Hi (b & s & Hb & Ho & H1 & H2) Hw.
  destruct (inv_slab _ _ _ _ _ _ _ Hi Hb) as [_ Hok]. destruct Hi as [I1 I2 I3 I4 I5 I6].
  split; simpl; try done. clear I4 I5. intros b'.
  pose proof (I1 b') as H. destruct (slabs w !! b') as [h|], (G !! b') as [t|] eqn:Et;
    inversion H as [? ? Hok'|]; subst; constructor.
  apply (slab_ok_ext k max_cpus (words w)); [|done]. intros x Hx. apply Hw.
  pose proof (so_sub _ _ _ _ _ _ Hok' x Hx) as Hxo.
  pose proof (ck_size k Hk) as Hsz.
  assert (Hne : o <> x).
  { intros <-. assert (b' = b) as ->.
    { rewrite <- (slab_of_obj k Hk b' o), <- (slab_of_obj k Hk b o); try done;
        [apply Hok|apply Hok']. }
    assert (t = s) as -> by congruence. set_solver. }
  destruct (objs_disjoint k Hk b b' o x (so_addr _ _ _ _ _ _ Hok) (so_addr _ _ _ _ _ _ Hok')
              Ho Hxo Hne); [by right|left; lia].
Qed.

Lemma after_ok c r w' G' g G :
  config_ok k max_cpus g -> inv None (cw g) G -> (forall o, live k G o <-> o ∈ held g) ->
  0 <= c < max_cpus -> inv None w' G' ->
  (forall d, 0 <= d -> d <> c -> c_slab (cpu w' d) = c_slab (cpu (cw g) d)) ->
  match r with
  | Continue p' => same_live k (cw g) G w' G' /\ (in_flight p' = true -> c_slab (cpu w' c) = 0)
  | Return o => taken k o (cw g) G w' G' \/ (o = 0 /\ same_live k (cw g) G w' G')
  end ->
  config_ok k max_cpus (after c r w' g).
Proof.
  intros [_ Hcount Hfl] Hi Hl Hc Hi' Hoth Hr.
  assert (Hflight : forall p L, (in_flight p = true -> c_slab (cpu w' c) = 0) ->
    forall d, 0 <= d < max_cpus -> in_flight (phase_of (Config w' (<[c := p]> (cph g)) L) d) = true ->
    c_slab (cpu w' d) = 0).
  { intros p L Hp d Hd. unfold phase_of. simpl. destruct (decide (d = c)) as [->|Hne].
    - rewrite lookup_insert_eq. done.
    - rewrite lookup_insert_ne by done. intros Hd'. rewrite Hoth by lia. by apply Hfl. }
  destruct r as [p|o]; simpl.
  - destruct Hr as [[S1 S2 _] Hp]. split; simpl.
    + exists G'. split; [done|]. intros x. by rewrite S1.
    + by rewrite S2.
    + by apply Hflight.
  - destruct Hr as [[T1 T2 T3 T4] | [-> [S1 S2 _]]].
    + destruct (Z.eqb_spec o 0) as [|_]; [done|]. rewrite Hl in T2. split; simpl.
      * exists G'. split; [done|]. intros x. rewrite T3, Hl. set_solver.
      * rewrite T4, Hcount, size_union, size_singleton by set_solver. lia.
      * by apply Hflight.
    + split; simpl.
      * exists G'. split; [done|]. intros x. by rewrite S1.
      * by rewrite S2.
      * by apply Hflight.
Qed.

Lemma client_step_ok g g' :
  config_ok k max_cpus g -> client_step k topo max_cpus g g' -> config_ok k max_cpus g'.
Proof.
  intros Hg Hs. pose proof Hg as [(G & Hi & Hl) Hcount Hfl].
  assert (Hlen := ai_ncpus _ _ _ _ _ _ _ _ _ Hi).
  destruct Hs as [c result r w' g Hc Hfr E|c o w' g Hc Ho E|o W' g Ho Hw|freed w' g E].
  - destruct (alloc_section_ok k topo max_cpus Hk c _ result _ G Hi Hc (Hfl c Hc) Hfr)
      as (r' & w1 & G1 & E1 & Hi1 & Hr). rewrite E in E1. injection E1 as -> ->.
    eapply after_ok; try done.
    + intros d Hd Hne. by rewrite (alloc_section_cpus k topo max_cpus c _ _ _ _ _ (proj1 Hc) E).
    + destruct r'; [done|]. naive_solver.
  - destruct (kmem_free_ok k max_cpus Hk _ G c o Hmulti Hi Hc) as (w1 & G1 & E1 & Hi1 & [B1 B2]);
      [by apply Hl|]. rewrite E in E1. injection E1 as ->. split; simpl.
    + exists G1. split; [done|]. intros x. rewrite B1, Hl. set_solver.
    + rewrite B2, Hcount, size_difference, size_singleton by set_solver.
      assert (base.size (held g) <> 0%nat) by (intros Hz%size_empty_inv; set_solver). lia.
    + intros d Hd Hp. erewrite kmem_free_c_slab; [by apply Hfl| |lia|exact E]. lia.
  - split; simpl; [|done|done]. exists G. split; [|done].
    apply (inv_inside _ _ o); try done. by apply Hl.
  - destruct (kmem_cache_shrink_ok k max_cpus Hk _ G Hi) as (f & w1 & G1 & E1 & Hi1 & [S1 S2 _]).
    rewrite E in E1. injection E1 as _ ->. split; simpl.
    + exists G1. split; [done|]. intros x. by rewrite S1.
    + by rewrite S2.
    + intros d Hd Hp. unfold cpu. rewrite (shrink_cpus _ _ _ _ E). by apply Hfl.
Qed.

Lemma reachable_ok g : rtc (client_step k topo max_cpus) (initial max_cpus) g -> config_ok k max_cpus g.
Proof.
  intros H. pose proof initial_ok as H0. revert H H0. generalize (initial max_cpus).
  intros g0 H. induction H as [|x y z Hs _ IH]; intros H0; [done|].
  apply IH. by eapply client_step_ok.
Qed.

(** A live object is one of a slab, aligned, and disjoint from the other live
    objects. *)
Lemma live_placed w G o :
  inv None w G -> live k G o -> exists b, slab_at k b /\ o ∈ objs k b.
Proof.
  intros Hi (b & s & Hb & Ho & _). exists b. split; [|done].
  by apply (inv_slab _ _ _ _ _ _ _ Hi Hb).
Qed.

Lemma live_disjoint w w' G G' o o' :
  inv None w G -> inv None w' G' -> live k G o -> live k G' o' -> o <> o' ->
  o + size k <= o' \/ o' + size k <= o.
Proof.
  intros Hi Hi' (b & Hb & Ho)%(live_placed w) (b' & Hb' & Ho')%(live_placed w') Hne; try done.
  by apply (objs_disjoint k Hk b b').
Qed.

Lemma live_aligned w G o : inv None w G -> live k G o -> (align k | o).
Proof.
  intros Hi (b & Hb & (i & _ & ->)%elem_of_objs)%(live_placed w); [|done].
  by apply object_aligned.
Qed.

(** C2: The slab allocator is safe for a cache with a sound layout
    ([cache_ok]: objects of at least 8 bytes at multiples of a power-of-two
    alignment, the free pointer at offset 0, the objects inside the slab) and
    two or more objects per slab, when the page allocator hands out only
    blocks that are aligned, lie below 8 TiB and hold no slab of the cache.
    Caches outside these conditions are not safe (see [SlubLife]).  In every
    state that interleaved allocations (at most one under way per CPU, in any
    of its sections), frees of held objects, writes of clients inside
    their objects and shrinks can reach: the next section of every allocation
    runs without a trap; the object it returns is held by nobody, is aligned
    and overlaps no held object, and null is returned only when the page
    allocator had no frame; a held object can be freed and the cache shrunk
    without a trap; and [live_objects] is the number of held objects. *)
Theorem slub_client_safe g :
  rtc (client_step k topo max_cpus) (initial max_cpus) g ->
  (forall c result, 0 <= c < max_cpus ->
     (phase_of g c = Fresh -> frame_fresh k (cw g) result) ->
     exists r w', alloc_section k topo max_cpus c (phase_of g c) result (cw g) = Some (r, w') /\
       forall o, r = Return o ->
         if decide (o = 0) then phase_of g c = Fresh /\ result = None
         else o ∉ held g /\ (align k | o) /\
              forall o', o' ∈ held g -> o + size k <= o' \/ o' + size k <= o) /\
  (forall c o, 0 <= c < max_cpus -> o ∈ held g -> is_Some (kmem_free k c o (cw g))) /\
  is_Some (kmem_cache_shrink k (cw g)) /\
  live_objects (cw g) = Z.of_nat (base.size (held g)).
Proof.
  intros [(G & Hi & Hl) Hcount Hfl]%reachable_ok. split_and!; [| | |done].
  - intros c result Hc Hfr.
    destruct (alloc_section_ok k topo max_cpus Hk c _ result _ G Hi Hc (Hfl c Hc) Hfr)
      as (r & w1 & G1 & E & Hi1 & Hr).
    exists r, w1. split; [done|]. intros o ->. destruct Hr as [[T1 T2 T3 T4] | (-> & Hp & -> & _)].
    + rewrite decide_False by done.
      assert (Hlo : live k G1 o) by (apply T3; by right).
      split_and!; [by rewrite <- Hl|by eapply live_aligned|]. intros o' Ho'.
      eapply (live_disjoint w1 (cw g) G1 G); try done; [by apply Hl|]. intros ->.
      by destruct T2; apply Hl.
    + by rewrite decide_True.
  - intros c o Hc Ho.
    destruct (kmem_free_ok k max_cpus Hk _ G c o Hmulti Hi Hc) as (w1 & _ & -> & _); [by apply Hl|done].
  - destruct (kmem_cache_shrink_ok k max_cpus Hk _ G Hi) as (f & w1 & _ & -> & _). done.
Qed.
End safety.
