(* ===== verification/SlubLife.v ===== *)
(** * The slab allocator: creating and destroying a cache

    The geometry that [kmem_cache_create] computes, the end of a cache in
    [kmem_cache_destroy], the size classes of [kmalloc], and what happens
    outside the conditions of [slub_client_safe]: caches with one object per
    slab, allocations that interrupt each other on one CPU, small objects. *)

From S2P Require Import Prelude Errors Numa Dlist Slub SlubInv SlubOps SlubSpec SlubClient.

(** ** Creation *)

(** A cache created with object size and alignment [sz]. *)
Definition example_cache (sz : Z) : kmem_cache :=
  match kmem_cache_create true 0 12345 4096 sz sz 0 with
  | Expected k => k
  | Unexpected _ => KmemCache 0 0 0 0 0 0 0 0 0
  end.

Lemma example_64_ok : cache_ok (example_cache 64).
Proof. split; try by vm_compute. - by exists 6. - by exists 1. Qed.

Lemma fit_order_Some ea es ord n o cnt :
  fit_order ea es ord n = Some (o, cnt) -> 0 < es -> 0 <= ord -> ord + Z.of_nat n <= 6 ->
  ord <= o < ord + Z.of_nat n /\ align_up SLAB_HEADER_SIZE ea < slab_bytes o /\
  cnt = (slab_bytes o - align_up SLAB_HEADER_SIZE ea) / es /\ 1 <= cnt.
Proof.
  revert ord. induction n as [|n IH]; intros ord; [done|]. cbn [fit_order]. cbv zeta. intros H He Ho Hn.
  destruct (Z.leb_spec 1 (if align_up SLAB_HEADER_SIZE ea <? slab_bytes ord
    then u32 ((slab_bytes ord - align_up SLAB_HEADER_SIZE ea) / es) else 0)) as [Hc|Hc].
  - injection H as <- <-.
    destruct (Z.ltb_spec (align_up SLAB_HEADER_SIZE ea) (slab_bytes ord)) as [Hlt|]; [|lia].
    assert (Hsb : slab_bytes ord <= 131072).
    { rewrite slab_bytes_pow2 by lia. change 131072 with (2 ^ 17). apply Z.pow_le_mono_r; lia. }
    assert (Hal : 0 <= align_up SLAB_HEADER_SIZE ea).
    { unfold align_up. apply Z.land_nonneg. left. apply u64_fits. }
    assert (Hu : u32 ((slab_bytes ord - align_up SLAB_HEADER_SIZE ea) / es) =
                 (slab_bytes ord - align_up SLAB_HEADER_SIZE ea) / es).
    { apply u32_small. split; [apply Z.div_pos; lia|]. apply Z.div_lt_upper_bound; [lia|].
      change (2 ^ 32) with 4294967296. nia. }
    rewrite Hu in *. split_and!; lia.
  - destruct (IH (ord + 1)) as (H1 & H2); try done; lia.
Qed.

(** The alignments a caller may ask for: none, or a power of two that can
    hold a free pointer. *)
Definition good_align (al : Z) : Prop := al = 0 \/ exists a, 3 <= a <= 31 /\ al = 2 ^ a.

Lemma eff_align_pow2 al fl :
  good_align al ->
  let e := if 0 <? al then al else 8 in
  let e := if negb (Z.land fl flag_hwcache_align =? 0) then Z.max e CACHE_LINE_SIZE else e in
  exists a, 3 <= a <= 31 /\ e = 2 ^ a.
Proof.
  intros Hal. cbv zeta.
  assert (Hb : exists a, 3 <= a <= 31 /\ (if 0 <? al then al else 8) = 2 ^ a).
  { destruct Hal as [-> | (a & Ha & ->)]; [by exists 3|]. exists a. split; [done|].
    destruct (Z.ltb_spec 0 (2 ^ a)); lia. }
  destruct Hb as (a & Ha & ->). destruct (negb _); [|by exists a].
  destruct (Z.max_spec (2 ^ a) CACHE_LINE_SIZE) as [[_ ->] | [_ ->]]; [by exists 8|by exists a].
Qed.

(** A created cache has a sound geometry.  For every object size the
    allocator accepts and every alignment that is zero or a power of two of at
    least 8, the cache that [kmem_cache_create] returns keeps its free pointer
    at offset 0, rounds objects up to the alignment, and places as many
    objects behind the slab header as fit in a slab of at most 2^5 pages. *)
Theorem cache_geometry ready count stck name obj_size al fl k :
  fits 32 obj_size -> good_align al ->
  kmem_cache_create ready count stck name obj_size al fl = Expected k ->
  cache_ok k /\ object_size k = obj_size /\
  objects_per_slab k =
    (slab_bytes (order k) - align_up SLAB_HEADER_SIZE (align k)) / size k.
Proof.
  intros Hsz Hal. unfold kmem_cache_create.
  destruct (Z.eqb_spec obj_size 0) as [|Hnz]; [by rewrite orb_true_r|].
  destruct (Z.ltb_spec SLUB_MAX_SIZE obj_size) as [|Hmax]; [by rewrite orb_true_r|].
  destruct (_ || _ || _ || _); [done|].
  destruct (eff_align_pow2 al fl Hal) as (a & Ha & Ea). cbv zeta in Ea. rewrite Ea.
  assert (H31 : 2 ^ a <= 2 ^ 31) by (apply Z.pow_le_mono_r; lia).
  assert (H3 : 2 ^ 3 <= 2 ^ a) by (apply Z.pow_le_mono_r; lia).
  change (2 ^ 31) with 2147483648 in H31. change (2 ^ 3) with 8 in H3.
  unfold SLUB_MAX_SIZE, fits in *. change (2 ^ 32) with 4294967296 in Hsz.
  pose proof (Z.div_mod (obj_size + 2 ^ a - 1) (2 ^ a) ltac:(lia)) as Hdm.
  pose proof (Z.mod_pos_bound (obj_size + 2 ^ a - 1) (2 ^ a) ltac:(lia)) as Hmb.
  rewrite (align_up_pow2 obj_size a) by (try change (2 ^ 64) with 18446744073709551616; lia).
  set (q := (obj_size + 2 ^ a - 1) / 2 ^ a) in *.
  assert (Hq : 1 <= q) by (apply Z.div_le_lower_bound; lia).
  rewrite (u32_small (2 ^ a * q)) by (unfold fits; change (2 ^ 32) with 4294967296; lia).
  destruct (fit_order _ _ _ _) as [[ord cnt]|] eqn:E; [|done].
  destruct (SLUB_MAX_CACHES <=? count); [done|]. intros [= <-].
  destruct (fit_order_Some _ _ _ _ _ _ E ltac:(lia) ltac:(lia) ltac:(done)) as (Ho & Hlt & Hcnt & Hc1).
  change (Z.of_nat (Z.to_nat (SLUB_MAX_ORDER + 1))) with 6 in Ho.
  split_and!; [|done|done]. split; simpl; try done.
  - unfold SLUB_MAX_ORDER. lia.
  - exists a. split; [lia|done].
  - nia.
  - lia.
  - exists q. lia.
  - rewrite Hcnt.
    pose proof (Z.mul_div_le (slab_bytes ord - align_up SLAB_HEADER_SIZE (2 ^ a)) (2 ^ a * q)
                  ltac:(nia)). lia.
Qed.

Lemma cache_geometry_witness :
  exists k, kmem_cache_create true 0 7 4096 100 0 0 = Expected k /\ object_size k = 100 /\
    size k = 104 /\ cache_ok k.
Proof.
  eexists. split; [reflexivity|]. split; [done|]. split; [done|].
  apply (cache_geometry true 0 7 4096 100 0 0); [done|by left|reflexivity].
Defined.

(** [kmalloc] picks the smallest size class that holds the request: for
    every size from 1 to the maximum, the bucket index is in range, the
    bucket is large enough and the one below it is too small. *)
Theorem kmalloc_bucket_tight sz :
  1 <= sz <= KMALLOC_MAX_SIZE ->
  let i := bucket_for sz in
  0 <= i < KMALLOC_NUM_SIZES /\ sz <= kmalloc_bucket_size i /\
  (0 < i -> kmalloc_bucket_size (i - 1) < sz).
Proof.
  intros Hsz i. unfold KMALLOC_MAX_SIZE, KMALLOC_NUM_SIZES in *.
  assert (Hsize : forall j, 0 <= j < 13 -> kmalloc_bucket_size j = 2 ^ (j + 3)).
  { assert (Hall : Forall (fun j => kmalloc_bucket_size j = 2 ^ (j + 3)) (seqZ 0 13))
      by (vm_compute; repeat constructor).
    intros j Hj. eapply list.Forall_forall in Hall; [exact Hall|]. apply elem_of_seqZ. lia. }
  unfold i, bucket_for, KMALLOC_MAX_SIZE. destruct (Z.leb_spec sz 8) as [H8|H8].
  { by split_and!. }
  destruct (Z.ltb_spec 32768 sz); [lia|]. unfold bit_width.
  destruct (Z.log2_spec (sz - 1) ltac:(lia)) as [L1 L2].
  assert (3 <= Z.log2 (sz - 1)) by (apply Z.log2_le_pow2; [lia|]; change (2 ^ 3) with 8; lia).
  assert (Z.log2 (sz - 1) < 15) by (apply Z.log2_lt_pow2; [lia|]; change (2 ^ 15) with 32768; lia).
  rewrite !Hsize by lia. replace (Z.succ (Z.log2 (sz - 1))) with (Z.log2 (sz - 1) + 1) in L2 by lia.
  replace (Z.log2 (sz - 1) + 1 - 3 + 3) with (Z.log2 (sz - 1) + 1) by lia.
  replace (Z.log2 (sz - 1) + 1 - 3 - 1 + 3) with (Z.log2 (sz - 1)) by lia. lia.
Qed.

Lemma kmalloc_bucket_tight_witness :
  bucket_for 100 = 4 /\ 100 <= kmalloc_bucket_size 4 /\ kmalloc_bucket_size 3 < 100.
Proof.
  destruct (kmalloc_bucket_tight 100) as (_ & H1 & H2); [done|]. split; [done|].
  split; [exact H1|exact (H2 eq_refl)].
Defined.

(** ** Destruction *)

Section destroy.
  Context (k : kmem_cache) (max_cpus : Z) (Hk : cache_ok k).
  Abbreviation inv := (inv k max_cpus).

(** The frame of slab [b] as it is given back. *)
Definition frame_of (b : Z) : Z * Z * bool :=
  (b - KERNEL_VIRTUAL_OFFSET, order k, negb (Z.land (flags k) flag_typesafe_by_rcu =? 0)).

(** Every slab of [w] is still a slab in [w'] or has been given back. *)
Record accounted (w w' : world) : Prop := {
  ac_released : forall f, f ∈ released w -> f ∈ released w';
  ac_slabs : forall b, is_Some (slabs w !! b) ->
    is_Some (slabs w' !! b) \/ frame_of b ∈ released w'
}.

Lemma accounted_refl w : accounted w w.
Proof. split; auto. Qed.

Lemma accounted_trans w1 w2 w3 : accounted w1 w2 -> accounted w2 w3 -> accounted w1 w3.
Proof.
  intros [A1 A2] [B1 B2]. split; [auto|]. intros b [Hb|Hb]%A2; [by apply B2|right; by apply B1].
Qed.

Lemma accounted_same w w' :
  released w' = released w -> (forall b, is_Some (slabs w !! b) -> is_Some (slabs w' !! b)) ->
  accounted w w'.
Proof. intros E H. split; [by rewrite E|auto]. Qed.

Lemma is_Some_insert (S : gmap Z slab_header) b h b' :
  is_Some (S !! b') -> is_Some (<[b := h]> S !! b').
Proof. intros H. rewrite lookup_insert. case_decide; [done|done]. Qed.

Lemma node_add_accounted b w w' : node_add_partial b w = Some w' -> accounted w w'.
Proof.
  unfold node_add_partial. destruct (on_node_partial _); [done|]. intros [= <-].
  apply accounted_same; [done|]. intros b'. apply is_Some_insert.
Qed.

Lemma deactivate_accounted c w w' : deactivate_cpu_slab k c w = Some w' -> accounted w w'.
Proof.
  unfold deactivate_cpu_slab. destruct (_ =? 0); [intros [= <-]; apply accounted_refl|].
  intros (w1 & E1 & E2)%bind_Some.
  assert (H1 : accounted w w1).
  { destruct (negb _); [|injection E1 as <-; apply accounted_refl].
    apply bind_Some in E1 as (t & _ & E1). injection E1 as <-.
    apply accounted_same; [done|]. intros b'. apply is_Some_insert. }
  eapply accounted_trans; [exact H1|]. destruct (_ && _) in E2.
  - apply node_add_accounted in E2. eapply accounted_trans; [|exact E2].
    apply accounted_same; [done|]. intros b'. apply is_Some_insert.
  - injection E2 as <-. apply accounted_same; [done|]. intros b'. apply is_Some_insert.
Qed.

Lemma drain_accounted fuel : forall b w w', drain_partial b fuel w = Some w' -> accounted w w'.
Proof.
  induction fuel as [|fuel IH]; intros b w w'; [done|]. cbn [drain_partial].
  destruct (b =? 0); [intros [= <-]; apply accounted_refl|].
  intros (w1 & E1 & E2)%bind_Some. apply IH in E2. eapply accounted_trans; [|exact E2].
  set (w0 := upd_hdr b (set_cpu_partial_next 0) _) in E1.
  assert (H0 : accounted w w0).
  { apply accounted_same; [done|]. intros b' H. simpl. by do 2 apply is_Some_insert. }
  eapply accounted_trans; [exact H0|].
  destruct (_ <? _) in E1; [by apply node_add_accounted in E1|injection E1 as <-; apply accounted_refl].
Qed.

(** Only the count of partial objects changed. *)
Lemma inv_set_partial w G c v :
  inv None w G -> 0 <= c < max_cpus ->
  inv None (upd_cpu c (set_c_partial (c_partial (cpu w c)) v) w) G.
Proof.
  intros Hi Hc. assert (Hlen : 0 <= c < Z.of_nat (length (cpus w)))
    by (rewrite (ai_ncpus _ _ _ _ _ _ _ _ _ Hi); done).
  destruct Hi as [H1 H2 H3 H4 H5 H6]. split; simpl; try done.
  - intros d Hd. rewrite cpu_upd by lia. case_decide; [subst d|by apply H2].
    destruct (H2 c Hc). by split.
  - by rewrite length_updZ.
Qed.

(** A held slab may be thawed. *)
Lemma inv_thaw w G b :
  inv (Some b) w G -> is_Some (G !! b) -> inv (Some b) (upd_hdr b (set_frozen false) w) G.
Proof.
  intros Hi [s Hb]. destruct (inv_slab _ _ _ _ _ _ _ Hi Hb) as [Hs Hok].
  assert (Hp : sp s = PHeld) by (by apply (ai_held _ _ _ _ _ _ _ _ _ Hi b s Hb)).
  rewrite <- (insert_id G b s) by done. unfold SlubInv.inv. simpl.
  eapply ainv_move; [exact Hk|exact Hi|..]; try done.
  - destruct Hok. by split.
  - intros c Hc. by apply (cpu_ok_same _ _ _ _ b (hdr w b) _ s).
  - intros n Hn. by apply (node_ok_same _ _ _ _ b s).
  - by right.
  - by rewrite Hp.
Qed.

Lemma node_add_upd_cpu b c f w :
  node_add_partial b (upd_cpu c f w) = upd_cpu c f <$> node_add_partial b w.
Proof.
  unfold node_add_partial. change (hdr (upd_cpu c f w) b) with (hdr w b).
  by destruct (on_node_partial (hdr w b)).
Qed.

(** Thawing and unlinking the head of the CPU's list, in either order. *)
Lemma pop_thaw_eq w c b nx :
  0 <= c < Z.of_nat (length (cpus w)) ->
  upd_hdr b (set_frozen false)
    (upd_hdr b (set_cpu_partial_next 0)
      (upd_cpu c (set_c_partial nx 0) (upd_cpu c (set_c_partial b 0) w))) =
  upd_cpu c (set_c_partial nx 0)
    (upd_hdr b (set_cpu_partial_next 0) (upd_hdr b (set_frozen false) w)).
Proof.
  intros Hc. unfold upd_hdr at 1 3. unfold with_slabs, upd_cpu, with_cpus. simpl.
  autorewrite with slub. unfold cpu. simpl. rewrite nthZ_updZ_eq by done.
  rewrite !insert_insert_eq. unfold updZ. rewrite list_insert_insert_eq. done.
Qed.

(** The chain of a CPU's partial slabs from [b]. *)
Lemma drain_ok c fuel : forall b w G l,
  0 <= c < max_cpus ->
  inv None (upd_cpu c (set_c_partial b 0) w) G ->
  pchain (slabs w) b l -> NoDup l -> (length l < fuel)%nat ->
  exists w' G', drain_partial b fuel w = Some w' /\
    inv None (upd_cpu c (set_c_partial 0 0) w') G' /\ cpus w' = cpus w /\
    same_live k w G w' G'.
Proof.
  induction fuel as [|fuel IH]; intros b w G l Hc Hi Hl Hnd Hf; [lia|]. cbn [drain_partial].
  destruct (Z.eqb_spec b 0) as [->|Hb0]; [by exists w, G|].
  destruct l as [|b' l]; [simpl in Hl; congruence|]. simpl in Hl. destruct Hl as (<- & _ & Hl).
  apply list.NoDup_cons in Hnd as [Hbl Hnd].
  assert (Hlen : 0 <= c < Z.of_nat (length (cpus w))).
  { pose proof (ai_ncpus _ _ _ _ _ _ _ _ _ Hi) as E. simpl in E. rewrite length_updZ in E. lia. }
  assert (Ecp : b = c_partial (cpu (upd_cpu c (set_c_partial b 0) w) c))
    by (unfold cpu; simpl; by rewrite nthZ_updZ_eq).
  destruct (cpu_pop_inv k max_cpus Hk _ G c b 0 Hi Hc Ecp Hb0) as (s & Hb & Hsf & Hcf & Hi1).
  apply inv_thaw in Hi1; [|by rewrite lookup_insert_eq].
  rewrite hdr_upd_cpu, (pop_thaw_eq w c b _ Hlen) in Hi1.
  set (nx := cpu_partial_next (hdr w b)) in *.
  set (w0 := upd_hdr b (set_cpu_partial_next 0) (upd_hdr b (set_frozen false) w)) in *.
  set (s1 := at_place PHeld s) in *.
  destruct (inv_slab _ _ _ _ _ _ _ Hi1 (lookup_insert_eq _ _ _)) as [_ Hok].
  rewrite hdr_upd_cpu in Hok.
  assert (Hlt : (inuse (hdr w0 b) <? objects (hdr w0 b)) = true).
  { apply Z.ltb_lt. pose proof (so_inuse _ _ _ _ _ _ Hok) as Hin.
    rewrite (so_objects _ _ _ _ _ _ Hok). simpl in Hin.
    destruct (sf s); [done|]. simpl in Hin. lia. }
  rewrite Hlt.
  destruct (node_add_inv k max_cpus Hk _ _ b s1 Hi1) as (w2 & E2 & Hi2 & Ec & _ & El);
    [apply lookup_insert_eq|done|unfold w0; by autorewrite with slub|].
  rewrite node_add_upd_cpu in E2. apply fmap_Some in E2 as (w3 & E3 & ->).
  rewrite E3. cbn [mbind option_bind]. rewrite insert_insert_eq in Hi2.
  assert (Ec3 : cpus w3 = cpus w) by (by apply node_add_cpus in E3).
  destruct (IH nx w3 _ l Hc Hi2) as (w4 & G4 & E4 & Hi4 & Ec4 & Hs4); [|done|simpl in Hf; lia|].
  { revert Hl. apply pchain_ext. intros x Hx. unfold node_add_partial in E3.
    destruct (on_node_partial _); [done|]. injection E3 as <-. simpl.
    rewrite !lookup_insert_ne by congruence. done. }
  exists w4, G4. split_and!; [exact E4|done|congruence|].
  eapply same_live_trans; [|exact Hs4]. apply (same_live_move _ _ _ b s); [done|done|exact El].
Qed.

Lemma length_le_dom (S : gmap Z slab_header) l :
  NoDup l -> (forall b, b ∈ l -> is_Some (S !! b)) -> (length l <= length (map_to_list S))%nat.
Proof.
  intros Hnd Hl. rewrite <- (length_fmap fst (map_to_list S)).
  apply submseteq_length, NoDup_submseteq; [done|]. intros b [h Hh]%Hl.
  apply list_elem_of_fmap. exists (b, h). split; [done|]. by apply elem_of_map_to_list.
Qed.

(** CPU [c] owns no slab. *)
Definition cpu_idle (w : world) (c : Z) : Prop := c_slab (cpu w c) = 0 /\ c_partial (cpu w c) = 0.

Lemma destroy_cpu_ok c w G :
  inv None w G -> 0 <= c < max_cpus ->
  exists w' G', destroy_cpu k c w = Some w' /\ inv None w' G' /\ same_live k w G w' G' /\
    cpu_idle w' c /\ other_cpus c w w' /\ accounted w w'.
Proof.
  intros Hi Hc. unfold destroy_cpu.
  destruct (deactivate_inv k max_cpus Hk w G c Hi Hc) as (w1 & G1 & E1 & Hi1 & Hz & Hl & Hlv & Hd).
  assert (Hs1 : same_live k w G w1 G1) by done.
  pose proof (deactivate_accounted _ _ _ E1) as Ha1.
  pose proof (deactivate_cpus _ _ _ _ (proj1 Hc) E1) as Ho1.
  rewrite E1. cbn [mbind option_bind].
  destruct (inv_cpu _ _ _ _ _ _ Hi1 Hc) as [_ _ (l & Hch & Hnd & Hm)].
  assert (Hfuel : (length l <= length (map_to_list (slabs w1)))%nat).
  { apply length_le_dom; [done|]. intros b (s & Hb & _)%Hm%pl_inv.
    destruct (inv_slab _ _ _ _ _ _ _ Hi1 Hb) as [-> _]. done. }
  destruct (drain_ok c (S (length (map_to_list (slabs w1)))) _ w1 G1 l Hc
              (inv_set_partial w1 G1 c 0 Hi1 Hc) Hch Hnd ltac:(lia))
    as (w2 & G2 & E2 & Hi2 & Ec2 & Hs2).
  rewrite E2. cbn [mbind option_bind]. eexists _, G2. split_and!; [reflexivity|done| | | |].
  - eapply same_live_trans; [exact Hs1|]. destruct Hs2. by split.
  - assert (Hlen : 0 <= c < Z.of_nat (length (cpus w2))).
    { rewrite Ec2, (ai_ncpus _ _ _ _ _ _ _ _ _ Hi1). done. }
    unfold cpu_idle, cpu in *. simpl. rewrite nthZ_updZ_eq by done. unfold cpu. simpl.
    by rewrite Ec2.
  - eapply other_cpus_trans; [exact Ho1|].
    eapply other_cpus_trans; [by apply other_cpus_eq, Ec2|]. apply other_cpus_upd. lia.
  - eapply accounted_trans; [exact Ha1|]. eapply accounted_trans; [by eapply drain_accounted|].
    by apply accounted_same.
Qed.

Lemma destroy_cpus_ok online count : forall c w G,
  inv None w G -> 0 <= c -> c + Z.of_nat count = max_cpus ->
  (forall d, 0 <= d < c -> cpu_idle w d) ->
  (forall d, c <= d < max_cpus -> online d = false -> cpu_idle w d) ->
  exists w' G', destroy_cpus k online c count w = Some w' /\ inv None w' G' /\
    same_live k w G w' G' /\ accounted w w' /\ (forall d, 0 <= d < max_cpus -> cpu_idle w' d).
Proof.
  induction count as [|count IH]; intros c w G Hi H0 Hc Hdone Hoff; cbn [destroy_cpus].
  { exists w, G. split_and!; try done; [apply accounted_refl|]. intros d Hd. apply Hdone. lia. }
  destruct (online c) eqn:Eon.
  - destruct (destroy_cpu_ok c w G Hi ltac:(lia)) as (w1 & G1 & -> & Hi1 & Hs1 & Hid & Ho & Ha).
    cbn [mbind option_bind].
    assert (Hoth : forall d, 0 <= d -> d <> c -> cpu_idle w d -> cpu_idle w1 d).
    { intros d Hd Hne. unfold cpu_idle. by rewrite (Ho d Hd Hne). }
    destruct (IH (c + 1) w1 G1 Hi1 ltac:(lia) ltac:(lia)) as (w2 & G2 & E2 & Hi2 & Hs2 & Ha2 & Hall).
    + intros d Hd. destruct (decide (d = c)) as [->|]; [done|].
      apply Hoth; [lia|done|]. apply Hdone. lia.
    + intros d Hd Eoff. apply Hoth; [lia|lia|]. apply Hoff; [lia|done].
    + exists w2, G2. split_and!; try done; [by eapply same_live_trans|by eapply accounted_trans].
  - cbn [mbind option_bind]. apply (IH (c + 1) w G Hi); try lia.
    + intros d Hd. destruct (decide (d = c)) as [->|]; [apply Hoff; [lia|done]|apply Hdone; lia].
    + intros d Hd. apply Hoff. lia.
Qed.

(** Without live objects no slab has an object in use. *)
Lemma no_live_inuse w G b s :
  inv None w G -> (forall o, ~ live k G o) -> G !! b = Some s -> inuse (hdr w b) = 0.
Proof.
  intros Hi Hno Hb. destruct (inv_slab _ _ _ _ _ _ _ Hi Hb) as [_ Hok].
  pose proof (so_inuse _ _ _ _ _ _ Hok) as Hin.
  assert (length (objs k b) <= length (sf s ++ cf s))%nat as Hle.
  { apply submseteq_length, NoDup_submseteq; [by apply NoDup_objs|]. intros o Ho.
    destruct (decide (o ∈ sf s ++ cf s)) as [|Hn]; [done|]. destruct (Hno o).
    exists b, s. set_solver. }
  pose proof (length_objs k Hk b). destruct (slab_counts k max_cpus Hk _ _ _ _ Hok). lia.
Qed.

Lemma free_slab_accounted w G b :
  inv (Some b) w G -> is_Some (G !! b) -> accounted w (free_slab k b w).
Proof.
  intros Hi [s Hb]. destruct (inv_slab _ _ _ _ _ _ _ Hi Hb) as [_ Hok].
  pose proof (so_phys _ _ _ _ _ _ Hok) as Hph. split; simpl.
  - intros f Hf. set_solver.
  - intros b' Hb'. destruct (decide (b' = b)) as [->|Hne].
    + right. unfold frame_of. replace (b - KERNEL_VIRTUAL_OFFSET) with (phys (hdr w b)) by lia.
      set_solver.
    + left. by rewrite lookup_delete_ne.
Qed.

Lemma discard_accounted w G b s n w' :
  inv None w G -> G !! b = Some s -> sp s = PNode n -> node_remove_partial b w = Some w' ->
  accounted w (free_slab k b w').
Proof.
  intros Hi Hb Hp E.
  destruct (node_remove_inv k max_cpus Hk w G b s n Hi Hb Hp)
    as (w1 & E1 & Hi1 & _ & _ & _ & Es & _). rewrite E in E1. injection E1 as <-.
  eapply accounted_trans; [|eapply free_slab_accounted; [exact Hi1|by rewrite lookup_insert_eq]].
  apply accounted_same; [|intros b'; rewrite Es; apply is_Some_insert].
  unfold node_remove_partial in E. destruct (_ || _); [done|].
  destruct (node_at _ _). by injection E as <-.
Qed.

(** What the release of node lists keeps. *)
Record shrunk (w : world) (G : gmap Z slab_ghost) (w' : world) (G' : gmap Z slab_ghost)
    : Prop := {
  sh_inv : inv None w' G';
  sh_nolive : forall o, ~ live k G' o;
  sh_accounted : accounted w w';
  sh_places : forall b p, pl G' b = Some p -> pl G b = Some p;
  sh_cpus : cpus w' = cpus w
}.

Lemma shrunk_trans w G w1 G1 w2 G2 :
  shrunk w G w1 G1 -> shrunk w1 G1 w2 G2 -> shrunk w G w2 G2.
Proof.
  intros [A1 A2 A3 A4 A5] [B1 B2 B3 B4 B5]. split; auto; [by eapply accounted_trans|congruence].
Qed.

Lemma release_list_ok n fuel : forall rest w G,
  inv None w G -> (forall o, ~ live k G o) -> 0 <= n < MAX_NUMA_NODES ->
  dlist (links w) (partial (node w n)) rest -> NoDup rest ->
  (forall x, x ∈ rest <-> pl G x = Some (PNode n)) -> (length rest < fuel)%nat ->
  exists w' G', release_list k (hd 0 rest) fuel w = Some w' /\ shrunk w G w' G' /\
    (forall b, pl G' b <> Some (PNode n)).
Proof.
  induction fuel as [|fuel IH]; intros rest w G Hi Hno Hn Hd Hnd Hm Hf; [lia|].
  destruct rest as [|b rest].
  { simpl. exists w, G. split_and!; [done| |].
    - split; try done. apply accounted_refl.
    - intros b Hb. apply Hm in Hb. by apply elem_of_nil in Hb. }
  cbn [release_list hd]. destruct (pl_inv G b (PNode n)) as (s & Hb & Hp); [apply Hm; left|].
  destruct (inv_slab _ _ _ _ _ _ _ Hi Hb) as [_ Hok].
  destruct (Z.eqb_spec b 0) as [E|_]; [by destruct (slab_at_pos k Hk b); [apply Hok|]|].
  assert (Hnx : (node_at (links w) b).1 = hd 0 rest).
  { destruct (proj2 Hd 0%nat b eq_refl) as [_ ->]. by destruct rest. }
  rewrite Hnx. pose proof (no_live_inuse w G b s Hi Hno Hb) as Hz.
  destruct (discard_slab k max_cpus Hk w G b s n Hi Hb Hp Hz)
    as (w1 & E1 & Hi1 & Hs1 & Eh & _ & _ & _ & Hd1).
  pose proof (discard_accounted w G b s n w1 Hi Hb Hp E1) as Ha1.
  rewrite E1. cbn [mbind option_bind]. rewrite Eh. simpl inuse. rewrite Hz.
  apply list.NoDup_cons in Hnd as [Hbn Hnd].
  assert (Hpl : forall x, pl (delete b G) x = if decide (x = b) then None else pl G x).
  { intros x. unfold pl. case_decide; [subst; by rewrite lookup_delete_eq|].
    by rewrite lookup_delete_ne. }
  destruct (IH rest (free_slab k b w1) (delete b G)) as (w2 & G2 & E2 & Hs2 & Hnone); try done.
  - intros o Ho. by apply (Hno o), (sl_live _ _ _ _ _ Hs1).
  - by apply (Hd1 []).
  - intros x. rewrite Hpl. case_decide; [subst; split; [done|done]|]. rewrite <- Hm. set_solver.
  - simpl in Hf. lia.
  - exists w2, G2. split_and!; [exact E2| |done]. eapply shrunk_trans; [|exact Hs2]. split; try done.
    + intros o Ho. by apply (Hno o), (sl_live _ _ _ _ _ Hs1).
    + intros x p. rewrite Hpl. by case_decide.
    + simpl. by apply node_remove_cpus in E1.
Qed.

Lemma release_nodes_ok count : forall n w G,
  inv None w G -> (forall o, ~ live k G o) -> 0 <= n -> n + Z.of_nat count = MAX_NUMA_NODES ->
  (forall m b, 0 <= m < n -> pl G b <> Some (PNode m)) ->
  exists w' G', release_nodes k n count w = Some w' /\ shrunk w G w' G' /\
    (forall m b, 0 <= m < MAX_NUMA_NODES -> pl G' b <> Some (PNode m)).
Proof.
  induction count as [|count IH]; intros n w G Hi Hno H0 Hc Hdone; cbn [release_nodes].
  { exists w, G. split_and!; [done|split; try done; apply accounted_refl|].
    intros m b Hm. apply Hdone. lia. }
  assert (Hn : 0 <= n < MAX_NUMA_NODES) by lia.
  destruct (inv_node _ _ _ _ _ _ Hi Hn) as (l & Hl & Hnd & Hnr & Hm).
  rewrite (proj1 Hl).
  destruct (release_list_ok n (S (Z.to_nat (nr_partial (node w n)))) l w G)
    as (w1 & G1 & -> & Hs1 & Hnone); try done; try lia. cbn [mbind option_bind].
  destruct (IH (n + 1) w1 G1) as (w2 & G2 & E2 & Hs2 & Hall); try lia; try apply Hs1.
  - intros m b Hmr Hb. destruct (decide (m = n)) as [->|]; [by apply (Hnone b)|].
    apply (Hdone m b); [lia|]. by apply (sh_places _ _ _ _ Hs1).
  - exists w2, G2. split_and!; [done|by eapply shrunk_trans|done].
Qed.

Lemma destroy_ok online w G :
  inv None w G -> (forall o, ~ live k G o) -> live_objects w = 0 -> 0 <= max_cpus ->
  (forall c, 0 <= c < max_cpus -> online c = false -> cpu_idle w c) ->
  exists w', kmem_cache_destroy k max_cpus online w = Some w' /\ slabs w' = ∅ /\
    forall b, is_Some (slabs w !! b) -> frame_of b ∈ released w'.
Proof.
  intros Hi Hno Hz Hcpus Hoff. unfold kmem_cache_destroy. rewrite Hz. cbn [negb Z.eqb].
  destruct (destroy_cpus_ok online (Z.to_nat max_cpus) 0 w G Hi ltac:(lia) ltac:(lia))
    as (w1 & G1 & -> & Hi1 & Hs1 & Ha1 & Hidle); [lia|done|]. cbn [mbind option_bind].
  assert (Hno1 : forall o, ~ live k G1 o) by (intros o; by rewrite (sl_live _ _ _ _ _ Hs1)).
  destruct (release_nodes_ok (Z.to_nat MAX_NUMA_NODES) 0 w1 G1 Hi1 Hno1) as (w2 & G2 & -> & Hs2 & Hnone);
    [lia|done|lia|]. destruct Hs2 as [Hi2 Hno2 Ha2 _ Ec].
  assert (HG : forall b, G2 !! b = None).
  { intros b. destruct (G2 !! b) as [s|] eqn:Hb; [|done]. exfalso.
    destruct (inv_slab _ _ _ _ _ _ _ Hi2 Hb) as [_ Hok].
    pose proof (so_place _ _ _ _ _ _ Hok) as Hp. pose proof (pl_Some _ _ _ Hb) as Hpl.
    pose proof (slab_at_pos k Hk b (so_addr _ _ _ _ _ _ Hok)) as Hb0.
    destruct (sp s) as [c|c|n| |] eqn:Es.
    - destruct (Hidle c Hp) as [H1 _]. pose proof (inv_cpu _ _ _ _ _ _ Hi2 Hp) as Hco.
      apply (co_active _ _ _ _ Hco) in Hpl as [E _]. unfold cpu in *. rewrite Ec in E. congruence.
    - destruct Hp as [Hc _]. destruct (Hidle c Hc) as [_ H1].
      destruct (co_partial _ _ _ _ (inv_cpu _ _ _ _ _ _ Hi2 Hc)) as (l & Hl & _ & Hm).
      apply Hm in Hpl. unfold cpu in *. rewrite Ec, H1 in Hl.
      destruct l; [by apply elem_of_nil in Hpl|]. simpl in Hl. naive_solver.
    - apply (Hnone n b); [|done]. destruct Hp as [-> _]. apply node_index_range, Hok.
    - pose proof (no_live_inuse w2 G2 b s Hi2 Hno2 Hb) as Hu.
      pose proof (so_inuse _ _ _ _ _ _ Hok) as Hin. destruct Hp as [-> ->] in Hin.
      pose proof (ck_count k Hk). simpl in Hin. lia.
    - by apply (ai_held _ _ _ _ _ _ _ _ _ Hi2 b s Hb) in Es. }
  assert (HS : forall b, slabs w2 !! b = None) by (intros b; by apply (inv_fresh _ _ _ _ _ _ Hi2)).
  exists w2. split_and!; [done|by apply map_eq; intros b; rewrite HS, lookup_empty|].
  intros b Hb. destruct (ac_slabs _ _ (accounted_trans _ _ _ Ha1 Ha2) b Hb) as [[h Hh]|]; [|done].
  by rewrite HS in Hh.
Qed.
End destroy.

(** C26: A cache is destroyed without a leak, under the conditions of
    [slub_client_safe]: a sound layout ([cache_ok]: objects of at least 8 bytes
    at multiples of a power-of-two alignment), two or more objects per slab,
    and a history of interleaved allocations with at most one under way per
    CPU, from fresh blocks below 8 TiB (an allocation that interrupts another
    on the same CPU can lose a slab, [reentrant_alloc_leaks]).  From every
    state such clients can
    reach in which they have given back all their objects, if the CPUs that
    are not online own no slab, [kmem_cache_destroy] runs to the end without a
    trap, no slab is left and the frames of every slab have been given to the
    page allocator, at once, or for a cache whose objects RCU readers may still
    see queued with call_rcu, as the entry of [released] records. *)
Theorem destroy_releases_all k topo max_cpus online g :
  cache_ok k -> 2 <= objects_per_slab k -> 0 <= max_cpus ->
  rtc (client_step k topo max_cpus) (initial max_cpus) g -> held g = ∅ ->
  (forall c, 0 <= c < max_cpus -> online c = false ->
     c_slab (cpu (cw g) c) = 0 /\ c_partial (cpu (cw g) c) = 0) ->
  exists w', kmem_cache_destroy k max_cpus online (cw g) = Some w' /\ slabs w' = ∅ /\
    forall b, is_Some (slabs (cw g) !! b) -> frame_of k b ∈ released w'.
Proof.
  intros Hk Hm Hc Hr Hh Hoff.
  destruct (reachable_ok k topo max_cpus Hk Hm Hc g Hr) as [(G & Hi & Hl) Hcount _].
  apply (destroy_ok k max_cpus Hk online (cw g) G); try done.
  - intros o. rewrite Hl, Hh. apply not_elem_of_empty.
  - by rewrite Hcount, Hh, size_empty.
Qed.

(** ** A client that runs *)

(** A decidable form of what the page allocator promises. *)
Definition frame_ok (k : kmem_cache) (w : world) (ph nid : Z) : bool :=
  (ph mod slab_bytes (order k) =? 0) && (0 <=? ph) && (ph + slab_bytes (order k) <=? SLUB_PHYS_LIMIT)
  && bool_decide (slabs w !! (ph + KERNEL_VIRTUAL_OFFSET) = None) && (0 <=? nid) && (0 <? slab_bytes (order k)).

Lemma frame_ok_fresh k w ph nid : frame_ok k w ph nid = true -> frame_fresh k w (Some (ph, nid)).
Proof.
  unfold frame_ok. rewrite !andb_true_iff, bool_decide_eq_true, Z.eqb_eq, Z.ltb_lt, !Z.leb_le.
  intros (((((Hm & H0) & Hl) & Hn) & Hd) & Hp). split; [|done].
  exists (ph / slab_bytes (order k)). pose proof (Z.div_mod ph (slab_bytes (order k)) ltac:(lia)).
  split_and!; nia.
Qed.

(** [n] sections of an allocation on CPU [c] that is offered the frame [ph]. *)
Fixpoint sections (k : kmem_cache) (max_cpus c ph : Z) (n : nat) (g : config) : option config :=
  match n with
  | O => Some g
  | S n =>
      if (0 <=? c) && (c <? max_cpus) && frame_ok k (cw g) ph 0 then
        '(r, w') ← alloc_section k numa_zero max_cpus c (phase_of g c) (Some (ph, 0)) (cw g);
        sections k max_cpus c ph n (after c r w' g)
      else None
  end.

Lemma sections_reachable k max_cpus c ph n g g' : sections k max_cpus c ph n g = Some g' ->
  rtc (client_step k numa_zero max_cpus) g g'.
Proof.
  revert g. induction n as [|n IH]; intros g; simpl; [by intros [= ->]|].
  destruct (_ && _) eqn:Hb; [|done]. rewrite !andb_true_iff, Z.leb_le, Z.ltb_lt in Hb.
  destruct (alloc_section _ _ _ _ _ _ _) as [[r w']|] eqn:Ea; simpl; [|done]. intros Hr.
  destruct Hb as [Hc Hf]. eapply rtc_l; [|by apply IH].
  apply (step_alloc _ _ _ c (Some (ph, 0)) r w'); [lia|intros _; by apply frame_ok_fresh|done].
Qed.

(** One allocation on CPU 0, of a fresh slab, and the first sections of another
    on CPU 1: one object is held and one allocation is under way. *)
Definition demo_cache : kmem_cache := example_cache 64.
Definition one_held : option config :=
  g ← sections demo_cache 2 0 1048576 21 (initial 2);
  sections demo_cache 2 1 2097152 2 g.

Definition the_object (g : config) : Z := hd 0 (base.elements (held g)).

Lemma slub_client_safe_witness :
  exists g, one_held = Some g /\ base.elements (held g) = [the_object g] /\ the_object g <> 0 /\
    is_Some (slabs (cw g) !! slab_of demo_cache (the_object g)) /\ phase_of g 1 = OwnPartial /\
    live_objects (cw g) = 1 /\ is_Some (kmem_free demo_cache 0 (the_object g) (cw g)) /\
    exists r w', alloc_section demo_cache numa_zero 2 0 Entry None (cw g) = Some (r, w').
Proof.
  destruct one_held as [g|] eqn:Eg; [|vm_compute in Eg; discriminate]. exists g.
  assert (Hr : rtc (client_step demo_cache numa_zero 2) (initial 2) g).
  { unfold one_held in Eg. destruct (sections _ 2 0 _ _ _) as [g0|] eqn:E0; [|done]. cbn [mbind option_bind] in Eg.
    transitivity g0; eapply sections_reachable; eassumption. }
  destruct (slub_client_safe demo_cache numa_zero 2 example_64_ok ltac:(done) ltac:(done) g Hr) as (H1 & H2 & _ & H4).
  assert (Hall : (base.elements (held g), bool_decide (is_Some (slabs (cw g) !! slab_of demo_cache (the_object g))),
                  phase_of g 1, phase_of g 0) = ([the_object g], true, OwnPartial, Entry) /\ the_object g <> 0).
  { clear -Eg. vm_compute in Eg. injection Eg as <-. split; [by vm_compute|by vm_compute]. }
  destruct Hall as [[= Hel Hs Hp1 Hp0] Hne]. split_and!; [done|done|done|by apply bool_decide_eq_true in Hs|done|..].
  - assert (Hlen : forall X : gset Z, base.size X = length (base.elements X)) by done. by rewrite H4, Hlen, Hel.
  - apply (H2 0 (the_object g)); [lia|]. apply base.elem_of_elements. rewrite Hel. by left.
  - destruct (H1 0 None ltac:(lia) ltac:(by rewrite Hp0)) as (r & w' & E & _). rewrite Hp0 in E. eauto.
Defined.

(** The object is freed again: a slab is left, and no object is held. *)
Definition none_held : option config :=
  g ← sections demo_cache 2 0 1048576 21 (initial 2);
  w ← kmem_free demo_cache 0 (the_object g) (cw g);
  Some (Config w (cph g) (held g ∖ {[ the_object g ]})).

Lemma destroy_releases_all_witness :
  exists g w', none_held = Some g /\ base.size (slabs (cw g)) = 1%nat /\
    kmem_cache_destroy demo_cache 2 (fun _ => true) (cw g) = Some w' /\ slabs w' = ∅ /\
    forall b, is_Some (slabs (cw g) !! b) -> frame_of demo_cache b ∈ released w'.
Proof.
  destruct none_held as [g|] eqn:Eg; [|vm_compute in Eg; discriminate]. exists g.
  assert (Hr : rtc (client_step demo_cache numa_zero 2) (initial 2) g).
  { unfold none_held in Eg. destruct (sections _ 2 0 _ _ _) as [g0|] eqn:E0; [|done]. cbn [mbind option_bind] in Eg.
    destruct (kmem_free _ _ _ _) as [w|] eqn:Ef; [|done]. injection Eg as <-.
    eapply rtc_r; [by eapply sections_reachable|].
    assert (Eh : bool_decide (the_object g0 ∈ held g0) = true).
    { clear -E0. vm_compute in E0. injection E0 as <-. by vm_compute. }
    apply (step_free _ _ _ 0); [lia|by apply bool_decide_eq_true in Eh|exact Ef]. }
  assert (Hh : held g = ∅ /\ base.size (slabs (cw g)) = 1%nat).
  { clear -Eg. vm_compute in Eg. injection Eg as <-. split; by vm_compute. }
  destruct (destroy_releases_all demo_cache numa_zero 2 (fun _ => true) g example_64_ok ltac:(by vm_compute) ltac:(lia) Hr (proj1 Hh)
    ltac:(by intros)) as (w' & H1 & H2 & H3).
  exists w'. split_and!; [done|apply Hh|exact H1|exact H2|exact H3].
Defined.

(** ** Outside these conditions *)

(** A cache whose slabs hold one object: freeing an object while its node
    already lists more than [SLUB_MAX_PARTIAL] slabs traps, because
    [free_slow] unlinks the emptied slab, which was full and on no list. *)
Theorem single_object_free_traps k max_cpus w G o c :
  cache_ok k -> objects_per_slab k = 1 -> inv k max_cpus None w G -> 0 <= c < max_cpus ->
  live k G o -> pl G (slab_of k o) = Some PFull ->
  SLUB_MAX_PARTIAL < nr_partial (node w (node_of w (slab_of k o))) ->
  kmem_free k c o w = None.
Proof.
  intros Hk Hone Hi Hc Hl Hpl Hnr. destruct (live_slab k max_cpus Hk w G o Hi Hl) as (s & Hb & Ho & Hn).
  destruct (inv_slab _ _ _ _ _ _ _ Hi Hb) as [_ Hok].
  pose proof (obj_pos k Hk _ o (so_addr _ _ _ _ _ _ Hok) Ho) as Ho0.
  rewrite (pl_Some _ _ _ Hb) in Hpl. injection Hpl as Hp.
  pose proof (so_place _ _ _ _ _ _ Hok) as Hpl. rewrite Hp in Hpl. destruct Hpl as [Hsf Hcf].
  pose proof (so_inuse _ _ _ _ _ _ Hok) as Hin. rewrite Hsf, Hcf in Hin. simpl in Hin.
  assert (Hu : inuse (hdr w (slab_of k o)) = 1) by lia.
  unfold kmem_free. destruct (Z.eqb_spec o 0) as [|_]; [done|].
  destruct (Z.eqb_spec (slab_of k o) (c_slab (cpu w c))) as [E|_].
  { exfalso. pose proof (inv_cpu _ _ _ _ _ _ Hi Hc) as Hco.
    assert (Hact : pl G (slab_of k o) = Some (PActive c)).
    { apply (co_active _ _ _ _ Hco). split; [done|]. apply (slab_at_pos k Hk), Hok. }
    rewrite (pl_Some _ _ _ Hb), Hp in Hact. done. }
  unfold free_slow. set (b := slab_of k o) in *. set (w0 := add_live _ _).
  change (node_of w0 b) with (node_of w b). autorewrite with slub. simpl inuse. simpl frozen.
  change (hdr w0 b) with (hdr w b). rewrite Hu. simpl (1 =? 0). simpl (1 - 1 =? 0).
  rewrite (so_frozen _ _ _ _ _ _ Hok), Hp by congruence. cbn [is_frozen negb andb].
  change (node (set_fp k o (freelist (hdr w b)) w0)) with (node w).
  destruct (Z.ltb_spec SLUB_MAX_PARTIAL (nr_partial (node w (node_of w b)))) as [_|]; [|lia].
  unfold node_remove_partial. autorewrite with slub. simpl on_node_partial.
  change (hdr w0 b) with (hdr w b). rewrite (so_listed _ _ _ _ _ _ Hok), Hp. done.
Qed.

(** Concrete runs on one CPU: allocate [n] objects, with frames from [ph] up. *)
Fixpoint allocs (k : kmem_cache) (n : nat) (ph : Z) (w : world) : option (list Z * world) :=
  match n with
  | O => Some ([], w)
  | S n =>
      '(o, w) ← kmem_alloc k numa_zero 1 0 (Some (ph, 0)) w;
      '(l, w) ← allocs k n (ph + slab_bytes (order k)) w;
      Some (o :: l, w)
  end.

(** Free the objects in turn; the number freed before a trap. *)
Fixpoint frees (k : kmem_cache) (l : list Z) (w : world) : nat :=
  match l with
  | [] => O
  | o :: l => match kmem_free k 0 o w with Some w => S (frees k l w) | None => O end
  end.

(** The [kmalloc] class of 2048 bytes has one object per slab: of 23 objects
    allocated and then freed, the 22nd free traps. *)
Theorem kmalloc_2048_traps :
  objects_per_slab (example_cache 2048) = 1 /\
  (p ← allocs (example_cache 2048) 23 1048576 (world_zero 1);
   Some (frees (example_cache 2048) p.1 p.2)) = Some 21%nat.
Proof. by vm_compute. Qed.

(** An allocation on CPU 0 interrupted after it retired the active slab, by
    another allocation on the same CPU. *)
Definition interrupted_alloc (k : kmem_cache) : option (Z * list Z) :=
  w ← deactivate_cpu_slab k 0 (world_zero 1);
  '(o1, w) ← kmem_alloc k numa_zero 1 0 (Some (1048576, 0)) w;
  '(o2, w) ← refill k numa_zero 1 0 (Some (1052672, 0)) w;
  w ← kmem_free k 0 o1 w;
  w ← kmem_free k 0 o2 w;
  w' ← kmem_cache_destroy k 1 (fun _ => true) w;
  Some (live_objects w, phys <$> (map_to_list (slabs w')).*2).

(** The slab of the interrupting allocation is overwritten as the active slab
    and belongs to nobody: after both objects are freed and the cache is
    destroyed, its frame has not been given back. *)
Theorem reentrant_alloc_leaks : interrupted_alloc (example_cache 64) = Some (0, [1048576]).
Proof. by vm_compute. Qed.

(** An alignment below 8 is accepted although a free pointer takes 8 bytes:
    the free pointer of an object overlaps the next object. *)
Theorem small_objects_overlap b :
  let k := example_cache 4 in
  2 <= objects_per_slab k /\ object k b 1 < object k b 0 + 8.
Proof. cbv zeta. split; [by vm_compute|]. unfold object. vm_compute (size _). lia. Qed.
