(* ===== verification/RbTree.v ===== *)
(** * Red-black trees ([src/lib/rbtree.cxxm])

    The intrusive tree of the kernel at the level of its pointers.  Memory is a
    finite map from addresses to nodes; a node is its two child pointers and a
    word that packs the parent pointer with the colour in bit 0.  An operation
    is a function on memory and the root pointer; [None] is the dereference of
    an address that holds no node (null in particular), or a loop that ran out
    of fuel.

    The code spells out every rebalancing case for a left and for a right child;
    the two copies are mirror images, so they are one definition here with the
    side as an argument ([true] is left).  The augmentation callbacks are those
    of [rb_augment_none], the only policy in the repository: they do nothing. *)

From S2P Require Import Prelude.

(** ** Nodes *)

Definition RB_RED : Z := 0.
Definition RB_BLACK : Z := 1.

Record rb_node := RbNode { rb_word : Z; rb_left : Z; rb_right : Z }.

Record rb_state := RbState { rb_mem : gmap Z rb_node; rb_root : Z }.

(** A computation on the state. *)
Definition R (A : Type) : Type := rb_state -> option (A * rb_state).
#[global] Instance R_ret : MRet R := fun A a s => Some (a, s).
#[global] Instance R_bind : MBind R := fun A B f m s =>
  match m s with Some (a, s') => f a s' | None => None end.

Definition stuck {A} : R A := fun _ => None.
(** [*p] and [p->f = v]. *)
Definition load (p : Z) : R rb_node := fun s =>
  match rb_mem s !! p with Some n => Some (n, s) | None => None end.
Definition store (p : Z) (n : rb_node) : R unit := fun s =>
  match rb_mem s !! p with
  | Some _ => Some (tt, RbState (<[p := n]> (rb_mem s)) (rb_root s))
  | None => None
  end.
Definition get_root : R Z := fun s => Some (rb_root s, s).
Definition set_root (p : Z) : R unit := fun s => Some (tt, RbState (rb_mem s) p).

(** ** Parent and colour *)

Definition word_parent (w : Z) : Z := Z.land w (Z.lxor U64_MAX 3).
Definition word_color (w : Z) : Z := Z.land w 1.

Definition rb_parent (p : Z) : R Z := n ← load p; mret (word_parent (rb_word n)).
Definition rb_color (p : Z) : R Z := n ← load p; mret (word_color (rb_word n)).
Definition rb_is_red (p : Z) : R bool := c ← rb_color p; mret (c =? 0).
Definition rb_is_black (p : Z) : R bool := c ← rb_color p; mret (negb (c =? 0)).

Definition set_word (p w : Z) : R unit :=
  n ← load p; store p (RbNode w (rb_left n) (rb_right n)).
Definition rb_set_parent (p q : Z) : R unit :=
  n ← load p; set_word p (Z.lor (Z.land (rb_word n) 1) q).
Definition rb_set_color (p c : Z) : R unit :=
  n ← load p; set_word p (Z.lor (Z.land (rb_word n) (Z.lxor U64_MAX 1)) c).
Definition rb_set_parent_color (p q c : Z) : R unit := set_word p (Z.lor q c).

(** The child on a side. *)
Definition child (d : bool) (n : rb_node) : Z := if d then rb_left n else rb_right n.
Definition set_child (d : bool) (p v : Z) : R unit :=
  n ← load p;
  store p (if d then RbNode (rb_word n) v (rb_right n) else RbNode (rb_word n) (rb_left n) v).
(** [if (c) rb_set_parent(c, p)]. *)
Definition adopt (c p : Z) : R unit := if c =? 0 then mret tt else rb_set_parent c p.

(** The link that holds [old] (a child pointer of [p], or the root) is set to
    [new]. *)
Definition relink (p old new : Z) : R unit :=
  if p =? 0 then set_root new
  else n ← load p; set_child (rb_left n =? old) p new.

(** ** Insertion *)

(** [rb_link_node]: the link is the child on side [d] of [parent], or the root. *)
Definition rb_link_node (node parent : Z) (d : bool) : R unit :=
  _ ← store node (RbNode (Z.lor parent RB_RED) 0 0);
  if parent =? 0 then set_root node else set_child d parent node.

Definition rb_rotate_set_parents (old_n new_n color : Z) : R unit :=
  p ← rb_parent old_n;
  o ← load old_n;
  _ ← set_word new_n (rb_word o);
  _ ← rb_set_parent_color old_n new_n color;
  relink p old_n new_n.

(** Case 4 of the insertion: one or two rotations. *)
Definition insert_rotate (d : bool) (node parent gparent : Z) : R unit :=
  p ← load parent;
  parent ← (if node =? child (negb d) p then
              n ← load node;
              _ ← set_child (negb d) parent (child d n);
              _ ← adopt (child d n) parent;
              _ ← set_child d node parent;
              _ ← rb_set_parent parent node;
              mret node
            else mret parent);
  p ← load parent;
  _ ← set_child d gparent (child (negb d) p);
  _ ← adopt (child (negb d) p) gparent;
  _ ← set_child (negb d) parent gparent;
  rb_rotate_set_parents gparent parent RB_RED.

Fixpoint insert_color (fuel : nat) (node parent : Z) : R unit :=
  match fuel with
  | O => stuck
  | S fuel =>
      if parent =? 0 then rb_set_parent_color node 0 RB_BLACK
      else
        black ← rb_is_black parent;
        if (black : bool) then mret tt
        else
          gparent ← rb_parent parent;
          g ← load gparent;
          let d := parent =? rb_left g in
          let uncle := child (negb d) g in
          red ← (if uncle =? 0 then mret false else rb_is_red uncle);
          if (red : bool) then
            _ ← rb_set_parent_color uncle gparent RB_BLACK;
            _ ← rb_set_parent_color parent gparent RB_BLACK;
            gg ← rb_parent gparent;
            _ ← rb_set_parent_color gparent gg RB_RED;
            up ← rb_parent gparent;
            insert_color fuel gparent up
          else insert_rotate d node parent gparent
  end.

Definition rb_insert_color (fuel : nat) (node : Z) : R unit :=
  parent ← rb_parent node; insert_color fuel node parent.

(** ** Erasure *)

Definition is_black_or_null (p : Z) : R bool := if p =? 0 then mret true else rb_is_black p.

(** Case 1: a red sibling moves above the parent; the new sibling is returned. *)
Definition erase_red_sibling (d : bool) (parent sibling : Z) : R Z :=
  red ← (if sibling =? 0 then mret false else rb_is_red sibling);
  if (red : bool) then
    s ← load sibling;
    _ ← set_child (negb d) parent (child d s);
    _ ← adopt (child d s) parent;
    _ ← set_child d sibling parent;
    _ ← rb_rotate_set_parents parent sibling RB_RED;
    p ← load parent;
    mret (child (negb d) p)
  else mret sibling.

(** Cases 3 and 4, where a nephew is red. *)
Definition erase_rotate (d : bool) (parent sibling : Z) : R unit :=
  s ← load sibling;
  far_black ← is_black_or_null (child (negb d) s);
  sibling ← (if (far_black : bool) then
               let near := child d s in
               n ← load near;
               _ ← set_child d sibling (child (negb d) n);
               _ ← adopt (child (negb d) n) sibling;
               _ ← set_child (negb d) near sibling;
               _ ← rb_set_parent sibling near;
               _ ← set_child (negb d) parent near;
               _ ← rb_set_parent near parent;
               mret near
             else mret sibling);
  s ← load sibling;
  _ ← set_child (negb d) parent (child d s);
  _ ← adopt (child d s) parent;
  _ ← set_child d sibling parent;
  s ← load sibling;
  _ ← rb_set_color (child (negb d) s) RB_BLACK;
  rb_rotate_set_parents parent sibling RB_BLACK.

Fixpoint rb_erase_fixup (fuel : nat) (node parent : Z) : R unit :=
  match fuel with
  | O => stuck
  | S fuel =>
      red ← (if node =? 0 then mret false else rb_is_red node);
      if (red : bool) then rb_set_color node RB_BLACK
      else if parent =? 0 then mret tt
      else
        p ← load parent;
        let d := node =? rb_left p in
        sibling ← erase_red_sibling d parent (child (negb d) p);
        s ← load sibling;
        sl_black ← is_black_or_null (rb_left s);
        sr_black ← is_black_or_null (rb_right s);
        if (sl_black : bool) && (sr_black : bool) then
          _ ← rb_set_color sibling RB_RED;
          up ← rb_parent parent;
          rb_erase_fixup fuel parent up
        else erase_rotate d parent sibling
  end.

(** The leftmost ([true]) or rightmost node below [p]. *)
Fixpoint descend (fuel : nat) (d : bool) (p : Z) : R Z :=
  match fuel with
  | O => stuck
  | S fuel => n ← load p; if child d n =? 0 then mret p else descend fuel d (child d n)
  end.

(** A node with one child at most: its place goes to the child. *)
Definition splice (node c : Z) : R (Z * Z * Z) :=
  parent ← rb_parent node;
  color ← rb_color node;
  _ ← adopt c parent;
  _ ← relink parent node c;
  mret (c, parent, color).

(** A node with two children: its place goes to its successor. *)
Definition erase_two (fuel : nat) (node : Z) : R (Z * Z * Z) :=
  n ← load node;
  successor ← descend fuel true (rb_right n);
  s ← load successor;
  let c := rb_right s in
  parent ← rb_parent successor;
  color ← rb_color successor;
  _ ← adopt c parent;
  parent ← (if parent =? node then
              _ ← set_child false successor c;
              mret successor
            else
              _ ← set_child true parent c;
              n ← load node;
              _ ← set_child false successor (rb_right n);
              _ ← rb_set_parent (rb_right n) successor;
              mret parent);
  n ← load node;
  _ ← set_child true successor (rb_left n);
  _ ← rb_set_parent (rb_left n) successor;
  np ← rb_parent node;
  n ← load node;
  _ ← set_word successor (rb_word n);
  _ ← relink np node successor;
  mret (c, parent, color).

Definition rb_erase (fuel : nat) (node : Z) : R unit :=
  n ← load node;
  '(c, parent, color) ←
    (if rb_left n =? 0 then splice node (rb_right n)
     else if rb_right n =? 0 then splice node (rb_left n)
     else erase_two fuel node);
  if color =? RB_BLACK then rb_erase_fixup fuel c parent else mret tt.

(** ** Traversal *)

(** [rb_first] and [rb_last]. *)
Definition rb_end (fuel : nat) (d : bool) : R Z :=
  p ← get_root; if p =? 0 then mret 0 else descend fuel d p.
Definition rb_first (fuel : nat) : R Z := rb_end fuel true.
Definition rb_last (fuel : nat) : R Z := rb_end fuel false.

(** Walk up while [node] is the child on side [d] of [parent]. *)
Fixpoint ascend (fuel : nat) (d : bool) (node parent : Z) : R Z :=
  match fuel with
  | O => stuck
  | S fuel =>
      if parent =? 0 then mret 0
      else
        p ← load parent;
        if node =? child d p then
          up ← rb_parent parent; ascend fuel d parent up
        else mret parent
  end.

(** [rb_next] ([d = false]) and [rb_prev] ([d = true]). *)
Definition rb_step (fuel : nat) (d : bool) (node : Z) : R Z :=
  if node =? 0 then mret 0
  else
    n ← load node;
    if child d n =? 0 then
      parent ← rb_parent node; ascend fuel d node parent
    else descend fuel (negb d) (child d n).
Definition rb_next (fuel : nat) (node : Z) : R Z := rb_step fuel false node.
Definition rb_prev (fuel : nat) (node : Z) : R Z := rb_step fuel true node.

(** [__rb_count] is structural on the tree; the fuel bounds its depth. *)
Fixpoint count_nodes (fuel : nat) (p : Z) : R Z :=
  match fuel with
  | O => stuck
  | S fuel =>
      if p =? 0 then mret 0
      else
        n ← load p;
        l ← count_nodes fuel (rb_left n);
        r ← count_nodes fuel (rb_right n);
        mret (u32 (1 + l + r))
  end.
Definition rb_count (fuel : nat) : R Z := p ← get_root; count_nodes fuel p.

(** ** Replacement *)

Definition rb_replace_node (old_node new_node : Z) : R unit :=
  parent ← rb_parent old_node;
  o ← load old_node;
  _ ← store new_node o;
  _ ← adopt (rb_left o) new_node;
  _ ← adopt (rb_right o) new_node;
  relink parent old_node new_node.

(** ** Search and insertion by key *)

Section keyed.
  (** [cmp(node, key)]. *)
  Context (cmp : Z -> Z).

Fixpoint lower_bound (fuel : nat) (p best : Z) : R Z :=
  match fuel with
  | O => stuck
  | S fuel =>
      if p =? 0 then mret best
      else
        n ← load p;
        if 0 <=? cmp p then lower_bound fuel (rb_left n) p
        else lower_bound fuel (rb_right n) best
  end.
Definition rb_lower_bound (fuel : nat) : R Z := p ← get_root; lower_bound fuel p 0.

Definition rb_find_key (fuel : nat) : R Z :=
  lb ← rb_lower_bound fuel;
  mret (if negb (lb =? 0) && (cmp lb =? 0) then lb else 0).

(** The walk of [rb_insert] and [rb_insert_cached]: parent, side of the link and
    whether the place is leftmost. *)
Fixpoint insert_place (fuel : nat) (p parent : Z) (d leftmost : bool) : R (Z * bool * bool) :=
  match fuel with
  | O => stuck
  | S fuel =>
      if p =? 0 then mret (parent, d, leftmost)
      else
        n ← load p;
        if 0 <? cmp p then insert_place fuel (rb_left n) p true leftmost
        else insert_place fuel (rb_right n) p false false
  end.

Definition rb_insert (fuel : nat) (node : Z) : R unit :=
  p ← get_root;
  '(parent, d, _) ← insert_place fuel p 0 true true;
  _ ← rb_link_node node parent d;
  rb_insert_color fuel node.
End keyed.

Definition rb_cmp (a b : Z) : Z := if a <? b then -1 else if b <? a then 1 else 0.

(** ** Cached leftmost node *)

Definition rb_insert_color_cached (fuel : nat) (node leftmost : Z) (is_leftmost : bool) : R Z :=
  _ ← rb_insert_color fuel node; mret (if is_leftmost then node else leftmost).

Definition rb_erase_cached (fuel : nat) (node leftmost : Z) : R Z :=
  leftmost ← (if leftmost =? node then rb_next fuel node else mret leftmost);
  _ ← rb_erase fuel node;
  mret leftmost.

Definition rb_replace_node_cached (old_node new_node leftmost : Z) : R Z :=
  _ ← rb_replace_node old_node new_node;
  mret (if leftmost =? old_node then new_node else leftmost).

Definition rb_insert_cached (cmp : Z -> Z) (fuel : nat) (node leftmost : Z) : R Z :=
  p ← get_root;
  '(parent, d, is_leftmost) ← insert_place cmp fuel p 0 true true;
  _ ← rb_link_node node parent d;
  rb_insert_color_cached fuel node leftmost is_leftmost.
