(* ===== verification/RbSep.v ===== *)
(** * Separation logic for red-black trees

    Assertions are those of Iris over a heap of nodes; [wp m r Q] says that [m],
    started with root pointer [r], returns normally with [Q] of its result and
    the new root.  A coloured tree [t] whose root hangs below [q] owns its nodes
    ([tree_at q t]); a context [k] (the path from a position of a tree to its
    root with the subtrees beside it) owns the rest ([ctx_at k p]), where [p] is
    the pointer that fills the position. *)

From iris.proofmode Require Import proofmode.
From iris.base_logic.lib Require Import gen_heap.
From S2P Require Import Prelude RbTree.

(** ** Packed words *)

Definition is_addr (p : Z) : Prop := 0 < p < 2 ^ 64 /\ p mod 4 = 0.
Definition is_ptr (p : Z) : Prop := p = 0 \/ is_addr p.

Definition col (black : bool) : Z := if black then RB_BLACK else RB_RED.
Definition pack (p : Z) (black : bool) : Z := Z.lor p (col black).

Lemma ptr_low p n : is_ptr p -> 0 <= n < 2 -> Z.testbit p n = false.
Proof.
  intros Hp Hn. assert (p mod 2 ^ 2 = 0) as H by (destruct Hp as [->|[_ ?]]; done).
  rw -(Z.mod_pow2_bits_low p 2 n); [|lia]. by rw H Z.bits_0.
Qed.
Lemma ptr_high p n : is_ptr p -> 64 <= n -> Z.testbit p n = false.
Proof.
  intros Hp Hn. assert (p mod 2 ^ 64 = p) as <-.
  { apply Z.mod_small. destruct Hp as [->|[? _]]; lia. }
  apply Z.mod_pow2_bits_high. lia.
Qed.
Lemma col_high b n : 1 <= n -> Z.testbit (col b) n = false.
Proof.
  intros Hn. rw -(Z.mod_small (col b) (2 ^ 1)); [|by destruct b].
  apply Z.mod_pow2_bits_high. lia.
Qed.
Lemma word_mask_bit m k n : 0 <= n -> 0 <= k < 64 -> m = Z.ones k ->
  Z.testbit (Z.lxor U64_MAX m) n = (k <=? n) && (n <? 64).
Proof.
  intros Hn Hk ->. change U64_MAX with (Z.ones 64). rw Z.lxor_spec !Z.testbit_ones_nonneg; try lia.
  destruct (Z.ltb_spec n 64), (Z.ltb_spec n k), (Z.leb_spec k n); simpl; done || lia.
Qed.

(** Bits of words, decided at each position. *)
Ltac word_bits :=
  apply Z.bits_inj'; intros n Hn; unfold pack;
  rw ?Z.lor_spec ?Z.land_spec ?Z.lor_spec ?Z.land_spec.

Lemma word_parent_pack p b : is_ptr p -> word_parent (pack p b) = p.
Proof.
  intros Hp. unfold word_parent. word_bits. rw (word_mask_bit 3 2); [|lia..|done].
  destruct (Z.leb_spec 2 n), (Z.ltb_spec n 64); simpl; rw ?andb_true_r ?andb_false_r.
  - rw (col_high b n) ?orb_false_r; [done|lia].
  - rw (ptr_high p n) //; lia.
  - rw (ptr_low p n) //; lia.
  - rw (ptr_low p n) //; lia.
Qed.
Lemma word_color_pack p b : is_ptr p -> word_color (pack p b) = col b.
Proof.
  intros Hp. unfold word_color. word_bits. change 1 with (Z.ones 1). rw Z.testbit_ones_nonneg; [|lia..].
  destruct (Z.ltb_spec n 1); rw ?andb_true_r ?andb_false_r.
  - rw (ptr_low p n) //; lia.
  - by rw col_high.
Qed.
Lemma set_parent_pack p q b : is_ptr p -> Z.lor (Z.land (pack p b) 1) q = pack q b.
Proof. intros Hp. fold (word_color (pack p b)). by rw word_color_pack // Z.lor_comm. Qed.
Lemma set_color_pack p b c : is_ptr p -> Z.lor (Z.land (pack p b) (Z.lxor U64_MAX 1)) (col c) = pack p c.
Proof.
  intros Hp. word_bits. rw (word_mask_bit 1 1); [|lia..|done].
  destruct (Z.leb_spec 1 n), (Z.ltb_spec n 64); simpl; rw ?andb_true_r ?andb_false_r.
  - by rw (col_high b n) ?orb_false_r.
  - rw (ptr_high p n) //; lia.
  - rw (ptr_low p n); [done|done|lia].
  - lia.
Qed.

(** ** Coloured trees and positions *)

Inductive ctree := CLeaf | CNode (black : bool) (l : ctree) (x : Z) (r : ctree).

Definition ptr (t : ctree) : Z := match t with CLeaf => 0 | CNode _ _ x _ => x end.
Definition is_red (t : ctree) : bool := match t with CNode false _ _ _ => true | _ => false end.
Fixpoint elements (t : ctree) : list Z :=
  match t with CLeaf => [] | CNode _ l x r => elements l ++ x :: elements r end.

(** The node with [a] on side [d] and [b] on the other. *)
Definition mk (d c : bool) (a : ctree) (x : Z) (b : ctree) : ctree :=
  if d then CNode c a x b else CNode c b x a.

(** A step of a path: the position is on side [f_side] of node [f_node]. *)
Record frame := Frame { f_side : bool; f_black : bool; f_node : Z; f_other : ctree }.

Definition plug1 (t : ctree) (f : frame) : ctree := mk (f_side f) (f_black f) t (f_node f) (f_other f).
(** Paths lead from the position up to the root. *)
Fixpoint plug (t : ctree) (k : list frame) : ctree :=
  match k with [] => t | f :: k => plug (plug1 t f) k end.
Definition top (k : list frame) : Z := match k with [] => 0 | f :: _ => f_node f end.

Lemma mk_cases d t : t = CLeaf \/ exists c a x b, t = mk d c a x b.
Proof.
  destruct t as [|c l x r]; [by left|right]. destruct d; [by exists c, l, x, r|by exists c, r, x, l].
Qed.
Lemma ptr_mk d c a x b : ptr (mk d c a x b) = x.
Proof. by destruct d. Qed.
Lemma is_red_mk d c a x b : is_red (mk d c a x b) = negb c.
Proof. by destruct d, c. Qed.

(** A node below [q] with children [a] on side [d] and [b] on the other. *)
Definition nd (d : bool) (q : Z) (c : bool) (a b : Z) : rb_node :=
  RbNode (pack q c) (if d then a else b) (if d then b else a).

Lemma nd_flip d q c a b : nd (negb d) q c a b = nd d q c b a.
Proof. by destruct d. Qed.
Lemma child_near d q c a b : child d (nd d q c a b) = a.
Proof. by destruct d. Qed.
Lemma child_far d q c a b : child (negb d) (nd d q c a b) = b.
Proof. by destruct d. Qed.
Lemma nd_word d q c a b : rb_word (nd d q c a b) = pack q c.
Proof. done. Qed.
Lemma side_test d q c a b : a <> b -> (a =? rb_left (nd d q c a b)) = d.
Proof. intros H. destruct d; simpl; [apply Z.eqb_refl|by apply Z.eqb_neq]. Qed.
Lemma side_test_sym d q c a b : a <> b -> (rb_left (nd d q c a b) =? a) = d.
Proof. intros H. rw Z.eqb_sym. by apply side_test. Qed.

Lemma addr_ptr p : is_addr p -> is_ptr p.
Proof. by right. Qed.
Lemma addr_nonzero p : is_addr p -> p <> 0.
Proof. unfold is_addr. lia. Qed.
Lemma addr_eqb p : is_addr p -> (p =? 0) = false.
Proof. intros H. apply Z.eqb_neq. by apply addr_nonzero. Qed.
#[export] Hint Resolve addr_ptr addr_nonzero : core.

(** ** Assertions *)

Notation "p ↦ n" := (pointsto p (DfracOwn 1) n) (at level 20, format "p  ↦  n") : bi_scope.

Section logic.
  Context `{!gen_heapGS Z rb_node Σ}.

Definition wp {A} (m : R A) (r : Z) (Q : A -> Z -> iProp Σ) : iProp Σ :=
  ∀ h, gen_heap_interp h ==∗
    ∃ a h' r', ⌜m (RbState h r) = Some (a, RbState h' r')⌝ ∗ gen_heap_interp h' ∗ Q a r'.

Lemma wp_ret {A} (a : A) r Q : Q a r ⊢ wp (mret a) r Q.
Proof. iIntros "HQ" (h) "Hh". iModIntro. iExists a, h, r. by iFrame. Qed.

Lemma wp_bind {A B} (m : R A) (f : A -> R B) r Q :
  wp m r (fun a r' => wp (f a) r' Q) ⊢ wp (m ≫= f) r Q.
Proof.
  iIntros "Hm" (h) "Hh". iMod ("Hm" with "Hh") as (a h' r' E) "[Hh Hf]".
  iMod ("Hf" with "Hh") as (b h'' r'' E') "[Hh HQ]". iModIntro. iExists b, h'', r''. iFrame.
  iPureIntro. unfold mbind, R_bind. by rw E.
Qed.

Lemma wp_load p n r Q : p ↦ n -∗ (p ↦ n -∗ Q n r) -∗ wp (load p) r Q.
Proof.
  iIntros "Hp HQ" (h) "Hh". iDestruct (gen_heap_valid with "Hh Hp") as %E. iModIntro.
  iExists n, h, r. iFrame. iSplit; [|by iApply "HQ"]. iPureIntro. unfold load. simpl. by rw E.
Qed.

Lemma wp_store p n n' r Q : p ↦ n -∗ (p ↦ n' -∗ Q tt r) -∗ wp (store p n') r Q.
Proof.
  iIntros "Hp HQ" (h) "Hh". iDestruct (gen_heap_valid with "Hh Hp") as %E.
  iMod (gen_heap_update with "Hh Hp") as "[Hh Hp]". iModIntro.
  iExists tt, _, r. iFrame. iSplit; [|by iApply "HQ"]. iPureIntro. unfold store. simpl. by rw E.
Qed.

Lemma wp_get_root r Q : Q r r ⊢ wp get_root r Q.
Proof. iIntros "HQ" (h) "Hh". iModIntro. iExists r, h, r. by iFrame. Qed.
Lemma wp_set_root p r Q : Q tt p ⊢ wp (set_root p) r Q.
Proof. iIntros "HQ" (h) "Hh". iModIntro. iExists tt, h, p. by iFrame. Qed.

Lemma wp_mono {A} (m : R A) r (Q Q' : A -> Z -> iProp Σ) :
  (∀ a r', Q a r' -∗ Q' a r') -∗ wp m r Q -∗ wp m r Q'.
Proof.
  iIntros "HQ Hm" (h) "Hh". iMod ("Hm" with "Hh") as (a h' r' E) "[Hh Ha]". iModIntro.
  iExists a, h', r'. iFrame. iSplit; [done|]. by iApply "HQ".
Qed.

(** *** Fields of a node *)

Section node.
  Context (p q : Z) (d c : bool) (a b r : Z).

Lemma wp_rb_parent Q : is_ptr q ->
  p ↦ nd d q c a b -∗ (p ↦ nd d q c a b -∗ Q q r) -∗ wp (rb_parent p) r Q.
Proof.
  iIntros (Hq) "Hp HQ". iApply wp_bind. iApply (wp_load with "Hp"). iIntros "Hp". iApply wp_ret.
  rw nd_word word_parent_pack //. by iApply "HQ".
Qed.
Lemma wp_rb_color Q : is_ptr q ->
  p ↦ nd d q c a b -∗ (p ↦ nd d q c a b -∗ Q (col c) r) -∗ wp (rb_color p) r Q.
Proof.
  iIntros (Hq) "Hp HQ". iApply wp_bind. iApply (wp_load with "Hp"). iIntros "Hp". iApply wp_ret.
  rw nd_word word_color_pack //. by iApply "HQ".
Qed.
Lemma wp_is_red Q : is_ptr q ->
  p ↦ nd d q c a b -∗ (p ↦ nd d q c a b -∗ Q (negb c) r) -∗ wp (rb_is_red p) r Q.
Proof.
  iIntros (Hq) "Hp HQ". iApply wp_bind. iApply (wp_rb_color with "Hp"); [done|]. iIntros "Hp". iApply wp_ret.
  destruct c; by iApply "HQ".
Qed.
Lemma wp_is_black Q : is_ptr q ->
  p ↦ nd d q c a b -∗ (p ↦ nd d q c a b -∗ Q c r) -∗ wp (rb_is_black p) r Q.
Proof.
  iIntros (Hq) "Hp HQ". iApply wp_bind. iApply (wp_rb_color with "Hp"); [done|]. iIntros "Hp". iApply wp_ret.
  destruct c; by iApply "HQ".
Qed.
Lemma wp_set_word w Q :
  p ↦ nd d q c a b -∗
  (p ↦ RbNode w (rb_left (nd d q c a b)) (rb_right (nd d q c a b)) -∗ Q tt r) -∗ wp (set_word p w) r Q.
Proof.
  iIntros "Hp HQ". iApply wp_bind. iApply (wp_load with "Hp"). iIntros "Hp". by iApply (wp_store with "Hp").
Qed.
Lemma wp_set_pack q' c' Q :
  p ↦ nd d q c a b -∗ (p ↦ nd d q' c' a b -∗ Q tt r) -∗ wp (set_word p (pack q' c')) r Q.
Proof. iApply wp_set_word. Qed.
Lemma wp_set_parent q' Q : is_ptr q ->
  p ↦ nd d q c a b -∗ (p ↦ nd d q' c a b -∗ Q tt r) -∗ wp (rb_set_parent p q') r Q.
Proof.
  iIntros (Hq) "Hp HQ". iApply wp_bind. iApply (wp_load with "Hp"). iIntros "Hp".
  rw nd_word set_parent_pack //. by iApply (wp_set_pack with "Hp").
Qed.
Lemma wp_set_color c' Q : is_ptr q ->
  p ↦ nd d q c a b -∗ (p ↦ nd d q c' a b -∗ Q tt r) -∗ wp (rb_set_color p (col c')) r Q.
Proof.
  iIntros (Hq) "Hp HQ". iApply wp_bind. iApply (wp_load with "Hp"). iIntros "Hp".
  rw nd_word set_color_pack //. by iApply (wp_set_pack with "Hp").
Qed.
Lemma wp_set_parent_color q' c' Q :
  p ↦ nd d q c a b -∗ (p ↦ nd d q' c' a b -∗ Q tt r) -∗ wp (rb_set_parent_color p q' (col c')) r Q.
Proof. iApply wp_set_pack. Qed.
Lemma wp_set_near v Q :
  p ↦ nd d q c a b -∗ (p ↦ nd d q c v b -∗ Q tt r) -∗ wp (set_child d p v) r Q.
Proof.
  iIntros "Hp HQ". iApply wp_bind. iApply (wp_load with "Hp"). iIntros "Hp".
  destruct d; by iApply (wp_store with "Hp").
Qed.
Lemma wp_set_far v Q :
  p ↦ nd d q c a b -∗ (p ↦ nd d q c a v -∗ Q tt r) -∗ wp (set_child (negb d) p v) r Q.
Proof.
  iIntros "Hp HQ". iApply wp_bind. iApply (wp_load with "Hp"). iIntros "Hp".
  destruct d; by iApply (wp_store with "Hp").
Qed.
End node.

(** *** Trees and contexts *)

Fixpoint tree_at (q : Z) (t : ctree) : iProp Σ :=
  match t with
  | CLeaf => emp
  | CNode c l x r => ⌜is_addr x⌝ ∗ x ↦ nd true q c (ptr l) (ptr r) ∗ tree_at x l ∗ tree_at x r
  end.

Fixpoint ctx_at (k : list frame) (p r : Z) : iProp Σ :=
  match k with
  | [] => ⌜r = p⌝
  | Frame d c x o :: k =>
      ⌜is_addr x⌝ ∗ x ↦ nd d (top k) c p (ptr o) ∗ tree_at x o ∗ ctx_at k x r
  end.

Lemma tree_at_mk q d c a x b :
  tree_at q (mk d c a x b) ⊣⊢ ⌜is_addr x⌝ ∗ x ↦ nd d q c (ptr a) (ptr b) ∗ tree_at x a ∗ tree_at x b.
Proof. destruct d; simpl; [done|]. iSplit; iIntros "($ & $ & $ & $)". Qed.

Lemma ctx_top k p r : ctx_at k p r ⊢ ⌜is_ptr (top k)⌝.
Proof. destruct k as [|[d c x o] k]; simpl; [iIntros; iPureIntro; by left|]. iIntros "(% & _)". auto. Qed.

Lemma plug_at k t r :
  tree_at (top k) t ∗ ctx_at k (ptr t) r ⊣⊢ tree_at 0 (plug t k) ∗ ⌜r = ptr (plug t k)⌝.
Proof.
  revert t. induction k as [|[d c x o] k IH]; intros t; simpl; [done|].
  rw -IH /plug1 /= tree_at_mk ptr_mk. iSplit; [iIntros "($ & $ & $ & $ & $)"|iIntros "(($ & $ & $ & $) & $)"].
Qed.

Lemma plug_up k t r :
  tree_at (top k) t -∗ ctx_at k (ptr t) r -∗ tree_at 0 (plug t k) ∗ ⌜r = ptr (plug t k)⌝.
Proof. iIntros "Ht Hk". iApply plug_at. iFrame. Qed.

(** Owned nodes are distinct. *)
Lemma ptr_ne x n q t : is_addr x -> x ↦ n -∗ tree_at q t -∗ ⌜x <> ptr t⌝.
Proof.
  iIntros (Hx) "Hx Ht". destruct t as [|c l y r]; simpl; [iPureIntro; auto|].
  iDestruct "Ht" as "(_ & Hy & _)". iApply (pointsto_ne with "Hx Hy").
Qed.

Lemma wp_adopt q q' t r Q : is_ptr q ->
  tree_at q t -∗ (tree_at q' t -∗ Q tt r) -∗ wp (adopt (ptr t) q') r Q.
Proof.
  iIntros (Hq) "Ht HQ". unfold adopt. destruct t as [|c l x rt]; simpl; [iApply wp_ret; by iApply "HQ"|].
  iDestruct "Ht" as "(%Hx & Hx & Hl & Hr)". rw addr_eqb //.
  iApply (wp_set_parent with "Hx"); [done|]. iIntros "Hx". iApply "HQ". by iFrame.
Qed.

Lemma wp_relink k old new n r Q : is_addr old ->
  ctx_at k old r -∗ old ↦ n -∗ (∀ r', ctx_at k new r' -∗ old ↦ n -∗ Q tt r') -∗
  wp (relink (top k) old new) r Q.
Proof.
  iIntros (Ho) "Hk Ho HQ". unfold relink. destruct k as [|[d c x o] k]; simpl.
  { iApply wp_set_root. iApply ("HQ" with "[] Ho"). done. }
  iDestruct "Hk" as "(%Hx & Hx & Ht & Hk)". rw addr_eqb //.
  iDestruct (ptr_ne with "Ho Ht") as %Hne; [done|].
  iApply wp_bind. iApply (wp_load with "Hx"). iIntros "Hx". rw side_test_sym //.
  iApply (wp_set_near with "Hx"). iIntros "Hx". iApply ("HQ" with "[-Ho] Ho"). by iFrame.
Qed.

Lemma wp_rotate_set_parents k d c a b d' q' c' a' b' old new color r Q : is_addr old ->
  old ↦ nd d (top k) c a b -∗ new ↦ nd d' q' c' a' b' -∗ ctx_at k old r -∗
  (∀ r', old ↦ nd d new color a b -∗ new ↦ nd d' (top k) c a' b' -∗ ctx_at k new r' -∗ Q tt r') -∗
  wp (rb_rotate_set_parents old new (col color)) r Q.
Proof.
  iIntros (Ho) "Ho Hn Hk HQ". iDestruct (ctx_top with "Hk") as %Htop.
  unfold rb_rotate_set_parents. iApply wp_bind. iApply (wp_rb_parent with "Ho"); [done|]. iIntros "Ho".
  iApply wp_bind. iApply (wp_load with "Ho"). iIntros "Ho". iApply wp_bind.
  iApply (wp_set_pack with "Hn"). iIntros "Hn". iApply wp_bind.
  iApply (wp_set_parent_color with "Ho"). iIntros "Ho".
  iApply (wp_relink with "Hk Ho"); [done|]. iIntros (r') "Hk Ho". iApply ("HQ" with "Ho Hn Hk").
Qed.
End logic.

(** ** Trees in memory *)

Fixpoint stored (h : gmap Z rb_node) (q : Z) (t : ctree) : Prop :=
  match t with
  | CLeaf => True
  | CNode c l x r =>
      is_addr x /\ h !! x = Some (nd true q c (ptr l) (ptr r)) /\ stored h x l /\ stored h x r
  end.

Lemma stored_frame h h' q t :
  (forall x, x ∈ elements t -> h' !! x = h !! x) -> stored h q t -> stored h' q t.
Proof.
  revert q. induction t as [|c l IHl x r IHr]; intros q Hx; simpl in *; [done|].
  intros (Ha & E & Hl & Hr). split_and!; [done| | |].
  - rw Hx //. apply elem_of_app. right. left.
  - apply IHl; [|done]. intros y Hy. apply Hx, elem_of_app. by left.
  - apply IHr; [|done]. intros y Hy. apply Hx, elem_of_app. right. by right.
Qed.

(** Memory without some addresses. *)
Definition without (l : list Z) (h : gmap Z rb_node) : gmap Z rb_node := foldr delete h l.

Lemma without_lookup l h y n : without l h !! y = Some n <-> y ∉ l /\ h !! y = Some n.
Proof.
  induction l as [|x l IH]; simpl; [set_solver|].
  rw lookup_delete_Some IH not_elem_of_cons. naive_solver.
Qed.
Lemma without_app l1 l2 h : without (l1 ++ l2) h = without l1 (without l2 h).
Proof. apply foldr_app. Qed.
Lemma without_eq l h y : y ∉ l -> without l h !! y = h !! y.
Proof.
  intros Hy. destruct (h !! y) as [n|] eqn:E; [by apply without_lookup|].
  destruct (without l h !! y) as [n|] eqn:E'; [|done]. apply without_lookup in E' as [_ ?]. congruence.
Qed.

Section memory.
  Context `{!gen_heapGS Z rb_node Σ}.

Lemma take_tree h q t :
  stored h q t -> NoDup (elements t) ->
  ([∗ map] p ↦ n ∈ h, p ↦ n) ⊢ tree_at q t ∗ [∗ map] p ↦ n ∈ without (elements t) h, p ↦ n.
Proof.
  revert h q. induction t as [|c l IHl x r IHr]; intros h q; simpl; [iIntros (_ _) "$"|].
  intros (Ha & E & Hl & Hr) (Hd1 & Hd2 & Hd3)%list.NoDup_app. apply list.NoDup_cons in Hd3 as [Hd3 Hd4].
  rw without_app /=. rw (IHr h x Hr Hd4). iIntros "[Hr Hm]". rw (big_sepM_delete _ (without _ h) x).
  2:{ rw without_eq //. }
  iDestruct "Hm" as "[Hx Hm]". rw (IHl _ x); [|..|done]; last first.
  { apply stored_frame with h; [|done]. intros y Hy. specialize (Hd2 y Hy). apply not_elem_of_cons in Hd2 as [? ?].
    rw lookup_delete_ne // without_eq //. }
  iDestruct "Hm" as "[$ $]". by iFrame.
Qed.

Lemma node_fresh x n q t : x ↦ n -∗ tree_at q t -∗ ⌜x ∉ elements t⌝.
Proof.
  revert q. induction t as [|c l IHl y r IHr]; intros q; simpl; [iIntros; iPureIntro; set_solver|].
  iIntros "Hx (_ & Hy & Hl & Hr)". iDestruct (pointsto_ne with "Hx Hy") as %?.
  iDestruct (IHl with "Hx Hl") as %?. iDestruct (IHr with "Hx Hr") as %?. iPureIntro. set_solver.
Qed.
Lemma trees_disjoint q q' t t' :
  tree_at q t -∗ tree_at q' t' -∗ ⌜forall x, x ∈ elements t -> x ∉ elements t'⌝.
Proof.
  revert q. induction t as [|c l IHl y r IHr]; intros q; simpl; [iIntros; iPureIntro; set_solver|].
  iIntros "(_ & Hy & Hl & Hr) Ht". iDestruct (node_fresh with "Hy Ht") as %?.
  iDestruct (IHl with "Hl Ht") as %?. iDestruct (IHr with "Hr Ht") as %?. iPureIntro. set_solver.
Qed.

Lemma tree_stored h q t : gen_heap_interp h -∗ tree_at q t -∗ ⌜stored h q t /\ NoDup (elements t)⌝.
Proof.
  revert q. induction t as [|c l IHl x r IHr]; intros q; simpl.
  { iIntros. iPureIntro. split; [done|constructor]. }
  iIntros "Hh (% & Hx & Hl & Hr)". iDestruct (gen_heap_valid with "Hh Hx") as %E.
  iDestruct (IHl with "Hh Hl") as %[? ?]. iDestruct (IHr with "Hh Hr") as %[? ?].
  iDestruct (node_fresh with "Hx Hl") as %?. iDestruct (node_fresh with "Hx Hr") as %?.
  iDestruct (trees_disjoint with "Hl Hr") as %?. iPureIntro. split; [done|].
  apply list.NoDup_app. split_and!; [done| |by apply list.NoDup_cons]. set_solver.
Qed.

Lemma rest_kept (m h' : gmap Z rb_node) :
  gen_heap_interp h' -∗ ([∗ map] p ↦ n ∈ m, p ↦ n) -∗ ⌜m ⊆ h'⌝.
Proof.
  iIntros "Hh Hm". rw map_subseteq_spec. iIntros (y n E). iDestruct (big_sepM_lookup with "Hm") as "Hy"; [done|].
  by iApply (gen_heap_valid with "Hh Hy").
Qed.
End memory.

(** A triple holds of the function itself. *)
Lemma wp_adequate {A} (m : R A) (h : gmap Z rb_node) (r : Z) (ψ : A -> rb_state -> Prop) :
  (forall Σ `{!gen_heapGS Z rb_node Σ},
     ([∗ map] p ↦ n ∈ h, p ↦ n) ⊢ wp m r (fun a r' => ∀ h', gen_heap_interp h' -∗ ⌜ψ a (RbState h' r')⌝)) ->
  exists a s', m (RbState h r) = Some (a, s') /\ ψ a s'.
Proof.
  intros Hm. set (Σ := #[gen_heapΣ Z rb_node]).
  apply (pure_soundness (PROP := iPropI Σ)). apply uPred.bupd_soundness; [apply _|].
  iMod (gen_heap_init (Σ := Σ) h) as (G) "(Hh & Hm & _)".
  iMod (Hm Σ G with "Hm Hh") as (a h' r' E) "[Hh HQ]". iDestruct ("HQ" with "Hh") as %HQ.
  iPureIntro. by exists a, (RbState h' r').
Qed.
