(* ===== verification/RbBal.v ===== *)
(** * The red-black rules

    A tree is balanced when every path from the root to a leaf has the same
    number of black nodes and no red node has a red child.  The rules are stated
    for a tree and for a context, so that both can be put together and taken
    apart at any position; a balanced tree is shallow. *)

From S2P Require Import Prelude RbTree RbSep.

(** [n] black nodes on every path, no red node with a red child. *)
Fixpoint bal (t : ctree) (n : nat) : Prop :=
  match t with
  | CLeaf => n = O
  | CNode true l _ r => match n with S m => bal l m /\ bal r m | O => False end
  | CNode false l _ r => is_red l = false /\ is_red r = false /\ bal l n /\ bal r n
  end.

(** The root is black as well. *)
Definition rb_valid (t : ctree) : Prop := is_red t = false /\ exists n, bal t n.

(** The context accepts a tree with [n] black nodes on its paths. *)
Fixpoint ctx_ok (k : list frame) (n : nat) : Prop :=
  match k with
  | [] => True
  | Frame _ true _ o :: k => bal o n /\ ctx_ok k (S n)
  | Frame _ false _ o :: k =>
      is_red o = false /\ bal o n /\ (exists f k', k = f :: k' /\ f_black f = true) /\ ctx_ok k n
  end.

(** A red tree needs a black parent. *)
Definition joinable (t : ctree) (k : list frame) : Prop :=
  is_red t = false \/ exists f k', k = f :: k' /\ f_black f = true.

Definition blacken (t : ctree) : ctree :=
  match t with CLeaf => CLeaf | CNode _ l x r => CNode true l x r end.
Definition side (d : bool) (t : ctree) : ctree :=
  match t with CLeaf => CLeaf | CNode _ l _ r => if d then l else r end.

(** ** Nodes *)

Lemma bal_black d a x b n : bal (mk d true a x b) (S n) <-> bal a n /\ bal b n.
Proof. destruct d; simpl; tauto. Qed.
Lemma bal_black_inv d a x b n : bal (mk d true a x b) n -> exists m, n = S m /\ bal a m /\ bal b m.
Proof. intros H. destruct n as [|m]; [destruct d; done|]. exists m. by rewrite bal_black in H. Qed.
Lemma bal_red d a x b n :
  bal (mk d false a x b) n <-> is_red a = false /\ is_red b = false /\ bal a n /\ bal b n.
Proof. destruct d; simpl; tauto. Qed.
Lemma bal_blacken t n : bal t n -> is_red t = true -> bal (blacken t) (S n).
Proof. destruct t as [|[] l x r]; simpl; [done..|]. tauto. Qed.
Lemma is_red_blacken t : is_red (blacken t) = false.
Proof. by destruct t. Qed.

(** ** Putting together and taking apart *)

Lemma plug_ok k : forall t n, bal t n -> ctx_ok k n -> joinable t k -> (k = [] -> is_red t = false) -> rb_valid (plug t k).
Proof.
  induction k as [|[d c x o] k IH]; intros t n Ht Hk Hj Hr; simpl in *; [split; [by apply Hr|by exists n]|].
  unfold plug1. simpl. destruct c.
  - destruct Hk as [Ho Hk]. apply IH with (S n); [by apply bal_black|done|by left; destruct d|by intros _; destruct d].
  - destruct Hk as (Ho1 & Ho2 & (f & k' & -> & Hf) & Hk).
    assert (is_red t = false) by (destruct Hj as [?|(f' & k'' & [= <- <-] & ?)]; done).
    apply IH with n; [by apply bal_red|done|right; by exists f, k'|done].
Qed.

Lemma plug_inv k : forall t, rb_valid (plug t k) ->
  exists n, bal t n /\ ctx_ok k n /\ joinable t k /\ (k = [] -> is_red t = false).
Proof.
  induction k as [|[d c x o] k IH]; intros t Hv; simpl in *.
  { destruct Hv as [Hr [n Hn]]. exists n. split_and!; try done. by left. }
  destruct (IH _ Hv) as (n & Hn & Hk & Hj & Hr). unfold plug1 in *. simpl in *. destruct c.
  - apply bal_black_inv in Hn as (m & -> & Ht & Ho). exists m. split_and!; try done.
    right. by eexists _, _.
  - apply bal_red in Hn as (H1 & H2 & Ht & Ho). exists n. split_and!; try done.
    + destruct Hj as [Hj|Hj]; [by destruct d|done].
    + by left.
Qed.

Lemma elements_mk d c a x b :
  elements (mk d c a x b) = if d then elements a ++ x :: elements b else elements b ++ x :: elements a.
Proof. by destruct d. Qed.

(** What lies before and after a position, in order. *)
Fixpoint pre (k : list frame) : list Z :=
  match k with
  | [] => []
  | Frame true _ _ _ :: k => pre k
  | Frame false _ x o :: k => pre k ++ elements o ++ [x]
  end.
Fixpoint post (k : list frame) : list Z :=
  match k with
  | [] => []
  | Frame true _ x o :: k => x :: elements o ++ post k
  | Frame false _ _ _ :: k => post k
  end.

Lemma elements_plug k t : elements (plug t k) = pre k ++ elements t ++ post k.
Proof.
  revert t. induction k as [|[d c x o] k IH]; intros t; simpl; [by rewrite app_nil_r|].
  rewrite IH. unfold plug1. simpl. rewrite elements_mk. destruct d; by rewrite <- ?app_assoc; simpl; rewrite <- ?app_assoc.
Qed.

(** Equal sequences below equal contexts. *)
Lemma elements_plug_ext k t t' : elements t = elements t' -> elements (plug t k) = elements (plug t' k).
Proof. intros H. by rewrite !elements_plug, H. Qed.

(** ** Depth *)

Fixpoint height (t : ctree) : nat :=
  match t with CLeaf => O | CNode _ l _ r => S (Nat.max (height l) (height r)) end.

Lemma bal_size t n : bal t n -> (2 ^ n <= S (length (elements t)))%nat.
Proof.
  revert n. induction t as [|[] l IHl x r IHr]; intros n; simpl; [by intros ->| |].
  - destruct n as [|n]; [done|]. intros [Hl Hr]. specialize (IHl _ Hl). specialize (IHr _ Hr).
    rewrite length_app. simpl. lia.
  - intros (_ & _ & Hl & Hr). specialize (IHl _ Hl). rewrite length_app. simpl. lia.
Qed.
Lemma bal_height t n : bal t n -> (height t <= 2 * n + if is_red t then 1 else 0)%nat.
Proof.
  revert n. induction t as [|[] l IHl x r IHr]; intros n; simpl; [lia| |].
  - destruct n as [|n]; [done|]. intros [Hl Hr]. specialize (IHl _ Hl). specialize (IHr _ Hr).
    destruct (is_red l), (is_red r); lia.
  - intros (H1 & H2 & Hl & Hr). specialize (IHl _ Hl). specialize (IHr _ Hr).
    rewrite H1 in IHl. rewrite H2 in IHr. lia.
Qed.

(** Enough steps for any path of a valid tree with [n] nodes. *)
Definition path_fuel (n : nat) : nat := 2 * Nat.log2 (S n) + 2.

Lemma valid_height t : rb_valid t -> (height t <= 2 * Nat.log2 (S (length (elements t))))%nat.
Proof.
  intros [Hr [n Hn]]. pose proof (bal_size _ _ Hn) as Hs. pose proof (bal_height _ _ Hn) as Hh.
  rewrite Hr in Hh. apply Nat.log2_le_mono in Hs. rewrite Nat.log2_pow2 in Hs; lia.
Qed.

Lemma height_mk d c a x b : height (mk d c a x b) = S (Nat.max (height a) (height b)).
Proof. destruct d; simpl; lia. Qed.
Lemma plug_height k t : (length k + height t <= height (plug t k))%nat.
Proof.
  revert t. induction k as [|[d c x o] k IH]; intros t; simpl; [lia|].
  specialize (IH (plug1 t (Frame d c x o))). unfold plug1 in *. simpl in *. rewrite height_mk in IH. lia.
Qed.
Lemma valid_path k t : rb_valid (plug t k) ->
  (length k + height t < path_fuel (length (elements (plug t k))))%nat.
Proof. intros Hv. pose proof (valid_height _ Hv). pose proof (plug_height k t). unfold path_fuel. lia. Qed.

(** ** Positions *)

(** Every node of a tree is at a position. *)
Lemma locate t x : x ∈ elements t -> exists k c l r, t = plug (CNode c l x r) k.
Proof.
  assert (H : forall s k, x ∈ elements s -> t = plug s k -> exists k c l r, t = plug (CNode c l x r) k).
  { induction s as [|c l IHl y r IHr]; intros k Hx ->; simpl in Hx; [by apply elem_of_nil in Hx|].
    apply elem_of_app in Hx as [Hx|[->|Hx]%elem_of_cons].
    - by apply (IHl (Frame true c y r :: k)).
    - by exists k, c, l, r.
    - by apply (IHr (Frame false c y l :: k)). }
  intros Hx. by apply (H t []).
Qed.

(** A tree with memory [s] under it. *)
Record rb_tree (s : rb_state) (t : ctree) : Prop := {
  rt_root : rb_root s = ptr t;
  rt_stored : stored (rb_mem s) 0 t;
  rt_nodup : NoDup (elements t);
  rt_valid : rb_valid t
}.
