(* ===== verification/RbInsert.v ===== *)
(** * Insertion into red-black trees

    [ins_fix] is the rebalancing after an insertion on coloured trees; the code
    on pointers computes it, and it restores the red-black rules. *)

From iris.proofmode Require Import proofmode.
From iris.base_logic.lib Require Import gen_heap.
From Stdlib Require Import Sorting.Sorted.
From S2P Require Import Prelude RbTree RbSep RbBal.

(** ** Rebalancing on trees *)

Fixpoint ins_fix (t : ctree) (k : list frame) : ctree :=
  match k with
  | [] => blacken t
  | Frame d1 c p s :: k1 =>
      if c then plug t k
      else
        match k1 with
        | [] => plug t k
        | Frame d cg g u :: k2 =>
            if is_red u then ins_fix (mk d false (mk d1 true t p s) g (blacken u)) k2
            else if Bool.eqb d1 d then plug (mk d cg t p (mk d false s g u)) k2
            else plug (mk d cg (mk d false s p (side d t)) (ptr t)
                         (mk d false (side (negb d) t) g u)) k2
        end
  end.

(** The node at the root of the path is black. *)
Fixpoint rooted (k : list frame) : Prop :=
  match k with
  | [] => True
  | [f] => f_black f = true
  | _ :: k => rooted k
  end.

Lemma rooted_cons f k : rooted (f :: k) -> rooted k.
Proof. by destruct k. Qed.

(** ** The code computes it *)

Section sim.
  Context `{!gen_heapGS Z rb_node Σ}.

Lemma tree_addr q t : is_red t = true -> tree_at q t ⊢ ⌜is_addr (ptr t)⌝.
Proof. destruct t as [|c l x r]; [done|]. simpl. by iIntros (_) "(% & _)". Qed.

Lemma wp_tree_red q t r Q : is_ptr q ->
  tree_at q t -∗ (tree_at q t -∗ Q (is_red t) r) -∗
  wp (if ptr t =? 0 then mret false else rb_is_red (ptr t)) r Q.
Proof.
  iIntros (Hq) "Ht HQ". destruct t as [|c l x rt]; simpl; [iApply wp_ret; by iApply "HQ"|].
  iDestruct "Ht" as "(%Hx & Hx & Hl & Hr)". rw addr_eqb //.
  iApply (wp_is_red with "Hx"); [done|]. iIntros "Hx". destruct c; iApply "HQ"; by iFrame.
Qed.

Lemma insert_rotate_sim d d1 cg t p s g u k r Q :
  is_red t = true -> is_addr p -> is_addr g ->
  tree_at p t -∗ p ↦ nd d1 g false (ptr t) (ptr s) -∗ tree_at p s -∗
  g ↦ nd d (top k) cg p (ptr u) -∗ tree_at g u -∗ ctx_at k g r -∗
  (∀ t' r', ⌜t' = if Bool.eqb d1 d then mk d cg t p (mk d false s g u)
                  else mk d cg (mk d false s p (side d t)) (ptr t) (mk d false (side (negb d) t) g u)⌝ -∗
     tree_at (top k) t' -∗ ctx_at k (ptr t') r' -∗ Q tt r') -∗
  wp (insert_rotate d (ptr t) p g) r Q.
Proof.
  iIntros (Ht Hp Hg) "Ht Hp Hs Hg Hu Hk HQ". unfold insert_rotate.
  iDestruct (tree_addr with "Ht") as %Hx; [done|].
  iApply wp_bind. iApply (wp_load with "Hp"). iIntros "Hp".
  destruct (Bool.eqb_spec d1 d) as [->|Hd].
  - rw child_far. destruct t as [|c l x rt]; [done|]. simpl.
    iDestruct "Ht" as "(_ & Hx & Hl & Hr)". iDestruct (ptr_ne with "Hx Hs") as %Hne; [done|].
    assert ((x =? ptr s) = false) as -> by by apply Z.eqb_neq.
    iApply wp_bind. iApply wp_ret. iApply wp_bind. iApply (wp_load with "Hp"). iIntros "Hp". rw child_far.
    iApply wp_bind. iApply (wp_set_near with "Hg"). iIntros "Hg".
    iApply wp_bind. iApply (wp_adopt with "Hs"); [auto|]. iIntros "Hs".
    iApply wp_bind. iApply (wp_set_far with "Hp"). iIntros "Hp".
    iApply (wp_rotate_set_parents _ _ _ _ _ _ _ _ _ _ _ _ false with "Hg Hp Hk"); [done|]. iIntros (r') "Hg Hp Hk".
    iApply ("HQ" with "[//] [-Hk]").
    + rw !tree_at_mk /= !ptr_mk. by iFrame.
    + by rw ptr_mk.
  - assert (d1 = negb d) as -> by by destruct d1, d. rw nd_flip child_far Z.eqb_refl.
    destruct (mk_cases d t) as [->|(c & a & x & b & ->)]; [done|]. rw tree_at_mk !ptr_mk.
    iDestruct "Ht" as "(_ & Hx & Ha & Hb)". rw ptr_mk in Hx.
    rw is_red_mk in Ht. destruct c; [done|].
    iApply wp_bind. iApply wp_bind. iApply (wp_load with "Hx"). iIntros "Hx". rw child_near.
    iApply wp_bind. iApply (wp_set_far with "Hp"). iIntros "Hp".
    iApply wp_bind. iApply (wp_adopt with "Ha"); [auto|]. iIntros "Ha".
    iApply wp_bind. iApply (wp_set_near with "Hx"). iIntros "Hx".
    iApply wp_bind. iApply (wp_set_parent with "Hp"); [auto|]. iIntros "Hp".
    iApply wp_ret. iApply wp_bind. iApply (wp_load with "Hx"). iIntros "Hx". rw child_far.
    iApply wp_bind. iApply (wp_set_near with "Hg"). iIntros "Hg".
    iApply wp_bind. iApply (wp_adopt with "Hb"); [auto|]. iIntros "Hb".
    iApply wp_bind. iApply (wp_set_far with "Hx"). iIntros "Hx".
    iApply (wp_rotate_set_parents _ _ _ _ _ _ _ _ _ _ _ _ false with "Hg Hx Hk"); [done|]. iIntros (r') "Hg Hx Hk".
    assert (side d (mk d false a x b) = a) as -> by by destruct d.
    assert (side (negb d) (mk d false a x b) = b) as -> by by destruct d.
    iApply ("HQ" with "[//] [-Hk]").
    + rw !tree_at_mk /= !ptr_mk. by iFrame.
    + by rw ptr_mk.
Qed.

Lemma insert_color_sim fuel t k r Q :
  (length k < fuel)%nat -> is_red t = true -> rooted k ->
  tree_at (top k) t -∗ ctx_at k (ptr t) r -∗
  (∀ r', tree_at 0 (ins_fix t k) -∗ ⌜r' = ptr (ins_fix t k)⌝ -∗ Q tt r') -∗
  wp (insert_color fuel (ptr t) (top k)) r Q.
Proof.
  revert t k r. induction fuel as [|fuel IH]; intros t k r Hf Ht Hk; [lia|]. iIntros "Ht Hk HQ". simpl.
  destruct k as [|[d1 c p s] k1]; simpl.
  { destruct t as [|c l x rt]; [done|]. simpl. iDestruct "Ht" as "(% & Hx & Hl & Hr)". iDestruct "Hk" as %->.
    iApply (wp_set_parent_color _ _ _ _ _ _ _ 0 true with "Hx"). iIntros "Hx". iApply ("HQ" with "[-]"); [by iFrame|done]. }
  iDestruct "Hk" as "(%Hp & Hp & Hs & Hk)". rw addr_eqb //. iDestruct (ctx_top with "Hk") as %Htop.
  iApply wp_bind. iApply (wp_is_black with "Hp"); [done|]. iIntros "Hp". destruct c.
  { iApply wp_ret. iDestruct (plug_up (Frame d1 true p s :: k1) with "Ht [Hp Hs Hk]") as "[Ht %Hr]"; [simpl; by iFrame|].
    by iApply ("HQ" with "Ht"). }
  destruct k1 as [|[d cg g u] k2]; [done|]. simpl. iDestruct "Hk" as "(%Hg & Hg & Hu & Hk)".
  iDestruct (ctx_top with "Hk") as %Htop2. iDestruct (ptr_ne with "Hp Hu") as %Hne; [done|].
  iApply wp_bind. iApply (wp_rb_parent with "Hp"); [done|]. iIntros "Hp".
  iApply wp_bind. iApply (wp_load with "Hg"). iIntros "Hg". rw side_test // child_far.
  iApply wp_bind. iApply (wp_tree_red with "Hu"); [auto|]. iIntros "Hu".
  destruct (is_red u) eqn:Eu.
  - destruct u as [|[] ul ux ur]; try done. simpl. iDestruct "Hu" as "(%Hux & Hux & Hul & Hur)".
    iApply wp_bind. iApply (wp_set_parent_color _ _ _ _ _ _ _ _ true with "Hux"). iIntros "Hux".
    iApply wp_bind. iApply (wp_set_parent_color _ _ _ _ _ _ _ _ true with "Hp"). iIntros "Hp".
    iApply wp_bind. iApply (wp_rb_parent with "Hg"); [done|]. iIntros "Hg".
    iApply wp_bind. iApply (wp_set_parent_color _ _ _ _ _ _ _ _ false with "Hg"). iIntros "Hg".
    iApply wp_bind. iApply (wp_rb_parent with "Hg"); [done|]. iIntros "Hg".
    set (t' := mk d false (mk d1 true t p s) g (CNode true ul ux ur)).
    assert (g = ptr t') as Eg by by rw ptr_mk. rw Eg.
    iApply (IH t' k2 with "[Ht Hp Hs Hg Hux Hul Hur] [Hk] HQ"); [simpl in Hf; lia|by rw is_red_mk| | |].
    + by do 2 apply rooted_cons in Hk.
    + rw -Eg /t' !tree_at_mk ptr_mk. by iFrame.
    + by rw -Eg.
  - iApply (insert_rotate_sim with "Ht Hp Hs Hg Hu Hk"); [done..|]. iIntros (t' r' ->) "Ht Hk".
    destruct (Bool.eqb d1 d).
    + iDestruct (plug_up with "Ht Hk") as "[Ht %Hr]". by iApply ("HQ" with "Ht").
    + iDestruct (plug_up with "Ht Hk") as "[Ht %Hr]". by iApply ("HQ" with "Ht").
Qed.
End sim.

(** ** It restores the rules *)

Lemma ctx_rooted k : forall n, ctx_ok k n -> rooted k.
Proof.
  induction k as [|[d [] x o] k IH]; intros n Hk; [done|..]; simpl in Hk.
  - destruct k; [done|]. apply (IH (S n)). tauto.
  - destruct Hk as (_ & _ & (f & k' & -> & _) & Hk). by apply (IH n).
Qed.

Lemma ins_fix_valid k : forall t n, bal t n -> is_red t = true -> ctx_ok k n -> rb_valid (ins_fix t k).
Proof.
  induction k as [k IH] using (induction_ltof1 _ length). unfold ltof in IH. intros t n Ht Hr Hk.
  destruct k as [|[d1 c p s] k1]; simpl.
  { split; [apply is_red_blacken|]. exists (S n). by apply bal_blacken. }
  destruct c.
  { apply (plug_ok (Frame d1 true p s :: k1) t n); [done|done| |done]. right. by eexists _, _. }
  destruct Hk as (Hs1 & Hs2 & (f & k' & -> & Hf) & Hk). destruct f as [d cg g u]. simpl in Hf. subst cg.
  destruct Hk as [Hu Hk]. destruct (is_red u) eqn:Eu.
  - apply (IH k') with (S n); [simpl; lia| | |done].
    + apply bal_red. rw is_red_mk is_red_blacken. split_and!; [done|done|by apply bal_black|by apply bal_blacken].
    + by rw is_red_mk.
  - destruct (Bool.eqb_spec d1 d) as [->|Hd].
    + apply (plug_ok k' _ (S n)); [|done|left; by rw is_red_mk|intros _; by rw is_red_mk].
      apply bal_black. split; [done|]. by apply bal_red.
    + destruct (mk_cases d t) as [->|(ct & a & x & b & ->)]; [done|]. rw is_red_mk in Hr. destruct ct; [done|].
      apply bal_red in Ht as (Ha & Hb & Ha2 & Hb2).
      assert (side d (mk d false a x b) = a) as -> by by destruct d.
      assert (side (negb d) (mk d false a x b) = b) as -> by by destruct d.
      apply (plug_ok k' _ (S n)); [|done|left; by rw is_red_mk|intros _; by rw is_red_mk].
      apply bal_black. split; by apply bal_red.
Qed.

Lemma ins_fix_elements k : forall t, is_red t = true -> elements (ins_fix t k) = elements (plug t k).
Proof.
  induction k as [k IH] using (induction_ltof1 _ length). unfold ltof in IH. intros t Hr.
  destruct k as [|[d1 [] p s] [|[d cg g u] k']]; simpl; try done; [by destruct t as [|[]]|].
  destruct (is_red u) eqn:Eu.
  - rw IH; [|simpl; lia|by rw is_red_mk]. apply elements_plug_ext. unfold plug1. simpl.
    rw !elements_mk. destruct u as [|? ? ? ?]; [done|]. by destruct d1.
  - destruct (Bool.eqb_spec d1 d) as [->|Hd]; apply elements_plug_ext; unfold plug1; simpl.
    + rw !elements_mk. destruct d; simpl; by rw -!app_assoc.
    + assert (d1 = negb d) as -> by by destruct d1, d. destruct t as [|ct l x r]; [done|].
      rw !elements_mk. destruct d; simpl; by rw -?app_assoc /= -?app_assoc.
Qed.

(** ** Linking at the end of a path *)

(** The context of the position that [path] leads to ([true] is right). *)
Fixpoint ctx_of (t : ctree) (path : list bool) (k : list frame) : list frame :=
  match t, path with
  | CNode c l y r, false :: p => ctx_of l p (Frame true c y r :: k)
  | CNode c l y r, true :: p => ctx_of r p (Frame false c y l :: k)
  | _, _ => k
  end.

(** [rb_link_node] and then [rb_insert_color]. *)
Definition rb_link (t : ctree) (path : list bool) (x : Z) : ctree :=
  ins_fix (CNode false CLeaf x CLeaf) (ctx_of t path []).

(** The path ends below a leaf or a node with a child missing. *)
Definition open_end (t : ctree) (path : list bool) : Prop := plug CLeaf (ctx_of t path []) = t.

Lemma rb_link_valid t path x : rb_valid t -> open_end t path -> rb_valid (rb_link t path x).
Proof.
  intros Hv Hp. rw -Hp in Hv. destruct (plug_inv _ _ Hv) as (n & Hn & Hk & _).
  apply ins_fix_valid with O; [done|done|]. simpl in Hn. by subst n.
Qed.

(** No node [x] of the tree has a left child and a right child that has a right
    child but no left one. *)
Definition stale_node (l r : ctree) : bool :=
  match l, r with CNode _ _ _ _, CNode _ CLeaf _ (CNode _ _ _ _) => true | _, _ => false end.
Fixpoint calm (x : Z) (t : ctree) : Prop :=
  match t with
  | CLeaf => True
  | CNode _ l y r => calm x l /\ calm x r /\ (y = x -> stale_node l r = false)
  end.

Lemma calm_fresh x t : x ∉ elements t -> calm x t.
Proof.
  induction t as [|c l IHl y r IHr]; simpl; [done|]. intros Hx. rw not_elem_of_app not_elem_of_cons in Hx.
  destruct Hx as (H1 & H2 & H3). split_and!; [by apply IHl|by apply IHr|]. by intros ->.
Qed.
Lemma calm_mk x d c a y b : y <> x -> calm x (mk d c a y b) <-> calm x a /\ calm x b.
Proof. destruct d; simpl; tauto. Qed.
Lemma calm_blacken x t : calm x (blacken t) <-> calm x t.
Proof. by destruct t. Qed.
Lemma calm_side x d t : calm x t -> calm x (side d t).
Proof. destruct t as [|c l y r], d; simpl; tauto. Qed.

(** A context without [x]. *)
Definition clear (x : Z) (k : list frame) : Prop := Forall (fun f => f_node f <> x /\ x ∉ elements (f_other f)) k.

Lemma calm_plug x k : forall t, clear x k -> calm x (plug t k) <-> calm x t.
Proof.
  induction k as [|[d c y o] k IH]; intros t Hk; [done|]. apply list.Forall_cons in Hk as [[H1 H2] Hk]. simpl in *.
  rw IH //. unfold plug1. simpl. rw calm_mk //. split; [tauto|]. intros ?. split; [done|]. by apply calm_fresh.
Qed.

Lemma ctx_of_clear x path : forall t k, x ∉ elements t -> clear x k -> clear x (ctx_of t path k).
Proof.
  induction path as [|[] path IH]; intros [|c l y r] k Hx Hk; simpl in *; try done;
    rw not_elem_of_app not_elem_of_cons in Hx; destruct Hx as (H1 & H2 & H3); apply IH; try done;
    apply list.Forall_cons; simpl; split_and!; congruence || done.
Qed.

Lemma ins_fix_calm x k : forall t, clear x k -> calm x t -> ptr t <> x -> calm x (ins_fix t k).
Proof.
  induction k as [k IH] using (induction_ltof1 _ length). unfold ltof in IH. intros t Hk Ht Hp.
  destruct k as [|[d1 c p s] k1]; simpl; [by rw calm_blacken|].
  destruct c; [by apply (calm_plug x (Frame d1 true p s :: k1))|].
  destruct k1 as [|[d cg g u] k2]; [by apply (calm_plug x [Frame d1 false p s])|].
  apply list.Forall_cons in Hk as [[H1 H2%calm_fresh] Hk]. apply list.Forall_cons in Hk as [[H3 H4%calm_fresh] Hk]. simpl in *.
  destruct (is_red u).
  - apply IH; [simpl; lia|done| |by rw ptr_mk]. rw !calm_mk // calm_blacken. done.
  - destruct (Bool.eqb d1 d); apply calm_plug; [done|by rw !calm_mk|done|].
    rw !calm_mk //. split_and!; [done|by apply calm_side|by apply calm_side|done].
Qed.

(** A node that was just linked is not in the stale shape. *)
Lemma rb_link_calm t path x : rb_valid t -> open_end t path -> x ∉ elements t -> calm x (rb_link t path x).
Proof.
  intros Hv Hp Hx. unfold rb_link. assert (Hk : clear x (ctx_of t path [])) by (apply ctx_of_clear; [done|constructor]).
  rw -Hp in Hv. destruct (plug_inv _ _ Hv) as (n & Hn & Ho & _). simpl in Hn. subst n. clear Hp Hv. revert Hk Ho.
  generalize (ctx_of t path []). intros [|[d1 c p s] k1] Hk Ho; simpl; [done|].
  destruct c; [by apply (calm_plug x (Frame d1 true p s :: k1))|].
  destruct k1 as [|[d cg g u] k2]; [by apply (calm_plug x [Frame d1 false p s])|].
  apply list.Forall_cons in Hk as [[H1 H2%calm_fresh] Hk]. apply list.Forall_cons in Hk as [[H3 H4%calm_fresh] Hk]. simpl in *.
  destruct Ho as (Hs1 & Hs2 & (f & k' & [= <- <-] & Hf) & Ho). simpl in Hf. subst cg. destruct Ho as [Hu Ho].
  destruct (is_red u) eqn:Eu.
  - apply ins_fix_calm; [done| |by rw ptr_mk]. rw !calm_mk // calm_blacken. done.
  - assert (s = CLeaf) as -> by by destruct s as [|[]]. assert (u = CLeaf) as -> by by destruct u as [|[]].
    destruct (Bool.eqb d1 d); apply calm_plug; [done|by rw !calm_mk|done|]. by destruct d; simpl; rw ?calm_mk.
Qed.

(** ** The place of a key *)

(** [cmp] agrees with the sides of the path. *)
Definition leads (cmp : Z -> Z) (f : frame) : Prop :=
  if f_side f then 0 < cmp (f_node f) else cmp (f_node f) <= 0.

(** The side of the last step. *)
Definition last_side (k : list frame) (d : bool) : Prop :=
  match k with [] => True | f :: _ => f_side f = d end.

Section place.
  Context `{!gen_heapGS Z rb_node Σ} (cmp : Z -> Z).

Lemma insert_place_sim fuel t k d lm r Q :
  (height t < fuel)%nat -> Forall (leads cmp) k -> last_side k d -> lm = forallb f_side k ->
  tree_at (top k) t -∗ ctx_at k (ptr t) r -∗
  (∀ k' d', ⌜plug CLeaf k' = plug t k⌝ -∗ ⌜Forall (leads cmp) k' /\ last_side k' d'⌝ -∗
     ctx_at k' 0 r -∗ Q (top k', d', forallb f_side k') r) -∗
  wp (insert_place cmp fuel (ptr t) (top k) d lm) r Q.
Proof.
  revert t k d lm. induction fuel as [|fuel IH]; intros t k d lm Hf Hk Hd ->; [lia|].
  iIntros "Ht Hk HQ". simpl. destruct t as [|c a x b]; simpl.
  { iApply wp_ret. by iApply ("HQ" $! k d). }
  iDestruct "Ht" as "(%Hx & Hx & Ha & Hb)". rw addr_eqb //. iApply wp_bind. iApply (wp_load with "Hx"). iIntros "Hx".
  simpl in Hf. destruct (Z.ltb_spec 0 (cmp x)) as [Hc|Hc].
  - iApply (IH a (Frame true c x b :: k) with "Ha [Hx Hb Hk]"); [lia| |done|done|by simpl; iFrame|done].
    by constructor.
  - iApply (IH b (Frame false c x a :: k) with "Hb [Hx Ha Hk]"); [lia| |done|done|by simpl; iFrame|done].
    by constructor.
Qed.

(** Linking a node at the end of a path. *)
Lemma link_sim node n0 k d r Q : is_addr node -> last_side k d ->
  node ↦ n0 -∗ ctx_at k 0 r -∗
  (∀ r', tree_at (top k) (CNode false CLeaf node CLeaf) -∗ ctx_at k node r' -∗ Q tt r') -∗
  wp (rb_link_node node (top k) d) r Q.
Proof.
  iIntros (Ha Hd) "Hn Hk HQ". unfold rb_link_node. iApply wp_bind. iApply (wp_store with "Hn"). iIntros "Hn".
  destruct k as [|[d' c x o] k]; simpl in *.
  { iApply wp_set_root. iApply ("HQ" with "[Hn] [//]"). by iFrame. }
  subst d'. iDestruct "Hk" as "(%Hx & Hx & Ho & Hk)". rw addr_eqb //.
  iApply (wp_set_near with "Hx"). iIntros "Hx". iApply ("HQ" with "[Hn]"); by iFrame.
Qed.

(** Rebalancing after a link. *)
Lemma color_sim fuel node k r Q : (length k < fuel)%nat -> rooted k ->
  tree_at (top k) (CNode false CLeaf node CLeaf) -∗ ctx_at k node r -∗
  (∀ r', tree_at 0 (ins_fix (CNode false CLeaf node CLeaf) k) -∗
     ⌜r' = ptr (ins_fix (CNode false CLeaf node CLeaf) k)⌝ -∗ Q tt r') -∗
  wp (rb_insert_color fuel node) r Q.
Proof.
  iIntros (Hf Hr) "Ht Hk HQ". iDestruct (ctx_top with "Hk") as %Htop. unfold rb_insert_color. simpl.
  iDestruct "Ht" as "(% & Hn & _)". iApply wp_bind. iApply (wp_rb_parent with "Hn"); [done|]. iIntros "Hn".
  iApply (insert_color_sim fuel (CNode false CLeaf node CLeaf) k r with "[Hn] Hk HQ"); [done..|].
  simpl. by iFrame.
Qed.
End place.

(** ** The theorem *)

Lemma leads_pre cmp k : Forall (leads cmp) k ->
  pre k = [] \/ exists l x, pre k = l ++ [x] /\ cmp x <= 0.
Proof.
  induction 1 as [|[[] c x o] k Hx Hk IH]; simpl; [by left|done|]. right.
  exists (pre k ++ elements o), x. by rw -app_assoc.
Qed.
Lemma leads_post cmp k : Forall (leads cmp) k ->
  post k = [] \/ exists l x, post k = x :: l /\ 0 < cmp x.
Proof.
  induction 1 as [|[[] c x o] k Hx Hk IH]; simpl; [by left| |done]. right. by eexists _, x.
Qed.

(** The keys at and after an element with a positive comparison have one too. *)
Definition cmp_sorted (cmp : Z -> Z) (l : list Z) : Prop :=
  StronglySorted (fun x y => 0 < cmp x -> 0 < cmp y) l.

Lemma leads_sorted cmp k : Forall (leads cmp) k -> cmp_sorted cmp (pre k ++ post k) ->
  Forall (fun x => cmp x <= 0) (pre k) /\ Forall (fun x => 0 < cmp x) (post k).
Proof.
  intros Hk Hs. split.
  - destruct (leads_pre _ _ Hk) as [->|(l & x & E & Hx)]; [constructor|].
    rw E in Hs. rw -app_assoc in Hs. rw E. clear Hk E. induction l as [|y l IH]; simpl in *; [by repeat constructor|].
    apply StronglySorted_inv in Hs as [Hs Hy]. constructor; [|by apply IH].
    rw list.Forall_app list.Forall_cons in Hy. destruct Hy as (_ & Hy & _). lia.
  - destruct (leads_post _ _ Hk) as [->|(l & x & E & Hx)]; [constructor|]. rw E. rw E in Hs.
    assert (H : forall l', cmp_sorted cmp (l' ++ x :: l) -> Forall (fun x => 0 < cmp x) (x :: l)).
    { induction l' as [|y l' IH]; simpl; intros [Hs' Hy]%StronglySorted_inv; [|by apply IH].
      constructor; [done|]. eapply list.Forall_impl; [exact Hy|]. simpl. auto. }
    by apply (H (pre k)).
Qed.

(** Memory outside the tree and the new node is left alone. *)
Definition kept_outside (l : list Z) (s s' : rb_state) : Prop :=
  forall y n, y ∉ l -> rb_mem s !! y = Some n -> rb_mem s' !! y = Some n.

(** What an insertion of [node] does to a tree [t] in [s]. *)
Definition inserted (cmp : Z -> Z) (node : Z) (t : ctree) (s s' : rb_state) (leftmost : bool) : Prop :=
  exists t' l1 l2, rb_tree s' t' /\ elements t = l1 ++ l2 /\ elements t' = l1 ++ node :: l2 /\
    (cmp_sorted cmp (elements t) -> Forall (fun x => cmp x <= 0) l1 /\ Forall (fun x => 0 < cmp x) l2) /\
    (leftmost = true <-> l1 = []) /\ kept_outside (node :: elements t) s s'.

Lemma pre_leftmost k : forallb f_side k = true <-> pre k = [].
Proof.
  induction k as [|[[] c x o] k IH]; simpl; [done|done|]. split; [done|].
  intros H. apply app_eq_nil in H as [_ H]. by apply app_eq_nil in H as [_ H].
Qed.

(** A place found by the walk. *)
Definition place (cmp : Z -> Z) (t : ctree) (k : list frame) (d : bool) : Prop :=
  plug CLeaf k = t /\ Forall (leads cmp) k /\ last_side k d.

Section exact.
  Context `{!gen_heapGS Z rb_node Σ} (cmp : Z -> Z) (fuel : nat) (node : Z) (n0 : rb_node) (t : ctree).
  Context (Hv : rb_valid t) (Ha : is_addr node) (Hf : (path_fuel (length (elements t)) <= fuel)%nat).

Lemma walk_sim {A} (K : Z -> bool -> bool -> R A) Q :
  tree_at 0 t -∗
  (∀ k d, ⌜place cmp t k d⌝ -∗ ctx_at k 0 (ptr t) -∗ wp (K (top k) d (forallb f_side k)) (ptr t) Q) -∗
  wp (p ← get_root; '(parent, d, leftmost) ← insert_place cmp fuel p 0 true true; K parent d leftmost) (ptr t) Q.
Proof.
  iIntros "Ht HK". iApply wp_bind. iApply wp_get_root. iApply wp_bind.
  pose proof (valid_path [] t Hv) as Hh. simpl in Hh.
  iApply (insert_place_sim cmp fuel t [] with "Ht [//]"); [lia|done..|].
  iIntros (k d Hplug [Hlead Hside]) "Hk". by iApply ("HK" with "[] Hk").
Qed.

Lemma place_path k d : place cmp t k d -> (length k < fuel)%nat /\ ctx_ok k 0.
Proof.
  intros (Hp & _). assert (Hvk : rb_valid (plug CLeaf k)) by by rw Hp.
  pose proof (valid_path _ _ Hvk) as Hl. destruct (plug_inv _ _ Hvk) as (m & -> & Hok & _).
  rw Hp in Hl. split; [lia|done].
Qed.

Lemma insert_done k d h h' :
  place cmp t k d ->
  gen_heap_interp h' -∗ tree_at 0 (ins_fix (CNode false CLeaf node CLeaf) k) -∗ ([∗ map] p ↦ n ∈ delete node (without (elements t) h), p ↦ n) -∗
  ⌜inserted cmp node t (RbState h (ptr t)) (RbState h' (ptr (ins_fix (CNode false CLeaf node CLeaf) k)))
     (forallb f_side k)⌝.
Proof.
  iIntros (Hk) "Hh Ht Hm". destruct (place_path k d Hk) as [_ Hok]. destruct Hk as (Hp & Hlead & _).
  set (t' := ins_fix _ k). iDestruct (tree_stored with "Hh Ht") as %[Hst Hnd].
  iDestruct (rest_kept with "Hh Hm") as %Hrest. iPureIntro.
  exists t', (pre k), (post k). rw -Hp elements_plug /=. split_and!.
  - constructor; [done..|]. by apply ins_fix_valid with O.
  - done.
  - by rw /t' ins_fix_elements // elements_plug.
  - by apply leads_sorted.
  - apply pre_leftmost.
  - intros y n Hy E. rw not_elem_of_cons in Hy. destruct Hy as [Hy1 Hy2].
    eapply lookup_weaken; [|exact Hrest]. rw lookup_delete_ne // without_eq //. by rw -Hp elements_plug.
Qed.
End exact.

(** C9: insertion by key is exact.  In a valid red-black tree of [n] nodes a search
    path has at most [2 * log2 (n + 1)] nodes; with that much fuel [rb_insert] of
    a node that is not in the tree succeeds and leaves a valid red-black tree
    (black root, no red node with a red child, equally many black nodes on every
    path, every parent pointer right) with the node added to the old sequence and
    all other memory unchanged; when the comparison is monotone along the tree,
    the node comes after all keys that are not greater and before all greater
    ones. *)
Theorem rb_insert_exact cmp fuel node s t :
  rb_tree s t -> is_addr node -> node ∉ elements t -> is_Some (rb_mem s !! node) ->
  (path_fuel (length (elements t)) <= fuel)%nat ->
  exists s' b, rb_insert cmp fuel node s = Some (tt, s') /\ inserted cmp node t s s' b.
Proof.
  intros [Hroot Hst Hnd Hv] Ha Hno [n0 En] Hf. destruct s as [h r]. simpl in *. subst r.
  destruct (wp_adequate (rb_insert cmp fuel node) h (ptr t)
    (fun _ s' => exists b, inserted cmp node t (RbState h (ptr t)) s' b)) as ([] & s' & E & b & H); [|by exists s', b].
  intros Σ G. iIntros "Hm". iDestruct (take_tree with "Hm") as "[Ht Hm]"; [done..|].
  rw (big_sepM_delete _ _ node); [|by rw without_eq]. iDestruct "Hm" as "[Hn Hm]".
  iApply (walk_sim with "Ht"); [done..|]. iIntros (k d Hk) "Hk".
  destruct (place_path cmp fuel node t Hv Hf k d Hk) as [Hl Hok].
  iApply wp_bind. iApply (link_sim with "Hn Hk"); [done|apply Hk|]. iIntros (r') "Ht Hk".
  iApply (color_sim with "Ht Hk"); [done|by eapply ctx_rooted|]. iIntros (r'') "Ht ->". iIntros (h') "Hh".
  iExists (forallb f_side k). by iApply (insert_done with "Hh Ht Hm").
Qed.

(** the cached leftmost node stays exact under insertion: when the cache holds
    the first node of a valid tree (null for the empty one), [rb_insert_cached]
    leaves it holding the first node of the new tree, and inserts as [rb_insert]
    does. *)
Theorem rb_insert_cached_exact cmp fuel node leftmost s t :
  rb_tree s t -> is_addr node -> node ∉ elements t -> is_Some (rb_mem s !! node) ->
  (path_fuel (length (elements t)) <= fuel)%nat -> leftmost = default 0 (list.head (elements t)) ->
  exists s' t' b, rb_insert_cached cmp fuel node leftmost s = Some (default 0 (list.head (elements t')), s') /\
    rb_tree s' t' /\ inserted cmp node t s s' b.
Proof.
  intros [Hroot Hst Hnd Hv] Ha Hno [n0 En] Hf Hlm. destruct s as [h r]. simpl in *. subst r.
  destruct (wp_adequate (rb_insert_cached cmp fuel node leftmost) h (ptr t)
    (fun a s' => exists b : bool, a = (if b then node else leftmost) /\ inserted cmp node t (RbState h (ptr t)) s' b))
    as (a & s' & E & b & -> & H).
  - intros Σ G. iIntros "Hm". iDestruct (take_tree with "Hm") as "[Ht Hm]"; [done..|].
    rw (big_sepM_delete _ _ node); [|by rw without_eq]. iDestruct "Hm" as "[Hn Hm]".
    iApply (walk_sim with "Ht"); [done..|]. iIntros (k d Hk) "Hk".
    destruct (place_path cmp fuel node t Hv Hf k d Hk) as [Hl Hok].
    iApply wp_bind. iApply (link_sim with "Hn Hk"); [done|apply Hk|]. iIntros (r') "Ht Hk".
    iApply wp_bind. iApply (color_sim with "Ht Hk"); [done|by eapply ctx_rooted|]. iIntros (r'') "Ht ->".
    iApply wp_ret. iIntros (h') "Hh". iExists (forallb f_side k). iSplit; [done|].
    by iApply (insert_done with "Hh Ht Hm").
  - destruct H as (t' & l1 & l2 & Ht' & E1 & E2 & H1 & H2 & H3).
    assert (Hd : (if b then node else leftmost) = default 0 (list.head (elements t'))).
    { rw E2. destruct l1 as [|x l1].
      - assert (b = true) as -> by by apply H2. done.
      - destruct b; [by assert (x :: l1 = []) by by apply H2|]. by rw Hlm E1. }
    exists s', t', b. rw -Hd. split_and!; [done|done|]. by exists t', l1, l2.
Qed.
