(* ===== verification/RbErase.v ===== *)
(** * Erasure from red-black trees

    [del_fix] is the rebalancing after a black node was removed on coloured
    trees; the code on pointers computes it, and it restores the red-black
    rules.  Removing a node is exact except in one shape of the tree, where the
    code leaves a parent pointer to the removed node. *)

From iris.proofmode Require Import proofmode.
From iris.base_logic.lib Require Import gen_heap.
From S2P Require Import Prelude RbTree RbSep RbBal RbInsert.

(** ** Rebalancing on trees *)

Definition redden (t : ctree) : ctree :=
  match t with CLeaf => CLeaf | CNode _ l x r => CNode false l x r end.
Definition nephews_black (s : ctree) : bool := negb (is_red (side true s)) && negb (is_red (side false s)).

(** A nephew is red: cases 3 and 4. *)
Definition del_rotate (d c : bool) (t : ctree) (p : Z) (s : ctree) : ctree :=
  let a := side d s in
  let b := side (negb d) s in
  if is_red b then mk d c (mk d true t p a) (ptr s) (blacken b)
  else mk d c (mk d true t p (side d a)) (ptr a) (mk d true (side (negb d) a) (ptr s) b).

(** [t] lacks one black node. *)
Fixpoint del_fix (t : ctree) (k : list frame) : ctree :=
  if is_red t then plug (blacken t) k
  else
    match k with
    | [] => t
    | Frame d c p s :: k =>
        if is_red s then
          let s' := side d s in
          let k' := Frame d c (ptr s) (side (negb d) s) :: k in
          if nephews_black s' then plug (mk d true t p (redden s')) k'
          else plug (del_rotate d false t p s') k'
        else if nephews_black s then del_fix (mk d c t p (redden s)) k
        else plug (del_rotate d c t p s) k
    end.

Lemma side_near d c a x b : side d (mk d c a x b) = a.
Proof. by destruct d. Qed.
Lemma side_far d c a x b : side (negb d) (mk d c a x b) = b.
Proof. by destruct d. Qed.
Lemma nephews_mk d c a x b : nephews_black (mk d c a x b) = negb (is_red a) && negb (is_red b).
Proof. destruct d; simpl; [done|]. unfold nephews_black. simpl. apply andb_comm. Qed.
Lemma redden_mk d c a x b : redden (mk d c a x b) = mk d false a x b.
Proof. by destruct d. Qed.
Lemma blacken_mk d c a x b : blacken (mk d c a x b) = mk d true a x b.
Proof. by destruct d. Qed.
Lemma red_mk d t : is_red t = true -> exists a x b, t = mk d false a x b.
Proof.
  destruct (mk_cases d t) as [->|(c & a & x & b & ->)]; [done|]. rw is_red_mk. destruct c; [done|]. by exists a, x, b.
Qed.
Lemma black_mk d t n : bal t (S n) -> is_red t = false -> exists a x b, t = mk d true a x b /\ bal a n /\ bal b n.
Proof.
  destruct (mk_cases d t) as [->|(c & a & x & b & ->)]; [done|]. rw is_red_mk. destruct c; [|done].
  rw bal_black. by exists a, x, b.
Qed.

(** *** Rules *)

Lemma del_rotate_ok d c t p s n :
  bal t n -> is_red t = false -> bal s (S n) -> is_red s = false -> nephews_black s = false ->
  exists a x b, del_rotate d c t p s = mk d c a x b /\ is_red a = false /\ is_red b = false /\ bal a (S n) /\ bal b (S n).
Proof.
  intros Ht Hr Hs Hsr Hn. destruct (black_mk d s n Hs Hsr) as (a & x & b & -> & Ha & Hb).
  unfold del_rotate. rw side_near side_far ptr_mk. rw nephews_mk in Hn. destruct (is_red b) eqn:Eb.
  - exists (mk d true t p a), x, (blacken b). rw is_red_mk is_red_blacken.
    split_and!; [done..|by apply bal_black|by apply bal_blacken].
  - rw andb_true_r in Hn. apply negb_false_iff in Hn. destruct (red_mk d a Hn) as (a1 & ax & a2 & ->).
    apply bal_red in Ha as (H1 & H2 & H3 & H4). rw side_near side_far ptr_mk.
    eexists _, _, _. split; [done|]. rw !is_red_mk. split_and!; [done..|by apply bal_black|by apply bal_black].
Qed.

Lemma del_fix_valid k : forall t n, bal t n -> ctx_ok k (S n) -> rb_valid (del_fix t k).
Proof.
  induction k as [|[d c p s] k IH]; intros t n Ht Hk; simpl; destruct (is_red t) eqn:Er.
  - split; [apply is_red_blacken|]. exists (S n). by apply bal_blacken.
  - split; [done|by exists n].
  - apply (plug_ok (Frame d c p s :: k) (blacken t) (S n)); [by apply bal_blacken|done|left; apply is_red_blacken|done].
  - destruct (is_red s) eqn:Es.
    + assert (Hc : c = true) by (destruct c; [done|]; destruct Hk as [Hk _]; congruence). subst c.
      destruct Hk as [Hs Hk]. destruct (red_mk d s Es) as (a & x & b & ->).
      apply bal_red in Hs as (Ha & Hb & Ha2 & Hb2). rw side_near side_far ptr_mk.
      assert (Hk' : ctx_ok (Frame d true x b :: k) (S n)) by done.
      assert (Hj : forall t', joinable t' (Frame d true x b :: k)) by (intros t'; right; by eexists _, _).
      destruct (nephews_black a) eqn:En.
      * destruct (black_mk d a n Ha2 Ha) as (a1 & ax & a2 & -> & H1 & H2). rw nephews_mk in En.
        apply andb_true_iff in En as [E1%negb_true_iff E2%negb_true_iff].
        apply (plug_ok (Frame d true x b :: k) _ (S n)); [|done|done|done].
        apply bal_black. rw redden_mk. split; [done|]. by apply bal_red.
      * destruct (del_rotate_ok d false t p a n) as (a1 & ax & a2 & -> & R1 & R2 & B1 & B2); [done..|].
        apply (plug_ok (Frame d true x b :: k) _ (S n)); [by apply bal_red|done|done|done].
    + assert (Hs : bal s (S n)) by (destruct c; simpl in Hk; tauto).
      destruct (nephews_black s) eqn:En.
      * destruct (black_mk d s n Hs Es) as (a & x & b & -> & H1 & H2). rw nephews_mk in En.
        apply andb_true_iff in En as [E1%negb_true_iff E2%negb_true_iff]. rw redden_mk. destruct c.
        -- apply IH with (S n); [|apply Hk]. apply bal_black. split; [done|]. by apply bal_red.
        -- simpl in Hk. destruct Hk as (_ & _ & _ & Hk).
           assert (E : del_fix (mk d false t p (mk d false a x b)) k = plug (mk d true t p (mk d false a x b)) k).
           { destruct k; simpl; by rw is_red_mk /= blacken_mk. }
           rw E. apply (plug_ok k _ (S n)); [|done|left; by rw is_red_mk|intros _; by rw is_red_mk].
           apply bal_black. split; [done|]. by apply bal_red.
      * destruct (del_rotate_ok d c t p s n) as (a1 & ax & a2 & -> & R1 & R2 & B1 & B2); [done..|]. destruct c.
        -- apply (plug_ok k _ (S (S n))); [by apply bal_black|apply Hk|left; by rw is_red_mk|intros _; by rw is_red_mk].
        -- simpl in Hk. destruct Hk as (_ & _ & (f & k' & -> & Hf) & Hk).
           apply (plug_ok (f :: k') _ (S n)); [by apply bal_red|done|right; by exists f, k'|done].
Qed.

Lemma del_rotate_elements d c t p s n :
  bal s (S n) -> is_red s = false -> nephews_black s = false ->
  elements (del_rotate d c t p s) = elements (mk d c t p s).
Proof.
  intros Hs Hsr Hn. destruct (black_mk d s n Hs Hsr) as (a & x & b & -> & _).
  unfold del_rotate. rw side_near side_far ptr_mk. rw nephews_mk in Hn. destruct (is_red b) eqn:Eb.
  - destruct (red_mk d b Eb) as (b1 & bx & b2 & ->). rw blacken_mk !elements_mk. destruct d; by rw -?app_assoc /= -?app_assoc.
  - rw andb_true_r in Hn. apply negb_false_iff in Hn. destruct (red_mk d a Hn) as (a1 & ax & a2 & ->).
    rw side_near side_far ptr_mk !elements_mk. destruct d; by rw -?app_assoc /= -?app_assoc.
Qed.

Lemma elements_redden t : elements (redden t) = elements t.
Proof. by destruct t. Qed.
Lemma elements_blacken t : elements (blacken t) = elements t.
Proof. by destruct t. Qed.

Lemma del_fix_elements k : forall t n, bal t n -> ctx_ok k (S n) -> elements (del_fix t k) = elements (plug t k).
Proof.
  induction k as [|[d c p s] k IH]; intros t n Ht Hk; simpl; destruct (is_red t) eqn:Er.
  - apply elements_blacken.
  - done.
  - apply elements_plug_ext. unfold plug1. simpl. by rw !elements_mk elements_blacken.
  - destruct (is_red s) eqn:Es.
    + assert (Hs : bal s (S n)) by (destruct c; simpl in Hk; tauto). destruct (red_mk d s Es) as (a & x & b & ->).
      apply bal_red in Hs as (Ha & Hb & Ha2 & Hb2). rw side_near side_far ptr_mk.
      destruct (nephews_black a) eqn:En; simpl; apply elements_plug_ext; unfold plug1; simpl;
        rw !elements_mk ?(del_rotate_elements _ _ _ _ _ n) // ?elements_mk ?elements_redden;
        destruct d; by rw -?app_assoc /= -?app_assoc.
    + assert (Hs : bal s (S n)) by (destruct c; simpl in Hk; tauto). destruct (nephews_black s) eqn:En.
      * assert (E : elements (mk d c t p (redden s)) = elements (mk d c t p s)) by by rw !elements_mk elements_redden.
        destruct (black_mk d s n Hs Es) as (a & x & b & -> & H1 & H2). rw redden_mk in E. rw redden_mk. destruct c.
        -- rw (IH _ (S n)); [by apply elements_plug_ext| |apply Hk]. rw nephews_mk in En.
           apply andb_true_iff in En as [E1%negb_true_iff E2%negb_true_iff].
           apply bal_black. split; [done|]. by apply bal_red.
        -- assert (E' : del_fix (mk d false t p (mk d false a x b)) k = plug (mk d true t p (mk d false a x b)) k).
           { destruct k; simpl; by rw is_red_mk /= blacken_mk. }
           rw E'. apply elements_plug_ext. unfold plug1. simpl. by rw -E !elements_mk.
      * apply elements_plug_ext. by apply del_rotate_elements with n.
Qed.

(** ** The code computes it *)

Section sim.
  Context `{!gen_heapGS Z rb_node Σ}.

Lemma wp_black_or_null q t r Q : is_ptr q ->
  tree_at q t -∗ (tree_at q t -∗ Q (negb (is_red t)) r) -∗ wp (is_black_or_null (ptr t)) r Q.
Proof.
  iIntros (Hq) "Ht HQ". unfold is_black_or_null. destruct t as [|c l x rt]; simpl; [iApply wp_ret; by iApply "HQ"|].
  iDestruct "Ht" as "(%Hx & Hx & Hl & Hr)". rw addr_eqb //.
  iApply (wp_is_black with "Hx"); [done|]. iIntros "Hx". destruct c; iApply "HQ"; by iFrame.
Qed.

Lemma erase_rotate_sim d c t p s n k r Q :
  is_addr p -> bal s (S n) -> is_red s = false -> nephews_black s = false ->
  tree_at p t -∗ p ↦ nd d (top k) c (ptr t) (ptr s) -∗ tree_at p s -∗ ctx_at k p r -∗
  (∀ r', tree_at (top k) (del_rotate d c t p s) -∗ ctx_at k (ptr (del_rotate d c t p s)) r' -∗ Q tt r') -∗
  wp (erase_rotate d p (ptr s)) r Q.
Proof.
  intros Hp Hs Hsr Hn. destruct (black_mk d s n Hs Hsr) as (a & x & b & -> & _).
  iIntros "Ht Hp Hs Hk HQ". iDestruct (ctx_top with "Hk") as %Htop.
  rw tree_at_mk ptr_mk. iDestruct "Hs" as "(%Hx & Hx & Ha & Hb)".
  unfold erase_rotate, del_rotate. rw side_near side_far ptr_mk. rw nephews_mk in Hn.
  iApply wp_bind. iApply (wp_load with "Hx"). iIntros "Hx". rw child_far child_near.
  iApply wp_bind. iApply (wp_black_or_null with "Hb"); [auto|]. iIntros "Hb".
  destruct (is_red b) eqn:Eb.
  - iApply wp_bind. iApply wp_ret. iApply wp_bind. iApply (wp_load with "Hx"). iIntros "Hx". rw child_near.
    iApply wp_bind. iApply (wp_set_far with "Hp"). iIntros "Hp".
    iApply wp_bind. iApply (wp_adopt with "Ha"); [auto|]. iIntros "Ha".
    iApply wp_bind. iApply (wp_set_near with "Hx"). iIntros "Hx".
    iApply wp_bind. iApply (wp_load with "Hx"). iIntros "Hx". rw child_far.
    destruct (red_mk d b Eb) as (b1 & bx & b2 & ->). rw !ptr_mk blacken_mk.
    iDestruct (tree_at_mk with "Hb") as "(%Hbx & Hbx & Hb1 & Hb2)".
    iApply wp_bind. iApply (wp_set_color _ _ _ _ _ _ _ true with "Hbx"); [auto|]. iIntros "Hbx".
    iApply (wp_rotate_set_parents _ _ _ _ _ _ _ _ _ _ _ _ true with "Hp Hx Hk"); [done|]. iIntros (r') "Hp Hx Hk".
    iApply ("HQ" with "[-Hk]").
    + rw !tree_at_mk /= ?ptr_mk. by iFrame.
    + by rw ?ptr_mk.
  - rw andb_true_r in Hn. apply negb_false_iff in Hn. destruct (red_mk d a Hn) as (a1 & ax & a2 & ->).
    rw !ptr_mk side_near side_far. iDestruct (tree_at_mk with "Ha") as "(%Hax & Hax & Ha1 & Ha2)".
    iApply wp_bind. iApply wp_bind. iApply (wp_load with "Hax"). iIntros "Hax". rw child_far.
    iApply wp_bind. iApply (wp_set_near with "Hx"). iIntros "Hx".
    iApply wp_bind. iApply (wp_adopt with "Ha2"); [auto|]. iIntros "Ha2".
    iApply wp_bind. iApply (wp_set_far with "Hax"). iIntros "Hax".
    iApply wp_bind. iApply (wp_set_parent with "Hx"); [auto|]. iIntros "Hx".
    iApply wp_bind. iApply (wp_set_far with "Hp"). iIntros "Hp".
    iApply wp_bind. iApply (wp_set_parent with "Hax"); [auto|]. iIntros "Hax". iApply wp_ret.
    iApply wp_bind. iApply (wp_load with "Hax"). iIntros "Hax". rw child_near.
    iApply wp_bind. iApply (wp_set_far with "Hp"). iIntros "Hp".
    iApply wp_bind. iApply (wp_adopt with "Ha1"); [auto|]. iIntros "Ha1".
    iApply wp_bind. iApply (wp_set_near with "Hax"). iIntros "Hax".
    iApply wp_bind. iApply (wp_load with "Hax"). iIntros "Hax". rw child_far.
    iApply wp_bind. iApply (wp_set_color _ _ _ _ _ _ _ true with "Hx"); [auto|]. iIntros "Hx".
    iApply (wp_rotate_set_parents _ _ _ _ _ _ _ _ _ _ _ _ true with "Hp Hax Hk"); [done|]. iIntros (r') "Hp Hax Hk".
    iApply ("HQ" with "[-Hk]").
    + rw !tree_at_mk /= ?ptr_mk. by iFrame.
    + by rw ?ptr_mk.
Qed.

(** Case 1, with the parent and sibling after it. *)
Lemma red_sibling_sim d c t p s k r Q :
  is_addr p ->
  p ↦ nd d (top k) c (ptr t) (ptr s) -∗ tree_at p s -∗ ctx_at k p r -∗
  (∀ r' c' s' k', ⌜if is_red s then c' = false /\ s' = side d s /\ k' = Frame d c (ptr s) (side (negb d) s) :: k
                   else c' = c /\ s' = s /\ k' = k⌝ -∗
     p ↦ nd d (top k') c' (ptr t) (ptr s') -∗ tree_at p s' -∗ ctx_at k' p r' -∗ Q (ptr s') r') -∗
  wp (erase_red_sibling d p (ptr s)) r Q.
Proof.
  iIntros (Hp) "Hp Hs Hk HQ". unfold erase_red_sibling.
  iApply wp_bind. iApply (wp_tree_red with "Hs"); [auto|]. iIntros "Hs".
  destruct (is_red s) eqn:Es; [|iApply wp_ret; by iApply ("HQ" with "[] Hp Hs Hk")].
  destruct (red_mk d s Es) as (a & x & b & ->). rw !ptr_mk side_near side_far.
  iDestruct (tree_at_mk with "Hs") as "(%Hx & Hx & Ha & Hb)".
  iApply wp_bind. iApply (wp_load with "Hx"). iIntros "Hx". rw child_near.
  iApply wp_bind. iApply (wp_set_far with "Hp"). iIntros "Hp".
  iApply wp_bind. iApply (wp_adopt with "Ha"); [auto|]. iIntros "Ha".
  iApply wp_bind. iApply (wp_set_near with "Hx"). iIntros "Hx". iApply wp_bind.
  iApply (wp_rotate_set_parents _ _ _ _ _ _ _ _ _ _ _ _ false with "Hp Hx Hk"); [done|]. iIntros (r') "Hp Hx Hk".
  iApply wp_bind. iApply (wp_load with "Hp"). iIntros "Hp". rw child_far. iApply wp_ret.
  iApply ("HQ" $! r' false a (Frame d c x b :: k) with "[//] Hp Ha"). simpl. by iFrame.
Qed.

(** Reading the colours of both nephews. *)
Lemma nephews_sim {A} q s n r (K : bool -> bool -> R A) Q : is_ptr q ->
  bal s (S n) -> is_red s = false ->
  tree_at q s -∗ (∀ b1 b2, ⌜b1 && b2 = nephews_black s⌝ -∗ tree_at q s -∗ wp (K b1 b2) r Q) -∗
  wp (s' ← load (ptr s); b1 ← is_black_or_null (rb_left s'); b2 ← is_black_or_null (rb_right s'); K b1 b2) r Q.
Proof.
  iIntros (Hq Hs Hr) "Hs HK". destruct s as [|cs a x b]; [done|]. simpl. iDestruct "Hs" as "(%Hx & Hx & Ha & Hb)".
  iApply wp_bind. iApply (wp_load with "Hx"). iIntros "Hx". simpl.
  iApply wp_bind. iApply (wp_black_or_null with "Ha"); [auto|]. iIntros "Ha".
  iApply wp_bind. iApply (wp_black_or_null with "Hb"); [auto|]. iIntros "Hb".
  iApply ("HK" with "[//]"). by iFrame.
Qed.

Lemma erase_fixup_sim fuel t k r Q :
  is_red t = true \/ (exists n, ctx_ok k (S n)) -> (length k + (if is_red t then 0 else 1) < fuel)%nat ->
  tree_at (top k) t -∗ ctx_at k (ptr t) r -∗
  (∀ r', tree_at 0 (del_fix t k) -∗ ⌜r' = ptr (del_fix t k)⌝ -∗ Q tt r') -∗
  wp (rb_erase_fixup fuel (ptr t) (top k)) r Q.
Proof.
  revert t k r. induction fuel as [|fuel IH]; intros t k r Hok Hf; [lia|].
  iIntros "Ht Hk HQ". iDestruct (ctx_top with "Hk") as %Htop. cbn [rb_erase_fixup].
  iApply wp_bind. iApply (wp_tree_red with "Ht"); [done|]. iIntros "Ht". destruct (is_red t) eqn:Er.
  { assert (Ed : del_fix t k = plug (blacken t) k) by by destruct k; simpl; rw Er. rw Ed.
    destruct t as [|[] l x rt]; try done. simpl. iDestruct "Ht" as "(%Hx & Hx & Hl & Hr)".
    iApply (wp_set_color _ _ _ _ _ _ _ true with "Hx"); [done|]. iIntros "Hx".
    iDestruct (plug_up k (CNode true l x rt) with "[Hx Hl Hr] Hk") as "[Ht %E]"; [simpl; by iFrame|].
    by iApply ("HQ" with "Ht"). }
  destruct Hok as [?|[n Hok]]; [done|]. destruct k as [|[d c p s] k].
  { simpl. iApply wp_ret. rw Er. iDestruct "Hk" as %->. by iApply ("HQ" with "Ht"). }
  iDestruct "Hk" as "(%Hp & Hp & Hs & Hk)". cbn [top f_node]. rw addr_eqb //. cbn [del_fix]. rw Er.
  assert (Hs : bal s (S n)) by (destruct c; simpl in Hok; tauto).
  iApply wp_bind. iApply (wp_load with "Hp"). iIntros "Hp".
  iAssert ⌜ptr t <> ptr s⌝%I as %Hne.
  { destruct s as [|cs sl sx sr]; [done|]. simpl. iDestruct "Hs" as "(%Hsx & Hsx & _)".
    iDestruct (ptr_ne with "Hsx Ht") as %Hne; [done|]. by iPureIntro. }
  rw side_test // child_far.
  iApply wp_bind. iApply (red_sibling_sim with "Hp Hs Hk"); [done|]. iIntros (r' c' s' k' Hcase) "Hp Hs Hk".
  assert (Hs' : bal s' (S n) /\ is_red s' = false).
  { destruct (is_red s) eqn:Es; [|by destruct Hcase as (-> & -> & ->)]. destruct Hcase as (-> & -> & ->).
    destruct (red_mk d s Es) as (a & x & b & ->). rw side_near. by apply bal_red in Hs as (? & _ & ? & _). }
  destruct Hs' as [Hs' Hsr']. iDestruct (ctx_top with "Hk") as %Htop'.
  iApply (nephews_sim with "Hs"); [auto|done..|]. iIntros (b1 b2 Hb) "Hs". rw Hb.
  destruct (nephews_black s') eqn:En.
  - destruct (black_mk d s' n Hs' Hsr') as (a & x & b & -> & _). rw ptr_mk.
    iDestruct (tree_at_mk with "Hs") as "(%Hx & Hx & Ha & Hb)".
    iApply wp_bind. iApply (wp_set_color _ _ _ _ _ _ _ false with "Hx"); [auto|]. iIntros "Hx".
    iApply wp_bind. iApply (wp_rb_parent with "Hp"); [done|]. iIntros "Hp".
    set (t' := mk d c' t p (mk d false a x b)). assert (Ep : p = ptr t') by by rw ptr_mk. rw Ep.
    iApply (IH t' k' with "[Ht Hp Hx Ha Hb] [Hk]"); last first.
    + destruct (is_red s) eqn:Es; destruct Hcase as (-> & E & ->).
      * rw -E En. assert (Ed : forall k', del_fix t' k' = plug (mk d true t p (redden (mk d true a x b))) k').
        { intros []; simpl; rw redden_mk is_red_mk /= /t' blacken_mk //. }
        rw Ed -Ep. iExact "HQ".
      * rw -E En redden_mk. rw -Ep. iExact "HQ".
    + by rw -Ep.
    + rw -Ep /t' !tree_at_mk !ptr_mk. by iFrame.
    + rw /t' is_red_mk. destruct (is_red s); destruct Hcase as (-> & _ & ->); simpl in *; destruct c; simpl in *; lia.
    + rw /t' is_red_mk. destruct (is_red s); destruct Hcase as (-> & _ & ->); [by left|].
      destruct c; [right|by left]. exists (S n). apply Hok.
  - iApply (erase_rotate_sim with "Ht Hp Hs Hk"); [done..|]. iIntros (r'') "Ht Hk".
    iDestruct (plug_up with "Ht Hk") as "[Ht %E]".
    destruct (is_red s); destruct Hcase as (-> & -> & ->); rw En; by iApply ("HQ" with "Ht").
Qed.
End sim.

(** ** Removing a node *)

(** The parent of a position in a subtree below [q]. *)
Definition top_in (k : list frame) (q : Z) : Z := match k with [] => q | f :: _ => f_node f end.

Lemma plug_app t k1 k2 : plug t (k1 ++ k2) = plug (plug t k1) k2.
Proof. revert t. induction k1 as [|f k1 IH]; intros t; simpl; [done|]. apply IH. Qed.

Lemma plug_node k c l x r : plug (CNode c l x r) k <> CLeaf.
Proof.
  revert c l x r. induction k as [|[[] c' y o] k IH]; intros; [done|..]; apply IH.
Qed.

Section segment.
  Context `{!gen_heapGS Z rb_node Σ}.

(** A path inside a subtree below [q]; [p] fills the position and [u] is the
    subtree's root. *)
Fixpoint seg_at (k : list frame) (p q u : Z) : iProp Σ :=
  match k with
  | [] => ⌜u = p⌝
  | Frame d c x o :: k =>
      ⌜is_addr x⌝ ∗ x ↦ nd d (top_in k q) c p (ptr o) ∗ tree_at x o ∗ seg_at k x q u
  end.

Lemma seg_split k t q :
  tree_at q (plug t k) ⊣⊢ tree_at (top_in k q) t ∗ seg_at k (ptr t) q (ptr (plug t k)).
Proof.
  revert t. induction k as [|[d c x o] k IH]; intros t; simpl.
  { iSplit; [by iIntros "$"|by iIntros "[$ _]"]. }
  rw IH /plug1 /= tree_at_mk ptr_mk. iSplit; [iIntros "(($ & $ & $ & $) & $)"|iIntros "($ & $ & $ & $ & $)"].
Qed.

Lemma seg_join k d c x o k2 p u r :
  seg_at k p x u -∗ ⌜is_addr x⌝ -∗ x ↦ nd d (top k2) c u (ptr o) -∗ tree_at x o -∗ ctx_at k2 x r -∗
  ctx_at (k ++ Frame d c x o :: k2) p r.
Proof.
  revert p. induction k as [|[d' c' y o'] k IH]; intros p; simpl.
  { iIntros "-> % Hx Ho Hk". by iFrame. }
  iIntros "(% & Hy & Ho' & Hs) Hx1 Hx Ho Hk". iDestruct (IH with "Hs Hx1 Hx Ho Hk") as "$".
  iFrame "Ho'". iSplit; [done|]. destruct k as [|[]]; done.
Qed.

(** The root of a nonempty path gets a new parent. *)
Lemma wp_seg_parent k p q q' u r Q : k <> [] -> is_ptr q ->
  seg_at k p q u -∗ (seg_at k p q' u -∗ Q tt r) -∗ wp (rb_set_parent u q') r Q.
Proof.
  revert p Q. induction k as [|[d c x o] k IH]; intros p Q Hne Hq; [done|]. simpl.
  iIntros "(% & Hx & Ho & Hs) HQ". destruct k as [|f k].
  - iDestruct "Hs" as %->. iApply (wp_set_parent with "Hx"); [done|]. iIntros "Hx". iApply "HQ". by iFrame.
  - iApply (IH with "Hs"); [done..|]. iIntros "Hs". iApply "HQ". by iFrame.
Qed.

(** The leftmost ([d]) node of a subtree. *)
Lemma descend_sim fuel d t k q r Q :
  t <> CLeaf -> (height t <= fuel)%nat -> is_ptr q -> Forall (fun f => f_side f = d) k ->
  tree_at q (plug t k) -∗
  (∀ k' c x b, ⌜plug (mk d c CLeaf x b) k' = plug t k /\ Forall (fun f => f_side f = d) k'⌝ -∗
     tree_at q (plug t k) -∗ Q x r) -∗
  wp (descend fuel d (ptr t)) r Q.
Proof.
  revert t k. induction fuel as [|fuel IH]; intros t k Ht Hf Hq Hk.
  { destruct t; [done|simpl in Hf; lia]. }
  destruct (mk_cases d t) as [->|(c & a & x & b & ->)]; [done|]. rw height_mk in Hf. iIntros "Ht HQ". simpl.
  iDestruct (seg_split with "Ht") as "[Ht Hs]". iDestruct (tree_at_mk with "Ht") as "(%Hx & Hx & Ha & Hb)". rw ptr_mk.
  iApply wp_bind. iApply (wp_load with "Hx"). iIntros "Hx". rw child_near.
  iAssert ⌜(ptr a =? 0) = (if a is CLeaf then true else false)⌝%I as %Ea.
  { destruct a; simpl; [done|]. iDestruct "Ha" as "(% & _)". iPureIntro. by apply addr_eqb. }
  rw Ea.
  iAssert (tree_at q (plug (mk d c a x b) k)) with "[Hx Ha Hb Hs]" as "Ht".
  { iApply seg_split. rw tree_at_mk ptr_mk. by iFrame. }
  destruct a as [|ca al ax ar] eqn:Eq.
  - iApply wp_ret. by iApply ("HQ" $! k c x b with "[//]").
  - rw -Eq in Hf *. assert (Ep : plug (mk d c a x b) k = plug a (Frame d c x b :: k)) by done.
    iApply (IH a (Frame d c x b :: k) with "[Ht]"); [by rw Eq|lia|done|by constructor|by subst a|].
    iIntros (k' c' x' b' [E Hk']) "Ht". iApply ("HQ" $! k' c' x' b'); [|by subst a]. iPureIntro. split; [|done].
    by rw E Eq.
Qed.

(** The last part of [erase_two]: the successor [sx] takes the place of [x]. *)
Lemma take_place_sim {A} c l x u k k2 sx cs q p u' r (K : R A) Q :
  l <> CLeaf -> is_addr x -> is_addr sx ->
  x ↦ nd true (top k) c (ptr l) u -∗ sx ↦ nd true q cs 0 u' -∗ seg_at k2 p sx u' -∗
  tree_at x l -∗ ctx_at k x r -∗
  (∀ r', x ↦ nd true (top k) c (ptr l) u -∗ ctx_at (k2 ++ Frame false c sx l :: k) p r' -∗ wp K r' Q) -∗
  wp (n ← load x; _ ← set_child true sx (rb_left n); _ ← rb_set_parent (rb_left n) sx;
      np ← rb_parent x; n ← load x; _ ← set_word sx (rb_word n); _ ← relink np x sx; K) r Q.
Proof.
  iIntros (Hl Hx Hsx) "Hx Hsx Hs Hl Hk HK". iDestruct (ctx_top with "Hk") as %Htop.
  iApply wp_bind. iApply (wp_load with "Hx"). iIntros "Hx". simpl.
  iApply wp_bind. iApply (wp_set_near with "Hsx"). iIntros "Hsx".
  destruct l as [|cl ll lx lr]; [done|]. simpl. iDestruct "Hl" as "(%Hlx & Hlx & Hll & Hlr)".
  iApply wp_bind. iApply (wp_set_parent with "Hlx"); [auto|]. iIntros "Hlx".
  iApply wp_bind. iApply (wp_rb_parent with "Hx"); [done|]. iIntros "Hx".
  iApply wp_bind. iApply (wp_load with "Hx"). iIntros "Hx". simpl.
  iApply wp_bind. iApply (wp_set_pack with "Hsx"). iIntros "Hsx".
  iApply wp_bind. iApply (wp_relink with "Hk Hx"); [done|]. iIntros (r') "Hk Hx".
  iApply ("HK" with "Hx"). iApply (seg_join k2 false c sx (CNode cl ll lx lr) k with "Hs [//] Hsx [Hlx Hll Hlr] Hk"). by iFrame.
Qed.

(** The successor takes the place of [x]; the subtree [sr] that was below it
    hangs where the successor was, but when the successor was the child of [x]
    its parent pointer is [x]. *)
Lemma erase_two_sim fuel c l x rt k r Q :
  l <> CLeaf -> rt <> CLeaf -> (height rt <= fuel)%nat -> is_addr x ->
  x ↦ nd true (top k) c (ptr l) (ptr rt) -∗ tree_at x l -∗ tree_at x rt -∗ ctx_at k x r -∗
  (∀ k2 cs sx sr r', ⌜rt = plug (CNode cs CLeaf sx sr) k2 /\ Forall (fun f => f_side f = true) k2⌝ -∗
     x ↦ nd true (top k) c (ptr l) (ptr rt) -∗ tree_at (top_in k2 x) sr -∗
     ctx_at (k2 ++ Frame false c sx l :: k) (ptr sr) r' -∗
     Q (ptr sr, top (k2 ++ Frame false c sx l :: k), col cs) r') -∗
  wp (erase_two fuel x) r Q.
Proof.
  iIntros (Hl Hrt Hf Hx) "Hx Hl Ht Hk HQ". iDestruct (ctx_top with "Hk") as %Htop. unfold erase_two.
  iApply wp_bind. iApply (wp_load with "Hx"). iIntros "Hx". simpl.
  iApply wp_bind. iApply (descend_sim fuel true rt [] with "Ht"); [done|done|auto|done|].
  iIntros (k2 cs sx sr [E Hk2]) "Ht". simpl in E. subst rt.
  iDestruct (seg_split k2 (CNode cs CLeaf sx sr) with "Ht") as "[(%Hsx & Hsx & _ & Hsr) Hs]". simpl.
  iApply wp_bind. iApply (wp_load with "Hsx"). iIntros "Hsx". simpl.
  iAssert ⌜is_ptr (top_in k2 x)⌝%I as %Hpar.
  { destruct k2 as [|[]]; simpl; [auto|]. iDestruct "Hs" as "(% & _)". auto. }
  iApply wp_bind. iApply (wp_rb_parent with "Hsx"); [done|]. iIntros "Hsx".
  iApply wp_bind. iApply (wp_rb_color with "Hsx"); [done|]. iIntros "Hsx".
  iApply wp_bind. iApply (wp_adopt with "Hsr"); [auto|]. iIntros "Hsr".
  destruct k2 as [|[d c2 y o] k2]; simpl.
  - iClear "Hs". rw Z.eqb_refl. iApply wp_bind. iApply wp_bind.
    iApply (wp_set_far _ _ true with "Hsx"). iIntros "Hsx". iApply wp_ret.
    iApply (take_place_sim c l x sx k [] sx cs x (ptr sr) (ptr sr) with "Hx Hsx [//] Hl Hk"); [done..|]. iIntros (r') "Hx Hk".
    iApply wp_ret. iApply ("HQ" $! [] with "[//] Hx Hsr Hk").
  - assert (d = true) as -> by by inversion Hk2.
    iDestruct "Hs" as "(%Hy & Hy & Ho & Hs)". iDestruct (pointsto_ne with "Hy Hx") as %Hne.
    assert ((y =? x) = false) as -> by by apply Z.eqb_neq. iApply wp_bind. iApply wp_bind.
    iApply (wp_set_near with "Hy"). iIntros "Hy". iApply wp_bind. iApply (wp_load with "Hx"). iIntros "Hx". simpl.
    iApply wp_bind. iApply (wp_set_far _ _ true with "Hsx"). iIntros "Hsx". iApply wp_bind.
    iApply (wp_seg_parent (Frame true c2 y o :: k2) _ x sx with "[Hy Ho Hs]"); [done|auto|simpl; by iFrame|].
    iIntros "Hs". iApply wp_ret.
    iApply (take_place_sim c l x _ k (Frame true c2 y o :: k2) sx cs y (ptr sr) with "Hx Hsx Hs Hl Hk"); [done..|]. iIntros (r') "Hx Hk".
    iApply wp_ret. by iApply ("HQ" $! (Frame true c2 y o :: k2) with "[//] Hx Hsr Hk").
Qed.
End segment.

(** *** What is left of the tree *)

Lemma pre_app k1 k2 : pre (k1 ++ k2) = pre k2 ++ pre k1.
Proof. induction k1 as [|[[] c x o] k1 IH]; simpl; [by rw app_nil_r|done|]. by rw IH -app_assoc. Qed.
Lemma post_app k1 k2 : post (k1 ++ k2) = post k1 ++ post k2.
Proof. induction k1 as [|[[] c x o] k1 IH]; simpl; [done| |done]. by rw IH -app_assoc. Qed.
Lemma pre_left k : Forall (fun f => f_side f = true) k -> pre k = [].
Proof. induction 1 as [|[d c x o] k Hd Hk IH]; simpl in *; [done|]. by subst d. Qed.

(** Addresses do not matter to the rules. *)
Lemma ctx_ok_app k1 d c x y o k2 n :
  ctx_ok (k1 ++ Frame d c x o :: k2) n -> ctx_ok (k1 ++ Frame d c y o :: k2) n.
Proof.
  revert n. induction k1 as [|[d' c' x' o'] k1 IH]; intros n; [done|]. simpl. destruct c'; [naive_solver|].
  intros (H1 & H2 & (f & k' & E & Hf) & H3). split_and!; [done|done| |by apply IH].
  destruct k1 as [|f1 k1]; simpl in *; [|by exists f1, (k1 ++ Frame d c y o :: k2); injection E as <- _].
  injection E as <- _. by exists (Frame d c y o), k2.
Qed.

(** [t0] stands where a node of colour [cs] was removed. *)
Definition spliced (cs : bool) (t0 : ctree) (k : list frame) : Prop :=
  exists n, bal t0 n /\ if cs then ctx_ok k (S n) else is_red t0 = false /\ ctx_ok k n.
Definition repair (cs : bool) (t0 : ctree) (k : list frame) : ctree := if cs then del_fix t0 k else plug t0 k.

Lemma repair_ok cs t0 k : spliced cs t0 k ->
  rb_valid (repair cs t0 k) /\ elements (repair cs t0 k) = pre k ++ elements t0 ++ post k.
Proof.
  intros (n & Ht & Hk). destruct cs; simpl.
  - split; [by apply del_fix_valid with n|]. by rw (del_fix_elements _ _ n) // elements_plug.
  - destruct Hk as [Hr Hk]. split; [|by rw elements_plug]. apply plug_ok with n; [done|done|by left|done].
Qed.

Section erase.
  Context `{!gen_heapGS Z rb_node Σ}.

Lemma repair_sim fuel cs t0 k r Q : spliced cs t0 k -> (length k + 1 < fuel)%nat ->
  tree_at (top k) t0 -∗ ctx_at k (ptr t0) r -∗
  (∀ r', tree_at 0 (repair cs t0 k) -∗ ⌜r' = ptr (repair cs t0 k)⌝ -∗ Q tt r') -∗
  wp (if col cs =? RB_BLACK then rb_erase_fixup fuel (ptr t0) (top k) else mret tt) r Q.
Proof.
  iIntros ((n & Ht & Hk) Hf) "Ht Hk HQ". destruct cs; simpl.
  - iApply (erase_fixup_sim with "Ht Hk HQ"); [right; by exists n|destruct (is_red t0); lia].
  - iApply wp_ret. iDestruct (plug_up with "Ht Hk") as "[Ht %E]". by iApply ("HQ" with "Ht").
Qed.

Lemma splice_sim x d c t0 b k r Q : is_addr x ->
  x ↦ nd d (top k) c (ptr t0) b -∗ tree_at x t0 -∗ ctx_at k x r -∗
  (∀ r', x ↦ nd d (top k) c (ptr t0) b -∗ tree_at (top k) t0 -∗ ctx_at k (ptr t0) r' -∗
     Q (ptr t0, top k, col c) r') -∗
  wp (splice x (ptr t0)) r Q.
Proof.
  iIntros (Hx) "Hx Ht Hk HQ". iDestruct (ctx_top with "Hk") as %Htop. unfold splice.
  iApply wp_bind. iApply (wp_rb_parent with "Hx"); [done|]. iIntros "Hx".
  iApply wp_bind. iApply (wp_rb_color with "Hx"); [done|]. iIntros "Hx".
  iApply wp_bind. iApply (wp_adopt with "Ht"); [auto|]. iIntros "Ht".
  iApply wp_bind. iApply (wp_relink with "Hk Hx"); [done|]. iIntros (r') "Hk Hx".
  iApply wp_ret. iApply ("HQ" with "Hx Ht Hk").
Qed.
End erase.

(** The shape in which the code goes wrong: the successor of [x] is its right
    child and has a right child [y]. *)
Definition stale (t : ctree) (x y : Z) : Prop :=
  exists k c l cs sx cr a b, l <> CLeaf /\
    t = plug (CNode c l x (CNode cs CLeaf sx (CNode cr a y b))) k.

Lemma spliced_one d c t0 x k : rb_valid (plug (mk d c t0 x CLeaf) k) -> spliced c t0 k.
Proof.
  intros (n & Ht & Hk & _)%plug_inv. destruct c.
  - apply bal_black_inv in Ht as (m & -> & Ht & _). by exists m.
  - apply bal_red in Ht as (Hr & _ & Ht & _). by exists n.
Qed.
Lemma spliced_two c l x cs sx sr k2 k :
  rb_valid (plug (CNode c l x (plug (CNode cs CLeaf sx sr) k2)) k) ->
  spliced cs sr (k2 ++ Frame false c sx l :: k) /\ (length (k2 ++ Frame false c sx l :: k) + 1 <
    path_fuel (length (elements (plug (CNode c l x (plug (CNode cs CLeaf sx sr) k2)) k))))%nat.
Proof.
  assert (E : plug (CNode c l x (plug (CNode cs CLeaf sx sr) k2)) k =
              plug (CNode cs CLeaf sx sr) (k2 ++ Frame false c x l :: k)) by by rw plug_app.
  rw E. intros Hv. split.
  - destruct (plug_inv _ _ Hv) as (n & Ht & Hk & _). apply ctx_ok_app with (y := sx) in Hk. destruct cs.
    + destruct n as [|n]; [done|]. destruct Ht as [_ Ht]. by exists n.
    + destruct Ht as (_ & Hr & _ & Ht). by exists n.
  - pose proof (valid_path _ _ Hv) as Hp. rw !length_app /= in Hp *. lia.
Qed.

(** ** Erasure on trees *)

(** The leftmost node of the tree [CNode c l x r] in context [k]: its colour, its
    key, its right subtree and its context. *)
Fixpoint leftmost (c : bool) (l : ctree) (x : Z) (r : ctree) (k : list frame)
    : bool * Z * ctree * list frame :=
  match l with
  | CLeaf => (c, x, r, k)
  | CNode c' l' x' r' => leftmost c' l' x' r' (Frame true c x r :: k)
  end.

(** What [rb_erase] makes of the node with children [l] and [r]. *)
Definition erase_node (c : bool) (l r : ctree) (k : list frame) : ctree :=
  match l, r with
  | CLeaf, _ => repair c r k
  | _, CLeaf => repair c l k
  | _, CNode cr rl rx rr =>
      let '(cs, sx, sr, k2) := leftmost cr rl rx rr [] in
      repair cs sr (k2 ++ Frame false c sx l :: k)
  end.

(** The node [x] of a tree in context [k]. *)
Fixpoint find_node (t : ctree) (x : Z) (k : list frame) : option (bool * ctree * ctree * list frame) :=
  match t with
  | CLeaf => None
  | CNode c l y r =>
      if y =? x then Some (c, l, r, k)
      else match find_node l x (Frame true c y r :: k) with
           | Some n => Some n
           | None => find_node r x (Frame false c y l :: k)
           end
  end.

Definition rb_unlink (t : ctree) (x : Z) : ctree :=
  match find_node t x [] with Some (c, l, r, k) => erase_node c l r k | None => t end.

(** Erasing [x] leaves a parent pointer to it. *)
Definition stale_at (t : ctree) (x : Z) : bool :=
  match find_node t x [] with Some (_, l, r, _) => stale_node l r | None => false end.

Lemma find_node_plug t x : forall k c l r k', find_node t x k = Some (c, l, r, k') -> plug t k = plug (CNode c l x r) k'.
Proof.
  induction t as [|c0 l0 IHl y r0 IHr]; intros k c l r k' E; [done|]. simpl in E. destruct (Z.eqb_spec y x) as [->|Hne].
  { by injection E as -> -> -> ->. }
  destruct (find_node l0 x _) as [[[[c1 l1] r1] k1]|] eqn:El; [injection E as -> -> -> ->; by apply IHl in El|].
  by apply IHr in E.
Qed.

Lemma find_node_none t x k : x ∉ elements t -> find_node t x k = None.
Proof.
  revert k. induction t as [|c l IHl y r IHr]; intros k; simpl; [done|].
  rw not_elem_of_app not_elem_of_cons. intros (H1 & H2 & H3).
  destruct (Z.eqb_spec y x) as [->|_]; [done|]. by rw IHl // IHr.
Qed.
Lemma find_node_some t x k : x ∈ elements t -> is_Some (find_node t x k).
Proof.
  revert k. induction t as [|c l IHl y r IHr]; intros k; simpl; [by intros ?%elem_of_nil|].
  rw elem_of_app elem_of_cons. intros H. destruct (Z.eqb_spec y x) as [->|Hne]; [done|].
  destruct (find_node l x _) as [n|] eqn:E; [done|]. destruct H as [H|[->|H]]; [|done|by apply IHr].
  destruct (IHl (Frame true c y r :: k) H) as [? ?]. congruence.
Qed.

(** A node is at one position only. *)
Lemma find_node_context x k : forall t, x ∈ elements t -> clear x k -> find_node (plug t k) x [] = find_node t x k.
Proof.
  assert (H : forall k2 t, x ∈ elements t -> clear x k2 -> forall k1, find_node (plug t k2) x k1 = find_node t x (k2 ++ k1)).
  { induction k2 as [|[d c y o] k2 IH]; intros t Hx Hk k1; [done|]. apply list.Forall_cons in Hk as [[H1 H2] Hk]. simpl in *.
    assert (Hp : x ∈ elements (plug1 t (Frame d c y o))).
    { unfold plug1. simpl. rw elements_mk. destruct d; rw elem_of_app elem_of_cons; auto. }
    rw IH //. unfold plug1. destruct d; simpl; destruct (Z.eqb_spec y x) as [->|_]; try done.
    - destruct (find_node_some t x (Frame true c y o :: k2 ++ k1) Hx) as [n ->]. done.
    - by rw (find_node_none o). }
  intros t Hx Hk. rw (H k t Hx Hk []). by rw app_nil_r.
Qed.

Lemma clear_nodup c l x r k : NoDup (elements (plug (CNode c l x r) k)) -> clear x k.
Proof.
  assert (H : forall k t, x ∈ elements t -> NoDup (elements (plug t k)) -> clear x k).
  { clear. induction k as [|[d c y o] k IH]; intros t Hx Hn; [constructor|]. simpl in Hn.
    assert (Hp : x ∈ elements (plug1 t (Frame d c y o))).
    { unfold plug1. simpl. rw elements_mk. destruct d; rw elem_of_app elem_of_cons; auto. }
    apply list.Forall_cons. split; [|by apply (IH _ Hp)]. rw elements_plug in Hn.
    apply list.NoDup_app in Hn as (_ & _ & Hn). apply list.NoDup_app in Hn as [Hn _].
    unfold plug1 in Hn. simpl in *. rw elements_mk in Hn.
    destruct d; apply list.NoDup_app in Hn as (_ & Hd & Hn); apply list.NoDup_cons in Hn as [Hy _].
    - specialize (Hd x Hx). rw not_elem_of_cons in Hd. naive_solver.
    - split; [by intros ->|]. intros Ho. apply (Hd x Ho). by right. }
  intros Hn. apply (H k (CNode c l x r)); [|done]. simpl. rw elem_of_app elem_of_cons. auto.
Qed.

Lemma find_node_here c l x r k :
  NoDup (elements (plug (CNode c l x r) k)) -> find_node (plug (CNode c l x r) k) x [] = Some (c, l, r, k).
Proof.
  intros Hn. rw find_node_context; [|simpl; rw elem_of_app elem_of_cons; auto|by eapply clear_nodup].
  simpl. by rw Z.eqb_refl.
Qed.

Lemma leftmost_plug l c x r k cs sx sr k2 :
  leftmost c l x r k = (cs, sx, sr, k2) -> Forall (fun f => f_side f = true) k ->
  plug (CNode c l x r) k = plug (CNode cs CLeaf sx sr) k2 /\ Forall (fun f => f_side f = true) k2.
Proof.
  revert c x r k. induction l as [|c' l' IH x' r' _]; intros c x r k E Hk; simpl in E.
  { by injection E as -> -> -> ->. }
  apply IH in E as [E Hk2]; [done|by constructor].
Qed.

(** The leftmost node is unique. *)
Lemma leftmost_here cs sx sr k2 : forall c l x r k,
  Forall (fun f => f_side f = true) k2 -> CNode c l x r = plug (CNode cs CLeaf sx sr) k2 ->
  leftmost c l x r k = (cs, sx, sr, k2 ++ k).
Proof.
  induction k2 as [|f k2 IH] using rev_ind; intros c l x r k Hk E; [by injection E as -> -> -> ->|].
  apply list.Forall_app in Hk as [Hk Hf]. apply list.Forall_cons in Hf as [Hf _]. destruct f as [d c2 y o]. simpl in Hf. subst d.
  rw plug_app in E. simpl in E. unfold plug1 in E. simpl in E. injection E as -> -> -> ->.
  destruct (plug (CNode cs CLeaf sx sr) k2) as [|c3 l3 x3 r3] eqn:E3; [by apply plug_node in E3|].
  simpl. rw (IH c3 l3 x3 r3) //. by rw -app_assoc.
Qed.

Lemma erase_node_ok c l x r k : rb_valid (plug (CNode c l x r) k) ->
  rb_valid (erase_node c l r k) /\ elements (erase_node c l r k) = pre k ++ elements l ++ elements r ++ post k.
Proof.
  intros Hv. unfold erase_node. destruct l as [|cl ll lx lr].
  { apply repair_ok. by apply (spliced_one false c r x k). }
  destruct r as [|cr rl rx rr].
  { destruct (repair_ok c (CNode cl ll lx lr) k) as [H1 H2]; [by apply (spliced_one true c _ x k)|done]. }
  destruct (leftmost cr rl rx rr []) as [[[cs sx] sr] k2] eqn:El.
  apply leftmost_plug in El as [E Hk2]; [|done]. simpl in E. rw E in Hv *.
  destruct (spliced_two _ _ _ _ _ _ _ _ Hv) as [Hsp _]. destruct (repair_ok _ _ _ Hsp) as [H1 H2]. split; [done|].
  rw H2 elements_plug pre_app post_app /= (pre_left k2 Hk2) app_nil_r /=. by rw -!app_assoc /= -?app_assoc.
Qed.

Lemma rb_unlink_ok t x : rb_valid t -> x ∈ elements t ->
  rb_valid (rb_unlink t x) /\ exists l1 l2, elements t = l1 ++ x :: l2 /\ elements (rb_unlink t x) = l1 ++ l2.
Proof.
  intros Hv Hx. unfold rb_unlink. destruct (find_node_some t x [] Hx) as [[[[c l] r] k] E]. rw E.
  apply find_node_plug in E. simpl in E. subst t. destruct (erase_node_ok c l x r k Hv) as [H1 H2]. split; [done|].
  exists (pre k ++ elements l), (elements r ++ post k). rw H2 elements_plug /=. by rw -!app_assoc.
Qed.

Lemma calm_below x k : forall t, calm x (plug t k) -> calm x t.
Proof.
  induction k as [|[d c y o] k IH]; intros t Hc; [done|]. apply IH in Hc. unfold plug1 in Hc. destruct d; simpl in Hc; tauto.
Qed.
Lemma calm_stale t x : calm x t -> stale_at t x = false.
Proof.
  intros Hc. unfold stale_at. destruct (find_node t x []) as [[[[c l] r] k]|] eqn:E; [|done].
  apply find_node_plug in E. simpl in E. subst t. apply calm_below in Hc. simpl in Hc. by apply Hc.
Qed.

(** The first node has no left child. *)
Lemma first_not_stale t x : NoDup (elements t) -> list.head (elements t) = Some x -> stale_at t x = false.
Proof.
  intros Hn Hh. unfold stale_at. destruct (find_node t x []) as [[[[c l] r] k]|] eqn:E; [|done].
  apply find_node_plug in E. simpl in E. subst t. rw elements_plug /= in Hn Hh. rw -app_assoc app_assoc in Hn Hh.
  destruct l as [|cl ll lx lr]; [done|]. exfalso.
  destruct (pre k ++ elements (CNode cl ll lx lr)) as [|z p] eqn:Ep.
  - apply app_eq_nil in Ep as [_ Ep]. simpl in Ep. by apply app_eq_nil in Ep as [_ ?].
  - injection Hh as ->. simpl in Hn. apply list.NoDup_cons in Hn as [Hx _]. apply Hx, elem_of_app. right. by left.
Qed.

Lemma stale_at_false t x : NoDup (elements t) -> stale_at t x = false <-> forall y, ~ stale t x y.
Proof.
  intros Hn. split.
  - intros Hs y (k & c & l & cs & sx & cr & a & b & Hl & ->). revert Hs. unfold stale_at. rw find_node_here //.
    by destruct l.
  - intros Hs. unfold stale_at. destruct (find_node t x []) as [[[[c l] r] k]|] eqn:E; [|done].
    apply find_node_plug in E. simpl in E. subst t. destruct l as [|cl ll lx lr]; [done|].
    destruct r as [|cs [|] sx [|cr a y b]]; try done. exfalso. apply (Hs y).
    by exists k, c, (CNode cl ll lx lr), cs, sx, cr, a, b.
Qed.

Section erase_sim.
  Context `{!gen_heapGS Z rb_node Σ}.

Lemma rb_erase_sim fuel c l x rt k r Q :
  rb_valid (plug (CNode c l x rt) k) -> is_addr x ->
  (path_fuel (length (elements (plug (CNode c l x rt) k))) <= fuel)%nat ->
  (forall cs sx cr a y b, l = CLeaf \/ rt <> CNode cs CLeaf sx (CNode cr a y b)) ->
  x ↦ nd true (top k) c (ptr l) (ptr rt) -∗ tree_at x l -∗ tree_at x rt -∗ ctx_at k x r -∗
  (∀ r', tree_at 0 (erase_node c l rt k) -∗ ⌜r' = ptr (erase_node c l rt k)⌝ -∗ Q tt r') -∗
  wp (rb_erase fuel x) r Q.
Proof.
  iIntros (Hv Hx Hf Hs) "Hx Hl Hr Hk HQ". unfold rb_erase. pose proof (valid_path _ _ Hv) as Hp. simpl in Hp.
  iApply wp_bind. iApply (wp_load with "Hx"). iIntros "Hx". simpl.
  destruct l as [|cl ll lx lr].
  { simpl. iApply wp_bind. iApply (splice_sim x false c rt 0 with "Hx Hr Hk"); [done|]. iIntros (r') "Hx Ht Hk".
    assert (Hsp : spliced c rt k) by by apply (spliced_one false c rt x k).
    iApply (repair_sim with "Ht Hk"); [done|lia|]. iIntros (r'') "Ht %E". by iApply ("HQ" with "Ht"). }
  iAssert ⌜is_addr lx⌝%I as %Hlx; [by iDestruct "Hl" as "(% & _)"|]. simpl. rw addr_eqb //.
  destruct rt as [|cr rl rx rr].
  { simpl. iApply wp_bind. iApply (splice_sim x true c (CNode cl ll lx lr) 0 with "Hx Hl Hk"); [done|].
    iIntros (r') "Hx Ht Hk". assert (Hsp : spliced c (CNode cl ll lx lr) k) by by apply (spliced_one true c _ x k).
    iApply (repair_sim with "Ht Hk"); [done|lia|]. iIntros (r'') "Ht %E". by iApply ("HQ" with "Ht"). }
  iAssert ⌜is_addr rx⌝%I as %Hrx; [by iDestruct "Hr" as "(% & _)"|]. simpl. rw addr_eqb //.
  iApply wp_bind. iApply (erase_two_sim fuel c (CNode cl ll lx lr) x (CNode cr rl rx rr) with "Hx Hl Hr Hk"); [done|done|simpl in *; lia|done|].
  iIntros (k2 cs sx sr r' [E Hk2]) "Hx Ht Hk". rw E in Hv Hf Hs *.
  destruct (spliced_two _ _ _ _ _ _ _ _ Hv) as [Hsp Hl2].
  assert (Htop : tree_at (top_in k2 x) sr ⊢ tree_at (top (k2 ++ Frame false c sx (CNode cl ll lx lr) :: k)) sr).
  { destruct k2 as [|f k2]; [|done]. destruct sr as [|cr' a y b]; [done|]. by destruct (Hs cs sx cr' a y b) as [?|[]]. }
  iDestruct (Htop with "Ht") as "Ht".
  iApply (repair_sim with "Ht Hk"); [done|lia|]. iIntros (r'') "Ht %Er".
  rw (leftmost_here cs sx sr k2) // app_nil_r. by iApply ("HQ" with "Ht").
Qed.

(** In the stale shape [y] keeps [x] as its parent, and [x] stays as it was. *)
Lemma rb_erase_stale_sim fuel c l x rt k cs sx cr a y b r Q :
  rb_valid (plug (CNode c l x rt) k) -> is_addr x ->
  (path_fuel (length (elements (plug (CNode c l x rt) k))) <= fuel)%nat ->
  l <> CLeaf -> rt = CNode cs CLeaf sx (CNode cr a y b) ->
  x ↦ nd true (top k) c (ptr l) (ptr rt) -∗ tree_at x l -∗ tree_at x rt -∗ ctx_at k x r -∗
  (∀ r', x ↦ nd true (top k) c (ptr l) sx -∗ y ↦ nd true x true 0 0 -∗
     sx ↦ nd true (top k) c (ptr l) y -∗ ⌜is_addr y⌝ -∗ Q tt r') -∗
  wp (rb_erase fuel x) r Q.
Proof.
  iIntros (Hv Hx Hf Hl Hrt) "Hx Hl Hr Hk HQ". unfold rb_erase. pose proof (valid_path _ _ Hv) as Hp. simpl in Hp.
  destruct (plug_inv _ _ Hv) as (n & Hn & _). iApply wp_bind. iApply (wp_load with "Hx"). iIntros "Hx". simpl.
  iAssert ⌜(ptr l =? 0) = false⌝%I as %->.
  { destruct l as [|cl ll lx lr]; [done|]. simpl. iDestruct "Hl" as "(% & _)". iPureIntro. by apply addr_eqb. }
  iAssert ⌜(ptr rt =? 0) = false⌝%I as %->.
  { rw Hrt /=. iDestruct "Hr" as "(% & _)". iPureIntro. by apply addr_eqb. }
  iApply wp_bind. iApply (erase_two_sim fuel c l x rt with "Hx Hl Hr Hk"); [done|by rw Hrt|lia|done|].
  iIntros (k2 cs' sx' sr' r' [E Hk2]) "Hx Ht Hk". subst rt.
  assert (k2 = [] /\ cs' = cs /\ sx' = sx /\ sr' = CNode cr a y b) as (-> & -> & -> & ->).
  { destruct k2 as [|f k2] using rev_ind; [by injection E|]. rw plug_app in E. apply list.Forall_app in Hk2 as [_ Hk2].
    assert (Hd : f_side f = true) by by inversion Hk2. destruct f as [d c2 z o]. simpl in Hd. subst d.
    unfold plug, plug1 in E. simpl in E. injection E as _ E _ _. by destruct (plug_node k2 cs' CLeaf sx' sr'). }
  iAssert ⌜is_addr y⌝%I as %Hy; [by iDestruct "Ht" as "(% & _)"|]. simpl in *.
  assert (cr = false /\ a = CLeaf /\ b = CLeaf /\ cs = true) as (-> & -> & -> & ->).
  { assert (Hbal : exists m, bal (CNode cs CLeaf sx (CNode cr a y b)) m).
    { destruct c; [destruct n as [|m]; [done|]; destruct Hn as [_ Hn]; by exists m|]. destruct Hn as (_ & _ & _ & Hn). by exists n. }
    destruct Hbal as [m Hm]. destruct cs; simpl in Hm.
    - destruct m as [|m]; [done|]. destruct Hm as [-> Hm]. destruct cr; [done|]. destruct Hm as (H1 & H2 & H3 & H4).
      destruct a as [|[]], b as [|[]]; done.
    - destruct Hm as (_ & Hr & -> & Hm). destruct cr; done. }
  simpl. iDestruct "Ht" as "(_ & Hy & _ & _)". iDestruct "Hk" as "(_ & Hsx & _)".
  destruct fuel as [|fuel]; [lia|]. cbn [rb_erase_fixup]. rw (addr_eqb y Hy).
  iApply wp_bind. iApply (wp_is_red with "Hy"); [auto|]. iIntros "Hy". simpl.
  iApply (wp_set_color _ _ _ _ _ _ _ true with "Hy"); [auto|]. iIntros "Hy".
  by iApply ("HQ" with "Hx Hy Hsx").
Qed.
End erase_sim.

(** ** The theorems *)

Lemma stored_plug h k t q : stored h q (plug t k) -> exists q', stored h q' t.
Proof.
  revert t. induction k as [|[d c x o] k IH]; intros t Hs; [by exists q|].
  destruct (IH _ Hs) as [q' Ht]. unfold plug1 in Ht. destruct d; simpl in Ht; naive_solver.
Qed.

Lemma rb_erase_ok fuel x s t :
  rb_tree s t -> x ∈ elements t -> (forall y, ~ stale t x y) ->
  (path_fuel (length (elements t)) <= fuel)%nat ->
  exists s' l1 l2, rb_erase fuel x s = Some (tt, s') /\ rb_tree s' (rb_unlink t x) /\
    elements t = l1 ++ x :: l2 /\ elements (rb_unlink t x) = l1 ++ l2 /\ kept_outside (elements t) s s'.
Proof.
  intros [Hroot Hst Hnd Hv] Hin Hns Hf. destruct s as [h r]. simpl in *. subst r.
  destruct (rb_unlink_ok t x Hv Hin) as (Hv' & l1 & l2 & E1 & E2).
  destruct (locate t x Hin) as (k & c & l & rt & ->).
  destruct (stored_plug _ _ _ _ Hst) as [q' [Hx _]]. set (t := plug (CNode c l x rt) k) in *.
  assert (Eu : rb_unlink t x = erase_node c l rt k) by by unfold rb_unlink, t; rw find_node_here.
  set (ψ := fun (_ : unit) s' => rb_tree s' (rb_unlink t x) /\ kept_outside (elements t) (RbState h (ptr t)) s').
  destruct (wp_adequate (rb_erase fuel x) h (ptr t) ψ) as ([] & s' & E & H1 & H2).
  - intros Σ G. iIntros "Hm". iDestruct (take_tree with "Hm") as "[Ht Hm]"; [done..|].
    iDestruct (plug_at k (CNode c l x rt) (ptr t) with "[$Ht //]") as "[(_ & Hx & Hl & Hr) Hk]".
    iApply (rb_erase_sim with "Hx Hl Hr Hk"); [done..| |].
    { intros cs sx cr a y b. destruct l as [|cl ll lx lr]; [by left|right]. intros ->. apply (Hns y).
      by exists k, c, (CNode cl ll lx lr), cs, sx, cr, a, b. }
    iIntros (r') "Ht ->". rw -Eu. iIntros (h') "Hh".
    iDestruct (tree_stored with "Hh Ht") as %[Hst' Hnd']. iDestruct (rest_kept with "Hh Hm") as %Hrest.
    iPureIntro. split; [by constructor|]. intros y n Hy Ey. eapply lookup_weaken; [|exact Hrest]. by rw without_eq.
  - by exists s', l1, l2.
Qed.

(** In the remaining shape (the node has two children, its right child has a
    right child [y] and no left child) [rb_erase] leaves [y] in the tree with the
    erased node as its parent, so that [rb_next] of [y] is the erased node. *)
Theorem rb_erase_stale_parent fuel x y s t :
  rb_tree s t -> stale t x y -> (path_fuel (length (elements t)) <= fuel)%nat ->
  exists s' n sx nx, rb_erase fuel x s = Some (tt, s') /\
    rb_mem s' !! y = Some n /\ word_parent (rb_word n) = x /\
    rb_mem s' !! sx = Some nx /\ rb_right nx = y /\ sx <> x /\
    rb_next fuel y s' = Some (x, s').
Proof.
  intros [Hroot Hst Hnd Hv] (k & c & l & cs & sx & cr & a & b & Hl & ->) Hf. destruct s as [h r]. simpl in *. subst r.
  set (rt := CNode cs CLeaf sx (CNode cr a y b)) in *. set (t := plug (CNode c l x rt) k) in *.
  destruct (stored_plug _ _ _ _ Hst) as [q' [Hx _]].
  set (ψ := fun (_ : unit) s' => rb_mem s' !! x = Some (nd true (top k) c (ptr l) sx) /\
    rb_mem s' !! y = Some (nd true x true 0 0) /\ rb_mem s' !! sx = Some (nd true (top k) c (ptr l) y) /\
    is_addr y /\ y <> sx /\ sx <> x).
  destruct (wp_adequate (rb_erase fuel x) h (ptr t) ψ) as ([] & s' & E & E1 & E2 & E3 & Hy & Hne & Hne').
  - intros Σ G. iIntros "Hm". iDestruct (take_tree with "Hm") as "[Ht Hm]"; [done..|].
    iDestruct (plug_at k (CNode c l x rt) (ptr t) with "[$Ht //]") as "[(_ & Hx & Hl & Hr) Hk]".
    iApply (rb_erase_stale_sim with "Hx Hl Hr Hk"); [done..|].
    iIntros (r') "Hx Hy Hsx %Hy". iIntros (h') "Hh". iDestruct (pointsto_ne with "Hy Hsx") as %?.
    iDestruct (pointsto_ne with "Hsx Hx") as %?.
    iDestruct (gen_heap_valid with "Hh Hx") as %?. iDestruct (gen_heap_valid with "Hh Hy") as %?.
    iDestruct (gen_heap_valid with "Hh Hsx") as %?. done.
  - exists s', (nd true x true 0 0), sx, (nd true (top k) c (ptr l) y). split_and!; [done|done| |done|done|done|].
    + rw nd_word word_parent_pack //. auto.
    + assert (Hp : (0 < fuel)%nat) by (unfold path_fuel in Hf; lia). destruct fuel as [|fuel]; [lia|].
      unfold rb_next, rb_step, mbind, R_bind, load. rw (addr_eqb y Hy) E2 /=.
      unfold rb_parent, load, mbind, R_bind. rw E2 /=. rw (word_parent_pack x true); [|auto].
      rw (addr_eqb x Hx) E1 /=. by assert ((y =? sx) = false) as -> by by apply Z.eqb_neq.
Qed.

(** [rb_replace_node] puts a new node in the place of an old one. *)
Theorem rb_replace_exact x new s t :
  rb_tree s t -> x ∈ elements t -> is_addr new -> new ∉ elements t -> is_Some (rb_mem s !! new) ->
  exists s' t' l1 l2, rb_replace_node x new s = Some (tt, s') /\ rb_tree s' t' /\
    elements t = l1 ++ x :: l2 /\ elements t' = l1 ++ new :: l2.
Proof.
  intros [Hroot Hst Hnd Hv] Hin Ha Hno [n0 En]. destruct s as [h r]. simpl in *. subst r.
  destruct (locate t x Hin) as (k & c & l & rt & ->). destruct (stored_plug _ _ _ _ Hst) as [q' [Hx _]].
  set (t := plug (CNode c l x rt) k) in *. set (t' := plug (CNode c l new rt) k).
  destruct (wp_adequate (rb_replace_node x new) h (ptr t) (fun _ s' => rb_tree s' t')) as ([] & s' & E & HT).
  - intros Σ G. iIntros "Hm". iDestruct (take_tree with "Hm") as "[Ht Hm]"; [done..|].
    rw (big_sepM_delete _ _ new); [|by rw without_eq]. iDestruct "Hm" as "[Hn _]".
    iDestruct (plug_at k (CNode c l x rt) (ptr t) with "[$Ht //]") as "[(_ & Hx & Hl & Hr) Hk]".
    iDestruct (ctx_top with "Hk") as %Htop. unfold rb_replace_node.
    iApply wp_bind. iApply (wp_rb_parent with "Hx"); [done|]. iIntros "Hx".
    iApply wp_bind. iApply (wp_load with "Hx"). iIntros "Hx". simpl.
    iApply wp_bind. iApply (wp_store with "Hn"). iIntros "Hn".
    iApply wp_bind. iApply (wp_adopt with "Hl"); [auto|]. iIntros "Hl".
    iApply wp_bind. iApply (wp_adopt with "Hr"); [auto|]. iIntros "Hr".
    iApply (wp_relink with "Hk Hx"); [done|]. iIntros (r') "Hk Hx".
    iDestruct (plug_up k (CNode c l new rt) with "[Hn Hl Hr] Hk") as "[Ht ->]"; [simpl; by iFrame|].
    iIntros (h') "Hh". iDestruct (tree_stored with "Hh Ht") as %[Hst' Hnd']. iPureIntro. constructor; [done..|].
    destruct (plug_inv _ _ Hv) as (n & H1 & H2 & H3 & H4). by apply plug_ok with n.
  - exists s', t', (pre k ++ elements l), (elements rt ++ post k). unfold t, t'. rw !elements_plug /=.
    split_and!; [done|done|..]; by rw -!app_assoc.
Qed.
