(* ===== verification/VmTree.v ===== *)
(** * Interval trees of regions

    An address space keeps its regions in a red-black tree ordered by start
    address ([src/zxfoundation/memory/vm.zcomponent/core.cxx] on top of
    [src/lib/rbtree.cxxm]).  Here a tree holds region identities, with the
    colours; the interval of a region is looked up by the functions [st] and
    [en].  The descents of the code are recursions on the tree.  Linking a node
    ([rb_link]) and erasing one ([rb_unlink]) are the rebalancings of [RbInsert]
    and [RbErase], which [RbVm] shows to be what the code on pointers leaves in
    memory; an erasure in the stale shape ([stale_at]) leaves no tree, and the
    model of the engine stops there. *)

From Stdlib Require Import Sorting.Sorted.
From S2P Require Import Prelude RbSep RbBal RbInsert RbErase.

Abbreviation tree := RbSep.ctree.
Abbreviation Leaf := RbSep.CLeaf.
Abbreviation Node := RbSep.CNode.
Abbreviation inorder := RbSep.elements.
Abbreviation tree_valid := RbBal.rb_valid.
Abbreviation rb_link := RbInsert.rb_link.
Abbreviation rb_unlink := RbErase.rb_unlink.
Abbreviation stale_at := RbErase.stale_at.

(** [rb_link_node]: a red leaf at the end of the path ([true] is right). *)
Fixpoint link_at (t : tree) (path : list bool) (x : Z) : tree :=
  match t, path with
  | Node c l y r, false :: p => Node c (link_at l p x) y r
  | Node c l y r, true :: p => Node c l y (link_at r p x)
  | _, _ => Node false Leaf x Leaf
  end.

(** [rb_next] and [rb_prev] on the in-order sequence. *)
Fixpoint next_in (l : list Z) (x : Z) : option Z :=
  match l with
  | [] => None
  | y :: l => if y =? x then list.head l else next_in l x
  end.
Definition prev_in (l : list Z) (x : Z) : option Z := next_in (reverse l) x.

Section descents.
  Context (st en : Z -> Z).

(** [rb_find_rcu]. *)
Fixpoint rb_find (t : tree) (va : Z) : option Z :=
  match t with
  | Leaf => None
  | Node _ l x r =>
      if va <? st x then rb_find l va
      else if en x <=? va then rb_find r va
      else Some x
  end.

(** [rb_plan_insert]: the path to the new leaf and whether it is leftmost. *)
Fixpoint rb_plan_insert (excluded : option Z) (t : tree) (va : Z)
    : option (list bool * bool) :=
  match t with
  | Leaf => Some ([], true)
  | Node _ l x r =>
      if bool_decide (excluded = Some x) then
        '(p, _) ← rb_plan_insert excluded r va; Some (true :: p, false)
      else if va <? st x then
        '(p, leftmost) ← rb_plan_insert excluded l va; Some (false :: p, leftmost)
      else if en x <=? va then
        '(p, _) ← rb_plan_insert excluded r va; Some (true :: p, false)
      else None
  end.

(** The leftmost region that overlaps [[va, e)]. *)
Fixpoint first_overlap (t : tree) (va e : Z) (best : option Z) : option Z :=
  match t with
  | Leaf => best
  | Node _ l x r =>
      if e <=? st x then first_overlap l va e best
      else if en x <=? va then first_overlap r va e best
      else first_overlap l va e (Some x)
  end.

(** The last region that starts below [bound]. *)
Fixpoint last_below (t : tree) (bound : Z) (best : option Z) : option Z :=
  match t with
  | Leaf => best
  | Node _ l x r =>
      if st x <? bound then last_below r bound (Some x) else last_below l bound best
  end.

(** Regions in address order, none empty, none overlapping. *)
Definition before (x y : Z) : Prop := en x <= st y.
Definition disjoint_order (l : list Z) : Prop :=
  StronglySorted before l /\ Forall (fun x => st x < en x) l.
End descents.

(** ** Links *)

Lemma plug_link x path : forall t k,
  plug (link_at t path x) k = plug (Node false Leaf x Leaf) (ctx_of t path k).
Proof. induction path as [|[] path IH]; intros [|c l y r] k; simpl; try done; by rewrite <- IH. Qed.

(** Rebalancing keeps the sequence. *)
Lemma inorder_link t path x : inorder (rb_link t path x) = inorder (link_at t path x).
Proof. unfold rb_link. rewrite ins_fix_elements by done. by rewrite <- plug_link. Qed.

Lemma filter_other (x : Z) (l : list Z) : x ∉ l -> filter (fun y => y <> x) l = l.
Proof.
  induction l as [|y l IH]; intros Hx; [done|]. apply not_elem_of_cons in Hx as [Hy Hx].
  rewrite filter_cons_True by congruence. by rewrite IH.
Qed.

Lemma inorder_unlink t x : tree_valid t -> NoDup (inorder t) ->
  inorder (rb_unlink t x) = filter (fun y => y <> x) (inorder t).
Proof.
  intros Hv Hnd. destruct (decide (x ∈ inorder t)) as [Hx|Hx].
  - destruct (rb_unlink_ok t x Hv Hx) as (_ & l1 & l2 & E1 & ->). rewrite E1 in Hnd |- *.
    apply list.NoDup_app in Hnd as (_ & Hd & Hnd). apply list.NoDup_cons in Hnd as [Hx2 _].
    rewrite list.filter_app, filter_cons_False by naive_solver. rewrite !filter_other; [done|done|].
    intros H1. apply (Hd x H1). left.
  - unfold rb_unlink. rewrite find_node_none by done. by rewrite filter_other.
Qed.
Lemma unlink_valid t x : tree_valid t -> tree_valid (rb_unlink t x).
Proof.
  intros Hv. destruct (decide (x ∈ inorder t)) as [Hx|Hx]; [by apply rb_unlink_ok|].
  unfold rb_unlink. by rewrite find_node_none.
Qed.

Section descent_facts.
  Context (st en : Z -> Z).
  Abbreviation before := (before st en).

Lemma sorted_app l1 l2 :
  StronglySorted before (l1 ++ l2) ->
  StronglySorted before l1 /\ StronglySorted before l2 /\
  forall x y, x ∈ l1 -> y ∈ l2 -> en x <= st y.
Proof.
  induction l1 as [|z l1 IH]; simpl; intros Hs.
  - split_and!; [constructor|done|]. intros x y Hx. by apply elem_of_nil in Hx.
  - apply StronglySorted_inv in Hs as [Hs Hz]. destruct (IH Hs) as (H1 & H2 & H3).
    rewrite list.Forall_app in Hz. destruct Hz as [Hz1 Hz2]. split_and!; [by constructor|done|].
    intros x y [-> | Hx]%elem_of_cons Hy; [|by apply H3].
    exact (proj1 (list.Forall_forall _ _) Hz2 y Hy).
Qed.

Lemma sorted_app_2 l1 l2 :
  StronglySorted before l1 -> StronglySorted before l2 ->
  (forall x y, x ∈ l1 -> y ∈ l2 -> en x <= st y) -> StronglySorted before (l1 ++ l2).
Proof.
  intros H1 H2 H3. induction l1 as [|z l1 IH]; simpl; [done|].
  apply StronglySorted_inv in H1 as [H1 Hz]. constructor.
  - apply IH; [done|]. intros x y Hx. apply H3. by right.
  - apply list.Forall_app. split; [done|]. apply list.Forall_forall. intros y Hy. apply H3; [left|done].
Qed.

Lemma order_node c l x r :
  disjoint_order st en (inorder (Node c l x r)) ->
  disjoint_order st en (inorder l) /\ disjoint_order st en (inorder r) /\ st x < en x /\
  (forall y, y ∈ inorder l -> en y <= st x /\ st y < en y) /\
  (forall y, y ∈ inorder r -> en x <= st y /\ st y < en y).
Proof.
  intros [Hs Hf]. simpl in *. apply sorted_app in Hs as (H1 & H2 & H3).
  apply StronglySorted_inv in H2 as [H2 Hx]. rewrite list.Forall_app, list.Forall_cons in Hf.
  destruct Hf as (F1 & Fx & F2). split_and!; try done.
  - intros y Hy. split; [apply H3; [done|left]|]. exact (proj1 (list.Forall_forall _ _) F1 y Hy).
  - intros y Hy. split; [exact (proj1 (list.Forall_forall _ _) Hx y Hy)|]. exact (proj1 (list.Forall_forall _ _) F2 y Hy).
Qed.

(** The lookup finds the region that contains the address. *)
Lemma rb_find_exact t va x :
  disjoint_order st en (inorder t) ->
  rb_find st en t va = Some x <-> x ∈ inorder t /\ st x <= va < en x.
Proof.
  induction t as [|c l IHl y r IHr]; intros Ho; simpl; [set_solver|].
  destruct (order_node _ _ _ _ Ho) as (Hl & Hr & Hy & Ll & Lr). rewrite elem_of_app, elem_of_cons.
  destruct (Z.ltb_spec va (st y)).
  - rewrite (IHl Hl). split; [naive_solver|]. intros [[?|[->|Hx]] ?]; [done|lia|].
    destruct (Lr x Hx). lia.
  - destruct (Z.leb_spec (en y) va).
    + rewrite (IHr Hr). split; [naive_solver|]. intros [[Hx|[->|?]] ?]; [|lia|done].
      destruct (Ll x Hx). lia.
    + split; [intros [= <-]; split; [by right; left|lia]|]. intros [[Hx|[->|Hx]] ?]; [|done|].
      * destruct (Ll x Hx). lia.
      * destruct (Lr x Hx). lia.
Qed.

(** The insertion is refused exactly when its start lies in a region, and
    otherwise keeps the order of starts. *)
Lemma rb_plan_None t va :
  disjoint_order st en (inorder t) ->
  rb_plan_insert st en None t va = None <-> exists x, x ∈ inorder t /\ st x <= va < en x.
Proof.
  induction t as [|c l IHl y r IHr]; intros Ho; simpl; [set_solver|].
  destruct (order_node _ _ _ _ Ho) as (Hl & Hr & Hy & Ll & Lr).
  setoid_rewrite elem_of_app. setoid_rewrite elem_of_cons.
  destruct (Z.ltb_spec va (st y)).
  - transitivity (rb_plan_insert st en None l va = None).
    { by destruct (rb_plan_insert st en None l va) as [[]|]. }
    rewrite (IHl Hl). split; [naive_solver|]. intros (x & [?|[->|Hx]] & ?); [naive_solver|lia|].
    destruct (Lr x Hx). lia.
  - destruct (Z.leb_spec (en y) va).
    + transitivity (rb_plan_insert st en None r va = None).
      { by destruct (rb_plan_insert st en None r va) as [[]|]. }
      rewrite (IHr Hr). split; [naive_solver|]. intros (x & [Hx|[->|?]] & ?); [|lia|naive_solver].
      destruct (Ll x Hx). lia.
    + split; [|done]. intros _. exists y. split; [by right; left|lia].
Qed.

Lemma rb_plan_open excluded t va p lm : rb_plan_insert st en excluded t va = Some (p, lm) -> open_end t p.
Proof.
  assert (H : forall t p lm k, rb_plan_insert st en excluded t va = Some (p, lm) -> plug Leaf (ctx_of t p k) = plug t k).
  { clear. induction t as [|c l IHl y r IHr]; intros p lm k; simpl; [by intros [= <- <-]|].
    repeat case_match; try done; intros ([p' lm'] & E & [= <- <-])%bind_Some; simpl;
      by rewrite ?(IHl _ _ _ E), ?(IHr _ _ _ E). }
  intros E. by apply (H t p lm []) in E.
Qed.

(** The tree with the new region is valid, and the region could be erased. *)
Lemma rb_plan_link excluded t va plan z :
  tree_valid t -> rb_plan_insert st en excluded t va = Some plan -> z ∉ inorder t ->
  tree_valid (rb_link t plan.1 z) /\ stale_at (rb_link t plan.1 z) z = false.
Proof.
  intros Hv Hp Hz. destruct plan as [p lm]. apply rb_plan_open in Hp. simpl. split; [by apply rb_link_valid|].
  by apply calm_stale, rb_link_calm.
Qed.

Lemma rb_plan_Some t va p lm z :
  disjoint_order st en (inorder t) -> rb_plan_insert st en None t va = Some (p, lm) ->
  exists l1 l2, inorder t = l1 ++ l2 /\ inorder (rb_link t p z) = l1 ++ z :: l2 /\
    (forall x, x ∈ l1 -> en x <= va) /\ (forall x, x ∈ l2 -> va < st x) /\
    (lm = true <-> l1 = []).
Proof.
  rewrite inorder_link. revert p lm. induction t as [|c l IHl y r IHr]; intros p lm Ho; simpl.
  { intros [= <- <-]. exists [], []. split_and!; try done; intros x Hx; by apply elem_of_nil in Hx. }
  destruct (order_node _ _ _ _ Ho) as (Hl & Hr & Hy & Ll & Lr).
  destruct (Z.ltb_spec va (st y)).
  - intros ([p' lm'] & E & [= <- <-])%bind_Some. destruct (IHl _ _ Hl E) as (l1 & l2 & E1 & E2 & H1 & H2 & H3).
    exists l1, (l2 ++ y :: inorder r). simpl. rewrite E1, E2, <- !app_assoc. split_and!; [done..| |done].
    intros x [Hx | [-> | Hx]%elem_of_cons]%elem_of_app; [by apply H2|done|]. destruct (Lr x Hx). lia.
  - destruct (Z.leb_spec (en y) va); [|done].
    intros ([p' lm'] & E & [= <- <-])%bind_Some. destruct (IHr _ _ Hr E) as (l1 & l2 & E1 & E2 & H1 & H2 & H3).
    exists (inorder l ++ y :: l1), l2. simpl. rewrite E1, E2, <- !app_assoc. split_and!; [done..| |done|].
    + intros x [Hx | [-> | Hx]%elem_of_cons]%elem_of_app; [|done|by apply H1]. destruct (Ll x Hx). lia.
    + split; [done|]. by intros [_ ?]%app_nil.
Qed.

(** The first region can be erased. *)
Lemma first_erasable t x : NoDup (inorder t) -> list.head (inorder t) = Some x -> stale_at t x = false.
Proof. apply first_not_stale. Qed.

Lemma filter_none {A} (P : A -> Prop) `{forall x, Decision (P x)} (l : list A) :
  (forall x, x ∈ l -> ~ P x) -> filter P l = [].
Proof.
  induction l as [|y l IH]; intros Hn; [done|]. rewrite filter_cons_False.
  - apply IH. intros x Hx. apply Hn. by right.
  - apply Hn. left.
Qed.

(** The descent finds the first region of the range. *)
Lemma first_overlap_spec t va e best :
  disjoint_order st en (inorder t) -> va < e ->
  first_overlap st en t va e best =
  match list.head (filter (fun x => st x < e /\ va < en x) (inorder t)) with
  | Some x => Some x
  | None => best
  end.
Proof.
  intros Ho Hve. revert best Ho. induction t as [|c l IHl y r IHr]; intros best Ho; simpl; [done|].
  destruct (order_node _ _ _ _ Ho) as (Hl & Hr & Hy & Ll & Lr). rewrite list.filter_app.
  destruct (Z.leb_spec e (st y)).
  - rewrite (filter_none _ (y :: inorder r)), app_nil_r; [by apply IHl|].
    intros x [-> | Hx]%elem_of_cons; [lia|]. destruct (Lr x Hx). lia.
  - destruct (Z.leb_spec (en y) va).
    + rewrite (filter_none _ (inorder l)) by (intros x Hx; destruct (Ll x Hx); lia).
      rewrite filter_cons_False by lia. by apply IHr.
    + rewrite filter_cons_True by lia. rewrite (IHl _ Hl).
      by destruct (filter _ (inorder l)).
Qed.

(** The last region that starts below the bound. *)
Lemma last_below_spec t b best :
  disjoint_order st en (inorder t) ->
  exists l1 l2, inorder t = l1 ++ l2 /\ (forall x, x ∈ l1 -> st x < b) /\ (forall x, x ∈ l2 -> b <= st x) /\
    last_below st t b best = match list.last l1 with Some x => Some x | None => best end.
Proof.
  revert best. induction t as [|c l IHl y r IHr]; intros best Ho; simpl.
  { exists [], []. split_and!; try done; intros x Hx; by apply elem_of_nil in Hx. }
  destruct (order_node _ _ _ _ Ho) as (Hl & Hr & Hy & Ll & Lr). destruct (Z.ltb_spec (st y) b).
  - destruct (IHr (Some y) Hr) as (l1 & l2 & E & H1 & H2 & Eb). exists (inorder l ++ y :: l1), l2.
    rewrite E, <- app_assoc. split_and!; [done| |done|].
    + intros x [Hx | [-> | Hx]%elem_of_cons]%elem_of_app; [|done|by apply H1]. destruct (Ll x Hx). lia.
    + rewrite Eb, last_app, last_cons. by destruct (list.last l1).
  - destruct (IHl best Hl) as (l1 & l2 & E & H1 & H2 & Eb). exists l1, (l2 ++ y :: inorder r).
    rewrite E, <- app_assoc. split_and!; [done|done| |done].
    intros x [Hx | [-> | Hx]%elem_of_cons]%elem_of_app; [by apply H2|done|]. destruct (Lr x Hx). lia.
Qed.
End descent_facts.

(** A region whose end will move down to [va] can be skipped to the right. *)
Lemma rb_plan_excluded st en x0 t va :
  st x0 < va ->
  rb_plan_insert st en (Some x0) t va =
  rb_plan_insert st (fun x => if x =? x0 then va else en x) None t va.
Proof.
  intros Hv. induction t as [|c l IHl y r IHr]; [done|]. cbn [rb_plan_insert]. rewrite IHl, IHr.
  rewrite (bool_decide_eq_false_2 (None = Some y)) by done.
  destruct (Z.eqb_spec y x0) as [->|Hne].
  - rewrite bool_decide_eq_true_2 by done. destruct (Z.ltb_spec va (st x0)); [lia|].
    destruct (Z.leb_spec va va); [done|lia].
  - rewrite bool_decide_eq_false_2 by congruence. done.
Qed.

Lemma rb_plan_ext (st en st' en' : Z -> Z) o t va :
  (forall x, x ∈ inorder t -> st' x = st x /\ en' x = en x) ->
  rb_plan_insert st' en' o t va = rb_plan_insert st en o t va.
Proof.
  induction t as [|c l IHl y r IHr]; intros H; [done|]. cbn [rb_plan_insert].
  destruct (H y) as [-> ->]; [simpl; apply elem_of_app; right; left|].
  rewrite IHl, IHr; [done|..]; intros x Hx; apply H; simpl; apply elem_of_app; [right; by right|by left].
Qed.

(** The in-order neighbours of a region. *)
Lemma next_in_split l1 x l2 : x ∉ l1 -> next_in (l1 ++ x :: l2) x = list.head l2.
Proof.
  induction l1 as [|y l1 IH]; intros Hx; simpl; [by rewrite Z.eqb_refl|].
  apply not_elem_of_cons in Hx as [Hy Hx]. destruct (Z.eqb_spec y x); [congruence|]. by apply IH.
Qed.

Lemma prev_in_split l1 x l2 : x ∉ l2 -> prev_in (l1 ++ x :: l2) x = list.last l1.
Proof.
  intros Hx. unfold prev_in. rewrite reverse_app, reverse_cons, <- app_assoc. simpl.
  rewrite next_in_split by by rewrite elem_of_reverse. apply head_reverse.
Qed.

Lemma disjoint_order_NoDup st en l : disjoint_order st en l -> NoDup l.
Proof.
  intros [Hs Hf]. induction l as [|x l IH]; [constructor|].
  apply StronglySorted_inv in Hs as [Hs Hx]. apply list.Forall_cons in Hf as [Hf1 Hf]. constructor; [|by apply IH].
  intros Hin. pose proof (proj1 (list.Forall_forall _ _) Hx x Hin) as Hb. unfold before in Hb. lia.
Qed.
