(* ===== verification/RbWalk.v ===== *)
(** * Walking red-black trees

    First and last node, successor and predecessor, counting and search read the
    tree in order.  The walks of the clients' models on the in-order sequence
    ([VmTree.next_in], [VmTree.prev_in]) are what the code computes. *)

From Stdlib Require Import Sorting.Sorted.
From S2P Require Import Prelude RbTree RbSep RbBal RbInsert RbErase VmTree.

(** ** Contexts in memory *)

Fixpoint ctx_stored (h : gmap Z rb_node) (k : list frame) (p : Z) : Prop :=
  match k with
  | [] => True
  | Frame d c x o :: k =>
      is_addr x /\ h !! x = Some (nd d (top k) c p (ptr o)) /\ stored h x o /\ ctx_stored h k x
  end.

Lemma stored_mk h q d c a x b :
  stored h q (mk d c a x b) <-> is_addr x /\ h !! x = Some (nd d q c (ptr a) (ptr b)) /\ stored h x a /\ stored h x b.
Proof. destruct d; simpl; [done|]. unfold nd. simpl. tauto. Qed.

Lemma stored_split h k t : stored h 0 (plug t k) -> stored h (top k) t /\ ctx_stored h k (ptr t).
Proof.
  revert t. induction k as [|[d c x o] k IH]; intros t Hs; [done|]. destruct (IH _ Hs) as [Ht Hk].
  unfold plug1 in *. simpl in *. rewrite ptr_mk in Hk. apply stored_mk in Ht as (H1 & H2 & H3 & H4). done.
Qed.

Lemma stored_addr h q t : stored h q t -> t <> CLeaf -> is_addr (ptr t).
Proof. destruct t; [done|]. simpl. tauto. Qed.
Lemma top_ptr h k p : ctx_stored h k p -> is_ptr (top k).
Proof. destruct k as [|[]]; simpl; [by left|]. intros [? _]. by right. Qed.

Lemma plug_nodup t k : NoDup (elements (plug t k)) -> NoDup (elements t).
Proof. rewrite elements_plug. intros (_ & _ & H)%list.NoDup_app. by apply list.NoDup_app in H as [? _]. Qed.

(** ** Reading *)

Section read.
  Context (h : gmap Z rb_node) (root : Z).
Let s := RbState h root.

Lemma load_at p n : h !! p = Some n -> load p s = Some (n, s).
Proof. intros E. unfold load, s. simpl. by rewrite E. Qed.
Lemma rb_parent_at p d q c a b : is_ptr q -> h !! p = Some (nd d q c a b) -> rb_parent p s = Some (q, s).
Proof.
  intros Hq E. unfold rb_parent, mbind, R_bind. rewrite (load_at _ _ E). by rewrite nd_word, word_parent_pack.
Qed.
Lemma bind_at {A B} (m : R A) (f : A -> R B) a : m s = Some (a, s) -> (m ≫= f) s = f a s.
Proof. intros E. unfold mbind, R_bind. by rewrite E. Qed.

(** The outermost node on side [d]. *)
Fixpoint edge (d : bool) (t : ctree) (x : Z) : Z :=
  match t with CLeaf => x | CNode _ l y r => edge d (if d then l else r) y end.

Lemma ptr_zero q t : stored h q t -> (ptr t =? 0) = match t with CLeaf => true | _ => false end.
Proof. destruct t; simpl; [done|]. intros [H _]. by apply addr_eqb. Qed.

Lemma descend_at fuel d t q : stored h q t -> t <> CLeaf -> (height t <= fuel)%nat ->
  descend fuel d (ptr t) s = Some (edge d t 0, s).
Proof.
  revert fuel q. induction t as [|c l IHl x r IHr]; intros fuel q Hs Hne Hf; [done|].
  destruct fuel as [|fuel]; [simpl in Hf; lia|]. simpl in Hf. destruct Hs as (Hx & E & Hl & Hr). simpl.
  rewrite (bind_at _ _ _ (load_at _ _ E)). simpl.
  assert (H : forall t' (IH : forall fuel q, stored h q t' -> t' <> CLeaf -> (height t' <= fuel)%nat ->
                descend fuel d (ptr t') s = Some (edge d t' 0, s)),
    stored h x t' -> (height t' <= fuel)%nat ->
    (if ptr t' =? 0 then mret x else descend fuel d (ptr t')) s = Some (edge d t' x, s)).
  { intros t' IH Hs' Hh. rewrite (ptr_zero x t' Hs'). destruct t' as [|c' l' y r']; [done|].
    rewrite (IH fuel x) by done. done. }
  destruct d; simpl; apply H; try done; lia.
Qed.

(** The nearest ancestor on the other side. *)
Fixpoint up (d : bool) (k : list frame) : Z :=
  match k with
  | [] => 0
  | Frame d' _ x _ :: k => if Bool.eqb d' d then up d k else x
  end.

Lemma ascend_at fuel d k t : ctx_stored h k (ptr t) -> t <> CLeaf -> is_addr (ptr t) -> (length k < fuel)%nat ->
  NoDup (elements (plug t k)) -> ascend fuel d (ptr t) (top k) s = Some (up d k, s).
Proof.
  revert fuel t. induction k as [|[d' c x o] k IH]; intros fuel t Hk Ht Ha Hf Hnd;
    (destruct fuel as [|fuel]; [simpl in Hf; lia|]); [done|].
  destruct Hk as (Hx & E & Ho & Hk). cbn [ascend top f_node]. rewrite (addr_eqb x Hx).
  rewrite (bind_at _ _ _ (load_at _ _ E)). cbn [up]. destruct (Bool.eqb_spec d' d) as [->|Hd].
  - rewrite child_near, Z.eqb_refl. rewrite (bind_at _ _ _ (rb_parent_at _ _ _ _ _ _ (top_ptr _ _ _ Hk) E)).
    assert (Ep : x = ptr (plug1 t (Frame d c x o))) by (unfold plug1; by rewrite ptr_mk). rewrite Ep at 1.
    apply IH; [by rewrite <- Ep|by destruct d|by rewrite <- Ep|simpl in Hf; lia|done].
  - assert (d' = negb d) as -> by by destruct d', d. rewrite nd_flip, child_near.
    assert (ptr t <> ptr o) as Hne.
    { intros He. destruct t as [|ct a y b]; [done|]. destruct o as [|co a' z b']; simpl in *; [by apply addr_nonzero in Ha|].
      subst z. apply plug_nodup in Hnd. unfold plug1 in Hnd. simpl in Hnd. rewrite elements_mk in Hnd.
      destruct (negb d); simpl in Hnd; apply list.NoDup_app in Hnd as (_ & Hnd & _);
        apply (Hnd y); [apply elem_of_app; right; by left|right; apply elem_of_app; right; by left|
                        apply elem_of_app; right; by left|right; apply elem_of_app; right; by left]. }
    destruct (Z.eqb_spec (ptr t) (ptr o)); done.
Qed.
End read.

(** ** In-order neighbours *)

Lemma edge_head t x : edge true t x = default x (list.head (elements t)).
Proof.
  revert x. induction t as [|c l IHl y r _]; intros x; simpl; [done|]. rewrite IHl. by destruct (elements l).
Qed.
Lemma edge_last t x : edge false t x = default x (list.last (elements t)).
Proof.
  revert x. induction t as [|c l _ y r IHr]; intros x; simpl; [done|]. rewrite IHr, last_app, last_cons.
  by destruct (list.last (elements r)).
Qed.
Lemma up_next k : up false k = default 0 (list.head (post k)).
Proof. induction k as [|[[] c x o] k IH]; simpl; done. Qed.
Lemma up_prev k : up true k = default 0 (list.last (pre k)).
Proof. induction k as [|[[] c x o] k IH]; simpl; [done|done|]. by rewrite !last_app. Qed.

(** A step in either direction. *)
Lemma step_at fuel d s c l x r k :
  rb_tree s (plug (CNode c l x r) k) ->
  (path_fuel (length (elements (plug (CNode c l x r) k))) <= fuel)%nat ->
  rb_step fuel d x s = Some
    (if d then default 0 (list.last (pre k ++ elements l)) else default 0 (list.head (elements r ++ post k)), s).
Proof.
  intros [Hroot Hst Hnd Hv] Hf. destruct s as [h root]. simpl in *. pose proof (valid_path _ _ Hv) as Hp. simpl in Hp.
  destruct (stored_split _ _ _ Hst) as [Ht Hk]. pose proof Ht as (Hx & E & Hl & Hr). unfold rb_step.
  rewrite (addr_eqb x Hx), (bind_at _ _ _ _ _ (load_at _ _ _ _ E)).
  assert (Hup : (parent ← rb_parent x; ascend fuel d x parent) (RbState h root) = Some (up d k, RbState h root)).
  { rewrite (bind_at _ _ _ _ _ (rb_parent_at _ _ _ _ _ _ _ _ (top_ptr _ _ _ Hk) E)).
    apply (ascend_at h root fuel d k (CNode c l x r)); [done|done|done|lia|done]. }
  destruct d; simpl.
  - rewrite (ptr_zero h _ _ Hl). destruct l as [|cl ll lx lr]; [by rewrite Hup, up_prev, app_nil_r|].
    rewrite (descend_at h root fuel false _ x Hl), edge_last, last_app; [|done|lia].
    destruct (list.last (elements (CNode cl ll lx lr))) eqn:El; [done|].
    apply last_None in El. simpl in El. by apply app_eq_nil in El as [_ ?].
  - rewrite (ptr_zero h _ _ Hr). destruct r as [|cr rl rx rr]; [by rewrite Hup, up_next|].
    rewrite (descend_at h root fuel true _ x Hr), edge_head; [|done|lia]. simpl. by destruct (elements rl).
Qed.

Lemma end_at fuel d s t :
  rb_tree s t -> (path_fuel (length (elements t)) <= fuel)%nat ->
  rb_end fuel d s = Some (default 0 ((if d then list.head else list.last) (elements t)), s).
Proof.
  intros [Hroot Hst Hnd Hv] Hf. destruct s as [h root]. simpl in *. subst root.
  pose proof (valid_path [] t Hv) as Hp. simpl in Hp. unfold rb_end, get_root, mbind, R_bind. simpl.
  rewrite (ptr_zero h _ _ Hst). destruct t as [|c l x r]; [by destruct d|].
  rewrite (descend_at h _ fuel d _ 0 Hst) by (done || lia). destruct d; by rewrite ?edge_head, ?edge_last.
Qed.

(** C21: the walk is the in-order sequence.  In a valid red-black tree [rb_first] and
    [rb_last] return the ends of the sequence (null for the empty tree), and
    [rb_next] and [rb_prev] of a node return its neighbours (null at the ends),
    within a logarithmic number of steps and without changing anything. *)
Theorem rb_walk_exact fuel s t x :
  rb_tree s t -> (path_fuel (length (elements t)) <= fuel)%nat ->
  rb_first fuel s = Some (default 0 (list.head (elements t)), s) /\
  rb_last fuel s = Some (default 0 (list.last (elements t)), s) /\
  (x ∈ elements t -> rb_next fuel x s = Some (default 0 (next_in (elements t) x), s) /\
                     rb_prev fuel x s = Some (default 0 (prev_in (elements t) x), s)).
Proof.
  intros HT Hf. pose proof HT as [Hroot Hst Hnd Hv]. split_and!.
  - by apply end_at.
  - by apply end_at.
  - intros Hin. destruct (locate t x Hin) as (k & c & l & r & ->).
    rewrite elements_plug in Hnd |- * . simpl in *.
    assert (Ee : pre k ++ (elements l ++ x :: elements r) ++ post k = (pre k ++ elements l) ++ x :: (elements r ++ post k))
      by (by rewrite <- !app_assoc; simpl; rewrite <- ?app_assoc).
    rewrite Ee in Hnd |- *. apply list.NoDup_app in Hnd as (_ & Hd & Hnd). apply list.NoDup_cons in Hnd as [Hx _].
    rewrite next_in_split, prev_in_split; [|done|intros ?; by apply (Hd x); [|left]].
    unfold rb_next, rb_prev. rewrite !(step_at fuel _ s c l x r k); done.
Qed.

(** ** Erasure *)

(** C8: erasure is exact.  [rb_erase] of a node of a valid red-black tree, with fuel
    for a logarithmic path, leaves a valid red-black tree (rules, parent pointers)
    with exactly that node taken out of the sequence and all memory outside the
    tree unchanged, and [rb_erase_cached] keeps the cached first node exact, for
    every tree in which the node has a child missing or its right child has a left
    child or no right child. *)
Theorem rb_erase_exact fuel x s t :
  rb_tree s t -> x ∈ elements t -> (forall y, ~ stale t x y) ->
  (path_fuel (length (elements t)) <= fuel)%nat ->
  exists s' t' l1 l2, rb_erase fuel x s = Some (tt, s') /\ rb_tree s' t' /\
    elements t = l1 ++ x :: l2 /\ elements t' = l1 ++ l2 /\ kept_outside (elements t) s s' /\
    rb_erase_cached fuel x (default 0 (list.head (elements t))) s =
      Some (default 0 (list.head (elements t')), s').
Proof.
  intros HT Hin Hns Hf. destruct (rb_erase_ok fuel x s t) as (s' & l1 & l2 & E & HT' & E1 & E2 & Hk); [done..|].
  exists s', (rb_unlink t x), l1, l2. split_and!; [done..|]. unfold rb_erase_cached, mbind, R_bind.
  pose proof (rt_nodup _ _ HT) as Hnd. rewrite E1 in Hnd. rewrite E1, E2. destruct l1 as [|y l1]; simpl.
  - rewrite Z.eqb_refl. destruct (locate t x Hin) as (k & c & l & r & ->).
    unfold rb_next. rewrite (step_at fuel false s c l x r k HT Hf). rewrite E.
    assert (Ee : (pre k ++ elements l) ++ x :: (elements r ++ post k) = [] ++ x :: l2).
    { rewrite <- E1, elements_plug. simpl. by rewrite <- !app_assoc. }
    destruct (pre k ++ elements l) as [|z p] eqn:Ep; simpl in Ee; [by injection Ee as ->|].
    injection Ee as -> Ee. exfalso. simpl in Hnd. apply list.NoDup_cons in Hnd as [Hx _]. apply Hx. rewrite <- Ee.
    apply elem_of_app. right. by left.
  - destruct (Z.eqb_spec y x) as [->|]; [|unfold mret, R_ret; cbv beta iota; by rewrite E].
    exfalso. simpl in Hnd. apply list.NoDup_cons in Hnd as [Hx _]. apply Hx. apply elem_of_app. right. by left.
Qed.

(** ** Counting and search *)

Lemma count_at h root fuel t q : stored h q t -> (height t < fuel)%nat ->
  count_nodes fuel (ptr t) (RbState h root) = Some (u32 (Z.of_nat (length (elements t))), RbState h root).
Proof.
  revert fuel q. induction t as [|c l IHl x r IHr]; intros fuel q Hs Hf; (destruct fuel as [|fuel]; [simpl in Hf; lia|]); [done|].
  destruct Hs as (Hx & E & Hl & Hr). simpl in *. rewrite (addr_eqb x Hx), (bind_at _ _ _ _ _ (load_at _ _ _ _ E)). simpl.
  rewrite (bind_at _ _ _ _ _ (IHl fuel x Hl ltac:(lia))), (bind_at _ _ _ _ _ (IHr fuel x Hr ltac:(lia))).
  unfold mret, R_ret. rewrite length_app. simpl. do 2 f_equal. unwrap_u. lia.
Qed.

Section search.
  Context (cmp : Z -> Z).

Fixpoint lb (t : ctree) (best : Z) : Z :=
  match t with
  | CLeaf => best
  | CNode _ l x r => if 0 <=? cmp x then lb l x else lb r best
  end.

Lemma lower_bound_at h root fuel t q best : stored h q t -> (height t < fuel)%nat ->
  lower_bound cmp fuel (ptr t) best (RbState h root) = Some (lb t best, RbState h root).
Proof.
  revert fuel q best. induction t as [|c l IHl x r IHr]; intros fuel q best Hs Hf; (destruct fuel as [|fuel]; [simpl in Hf; lia|]); [done|].
  destruct Hs as (Hx & E & Hl & Hr). simpl in *. rewrite (addr_eqb x Hx), (bind_at _ _ _ _ _ (load_at _ _ _ _ E)). simpl.
  destruct (0 <=? cmp x); [apply (IHl _ x)|apply (IHr _ x)]; try done; lia.
Qed.

(** Keys do not decrease along the tree. *)
Definition key_sorted (l : list Z) : Prop := StronglySorted (fun x y => cmp x <= cmp y) l.

Lemma lb_first t best : key_sorted (elements t) ->
  lb t best = default best (list.head (filter (fun x => 0 <= cmp x) (elements t))).
Proof.
  revert best. induction t as [|c l IHl x r IHr]; intros best Hs; simpl in *; [done|].
  apply sorted_app in Hs as (Hl & Hx & Hlt). apply StronglySorted_inv in Hx as [Hr Hxr].
  rewrite list.filter_app, list.filter_cons. destruct (Z.leb_spec 0 (cmp x)) as [Hc|Hc].
  - rewrite decide_True by done. rewrite IHl by done. by destruct (filter _ (elements l)).
  - rewrite decide_False by lia. rewrite IHr by done.
    enough (E : filter (fun x => 0 <= cmp x) (elements l) = []) by (by rewrite E).
    assert (H : forall y, y ∈ elements l -> cmp y < 0).
    { intros y Hy. specialize (Hlt y x Hy ltac:(left)). lia. }
    clear -H. induction (elements l) as [|y l' IH]; [done|].
    rewrite list.filter_cons, decide_False; [apply IH; intros z Hz; apply H; by right|].
    specialize (H y ltac:(left)). lia.
Qed.
End search.

(** search is exact.  In a valid red-black tree whose keys do not decrease along
    the sequence, [rb_lower_bound] returns the first node whose key is not below
    the given one (null when there is none), [rb_find] returns that node exactly
    when its key equals the given one, and [rb_count] the number of nodes as a
    32-bit count; nothing is changed. *)
Theorem rb_search_exact cmp fuel s t :
  rb_tree s t -> (path_fuel (length (elements t)) <= fuel)%nat -> key_sorted cmp (elements t) ->
  let first := list.head (filter (fun x => 0 <= cmp x) (elements t)) in
  rb_lower_bound cmp fuel s = Some (default 0 first, s) /\
  rb_find_key cmp fuel s =
    Some (match first with Some x => if cmp x =? 0 then x else 0 | None => 0 end, s) /\
  rb_count fuel s = Some (u32 (Z.of_nat (length (elements t))), s).
Proof.
  intros [Hroot Hst Hnd Hv] Hf Hs first. destruct s as [h root]. simpl in *. subst root.
  pose proof (valid_path [] t Hv) as Hp. simpl in Hp.
  assert (HL : rb_lower_bound cmp fuel (RbState h (ptr t)) = Some (default 0 first, RbState h (ptr t))).
  { unfold rb_lower_bound, get_root, mbind, R_bind. simpl. rewrite (lower_bound_at cmp h _ fuel t 0) by (done || lia).
    by rewrite lb_first. }
  split_and!; [done| |].
  - unfold rb_find_key, mbind, R_bind. rewrite HL. destruct first as [x|] eqn:Ef; [|done]. simpl.
    assert (Hx : is_addr x); [|by rewrite (addr_eqb x Hx)].
    assert (Hin : x ∈ elements t).
    { apply head_Some_elem_of in Ef. by apply list_elem_of_filter in Ef as [_ ?]. }
    destruct (locate t x Hin) as (k & c & l & r & ->). by destruct (stored_split _ _ _ Hst) as [[? _] _].
  - unfold rb_count, get_root, mbind, R_bind. simpl. by rewrite (count_at h _ fuel t 0) by (done || lia).
Qed.
