(* ===== verification/RbVm.v ===== *)
(** * The red-black tree below the region tree

    The virtual memory engine is modelled on coloured trees: [rb_link] links a
    region at the end of a path and rebalances, [rb_unlink] erases one.  The code
    on pointers leaves exactly these trees in memory: linking at the end of a path
    always, erasing outside the stale shape. *)

From iris.proofmode Require Import proofmode.
From iris.base_logic.lib Require Import gen_heap.
From S2P Require Import Prelude RbTree RbSep RbBal RbInsert RbErase VmTree.

(** The path of a position, from the root ([true] is right). *)
Definition path_of (k : list frame) : list bool := reverse (negb ∘ f_side <$> k).

Lemma ctx_of_plug k : forall t q k2,
  ctx_of (plug t k) (path_of k ++ q) k2 = ctx_of t q (k ++ k2).
Proof.
  induction k as [|[d c y o] k IH]; intros t q k2; [done|].
  unfold path_of. rw fmap_cons reverse_cons -app_assoc. simpl. fold (path_of k).
  rw (IH (plug1 t (Frame d c y o))). by destruct d.
Qed.
Lemma ctx_of_path k : ctx_of (plug CLeaf k) (path_of k) [] = k.
Proof. rw -(app_nil_r (path_of k)) ctx_of_plug app_nil_r. by destruct k. Qed.

(** C20: the red-black tree keeps the promise made to the virtual memory engine.
    Linking a new node at the end of any path of a valid tree and rebalancing
    leaves a valid tree in memory, the tree [rb_link] of the engine's model, whose
    sequence is that of the tree with the new leaf; erasing a node, outside the
    stale shape, leaves a valid tree, the tree [rb_unlink] of the engine's model,
    whose sequence is the old one without the node. *)
Theorem tree_serves_vm fuel s t node k d :
  rb_tree s t -> (path_fuel (length (elements t)) <= fuel)%nat ->
  (t = plug CLeaf k -> last_side k d -> is_addr node -> node ∉ elements t -> is_Some (rb_mem s !! node) ->
   exists s', (_ ← rb_link_node node (top k) d; rb_insert_color fuel node) s = Some (tt, s') /\
     rb_tree s' (rb_link t (path_of k) node) /\
     inorder (rb_link t (path_of k) node) = inorder (link_at t (path_of k) node)) /\
  (node ∈ elements t -> stale_at t node = false ->
   exists s', rb_erase fuel node s = Some (tt, s') /\ rb_tree s' (rb_unlink t node) /\
     inorder (rb_unlink t node) = filter (fun y => y <> node) (inorder t)).
Proof.
  intros HT Hf. split.
  - intros Et Hd Ha Hno [n0 En]. destruct HT as [Hroot Hst Hnd Hv]. destruct s as [h r]. simpl in *. subst r.
    assert (Hvk : rb_valid (plug CLeaf k)) by by rw -Et.
    pose proof (valid_path _ _ Hvk) as Hl. rw -Et in Hl.
    destruct (plug_inv _ _ Hvk) as (m & Hm & Hok & _). simpl in Hm. subst m.
    set (t' := rb_link t (path_of k) node).
    assert (Et' : t' = ins_fix (CNode false CLeaf node CLeaf) k) by by unfold t', rb_link; rw Et ctx_of_path.
    destruct (wp_adequate (_ ← rb_link_node node (top k) d; rb_insert_color fuel node) h (ptr t)
      (fun _ s' => rb_tree s' t')) as ([] & s' & E & HT').
    + intros Σ G. iIntros "Hm". iDestruct (take_tree with "Hm") as "[Ht Hm]"; [done..|].
      rw (big_sepM_delete _ _ node); [|by rw without_eq]. iDestruct "Hm" as "[Hn _]". rw Et' Et.
      iDestruct (plug_at k CLeaf (ptr (plug CLeaf k)) with "[$Ht //]") as "[_ Hk]".
      iApply wp_bind. iApply (link_sim with "Hn Hk"); [done..|]. iIntros (r') "Ht Hk".
      iApply (color_sim with "Ht Hk"); [lia|by eapply ctx_rooted|]. iIntros (r'') "Ht ->". iIntros (h') "Hh".
      iDestruct (tree_stored with "Hh Ht") as %[Hst' Hnd']. iPureIntro. constructor; [done..|].
      by apply ins_fix_valid with O.
    + exists s'. split_and!; [done|done|]. by rw /t' inorder_link.
  - intros Hin Hns. pose proof (rt_nodup _ _ HT) as Hnd.
    destruct (rb_erase_ok fuel node s t HT Hin) as (s' & l1 & l2 & E & HT' & _); [by apply stale_at_false|done|].
    exists s'. split_and!; [done|done|]. apply inorder_unlink; [apply HT|done].
Qed.
