(* ===== verification/RbDemo.v ===== *)
(** * A small red-black tree

    The theorems applied to a tree of four nodes, built by the code itself. *)

From Stdlib Require Import Sorting.Sorted.
From S2P Require Import Prelude RbTree RbSep RbBal RbInsert RbErase RbWalk VmTree RbVm.

(** Keys are the addresses. *)
Definition by_address (key x : Z) : Z := rb_cmp x key.

Definition blank : rb_node := RbNode 0 0 0.
Definition demo_memory : rb_state :=
  RbState {[ 16 := blank; 32 := blank; 48 := blank; 64 := blank; 80 := blank ]} 0.

Definition demo_insert (s : rb_state) (x : Z) : rb_state :=
  match rb_insert (by_address x) 8 x s with Some (_, s') => s' | None => s end.
Definition demo_state : rb_state := fold_left demo_insert [16; 32; 48; 64] demo_memory.

Definition demo_tree : ctree :=
  CNode true (CNode true CLeaf 16 CLeaf) 32 (CNode true CLeaf 48 (CNode false CLeaf 64 CLeaf)).

Lemma demo_is_tree : rb_tree demo_state demo_tree.
Proof.
  constructor; [vm_compute; reflexivity| | |].
  - unfold demo_tree, stored, is_addr. split_and!; try done; vm_compute; reflexivity.
  - apply (bool_decide_eq_true_1 (NoDup (elements demo_tree))). vm_compute. reflexivity.
  - split; [done|]. by exists 2%nat.
Qed.

Lemma demo_sorted key : cmp_sorted (by_address key) (elements demo_tree) /\ key_sorted (by_address key) (elements demo_tree).
Proof.
  split; simpl; repeat constructor; unfold by_address, rb_cmp; repeat case_match; lia.
Qed.

Lemma rb_insert_exact_witness :
  exists s' b, rb_insert (by_address 80) 8 80 demo_state = Some (tt, s') /\
    inserted (by_address 80) 80 demo_tree demo_state s' b.
Proof.
  apply (rb_insert_exact (by_address 80) 8 80 demo_state demo_tree demo_is_tree); [done| | |vm_compute; lia].
  - apply (bool_decide_eq_true_1 (80 ∉ elements demo_tree)). vm_compute. reflexivity.
  - apply (bool_decide_eq_true_1 (is_Some (rb_mem demo_state !! 80))). vm_compute. reflexivity.
Defined.

Lemma rb_insert_cached_exact_witness :
  exists s' t' b, rb_insert_cached (by_address 80) 8 80 16 demo_state = Some (default 0 (list.head (elements t')), s') /\
    rb_tree s' t' /\ inserted (by_address 80) 80 demo_tree demo_state s' b.
Proof.
  apply (rb_insert_cached_exact (by_address 80) 8 80 16 demo_state demo_tree demo_is_tree);
    [done| | |vm_compute; lia|reflexivity].
  - apply (bool_decide_eq_true_1 (80 ∉ elements demo_tree)). vm_compute. reflexivity.
  - apply (bool_decide_eq_true_1 (is_Some (rb_mem demo_state !! 80))). vm_compute. reflexivity.
Defined.

Lemma rb_erase_exact_witness :
  exists s' t' l1 l2, rb_erase 8 16 demo_state = Some (tt, s') /\ rb_tree s' t' /\
    elements demo_tree = l1 ++ 16 :: l2 /\ elements t' = l1 ++ l2 /\
    kept_outside (elements demo_tree) demo_state s' /\
    rb_erase_cached 8 16 16 demo_state = Some (default 0 (list.head (elements t')), s').
Proof.
  apply (rb_erase_exact 8 16 demo_state demo_tree demo_is_tree); [left| |vm_compute; lia].
  intros y (k & c & l & cs & sx & cr & a & b & Hl & E). apply (f_equal elements) in E.
  rewrite elements_plug in E. simpl in E. rewrite <- app_assoc in E. simpl in E. rewrite app_assoc in E.
  destruct l as [|cl ll lx lr]; [done|]. destruct (pre k ++ elements (CNode cl ll lx lr)) as [|z p] eqn:Ep.
  - apply app_eq_nil in Ep as [_ Ep]. simpl in Ep. by apply app_eq_nil in Ep as [_ ?].
  - injection E as <- E. assert (Hin : 16 ∈ [32; 48; 64]); [rewrite E; apply elem_of_app; right; by left|].
    rewrite !elem_of_cons, elem_of_nil in Hin. naive_solver lia.
Defined.

Lemma rb_walk_exact_witness :
  rb_next 8 32 demo_state = Some (48, demo_state) /\ rb_prev 8 32 demo_state = Some (16, demo_state).
Proof.
  apply (rb_walk_exact 8 demo_state demo_tree 32 demo_is_tree); [vm_compute; lia|right; left].
Defined.

Lemma rb_search_exact_witness :
  rb_find_key (by_address 48) 8 demo_state = Some (48, demo_state) /\
  rb_lower_bound (by_address 50) 8 demo_state = Some (64, demo_state).
Proof.
  split.
  - apply (rb_search_exact (by_address 48) 8 demo_state demo_tree demo_is_tree); [vm_compute; lia|apply demo_sorted].
  - apply (rb_search_exact (by_address 50) 8 demo_state demo_tree demo_is_tree); [vm_compute; lia|apply demo_sorted].
Defined.

(** The path to the right of node 64. *)
Definition demo_path : list frame :=
  [Frame false false 64 CLeaf; Frame false true 48 CLeaf; Frame false true 32 (CNode true CLeaf 16 CLeaf)].

Lemma tree_serves_vm_witness :
  (exists s', (_ ← rb_link_node 80 (top demo_path) false; rb_insert_color 8 80) demo_state = Some (tt, s') /\
    rb_tree s' (rb_link demo_tree (path_of demo_path) 80) /\
    inorder (rb_link demo_tree (path_of demo_path) 80) = [16; 32; 48; 64; 80]) /\
  (exists s', rb_erase 8 48 demo_state = Some (tt, s') /\ rb_tree s' (rb_unlink demo_tree 48) /\
    inorder (rb_unlink demo_tree 48) = [16; 32; 64]).
Proof.
  split.
  - apply (tree_serves_vm 8 demo_state demo_tree 80 demo_path false demo_is_tree); [vm_compute; lia|done..| |].
    + apply (bool_decide_eq_true_1 (80 ∉ elements demo_tree)). vm_compute. reflexivity.
    + apply (bool_decide_eq_true_1 (is_Some (rb_mem demo_state !! 80))). vm_compute. reflexivity.
  - apply (tree_serves_vm 8 demo_state demo_tree 48 demo_path false demo_is_tree); [vm_compute; lia| |reflexivity].
    apply (bool_decide_eq_true_1 (48 ∈ elements demo_tree)). vm_compute. reflexivity.
Defined.

(** Erasing the root of the example leaves node 64 in the tree with the erased
    root as its parent: walking on from there returns to the erased node. *)
Theorem rb_erase_stale_example :
  exists s', rb_erase 8 32 demo_state = Some (tt, s') /\ rb_root s' = 48 /\
    rb_next 8 64 s' = Some (32, s').
Proof. eexists. split; [vm_compute; reflexivity|]. split; vm_compute; reflexivity. Qed.
