(* ===== verification/VmTypes.v ===== *)
(** * Virtual memory: data, calls and effects

    The types of [src/zxfoundation/memory/vm.zcomponent/types.cxxm], the calls
    the engine makes into other subsystems, and the monad its operations run
    in.

    - A page map is its first [count] slots, its capacity, and whether the slot
      array exists; slots past [count] are never read.
    - Regions live in a finite map from descriptors; the tree of the space
      holds descriptors.  A descriptor that the region table hands out is one
      that is not in use.
    - A memory-object reference keeps type, identity and generation.  The
      objects themselves belong to [objects.zcomponent]: creating, resolving
      and updating them are calls, and nothing is assumed of the answers, except
      that the reference of a new object is not one that a region holds (the
      generation counters of the object table promise it).
    - An operation takes the state and is a program of calls that ends in a
      result and a new state, or in [None]: [syschk_fatal] or a trap.
    - [CStaleErase] is not a call of the code: it marks an erasure from the region
      tree in the shape in which [rb_erase] leaves a parent pointer to the erased
      node ([RbErase.rb_erase_stale_parent]).  The memory then holds no tree, and
      a run of the model ends there. *)

From S2P Require Import Prelude Errors Kobject MemContract Prog VmTree.

(** ** Flags and enumerations *)

Definition VM_PAGE_SHIFT : Z := 12.
Definition VM_PAGE_SIZE : Z := 4096.

Definition prot_read : Z := 1.
Definition prot_write : Z := 2.
Definition prot_exec : Z := 4.

Definition vf_none : Z := 0.
Definition vf_fixed : Z := 1.
Definition vf_anonymous : Z := 2.
Definition vf_physical : Z := 4.
Definition vf_portal : Z := 8.
Definition vf_stack : Z := 16.
Definition vf_guard : Z := 32.
Definition vf_pinned : Z := 64.
Definition vf_dma : Z := 128.
Definition vf_no_merge : Z := 256.
Definition vf_user : Z := 512.
Definition vf_kernel : Z := 1024.
Definition vf_cow : Z := 2048.
Definition vf_file : Z := 4096.
Definition vf_ipc : Z := 8192.
Definition vf_shared_read : Z := 131072.

(** [!!(set & flag)]. *)
Definition has_flag (set flag : Z) : bool := negb (Z.land set flag =? 0).

Inductive vm_backing :=
  | bk_anonymous | bk_physical | bk_portal_shared | bk_file | bk_ipc_shared.

#[global] Instance vm_backing_eq_dec : EqDecision vm_backing.
Proof. solve_decision. Defined.

Inductive vm_page_state :=
  | ps_empty | ps_resident | ps_cow | ps_file_cache | ps_portal | ps_ipc.

#[global] Instance vm_page_state_eq_dec : EqDecision vm_page_state.
Proof. solve_decision. Defined.

#[global] Instance invalidation_scope_eq_dec : EqDecision invalidation_scope.
Proof. solve_decision. Defined.

Definition MAX_VM_REGIONS : Z := 4096.
Definition VM_DEFAULT_COMMIT_LIMIT_PAGES : Z := 262144.
Definition VM_USER_START : Z := 0x400000.
Definition VM_USER_END : Z := 0x8000000000.
Definition VM_MMAP_BASE : Z := 0x4000000000.
Definition VM_STACK_TOP : Z := 0x8000000000.

(** ** Memory-object references and policies *)

Record memory_object_ref := MemoryObjectRef {
  mr_type : kobject_type; mr_id : Z; mr_generation : Z
}.

#[global] Instance memory_object_ref_eq_dec : EqDecision memory_object_ref.
Proof. solve_decision. Defined.

Definition null_ref : memory_object_ref := MemoryObjectRef kt_none KOBJECT_ID_INVALID 0.

(** [explicit operator bool]. *)
Definition ref_valid (r : memory_object_ref) : bool :=
  negb (bool_decide (mr_type r = kt_none)) &&
  negb (mr_id r =? KOBJECT_ID_INVALID) && negb (mr_generation r =? 0).

Record memory_object_policy := MemoryObjectPolicy {
  mp_storage_key : Z; mp_storage_key_generation : Z; mp_numa_node : Z;
  mp_scope : memory_scope; mp_access : Z; mp_rights : Z;
  mp_invalidate : invalidation_scope; mp_dgp_generation : Z; mp_mapping_generation : Z
}.

#[global] Instance memory_object_policy_eq_dec : EqDecision memory_object_policy.
Proof. solve_decision. Defined.

(** What the engine reads of a resolved memory object. *)
Record object_view := ObjectView {
  ov_type : kobject_type; ov_range_start : Z; ov_range_length : Z;
  ov_policy : memory_object_policy
}.

(** ** Page slots *)

Definition binding := option (Z * Z).

Record vm_page_slot := VmPageSlot {
  s_va_page : Z; s_phys : Z; s_file_node : Z; s_file_index : Z;
  s_binding : binding; s_state : vm_page_state; s_flags : Z; s_dirty : Z
}.

#[global] Instance vm_page_slot_eq_dec : EqDecision vm_page_slot.
Proof. solve_decision. Defined.

Definition empty_slot : vm_page_slot := VmPageSlot 0 0 0 0 None ps_empty 0 0.
(** [sizeof(vm_page_slot)]. *)
Definition SLOT_BYTES : Z := 40.

Definition slot_live (s : vm_page_slot) : bool := negb (bool_decide (s_state s = ps_empty)).

(** [matches]. *)
Definition slot_matches (s : vm_page_slot) (page_va : Z) : bool :=
  slot_live s && (s_va_page s =? page_va).

(** [clear] traps on a slot that still holds a cache binding. *)
Definition slot_clear (s : vm_page_slot) : option vm_page_slot :=
  match s_binding s with Some _ => None | None => Some empty_slot end.

(** [transfer_to]: the new target and the emptied source. *)
Definition slot_transfer_to (s target : vm_page_slot) : option (vm_page_slot * vm_page_slot) :=
  if slot_live target || bool_decide (s_binding target <> None) then None
  else Some (s, empty_slot).

Record vm_page_map := VmPageMap { pm_exists : bool; pm_capacity : Z; pm_slots : list vm_page_slot }.

Definition empty_page_map : vm_page_map := VmPageMap false 0 [].
Definition pm_count (m : vm_page_map) : Z := Z.of_nat (length (pm_slots m)).

(** ** Regions and spaces *)

Record vm_region := VmRegion {
  r_va_start : Z; r_va_end : Z; r_prot : Z; r_flags : Z; r_backing : vm_backing;
  r_phys_base : Z; r_portal_id : Z; r_owner_domain : Z; r_file_node : Z;
  r_file_page_offset : Z; r_linked : bool;
  r_storage : memory_object_ref; r_grant : memory_object_ref;
  r_mapping : memory_object_ref; r_extent : memory_object_ref;
  r_committed : Z; r_resident : Z; r_pages : vm_page_map
}.

Definition r_size (r : vm_region) : Z := u64 (r_va_end r - r_va_start r).

Record vm_space := VmSpace {
  sp_owner_object : bool; sp_address_space_object : bool; sp_tree : tree;
  sp_total_mapped : Z; sp_total_committed : Z; sp_total_resident : Z;
  sp_brk : Z; sp_mmap_base : Z; sp_dgp_generation : Z; sp_mapping_generation : Z;
  sp_asce_val : Z; sp_storage_key : Z; sp_numa_node : Z; sp_storage_key_generation : Z;
  sp_owner_domain : Z; sp_region_count : Z; sp_max_regions : Z; sp_commit_limit_pages : Z
}.

(** The space with the regions it owns. *)
Record world := World { w_space : vm_space; w_regions : gmap Z vm_region }.

(** ** Calls into other subsystems *)

Inductive vcall : Type -> Type :=
  | CRegionAlloc : vcall (expected unit)
  | CRegionRelease (id : Z) : vcall unit
  | CCallRcu (id : Z) : vcall unit
  | CSetOwner (id domain : Z) : vcall (expected unit)
  | CAttach (id : Z) : vcall (expected unit)
  | CDetach (id : Z) : vcall unit
  | CObjectCreate (t : kobject_type) (domain : Z) (parent : option memory_object_ref)
      (start length rights : Z) (policy : memory_object_policy) : vcall (expected unit)
  | CObjectResolve (r : memory_object_ref) : vcall (option object_view)
  | CObjectDestroy (r : memory_object_ref) : vcall unit
  | CHasDependents (r : memory_object_ref) : vcall bool
  | CObjectUpdateRange (r : memory_object_ref) (start length : Z) : vcall unit
  | CObjectUpdatePolicy (r : memory_object_ref) (p : memory_object_policy)
      : vcall (expected unit)
  | CSetInvalidate (r : memory_object_ref) (i : invalidation_scope) : vcall unit
  | CSetMappingGeneration (r : memory_object_ref) (g : Z) : vcall unit
  | CExtentAcquire (r : memory_object_ref) : vcall (expected unit)
  | CExtentRelease (r : memory_object_ref) : vcall unit
  | CFrameValidate (phys length id generation : Z) : vcall (expected unit)
  | CKmalloc (bytes : Z) : vcall bool
  | CKfree : vcall unit
  | CRmapRebind (from i to j phys : Z) : vcall bool
  | CRmapRemove (id i phys : Z) : vcall unit
  | CSkeyChanged (phys : Z) : vcall bool
  | CMarkDirty (b : Z * Z) : vcall (expected unit)
  | CReleaseBinding (b : Z * Z) : vcall (expected unit)
  | CReleasePin (phys : Z) : vcall (expected bool)
  | CMapPage (root va phys prot : Z) : vcall (expected unit)
  | CUnmapPage (root va : Z) : vcall unit
  | CProtectPage (root va prot : Z) : vcall (expected unit)
  | CTlbScope (i : invalidation_scope) (root va : Z) : vcall unit
  | CTlbFlushAsce (asce : Z) : vcall unit
  | CSske (phys key : Z) (fetch_protect : bool) : vcall unit
  | CContractGeneration : vcall Z
  | CSetDgpGeneration (r : memory_object_ref) (g : Z) : vcall unit
  | CFrameAlloc (zeroed : bool) : vcall (expected Z)
  | CFrameFree (phys : Z) : vcall unit
  | CFrameRef (phys : Z) : vcall (expected Z)
  | CFrameUnref (phys : Z) : vcall unit
  | CFrameMetadata (phys id generation : Z) (writable : bool) : vcall (expected unit)
  | CCopyPage (from to : Z) : vcall unit
  | CRmapInsert (id i phys : Z) : vcall (expected unit)
  | CDuplicateBinding (b : Z * Z) (storage_key : Z) : vcall (expected (Z * Z))
  | CSourceRegion (node : Z) : vcall vm_region
  | CStaleErase (id : Z) : vcall unit.

(** ** Effects *)

Definition M (A : Type) : Type := world -> prog vcall (option (A * world)).

#[global] Instance M_ret : MRet M := fun A a w => Ret (Some (a, w)).
#[global] Instance M_bind : MBind M := fun A B f m w =>
  m w ≫= fun r => match r with Some (a, w') => f a w' | None => Ret None end.

Definition call {R} (c : vcall R) : M R := fun w => Do c (fun r => Ret (Some (r, w))).
(** [syschk_fatal], [__builtin_trap]. *)
Definition fatal {A} : M A := fun _ => Ret None.
Definition get_world : M world := fun w => Ret (Some (w, w)).
Definition put_world (w' : world) : M unit := fun _ => Ret (Some (tt, w')).
Definition modify (f : world -> world) : M unit := fun w => Ret (Some (tt, f w)).

(** [x <- m;; k] on an [expected] result, returning the error early. *)
Definition try_bind {A B} (m : M (expected A)) (k : A -> M (expected B)) : M (expected B) :=
  r ← m; match r with Expected a => k a | Unexpected e => mret (Unexpected e) end.

Notation "x <-? m ;; k" := (try_bind m (fun x => k))
  (at level 100, m at next level, right associativity) : zx_scope.

Definition liftE {A} (e : expected A) : M (expected A) := mret e.

(** *** Access to the state *)

Definition get_space : M vm_space := w ← get_world; mret (w_space w).
(** A descriptor in use; the null region stands for a dangling one. *)
Definition null_region : vm_region :=
  VmRegion 0 0 0 0 bk_anonymous 0 U32_MAX U32_MAX 0 0 false
    null_ref null_ref null_ref null_ref 0 0 empty_page_map.
Definition region (w : world) (x : Z) : vm_region := default null_region (w_regions w !! x).
Definition get_region (x : Z) : M vm_region := w ← get_world; mret (region w x).
Definition put_region (x : Z) (r : vm_region) : M unit :=
  modify (fun w => World (w_space w) (<[x := r]> (w_regions w))).
Definition drop_region (x : Z) : M unit :=
  modify (fun w => World (w_space w) (delete x (w_regions w))).
Definition update_region (x : Z) (f : vm_region -> vm_region) : M unit :=
  r ← get_region x; put_region x (f r).
Definition update_space (f : vm_space -> vm_space) : M unit :=
  modify (fun w => World (f (w_space w)) (w_regions w)).

(** The identity after every one that a region refers to. *)
Definition ref_bound (r : memory_object_ref) : Z :=
  if bool_decide (r = null_ref) then 0 else mr_id r + 1.
Definition region_bound (r : vm_region) : Z :=
  Z.max (Z.max (ref_bound (r_storage r)) (ref_bound (r_grant r)))
        (Z.max (ref_bound (r_mapping r)) (ref_bound (r_extent r))).
Definition fresh_ref (w : world) (t : kobject_type) : memory_object_ref :=
  MemoryObjectRef t (map_fold (fun _ r a => Z.max a (region_bound r)) 0 (w_regions w)) 1.

(** [memory_object_create] and [memory_object_ref_of]. *)
Definition create_object (t : kobject_type) (domain : Z) (parent : option memory_object_ref)
    (start length rights : Z) (policy : memory_object_policy)
    : M (expected memory_object_ref) :=
  r ← call (CObjectCreate t domain parent start length rights policy);
  match r with
  | Expected _ => w ← get_world; mret (Expected (fresh_ref w t))
  | Unexpected e => mret (Unexpected e)
  end.

(** Start and end of a region, for the descents. *)
Definition st (w : world) (x : Z) : Z := r_va_start (region w x).
Definition en (w : world) (x : Z) : Z := r_va_end (region w x).

(** *** Field updates *)

Definition with_range (s e : Z) (r : vm_region) : vm_region :=
  VmRegion s e (r_prot r) (r_flags r) (r_backing r) (r_phys_base r) (r_portal_id r)
    (r_owner_domain r) (r_file_node r) (r_file_page_offset r) (r_linked r) (r_storage r)
    (r_grant r) (r_mapping r) (r_extent r) (r_committed r) (r_resident r) (r_pages r).
Definition with_prot (p : Z) (r : vm_region) : vm_region :=
  VmRegion (r_va_start r) (r_va_end r) p (r_flags r) (r_backing r) (r_phys_base r)
    (r_portal_id r) (r_owner_domain r) (r_file_node r) (r_file_page_offset r) (r_linked r)
    (r_storage r) (r_grant r) (r_mapping r) (r_extent r) (r_committed r) (r_resident r)
    (r_pages r).
Definition with_owner (portal_id domain file_node file_off : Z) (r : vm_region) : vm_region :=
  VmRegion (r_va_start r) (r_va_end r) (r_prot r) (r_flags r) (r_backing r) (r_phys_base r)
    portal_id domain file_node file_off (r_linked r) (r_storage r) (r_grant r)
    (r_mapping r) (r_extent r) (r_committed r) (r_resident r) (r_pages r).
Definition with_linked (b : bool) (r : vm_region) : vm_region :=
  VmRegion (r_va_start r) (r_va_end r) (r_prot r) (r_flags r) (r_backing r) (r_phys_base r)
    (r_portal_id r) (r_owner_domain r) (r_file_node r) (r_file_page_offset r) b
    (r_storage r) (r_grant r) (r_mapping r) (r_extent r) (r_committed r) (r_resident r)
    (r_pages r).
Definition with_objects (storage grant mapping extent : memory_object_ref) (r : vm_region)
    : vm_region :=
  VmRegion (r_va_start r) (r_va_end r) (r_prot r) (r_flags r) (r_backing r) (r_phys_base r)
    (r_portal_id r) (r_owner_domain r) (r_file_node r) (r_file_page_offset r) (r_linked r)
    storage grant mapping extent (r_committed r) (r_resident r) (r_pages r).
Definition with_counts (committed resident : Z) (r : vm_region) : vm_region :=
  VmRegion (r_va_start r) (r_va_end r) (r_prot r) (r_flags r) (r_backing r) (r_phys_base r)
    (r_portal_id r) (r_owner_domain r) (r_file_node r) (r_file_page_offset r) (r_linked r)
    (r_storage r) (r_grant r) (r_mapping r) (r_extent r) committed resident (r_pages r).
Definition with_pages (m : vm_page_map) (r : vm_region) : vm_region :=
  VmRegion (r_va_start r) (r_va_end r) (r_prot r) (r_flags r) (r_backing r) (r_phys_base r)
    (r_portal_id r) (r_owner_domain r) (r_file_node r) (r_file_page_offset r) (r_linked r)
    (r_storage r) (r_grant r) (r_mapping r) (r_extent r) (r_committed r) (r_resident r) m.

Definition with_tree (t : tree) (s : vm_space) : vm_space :=
  VmSpace (sp_owner_object s) (sp_address_space_object s) t (sp_total_mapped s)
    (sp_total_committed s) (sp_total_resident s) (sp_brk s) (sp_mmap_base s)
    (sp_dgp_generation s) (sp_mapping_generation s) (sp_asce_val s) (sp_storage_key s)
    (sp_numa_node s) (sp_storage_key_generation s) (sp_owner_domain s) (sp_region_count s)
    (sp_max_regions s) (sp_commit_limit_pages s).
Definition with_totals (mapped committed resident count : Z) (s : vm_space) : vm_space :=
  VmSpace (sp_owner_object s) (sp_address_space_object s) (sp_tree s) mapped committed
    resident (sp_brk s) (sp_mmap_base s) (sp_dgp_generation s) (sp_mapping_generation s)
    (sp_asce_val s) (sp_storage_key s) (sp_numa_node s) (sp_storage_key_generation s)
    (sp_owner_domain s) count (sp_max_regions s) (sp_commit_limit_pages s).
Definition with_generations (dgp mapping : Z) (s : vm_space) : vm_space :=
  VmSpace (sp_owner_object s) (sp_address_space_object s) (sp_tree s) (sp_total_mapped s)
    (sp_total_committed s) (sp_total_resident s) (sp_brk s) (sp_mmap_base s) dgp mapping
    (sp_asce_val s) (sp_storage_key s) (sp_numa_node s) (sp_storage_key_generation s)
    (sp_owner_domain s) (sp_region_count s) (sp_max_regions s) (sp_commit_limit_pages s).
Definition with_commit_limit (limit : Z) (s : vm_space) : vm_space :=
  VmSpace (sp_owner_object s) (sp_address_space_object s) (sp_tree s) (sp_total_mapped s)
    (sp_total_committed s) (sp_total_resident s) (sp_brk s) (sp_mmap_base s)
    (sp_dgp_generation s) (sp_mapping_generation s) (sp_asce_val s) (sp_storage_key s)
    (sp_numa_node s) (sp_storage_key_generation s) (sp_owner_domain s) (sp_region_count s)
    (sp_max_regions s) limit.
