(* ===== verification/VmPages.v ===== *)
(** * Page maps of regions
      ([src/zxfoundation/memory/vm.zcomponent/types.cxx], [types.cxxm])

    The lazily grown slot array of a region.  A client sees the live slots: two
    live slots never describe the same page, reserving a page adds a slot for it
    or returns the one it has, and a map with room never needs to grow. *)

From S2P Require Import Prelude Errors Prog VmTree VmTypes.

Definition VM_PAGE_MAP_INITIAL : Z := 16.

(** ** Operations *)

(** The doubling loop of [reserve_capacity]; [None] is its overflow exit.  The
    capacity at least doubles each turn, so 32 turns reach any [u32]. *)
Fixpoint grow_capacity (fuel : nat) (new_cap min_capacity : Z) {struct fuel} : option Z :=
  if min_capacity <=? new_cap then Some new_cap
  else if U32_MAX / 2 <? new_cap then None
  else match fuel with
       | O => None
       | S fuel => grow_capacity fuel (u32 (new_cap * 2)) min_capacity
       end.

Definition reserve_capacity (m : vm_page_map) (min_capacity : Z) : M (bool * vm_page_map) :=
  if min_capacity <=? pm_capacity m then mret (true, m)
  else
    match grow_capacity 32
            (if pm_capacity m =? 0 then VM_PAGE_MAP_INITIAL else pm_capacity m)
            min_capacity with
    | None => mret (false, m)
    | Some new_cap =>
        ok ← call (CKmalloc (u64 (new_cap * SLOT_BYTES)));
        if negb ok then mret (false, m)
        else
          _ ← (if pm_exists m then call CKfree else mret tt);
          mret (true, VmPageMap true new_cap (pm_slots m))
    end.

(** [find_page]: the first slot that matches. *)
Fixpoint scan_page (l : list vm_page_slot) (page_va : Z) (i : nat) : option (nat * vm_page_slot) :=
  match l with
  | [] => None
  | s :: l => if slot_matches s page_va then Some (i, s) else scan_page l page_va (S i)
  end.
Definition find_page (m : vm_page_map) (page_va : Z) : option (nat * vm_page_slot) :=
  if pm_exists m then scan_page (pm_slots m) page_va 0 else None.

(** The scan of [reserve_page]: the matching slot, or the first empty one. *)
Fixpoint scan_reserve (l : list vm_page_slot) (page_va : Z) (i : nat) (free : option nat)
    : nat + option nat :=
  match l with
  | [] => inr free
  | s :: l =>
      if slot_matches s page_va then inl i
      else scan_reserve l page_va (S i)
             (match free with
              | Some f => Some f
              | None => if slot_live s then None else Some i
              end)
  end.

Definition fresh_slot (page_va : Z) : vm_page_slot :=
  VmPageSlot page_va 0 0 0 None ps_empty 0 0.

(** The index of the slot stands for the returned pointer. *)
Definition reserve_page (m : vm_page_map) (page_va : Z) : M (option nat * vm_page_map) :=
  match scan_reserve (pm_slots m) page_va 0 None with
  | inl i => mret (Some i, m)
  | inr (Some i) =>
      mret (Some i, VmPageMap (pm_exists m) (pm_capacity m)
                      (<[i := fresh_slot page_va]> (pm_slots m)))
  | inr None =>
      '(ok, m') ← (if pm_count m =? pm_capacity m
                   then reserve_capacity m (u32 (pm_count m + 1)) else mret (true, m));
      if negb ok then mret (None, m')
      else mret (Some (length (pm_slots m')),
                 VmPageMap (pm_exists m') (pm_capacity m')
                   (pm_slots m' ++ [fresh_slot page_va]))
  end.

(** Dropping empty slots from the end. *)
Fixpoint drop_empty (l : list vm_page_slot) : list vm_page_slot :=
  match l with
  | [] => []
  | s :: l' => if slot_live s then l else drop_empty l'
  end.
Definition trim_slots (l : list vm_page_slot) : list vm_page_slot :=
  reverse (drop_empty (reverse l)).

Definition release_page (m : vm_page_map) (page_va : Z) : M (bool * vm_page_map) :=
  match scan_page (pm_slots m) page_va 0 with
  | None => mret (false, m)
  | Some (i, s) =>
      match slot_clear s with
      | None => fatal
      | Some s' =>
          mret (true, VmPageMap (pm_exists m) (pm_capacity m)
                        (trim_slots (<[i := s']> (pm_slots m))))
      end
  end.

Definition destroy_pages (m : vm_page_map) : M vm_page_map :=
  if pm_exists m then
    if forallb (fun s => bool_decide (s_binding s = None)) (pm_slots m)
    then _ ← call CKfree; mret empty_page_map
    else fatal
  else mret empty_page_map.

(** ** A program logic

    [spec b m w Q]: every run of [m] from [w] that ends returns a result and a
    state in [Q], and a run that dies did so after the environment broke one of
    the promises the code relies on ([loud_event]) or, where [b] is lenient, after
    an erasure from the region tree in the stale shape.  [tspec] says more: its
    postcondition is also about the calls that the run made. *)

Definition key_ok (k : Z) : bool := (k =? MemContract.STORAGE_KEY_AUTO) || (k <? MemContract.STORAGE_KEY_COUNT).

(** The promises: the reverse map knows the entries of resident slots, pins and
    cache bindings of slots can be released, a resolved memory object carries a
    valid storage key, a memory object that was resolved accepts a new policy,
    and changing the protection of a page fails only where none is mapped. *)
Definition loud_event (e : event vcall) : Prop :=
  match e with
  | Ev (CRmapRebind _ _ _ _ _) r => r = false
  | Ev (CMarkDirty _) r => exists e, r = Unexpected e
  | Ev (CReleaseBinding _) r => exists e, r = Unexpected e
  | Ev (CReleasePin _) r => exists e, r = Unexpected e
  | Ev (CObjectUpdatePolicy _ _) r => exists e, r = Unexpected e
  | Ev (CProtectPage _ _ _) r =>
      exists e, r = Unexpected e /\ e <> from_memory mem_invalid_address
  | Ev (CObjectResolve _) r =>
      exists v, r = Some v /\ key_ok (mp_storage_key (ov_policy v)) = false
  | _ => False
  end.
(** The marker of an erasure in the stale shape. *)
Definition stale_event (e : event vcall) : Prop :=
  match e with Ev (CStaleErase _) _ => True | _ => False end.

(** What excuses the death of a run: a promise broken before it started, a loud
    event and, when [lenient], a stale erasure. *)
Record blame := Blame { broken : Prop; lenient : bool }.
Definition excused (b : blame) (e : event vcall) : Prop :=
  loud_event e \/ (lenient b = true /\ stale_event e).
Definition after (b : blame) (e : event vcall) : blame := Blame (broken b \/ excused b e) (lenient b).

(** Only broken promises; stale erasures as well. *)
Definition strict : blame := Blame False false.
Definition tolerant : blame := Blame False true.

Definition dies (b : blame) (t : list (event vcall)) : Prop := broken b \/ Exists (excused b) t.

Definition tspec {A} (b : blame) (m : M A) (w : world) (Q : list (event vcall) -> A -> world -> Prop) : Prop :=
  wlp (m w) (fun t r => match r with Some (a, w') => Q t a w' | None => dies b t end).
Definition spec {A} (b : blame) (m : M A) (w : world) (Q : A -> world -> Prop) : Prop :=
  tspec b m w (fun _ => Q).

(** [b'] excuses what [b] does. *)
Definition weaker (b b' : blame) : Prop := (broken b -> broken b') /\ (lenient b = true -> lenient b' = true).

Lemma weaker_refl b : weaker b b.
Proof. done. Qed.
Lemma weaker_trans b b' b'' : weaker b b' -> weaker b' b'' -> weaker b b''.
Proof. intros [? ?] [? ?]. split; auto. Qed.
Lemma weaker_after b e : weaker b (after b e).
Proof. split; [by left|done]. Qed.
Lemma weaker_strict b : weaker strict b.
Proof. by split. Qed.
#[export] Hint Resolve weaker_refl weaker_after weaker_strict : core.

Lemma dies_weaker b b' t : weaker b b' -> dies b t -> dies b' t.
Proof.
  intros [H1 H2] [?|Ht]; [left; auto|right]. revert Ht. apply Exists_impl. intros e [?|[? ?]]; [by left|right; auto].
Qed.
Lemma dies_app b t t' : dies b t' -> dies b (t ++ t').
Proof. intros [?|?]; [by left|right]. apply Exists_app. by right. Qed.
Lemma dies_after b e t : dies (after b e) t -> dies b (e :: t).
Proof.
  intros [[?|?]|?]; [by left|right; by left|right; by right].
Qed.

Section traces.
  Context (b : blame).

Lemma tspec_mono {A} (m : M A) w (Q Q' : list (event vcall) -> A -> world -> Prop) :
  (forall t a w', Q t a w' -> Q' t a w') -> tspec b m w Q -> tspec b m w Q'.
Proof. intros HQ. apply wlp_mono. intros t [[a w']|]; [apply HQ|done]. Qed.

Lemma tspec_ret {A} (a : A) w (Q : list (event vcall) -> A -> world -> Prop) : Q [] a w -> tspec b (mret a) w Q.
Proof. done. Qed.

Lemma tspec_bind {A B} (m : M A) (k : A -> M B) w Q :
  tspec b m w (fun t a w' => tspec b (k a) w' (fun t' => Q (t ++ t'))) -> tspec b (m ≫= k) w Q.
Proof.
  unfold tspec. intros Hm. unfold mbind, M_bind. apply wlp_bind. revert Hm. apply wlp_mono.
  intros t [[a w']|].
  - apply wlp_mono. intros t' [[c w'']|]; [done|]. apply dies_app.
  - simpl. by rewrite app_nil_r.
Qed.

(** A broken promise excuses a death from then on. *)
Lemma tspec_call_bind {R A} (c : vcall R) (k : R -> M A) w Q :
  (forall r, tspec (after b (Ev c r)) (k r) w (fun t => Q (Ev c r :: t))) -> tspec b (call c ≫= k) w Q.
Proof.
  intros Hk. unfold tspec, mbind, M_bind, call. simpl. intros r. eapply wlp_mono; [|apply (Hk r)].
  intros t [[a w']|]; [done|]. apply dies_after.
Qed.

Lemma tspec_weaken {A} (b' : blame) (m : M A) w Q : weaker b b' -> tspec b m w Q -> tspec b' m w Q.
Proof. intros Hb. apply wlp_mono. intros t [[a w']|]; [done|by apply dies_weaker]. Qed.


Lemma tspec_get {A} (k : world -> M A) w Q : tspec b (k w) w Q -> tspec b (get_world ≫= k) w Q.
Proof. done. Qed.
Lemma tspec_region {A} x (k : vm_region -> M A) w Q : tspec b (k (region w x)) w Q -> tspec b (get_region x ≫= k) w Q.
Proof. done. Qed.
End traces.

(** A call whose answer breaks no promise. *)
Lemma tspec_call_any {R A} b (c : vcall R) (k : R -> M A) w Q :
  (forall r, tspec b (k r) w (fun t => Q (Ev c r :: t))) -> tspec b (call c ≫= k) w Q.
Proof. intros Hk. apply tspec_call_bind. intros r. by apply (tspec_weaken b). Qed.

Section rules.
  Context (b : blame).

Lemma spec_mono {A} (m : M A) w (Q Q' : A -> world -> Prop) :
  (forall a w', Q a w' -> Q' a w') -> spec b m w Q -> spec b m w Q'.
Proof. intros HQ. apply tspec_mono. intros t. apply HQ. Qed.

Lemma spec_weaken {A} (b' : blame) (m : M A) w Q : weaker b b' -> spec b m w Q -> spec b' m w Q.
Proof. intros Hb. apply wlp_mono. intros t [[a w']|]; [done|by apply dies_weaker]. Qed.

Lemma spec_ret {A} (a : A) w (Q : A -> world -> Prop) : Q a w -> spec b (mret a) w Q.
Proof. done. Qed.

Lemma spec_bind {A B} (m : M A) (k : A -> M B) w Q :
  spec b m w (fun a w' => spec b (k a) w' Q) -> spec b (m ≫= k) w Q.
Proof. exact (tspec_bind b m k w (fun _ => Q)). Qed.

Lemma spec_fatal {A} w (Q : A -> world -> Prop) : broken b -> spec b fatal w Q.
Proof. by left. Qed.

Lemma spec_call {R} (c : vcall R) w Q : (forall r, Q r w) -> spec b (call c) w Q.
Proof. done. Qed.

Lemma spec_get w Q : Q w w -> spec b get_world w Q.
Proof. done. Qed.

Lemma spec_modify f w Q : Q tt (f w) -> spec b (modify f) w Q.
Proof. done. Qed.

Lemma spec_region x w Q : Q (region w x) w -> spec b (get_region x) w Q.
Proof. done. Qed.

Lemma spec_space w Q : Q (w_space w) w -> spec b get_space w Q.
Proof. done. Qed.

Lemma spec_put x r w Q : Q tt (World (w_space w) (<[x := r]> (w_regions w))) -> spec b (put_region x r) w Q.
Proof. done. Qed.

Lemma spec_update x f w Q :
  Q tt (World (w_space w) (<[x := f (region w x)]> (w_regions w))) -> spec b (update_region x f) w Q.
Proof. done. Qed.

Lemma spec_update_space f w Q : Q tt (World (f (w_space w)) (w_regions w)) -> spec b (update_space f) w Q.
Proof. done. Qed.

Lemma spec_try {A B} (m : M (expected A)) (k : A -> M (expected B)) w Q :
  spec b m w (fun r w' =>
    match r with Expected a => spec b (k a) w' Q | Unexpected e => Q (Unexpected e) w' end) ->
  spec b (try_bind m k) w Q.
Proof. intros Hm. apply spec_bind. revert Hm. apply spec_mono. intros [a|e] w'; done. Qed.
End rules.

Lemma spec_call_bind {R A} b (c : vcall R) (k : R -> M A) w Q :
  (forall r, spec (after b (Ev c r)) (k r) w Q) -> spec b (call c ≫= k) w Q.
Proof. exact (tspec_call_bind b c k w (fun _ => Q)). Qed.

(** What a specification says of a run in a given environment. *)
Lemma tspec_exec {A} b (m : M A) w Q env :
  tspec b m w Q ->
  match (exec env [] (m w)).2 with
  | Some (a, w') => Q (exec env [] (m w)).1 a w'
  | None => dies b (exec env [] (m w)).1
  end.
Proof. intros Hs. exact (proj1 (wlp_run _ _) Hs _ _ (exec_run env (m w) [])). Qed.

Lemma spec_exec {A} b (m : M A) w Q env :
  spec b m w Q ->
  match (exec env [] (m w)).2 with
  | Some (a, w') => Q a w'
  | None => dies b (exec env [] (m w)).1
  end.
Proof. intros Hs. exact (proj1 (wlp_run _ _) Hs _ _ (exec_run env (m w) [])). Qed.

(** A step of a program: the first rule that fits. *)
Ltac vstep :=
  lazymatch goal with
  | |- spec _ (mret _) _ _ => apply spec_ret
  | |- spec _ (call _ ≫= _) _ _ => apply spec_call_bind; intros ?
  | |- spec _ (call _) _ _ => apply spec_call; intros ?
  | |- spec _ (_ ≫= _) _ _ => apply spec_bind
  | |- spec _ (try_bind _ _) _ _ => apply spec_try
  | |- spec _ get_world _ _ => apply spec_get
  | |- spec _ get_space _ _ => apply spec_space
  | |- spec _ (get_region _) _ _ => apply spec_region
  | |- spec _ (put_region _ _) _ _ => apply spec_put
  | |- spec _ (update_region _ _) _ _ => apply spec_update
  | |- spec _ (update_space _) _ _ => apply spec_update_space
  | |- spec _ (modify _) _ _ => apply spec_modify
  | |- spec _ (liftE _) _ _ => apply spec_ret
  end; cbv beta iota.
Ltac vsteps := repeat vstep.

(** ** Live slots *)

Definition live (s : vm_page_slot) : Prop := s_state s <> ps_empty.
#[global] Instance live_dec s : Decision (live s).
Proof. unfold live. apply _. Defined.

Definition lives (m : vm_page_map) : list vm_page_slot := filter live (pm_slots m).
Definition pages_of (m : vm_page_map) : list Z := s_va_page <$> lives m.

(** An empty slot holds no cache binding. *)
Definition dead_unbound (s : vm_page_slot) : Prop := live s \/ s_binding s = None.

Record pages_ok (m : vm_page_map) : Prop := {
  po_count : pm_count m <= pm_capacity m;
  po_capacity : 0 <= pm_capacity m < U32_MAX;
  po_exists : pm_exists m = false -> pm_capacity m = 0;
  po_nodup : NoDup (pages_of m);
  po_bound : Forall dead_unbound (pm_slots m)
}.

Lemma slot_live_spec s : slot_live s = bool_decide (live s).
Proof. unfold slot_live, live. by do 2 case_bool_decide. Qed.

Lemma slot_matches_true s va : slot_matches s va = true <-> live s /\ s_va_page s = va.
Proof. unfold slot_matches. rewrite slot_live_spec, andb_true_iff, bool_decide_eq_true, Z.eqb_eq. done. Qed.

Lemma filter_length_le {A} (P : A -> Prop) `{forall x, Decision (P x)} (l : list A) :
  (length (filter P l) <= length l)%nat.
Proof. induction l as [|x l IH]; [done|]. rewrite filter_cons. case_decide; simpl; lia. Qed.

Lemma filter_all_inv {A} (P : A -> Prop) `{forall x, Decision (P x)} (l : list A) :
  Forall P l -> filter P l = l.
Proof. induction 1 as [|x l Hx Hl IH]; [done|]. rewrite filter_cons_True by done. by rewrite IH. Qed.

Lemma dead_unbound_fresh va : dead_unbound (fresh_slot va).
Proof. by right. Qed.
Lemma dead_unbound_empty : dead_unbound empty_slot.
Proof. by right. Qed.
Lemma dead_unbound_live s : live s -> dead_unbound s.
Proof. by left. Qed.
#[local] Hint Resolve dead_unbound_fresh dead_unbound_empty dead_unbound_live : core.

Lemma NoDup_fmap_filter {A} (f : A -> Z) (P : A -> Prop) `{forall x, Decision (P x)} l :
  NoDup (f <$> l) -> NoDup (f <$> filter P l).
Proof.
  induction l as [|z l IH]; intros Hn; [constructor|]. apply list.NoDup_cons in Hn as [Hz Hn].
  rewrite filter_cons. case_decide; [|by apply IH]. simpl. constructor; [|by apply IH].
  intros (y & E & [_ Hy]%list_elem_of_filter)%list_elem_of_fmap. apply Hz. rewrite E.
  by apply list_elem_of_fmap_2.
Qed.

(** What the scan of [reserve_page] finds. *)
Lemma scan_reserve_spec l va i f :
  va ∉ (s_va_page <$> filter live l) ->
  match scan_reserve l va i f with
  | inl _ => False
  | inr (Some j) => f = Some j \/ (f = None /\ exists k s, j = (i + k)%nat /\ l !! k = Some s /\ ~ live s)
  | inr None => f = None /\ Forall live l
  end.
Proof.
  revert i f. induction l as [|s l IH]; intros i f Hva; simpl; [by destruct f; [left|]|].
  destruct (slot_matches s va) eqn:Em.
  { apply slot_matches_true in Em as [Hl <-]. apply Hva. rewrite filter_cons_True by done. left. }
  assert (Hva' : va ∉ s_va_page <$> filter live l).
  { intros Hin. apply Hva. rewrite filter_cons. case_decide; [by right|done]. }
  specialize (IH (S i) (match f with Some f => Some f | None => if slot_live s then None else Some i end) Hva').
  destruct (scan_reserve l va (S i) _) as [?|[j|]]; [done| |].
  - destruct f as [f|]; [destruct IH as [[= ->]|[? _]]; [by left|done]|]. right. split; [done|].
    rewrite slot_live_spec in IH. case_bool_decide as Hl.
    + destruct IH as [?|(_ & k & s' & -> & Hk & Hs)]; [done|]. exists (S k), s'. split; [lia|done].
    + destruct IH as [[= ->]|[? _]]; [|done]. exists 0%nat, s. split_and!; [lia|done|done].
  - destruct f as [f|]; [by destruct IH|]. rewrite slot_live_spec in IH. case_bool_decide; [|by destruct IH].
    destruct IH. split; [done|by constructor].
Qed.

Lemma filter_insert_dead (l : list vm_page_slot) (i : nat) s0 s :
  l !! i = Some s0 -> ~ live s0 -> live s -> filter live (<[i := s]> l) ≡ₚ s :: filter live l.
Proof.
  revert i. induction l as [|x l IH]; intros [|i] Hi H0 Hs; simplify_eq/=.
  - rewrite filter_cons_True, filter_cons_False by done. done.
  - rewrite !filter_cons. case_decide; rewrite (IH i Hi H0 Hs); [apply Permutation_swap|done].
Qed.

Lemma filter_insert_same (l : list vm_page_slot) (i : nat) s0 s :
  l !! i = Some s0 -> ~ live s0 -> ~ live s -> filter live (<[i := s]> l) = filter live l.
Proof.
  revert i. induction l as [|x l IH]; intros [|i] Hi H0 Hs; simplify_eq/=.
  - by rewrite !filter_cons_False.
  - rewrite !filter_cons. by rewrite (IH i Hi H0 Hs).
Qed.

Lemma fresh_dead va : ~ live (fresh_slot va).
Proof. intros H. by apply H. Qed.

Lemma empty_dead : ~ live empty_slot.
Proof. intros H. by apply H. Qed.

(** A map with room finds a slot without growing. *)
Lemma reserve_room b m va w Q :
  pages_ok m -> va ∉ pages_of m -> Z.of_nat (length (lives m)) < pm_capacity m ->
  (forall i m', pm_slots m' !! i = Some (fresh_slot va) -> lives m' = lives m ->
    pm_capacity m' = pm_capacity m -> pm_exists m' = pm_exists m -> pages_ok m' -> Q (Some i, m') w) ->
  spec b (reserve_page m va) w Q.
Proof.
  intros Hok Hva Hroom HQ. unfold reserve_page.
  pose proof (scan_reserve_spec (pm_slots m) va 0 None Hva) as Hs.
  assert (Hnd : forall m', lives m' = lives m -> NoDup (pages_of m')).
  { intros m' E. unfold pages_of. rewrite E. apply (po_nodup _ Hok). }
  destruct (scan_reserve _ _ _ _) as [?|[j|]]; [done| |].
  - destruct Hs as [?|(_ & k & s & -> & Hk & Hd)]; [done|]. simpl in *. apply spec_ret.
    assert (E : lives (VmPageMap (pm_exists m) (pm_capacity m) (<[k := fresh_slot va]> (pm_slots m))) = lives m).
    { apply (filter_insert_same _ _ s); [done|done|apply fresh_dead]. }
    apply HQ; [|done|done|done|].
    + simpl. apply list_lookup_insert_eq. by apply lookup_lt_Some in Hk.
    + destruct Hok as [H1 H2 H3 H4 H5]. constructor; simpl; [|done|done|by apply Hnd|by apply Forall_insert].
      unfold pm_count in *. simpl. by rewrite length_insert.
  - destruct Hs as [_ Hall]. unfold lives in Hroom. rewrite (filter_all_inv _ _ Hall) in Hroom.
    destruct (Z.eqb_spec (pm_count m) (pm_capacity m)) as [E|Hne]; [unfold pm_count in E; lia|].
    apply spec_bind, spec_ret. simpl. apply spec_ret.
    assert (E : lives (VmPageMap (pm_exists m) (pm_capacity m) (pm_slots m ++ [fresh_slot va])) = lives m).
    { unfold lives. simpl. rewrite list.filter_app, filter_cons_False by apply fresh_dead.
      by rewrite filter_nil, app_nil_r. }
    apply HQ; [|done|done|done|].
    + simpl. rewrite lookup_app_r, Nat.sub_diag by done. done.
    + destruct Hok as [H1 H2 H3 H4 H5]. constructor; simpl; [|done|done|by apply Hnd|apply Forall_app; auto].
      unfold pm_count in *. simpl. rewrite length_app. simpl. lia.
Qed.

(** ** Moving slots between maps *)

(** The loop that moves the selected live slots of region [x] into the map of
    region [y] ([vm_split], [vm_join_split]), rebinding the reverse map; it
    counts the moved slots and those of them that are committed. *)
Fixpoint move_slots (sel : vm_page_slot -> bool) (x y : Z) (i : nat)
    (src : list vm_page_slot) (dst : vm_page_map) (committed resident : Z)
    : M (list vm_page_slot * vm_page_map * Z * Z) :=
  match src with
  | [] => mret ([], dst, committed, resident)
  | s :: rest =>
      if negb (slot_live s && sel s) then
        '(rest', dst', c, r) ← move_slots sel x y (S i) rest dst committed resident;
        mret (s :: rest', dst', c, r)
      else
        '(slot, dst1) ← reserve_page dst (s_va_page s);
        match slot with
        | None => fatal
        | Some j =>
            match slot_transfer_to s (default empty_slot (pm_slots dst1 !! j)) with
            | None => fatal
            | Some (t, s') =>
                ok ← (if negb (s_phys t =? 0) && negb (bool_decide (s_state t = ps_portal))
                      then call (CRmapRebind x (Z.of_nat i) y (Z.of_nat j) (s_phys t))
                      else mret true);
                if negb ok then fatal
                else
                  '(rest', dst', c, r) ← move_slots sel x y (S i) rest
                      (VmPageMap (pm_exists dst1) (pm_capacity dst1)
                         (<[j := t]> (pm_slots dst1)))
                      (committed + (if bool_decide (s_state t = ps_resident) ||
                                       bool_decide (s_state t = ps_cow) ||
                                       bool_decide (s_state t = ps_ipc) then 1 else 0))
                      (resident + (if slot_live t then 1 else 0));
                  mret (s' :: rest', dst', c, r)
            end
        end
  end.

Definition is_committed (s : vm_page_slot) : Prop :=
  s_state s = ps_resident \/ s_state s = ps_cow \/ s_state s = ps_ipc.
#[global] Instance is_committed_dec s : Decision (is_committed s).
Proof. unfold is_committed. apply _. Defined.

Definition moved (sel : vm_page_slot -> bool) (l : list vm_page_slot) : list vm_page_slot :=
  filter (fun s => live s /\ sel s = true) l.

(** Putting a live slot in a reserved place. *)
Lemma place_ok m i va s :
  pages_ok m -> pm_slots m !! i = Some (fresh_slot va) -> live s -> s_va_page s ∉ pages_of m ->
  let m' := VmPageMap (pm_exists m) (pm_capacity m) (<[i := s]> (pm_slots m)) in
  lives m' ≡ₚ s :: lives m /\ pages_ok m'.
Proof.
  intros [H1 H2 H3 H4 H5] Hi Hs Hva m'.
  assert (HP : lives m' ≡ₚ s :: lives m) by (apply (filter_insert_dead _ _ (fresh_slot va)); auto using fresh_dead).
  split; [done|]. constructor; [|done|done| |].
  - unfold pm_count in *. simpl. by rewrite length_insert.
  - unfold pages_of. rewrite HP. simpl. constructor; [exact Hva|exact H4].
  - simpl. apply Forall_insert; auto.
Qed.

Lemma transfer_fresh s va : slot_transfer_to s (fresh_slot va) = Some (s, empty_slot).
Proof. done. Qed.

Lemma moved_cons_yes sel s l : live s -> sel s = true -> moved sel (s :: l) = s :: moved sel l.
Proof. intros. unfold moved. by rewrite filter_cons_True. Qed.

Lemma moved_cons_no sel s l : ~ (live s /\ sel s = true) -> moved sel (s :: l) = moved sel l.
Proof. intros. unfold moved. by rewrite filter_cons_False. Qed.

Definition kept (sel : vm_page_slot -> bool) (l : list vm_page_slot) : list vm_page_slot :=
  filter (fun s => live s /\ sel s = false) l.

Lemma committed_cons s l :
  Z.of_nat (length (filter is_committed (s :: l))) =
  (if bool_decide (s_state s = ps_resident) || bool_decide (s_state s = ps_cow) ||
      bool_decide (s_state s = ps_ipc) then 1 else 0) + Z.of_nat (length (filter is_committed l)).
Proof.
  rewrite filter_cons. unfold is_committed.
  case_decide; do 3 case_bool_decide; simpl; (lia || naive_solver).
Qed.

Lemma move_slots_ok b sel x y i src dst c r w Q :
  pages_ok dst -> NoDup (pages_of dst ++ (s_va_page <$> moved sel src)) ->
  Z.of_nat (length (lives dst) + length (moved sel src)) <= pm_capacity dst ->
  (forall src' dst', filter live src' = kept sel src -> length src' = length src ->
     (Forall dead_unbound src -> Forall dead_unbound src') ->
     lives dst' ≡ₚ lives dst ++ moved sel src -> pages_ok dst' ->
     pm_capacity dst' = pm_capacity dst -> pm_exists dst' = pm_exists dst ->
     Q (src', dst', c + Z.of_nat (length (filter is_committed (moved sel src))),
        r + Z.of_nat (length (moved sel src))) w) ->
  spec b (move_slots sel x y i src dst c r) w Q.
Proof.
  revert i dst c r Q. induction src as [|s rest IH]; intros i dst c r Q Hok Hnd Hroom HQ; simpl.
  { apply spec_ret. specialize (HQ [] dst). simpl in HQ. rewrite app_nil_r, !Z.add_0_r in HQ. by apply HQ. }
  assert (Hsel : slot_live s && sel s = bool_decide (live s /\ sel s = true)).
  { rewrite slot_live_spec. destruct (sel s); do 2 case_bool_decide; naive_solver. }
  rewrite Hsel. case_bool_decide as Hs; cbn [negb].
  2:{ rewrite moved_cons_no in Hnd, Hroom, HQ by done. vstep. apply IH; [done..|].
      intros src' dst' Es El Eb Ed Hok' Ec Ee. apply spec_ret.
      apply HQ; [|simpl; by rewrite El| |done..].
      2:{ rewrite !list.Forall_cons. tauto. }
      unfold kept in *. destruct (decide (live s)) as [Hl|Hl].
      - assert (sel s = false) by (destruct (sel s); tauto).
        rewrite filter_cons_True by done. rewrite filter_cons_True by done. by rewrite Es.
      - rewrite filter_cons_False by done. rewrite filter_cons_False by tauto. exact Es. }
  destruct Hs as [Hl Hsl]. rewrite moved_cons_yes in Hnd, Hroom, HQ by done. simpl in Hnd, Hroom.
  apply list.NoDup_app in Hnd as (Hn1 & Hn2 & Hn3). apply list.NoDup_cons in Hn3 as [Hn3 Hn4].
  assert (Hva : s_va_page s ∉ pages_of dst) by (intros Hin; apply (Hn2 _ Hin); left).
  vstep. apply reserve_room; [done|done|lia|]. intros j m1 Hj E1 Ec Ee Hok1.
  rewrite Hj. change (default empty_slot (Some (fresh_slot (s_va_page s)))) with (fresh_slot (s_va_page s)).
  rewrite transfer_fresh.
  destruct (place_ok m1 j _ s Hok1 Hj Hl) as [HP Hok2]; [by unfold pages_of; rewrite E1|].
  match goal with |- spec _ (_ ≫= ?k) _ _ => assert (Hgo : spec b (k true) w Q) end.
  { cbn [negb]. vstep. apply IH; [done| | |].
    - unfold pages_of in *. rewrite HP, E1. simpl. constructor.
      + rewrite elem_of_app. intros [?|?]; [by apply Hva|by apply Hn3].
      + apply list.NoDup_app. split_and!; [done| |done]. intros z Hz Hz'. apply (Hn2 z Hz). by right.
    - rewrite HP, E1. simpl in *. rewrite Ec. lia.
    - intros src' dst' Es El Eb Ed Hok3 Ec3 Ee3. apply spec_ret. simpl in Ec3, Ee3.
      rewrite slot_live_spec, (bool_decide_eq_true_2 (live s)) by done. rewrite <- !Z.add_assoc, <- committed_cons.
      replace (1 + Z.of_nat (length (moved sel rest))) with (Z.of_nat (length (s :: moved sel rest))) by (simpl; lia).
      apply HQ; [|simpl; by rewrite El| | |done|by rewrite Ec3|by rewrite Ee3].
      + rewrite filter_cons_False by apply empty_dead. rewrite Es. unfold kept.
        rewrite (filter_cons_False _ s rest) by (intros []; congruence). done.
      + rewrite !list.Forall_cons. naive_solver.
      + rewrite Ed, HP, E1. simpl. by rewrite Permutation_middle. }
  destruct (negb (s_phys s =? 0) && _); [|apply spec_bind, spec_ret; exact Hgo].
  apply spec_call_bind. intros [|]; [|apply spec_fatal; right; by left].
  by apply (spec_weaken b).
Qed.

(** ** Trimming, growing and releasing *)

Lemma drop_empty_live l : filter live (drop_empty l) = filter live l.
Proof.
  induction l as [|s l IH]; [done|]. simpl. rewrite slot_live_spec. case_bool_decide; [done|].
  by rewrite filter_cons_False.
Qed.

Lemma drop_empty_length l : (length (drop_empty l) <= length l)%nat.
Proof. induction l as [|s l IH]; simpl; [done|]. destruct (slot_live s); simpl; lia. Qed.

Lemma filter_reverse {A} (P : A -> Prop) `{forall x, Decision (P x)} (l : list A) :
  filter P (reverse l) = reverse (filter P l).
Proof.
  induction l as [|x l IH]; [done|]. rewrite reverse_cons, list.filter_app, IH, !filter_cons, filter_nil.
  case_decide; [by rewrite reverse_cons|by rewrite app_nil_r].
Qed.

Lemma trim_live l : filter live (trim_slots l) = filter live l.
Proof. unfold trim_slots. by rewrite filter_reverse, drop_empty_live, filter_reverse, reverse_involutive. Qed.

Lemma trim_length l : (length (trim_slots l) <= length l)%nat.
Proof. unfold trim_slots. rewrite length_reverse. etrans; [apply drop_empty_length|]. by rewrite length_reverse. Qed.

Lemma drop_empty_Forall P l : Forall P l -> Forall P (drop_empty l).
Proof. induction 1 as [|s l Hs Hl IH]; simpl; [done|]. destruct (slot_live s); [by constructor|done]. Qed.

Lemma trim_bound l : Forall dead_unbound l -> Forall dead_unbound (trim_slots l).
Proof. intros H. apply Forall_reverse, drop_empty_Forall. by apply Forall_reverse. Qed.

(** The doubling loop reaches every capacity below [2^31] in its 32 turns. *)
Lemma grow_capacity_Some fuel c min nc :
  1 <= c < U32_MAX -> grow_capacity fuel c min = Some nc -> c <= nc < U32_MAX /\ min <= nc.
Proof.
  revert c. induction fuel as [|fuel IH]; intros c Hc; simpl;
    (destruct (Z.leb_spec min c); [intros [= <-]; lia|]);
    (destruct (Z.ltb_spec (U32_MAX / 2) c) as [?|Hd]; [done|]); [done|].
  change (U32_MAX / 2) with 2147483647 in Hd. rewrite u32_small by solve_u.
  intros H'. apply IH in H'; unfold U32_MAX in *; lia.
Qed.

Lemma grow_capacity_total fuel c min :
  1 <= c -> min <= c * 2 ^ Z.of_nat fuel -> min <= 2 ^ 31 -> exists nc, grow_capacity fuel c min = Some nc.
Proof.
  change (2 ^ 31) with 2147483648.
  revert c. induction fuel as [|fuel IH]; intros c Hc Hf Hm; cbn [grow_capacity].
  - destruct (Z.leb_spec min c); [eauto|]. change (2 ^ Z.of_nat 0) with 1 in Hf. lia.
  - destruct (Z.leb_spec min c); [eauto|].
    destruct (Z.ltb_spec (U32_MAX / 2) c) as [Hd|Hd]; change (U32_MAX / 2) with 2147483647 in Hd; [lia|].
    rewrite u32_small by solve_u. apply IH; [lia| |done].
    replace (Z.of_nat (S fuel)) with (Z.of_nat fuel + 1) in Hf by lia. rewrite Z.pow_add_r in Hf by lia. lia.
Qed.

(** Growing keeps the slots. *)
Lemma reserve_capacity_ok b m min w Q :
  pages_ok m ->
  (forall ok m', pm_slots m' = pm_slots m -> pages_ok m' -> pm_capacity m <= pm_capacity m' ->
     (ok = true -> min <= pm_capacity m') -> (ok = false -> m' = m) ->
     (pm_exists m = true -> pm_exists m' = true) -> Q (ok, m') w) ->
  spec b (reserve_capacity m min) w Q.
Proof.
  intros Hok HQ. unfold reserve_capacity. destruct (Z.leb_spec min (pm_capacity m)).
  { apply spec_ret. by apply HQ. }
  set (c := if pm_capacity m =? 0 then _ else _).
  assert (Hc : 1 <= c < U32_MAX /\ pm_capacity m <= c).
  { destruct Hok as [? [? ?] ? ? ?]. unfold c, VM_PAGE_MAP_INITIAL, U32_MAX in *. case_match; lia. }
  destruct (grow_capacity 32 c min) as [nc|] eqn:E; [|apply spec_ret; by apply HQ].
  apply grow_capacity_Some in E; [|lia]. vstep. destruct r; cbn [negb].
  2:{ apply spec_ret. by apply HQ. }
  assert (HQ' : Q (true, VmPageMap true nc (pm_slots m)) w).
  { apply HQ; simpl; try done; try lia.
    destruct Hok. constructor; simpl; try done; unfold pm_count in *; simpl; lia. }
  destruct (pm_exists m); vsteps; done.
Qed.

Lemma scan_page_spec l va i :
  match scan_page l va i with
  | Some (j, s) => exists k, j = (i + k)%nat /\ l !! k = Some s /\ live s /\ s_va_page s = va
  | None => va ∉ (s_va_page <$> filter live l)
  end.
Proof.
  revert i. induction l as [|s l IH]; intros i; simpl; [apply not_elem_of_nil|].
  destruct (slot_matches s va) eqn:Em.
  { apply slot_matches_true in Em as [? ?]. exists 0%nat. split_and!; [lia|done..]. }
  specialize (IH (S i)). destruct (scan_page l va (S i)) as [[j s']|].
  - destruct IH as (k & -> & ?). exists (S k). split; [lia|done].
  - rewrite filter_cons. case_decide as Hl; [|done]. simpl. apply not_elem_of_cons. split; [|done].
    intros ->. assert (slot_matches s (s_va_page s) = true) by by apply slot_matches_true. congruence.
Qed.

Lemma scan_reserve_inl l va i f j :
  scan_reserve l va i f = inl j -> exists k s, j = (i + k)%nat /\ l !! k = Some s /\ live s /\ s_va_page s = va.
Proof.
  revert i f. induction l as [|s l IH]; intros i f; simpl; [done|].
  destruct (slot_matches s va) eqn:Em.
  - intros [= <-]. apply slot_matches_true in Em as [? ?]. exists 0%nat, s. split_and!; [lia|done..].
  - intros (k & s' & -> & ?)%IH. exists (S k), s'. split; [lia|done].
Qed.

Lemma scan_reserve_inr l va i f r : scan_reserve l va i f = inr r -> va ∉ (s_va_page <$> filter live l).
Proof.
  revert i f. induction l as [|s l IH]; intros i f; simpl; [intros _; apply not_elem_of_nil|].
  destruct (slot_matches s va) eqn:Em; [done|]. intros Hva%IH. rewrite filter_cons. case_decide; [|done].
  simpl. apply not_elem_of_cons. split; [|done]. intros ->.
  assert (slot_matches s (s_va_page s) = true) by by apply slot_matches_true. congruence.
Qed.

Lemma lives_lookup m i s : pm_slots m !! i = Some s -> live s -> s ∈ lives m.
Proof. intros Hi Hs. apply list_elem_of_filter. split; [done|]. by eapply list_elem_of_lookup_2. Qed.

(** reserving a page of a well-formed page map never loses, duplicates or changes a live slot and keeps the map well formed;
    the slot handed out describes the page and is the live one of that page or a
    fresh one; the call fails only when every slot of the full map is in use, no
    slot has the page and the array could not grow, and then changes nothing. *)
Theorem reserve_page_exact m va w :
  pages_ok m ->
  spec strict (reserve_page m va) w (fun '(slot, m') w' =>
    w' = w /\ lives m' = lives m /\ pages_ok m' /\
    match slot with
    | Some i => exists s, pm_slots m' !! i = Some s /\ s_va_page s = va /\
                  (s ∈ lives m \/ (va ∉ pages_of m /\ s = fresh_slot va))
    | None => m' = m /\ va ∉ pages_of m /\ pm_count m = pm_capacity m /\ Forall live (pm_slots m)
    end).
Proof.
  intros Hok. destruct (scan_reserve (pm_slots m) va 0 None) as [i|o] eqn:E.
  { unfold reserve_page. rewrite E. apply spec_ret. split_and!; [done..|].
    apply scan_reserve_inl in E as (k & s & -> & Hk & Hl & Hv). exists s.
    split_and!; [done|done|]. left. by eapply lives_lookup. }
  pose proof (scan_reserve_inr _ _ _ _ _ E) as Hva.
  destruct (decide (Z.of_nat (length (lives m)) < pm_capacity m)) as [Hroom|Hfull].
  { apply reserve_room; [done..|]. intros i m' Hi El Ec Ee Hok'. split_and!; [done..|]. naive_solver. }
  pose proof (scan_reserve_spec (pm_slots m) va 0 None Hva) as Hs. unfold reserve_page. rewrite E in Hs |- *.
  assert (Hlen : (length (lives m) <= length (pm_slots m))%nat) by apply filter_length_le.
  pose proof (po_count _ Hok) as Hcount. unfold pm_count in *.
  destruct o as [j|].
  { destruct Hs as [?|(_ & k & s & -> & Hk & Hd)]; [done|]. exfalso.
    assert (Hall : Forall live (pm_slots m)).
    { apply list.Forall_forall. intros z Hz. destruct (decide (live z)) as [|Hz']; [done|exfalso].
      apply list_elem_of_split in Hz as (l1 & l2 & Es). unfold lives in Hfull.
      rewrite Es, list.filter_app, filter_cons_False, length_app in Hfull by done.
      pose proof (filter_length_le live l1). pose proof (filter_length_le live l2).
      rewrite Es, length_app in Hcount. simpl in Hcount. lia. }
    apply Hd. by eapply Forall_lookup_1. }
  destruct Hs as [_ Hall]. assert (Hcap : Z.of_nat (length (pm_slots m)) = pm_capacity m) by lia.
  rewrite (proj2 (Z.eqb_eq _ _) Hcap), u32_small by (pose proof (po_capacity _ Hok); solve_u).
  vstep. apply reserve_capacity_ok; [done|]. intros ok m' Es Hok' Hcap' Ht Hf _. destruct ok; cbn [negb].
  2:{ apply spec_ret. by rewrite (Hf eq_refl). }
  specialize (Ht eq_refl). apply spec_ret.
  assert (El : forall e c, lives (VmPageMap e c (pm_slots m' ++ [fresh_slot va])) = lives m).
  { intros e c. unfold lives. simpl. rewrite Es, list.filter_app, filter_cons_False by apply fresh_dead.
    by rewrite filter_nil, app_nil_r. }
  split_and!; [done|apply El| |].
  - destruct Hok' as [H1 H2 H3 H4 H5]. constructor; simpl; [|done|done| |apply Forall_app; auto].
    + unfold pm_count. simpl. rewrite length_app, Es. simpl. lia.
    + unfold pages_of. rewrite El. exact (po_nodup _ Hok).
  - exists (fresh_slot va). simpl. rewrite lookup_app_r, Nat.sub_diag by done. split_and!; [done|done|by right].
Qed.

Lemma pages_absent m : pages_ok m -> pm_exists m = false -> pm_slots m = [].
Proof.
  intros [H1 _ H3 _ _] E. specialize (H3 E). unfold pm_count in H1. destruct (pm_slots m); [done|simpl in H1; lia].
Qed.

(** Releasing a page forgets its slot and no other. *)
Lemma release_page_ok b m va w Q :
  pages_ok m -> Forall (fun s => s_binding s = None) (lives m) ->
  (forall m', lives m' = filter (fun s => s_va_page s <> va) (lives m) -> pages_ok m' ->
     Q (bool_decide (va ∈ pages_of m), m') w) ->
  spec b (release_page m va) w Q.
Proof.
  intros Hok Hb HQ. unfold release_page. pose proof (scan_page_spec (pm_slots m) va 0) as Hs.
  destruct (scan_page (pm_slots m) va 0) as [[i s]|].
  2:{ apply spec_ret. specialize (HQ m). rewrite bool_decide_eq_false_2 in HQ by done. apply HQ; [|done].
      symmetry. apply filter_all_inv. apply list.Forall_forall. intros s Hin Heq. apply Hs.
      rewrite <- Heq. by apply list_elem_of_fmap_2. }
  destruct Hs as (k & -> & Hk & Hl & Hv). simpl. pose proof (lives_lookup _ _ _ Hk Hl) as Hin.
  unfold slot_clear. rewrite (proj1 (list.Forall_forall _ _) Hb s Hin). apply spec_ret.
  assert (El : lives (VmPageMap (pm_exists m) (pm_capacity m) (trim_slots (<[k:=empty_slot]> (pm_slots m)))) =
               filter (fun s => s_va_page s <> va) (lives m)).
  { unfold lives. simpl. rewrite trim_live.
    pose proof (po_nodup _ Hok) as Hnd. unfold pages_of, lives in Hnd. clear -Hk Hl Hv Hnd.
    revert k Hk. induction (pm_slots m) as [|x l IH]; intros [|k] Hk; simplify_eq/=.
    - rewrite filter_cons_False by apply empty_dead. rewrite (filter_cons_True _ s) in Hnd |- * by done.
      apply list.NoDup_cons in Hnd as [Hn _]. rewrite filter_cons_False by naive_solver.
      symmetry. apply filter_all_inv, list.Forall_forall. intros z Hz Heq. apply Hn. rewrite <- Heq.
      by apply list_elem_of_fmap_2.
    - destruct (decide (live x)) as [Hx|Hx];
        [|rewrite (filter_cons_False live x l) in Hnd |- * by done;
          rewrite (filter_cons_False live x) by done; by apply IH].
      rewrite (filter_cons_True live x l) in Hnd |- * by done. rewrite (filter_cons_True live x) by done.
      apply list.NoDup_cons in Hnd as [Hn Hnd]. rewrite filter_cons_True, (IH Hnd k Hk); [done|].
      intros Heq. apply Hn. rewrite Heq. apply list_elem_of_fmap_2, list_elem_of_filter. split; [done|].
      by eapply list_elem_of_lookup_2. }
  specialize (HQ _ El). rewrite bool_decide_eq_true_2 in HQ.
  2:{ rewrite <- Hv. by apply list_elem_of_fmap_2. }
  apply HQ. destruct Hok as [H1 H2 H3 H4 H5]. constructor; simpl; [|done|done| |by apply trim_bound, Forall_insert].
  - unfold pm_count in *. simpl. pose proof (trim_length (<[k:=empty_slot]> (pm_slots m))) as Ht.
    rewrite length_insert in Ht. lia.
  - unfold pages_of. rewrite El. unfold pages_of in H4. by apply NoDup_fmap_filter.
Qed.
