(* ===== verification/Vm.v ===== *)
(** * The virtual memory engine ([src/zxfoundation/memory/vm.zcomponent/core.cxx])

    One address space and the operations on it: lookup, gap search, splitting,
    joining and merging regions, mapping, unmapping, protecting and teardown.
    Every operation runs with the lock of the space held, so it is one step on
    the state; lookups that the code protects by RCU read the tree directly.
    [syschk_fatal] and traps end a run.  Loops over the tree carry the number of
    regions as fuel and die when it is spent; loops over pages carry the number
    of pages. *)

From S2P Require Import Prelude Errors Kobject MemContract Prog VmTree VmTypes VmPages.

Open Scope zx_scope.

(** ** Conversions to the DGP contract *)

Definition prot_to_mmu (prot : Z) : Z :=
  Z.lor (if has_flag prot prot_write then 0 else PTE_PROTECT)
        (if has_flag prot prot_exec then 0 else PTE_NOEXEC).

Definition shared_mapping (flags : Z) (backing : vm_backing) : bool :=
  has_flag flags (Z.lor vf_portal vf_ipc) ||
  bool_decide (backing = bk_portal_shared) || bool_decide (backing = bk_ipc_shared).

Definition dgp_access_from_vm (prot flags : Z) (backing : vm_backing) : Z :=
  Z.lor (Z.lor (if has_flag prot prot_read then 1 else 0)
               (if has_flag prot prot_write then 2 else 0))
        (Z.lor (if has_flag prot prot_exec then 4 else 0)
               (if shared_mapping flags backing then access_share else 0)).

Definition dgp_scope_from_vm (flags : Z) (backing : vm_backing) : memory_scope :=
  if has_flag flags vf_kernel then nucleus
  else if shared_mapping flags backing then portal_shared
  else private_domain.

(** The placement policy of the request is not read by the contract. *)
Definition build_contract_request (s : vm_space) (va length prot flags : Z)
    (backing : vm_backing) (phys_base storage_key numa_node : Z) : contract_request :=
  ContractRequest (sp_owner_domain s) va (u64 (va + length)) phys_base length
    (prot_to_mmu prot)
    (if storage_key =? 0 then sp_storage_key s else storage_key)
    (if numa_node =? 0 then sp_numa_node s else numa_node)
    (dgp_access_from_vm prot flags backing) (dgp_scope_from_vm flags backing).

Definition policy_from_contract (c : contract_result) (mapping_generation key_generation : Z)
    : memory_object_policy :=
  MemoryObjectPolicy (res_storage_key c) key_generation (res_numa_node c) (res_scope c)
    (res_access c) (res_required_rights c) (invalidate c) (res_generation c) mapping_generation.

Definition next_policy_from_contract (s : vm_space) (c : contract_result)
    : memory_object_policy :=
  policy_from_contract c (u64 (sp_mapping_generation s + 1)) (sp_storage_key_generation s).

(** The authorizations read the global contract generation. *)
Definition vm_authorize (f : Z -> expected contract_result) : M (expected contract_result) :=
  g ← call CContractGeneration; mret (f g).

(** ** Policy of a region, read through its mapping object *)

Definition mapping_policy (r : vm_region) : M (option memory_object_policy) :=
  v ← call (CObjectResolve (r_mapping r)); mret (ov_policy <$> v).

(** [storage_key()], [numa_node()] and the other accessors. *)
Definition policy_field {A} (f : memory_object_policy -> A) (d : A) (r : vm_region) : M A :=
  p ← mapping_policy r; mret (from_option f d p).

Definition policy_from_region (r : vm_region) : M memory_object_policy :=
  key ← policy_field mp_storage_key 0 r;
  key_gen ← policy_field mp_storage_key_generation 0 r;
  numa ← policy_field mp_numa_node 0 r;
  scope ← policy_field mp_scope private_domain r;
  access ← policy_field mp_access 0 r;
  rights ← policy_field mp_rights 0 r;
  inv ← policy_field mp_invalidate inv_none r;
  dgp ← policy_field mp_dgp_generation 0 r;
  gen ← policy_field mp_mapping_generation 0 r;
  mret (MemoryObjectPolicy key key_gen numa scope access rights inv dgp gen).

Definition commit_region_policy (x : Z) (c : contract_result) : M (expected unit) :=
  s ← get_space;
  r ← get_region x;
  let policy := next_policy_from_contract s c in
  _ <-? call (CObjectUpdatePolicy (r_mapping r) policy);;
  _ ← update_space (with_generations (res_generation c) (mp_mapping_generation policy));
  mret (Expected tt).

Definition contract_metadata_compatible (l r : vm_region) : M bool :=
  a1 ← policy_field mp_storage_key 0 l; b1 ← policy_field mp_storage_key 0 r;
  if negb (a1 =? b1) then mret false else
  a2 ← policy_field mp_numa_node 0 l; b2 ← policy_field mp_numa_node 0 r;
  if negb (a2 =? b2) then mret false else
  a3 ← policy_field mp_scope private_domain l; b3 ← policy_field mp_scope private_domain r;
  if negb (bool_decide (a3 = b3)) then mret false else
  a4 ← policy_field mp_access 0 l; b4 ← policy_field mp_access 0 r;
  if negb (a4 =? b4) then mret false else
  a5 ← policy_field mp_rights 0 l; b5 ← policy_field mp_rights 0 r;
  if negb (a5 =? b5) then mret false else
  a6 ← policy_field mp_dgp_generation 0 l; b6 ← policy_field mp_dgp_generation 0 r;
  mret (a6 =? b6).

Definition same_memory_ref (l r : memory_object_ref) : bool :=
  bool_decide (mr_type l = mr_type r) && (mr_id l =? mr_id r) &&
  (mr_generation l =? mr_generation r).

(** ** The region tree *)

Definition rb_commit_insert (x : Z) (plan : list bool * bool) : M unit :=
  _ ← update_space (fun s => with_tree (rb_link (sp_tree s) plan.1 x) s);
  update_region x (with_linked true).

Definition rb_insert_region (x : Z) : M bool :=
  w ← get_world;
  match rb_plan_insert (st w) (en w) None (sp_tree (w_space w)) (st w x) with
  | None => mret false
  | Some plan => _ ← rb_commit_insert x plan; mret true
  end.

(** An erasure in the stale shape ends the run. *)
Definition rb_erase (x : Z) : M unit :=
  s ← get_space;
  if stale_at (sp_tree s) x then _ ← call (CStaleErase x); fatal
  else update_space (fun s => with_tree (rb_unlink (sp_tree s) x) s).

(** [vm_find], [rb_find_rcu]. *)
Definition vm_find (w : world) (va : Z) : option Z :=
  rb_find (st w) (en w) (sp_tree (w_space w)) va.

(** ** Region descriptors *)

Definition fresh_id (m : gmap Z vm_region) : Z := map_fold (fun k _ a => Z.max a (k + 1)) 0 m.

Definition alloc_region (va_start va_end prot flags : Z) (backing : vm_backing) (phys_base : Z)
    : M (expected Z) :=
  _ <-? call CRegionAlloc;;
  w ← get_world;
  let x := fresh_id (w_regions w) in
  _ ← put_region x (VmRegion va_start va_end prot flags backing phys_base U32_MAX U32_MAX 0 0
                      false null_ref null_ref null_ref null_ref 0 0 empty_page_map);
  mret (Expected x).

(** [detach] and [g_region_table.release] on an error path. *)
Definition abandon_region (x : Z) : M unit :=
  _ ← call (CDetach x);
  _ ← call (CRegionRelease x);
  drop_region x.

Definition attach_region_owner (x : Z) : M (expected unit) :=
  s ← get_space;
  if sp_address_space_object s then call (CAttach x)
  else mret (Unexpected (from_generic invalid_arg)).

Definition create_region_mapping_object (x : Z) (grant : memory_object_ref)
    (policy : memory_object_policy) : M (expected unit) :=
  v ← call (CObjectResolve grant);
  match v with
  | Some g =>
      if bool_decide (ov_type g = kt_grant) then
        s ← get_space;
        r ← get_region x;
        m <-? create_object kt_mapping (sp_owner_domain s) (Some grant) (r_va_start r)
                      (r_size r) (mp_rights policy) policy;;
        _ ← update_region x (fun r => with_objects (r_storage r) (r_grant r) m (r_extent r) r);
        mret (Expected tt)
      else mret (Unexpected (from_memory mem_capability_invalid))
  | None => mret (Unexpected (from_memory mem_capability_invalid))
  end.

(** The storage object's parent is the address-space object of the space. *)
Definition create_region_memory_objects (x : Z) (policy : memory_object_policy)
    : M (expected unit) :=
  s ← get_space;
  r ← get_region x;
  storage <-? create_object kt_storage (sp_owner_domain s) None (r_va_start r) (r_size r)
                right_none policy;;
  _ ← update_region x (fun r => with_objects storage (r_grant r) (r_mapping r) (r_extent r) r);
  g ← create_object kt_grant (sp_owner_domain s) (Some storage) (r_va_start r) (r_size r)
        (mp_rights policy) policy;
  match g with
  | Unexpected e =>
      _ ← call (CObjectDestroy storage); mret (Unexpected e)
  | Expected grant =>
      _ ← update_region x (fun r => with_objects (r_storage r) grant (r_mapping r) (r_extent r) r);
      m ← create_region_mapping_object x grant policy;
      match m with
      | Unexpected e =>
          _ ← call (CObjectDestroy grant);
          _ ← call (CObjectDestroy storage);
          mret (Unexpected e)
      | Expected _ => mret (Expected tt)
      end
  end.

(** A grant or storage object goes when nothing depends on it any more. *)
Definition destroy_unused (o : memory_object_ref) : M unit :=
  if ref_valid o then
    v ← call (CObjectResolve o);
    match v with
    | Some _ => d ← call (CHasDependents o); if (d : bool) then mret tt else call (CObjectDestroy o)
    | None => mret tt
    end
  else mret tt.

Definition clear_ref (o : memory_object_ref) : memory_object_ref :=
  if ref_valid o then null_ref else o.

Definition destroy_region_memory_objects (x : Z) : M unit :=
  r ← get_region x;
  m ← destroy_pages (r_pages r);
  _ ← update_region x (with_pages m);
  _ ← (if ref_valid (r_extent r) then call (CExtentRelease (r_extent r)) else mret tt);
  _ ← (if ref_valid (r_mapping r) then call (CObjectDestroy (r_mapping r)) else mret tt);
  _ ← destroy_unused (r_grant r);
  _ ← destroy_unused (r_storage r);
  update_region x (with_objects (clear_ref (r_storage r)) (clear_ref (r_grant r))
                     (clear_ref (r_mapping r)) (clear_ref (r_extent r))).

Definition update_region_memory_object_ranges (x : Z) : M unit :=
  r ← get_region x;
  if ref_valid (r_mapping r)
  then call (CObjectUpdateRange (r_mapping r) (r_va_start r) (r_size r)) else mret tt.

(** The descriptor goes back to the table after a grace period. *)
Definition free_region (x : Z) : M unit :=
  _ ← destroy_region_memory_objects x;
  _ ← call (CDetach x);
  _ ← call (CCallRcu x);
  drop_region x.

Definition rb_remove_and_free (x : Z) : M unit :=
  _ ← rb_erase x;
  r ← get_region x;
  _ ← update_space (fun s => with_totals (u64 (sp_total_mapped s - r_size r))
        (sp_total_committed s) (sp_total_resident s) (u32 (sp_region_count s - 1)) s);
  free_region x.

Definition rb_discard_split_region (x : Z) : M unit :=
  _ ← rb_erase x;
  _ ← update_space (fun s => with_totals (sp_total_mapped s)
        (sp_total_committed s) (sp_total_resident s) (u32 (sp_region_count s - 1)) s);
  free_region x.

(** ** Pages of a region *)

Definition page_fuel (va va_end : Z) : nat := Z.to_nat ((va_end - va + VM_PAGE_SIZE - 1) / VM_PAGE_SIZE).

Fixpoint unmap_pages (fuel : nat) (root va va_end : Z) {struct fuel} : M unit :=
  if va <? va_end then
    match fuel with
    | O => fatal
    | S fuel => _ ← call (CUnmapPage root va); unmap_pages fuel root (u64 (va + VM_PAGE_SIZE)) va_end
    end
  else mret tt.
Definition unmap_range_pages (root va_start va_end : Z) : M unit :=
  unmap_pages (page_fuel va_start va_end) root va_start va_end.

Fixpoint map_pages (fuel : nat) (root va phys va_end pp : Z) {struct fuel} : M (expected unit) :=
  if va <? va_end then
    match fuel with
    | O => fatal
    | S fuel =>
        _ <-? call (CMapPage root va phys pp);;
        map_pages fuel root (u64 (va + VM_PAGE_SIZE)) (u64 (phys + VM_PAGE_SIZE)) va_end pp
    end
  else mret (Expected tt).
Definition map_physical_range (root : Z) (r : vm_region) (phys_base pp : Z) : M (expected unit) :=
  map_pages (page_fuel (r_va_start r) (r_va_end r)) root (r_va_start r) phys_base (r_va_end r) pp.

Definition apply_vm_invalidation (root : Z) (r : vm_region) (i : invalidation_scope) : M unit :=
  call (CTlbScope i root (r_va_start r)).

(** A released cache binding is cleared in the slot. *)
Definition release_slot_mapping (s : vm_page_slot) : M (bool * vm_page_slot) :=
  if bool_decide (s_state s = ps_empty) || bool_decide (s_state s = ps_portal) || (s_phys s =? 0)
  then mret (false, s)
  else
    match s_binding s with
    | Some b =>
        changed ← call (CSkeyChanged (s_phys s));
        dirty ← (if (changed : bool) then call (CMarkDirty b) else mret (Expected tt));
        match dirty with
        | Unexpected _ => fatal
        | Expected _ =>
            released ← call (CReleaseBinding b);
            match released with
            | Unexpected _ => fatal
            | Expected _ =>
                mret (false, VmPageSlot (s_va_page s) (s_phys s) (s_file_node s) (s_file_index s)
                               None (s_state s) (s_flags s) (s_dirty s))
            end
        end
    | None =>
        released ← call (CReleasePin (s_phys s));
        match released with Unexpected _ => fatal | Expected freed => mret (freed, s) end
    end.

(** [teardown_region_slots]: every live slot is released and cleared. *)
Fixpoint teardown_slots (x : Z) (i : nat) (l : list vm_page_slot) (freed : Z)
    : M (list vm_page_slot * Z) :=
  match l with
  | [] => mret ([], freed)
  | s :: rest =>
      if negb (slot_live s) then
        '(rest', f) ← teardown_slots x (S i) rest freed; mret (s :: rest', f)
      else
        '(done, s') ←
          (if negb (bool_decide (s_state s = ps_portal)) && negb (s_phys s =? 0) then
             _ ← call (CRmapRemove x (Z.of_nat i) (s_phys s)); release_slot_mapping s
           else mret (false, s));
        match slot_clear s' with
        | None => fatal
        | Some e =>
            '(rest', f) ← teardown_slots x (S i) rest (freed + (if done : bool then 1 else 0));
            mret (e :: rest', f)
        end
  end.
Definition teardown_region_slots (x : Z) : M Z :=
  r ← get_region x;
  if pm_exists (r_pages r) then
    '(l, freed) ← teardown_slots x 0 (pm_slots (r_pages r)) 0;
    _ ← update_region x (with_pages (VmPageMap true (pm_capacity (r_pages r)) l));
    mret freed
  else mret 0.

(** ** Splitting and joining *)

Definition vm_join_split (lower upper : Z) : M unit :=
  l ← get_region lower;
  u ← get_region upper;
  if negb (r_linked l) || negb (r_linked u) || negb (r_va_end l =? r_va_start u) then fatal
  else
    _ ← (if pm_exists (r_pages u) then
           '(rest, pages, _, _) ← move_slots (fun _ => true) upper lower 0
              (pm_slots (r_pages u)) (r_pages l) 0 0;
           _ ← update_region upper (with_pages
                 (VmPageMap true (pm_capacity (r_pages u)) rest));
           update_region lower (with_pages pages)
         else mret tt);
    _ ← update_region lower (fun l' => with_range (r_va_start l') (r_va_end u) l');
    _ ← update_region_memory_object_ranges lower;
    _ ← update_region lower (fun l' => with_counts (u64 (r_committed l' + r_committed u))
          (u64 (r_resident l' + r_resident u)) l');
    rb_discard_split_region upper.

(** The fallible part of [vm_split]: a linked-up descriptor for the upper half
    and the place of its tree node. *)
Definition split_prepare (x : Z) (split_va : Z) : M (expected (Z * (list bool * bool))) :=
  r ← get_region x;
  let lower_size := u64 (split_va - r_va_start r) in
  let upper_phys := if bool_decide (r_backing r = bk_physical)
                    then u64 (r_phys_base r + lower_size) else 0 in
  y <-? alloc_region split_va (r_va_end r) (r_prot r) (r_flags r) (r_backing r) upper_phys;;
  owner ← call (CSetOwner y (r_owner_domain r));
  match owner with
  | Unexpected e => _ ← abandon_region y; mret (Unexpected e)
  | Expected _ =>
  attach ← attach_region_owner y;
  match attach with
  | Unexpected e => _ ← abandon_region y; mret (Unexpected e)
  | Expected _ =>
  _ ← update_region y (with_owner (r_portal_id r) (r_owner_domain r) (r_file_node r)
        (u32 (r_file_page_offset r + u32 (Z.shiftr lower_size VM_PAGE_SHIFT))));
  policy ← policy_from_region r;
  _ ← update_region y (fun n => with_objects (r_storage r) (r_grant r) (r_mapping n) (r_extent n) n);
  object ← create_region_mapping_object y (r_grant r) policy;
  match object with
  | Unexpected e => _ ← abandon_region y; mret (Unexpected e)
  | Expected _ =>
  extent ← (if ref_valid (r_extent r) then
              a ← call (CExtentAcquire (r_extent r));
              match a with
              | Unexpected e => mret (Unexpected e)
              | Expected _ =>
                  _ ← update_region y (fun n => with_objects (r_storage n) (r_grant n)
                        (r_mapping n) (r_extent r) n);
                  mret (Expected tt)
              end
            else mret (Expected tt));
  match extent with
  | Unexpected e =>
      _ ← destroy_region_memory_objects y; _ ← abandon_region y; mret (Unexpected e)
  | Expected _ =>
  w ← get_world;
  match rb_plan_insert (st w) (en w) (Some x) (sp_tree (w_space w)) split_va with
  | None =>
      _ ← destroy_region_memory_objects y; _ ← abandon_region y;
      mret (Unexpected (from_memory mem_region_overlap))
  | Some plan =>
      '(ok, pages) ← reserve_capacity empty_page_map (pm_count (r_pages r));
      if negb (ok : bool) then
        _ ← destroy_region_memory_objects y; _ ← abandon_region y;
        mret (Unexpected (from_memory mem_out_of_memory))
      else
        _ ← update_region y (with_pages pages); mret (Expected (y, plan))
  end end end end end.

(** The commit of [vm_split]: slots, ranges, tree and counters. *)
Definition split_commit (x y : Z) (plan : list bool * bool) (split_va : Z) : M unit :=
  r ← get_region x;
  n ← get_region y;
  let upper_pages := Z.shiftr (u64 (r_va_end r - split_va)) VM_PAGE_SHIFT in
  let total_pages := Z.shiftr (r_size r) VM_PAGE_SHIFT in
  '(upper_committed, upper_resident) ←
    (if pm_exists (r_pages r) then
       '(rest, pages, c, res) ← move_slots (fun s => split_va <=? s_va_page s) x y 0
          (pm_slots (r_pages r)) (r_pages n) 0 0;
       _ ← update_region x (with_pages
             (VmPageMap true (pm_capacity (r_pages r)) (trim_slots rest)));
       _ ← update_region y (with_pages pages);
       mret (c, res)
     else if total_pages =? 0 then mret (0, 0)
     else mret (u64 (r_committed r * upper_pages) / total_pages,
                u64 (r_resident r * upper_pages) / total_pages));
  _ ← update_region x (fun r => with_range (r_va_start r) split_va r);
  _ ← rb_commit_insert y plan;
  _ ← update_region_memory_object_ranges x;
  _ ← update_region y (with_counts upper_committed upper_resident);
  _ ← update_region x (with_counts (u64 (r_committed r - upper_committed))
                                   (u64 (r_resident r - upper_resident)));
  update_space (fun s => with_totals (sp_total_mapped s) (sp_total_committed s)
    (sp_total_resident s) (u32 (sp_region_count s + 1)) s).

Definition vm_split (x : Z) (split_va : Z) : M (expected Z) :=
  r ← get_region x;
  if (split_va <=? r_va_start r) || (r_va_end r <=? split_va)
  then mret (Unexpected (from_generic invalid_arg))
  else if negb (is_page_aligned split_va)
  then mret (Unexpected (from_memory mem_alignment_error))
  else
    s ← get_space;
    if sp_max_regions s <=? sp_region_count s
    then mret (Unexpected (from_memory mem_out_of_memory))
    else
      yp <-? split_prepare x split_va;;
      _ ← split_commit x yp.1 yp.2 split_va;
      mret (Expected yp.1).

(** ** Gap search *)

Definition aligned_start (gap_end size mask : Z) : Z :=
  Z.land (u64 (gap_end - size)) (Z.lxor U64_MAX mask).

(** The walk down from the last region below [mmap_base]; [inr] is the end of
    the lowest gap. *)
Fixpoint gap_loop (w : world) (size mask : Z) (fuel : nat) (candidate : option Z) (gap_end : Z)
    {struct fuel} : Z + Z :=
  match candidate with
  | None => inr gap_end
  | Some x =>
      let a := aligned_start gap_end size mask in
      if (en w x <? gap_end) && ((en w x <=? a) && (VM_USER_START <=? a)) then inl a
      else
        match fuel with
        | O => inr gap_end
        | S fuel => gap_loop w size mask fuel (prev_in (inorder (sp_tree (w_space w))) x) (st w x)
        end
  end.

Definition vm_find_gap (w : world) (size align : Z) : expected Z :=
  if size =? 0 then Unexpected (from_generic invalid_arg)
  else
    let mask := if align =? 0 then 0 else align - 1 in
    let t := sp_tree (w_space w) in
    let top := sp_mmap_base (w_space w) in
    match gap_loop w size mask (length (inorder t)) (last_below (st w) t top None) top with
    | inl a => Expected a
    | inr gap_end =>
        let a := aligned_start gap_end size mask in
        if (VM_USER_START <? gap_end) && (VM_USER_START <=? a) && (u64 (a + size) <=? gap_end)
        then Expected a
        else Unexpected (from_memory mem_out_of_memory)
    end.

(** [vm_rekey_region]: the region leaves the tree, gets its new start and comes
    back, or comes back as it was. *)
Definition vm_rekey_region (x new_start : Z) : M bool :=
  r ← get_region x;
  _ ← rb_erase x;
  _ ← update_region x (fun r => with_range new_start (r_va_end r) r);
  ok ← rb_insert_region x;
  if ok : bool then mret true
  else
    _ ← update_region x (fun r' => with_range (r_va_start r) (r_va_end r') r');
    _ ← rb_insert_region x;
    mret false.

(** ** Merging *)

(** The conditions under which [b] continues [a]. *)
Definition mergeable (a b : vm_region) : M bool :=
  if (r_va_end a =? r_va_start b) && (r_prot a =? r_prot b) && (r_flags a =? r_flags b) &&
     bool_decide (r_backing a = r_backing b) &&
     same_memory_ref (r_storage a) (r_storage b) && same_memory_ref (r_grant a) (r_grant b)
  then contract_metadata_compatible a b
  else mret false.

(** [a] takes over the range of [b], which leaves the space. *)
Definition absorb (a b : Z) : M unit :=
  rb ← get_region b;
  _ ← update_region a (fun r => with_range (r_va_start r) (r_va_end rb) r);
  _ ← update_region_memory_object_ranges a;
  ra ← get_region a;
  gb ← policy_field mp_mapping_generation 0 rb;
  ga ← policy_field mp_mapping_generation 0 ra;
  _ ← (if ga <? gb then
         g ← policy_field mp_mapping_generation 0 rb;
         v ← call (CObjectResolve (r_mapping ra));
         match v with Some _ => call (CSetMappingGeneration (r_mapping ra) g) | None => mret tt end
       else mret tt);
  _ ← update_region a (fun r => with_counts (u64 (r_committed r + r_committed rb))
        (u64 (r_resident r + r_resident rb)) r);
  rb_remove_and_free b.

Definition try_absorb (a b : Z) (other : vm_region) : M unit :=
  ra ← get_region a;
  rb ← get_region b;
  ok ← mergeable ra rb;
  if (ok : bool) && negb (has_flag (r_flags other) vf_no_merge) &&
     (negb (bool_decide (r_backing ra = bk_physical)) ||
      (r_phys_base rb =? u64 (r_phys_base ra + r_size ra))) &&
     (pm_count (r_pages other) =? 0)
  then absorb a b else mret tt.

Definition vm_try_merge (x : Z) : M unit :=
  r ← get_region x;
  if has_flag (r_flags r) vf_no_merge || negb (pm_count (r_pages r) =? 0) then mret tt
  else
    w ← get_world;
    _ ← (match next_in (inorder (sp_tree (w_space w))) x with
         | Some n => rn ← get_region n; try_absorb x n rn
         | None => mret tt
         end);
    w ← get_world;
    match prev_in (inorder (sp_tree (w_space w))) x with
    | Some p => rp ← get_region p; try_absorb p x rp
    | None => mret tt
    end.

(** ** Mapping *)

Definition vm_commit_admitted (s : vm_space) (pages : Z) : bool :=
  (pages <=? sp_commit_limit_pages s) &&
  (sp_total_committed s <=? sp_commit_limit_pages s - pages).

(** Descriptor, owner and memory objects of a new region. *)
Definition map_prepare (va size prot flags : Z) (backing : vm_backing) (phys_base : Z)
    (policy : memory_object_policy) : M (expected Z) :=
  s ← get_space;
  x <-? alloc_region va (u64 (va + size)) prot flags backing phys_base;;
  _ ← update_region x (fun r => with_owner (r_portal_id r) (sp_owner_domain s) (r_file_node r)
        (r_file_page_offset r) r);
  owner ← call (CSetOwner x (sp_owner_domain s));
  match owner with
  | Unexpected e => _ ← abandon_region x; mret (Unexpected e)
  | Expected _ =>
  attach ← attach_region_owner x;
  match attach with
  | Unexpected e => _ ← abandon_region x; mret (Unexpected e)
  | Expected _ =>
  objects ← create_region_memory_objects x policy;
  match objects with
  | Unexpected e => _ ← abandon_region x; mret (Unexpected e)
  | Expected _ => mret (Expected x)
  end end end.

(** Generations, tree and totals of a new region; [physical] is the number of
    pages a physical mapping commits, 0 for the others. *)
Definition map_commit (x size : Z) (policy : memory_object_policy) (generation physical : Z)
    : M (expected unit) :=
  _ ← update_space (with_generations generation (mp_mapping_generation policy));
  ok ← rb_insert_region x;
  if negb (ok : bool) then
    _ ← destroy_region_memory_objects x; _ ← abandon_region x;
    mret (Unexpected (from_memory mem_region_overlap))
  else
    _ ← update_space (fun s => with_totals (u64 (sp_total_mapped s + size)) (sp_total_committed s)
          (sp_total_resident s) (u32 (sp_region_count s + 1)) s);
    _ ← (if physical =? 0 then mret tt
         else
           _ ← update_region x (with_counts physical physical);
           update_space (fun s => with_totals (sp_total_mapped s)
             (u64 (sp_total_committed s + physical)) (u64 (sp_total_resident s + physical))
             (sp_region_count s) s));
    _ ← vm_try_merge x;
    mret (Expected tt).

Definition vm_map (size prot flags : Z) : M (expected Z) :=
  if (size =? 0) || negb (is_page_aligned size)
  then mret (Unexpected (from_generic invalid_arg))
  else
    w ← get_world;
    let s := w_space w in
    if sp_max_regions s <=? sp_region_count s
    then mret (Unexpected (from_memory mem_out_of_memory))
    else
      va <-? liftE (vm_find_gap w size VM_PAGE_SIZE);;
      let backing := if has_flag flags vf_file then bk_file
                     else if has_flag flags vf_ipc then bk_ipc_shared else bk_anonymous in
      c <-? vm_authorize (fun g =>
        authorize_mapping g (build_contract_request s va size prot flags backing 0 0 0));;
      let policy := next_policy_from_contract s c in
      x <-? map_prepare va size prot flags backing 0 policy;;
      _ <-? map_commit x size policy (res_generation c) 0;;
      mret (Expected va).

(** The extent a physical mapping is cut from. *)
Definition check_extent (extent : memory_object_ref) (phys_base size : Z) : M (expected unit) :=
  if ref_valid extent then
    v ← call (CObjectResolve extent);
    match v with
    | Some o =>
        if negb (bool_decide (ov_type o = kt_memory_extent)) || (phys_base <? ov_range_start o) ||
           (u64 (phys_base + size) <? phys_base) ||
           (u64 (ov_range_start o + ov_range_length o) <? u64 (phys_base + size))
        then mret (Unexpected (from_memory mem_capability_invalid))
        else call (CFrameValidate phys_base size (mr_id extent) (mr_generation extent))
    | None => mret (Unexpected (from_memory mem_capability_invalid))
    end
  else mret (Expected tt).

Definition user_range_ok (va size : Z) : bool :=
  negb ((va <? VM_USER_START) || (VM_USER_END <=? va) || (u64 (va + size) <? va) ||
        (VM_USER_END <? u64 (va + size))).

Definition vm_map_fixed (va size prot flags : Z) (backing : vm_backing) (phys_base : Z)
    (extent : memory_object_ref) : M (expected unit) :=
  if (size =? 0) || negb (is_page_aligned size)
  then mret (Unexpected (from_generic invalid_arg))
  else if negb (is_page_aligned va)
  then mret (Unexpected (from_memory mem_alignment_error))
  else if negb (user_range_ok va size)
  then mret (Unexpected (from_memory mem_invalid_address))
  else if has_flag prot prot_write && has_flag prot prot_exec
  then mret (Unexpected (from_memory mem_capability_invalid))
  else if ref_valid extent && negb (bool_decide (backing = bk_physical))
  then mret (Unexpected (from_memory mem_capability_invalid))
  else
    _ <-? check_extent extent phys_base size;;
    s ← get_space;
    c <-? vm_authorize (fun g =>
      authorize_mapping g (build_contract_request s va size prot flags backing phys_base 0 0));;
    if sp_max_regions s <=? sp_region_count s
    then mret (Unexpected (from_memory mem_out_of_memory))
    else
      let num_pages := Z.shiftr size VM_PAGE_SHIFT in
      let commits := bool_decide (backing = bk_physical) && negb (phys_base =? 0) in
      if commits && negb (vm_commit_admitted s num_pages)
      then mret (Unexpected (from_memory mem_out_of_memory))
      else
        let policy := next_policy_from_contract s c in
        x <-? map_prepare va size prot flags backing phys_base policy;;
        retained ← (if ref_valid extent then call (CExtentAcquire extent) else mret (Expected tt));
        match retained with
        | Unexpected e =>
            _ ← destroy_region_memory_objects x; _ ← abandon_region x; mret (Unexpected e)
        | Expected _ =>
            _ ← (if ref_valid extent
                 then update_region x (fun r =>
                        with_objects (r_storage r) (r_grant r) (r_mapping r) extent r)
                 else mret tt);
            map_commit x size policy (res_generation c) (if commits then num_pages else 0)
        end.

(** ** Unmapping *)

(** The part of a region inside [[va, e)] and its physical address. *)
Definition clip_request (s : vm_space) (r : vm_region) (va e prot key numa : Z) : contract_request :=
  let clip_start := Z.max (r_va_start r) va in
  let clip_end := Z.min (r_va_end r) e in
  let clip_phys := if bool_decide (r_backing r = bk_physical)
                   then u64 (r_phys_base r + u64 (clip_start - r_va_start r)) else r_phys_base r in
  build_contract_request s clip_start (u64 (clip_end - clip_start)) prot (r_flags r)
    (r_backing r) clip_phys key numa.

Definition first_in (w : world) (va e : Z) : option Z :=
  first_overlap (st w) (en w) (sp_tree (w_space w)) va e None.

Fixpoint unmap_check (fuel : nat) (node : option Z) (va e : Z) {struct fuel} : M (expected unit) :=
  match node with
  | None => mret (Expected tt)
  | Some x =>
      w ← get_world;
      let r := region w x in
      if e <=? r_va_start r then mret (Expected tt)
      else
        match fuel with
        | O => fatal
        | S fuel =>
            key ← policy_field mp_storage_key 0 r;
            numa ← policy_field mp_numa_node 0 r;
            _ <-? vm_authorize (fun g =>
              authorize_unmap g (clip_request (w_space w) r va e (r_prot r) key numa));;
            unmap_check fuel (next_in (inorder (sp_tree (w_space w))) x) va e
        end
  end.

(** Splitting the regions at both ends of [[va, e)]; a failure of the second
    split undoes the first. *)
Definition split_ends (va e : Z) : M (expected unit) :=
  w ← get_world;
  first ← (match vm_find w va with
           | Some x =>
               if st w x <? va then
                 y <-? vm_split x va;; mret (Expected (Some (x, y)))
               else mret (Expected None)
           | None => mret (Expected None)
           end : M (expected (option (Z * Z))));
  match first with
  | Unexpected err => mret (Unexpected err)
  | Expected split =>
      w ← get_world;
      match vm_find w (u64 (e - VM_PAGE_SIZE)) with
      | Some x =>
          if e <? en w x then
            r ← vm_split x e;
            match r with
            | Unexpected err =>
                _ ← (match split with
                     | Some (lower, upper) => vm_join_split lower upper
                     | None => mret tt
                     end);
                mret (Unexpected err)
            | Expected _ => mret (Expected tt)
            end
          else mret (Expected tt)
      | None => mret (Expected tt)
      end
  end.

(** One region of the unmapped range. *)
Definition unmap_region (root : Z) (x : Z) : M unit :=
  w ← get_world;
  let r := region w x in
  key ← policy_field mp_storage_key 0 r;
  numa ← policy_field mp_numa_node 0 r;
  c ← vm_authorize (fun g => authorize_unmap g
        (build_contract_request (w_space w) (r_va_start r) (r_size r) (r_prot r) (r_flags r)
           (r_backing r) (r_phys_base r) key numa));
  match c with
  | Unexpected _ => fatal
  | Expected c =>
      v ← call (CObjectResolve (r_mapping r));
      _ ← (match v with
           | Some _ => call (CSetInvalidate (r_mapping r) (invalidate c))
           | None => mret tt
           end);
      _ ← unmap_range_pages root (r_va_start r) (r_va_end r);
      i ← policy_field mp_invalidate inv_none r;
      _ ← apply_vm_invalidation root r i;
      _ ← teardown_region_slots x;
      _ ← update_space (fun s => with_totals (sp_total_mapped s)
            (u64 (sp_total_committed s - r_committed r))
            (u64 (sp_total_resident s - r_resident r)) (sp_region_count s) s);
      rb_remove_and_free x
  end.

Fixpoint unmap_commit (fuel : nat) (root : Z) (node : option Z) (e : Z) {struct fuel} : M unit :=
  match node with
  | None => mret tt
  | Some x =>
      w ← get_world;
      if e <=? st w x then mret tt
      else
        match fuel with
        | O => fatal
        | S fuel =>
            let next := next_in (inorder (sp_tree (w_space w))) x in
            _ ← unmap_region root x;
            unmap_commit fuel root next e
        end
  end.

Definition region_fuel (w : world) : nat := length (inorder (sp_tree (w_space w))).

Definition vm_unmap (root va size : Z) : M (expected unit) :=
  if (size =? 0) || negb (is_page_aligned size)
  then mret (Unexpected (from_generic invalid_arg))
  else if negb (is_page_aligned va)
  then mret (Unexpected (from_memory mem_alignment_error))
  else if u64 (va + size) <? va
  then mret (Unexpected (from_memory mem_invalid_address))
  else
    let e := u64 (va + size) in
    _ <-? liftE (validate_range va e);;
    w ← get_world;
    match first_in w va e with
    | None => mret (Expected tt)
    | Some x =>
        _ <-? unmap_check (region_fuel w) (Some x) va e;;
        _ <-? split_ends va e;;
        w ← get_world;
        _ ← unmap_commit (region_fuel w) root (first_in w va e) e;
        mret (Expected tt)
    end.

(** ** Protecting *)

Fixpoint protect_check (fuel : nat) (node : option Z) (va e prot : Z) {struct fuel}
    : M (expected unit) :=
  match node with
  | None => mret (Expected tt)
  | Some x =>
      w ← get_world;
      let r := region w x in
      if e <=? r_va_start r then mret (Expected tt)
      else
        match fuel with
        | O => fatal
        | S fuel =>
            key ← policy_field mp_storage_key 0 r;
            numa ← policy_field mp_numa_node 0 r;
            _ <-? vm_authorize (fun g =>
              authorize_protect g (clip_request (w_space w) r va e prot key numa)
                (prot_to_mmu (r_prot r)));;
            v ← call (CObjectResolve (r_mapping r));
            match v with
            | None => mret (Unexpected (from_memory mem_capability_invalid))
            | Some _ => protect_check fuel (next_in (inorder (sp_tree (w_space w))) x) va e prot
            end
        end
  end.

Fixpoint protect_pages (fuel : nat) (root cursor va_end hw : Z) {struct fuel} : M unit :=
  if cursor <? va_end then
    match fuel with
    | O => fatal
    | S fuel =>
        p ← call (CProtectPage root cursor hw);
        match p with
        | Unexpected err =>
            if bool_decide (err = from_memory mem_invalid_address)
            then protect_pages fuel root (u64 (cursor + VM_PAGE_SIZE)) va_end hw
            else fatal
        | Expected _ => protect_pages fuel root (u64 (cursor + VM_PAGE_SIZE)) va_end hw
        end
    end
  else mret tt.

(** Storage keys of the resident frames. *)
Fixpoint rekey_slots (l : list vm_page_slot) (key : Z) (fetch_protect : bool) : M unit :=
  match l with
  | [] => mret tt
  | s :: l =>
      _ ← (if negb (slot_live s) || bool_decide (s_state s = ps_portal) || (s_phys s =? 0)
           then mret tt else call (CSske (s_phys s) key fetch_protect));
      rekey_slots l key fetch_protect
  end.

Definition protect_region (root : Z) (x prot : Z) : M unit :=
  w ← get_world;
  let r := region w x in
  key ← policy_field mp_storage_key 0 r;
  numa ← policy_field mp_numa_node 0 r;
  c ← vm_authorize (fun g => authorize_protect g
        (build_contract_request (w_space w) (r_va_start r) (r_size r) prot (r_flags r)
           (r_backing r) (r_phys_base r) key numa) (prot_to_mmu (r_prot r)));
  match c with
  | Unexpected _ => fatal
  | Expected c =>
      p ← commit_region_policy x c;
      match p with
      | Unexpected _ => fatal
      | Expected _ =>
          _ ← update_region x (with_prot prot);
          _ ← protect_pages (page_fuel (r_va_start r) (r_va_end r)) root (r_va_start r)
                (r_va_end r) (prot_to_mmu prot);
          key ← policy_field mp_storage_key 0 r;
          _ ← (if pm_exists (r_pages r)
               then rekey_slots (pm_slots (r_pages r)) key (negb (has_flag prot prot_write))
               else mret tt);
          apply_vm_invalidation root r (invalidate c)
      end
  end.

Fixpoint protect_commit (fuel : nat) (root : Z) (node : option Z) (e prot : Z) {struct fuel}
    : M unit :=
  match node with
  | None => mret tt
  | Some x =>
      w ← get_world;
      if e <=? st w x then mret tt
      else
        match fuel with
        | O => fatal
        | S fuel =>
            _ ← protect_region root x prot;
            w ← get_world;
            protect_commit fuel root (next_in (inorder (sp_tree (w_space w))) x) e prot
        end
  end.

Definition vm_protect (root va size prot : Z) : M (expected unit) :=
  if (size =? 0) || negb (is_page_aligned size)
  then mret (Unexpected (from_generic invalid_arg))
  else if negb (is_page_aligned va)
  then mret (Unexpected (from_memory mem_alignment_error))
  else
    let e := u64 (va + size) in
    _ <-? liftE (validate_range va e);;
    if (e <? va) || (va <? VM_USER_START) || (VM_USER_END <? e)
    then mret (Unexpected (from_memory mem_invalid_address))
    else if has_flag prot prot_write && has_flag prot prot_exec
    then mret (Unexpected (from_memory mem_capability_invalid))
    else
      w ← get_world;
      match first_in w va e with
      | None => mret (Unexpected (from_generic not_found))
      | Some x =>
          _ <-? protect_check (region_fuel w) (Some x) va e prot;;
          _ <-? split_ends va e;;
          w ← get_world;
          _ ← protect_commit (region_fuel w) root (first_in w va e) e prot;
          mret (Expected tt)
      end.

(** ** Teardown *)

Definition ASCE_ORIGIN_MASK : Z := Z.lxor U64_MAX 4095.

Fixpoint destroy_unmap (l : list Z) : M unit :=
  match l with
  | [] => mret tt
  | x :: l =>
      s ← get_space;
      r ← get_region x;
      _ ← (if pm_exists (r_pages r) ||
              (bool_decide (r_backing r = bk_physical) && negb (r_phys_base r =? 0))
           then unmap_range_pages (Z.land (sp_asce_val s) ASCE_ORIGIN_MASK)
                  (r_va_start r) (r_va_end r)
           else mret tt);
      destroy_unmap l
  end.
Fixpoint destroy_slots (l : list Z) : M unit :=
  match l with
  | [] => mret tt
  | x :: l => _ ← teardown_region_slots x; destroy_slots l
  end.
(** The successor is read before its node is erased. *)
Fixpoint destroy_regions (l : list Z) : M unit :=
  match l with
  | [] => mret tt
  | x :: l =>
      _ ← rb_erase x;
      _ ← destroy_region_memory_objects x;
      _ ← abandon_region x;
      destroy_regions l
  end.

Definition vm_destroy_space : M unit :=
  w ← get_world;
  let l := inorder (sp_tree (w_space w)) in
  _ ← destroy_unmap l;
  _ ← (if sp_asce_val (w_space w) =? 0 then mret tt
       else call (CTlbFlushAsce (sp_asce_val (w_space w))));
  _ ← destroy_slots l;
  _ ← destroy_regions l;
  update_space (fun s =>
    VmSpace false (sp_address_space_object s) Leaf 0 0 0 (sp_brk s) (sp_mmap_base s)
      (sp_dgp_generation s) (sp_mapping_generation s) (sp_asce_val s) (sp_storage_key s)
      (sp_numa_node s) (sp_storage_key_generation s) (sp_owner_domain s) 0 (sp_max_regions s)
      (sp_commit_limit_pages s)).

(** ** The space and its commit budget *)

Definition vm_space_init (s : vm_space) : vm_space :=
  VmSpace (sp_owner_object s) (sp_address_space_object s) Leaf 0 0 0 0 VM_MMAP_BASE 0 0
    (sp_asce_val s) 0 0 0 (sp_owner_domain s) 0 (sp_max_regions s) VM_DEFAULT_COMMIT_LIMIT_PAGES.

Definition vm_space_set_commit_limit (s : vm_space) (limit_pages : Z) : expected vm_space :=
  if limit_pages <? sp_total_committed s then Unexpected (from_memory mem_out_of_memory)
  else Expected (with_commit_limit limit_pages s).

Definition vm_space_try_charge_commit (s : vm_space) (pages : Z) : option vm_space :=
  if vm_commit_admitted s pages
  then Some (with_totals (sp_total_mapped s) (u64 (sp_total_committed s + pages))
               (sp_total_resident s) (sp_region_count s) s)
  else None.

(** [None] is the fatal underflow. *)
Definition vm_space_uncharge_commit (s : vm_space) (pages : Z) : option vm_space :=
  if sp_total_committed s <? pages then None
  else Some (with_totals (sp_total_mapped s) (sp_total_committed s - pages)
               (sp_total_resident s) (sp_region_count s) s).

(** [vm_find_grant_mapping]: in address order. *)
Definition vm_find_grant_mapping (w : world) (grant : memory_object_ref) : option Z :=
  if ref_valid grant
  then list.head (filter (fun x => same_memory_ref (r_grant (region w x)) grant = true)
                    (inorder (sp_tree (w_space w))))
  else None.

Definition vm_region_maps_phys (r : vm_region) (phys : Z) : bool :=
  if negb (pm_exists (r_pages r)) || (pm_count (r_pages r) =? 0) then false
  else if has_flag (r_flags r) vf_pinned then false
  else existsb (fun s => slot_live s && (s_phys s =? phys)) (pm_slots (r_pages r)).

Close Scope zx_scope.
