(* ===== verification/VmInv.v ===== *)
(** * The invariant of an address space

    The regions of the tree are exactly the descriptors in use, in address
    order and disjoint, each well formed and with its slots inside it; the
    counters of the space are the sums over its regions.  What an address space
    means to its owner is the map from addresses to protection, flags, backing
    and physical address ([view]), and the slots of its resident pages. *)

From Stdlib Require Import Sorting.Sorted.
From S2P Require Import Prelude Errors Kobject MemContract Prog VmTree VmTypes VmPages Vm.

(** ** Sums over regions *)

Definition sumZ (f : Z -> Z) (l : list Z) : Z := foldr (fun x a => f x + a) 0 l.

Lemma sumZ_app f l1 l2 : sumZ f (l1 ++ l2) = sumZ f l1 + sumZ f l2.
Proof. induction l1 as [|x l1 IH]; simpl; [lia|]. rewrite IH. lia. Qed.

Lemma sumZ_ext f g l : (forall x, x ∈ l -> f x = g x) -> sumZ f l = sumZ g l.
Proof.
  induction l as [|x l IH]; intros H; simpl; [done|]. rewrite (H x) by left.
  rewrite IH; [done|]. intros y Hy. apply H. by right.
Qed.

Lemma sumZ_upd f g l x :
  NoDup l -> x ∈ l -> (forall z, z ∈ l -> z <> x -> f z = g z) -> sumZ f l = sumZ g l + f x - g x.
Proof.
  induction l as [|y l IH]; intros Hnd Hx He; [by apply elem_of_nil in Hx|].
  apply list.NoDup_cons in Hnd as [Hy Hnd]. simpl. apply elem_of_cons in Hx as [->|Hx].
  - rewrite (sumZ_ext f g l); [lia|]. intros z Hz. apply He; [by right|congruence].
  - rewrite (He y) by (left || congruence).
    rewrite IH; [lia|done|done|]. intros z Hz. apply He. by right.
Qed.

Lemma sumZ_remove f l x :
  NoDup l -> x ∈ l -> sumZ f (filter (fun y => y <> x) l) = sumZ f l - f x.
Proof.
  induction l as [|y l IH]; intros Hnd Hx; [by apply elem_of_nil in Hx|].
  apply list.NoDup_cons in Hnd as [Hy Hnd]. destruct (decide (y = x)) as [->|Hne].
  - rewrite filter_cons_False by naive_solver. simpl.
    rewrite filter_all_inv; [lia|]. apply list.Forall_forall. naive_solver.
  - rewrite filter_cons_True by done. simpl. rewrite IH; [lia|done|]. by apply elem_of_cons in Hx as [?|?].
Qed.

(** ** The invariant *)

Definition ids (w : world) : list Z := inorder (sp_tree (w_space w)).

(** A slot with a cache binding can be released. *)
Definition slot_ok (r : vm_region) (s : vm_page_slot) : Prop :=
  r_va_start r <= s_va_page s < r_va_end r /\
  (s_binding s <> None -> s_state s <> ps_portal /\ s_phys s <> 0).

Record region_ok (r : vm_region) : Prop := {
  ro_range : 0 <= r_va_start r < r_va_end r;
  ro_fits : r_va_end r < 2 ^ 64;
  ro_align : is_page_aligned (r_va_start r) = true /\ is_page_aligned (r_va_end r) = true;
  ro_wx : prot_rwx (prot_to_mmu (r_prot r)) = false;
  ro_phys : is_page_aligned (r_phys_base r) = true;
  ro_linked : r_linked r = true;
  ro_pages : pages_ok (r_pages r);
  ro_slots : Forall (slot_ok r) (lives (r_pages r))
}.

Record vm_shape (w : world) : Prop := {
  vs_tree : tree_valid (sp_tree (w_space w));
  vs_order : disjoint_order (st w) (en w) (ids w);
  vs_dom : forall x, x ∈ ids w <-> is_Some (w_regions w !! x);
  vs_regions : forall x r, w_regions w !! x = Some r -> region_ok r;
  vs_count : sp_region_count (w_space w) = Z.of_nat (length (ids w));
  vs_fits : sp_region_count (w_space w) < 2 ^ 32;
  vs_max : sp_max_regions (w_space w) < 2 ^ 32;
  vs_key : key_ok (sp_storage_key (w_space w)) = true
}.

(** The sum of a quantity over the regions. *)
Definition total (F : vm_region -> Z) (w : world) : Z := sumZ (fun x => F (region w x)) (ids w).
Definition span (r : vm_region) : Z := r_va_end r - r_va_start r.

Record accounted (w : world) : Prop := {
  ac_mapped : sp_total_mapped (w_space w) = u64 (total span w);
  ac_committed : sp_total_committed (w_space w) = u64 (total r_committed w);
  ac_resident : sp_total_resident (w_space w) = u64 (total r_resident w)
}.

Definition vm_wf (w : world) : Prop := vm_shape w /\ accounted w.

(** ** What an address space means *)

(** Protection, flags, backing and, for physical memory, the address behind an
    address of a region. *)
Definition cell : Type := Z * Z * vm_backing * Z.
Definition cell_at (r : vm_region) (va : Z) : cell :=
  (r_prot r, r_flags r, r_backing r,
   if bool_decide (r_backing r = bk_physical) then u64 (r_phys_base r + (va - r_va_start r)) else 0).

Definition view (w : world) (va : Z) : option cell :=
  x ← vm_find w va; Some (cell_at (region w x) va).

(** The slots of the resident pages. *)
Definition has_slot (w : world) (s : vm_page_slot) : Prop :=
  exists x r, w_regions w !! x = Some r /\ s ∈ lives (r_pages r).

(** [va] lies in region [r] of the space. *)
Definition covered (w : world) (va : Z) (r : vm_region) : Prop :=
  exists x, w_regions w !! x = Some r /\ r_va_start r <= va < r_va_end r.

(** ** First facts *)

Lemma region_Some w x r : w_regions w !! x = Some r -> region w x = r.
Proof. unfold region. by intros ->. Qed.

Lemma region_insert_eq s m x r : region (World s (<[x := r]> m)) x = r.
Proof. unfold region. simpl. by rewrite lookup_insert_eq. Qed.

Lemma region_insert_ne s s' m x z r : z <> x -> region (World s (<[x := r]> m)) z = region (World s' m) z.
Proof. intros Hne. unfold region. simpl. by rewrite lookup_insert_ne. Qed.

Lemma region_delete_ne s s' m x z : z <> x -> region (World s (delete x m)) z = region (World s' m) z.
Proof. intros Hne. unfold region. simpl. by rewrite lookup_delete_ne. Qed.

Lemma region_space s s' m z : region (World s m) z = region (World s' m) z.
Proof. done. Qed.

Lemma world_eta w : World (w_space w) (w_regions w) = w.
Proof. by destruct w. Qed.

Lemma shape_NoDup w : vm_shape w -> NoDup (ids w).
Proof. intros H. eapply disjoint_order_NoDup, vs_order, H. Qed.

Lemma shape_lookup w x : vm_shape w -> x ∈ ids w -> w_regions w !! x = Some (region w x).
Proof. intros H Hx. apply (vs_dom _ H) in Hx as [r E]. by rewrite (region_Some _ _ _ E). Qed.

Lemma shape_elem w x r : vm_shape w -> w_regions w !! x = Some r -> x ∈ ids w.
Proof. intros H E. apply (vs_dom _ H). by exists r. Qed.

(** Two regions do not overlap. *)
Lemma sorted_disjoint (st en : Z -> Z) l a b :
  StronglySorted (before st en) l -> a ∈ l -> b ∈ l -> a <> b -> en a <= st b \/ en b <= st a.
Proof.
  induction l as [|x l IH]; intros Hs Ha Hb Hne; [by apply elem_of_nil in Ha|].
  apply StronglySorted_inv in Hs as [Hs Hx]. rewrite list.Forall_forall in Hx.
  apply elem_of_cons in Ha as [->|Ha], Hb as [->|Hb]; try done.
  - left. by apply Hx.
  - right. by apply Hx.
  - by apply IH.
Qed.

Lemma shape_disjoint w x y r r' :
  vm_shape w -> w_regions w !! x = Some r -> w_regions w !! y = Some r' -> x <> y ->
  r_va_end r <= r_va_start r' \/ r_va_end r' <= r_va_start r.
Proof.
  intros H Ex Ey Hne. destruct (vs_order _ H) as [Hs _].
  pose proof (sorted_disjoint _ _ _ x y Hs (shape_elem _ _ _ H Ex) (shape_elem _ _ _ H Ey) Hne) as Hd.
  unfold st, en in Hd. by rewrite (region_Some _ _ _ Ex), (region_Some _ _ _ Ey) in Hd.
Qed.

(** [vm_find] finds the region of an address. *)
Lemma vm_find_Some w va x :
  vm_shape w -> vm_find w va = Some x <->
  exists r, w_regions w !! x = Some r /\ r_va_start r <= va < r_va_end r.
Proof.
  intros H. unfold vm_find. rewrite (rb_find_exact _ _ _ _ _ (vs_order _ H)). split.
  - intros [Hx Hr]. exists (region w x). split; [by apply shape_lookup|done].
  - intros (r & E & Hr). split; [by eapply shape_elem|]. unfold st, en. by rewrite (region_Some _ _ _ E).
Qed.

Lemma vm_find_None w va :
  vm_shape w -> vm_find w va = None <->
  forall x r, w_regions w !! x = Some r -> ~ (r_va_start r <= va < r_va_end r).
Proof.
  intros H. split.
  - intros E x r Ex Hr. assert (vm_find w va = Some x) by (apply vm_find_Some; eauto). congruence.
  - intros Hn. destruct (vm_find w va) as [x|] eqn:E; [|done].
    apply (vm_find_Some _ _ _ H) in E as (r & Ex & Hr). by destruct (Hn x r Ex).
Qed.

Lemma view_covered w va r : vm_shape w -> covered w va r -> view w va = Some (cell_at r va).
Proof.
  intros H (x & E & Hr). unfold view.
  assert (vm_find w va = Some x) as -> by (apply vm_find_Some; eauto). simpl. by rewrite (region_Some _ _ _ E).
Qed.

Lemma view_None w va : vm_shape w -> view w va = None <-> forall r, ~ covered w va r.
Proof.
  intros H. unfold view. destruct (vm_find w va) as [x|] eqn:E; simpl.
  - split; [done|]. intros Hn. apply (vm_find_Some _ _ _ H) in E as (r & Ex & Hr). destruct (Hn r). by exists x.
  - split; [|done]. intros _ r (x & Ex & Hr). by apply (proj1 (vm_find_None w va H) E x r Ex).
Qed.

Lemma view_inv w va c : vm_shape w -> view w va = Some c -> exists r, covered w va r /\ c = cell_at r va.
Proof.
  intros H. unfold view. intros (x & E & [= <-])%bind_Some.
  apply (vm_find_Some _ _ _ H) in E as (r & Ex & Hr). exists r. split; [by exists x|]. by rewrite (region_Some _ _ _ Ex).
Qed.

(** Views agree when the regions over an address agree on its cell. *)
Lemma view_agree w w' va :
  vm_shape w -> vm_shape w' ->
  (forall r, covered w va r -> exists r', covered w' va r' /\ cell_at r' va = cell_at r va) ->
  (forall r, covered w' va r -> exists r', covered w va r') ->
  view w' va = view w va.
Proof.
  intros H H' Hto Hof. destruct (view w va) as [c|] eqn:E.
  - apply (view_inv _ _ _ H) in E as (r & Hc & ->). destruct (Hto r Hc) as (r' & Hc' & <-).
    by apply view_covered.
  - apply (view_None _ _ H'). intros r Hc. destruct (Hof r Hc) as [r' Hc'].
    by apply (proj1 (view_None _ _ H) E r').
Qed.

(** ** Changes of the state *)

Lemma sorted_mono {A} (R R' : A -> A -> Prop) l :
  (forall a b, a ∈ l -> b ∈ l -> R a b -> R' a b) -> StronglySorted R l -> StronglySorted R' l.
Proof.
  induction l as [|x l IH]; intros HR Hs; [constructor|]. apply StronglySorted_inv in Hs as [Hs Hx].
  constructor.
  - apply IH; [|done]. intros a b Ha Hb. apply HR; by right.
  - rewrite list.Forall_forall in Hx |- *. intros b Hb. apply HR; [left|by right|by apply Hx].
Qed.

Lemma order_mono (st en st' en' : Z -> Z) l :
  disjoint_order st en l -> (forall a, a ∈ l -> st' a < en' a) ->
  (forall a b, a ∈ l -> b ∈ l -> en a <= st b -> en' a <= st' b) -> disjoint_order st' en' l.
Proof.
  intros [Hs _] Hne Hm. split; [|by apply list.Forall_forall]. revert Hs. apply sorted_mono. exact Hm.
Qed.

Definition range_free (m : gmap Z vm_region) (lo hi : Z) : Prop :=
  forall z r, m !! z = Some r -> r_va_end r <= lo \/ hi <= r_va_start r.

(** A region changes in place, keeping its start and clear of the others. *)
Lemma shape_update w x r r' :
  vm_shape w -> w_regions w !! x = Some r -> region_ok r' -> r_va_start r' = r_va_start r ->
  range_free (delete x (w_regions w)) (r_va_start r') (r_va_end r') ->
  vm_shape (World (w_space w) (<[x := r']> (w_regions w))).
Proof.
  intros H E Hok Hst Hfree. destruct H as [Ht Ho Hd Hr Hc Hf Hm Hk] eqn:EH. clear EH.
  assert (Hsh : forall z, st (World (w_space w) (<[x:=r']> (w_regions w))) z = st w z).
  { intros z. unfold st. destruct (decide (z = x)) as [->|Hne].
    - by rewrite region_insert_eq, (region_Some _ _ _ E).
    - by rewrite (region_insert_ne _ (w_space w)), world_eta. }
  constructor; try done.
  - eapply order_mono; [exact Ho| |].
    + intros a Ha. change (a ∈ ids w) in Ha. rewrite Hsh. destruct (decide (a = x)) as [->|Hne].
      * unfold en, st. rewrite region_insert_eq, (region_Some _ _ _ E). destruct Hok. lia.
      * unfold en, st. rewrite (region_insert_ne _ (w_space w)), world_eta by done.
        destruct (proj1 (Hd a) Ha) as [ra Ea]. rewrite (region_Some _ _ _ Ea). destruct (Hr a ra Ea). lia.
    + intros a b Ha Hb. change (a ∈ ids w) in Ha. change (b ∈ ids w) in Hb. rewrite Hsh.
      destruct (decide (a = x)) as [->|Hne].
      2:{ unfold en. by rewrite (region_insert_ne _ (w_space w)), world_eta. }
      intros Hle. unfold en in *. rewrite region_insert_eq. rewrite (region_Some _ _ _ E) in Hle.
      destruct (proj1 (Hd b) Hb) as [rb Eb]. unfold st in *. rewrite (region_Some _ _ _ Eb) in *.
      destruct (Hr x r E), (Hr b rb Eb), Hok. assert (b <> x) by (intros ->; rewrite E in Eb; simplify_eq; lia).
      destruct (Hfree b rb); [by rewrite lookup_delete_ne|lia|done].
  - intros z. simpl. rewrite lookup_insert_is_Some. change (z ∈ ids w <-> x = z \/ x <> z /\ is_Some (w_regions w !! z)).
    rewrite Hd. destruct (decide (x = z)) as [->|]; [|tauto]. split; [by left|]. intros _. by exists r.
  - simpl. intros z rz [[-> ->]|[? ?]]%lookup_insert_Some; [done|eauto].
Qed.

(** A descriptor that is not in use joins the tree where its range is free. *)
Definition add_region (w : world) (t : tree) (y : Z) (n : vm_region) (mapped committed resident : Z) : world :=
  World (with_totals mapped committed resident (u32 (sp_region_count (w_space w) + 1))
           (with_tree t (w_space w))) (<[y := n]> (w_regions w)).

Lemma shape_insert w y n plan m c r :
  vm_shape w -> w_regions w !! y = None -> region_ok n ->
  sp_region_count (w_space w) + 1 < 2 ^ 32 ->
  rb_plan_insert (st w) (en w) None (sp_tree (w_space w)) (r_va_start n) = Some plan ->
  range_free (w_regions w) (r_va_start n) (r_va_end n) ->
  let w' := add_region w (rb_link (sp_tree (w_space w)) plan.1 y) y n m c r in
  vm_shape w' /\ exists l1 l2, ids w = l1 ++ l2 /\ ids w' = l1 ++ y :: l2.
Proof.
  intros HS Ey Hok Hmax Hplan Hfree w'. destruct HS as [Ht Ho Hd Hr Hc Hf Hm Hk] eqn:EH. clear EH. destruct plan as [p lm].
  destruct (rb_plan_Some _ _ _ _ _ _ y Ho Hplan) as (l1 & l2 & E & E' & H1 & H2 & _).
  assert (Ei : ids w' = l1 ++ y :: l2).
  { unfold ids, w'. simpl. done. }
  split; [|by exists l1, l2]. change (ids w = l1 ++ l2) in E.
  assert (Hny : y ∉ ids w). { rewrite Hd, Ey. by intros []. }
  assert (Hold : forall z, z ∈ ids w -> st w' z = st w z /\ en w' z = en w z).
  { intros z Hz. assert (z <> y) by congruence. unfold st, en, w', add_region.
    by rewrite (region_insert_ne _ (w_space w)), world_eta by done. }
  assert (Hn1 : st w' y = r_va_start n) by (unfold st, w', add_region; by rewrite region_insert_eq).
  assert (Hn2 : en w' y = r_va_end n) by (unfold en, w', add_region; by rewrite region_insert_eq).
  assert (Hsort : forall l, (forall z, z ∈ l -> z ∈ ids w) ->
    StronglySorted (before (st w) (en w)) l -> StronglySorted (before (st w') (en w')) l).
  { intros l Hl. apply sorted_mono. intros a b Ha%Hl Hb%Hl. unfold before.
    destruct (Hold a Ha) as [_ ->], (Hold b Hb) as [-> _]. done. }
  assert (Hin1 : forall z, z ∈ l1 -> z ∈ ids w) by (intros z Hz; rewrite E; apply elem_of_app; by left).
  assert (Hin2 : forall z, z ∈ l2 -> z ∈ ids w) by (intros z Hz; rewrite E; apply elem_of_app; by right).
  constructor.
  - by apply (rb_plan_link (st w) (en w) None _ (r_va_start n)).
  - rewrite Ei. destruct Ho as [Hs Hne]. change (StronglySorted (before (st w) (en w)) (ids w)) in Hs.
    rewrite E in Hs. apply sorted_app in Hs as (S1 & S2 & S3). split.
    + apply sorted_app_2; [by apply Hsort|constructor; [by apply Hsort|]|].
      * apply list.Forall_forall. intros b Hb. unfold before. rewrite Hn2.
        destruct (Hold b (Hin2 b Hb)) as [-> _]. destruct (proj1 (Hd b) (Hin2 b Hb)) as [rb Eb].
        specialize (H2 b Hb). unfold st in *. rewrite (region_Some _ _ _ Eb) in *.
        destruct (Hfree b rb Eb), (Hr b rb Eb); lia.
      * intros a b Ha Hb. destruct (Hold a (Hin1 a Ha)) as [_ ->].
        apply elem_of_cons in Hb as [->|Hb]; [rewrite Hn1; by apply H1|].
        destruct (Hold b (Hin2 b Hb)) as [-> _]. by apply S3.
    + apply list.Forall_forall. intros z Hz. apply elem_of_app in Hz.
      assert (z ∈ ids w \/ z = y) as [Hz'| ->].
      { destruct Hz as [Hz|[->|Hz]%elem_of_cons]; auto. }
      * destruct (Hold z Hz') as [-> ->]. exact (proj1 (list.Forall_forall _ _) Hne z Hz').
      * rewrite Hn1, Hn2. destruct Hok. lia.
  - intros z. rewrite Ei. unfold w', add_region. simpl. rewrite lookup_insert_is_Some, <- Hd.
    change (z ∈ ids w) with (z ∈ ids w). rewrite E, !elem_of_app, elem_of_cons.
    destruct (decide (y = z)) as [->|]; [naive_solver|]. split; [|naive_solver].
    intros [?|[->|?]]; [naive_solver|done|naive_solver].
  - unfold w', add_region. simpl. intros z rz [[-> ->]|[? ?]]%lookup_insert_Some; [done|eauto].
  - rewrite Ei, length_app. simpl. rewrite Hc. change (inorder (sp_tree (w_space w))) with (ids w).
    rewrite E, length_app, u32_small; [lia|]. rewrite E, length_app in Hc. unfold fits. lia.
  - unfold w', add_region. simpl. unfold u32, wrap. apply Z.mod_pos_bound. lia.
  - done.
  - done.
Qed.

Lemma shape_remove w x m c r :
  vm_shape w -> x ∈ ids w ->
  let w' := World (with_totals m c r (u32 (sp_region_count (w_space w) - 1))
              (with_tree (rb_unlink (sp_tree (w_space w)) x) (w_space w)))
              (delete x (w_regions w)) in
  vm_shape w' /\ ids w' = filter (fun y => y <> x) (ids w).
Proof.
  intros HS Hx w'. pose proof (shape_NoDup _ HS) as Hnd. destruct HS as [Ht Ho Hd Hr Hc Hf Hm Hk].
  assert (Ei : ids w' = filter (fun y => y <> x) (ids w)).
  { by apply inorder_unlink. }
  split; [|done].
  assert (Hold : forall z, z ∈ ids w' -> z ∈ ids w /\ st w' z = st w z /\ en w' z = en w z).
  { intros z. rewrite Ei. intros [Hne Hz]%list_elem_of_filter. split; [done|]. unfold st, en, w'.
    by rewrite (region_delete_ne _ (w_space w)), world_eta. }
  constructor.
  - by apply unlink_valid.
  - destruct Ho as [Hs Hne]. split.
    + assert (Hs' : StronglySorted (before (st w) (en w)) (ids w')).
      { rewrite Ei. clear -Hs. change (inorder _) with (ids w) in Hs. induction (ids w) as [|a l IH]; [constructor|].
        apply StronglySorted_inv in Hs as [Hs Ha]. rewrite filter_cons. case_decide; [|by apply IH].
        constructor; [by apply IH|]. rewrite list.Forall_forall in Ha |- *.
        intros b [_ Hb]%list_elem_of_filter. by apply Ha. }
      revert Hs'. apply sorted_mono. intros a b Ha%Hold Hb%Hold. unfold before.
      destruct Ha as (_ & _ & ->), Hb as (_ & -> & _). done.
    + apply list.Forall_forall. intros z (Hz & -> & ->)%Hold. exact (proj1 (list.Forall_forall _ _) Hne z Hz).
  - intros z. rewrite Ei, list_elem_of_filter, Hd. simpl. rewrite lookup_delete_is_Some. naive_solver.
  - simpl. intros z rz [_ ?]%lookup_delete_Some. eauto.
  - rewrite Ei. simpl. rewrite Hc. assert (Hl : sumZ (fun _ => 1) (filter (fun y => y <> x) (ids w)) = sumZ (fun _ => 1) (ids w) - 1).
    { by apply sumZ_remove. }
    assert (Hs : forall l, sumZ (fun _ => 1) l = Z.of_nat (length l)).
    { induction l as [|z l IH]; simpl; [done|]. rewrite IH. lia. }
    rewrite !Hs in Hl. change (inorder (sp_tree (w_space w))) with (ids w). rewrite Hl. apply u32_small. unfold fits. lia.
  - simpl. unfold u32, wrap. apply Z.mod_pos_bound. lia.
  - done.
  - done.
Qed.

(** *** Totals *)

Lemma total_update F w s x r r' :
  vm_shape w -> w_regions w !! x = Some r -> sp_tree s = sp_tree (w_space w) ->
  total F (World s (<[x := r']> (w_regions w))) = total F w + F r' - F r.
Proof.
  intros HS E Et. unfold total, ids. simpl. rewrite Et.
  rewrite (sumZ_upd _ (fun z => F (region w z)) (inorder (sp_tree (w_space w))) x).
  - by rewrite region_insert_eq, (region_Some _ _ _ E).
  - by apply shape_NoDup.
  - by eapply shape_elem.
  - intros z _ Hne. by rewrite (region_insert_ne _ (w_space w)), world_eta.
Qed.

Lemma total_insert F w s y n l1 l2 :
  vm_shape w -> w_regions w !! y = None -> ids w = l1 ++ l2 -> inorder (sp_tree s) = l1 ++ y :: l2 ->
  total F (World s (<[y := n]> (w_regions w))) = total F w + F n.
Proof.
  intros HS Ey E E'. unfold total. unfold ids at 1. simpl. rewrite E, E', !sumZ_app. simpl.
  rewrite region_insert_eq.
  assert (Hx : forall l, (forall z, z ∈ l -> z ∈ ids w) ->
    sumZ (fun z => F (region (World s (<[y:=n]> (w_regions w))) z)) l = sumZ (fun z => F (region w z)) l).
  { intros l Hl. apply sumZ_ext. intros z Hz%Hl. rewrite (region_insert_ne _ (w_space w)), world_eta; [done|].
    intros ->. apply (vs_dom _ HS) in Hz as [? ?]. congruence. }
  rewrite !Hx; [lia|intros z Hz; rewrite E; apply elem_of_app; by right|intros z Hz; rewrite E; apply elem_of_app; by left].
Qed.

Lemma total_remove F w s x :
  vm_shape w -> x ∈ ids w -> inorder (sp_tree s) = filter (fun y => y <> x) (ids w) ->
  total F (World s (delete x (w_regions w))) = total F w - F (region w x).
Proof.
  intros HS Hx E. unfold total. unfold ids at 1. simpl. rewrite E.
  rewrite (sumZ_ext _ (fun z => F (region w z))).
  - by rewrite (sumZ_remove (fun z => F (region w z))) by (done || by apply shape_NoDup).
  - intros z [Hne _]%list_elem_of_filter. by rewrite (region_delete_ne _ (w_space w)), world_eta.
Qed.

Lemma total_space F s s' m : sp_tree s = sp_tree s' -> total F (World s m) = total F (World s' m).
Proof. intros E. unfold total, ids. simpl. by rewrite E. Qed.

(** Machine arithmetic on totals. *)
Lemma u64_add_l a b : u64 (u64 a + b) = u64 (a + b).
Proof. unfold u64, wrap. by rewrite Zplus_mod_idemp_l. Qed.
Lemma u64_sub_l a b : u64 (u64 a - b) = u64 (a - b).
Proof. unfold u64, wrap. by rewrite Zminus_mod_idemp_l. Qed.
Lemma u64_add_r a b : u64 (a + u64 b) = u64 (a + b).
Proof. unfold u64, wrap. by rewrite Zplus_mod_idemp_r. Qed.
