(* ===== verification/VmSplit.v ===== *)
(** * Splitting and joining regions

    Specifications of the engine's helpers, and of [vm_split] and
    [vm_join_split]: a split changes neither the view of the space nor its
    slots, a failed split changes nothing, and joining undoes a split. *)

From S2P Require Import Prelude Errors Kobject MemContract Prog VmTree VmTypes VmPages Vm VmInv.

Definition unbound (m : vm_page_map) : Prop := Forall (fun s => s_binding s = None) (pm_slots m).

(** A region changed in place. *)
Definition set_region (w : world) (x : Z) (r : vm_region) : world :=
  World (w_space w) (<[x := r]> (w_regions w)).
Definition del_region (w : world) (x : Z) : world := World (w_space w) (delete x (w_regions w)).

Lemma set_region_eq w x r : region (set_region w x r) x = r.
Proof. apply region_insert_eq. Qed.
Lemma set_set w x r r' : set_region (set_region w x r) x r' = set_region w x r'.
Proof. unfold set_region. simpl. by rewrite insert_insert_eq. Qed.
Lemma del_set w x r : del_region (set_region w x r) x = del_region w x.
Proof. unfold set_region, del_region. simpl. by rewrite delete_insert_eq. Qed.
Lemma set_del_fresh w x r : w_regions w !! x = None -> del_region (set_region w x r) x = w.
Proof. intros E. rewrite del_set. unfold del_region. rewrite delete_id by done. apply world_eta. Qed.
Lemma set_same w x r : w_regions w !! x = Some r -> set_region w x r = w.
Proof. intros E. unfold set_region. rewrite insert_id by done. apply world_eta. Qed.

Lemma fresh_id_fresh m : m !! fresh_id m = None.
Proof.
  unfold fresh_id. destruct (m !! _) as [r|] eqn:E; [exfalso|done].
  assert (Hb : forall k, is_Some (m !! k) -> k < map_fold (fun k _ a => Z.max a (k + 1)) 0 m).
  { clear E. intros k. revert k. apply (map_fold_weak_ind (fun a m => forall k, is_Some (m !! k) -> k < a)).
    - intros k [? Hk]. by rewrite lookup_empty in Hk.
    - intros i x m' a _ IH k [y Hk]. apply lookup_insert_Some in Hk as [[-> _]|[_ Hk]]; [lia|].
      specialize (IH k (mk_is_Some _ _ Hk)). lia. }
  specialize (Hb _ (mk_is_Some _ _ E)). lia.
Qed.

Section helpers.
  Context (b : blame).

Lemma spec_update_set x f w Q : Q tt (set_region w x (f (region w x))) -> spec b (update_region x f) w Q.
Proof. done. Qed.
Lemma spec_put_set x r w Q : Q tt (set_region w x r) -> spec b (put_region x r) w Q.
Proof. done. Qed.
Lemma spec_drop x w Q : Q tt (del_region w x) -> spec b (drop_region x) w Q.
Proof. done. Qed.

Lemma spec_call_unit (c : vcall unit) w Q : Q tt w -> spec b (call c) w Q.
Proof. intros H. apply spec_call. by intros []. Qed.

Lemma spec_call_any {R} (c : vcall R) {A} (k : R -> M A) w Q :
  (forall r, spec b (k r) w Q) -> spec b (call c ≫= k) w Q.
Proof. intros H. apply spec_bind, spec_call, H. Qed.

Lemma policy_field_any {A} (f : memory_object_policy -> A) d r w Q :
  (forall a, Q a w) -> spec b (policy_field f d r) w Q.
Proof.
  intros H. unfold policy_field, mapping_policy.
  apply spec_bind, spec_bind, spec_call. intros v. do 2 apply spec_ret. apply H.
Qed.

(** The storage key a region reports is valid, or a promise was broken. *)
Lemma policy_key {A} r (k : Z -> M A) w Q :
  (forall key b', weaker b b' -> lenient b' = lenient b -> (key_ok key = true \/ broken b') -> spec b' (k key) w Q) ->
  spec b (policy_field mp_storage_key 0 r ≫= k) w Q.
Proof.
  intros H. unfold policy_field, mapping_policy.
  assert (E : forall v : option object_view, spec (after b (Ev (CObjectResolve (r_mapping r)) v))
      (k (from_option mp_storage_key 0 (ov_policy <$> v))) w Q).
  { intros v. apply H; [done|done|]. destruct v as [v|]; [|by left]. simpl.
    destruct (key_ok _) eqn:Ek; [by left|]. right. right. left. simpl. eauto. }
  unfold spec, tspec, mbind, M_bind, call. simpl. intros v. eapply wlp_mono; [|apply (E v)].
  intros t [[a w']|]; [done|]. apply dies_after.
Qed.

(** An erasure outside the stale shape, or one whose failure is excused. *)
Definition erasable (w : world) (x : Z) : Prop :=
  lenient b = true \/ stale_at (sp_tree (w_space w)) x = false.

Lemma erase_ok x w Q :
  erasable w x -> Q tt (World (with_tree (rb_unlink (sp_tree (w_space w)) x) (w_space w)) (w_regions w)) ->
  spec b (rb_erase x) w Q.
Proof.
  intros He HQ. unfold rb_erase. vstep. vstep. destruct (stale_at _ x) eqn:Es.
  - apply spec_call_bind. intros u. apply spec_fatal. right. right. split; [|done]. destruct He as [?|He]; [done|congruence].
  - by apply spec_update_space.
Qed.

Lemma authorize_any f w Q : (forall g, Q (f g) w) -> spec b (vm_authorize f) w Q.
Proof. intros H. unfold vm_authorize. apply spec_call_any. intros g. by apply spec_ret. Qed.

Lemma update_ranges_any x w Q : Q tt w -> spec b (update_region_memory_object_ranges x) w Q.
Proof.
  intros H. unfold update_region_memory_object_ranges. vstep. vstep.
  destruct (ref_valid _); [by apply spec_call_unit|by apply spec_ret].
Qed.

Lemma destroy_unused_any o w Q : Q tt w -> spec b (destroy_unused o) w Q.
Proof.
  intros H. unfold destroy_unused. destruct (ref_valid o); [|by apply spec_ret].
  apply spec_call_any. intros [v|]; [|by apply spec_ret].
  apply spec_call_any. intros []; [by apply spec_ret|by apply spec_call_unit].
Qed.

Lemma destroy_pages_any m w Q : unbound m -> Q empty_page_map w -> spec b (destroy_pages m) w Q.
Proof.
  intros Hu H. unfold destroy_pages. destruct (pm_exists m); [|by apply spec_ret].
  assert (forallb (fun s => bool_decide (s_binding s = None)) (pm_slots m) = true) as ->.
  { apply forallb_forall. intros s Hs. apply bool_decide_eq_true. apply list_elem_of_In in Hs.
    exact (proj1 (list.Forall_forall _ _) Hu s Hs). }
  apply spec_call_any. intros _. by apply spec_ret.
Qed.

Lemma destroy_objects_any x w Q :
  unbound (r_pages (region w x)) -> (forall r', Q tt (set_region w x r')) ->
  spec b (destroy_region_memory_objects x) w Q.
Proof.
  intros Hu H. unfold destroy_region_memory_objects. vstep. vstep. vstep.
  apply destroy_pages_any; [done|]. vstep. apply spec_update_set.
  assert (Hif : forall (c : bool) (k : vcall unit) (m : M unit) w' Q', spec b m w' Q' ->
    spec b ((if c then call k else mret tt) ≫= fun _ => m) w' Q').
  { intros [] k m w' Q' Hm; [by apply spec_call_any|]. by apply spec_bind, spec_ret. }
  apply Hif, Hif. vstep. apply destroy_unused_any. vstep. apply destroy_unused_any.
  apply spec_update_set. rewrite set_set. apply H.
Qed.

Lemma abandon_any x w Q : Q tt (del_region w x) -> spec b (abandon_region x) w Q.
Proof. intros H. unfold abandon_region. do 2 (apply spec_call_any; intros _). by apply spec_drop. Qed.

Lemma destroy_abandon x w {A} (a : A) Q :
  unbound (r_pages (region w x)) -> Q a (del_region w x) ->
  spec b (_ ← destroy_region_memory_objects x; _ ← abandon_region x; mret a) w Q.
Proof.
  intros Hu H. vstep. apply destroy_objects_any; [done|]. intros r'. vstep. apply abandon_any.
  apply spec_ret. by rewrite del_set.
Qed.

Lemma free_region_any x w Q :
  unbound (r_pages (region w x)) -> Q tt (del_region w x) -> spec b (free_region x) w Q.
Proof.
  intros Hu H. unfold free_region. vstep. apply destroy_objects_any; [done|]. intros r'.
  do 2 (apply spec_call_any; intros _). apply spec_drop. by rewrite del_set.
Qed.

(** Removal from the tree and the descriptor table. *)
Definition erased (w : world) (x mapped : Z) : world :=
  World (with_totals mapped (sp_total_committed (w_space w)) (sp_total_resident (w_space w))
           (u32 (sp_region_count (w_space w) - 1))
           (with_tree (rb_unlink (sp_tree (w_space w)) x) (w_space w)))
    (delete x (w_regions w)).

Lemma remove_and_free_any x w Q :
  erasable w x -> unbound (r_pages (region w x)) ->
  Q tt (erased w x (u64 (sp_total_mapped (w_space w) - r_size (region w x)))) ->
  spec b (rb_remove_and_free x) w Q.
Proof.
  intros He Hu H. unfold rb_remove_and_free. vstep. apply erase_ok; [done|]. vstep. vstep. vstep. vstep.
  apply free_region_any; done.
Qed.

Lemma discard_split_any x w Q :
  erasable w x -> unbound (r_pages (region w x)) -> Q tt (erased w x (sp_total_mapped (w_space w))) ->
  spec b (rb_discard_split_region x) w Q.
Proof.
  intros He Hu H. unfold rb_discard_split_region. vstep. apply erase_ok; [done|]. vstep. vstep.
  apply free_region_any; done.
Qed.

(** *** Loops over pages *)

Lemma page_step va e :
  is_page_aligned va = true -> is_page_aligned e = true -> 0 <= va < e -> e < 2 ^ 64 ->
  u64 (va + VM_PAGE_SIZE) = va + VM_PAGE_SIZE /\ va + VM_PAGE_SIZE <= e /\
  is_page_aligned (va + VM_PAGE_SIZE) = true.
Proof.
  unfold is_page_aligned, CONTRACT_PAGE_SIZE, VM_PAGE_SIZE. change (4096 - 1) with (Z.ones 12).
  rewrite !Z.land_ones, !Z.eqb_eq by lia. change (2 ^ 12) with 4096. intros Hv He Hr Hf.
  assert (Hle : va + 4096 <= e).
  { pose proof (Z.div_mod va 4096) as H1. pose proof (Z.div_mod e 4096) as H2. lia. }
  split_and!; [|done|].
  - apply u64_small. unfold fits. lia.
  - rewrite <- Zplus_mod_idemp_r. change (4096 mod 4096) with 0. by rewrite Z.add_0_r.
Qed.

Lemma page_fuel_step va e :
  0 <= va -> va + VM_PAGE_SIZE <= e -> page_fuel va e = S (page_fuel (va + VM_PAGE_SIZE) e).
Proof.
  unfold page_fuel, VM_PAGE_SIZE. intros H0 H.
  replace (e - va + 4096 - 1) with (1 * 4096 + (e - (va + 4096) + 4096 - 1)) by lia.
  rewrite Z.div_add_l by lia. rewrite Z2Nat.inj_add; [done|lia|]. apply Z.div_pos; lia.
Qed.

Lemma unmap_range_any root va e w Q :
  is_page_aligned va = true -> is_page_aligned e = true -> 0 <= va -> e < 2 ^ 64 ->
  Q tt w -> spec b (unmap_range_pages root va e) w Q.
Proof.
  intros Hv He H0 Hf H. unfold unmap_range_pages. remember (page_fuel va e) as fuel eqn:Ef.
  revert va Hv H0 Ef. induction fuel as [|fuel IH]; intros va Hv H0 Ef; simpl;
    (destruct (Z.ltb_spec va e); [|by apply spec_ret]);
    destruct (page_step va e Hv He) as (E1 & E2 & E3); try lia;
    rewrite page_fuel_step in Ef by lia; [done|].
  apply spec_call_any. intros _. rewrite E1. apply IH; [done|unfold VM_PAGE_SIZE; lia|by simplify_eq].
Qed.

(** *** Tearing down the slots of a region *)

Lemma release_slot_ok s w Q :
  live s -> s_state s <> ps_portal -> s_phys s <> 0 ->
  (forall f s', s_binding s' = None -> Q (f, s') w) -> spec b (release_slot_mapping s) w Q.
Proof.
  intros Hl Hp Hph H. unfold release_slot_mapping.
  rewrite !bool_decide_eq_false_2 by done. rewrite (proj2 (Z.eqb_neq _ _) Hph). simpl.
  destruct (s_binding s) as [bd|] eqn:Eb.
  - assert (Hrel : spec b (released ← call (CReleaseBinding bd);
        match released with
        | Unexpected _ => fatal
        | Expected _ => mret (false, VmPageSlot (s_va_page s) (s_phys s) (s_file_node s) (s_file_index s)
                               None (s_state s) (s_flags s) (s_dirty s))
        end) w Q).
    { apply spec_call_bind. intros [u|e]; [apply spec_ret; by apply H|]. apply spec_fatal. right. left. simpl. eauto. }
    apply spec_call_any. intros [].
    + apply spec_call_bind. intros [u|e].
      * by apply (spec_weaken b).
      * apply spec_fatal. right. left. simpl. eauto.
    + apply spec_bind, spec_ret. exact Hrel.
  - apply spec_call_bind. intros [f|e]; [apply spec_ret; by apply H|]. apply spec_fatal. right. left. simpl. eauto.
Qed.

Lemma teardown_slots_ok x i l f w Q :
  Forall dead_unbound l ->
  Forall (fun s => s_binding s <> None -> s_state s <> ps_portal /\ s_phys s <> 0) (filter live l) ->
  (forall l' f', Forall (fun s => ~ live s /\ s_binding s = None) l' -> length l' = length l -> Q (l', f') w) ->
  spec b (teardown_slots x i l f) w Q.
Proof.
  revert i f Q. induction l as [|s l IH]; intros i f Q Hd Hb HQ; simpl.
  { apply spec_ret. apply HQ; [constructor|done]. }
  apply list.Forall_cons in Hd as [Hs Hd]. rewrite slot_live_spec. case_bool_decide as Hl; cbn [negb].
  2:{ rewrite filter_cons_False in Hb by done. vstep. apply IH; [done..|]. intros l' f' Hl' El. apply spec_ret.
      apply HQ; [|simpl; by rewrite El]. constructor; [|done]. split; [done|]. by destruct Hs. }
  rewrite filter_cons_True in Hb by done. apply list.Forall_cons in Hb as [Hb1 Hb].
  match goal with |- spec _ (_ ≫= ?k) _ _ =>
    assert (Hgo : forall f s', s_binding s' = None -> spec b (k (f, s')) w Q) end.
  { intros g s' Es. cbv beta iota. unfold slot_clear. rewrite Es. vstep. apply IH; [done..|].
    intros l' f' Hl' El. apply spec_ret. apply HQ; [|simpl; by rewrite El].
    constructor; [|done]. split; [apply empty_dead|done]. }
  vstep. destruct (negb (bool_decide (s_state s = ps_portal)) && negb (s_phys s =? 0)) eqn:Ec.
  - apply andb_true_iff in Ec as [E1 E2]. rewrite negb_true_iff, bool_decide_eq_false in E1.
    rewrite negb_true_iff, Z.eqb_neq in E2. apply spec_call_any. intros _. by apply release_slot_ok.
  - apply spec_ret. apply (Hgo false s). destruct (s_binding s) as [bd|] eqn:Eb; [exfalso|done].
    destruct Hb1 as [H1 H2]; [done|]. rewrite (bool_decide_eq_false_2 _ H1), (proj2 (Z.eqb_neq _ _) H2) in Ec. done.
Qed.

Lemma teardown_region_ok x r w Q :
  w_regions w !! x = Some r -> region_ok r ->
  (forall f m, unbound m -> lives m = [] -> Q f (set_region w x (with_pages m r))) ->
  spec b (teardown_region_slots x) w Q.
Proof.
  intros E Hok HQ. destruct (ro_pages _ Hok) as [H1 H2 H3 H4 H5]. unfold teardown_region_slots. vstep. vstep.
  rewrite (region_Some _ _ _ E). destruct (pm_exists (r_pages r)) eqn:Ee.
  - vstep. apply teardown_slots_ok; [done| |].
    + pose proof (ro_slots _ Hok) as Hs. revert Hs. apply Forall_impl. intros s [_ Hs]. exact Hs.
    + intros l f Hl El. vstep. apply spec_update_set. apply spec_ret. rewrite (region_Some _ _ _ E). apply HQ.
      * revert Hl. apply Forall_impl. tauto.
      * apply filter_none. intros s Hs. rewrite list.Forall_forall in Hl. by apply Hl.
  - apply spec_ret. specialize (H3 eq_refl). assert (Hs : pm_slots (r_pages r) = []).
    { unfold pm_count in H1. destruct (pm_slots (r_pages r)); [done|simpl in H1; lia]. }
    specialize (HQ 0 (r_pages r)). replace (with_pages (r_pages r) r) with r in HQ by by destruct r.
    rewrite set_same in HQ by done. apply HQ; unfold unbound, lives; by rewrite Hs.
Qed.
End helpers.

(** ** Splitting *)

(** The descriptor prepared for the upper half of [r]. *)
Record upper_half (r : vm_region) (split_va : Z) (n : vm_region) : Prop := {
  uh_start : r_va_start n = split_va;
  uh_end : r_va_end n = r_va_end r;
  uh_prot : r_prot n = r_prot r;
  uh_flags : r_flags n = r_flags r;
  uh_backing : r_backing n = r_backing r;
  uh_phys : r_phys_base n = if bool_decide (r_backing r = bk_physical)
                            then u64 (r_phys_base r + (split_va - r_va_start r)) else 0;
  uh_storage : r_storage n = r_storage r;
  uh_grant : r_grant n = r_grant r;
  uh_slots : pm_slots (r_pages n) = [];
  uh_pages : pages_ok (r_pages n);
  uh_room : pm_count (r_pages r) <= pm_capacity (r_pages n)
}.

Lemma empty_pages_ok : pages_ok empty_page_map.
Proof. constructor; simpl; [done|unfold U32_MAX; lia|done|constructor|constructor]. Qed.

Section splitting.
  Context (b : blame).

Lemma create_mapping_ok y grant policy w (Q : expected unit -> world -> Prop) :
  (forall e, Q (Unexpected e) w) ->
  (forall m, Q (Expected tt) (set_region w y (with_objects (r_storage (region w y))
     (r_grant (region w y)) m (r_extent (region w y)) (region w y)))) ->
  spec b (create_region_mapping_object y grant policy) w Q.
Proof.
  intros He Hm. unfold create_region_mapping_object. apply spec_call_any. intros [v|]; [|by apply spec_ret].
  case_bool_decide; [|by apply spec_ret]. vstep. vstep. vstep. vstep. vstep. unfold create_object.
  apply spec_call_any. intros [u|e]; [|by apply spec_ret]. vstep. vstep. apply spec_ret.
  vstep. apply spec_update_set, spec_ret. apply Hm.
Qed.

Lemma attach_any y w (Q : expected unit -> world -> Prop) : (forall r, Q r w) -> spec b (attach_region_owner y) w Q.
Proof.
  intros H. unfold attach_region_owner. vstep. vstep. destruct (sp_address_space_object _); [by apply spec_call|by apply spec_ret].
Qed.

Lemma policy_from_any r w Q : (forall p, Q p w) -> spec b (policy_from_region r) w Q.
Proof.
  intros H. unfold policy_from_region. do 9 (vstep; apply policy_field_any; intros ?). apply spec_ret, H.
Qed.

Lemma abandon_ret {A} (a : A) y w Q : Q a (del_region w y) -> spec b (_ ← abandon_region y; mret a) w Q.
Proof. intros H. vstep. apply abandon_any. by apply spec_ret. Qed.

Lemma split_prepare_ok x va r w (Q : expected (Z * (list bool * bool)) -> world -> Prop) :
  vm_shape w -> w_regions w !! x = Some r ->
  0 <= r_va_start r <= va -> va < 2 ^ 64 ->
  (forall e, Q (Unexpected e) w) ->
  (forall y n plan, w_regions w !! y = None -> upper_half r va n ->
     rb_plan_insert (st w) (en w) (Some x) (sp_tree (w_space w)) va = Some plan ->
     Q (Expected (y, plan)) (set_region w y n)) ->
  spec b (split_prepare x va) w Q.
Proof.
  intros HS E Hva Hva' He HQ. unfold split_prepare. vstep. vstep. rewrite (region_Some _ _ _ E).
  rewrite (u64_small (va - r_va_start r)) by (unfold fits; lia).
  vstep. unfold alloc_region. vstep. apply spec_call. intros [u|e]; [|apply He]. vstep. vstep.
  pose proof (fresh_id_fresh (w_regions w)) as Hy. set (y := fresh_id (w_regions w)) in *.
  vstep. apply spec_put_set, spec_ret. set (n0 := VmRegion va _ _ _ _ _ _ _ _ _ _ _ _ _ _ _ _ _).
  assert (Hback : forall n, del_region (set_region w y n) y = w) by (intros n; by apply set_del_fresh).
  apply spec_call_any. intros [u1|e].
  2:{ apply abandon_ret. rewrite Hback. apply He. }
  vstep. apply attach_any. intros [u2|e].
  2:{ apply abandon_ret. rewrite Hback. apply He. }
  vstep. apply spec_update_set. rewrite set_set, set_region_eq. vstep. apply policy_from_any. intros policy.
  vstep. apply spec_update_set. rewrite set_set, set_region_eq.
  vstep. apply create_mapping_ok.
  { intros e. apply abandon_ret. rewrite Hback. apply He. }
  intros m. rewrite set_set, set_region_eq. set (n1 := with_objects _ _ m _ _).
  match goal with |- spec _ (_ ≫= ?k) _ _ =>
    assert (Hgo : forall n, n = n1 \/ n = with_objects (r_storage n1) (r_grant n1) (r_mapping n1) (r_extent r) n1 ->
      spec b (k (Expected tt)) (set_region w y n) Q /\ forall e, spec b (k (Unexpected e)) (set_region w y n) Q) end.
  { intros n Hn. assert (Hub : unbound (r_pages n)) by (destruct Hn as [-> | ->]; constructor).
    split.
    2:{ intros e. apply destroy_abandon; [by rewrite set_region_eq|]. rewrite Hback. apply He. }
    vstep. vstep. match goal with |- spec _ (match ?o with Some _ => _ | None => _ end) _ _ => destruct o as [plan|] eqn:Ep end.
    2:{ apply destroy_abandon; [by rewrite set_region_eq|]. rewrite Hback. apply He. }
    vstep. apply reserve_capacity_ok; [apply empty_pages_ok|].
    intros ok m' Es Hok _ Ht _ _. destruct ok; cbn [negb].
    2:{ apply destroy_abandon; [by rewrite set_region_eq|]. rewrite Hback. apply He. }
    vstep. apply spec_update_set. rewrite set_set, set_region_eq. apply spec_ret. apply HQ; [done| |].
    - destruct Hn as [-> | ->]; constructor; try done; simpl; by apply Ht.
    - rewrite <- Ep. symmetry. apply rb_plan_ext. intros z Hz. unfold st, en, set_region.
      rewrite (region_insert_ne _ (w_space w)), world_eta; [done|]. intros ->.
      apply (vs_dom _ HS) in Hz as [? ?]. congruence. }
  destruct (ref_valid (r_extent r)).
  - apply spec_bind, spec_call_any. intros [u3|e].
    + vstep. apply spec_update_set, spec_ret. rewrite set_set, set_region_eq.
      apply Hgo. by right.
    + apply spec_ret. apply Hgo. by left.
  - apply spec_bind, spec_ret. apply Hgo. by left.
Qed.

(** *** A world with two regions in focus *)

Definition two (s : vm_space) (m : gmap Z vm_region) (x : Z) (a : vm_region) (y : Z) (c : vm_region) : world :=
  World s (<[x := a]> (<[y := c]> m)).

Lemma two_x s m x a y c : region (two s m x a y c) x = a.
Proof. apply region_insert_eq. Qed.
Lemma two_y s m x a y c : x <> y -> region (two s m x a y c) y = c.
Proof. intros H. unfold two. rewrite (region_insert_ne _ s) by done. apply region_insert_eq. Qed.
Lemma two_set_x s m x a y c a' : set_region (two s m x a y c) x a' = two s m x a' y c.
Proof. unfold set_region, two. simpl. by rewrite insert_insert_eq. Qed.
Lemma two_set_y s m x a y c c' : x <> y -> set_region (two s m x a y c) y c' = two s m x a y c'.
Proof. intros H. unfold set_region, two. simpl. by rewrite insert_insert_ne, insert_insert_eq. Qed.
Lemma two_of w x r y n : w_regions w !! x = Some r -> x <> y ->
  set_region w y n = two (w_space w) (w_regions w) x r y n.
Proof.
  intros E H. unfold set_region, two. by rewrite (insert_id (<[y:=n]> _) x r) by by rewrite lookup_insert_ne.
Qed.

(** The two halves a split leaves. *)
Record halves (r : vm_region) (va : Z) (r' n' : vm_region) : Prop := {
  hl_lower : r_va_start r' = r_va_start r /\ r_va_end r' = va /\ r_prot r' = r_prot r /\
             r_flags r' = r_flags r /\ r_backing r' = r_backing r /\ r_phys_base r' = r_phys_base r /\
             r_linked r' = r_linked r;
  hl_upper : r_va_start n' = va /\ r_va_end n' = r_va_end r /\ r_prot n' = r_prot r /\
             r_flags n' = r_flags r /\ r_backing n' = r_backing r /\ r_linked n' = true;
  hl_phys : r_phys_base n' = if bool_decide (r_backing r = bk_physical)
                             then u64 (r_phys_base r + (va - r_va_start r)) else 0;
  hl_low_slots : lives (r_pages r') = filter (fun s => s_va_page s < va) (lives (r_pages r));
  hl_up_slots : lives (r_pages n') ≡ₚ filter (fun s => va <= s_va_page s) (lives (r_pages r));
  hl_low_ok : pages_ok (r_pages r');
  hl_up_ok : pages_ok (r_pages n');
  hl_room : Z.of_nat (length (lives (r_pages r')) + length (lives (r_pages n'))) <= pm_capacity (r_pages r');
  hl_committed : u64 (r_committed r' + r_committed n') = u64 (r_committed r);
  hl_resident : u64 (r_resident r' + r_resident n') = u64 (r_resident r)
}.

Definition split_world (w : world) (x y : Z) (plan : list bool * bool) (r' n' : vm_region) : world :=
  let s := w_space w in
  add_region (set_region w x r') (rb_link (sp_tree s) plan.1 y) y n'
    (sp_total_mapped s) (sp_total_committed s) (sp_total_resident s).

Lemma two_split w x y plan r' n' : x <> y ->
  two (with_totals (sp_total_mapped (w_space w)) (sp_total_committed (w_space w)) (sp_total_resident (w_space w))
         (u32 (sp_region_count (w_space w) + 1))
         (with_tree (rb_link (sp_tree (w_space w)) plan.1 y) (w_space w)))
    (w_regions w) x r' y n' = split_world w x y plan r' n'.
Proof. intros H. unfold two, split_world, add_region, set_region. simpl. by rewrite insert_insert_ne. Qed.

Lemma moved_lives va m :
  moved (fun s => va <=? s_va_page s) (pm_slots m) = filter (fun s => va <= s_va_page s) (lives m).
Proof.
  unfold moved, lives. induction (pm_slots m) as [|s l IH]; [done|]. rewrite !filter_cons, IH.
  destruct (decide (live s)) as [Hl|Hl]; [rewrite filter_cons|]; repeat case_decide; try done; exfalso;
    destruct (Z.leb_spec va (s_va_page s)); naive_solver lia.
Qed.

Lemma kept_lives va m :
  kept (fun s => va <=? s_va_page s) (pm_slots m) = filter (fun s => s_va_page s < va) (lives m).
Proof.
  unfold kept, lives. induction (pm_slots m) as [|s l IH]; [done|]. rewrite !filter_cons, IH.
  destruct (decide (live s)) as [Hl|Hl]; [rewrite filter_cons|]; repeat case_decide; try done; exfalso;
    destruct (Z.leb_spec va (s_va_page s)); naive_solver lia.
Qed.

Lemma partition_length va (l : list vm_page_slot) :
  (length (filter (fun s => (s_va_page s < va)%Z) l) + length (filter (fun s => (va <= s_va_page s)%Z) l) = length l)%nat.
Proof. induction l as [|s l IH]; [done|]. rewrite !filter_cons. do 2 case_decide; simpl; lia. Qed.

Lemma split_commit_ok x y plan va r n w Q :
  w_regions w !! x = Some r -> x <> y -> region_ok r -> upper_half r va n ->
  (forall r' n', halves r va r' n' -> Q tt (split_world w x y plan r' n')) ->
  spec b (split_commit x y plan va) (set_region w y n) Q.
Proof.
  intros E Hne Hok Hn HQ. rewrite (two_of _ _ _ _ _ E Hne). unfold split_commit.
  vstep. vstep. vstep. vstep. rewrite two_x, two_y by done.
  pose proof (ro_pages _ Hok) as Hp. pose proof (partition_length va (lives (r_pages r))) as Hpart.
  assert (Hll : Z.of_nat (length (lives (r_pages r))) <= pm_capacity (r_pages r)).
  { etrans; [|apply (po_count _ Hp)]. unfold pm_count. apply inj_le, filter_length_le. }
  match goal with |- spec _ (_ ≫= ?k) _ _ =>
    assert (Hgo : forall uc ur m m', pages_ok m -> pages_ok m' ->
      lives m = filter (fun s => s_va_page s < va) (lives (r_pages r)) ->
      lives m' ≡ₚ filter (fun s => va <= s_va_page s) (lives (r_pages r)) ->
      pm_capacity m = pm_capacity (r_pages r) ->
      spec b (k (uc, ur)) (two (w_space w) (w_regions w) x (with_pages m r) y (with_pages m' n)) Q) end.
  { intros uc ur m m' Hm Hm' El El' Ec. cbv beta iota. vstep. apply spec_update_set. rewrite two_x, two_set_x.
    vstep. unfold rb_commit_insert. vstep. vstep. apply spec_update_set.
    change (World ?s (w_regions (two _ ?m ?x ?a ?y ?c))) with (two s m x a y c).
    rewrite two_y, two_set_y by done. vstep. apply update_ranges_any. vstep. apply spec_update_set.
    rewrite two_y, two_set_y by done. vstep. apply spec_update_set. rewrite two_x, two_set_x.
    apply spec_update_space.
    change (World ?s (w_regions (two _ ?m ?x ?a ?y ?c))) with (two s m x a y c).
    match goal with |- Q tt (two _ _ x ?a y ?c) => specialize (HQ a c) end.
    rewrite <- two_split in HQ by done. apply HQ.
    destruct Hn. constructor; simpl; try done.
    - rewrite El, El', Ec. lia.
    - by rewrite u64_add_l, Z.sub_add.
    - by rewrite u64_add_l, Z.sub_add. }
  pose proof (uh_slots _ _ _ Hn) as Hns. pose proof (uh_pages _ _ _ Hn) as Hnp.
  assert (Hnl : lives (r_pages n) = []) by (unfold lives; by rewrite Hns).
  assert (Hbase : two (w_space w) (w_regions w) x r y n =
                  two (w_space w) (w_regions w) x (with_pages (r_pages r) r) y (with_pages (r_pages n) n)).
  { by destruct r, n. }
  destruct (pm_exists (r_pages r)) eqn:Ee.
  - vstep. vstep. apply move_slots_ok.
    + done.
    + unfold pages_of. rewrite Hnl, moved_lives. simpl. apply NoDup_fmap_filter, (po_nodup _ Hp).
    + rewrite Hnl, moved_lives. simpl. pose proof (uh_room _ _ _ Hn). unfold pm_count in *.
      pose proof (filter_length_le live (pm_slots (r_pages r))) as H1. fold (lives (r_pages r)) in H1. lia.
    + intros src' dst' Es El Eb Ed Hdst Ec2 _. rewrite kept_lives in Es. rewrite Hnl, moved_lives in Ed.
      vstep. apply spec_update_set. rewrite two_x, two_set_x. vstep. apply spec_update_set.
      rewrite two_y, two_set_y by done. apply spec_ret. apply Hgo; [|done| |done|done].
      * destruct Hp as [P1 P2 P3 P4 P5]. constructor; simpl; [|done|done| |apply trim_bound, Eb, P5].
        -- pose proof (trim_length src'). unfold pm_count in *. simpl. lia.
        -- unfold pages_of, lives. simpl. rewrite trim_live, Es. by apply NoDup_fmap_filter.
      * unfold lives. simpl. by rewrite trim_live, Es.
  - pose proof (pages_absent _ Hp Ee) as Hs. rewrite Hbase.
    assert (Hl : lives (r_pages r) = []) by (unfold lives; by rewrite Hs).
    vstep. destruct (_ =? 0); apply spec_ret; apply Hgo; try done; by rewrite ?Hl, ?Hnl.
Qed.

(** *** What the split world is *)

Lemma aligned_mod v : is_page_aligned v = true <-> v mod 4096 = 0.
Proof.
  unfold is_page_aligned, CONTRACT_PAGE_SIZE. change (4096 - 1) with (Z.ones 12).
  rewrite Z.land_ones, Z.eqb_eq by lia. done.
Qed.

Lemma aligned_u64 v : is_page_aligned v = true -> is_page_aligned (u64 v) = true.
Proof.
  rewrite !aligned_mod. unfold u64, wrap. intros H.
  rewrite Z.mod_mod_divide; [done|]. exists (2 ^ 52). done.
Qed.

Lemma aligned_offset p a c :
  is_page_aligned p = true -> is_page_aligned a = true -> is_page_aligned c = true ->
  is_page_aligned (u64 (p + (a - c))) = true.
Proof.
  intros Hp Ha Hc. apply aligned_u64. rewrite aligned_mod in *.
  rewrite <- Zplus_mod_idemp_l, Hp, Z.add_0_l, Zminus_mod, Ha, Hc. done.
Qed.

Lemma halves_ok r va r' n' :
  region_ok r -> r_va_start r < va < r_va_end r -> is_page_aligned va = true -> halves r va r' n' ->
  region_ok r' /\ region_ok n'.
Proof.
  intros [[Hr0 Hr] Hf [Ha1 Ha2] Hw Hp Hl Hpg Hs] Hva Hal
    [(L1 & L2 & L3 & L4 & L5 & L6 & L7) (U1 & U2 & U3 & U4 & U5 & U6) HP S1 S2 P1 P2 _ _ _].
  rewrite list.Forall_forall in Hs.
  split; constructor; rewrite ?L1, ?L2, ?L3, ?L6, ?L7, ?U1, ?U2, ?U3; try done; try lia.
  - rewrite S1. apply list.Forall_forall. intros s [Hlt Hin]%list_elem_of_filter.
    destruct (Hs s Hin) as [? Hb]. split; [rewrite L1, L2; lia|exact Hb].
  - rewrite HP. case_bool_decide; [|done]. by apply aligned_offset.
  - apply list.Forall_forall. intros s Hin. rewrite S2 in Hin. apply list_elem_of_filter in Hin as [Hle Hin].
    destruct (Hs s Hin) as [? Hb]. split; [rewrite U1, U2; lia|exact Hb].
Qed.

Section split_facts.
  Context (w : world) (x y va : Z) (r : vm_region) (plan : list bool * bool) (r' n' : vm_region).
  Context (HW : vm_wf w) (E : w_regions w !! x = Some r) (Ey : w_regions w !! y = None)
    (Hva : r_va_start r < va < r_va_end r) (Hal : is_page_aligned va = true)
    (Hmax : sp_region_count (w_space w) < sp_max_regions (w_space w))
    (Hplan : rb_plan_insert (st w) (en w) (Some x) (sp_tree (w_space w)) va = Some plan)
    (HH : halves r va r' n').

Lemma split_regions z q :
  w_regions (split_world w x y plan r' n') !! z = Some q <->
  (z = y /\ q = n') \/ (z = x /\ q = r') \/ (z <> x /\ w_regions w !! z = Some q).
Proof.
  unfold split_world, add_region, set_region. simpl. rewrite !lookup_insert_Some.
  assert (x <> y) by congruence. naive_solver.
Qed.

(** The upper half could be erased again. *)
Lemma split_erasable : stale_at (sp_tree (w_space (split_world w x y plan r' n'))) y = false.
Proof.
  destruct HW as [HS _]. destruct (rb_plan_link _ _ _ _ _ _ y (vs_tree _ HS) Hplan) as [_ H]; [|exact H].
  change (y ∉ ids w). rewrite (vs_dom _ HS), Ey. by intros [].
Qed.

Lemma split_wf : vm_wf (split_world w x y plan r' n').
Proof.
  destruct HW as [HS [A1 A2 A3]]. pose proof (vs_regions _ HS _ _ E) as Hok.
  destruct (halves_ok r va r' n' Hok Hva Hal HH) as [Hok1 Hok2].
  destruct HH as [(L1 & L2 & L3 & L4 & L5 & L6 & L7) (U1 & U2 & U3 & U4 & U5 & U6) _ _ _ _ _ _ HC HR].
  assert (Hxy : x <> y) by congruence.
  assert (Hothers : forall z q, w_regions w !! z = Some q -> z <> x -> r_va_end q <= r_va_start r \/ r_va_end r <= r_va_start q).
  { intros z q Ez Hz. destruct (shape_disjoint w z x q r HS Ez E Hz); auto. }
  assert (HS1 : vm_shape (set_region w x r')).
  { apply (shape_update w x r r' HS E Hok1 L1). intros z q [Hz Ez]%lookup_delete_Some.
    destruct (Hothers z q Ez ltac:(congruence)); lia. }
  destruct (shape_insert (set_region w x r') y n' plan (sp_total_mapped (w_space w))
    (sp_total_committed (w_space w)) (sp_total_resident (w_space w)) HS1) as [HS2 (l1 & l2 & I1 & I2)].
  - simpl. by rewrite lookup_insert_ne.
  - done.
  - pose proof (vs_max _ HS). simpl. lia.
  - rewrite <- Hplan, rb_plan_excluded by (unfold st; rewrite (region_Some _ _ _ E); lia).
    rewrite U1. apply rb_plan_ext. intros z _. unfold st, en, set_region.
    destruct (Z.eqb_spec z x) as [->|Hz].
    + by rewrite region_insert_eq, (region_Some _ _ _ E).
    + by rewrite (region_insert_ne _ (w_space w)), world_eta.
  - intros z q. simpl. rewrite lookup_insert_Some. intros [[-> ->]|[Hz Ez]]; [lia|].
    destruct (Hothers z q Ez ltac:(congruence)); lia.
  - split; [exact HS2|].
    assert (HT : forall F, total F (split_world w x y plan r' n') = total F w + F r' - F r + F n').
    { intros F. unfold split_world, add_region. rewrite (total_insert F (set_region w x r') _ y n' l1 l2);
        [|done|simpl; by rewrite lookup_insert_ne|done|exact I2].
      unfold set_region. by rewrite (total_update F w _ x r r'). }
    assert (HU : forall t a c d, u64 (a + c) = u64 d -> u64 (t + a - d + c) = u64 t).
    { intros t a c d Hacd. replace (t + a - d + c) with (t + (a + c) - d) by lia.
      unfold u64, wrap in *. rewrite Zminus_mod, Zplus_mod, Hacd, <- Zplus_mod, <- Zminus_mod. f_equal. lia. }
    constructor; rewrite HT.
    + assert (Hspan : span r' + span n' = span r) by (unfold span; lia).
      replace (total span w + span r' - span r + span n') with (total span w) by lia. exact A1.
    + etrans; [exact A2|]. symmetry. by apply HU.
    + etrans; [exact A3|]. symmetry. by apply HU.
Qed.

Lemma split_view a : view (split_world w x y plan r' n') a = view w a.
Proof.
  pose proof split_wf as [HS' _]. destruct HW as [HS _].
  destruct HH as [(L1 & L2 & L3 & L4 & L5 & L6 & L7) (U1 & U2 & U3 & U4 & U5 & U6) HP _ _ _ _ _ _ _].
  apply view_agree; [done|done| |].
  - intros q (z & Ez & Hr). destruct (decide (z = x)) as [->|Hz].
    2:{ exists q. split; [|done]. exists z. split; [|done]. apply split_regions. right. by right. }
    assert (q = r) as -> by congruence. destruct (Z.lt_ge_cases a va).
    + exists r'. split; [exists x; split; [apply split_regions; right; by left|lia]|].
      unfold cell_at. by rewrite L1, L3, L4, L5, L6.
    + exists n'. split; [exists y; split; [apply split_regions; by left|lia]|].
      unfold cell_at. rewrite U1, U3, U4, U5, HP. case_bool_decide; [|done]. rewrite u64_add_l.
      by replace (r_phys_base r + (va - r_va_start r) + (a - va)) with (r_phys_base r + (a - r_va_start r)) by lia.
  - intros q (z & Ez & Hr). apply split_regions in Ez as [[-> ->]|[[-> ->]|[Hz Ez]]].
    + exists r, x. split; [done|lia].
    + exists r, x. split; [done|lia].
    + by exists q, z.
Qed.

Lemma split_slots s : has_slot (split_world w x y plan r' n') s <-> has_slot w s.
Proof.
  destruct HH as [_ _ _ S1 S2 _ _ _ _ _]. split.
  - intros (z & q & Ez & Hs). apply split_regions in Ez as [[-> ->]|[[-> ->]|[Hz Ez]]].
    + rewrite S2 in Hs. apply list_elem_of_filter in Hs as [_ Hs]. by exists x, r.
    + rewrite S1 in Hs. apply list_elem_of_filter in Hs as [_ Hs]. by exists x, r.
    + by exists z, q.
  - intros (z & q & Ez & Hs). destruct (decide (z = x)) as [->|Hz].
    2:{ exists z, q. split; [|done]. apply split_regions. right. by right. }
    assert (q = r) as -> by congruence. destruct (Z.lt_ge_cases (s_va_page s) va).
    + exists x, r'. split; [apply split_regions; right; by left|]. rewrite S1. by apply list_elem_of_filter.
    + exists y, n'. split; [apply split_regions; by left|]. rewrite S2. by apply list_elem_of_filter.
Qed.
End split_facts.

(** The end of a split: [y] is the upper half. *)
Record split_post (w : world) (x va : Z) (r : vm_region) (y : Z) (w' : world) : Prop := {
  sp_fresh : w_regions w !! y = None;
  sp_plan : exists plan r' n', w' = split_world w x y plan r' n' /\ halves r va r' n' /\
    rb_plan_insert (st w) (en w) (Some x) (sp_tree (w_space w)) va = Some plan
}.

Lemma vm_split_ok x va r w (Q : expected Z -> world -> Prop) :
  vm_wf w -> w_regions w !! x = Some r -> r_va_start r < va < r_va_end r -> is_page_aligned va = true ->
  (forall e, Q (Unexpected e) w) ->
  (forall y w', sp_region_count (w_space w) < sp_max_regions (w_space w) ->
     split_post w x va r y w' -> Q (Expected y) w') ->
  spec b (vm_split x va) w Q.
Proof.
  intros [HS HA] E Hva Hal He HQ. pose proof (vs_regions _ HS _ _ E) as Hok. unfold vm_split. vstep. vstep.
  rewrite (region_Some _ _ _ E). destruct (Z.leb_spec va (r_va_start r)); [lia|].
  destruct (Z.leb_spec (r_va_end r) va); [lia|]. rewrite Hal. cbn [orb negb]. vstep. vstep.
  destruct (Z.leb_spec (sp_max_regions (w_space w)) (sp_region_count (w_space w))); [apply spec_ret, He|].
  vstep. pose proof (ro_range _ Hok). pose proof (ro_fits _ Hok).
  apply split_prepare_ok with r; [done|done|lia|lia|done|].
  intros y n plan Ey Hn Hplan. simpl. vstep. apply split_commit_ok with r; [done|congruence|done|done|].
  intros r' n' HH. apply spec_ret. apply HQ; [lia|]. constructor; [done|]. by exists plan, r', n'.
Qed.

(** ** Joining *)

(** [upper] continues [lower] with the same attributes. *)
Record continues (l u : vm_region) : Prop := {
  ct_adjacent : r_va_end l = r_va_start u;
  ct_prot : r_prot u = r_prot l;
  ct_flags : r_flags u = r_flags l;
  ct_backing : r_backing u = r_backing l;
  ct_phys : r_backing l = bk_physical -> r_phys_base u = u64 (r_phys_base l + (r_va_start u - r_va_start l))
}.

(** The joined region. *)
Record joined (l u l' : vm_region) : Prop := {
  jn_range : r_va_start l' = r_va_start l /\ r_va_end l' = r_va_end u;
  jn_attrs : r_prot l' = r_prot l /\ r_flags l' = r_flags l /\ r_backing l' = r_backing l /\
             r_phys_base l' = r_phys_base l /\ r_linked l' = r_linked l;
  jn_slots : lives (r_pages l') ≡ₚ lives (r_pages l) ++ lives (r_pages u);
  jn_ok : pages_ok (r_pages l');
  jn_counts : r_committed l' = u64 (r_committed l + r_committed u) /\
              r_resident l' = u64 (r_resident l + r_resident u)
}.

(** [y] leaves the space and [x] becomes [l']. *)
Definition join_world (w : world) (x y : Z) (l' : vm_region) (mapped : Z) : world :=
  set_region (erased w y mapped) x l'.

Section join_facts.
  Context (w : world) (x y : Z) (l u l' : vm_region).
  Context (HS : vm_shape w) (Ex : w_regions w !! x = Some l) (Ey : w_regions w !! y = Some u)
    (Hxy : x <> y) (HC : continues l u) (HJ : joined l u l').
  Abbreviation w' := (join_world w x y l' (sp_total_mapped (w_space w))).

Lemma join_regions z q :
  w_regions w' !! z = Some q <-> (z = x /\ q = l') \/ (z <> x /\ z <> y /\ w_regions w !! z = Some q).
Proof.
  unfold join_world, set_region, erased. simpl. rewrite lookup_insert_Some, lookup_delete_Some. naive_solver.
Qed.

Lemma joined_ok : region_ok l'.
Proof.
  destruct HJ as [[R1 R2] (A1 & A2 & A3 & A4 & A5) S P _].
  destruct (vs_regions _ HS _ _ Ex) as [[? ?] ? [? ?] ? ? ? ? Hs1].
  destruct (vs_regions _ HS _ _ Ey) as [[? ?] ? [? ?] ? ? ? ? Hs2]. destruct HC as [C1 _ _ _ _].
  constructor; rewrite ?R1, ?R2, ?A1, ?A4, ?A5; try done; try lia.
  rewrite list.Forall_forall in Hs1, Hs2 |- *. intros s Hin. rewrite S in Hin.
  apply elem_of_app in Hin as [Hin|Hin]; [destruct (Hs1 s Hin)|destruct (Hs2 s Hin)];
    (split; [rewrite R1, R2; lia|done]).
Qed.

Lemma join_shape m : vm_shape (join_world w x y l' m).
Proof.
  pose proof joined_ok as Hok. destruct HJ as [[R1 R2] _ _ _ _]. destruct HC as [C1 _ _ _ _].
  destruct (shape_remove w y m (sp_total_committed (w_space w)) (sp_total_resident (w_space w)) HS
    (shape_elem _ _ _ HS Ey)) as [HS1 _].
  apply (shape_update _ x l l' HS1); [simpl; by rewrite lookup_delete_ne|done|done|].
  intros z q. simpl. intros [Hzx [Hzy Ez]%lookup_delete_Some]%lookup_delete_Some.
  pose proof (shape_disjoint w z x q l HS Ez Ex ltac:(congruence)).
  pose proof (shape_disjoint w z y q u HS Ez Ey ltac:(congruence)).
  pose proof (ro_range _ (vs_regions _ HS _ _ Ez)). lia.
Qed.

Lemma join_total F m : total F (join_world w x y l' m) = total F w - F u + F l' - F l.
Proof.
  destruct (shape_remove w y m (sp_total_committed (w_space w)) (sp_total_resident (w_space w)) HS
    (shape_elem _ _ _ HS Ey)) as [HS1 Hi].
  unfold join_world, set_region. rewrite (total_update F (erased w y m) _ x l l');
    [|done|simpl; by rewrite lookup_delete_ne|done].
  unfold erased. rewrite (total_remove F w _ y HS (shape_elem _ _ _ HS Ey)) by exact Hi.
  by rewrite (region_Some _ _ _ Ey).
Qed.

Lemma join_view m a : view (join_world w x y l' m) a = view w a.
Proof.
  pose proof (join_shape m) as HS'.
  destruct HJ as [[R1 R2] (A1 & A2 & A3 & A4 & _) _ _ _]. destruct HC as [C1 C2 C3 C4 C5].
  destruct (vs_regions _ HS _ _ Ex) as [? _ _ _ _ _ _ _]. destruct (vs_regions _ HS _ _ Ey) as [? _ _ _ _ _ _ _].
  assert (Hx : w_regions (join_world w x y l' m) !! x = Some l').
  { unfold join_world, set_region. simpl. apply lookup_insert_eq. }
  assert (Ho : forall z q, z <> x -> z <> y -> w_regions (join_world w x y l' m) !! z = Some q <-> w_regions w !! z = Some q).
  { intros z q Hz Hz'. unfold join_world, set_region, erased. simpl.
    by rewrite lookup_insert_ne, lookup_delete_ne by congruence. }
  apply view_agree; [done|done| |].
  - intros q (z & Ez & Hr). destruct (decide (z = x)) as [->|Hzx]; [|destruct (decide (z = y)) as [->|Hzy]].
    + assert (q = l) as -> by congruence. exists l'. split; [exists x; split; [done|lia]|].
      unfold cell_at. by rewrite R1, A1, A2, A3, A4.
    + assert (q = u) as -> by congruence. exists l'. split; [exists x; split; [done|lia]|].
      unfold cell_at. rewrite R1, A1, A2, A3, A4, C2, C3, C4. case_bool_decide as Hb; [|done].
      rewrite (C5 Hb), u64_add_l.
      by replace (r_phys_base l + (r_va_start u - r_va_start l) + (a - r_va_start u))
        with (r_phys_base l + (a - r_va_start l)) by lia.
    + exists q. split; [|done]. exists z. split; [by apply Ho|done].
  - intros q (z & Ez & Hr). destruct (decide (z = x)) as [->|Hzx].
    + assert (q = l') as -> by congruence. destruct (Z.lt_ge_cases a (r_va_end l)).
      * exists l, x. split; [done|lia].
      * exists u, y. split; [done|lia].
    + assert (z <> y) by (intros ->; revert Ez; unfold join_world, set_region, erased; simpl;
        by rewrite lookup_insert_ne, lookup_delete_eq by congruence).
      exists q, z. split; [by apply Ho|done].
Qed.

Lemma join_slots m s : has_slot (join_world w x y l' m) s <-> has_slot w s.
Proof.
  destruct HJ as [_ _ S _ _]. unfold has_slot, join_world, set_region, erased. simpl. split.
  - intros (z & q & Ez & Hs). apply lookup_insert_Some in Ez as [[<- <-]|[Hz [Hzy Ez]%lookup_delete_Some]].
    + rewrite S in Hs. apply elem_of_app in Hs as [Hs|Hs]; eauto.
    + eauto.
  - intros (z & q & Ez & Hs). destruct (decide (z = x)) as [->|Hzx]; [|destruct (decide (z = y)) as [->|Hzy]].
    + exists x, l'. split; [apply lookup_insert_eq|]. rewrite S. apply elem_of_app. left. by simplify_eq.
    + exists x, l'. split; [apply lookup_insert_eq|]. rewrite S. apply elem_of_app. right. by simplify_eq.
    + exists z, q. split; [|done]. by rewrite lookup_insert_ne, lookup_delete_ne by congruence.
Qed.

Lemma join_wf : accounted w -> vm_wf w'.
Proof.
  intros [A1 A2 A3]. split; [apply join_shape|].
  destruct HJ as [[R1 R2] _ _ _ [J1 J2]]. destruct HC as [C1 _ _ _ _].
  assert (HU : forall t a c d, a = u64 (d + c) -> u64 (t - c + a - d) = u64 t).
  { intros t a c d ->. replace (t - c + u64 (d + c) - d) with (t - (c + d) + u64 (d + c)) by lia.
    rewrite u64_add_r. f_equal. lia. }
  constructor; rewrite join_total.
  - assert (span l' = span l + span u) by (unfold span; lia).
    replace (total span w - span u + span l' - span l) with (total span w) by lia. exact A1.
  - etrans; [exact A2|]. symmetry. by apply HU.
  - etrans; [exact A3|]. symmetry. by apply HU.
Qed.
End join_facts.

Lemma moved_all l : moved (fun _ => true) l = filter live l.
Proof. apply list_filter_iff. intros s. split; [by intros []|done]. Qed.

Lemma kept_none l : kept (fun _ => true) l = [].
Proof. apply filter_none. by intros s _ [_ ?]. Qed.

Lemma vm_join_ok x y l u w (Q : unit -> world -> Prop) :
  erasable b w y -> vm_shape w -> w_regions w !! x = Some l -> w_regions w !! y = Some u -> x <> y ->
  continues l u ->
  Z.of_nat (length (lives (r_pages l)) + length (lives (r_pages u))) <= pm_capacity (r_pages l) ->
  (forall l', joined l u l' -> Q tt (join_world w x y l' (sp_total_mapped (w_space w)))) ->
  spec b (vm_join_split x y) w Q.
Proof.
  intros He HS Ex Ey Hxy HC Hroom HQ. pose proof (vs_regions _ HS _ _ Ex) as Hl. pose proof (vs_regions _ HS _ _ Ey) as Hu.
  unfold vm_join_split. vstep. vstep. vstep. vstep. rewrite (region_Some _ _ _ Ex), (region_Some _ _ _ Ey).
  rewrite (ro_linked _ Hl), (ro_linked _ Hu), (proj2 (Z.eqb_eq _ _) (ct_adjacent _ _ HC)). cbn [negb orb].
  assert (E0 : w = two (w_space w) (w_regions w) x l y u).
  { rewrite <- (two_of _ _ _ _ _ Ex Hxy). symmetry. by apply set_same. }
  match goal with |- spec _ (_ ≫= ?k) _ _ =>
    assert (Hgo : forall m m', pages_ok m -> lives m ≡ₚ lives (r_pages l) ++ lives (r_pages u) -> unbound m' ->
      spec b (k tt) (two (w_space w) (w_regions w) x (with_pages m l) y (with_pages m' u)) Q) end.
  { intros m m' Hm Hlm Hub. cbv beta iota. vstep. apply spec_update_set. rewrite two_x, two_set_x.
    vstep. apply update_ranges_any. vstep. apply spec_update_set. rewrite two_x, two_set_x.
    apply discard_split_any; [done|by rewrite two_y|]. match goal with |- Q tt (erased (two _ _ _ ?a _ _) _ _) => set (l' := a) end.
    replace (erased _ _ _) with (join_world w x y l' (sp_total_mapped (w_space w))).
    - apply HQ. constructor; try done.
    - unfold join_world, set_region, erased, two. simpl. f_equal.
      by rewrite delete_insert_ne, delete_insert_eq by done. }
  pose proof (po_nodup _ (ro_pages _ Hu)) as U4. pose proof (po_bound _ (ro_pages _ Hu)) as U5.
  destruct (pm_exists (r_pages u)) eqn:Ee.
  - rewrite E0. vstep. vstep. apply move_slots_ok.
    + apply (ro_pages _ Hl).
    + rewrite moved_all. apply list.NoDup_app. split_and!; [apply (po_nodup _ (ro_pages _ Hl))| |exact U4].
      intros p Hp Hp'. apply list_elem_of_fmap in Hp as (s & -> & Hs), Hp' as (s' & Es & Hs').
      pose proof (proj1 (list.Forall_forall _ _) (ro_slots _ Hl) s Hs) as [H1 _].
      pose proof (proj1 (list.Forall_forall _ _) (ro_slots _ Hu) s' Hs') as [H2 _].
      pose proof (ct_adjacent _ _ HC). lia.
    + rewrite moved_all. exact Hroom.
    + intros src' dst' Es El Eb Ed Hdst _ _. rewrite moved_all in Ed. rewrite kept_none in Es.
      vstep. apply spec_update_set. rewrite two_y, two_set_y by done. apply spec_update_set.
      rewrite two_x, two_set_x. apply Hgo; [done|done|].
      apply list.Forall_forall. intros s Hs. simpl in Hs. specialize (Eb U5).
      destruct (proj1 (list.Forall_forall _ _) Eb s Hs) as [Hlv|]; [exfalso|done].
      assert (s ∈ filter live src') by by apply list_elem_of_filter. rewrite Es in H. by apply elem_of_nil in H.
  - pose proof (pages_absent _ (ro_pages _ Hu) Ee) as Hs. apply spec_bind, spec_ret.
    assert (Hid : forall q, with_pages (r_pages q) q = q) by by intros [].
    specialize (Hgo (r_pages l) (r_pages u)). rewrite !Hid, <- E0 in Hgo. apply Hgo.
    + apply (ro_pages _ Hl).
    + unfold lives at 3. rewrite Hs. by rewrite filter_nil, app_nil_r.
    + unfold unbound. by rewrite Hs.
Qed.
End splitting.
