(* ===== verification/VmUnmap.v ===== *)
(** * Unmapping and protecting

    [vm_unmap] and [vm_protect] against the view of the address space: on
    success exactly the pages of the range change, on failure nothing does, the
    invariant holds in both cases, and the only deaths follow a broken promise
    of the environment or, when unmapping, an erasure from the region tree in the
    stale shape. *)

From S2P Require Import Prelude Errors Kobject MemContract Prog VmTree VmTypes VmPages Vm VmInv VmSplit.

(** The same mappings and the same resident pages. *)
Definition same_space (w w' : world) : Prop :=
  (forall a, view w' a = view w a) /\ (forall s, has_slot w' s <-> has_slot w s).

Lemma same_space_refl w : same_space w w.
Proof. done. Qed.

Lemma same_space_trans w1 w2 w3 : same_space w1 w2 -> same_space w2 w3 -> same_space w1 w3.
Proof.
  intros [V1 S1] [V2 S2]. split.
  - intros a. by rewrite V2.
  - intros s. by rewrite S2.
Qed.

(** No region straddles [p]. *)
Definition cut_at (w : world) (p : Z) : Prop :=
  forall z q, w_regions w !! z = Some q -> ~ (r_va_start q < p < r_va_end q).

Section cutting.
  Context (b : blame).

Lemma split_post_facts w x va r y w' :
  vm_wf w -> w_regions w !! x = Some r -> r_va_start r < va < r_va_end r -> is_page_aligned va = true ->
  sp_region_count (w_space w) < sp_max_regions (w_space w) -> split_post w x va r y w' ->
  vm_wf w' /\ same_space w w' /\ cut_at w' va /\
  (forall p, cut_at w p -> cut_at w' p) /\
  exists r' n', w_regions w' !! x = Some r' /\ w_regions w' !! y = Some n' /\ x <> y /\ halves r va r' n' /\
    stale_at (sp_tree (w_space w')) y = false.
Proof.
  intros HW E Hva Hal Hmax [Ey (plan & r' & n' & -> & HH & Hplan)].
  assert (Hxy : x <> y) by congruence.
  pose proof (split_regions w x y va r plan r' n' E Ey Hva Hplan HH) as HR.
  pose proof (hl_lower _ _ _ _ HH) as (L1 & L2 & _). pose proof (hl_upper _ _ _ _ HH) as (U1 & U2 & _).
  split_and!.
  - by eapply split_wf.
  - split; [intros a; by eapply split_view|intros s; by eapply split_slots].
  - intros z q [[-> ->]|[[-> ->]|[Hz Ez]]]%HR; [lia|lia|].
    destruct HW as [HS _]. destruct (shape_disjoint w z x q r HS Ez E Hz); lia.
  - intros p Hp z q [[-> ->]|[[-> ->]|[Hz Ez]]]%HR; [specialize (Hp x r E); lia|specialize (Hp x r E); lia|by eapply Hp].
  - exists r', n'. split_and!; [apply HR; right; by left|apply HR; by left|done|done|]. by eapply split_erasable.
Qed.

Lemma halves_continue r va r' n' : halves r va r' n' -> continues r' n'.
Proof.
  intros [(L1 & L2 & L3 & L4 & L5 & L6 & L7) (U1 & U2 & U3 & U4 & U5 & U6) HP _ _ _ _ _ _ _].
  constructor; try congruence. intros Hb. rewrite HP, L6, L1, U1. rewrite bool_decide_eq_true_2; [done|congruence].
Qed.

Lemma split_ends_ok va e w (Q : expected unit -> world -> Prop) :
  vm_wf w -> is_page_aligned va = true -> is_page_aligned e = true -> 0 <= va < e -> e < 2 ^ 64 ->
  (forall err w', vm_wf w' -> same_space w w' -> Q (Unexpected err) w') ->
  (forall w', vm_wf w' -> same_space w w' -> cut_at w' va -> cut_at w' e -> Q (Expected tt) w') ->
  spec b (split_ends va e) w Q.
Proof.
  intros HW Hal Hale Hva He HE HQ. unfold split_ends. vstep. vstep.
  destruct (page_step va e Hal Hale Hva He) as (_ & Hpage & _). unfold VM_PAGE_SIZE in Hpage.
  assert (Hfind : forall w1, vm_wf w1 -> (forall z q, vm_find w1 (u64 (e - VM_PAGE_SIZE)) = Some z ->
      w_regions w1 !! z = Some q -> r_va_end q <= e) -> cut_at w1 e).
  { intros w1 [HS1 _] Hf z q Ez Hr. destruct (vs_regions _ HS1 _ _ Ez) as [R1 R2 [R3 R4] _ _ _ _ _].
    destruct (page_step (r_va_start q) e R3 Hale ltac:(lia) He) as (_ & Hp & _). unfold VM_PAGE_SIZE in *.
    rewrite u64_small in Hf by (unfold fits; lia).
    specialize (Hf z q). rewrite (vm_find_Some _ _ _ HS1) in Hf. specialize (Hf ltac:(exists q; split; [done|lia]) Ez). lia. }
  match goal with |- spec _ (_ ≫= ?k) _ _ =>
    assert (Hgo : forall w1 (o : option (Z * Z)), vm_wf w1 -> same_space w w1 -> cut_at w1 va ->
      (forall x y, o = Some (x, y) -> exists r r' n', w_regions w1 !! x = Some r' /\ w_regions w1 !! y = Some n' /\
         x <> y /\ halves r va r' n' /\ stale_at (sp_tree (w_space w1)) y = false) ->
      spec b (k (Expected o)) w1 Q) end.
  { intros w1 o HW1 Hsame Hcut Ho. cbv beta iota. vstep. vstep.
    destruct (vm_find w1 (u64 (e - VM_PAGE_SIZE))) as [x|] eqn:Ef.
    2:{ apply spec_ret. apply HQ; [done..|]. apply Hfind; [done|]. congruence. }
    pose proof HW1 as [HS1 HA1]. apply (vm_find_Some _ _ _ HS1) in Ef as (r & Ex & Hr).
    rewrite u64_small in Hr by (unfold fits, VM_PAGE_SIZE; lia). unfold VM_PAGE_SIZE in Hr.
    unfold en. rewrite (region_Some _ _ _ Ex). destruct (Z.ltb_spec e (r_va_end r)) as [Hlt|Hge].
    2:{ apply spec_ret. apply HQ; [done..|]. apply Hfind; [done|]. intros z q Ez Eq.
        rewrite (vm_find_Some _ _ _ HS1) in Ez. destruct Ez as (q' & Eq' & Hq'). assert (q = q') as -> by congruence.
        rewrite u64_small in Hq' by (unfold fits, VM_PAGE_SIZE; lia). unfold VM_PAGE_SIZE in Hq'.
        destruct (decide (z = x)) as [->|Hne]; [by assert (q' = r) as -> by congruence|].
        destruct (shape_disjoint w1 z x q' r HS1 Eq' Ex Hne); lia. }
    vstep. apply vm_split_ok with r; [done|done|lia|done| |].
    - intros err. destruct o as [[x0 y0]|]; [|apply spec_bind, spec_ret, spec_ret; by apply HE].
      destruct (Ho x0 y0 eq_refl) as (r0 & l & u & El & Eu & Hne & HH & Her). vstep.
      pose proof (halves_continue _ _ _ _ HH) as HC.
      apply vm_join_ok with l u; [by right|done..|apply (hl_room _ _ _ _ HH)|]. intros l' HJ. apply spec_ret. apply HE.
      + by apply (join_wf w1 x0 y0 l u l').
      + eapply same_space_trans; [exact Hsame|]. split.
        * intros a. by apply (join_view w1 x0 y0 l u l').
        * intros s. by apply (join_slots w1 x0 y0 l u l').
    - intros y w2 Hmax Hpost. apply spec_ret.
      destruct (split_post_facts w1 x e r y w2 HW1 Ex ltac:(lia) Hale Hmax Hpost) as (HW2 & Hs2 & Hc2 & Hk & _).
      apply HQ; [done|by eapply same_space_trans|by apply Hk|done]. }
  pose proof HW as [HS HA]. destruct (vm_find w va) as [x|] eqn:Ef.
  - pose proof Ef as Ef'. apply (vm_find_Some _ _ _ HS) in Ef' as (r & Ex & Hr).
    unfold st. rewrite (region_Some _ _ _ Ex). destruct (Z.ltb_spec (r_va_start r) va) as [Hlt|Hge].
    + apply spec_bind. vstep. apply vm_split_ok with r; [done|done|lia|done| |].
      * intros err. cbv beta iota. apply spec_ret. by apply HE.
      * intros y w1 Hmax Hpost. cbv beta iota. apply spec_ret.
        destruct (split_post_facts w x va r y w1 HW Ex ltac:(lia) Hal Hmax Hpost) as (HW1 & Hs1 & Hc1 & _ & r' & n' & ? & ? & ? & ? & ?).
        apply (Hgo w1 (Some (x, y))); [done..|]. intros x0 y0 [= <- <-]. by exists r, r', n'.
    + apply spec_bind, spec_ret. apply (Hgo w None); [done|done| |done]. intros z q Ez Hq.
      destruct (decide (z = x)) as [->|Hne]; [assert (q = r) as -> by congruence; lia|].
      destruct (shape_disjoint w z x q r HS Ez Ex Hne); lia.
  - apply spec_bind, spec_ret. apply (Hgo w None); [done|done| |done]. intros z q Ez Hq.
    apply (proj1 (vm_find_None w va HS) Ef z q Ez). lia.
Qed.
End cutting.

(** ** The contract admits the regions of a well-formed space *)

Lemma shared_access prot flags backing :
  dgp_scope_from_vm flags backing = portal_shared ->
  memory_access_has (dgp_access_from_vm prot flags backing) access_share = true.
Proof.
  unfold dgp_scope_from_vm, dgp_access_from_vm. destruct (has_flag flags vf_kernel); [done|].
  destruct (shared_mapping flags backing); [|done]. intros _.
  by destruct (has_flag prot prot_read), (has_flag prot prot_write), (has_flag prot prot_exec).
Qed.

Lemma key_ok_spec k : key_ok k = true <-> k = STORAGE_KEY_AUTO \/ k < STORAGE_KEY_COUNT.
Proof. unfold key_ok. by rewrite orb_true_iff, Z.eqb_eq, Z.ltb_lt. Qed.

Lemma r_size_span r : region_ok r -> r_size r = span r.
Proof. intros [[? ?] ? _ _ _ _ _ _]. unfold r_size, span. apply u64_small. unfold fits. lia. Qed.

(** A request for a whole region with an allowed protection is admitted. *)
Lemma region_admitted g s r prot key numa :
  region_ok r -> prot_rwx (prot_to_mmu prot) = false -> key_ok (sp_storage_key s) = true ->
  key_ok key = true ->
  exists c, authorize_mapping g (build_contract_request s (r_va_start r) (r_size r) prot (r_flags r)
    (r_backing r) (r_phys_base r) key numa) = Expected c.
Proof.
  intros Hok Hwx Hsk Hk. rewrite (r_size_span _ Hok). destruct Hok as [[H1 H2] H3 [H4 H5] _ H6 _ _ _].
  unfold span. eexists. apply authorize_mapping_ok.
  - unfold request_typed, build_contract_request. simpl. split_and!; [unfold fits; lia|apply u64_fits|unfold fits; lia].
  - split; [|reflexivity]. unfold build_contract_request.
    assert (Ee : u64 (r_va_start r + (r_va_end r - r_va_start r)) = r_va_end r).
    { rewrite Z.add_comm, Z.sub_add. apply u64_small. unfold fits. lia. }
    constructor; simpl; rewrite ?Ee; try done.
    + by right.
    + apply key_ok_spec. by destruct (key =? 0).
    + apply shared_access.
Qed.

Section unmapping.
  Context (b : blame).

(** ** Unmapping a region *)

Definition unmapped (w : world) (x : Z) : world :=
  let s := w_space w in
  let r := region w x in
  World (with_totals (u64 (sp_total_mapped s - r_size r)) (u64 (sp_total_committed s - r_committed r))
           (u64 (sp_total_resident s - r_resident r)) (u32 (sp_region_count s - 1))
           (with_tree (rb_unlink (sp_tree s) x) s))
    (delete x (w_regions w)).

Lemma unmapped_wf w x : vm_wf w -> x ∈ ids w ->
  vm_wf (unmapped w x) /\ ids (unmapped w x) = filter (fun y => y <> x) (ids w).
Proof.
  intros [HS [A1 A2 A3]] Hx. destruct (shape_remove w x (u64 (sp_total_mapped (w_space w) - r_size (region w x)))
    (u64 (sp_total_committed (w_space w) - r_committed (region w x)))
    (u64 (sp_total_resident (w_space w) - r_resident (region w x))) HS Hx) as [HS' Hi].
  split; [|exact Hi]. split; [exact HS'|].
  pose proof (shape_lookup _ _ HS Hx) as E. pose proof (vs_regions _ HS _ _ E) as Hok.
  constructor; unfold unmapped; rewrite (total_remove _ w _ x HS Hx) by exact Hi; simpl.
  - by rewrite A1, u64_sub_l, (r_size_span _ Hok).
  - by rewrite A2, u64_sub_l.
  - by rewrite A3, u64_sub_l.
Qed.

Lemma unmap_region_ok root x w (Q : unit -> world -> Prop) :
  lenient b = true -> vm_wf w -> x ∈ ids w -> Q tt (unmapped w x) -> spec b (unmap_region root x) w Q.
Proof.
  intros Hb [HS HA] Hx HQ. pose proof (shape_lookup _ _ HS Hx) as E. pose proof (vs_regions _ HS _ _ E) as Hok.
  unfold unmap_region. vstep. vstep. apply policy_key. intros key b1 Hb1 Hl1 Hkey. vstep. apply policy_field_any. intros numa.
  vstep. apply authorize_any. intros g. unfold authorize_unmap.
  destruct (authorize_mapping g _) as [c|err] eqn:Ea; cbn [mbind expected_bind].
  2:{ apply spec_fatal. destruct Hkey as [Hkey|?]; [exfalso|done].
      destruct (region_admitted g (w_space w) (region w x) (r_prot (region w x)) key numa Hok (ro_wx _ Hok)
        (vs_key _ HS) Hkey) as [c Ec]. congruence. }
  clear Ea Hkey. apply spec_call_any. intros v.
  match goal with |- spec _ (_ ≫= ?k) _ _ => assert (Hgo : spec b1 (k tt) w Q) end.
  { cbv beta. vstep. destruct (ro_align _ Hok), (ro_range _ Hok). apply unmap_range_any; [done|done|done|apply Hok|].
    vstep. apply policy_field_any. intros i. vstep. apply spec_call_unit.
    vstep. apply teardown_region_ok with (region w x); [done|done|]. intros f m Hu Hl.
    vstep. vstep. apply remove_and_free_any; [left; congruence|..].
    { unfold set_region. simpl. by rewrite region_insert_eq. }
    replace (erased _ _ _) with (unmapped w x); [done|]. unfold unmapped, erased, set_region. simpl.
    rewrite region_insert_eq, delete_insert_eq. done. }
  destruct v as [v|]; [by apply spec_call_any|by apply spec_bind, spec_ret].
Qed.

(** A suffix of the regions, walked with [rb_next]. *)
Lemma next_suffix w l1 x l2 :
  vm_shape w -> ids w = l1 ++ x :: l2 -> next_in (ids w) x = list.head l2.
Proof.
  intros HS E. rewrite E. apply next_in_split. pose proof (shape_NoDup _ HS) as Hn. rewrite E in Hn.
  apply list.NoDup_app in Hn as (_ & Hd & _). intros Hx. apply (Hd x Hx). left.
Qed.

Lemma suffix_bound w l1 x l2 e z :
  vm_shape w -> ids w = l1 ++ x :: l2 -> e <= st w x -> z ∈ x :: l2 -> e <= st w z.
Proof.
  intros HS E He Hz. destruct (vs_order _ HS) as [Hs Hn]. change (inorder _) with (ids w) in *. rewrite E in Hs, Hn.
  apply sorted_app in Hs as (_ & Hs & _). apply Sorted.StronglySorted_inv in Hs as [_ Hf].
  apply Forall_app in Hn as [_ Hn]. rewrite list.Forall_forall in Hf, Hn.
  apply elem_of_cons in Hz as [->|Hz]; [done|]. specialize (Hf z Hz). specialize (Hn x ltac:(left)).
  unfold before in Hf. lia.
Qed.

Lemma filter_ne_app (l1 l2 : list Z) x :
  NoDup (l1 ++ x :: l2) -> filter (fun y => y <> x) (l1 ++ x :: l2) = l1 ++ l2.
Proof.
  intros Hn. apply list.NoDup_app in Hn as (_ & Hd & Hn). apply list.NoDup_cons in Hn as [Hx _].
  rewrite list.filter_app, filter_cons_False by naive_solver.
  rewrite !filter_all_inv; [done|..]; apply list.Forall_forall.
  - intros z Hz ->. done.
  - intros z Hz ->. apply (Hd x Hz). left.
Qed.

Lemma unmap_commit_ok root e fuel l1 l2 w (Q : unit -> world -> Prop) :
  lenient b = true -> vm_wf w -> ids w = l1 ++ l2 -> (length l2 <= fuel)%nat ->
  (forall w', vm_wf w' ->
     (forall z q, w_regions w' !! z = Some q <->
        w_regions w !! z = Some q /\ (z ∈ l1 \/ e <= r_va_start q)) -> Q tt w') ->
  spec b (unmap_commit fuel root (list.head l2) e) w Q.
Proof.
  intros Hb. revert fuel w. induction l2 as [|x l2 IH]; intros fuel w HW Ei Hf HQ.
  { destruct fuel; simpl; apply spec_ret; (apply HQ; [done|]); intros z q; (split; [|naive_solver]); intros Ez;
      (split; [done|left]); apply (shape_elem _ _ _ (proj1 HW)) in Ez; by rewrite Ei, app_nil_r in Ez. }
  pose proof HW as [HS HA]. assert (Hx : x ∈ ids w) by (rewrite Ei; apply elem_of_app; right; left).
  destruct fuel as [|fuel]; [simpl in Hf; lia|]. simpl. vstep. vstep. destruct (Z.leb_spec e (st w x)) as [Hle|Hgt].
  - apply spec_ret. apply HQ; [done|]. intros z q. split; [|naive_solver]. intros Ez. split; [done|].
    pose proof (shape_elem _ _ _ HS Ez) as Hz. rewrite Ei in Hz. apply elem_of_app in Hz as [?|Hz]; [by left|right].
    pose proof (suffix_bound w l1 x l2 e z HS Ei Hle Hz) as Hbd. unfold st in Hbd. by rewrite (region_Some _ _ _ Ez) in Hbd.
  - change (inorder (sp_tree (w_space w))) with (ids w). rewrite (next_suffix w l1 x l2 HS Ei).
    vstep. apply unmap_region_ok; [done|done|done|]. destruct (unmapped_wf w x HW Hx) as [HW' Hi'].
    assert (Hnd : NoDup (l1 ++ x :: l2)) by (rewrite <- Ei; by apply shape_NoDup).
    rewrite Ei, filter_ne_app in Hi' by done. apply IH; [done|done|simpl in Hf; lia|].
    intros w' Hw' HR. apply HQ; [done|]. intros z q. rewrite HR. unfold unmapped. simpl. rewrite lookup_delete_Some.
    split; [naive_solver|]. intros [Ez Hz]. split; [|done]. split; [|done]. intros <-.
    destruct Hz as [Hz|Hz].
    + apply list.NoDup_app in Hnd as (_ & Hd & _). apply (Hd x Hz). left.
    + unfold st in Hgt. rewrite (region_Some _ _ _ Ez) in Hgt. lia.
Qed.

(** The first pass leaves the state alone. *)
Lemma unmap_check_ok va e fuel l1 l2 w (Q : expected unit -> world -> Prop) :
  vm_shape w -> ids w = l1 ++ l2 -> (length l2 <= fuel)%nat -> (forall r, Q r w) ->
  spec b (unmap_check fuel (list.head l2) va e) w Q.
Proof.
  intros HS. revert fuel l1. induction l2 as [|x l2 IH]; intros fuel l1 Ei Hf HQ.
  { destruct fuel; simpl; by apply spec_ret. }
  destruct fuel as [|fuel]; [simpl in Hf; lia|]. simpl. vstep. vstep.
  destruct (e <=? _); [by apply spec_ret|]. vstep. apply policy_field_any. intros key. vstep. apply policy_field_any. intros numa.
  vstep. apply authorize_any. intros g. destruct (authorize_unmap _ _); [|apply HQ].
  change (inorder (sp_tree (w_space w))) with (ids w). rewrite (next_suffix w l1 x l2 HS Ei).
  apply (IH fuel (l1 ++ [x])); [by rewrite <- app_assoc|simpl in Hf; lia|done].
Qed.

Lemma head_filter_split (P : Z -> Prop) `{forall x, Decision (P x)} l x :
  list.head (filter P l) = Some x -> exists l1 l2, l = l1 ++ x :: l2 /\ P x /\ forall z, z ∈ l1 -> ~ P z.
Proof.
  induction l as [|y l IH]; [done|]. rewrite filter_cons. case_decide as Hp.
  - intros [= ->]. exists [], l. split_and!; [done|done|]. intros z Hz. by apply elem_of_nil in Hz.
  - intros (l1 & l2 & -> & Hx & Hl)%IH. exists (y :: l1), l2. split_and!; [done|done|].
    intros z [->|Hz]%elem_of_cons; [done|by apply Hl].
Qed.

(** The walk starts at the first region of the range. *)
Lemma first_in_ok w va e :
  vm_shape w -> va < e ->
  exists l1 l2, ids w = l1 ++ l2 /\ first_in w va e = list.head l2 /\
    (forall z q, w_regions w !! z = Some q -> z ∈ l1 -> r_va_end q <= va \/ e <= r_va_start q) /\
    (forall z q, w_regions w !! z = Some q -> z ∈ l2 -> va < r_va_end q).
Proof.
  intros HS Hlt. unfold first_in. rewrite (first_overlap_spec _ _ _ _ _ _ (vs_order _ HS) Hlt).
  change (inorder (sp_tree (w_space w))) with (ids w).
  destruct (list.head (filter _ (ids w))) as [x|] eqn:Eh.
  - apply head_filter_split in Eh as (l1 & l2 & Ei & [Hx1 Hx2] & Hl). exists l1, (x :: l2).
    split_and!; [done|done| |].
    + intros z q Ez Hz. specialize (Hl z Hz). unfold st, en in Hl. rewrite (region_Some _ _ _ Ez) in Hl. lia.
    + intros z q Ez Hz. apply elem_of_cons in Hz as [->|Hz]; [unfold en in Hx2; by rewrite (region_Some _ _ _ Ez) in Hx2|].
      destruct (vs_order _ HS) as [Hs _]. change (inorder _) with (ids w) in Hs. rewrite Ei in Hs.
      apply sorted_app in Hs as (_ & Hs & _). apply Sorted.StronglySorted_inv in Hs as [_ Hf].
      rewrite list.Forall_forall in Hf. specialize (Hf z Hz). unfold before, st in Hf. rewrite (region_Some _ _ _ Ez) in Hf.
      pose proof (ro_range _ (vs_regions _ HS _ _ Ez)). lia.
  - exists (ids w), []. rewrite app_nil_r. split_and!; [done|done| |].
    + intros z q Ez Hz. destruct (filter _ (ids w)) eqn:Ef; [|done].
      assert (Hn : z ∉ filter (fun x => st w x < e /\ va < en w x) (ids w)) by (rewrite Ef; apply not_elem_of_nil).
      rewrite list_elem_of_filter in Hn. unfold st, en in Hn. rewrite (region_Some _ _ _ Ez) in Hn.
      destruct (Z.lt_ge_cases (r_va_start q) e); [|by right]. destruct (Z.lt_ge_cases va (r_va_end q)); [|by left]. naive_solver.
    + intros z q _ Hz. by apply elem_of_nil in Hz.
Qed.

(** ** The whole operation *)

(** The range a guard admitted. *)
Lemma admitted_range va size :
  fits 64 va -> fits 64 size -> validate_range va (u64 (va + size)) = Expected tt -> size <> 0 ->
  (u64 (va + size) <? va) = false ->
  u64 (va + size) = va + size /\ 0 <= va < va + size /\ va + size < 2 ^ 64 /\
  is_page_aligned va = true /\ is_page_aligned (va + size) = true.
Proof.
  intros Hv Hs Hr Hz Hlt. apply validate_range_ok in Hr as (H1 & H2 & H3); [|done].
  assert (E : u64 (va + size) = va + size).
  { unwrap_u. rewrite Z.ltb_ge in Hlt.
    destruct (Z.lt_ge_cases (va + size) 18446744073709551616); [apply Z.mod_small; lia|].
    assert ((va + size) mod 18446744073709551616 = va + size - 18446744073709551616) as E; [|lia].
    symmetry. apply (Z.mod_unique_pos _ _ 1); lia. }
  rewrite E in *. split_and!; try done; [apply Hv|]. pose proof (u64_fits (va + size)) as Hf. rewrite E in Hf. apply Hf.
Qed.

(** After the ends are cut, the regions that meet the range lie in it. *)
Lemma cut_inside w va e z q :
  vm_shape w -> cut_at w va -> cut_at w e -> w_regions w !! z = Some q ->
  r_va_start q < e -> va < r_va_end q -> va <= r_va_start q /\ r_va_end q <= e.
Proof.
  intros HS C1 C2 Ez H1 H2. specialize (C1 z q Ez). specialize (C2 z q Ez). lia.
Qed.
End unmapping.

(** C5: unmapping is exact, unless it erases a region in the stale shape of the tree.
    From a well-formed space, a run of [vm_unmap] with any size and address that
    returns leaves a well-formed space; on success the view of the space is the
    old one with exactly the addresses of the range removed, and the resident
    pages are the old ones outside the range, for regions that the range covers,
    clips at either end or splits in the middle; on every error (arguments,
    contract, or a split that could not be made, after the other one was undone)
    view and pages are the old ones.  A run ends without a result only after the
    environment broke a promise, or where a region of the range is erased from the
    tree in the one shape in which [rb_erase] leaves a parent pointer to the erased
    node (two children, the right one with a right child and no left one): what
    the code does after that is not modelled. *)
Theorem vm_unmap_exact root va size w :
  vm_wf w -> fits 64 va -> fits 64 size ->
  spec tolerant (vm_unmap root va size) w (fun res w' =>
    vm_wf w' /\
    match res with
    | Expected _ =>
        (forall a, view w' a = if bool_decide (va <= a < va + size) then None else view w a) /\
        (forall s, has_slot w' s <-> has_slot w s /\ ~ (va <= s_va_page s < va + size))
    | Unexpected _ => same_space w w'
    end).
Proof.
  intros HW Hv Hs. unfold vm_unmap.
  destruct (Z.eqb_spec size 0) as [->|Hz]; cbn [orb]; [by apply spec_ret|].
  destruct (negb (is_page_aligned size)); [by apply spec_ret|].
  destruct (negb (is_page_aligned va)); [by apply spec_ret|].
  destruct (u64 (va + size) <? va) eqn:Elt; [by apply spec_ret|]. vstep. vstep.
  destruct (validate_range va (u64 (va + size))) as [[]|err] eqn:Er; [|done].
  destruct (admitted_range va size Hv Hs Er Hz Elt) as (E & H0 & Hf & Ha & Hae). rewrite E. clear Er Elt E.
  pose proof HW as [HS HA]. vstep. vstep.
  destruct (first_in_ok w va (va + size) HS ltac:(lia)) as (l1 & l2 & Ei & Ef & Hl1 & Hl2). rewrite Ef.
  destruct l2 as [|x l2]; cbn [list.head].
  { apply spec_ret. split; [done|]. rewrite app_nil_r in Ei.
    assert (Hout : forall z q, w_regions w !! z = Some q -> r_va_end q <= va \/ va + size <= r_va_start q).
    { intros z q Ez. apply (Hl1 z q Ez). rewrite <- Ei. by eapply shape_elem. }
    split.
    - intros a. case_bool_decide as Hr; [|done]. apply view_None; [done|]. intros r (z & Ez & Hz').
      destruct (Hout z r Ez); lia.
    - intros s. split; [|naive_solver]. intros (z & q & Ez & Hin). split; [by exists z, q|].
      pose proof (proj1 (list.Forall_forall _ _) (ro_slots _ (vs_regions _ HS _ _ Ez)) s Hin) as [? _].
      destruct (Hout z q Ez); lia. }
  vstep. change (Some x) with (list.head (x :: l2)). apply (unmap_check_ok _ _ _ _ l1); [done|done|unfold region_fuel|].
  { change (inorder (sp_tree (w_space w))) with (ids w). rewrite Ei, length_app. simpl. lia. }
  intros [[]|err]; [|done]. vstep. apply split_ends_ok; [done..| |].
  { intros err w' HW' Hsame. done. }
  clear l1 l2 x Ei Ef Hl1 Hl2. intros w1 HW1 [HV1 HS1'] C1 C2. pose proof HW1 as [HS1 HA1]. vstep. vstep.
  destruct (first_in_ok w1 va (va + size) HS1 ltac:(lia)) as (l1 & l2 & Ei & Ef & Hl1 & Hl2). rewrite Ef.
  vstep. apply unmap_commit_ok with l1; [done|done|done|unfold region_fuel|].
  { change (inorder (sp_tree (w_space w1))) with (ids w1). rewrite Ei, length_app. lia. }
  intros w2 HW2 HR. apply spec_ret. split; [done|]. pose proof HW2 as [HS2 HA2].
  assert (Hgone : forall z q, w_regions w1 !! z = Some q ->
    (w_regions w2 !! z = Some q /\ (r_va_end q <= va \/ va + size <= r_va_start q)) \/
    (w_regions w2 !! z = None /\ va <= r_va_start q /\ r_va_end q <= va + size)).
  { intros z q Ez. pose proof (shape_elem _ _ _ HS1 Ez) as Hz1. rewrite Ei in Hz1.
    destruct (decide (z ∈ l1)) as [Hin|Hin].
    { left. split; [apply HR; split; [done|by left]|by eapply Hl1]. }
    assert (Hz2 : z ∈ l2) by (apply elem_of_app in Hz1; tauto).
    destruct (Z.lt_ge_cases (r_va_start q) (va + size)) as [Hst|Hst].
    - right. split; [|apply (cut_inside w1 _ _ z); [done..|by apply (Hl2 z)]].
      destruct (w_regions w2 !! z) as [q'|] eqn:E2; [exfalso|done]. apply HR in E2 as [E2 [?|?]]; [done|].
      assert (q' = q) by congruence. subst. lia.
    - left. split; [apply HR; auto|by right]. }
  split.
  - intros a. rewrite <- HV1. case_bool_decide as Hr.
    + apply view_None; [done|]. intros r (z & Ez & Hz'). pose proof Ez as Ez'. apply HR in Ez' as [Ez1 _].
      destruct (Hgone z r Ez1) as [[_ ?]|[? _]]; [lia|congruence].
    + apply view_agree; [done|done| |].
      * intros r (z & Ez & Hz'). exists r. split; [|done]. exists z. split; [|done].
        destruct (Hgone z r Ez) as [[? _]|[_ ?]]; [done|lia].
      * intros r (z & Ez & Hz'). apply HR in Ez as [Ez _]. by exists r, z.
  - intros s. rewrite <- HS1'. split.
    + intros (z & q & Ez & Hin). pose proof Ez as Ez'. apply HR in Ez' as [Ez1 _]. split; [by exists z, q|].
      pose proof (proj1 (list.Forall_forall _ _) (ro_slots _ (vs_regions _ HS1 _ _ Ez1)) s Hin) as [? _].
      destruct (Hgone z q Ez1) as [[_ ?]|[? _]]; [lia|congruence].
    + intros [(z & q & Ez & Hin) Hr].
      pose proof (proj1 (list.Forall_forall _ _) (ro_slots _ (vs_regions _ HS1 _ _ Ez)) s Hin) as [? _].
      destruct (Hgone z q Ez) as [[? _]|[_ ?]]; [by exists z, q|lia].
Qed.
