(* ===== verification/VmProtect.v ===== *)
(** * Protecting a range

    [vm_protect] against the view of the address space. *)

From S2P Require Import Prelude Errors Kobject MemContract Prog VmTree VmTypes VmPages Vm VmInv VmSplit VmUnmap.

Lemma prot_wx prot : prot_rwx (prot_to_mmu prot) = has_flag prot prot_write && has_flag prot prot_exec.
Proof. unfold prot_to_mmu. by destruct (has_flag prot prot_write), (has_flag prot prot_exec). Qed.

Lemma with_prot_ok prot r : region_ok r -> prot_rwx (prot_to_mmu prot) = false -> region_ok (with_prot prot r).
Proof. intros [H1 H2 H3 H4 H5 H6 H7 H8] Hp. by constructor. Qed.

(** The generations of a space do not concern its regions. *)
Lemma generations_wf w g m : vm_wf w -> vm_wf (World (with_generations g m (w_space w)) (w_regions w)).
Proof.
  intros [[H1 H2 H3 H4 H5 H6 H7] [A1 A2 A3]]. split; constructor; done.
Qed.

Section protecting.
  Context (b : blame).

Definition protected (w : world) (x prot g m : Z) : world :=
  World (with_generations g m (w_space w)) (<[x := with_prot prot (region w x)]> (w_regions w)).

Lemma protected_wf w x prot g m :
  vm_wf w -> x ∈ ids w -> prot_rwx (prot_to_mmu prot) = false ->
  vm_wf (protected w x prot g m) /\ ids (protected w x prot g m) = ids w.
Proof.
  intros [HS [A1 A2 A3]] Hx Hp. pose proof (shape_lookup _ _ HS Hx) as E. split; [|done].
  apply (generations_wf (set_region w x (with_prot prot (region w x)))). split.
  - apply (shape_update w x (region w x)); [done|done| |done|].
    + apply with_prot_ok; [by eapply vs_regions|done].
    + intros z q [Hz Ez]%lookup_delete_Some. destruct (shape_disjoint w z x q (region w x) HS Ez E ltac:(congruence)); [by left|by right].
  - constructor; unfold set_region; rewrite (total_update _ w (w_space w) x (region w x) _ HS E) by done.
    + etrans; [exact A1|]. f_equal. symmetry. apply Z.add_simpl_r.
    + etrans; [exact A2|]. f_equal. symmetry. apply Z.add_simpl_r.
    + etrans; [exact A3|]. f_equal. symmetry. apply Z.add_simpl_r.
Qed.

Lemma protect_pages_any root va e hw w Q :
  is_page_aligned va = true -> is_page_aligned e = true -> 0 <= va -> e < 2 ^ 64 ->
  Q tt w -> spec b (protect_pages (page_fuel va e) root va e hw) w Q.
Proof.
  intros Hv He H0 Hf HQ. remember (page_fuel va e) as fuel eqn:Ef.
  revert va Hv H0 Ef b. induction fuel as [|fuel IH]; intros va Hv H0 Ef b'; simpl;
    (destruct (Z.ltb_spec va e); [|by apply spec_ret]);
    destruct (page_step va e Hv He) as (E1 & E2 & E3); try lia;
    rewrite page_fuel_step in Ef by lia; [done|].
  apply spec_call_bind. intros r. rewrite E1.
  assert (Hgo : forall b'', spec b'' (protect_pages fuel root (va + VM_PAGE_SIZE) e hw) w Q).
  { intros b''. apply IH; [done|unfold VM_PAGE_SIZE; lia|by simplify_eq]. }
  destruct r as [u|err]; [apply Hgo|]. case_bool_decide; [apply Hgo|]. apply spec_fatal. right. left. simpl. eauto.
Qed.

Lemma rekey_slots_any l key f w Q : Q tt w -> spec b (rekey_slots l key f) w Q.
Proof.
  intros HQ. induction l as [|s l IH]; simpl; [by apply spec_ret|].
  destruct (negb (slot_live s) || _ || _); [by apply spec_bind, spec_ret|]. by apply spec_call_any.
Qed.

(** The policy of a region that was resolved is replaced, or a promise is
    broken. *)
Lemma commit_policy_ok {A} x c (k : expected unit -> M A) w Q :
  (forall m, spec b (k (Expected tt)) (World (with_generations (res_generation c) m (w_space w)) (w_regions w)) Q) ->
  (forall e b', broken b' -> spec b' (k (Unexpected e)) w Q) ->
  spec b (commit_region_policy x c ≫= k) w Q.
Proof.
  intros Hok Her. unfold spec, tspec. cbn. intros [u|e].
  - eapply wlp_mono; [|apply Hok]. intros t [[a w']|]; [done|]. by apply (dies_app b [_]).
  - set (ev := Ev (CObjectUpdatePolicy _ _) _). eapply wlp_mono; [|apply (Her e (after b ev)); right; left; simpl; eauto].
    intros t [[a w']|]; [done|]. apply dies_after.
Qed.

End protecting.

Section protect_ranges.
  Context (b : blame).

Lemma protect_region_ok root x prot w (Q : unit -> world -> Prop) :
  vm_wf w -> x ∈ ids w -> prot_rwx (prot_to_mmu prot) = false ->
  (forall g m, Q tt (protected w x prot g m)) -> spec b (protect_region root x prot) w Q.
Proof.
  intros [HS HA] Hx Hp HQ. pose proof (shape_lookup _ _ HS Hx) as E. pose proof (vs_regions _ HS _ _ E) as Hok.
  unfold protect_region. vstep. vstep. apply policy_key. intros key b1 Hb1 _ Hkey. vstep. apply policy_field_any. intros numa.
  vstep. apply authorize_any. intros g. unfold authorize_protect.
  destruct (authorize_mapping g _) as [c|err] eqn:Ea; cbn [mbind expected_bind].
  2:{ apply spec_fatal. destruct Hkey as [Hkey|?]; [exfalso|done].
      destruct (region_admitted g (w_space w) (region w x) prot key numa Hok Hp (vs_key _ HS) Hkey) as [c Ec]. congruence. }
  clear Ea Hkey Hb1. apply commit_policy_ok; [|intros e b' Hb'; by apply spec_fatal].
  intros m. vstep. apply spec_update_set. vstep.
  destruct (ro_align _ Hok), (ro_range _ Hok). apply protect_pages_any; [done|done|done|apply Hok|].
  vstep. apply policy_field_any. intros key'. vstep.
  assert (Hend : forall i, spec b1 (apply_vm_invalidation root (region w x) i)
    (protected w x prot (res_generation c) m) Q).
  { intros i. apply spec_call_unit. apply HQ. }
  destruct (pm_exists _); [apply rekey_slots_any|apply spec_ret]; apply Hend.
Qed.

Lemma protect_commit_ok root e prot fuel l1 l2 w (Q : unit -> world -> Prop) :
  vm_wf w -> prot_rwx (prot_to_mmu prot) = false -> ids w = l1 ++ l2 -> (length l2 <= fuel)%nat ->
  (forall w', vm_wf w' ->
     (forall z, w_regions w' !! z =
        (fun q => if bool_decide (z ∈ l1 \/ e <= r_va_start q) then q else with_prot prot q) <$> w_regions w !! z) ->
     Q tt w') ->
  spec b (protect_commit fuel root (list.head l2) e prot) w Q.
Proof.
  intros HW Hp. revert fuel l1 w HW. induction l2 as [|x l2 IH]; intros fuel l1 w HW Ei Hf HQ.
  { destruct fuel; simpl; apply spec_ret; (apply HQ; [done|]); intros z;
      (destruct (w_regions w !! z) as [q|] eqn:Ez; simpl; [|done]);
      apply (shape_elem _ _ _ (proj1 HW)) in Ez; rewrite Ei, app_nil_r in Ez;
      by rewrite bool_decide_eq_true_2 by by left. }
  pose proof HW as [HS HA]. assert (Hx : x ∈ ids w) by (rewrite Ei; apply elem_of_app; right; left).
  pose proof (shape_lookup _ _ HS Hx) as Ex.
  destruct fuel as [|fuel]; [simpl in Hf; lia|]. simpl. vstep. vstep. destruct (Z.leb_spec e (st w x)) as [Hle|Hgt].
  - apply spec_ret. apply HQ; [done|]. intros z. destruct (w_regions w !! z) as [q|] eqn:Ez; simpl; [|done].
    rewrite bool_decide_eq_true_2; [done|].
    pose proof (shape_elem _ _ _ HS Ez) as Hz. rewrite Ei in Hz. apply elem_of_app in Hz as [?|Hz]; [by left|right].
    pose proof (suffix_bound w l1 x l2 e z HS Ei Hle Hz) as Hb. unfold st in Hb. by rewrite (region_Some _ _ _ Ez) in Hb.
  - vstep. apply protect_region_ok; [done..|]. intros g m. destruct (protected_wf w x prot g m HW Hx Hp) as [HW' Hi'].
    vstep. vstep. change (inorder (sp_tree (w_space (protected w x prot g m)))) with (ids (protected w x prot g m)).
    rewrite (next_suffix _ l1 x l2 (proj1 HW')) by by rewrite Hi'.
    apply (IH fuel (l1 ++ [x])); [done|rewrite Hi', Ei; by rewrite <- app_assoc|simpl in Hf; lia|].
    intros w' Hw' HR. apply HQ; [done|]. intros z. rewrite HR. unfold protected. simpl.
    assert (Hnx : x ∉ l1).
    { intros Hin. pose proof (shape_NoDup _ HS) as Hnd. rewrite Ei in Hnd. apply list.NoDup_app in Hnd as (_ & Hd & _).
      apply (Hd x Hin). left. }
    destruct (decide (z = x)) as [->|Hne].
    + rewrite lookup_insert_eq, Ex. simpl. rewrite bool_decide_eq_true_2 by (left; apply elem_of_app; right; left).
      rewrite bool_decide_eq_false_2; [done|]. unfold st in Hgt. intros [?|?]; [done|lia].
    + rewrite lookup_insert_ne by done. destruct (w_regions w !! z) as [q|]; simpl; [|done].
      f_equal. apply (f_equal (fun c : bool => if c then q else with_prot prot q)). apply bool_decide_ext.
      rewrite elem_of_app, list_elem_of_singleton. naive_solver.
Qed.

Lemma protect_check_ok va e prot fuel l1 l2 w (Q : expected unit -> world -> Prop) :
  vm_shape w -> ids w = l1 ++ l2 -> (length l2 <= fuel)%nat -> (forall r, Q r w) ->
  spec b (protect_check fuel (list.head l2) va e prot) w Q.
Proof.
  intros HS. revert fuel l1. induction l2 as [|x l2 IH]; intros fuel l1 Ei Hf HQ.
  { destruct fuel; simpl; by apply spec_ret. }
  destruct fuel as [|fuel]; [simpl in Hf; lia|]. simpl. vstep. vstep.
  destruct (e <=? _); [by apply spec_ret|]. vstep. apply policy_field_any. intros key. vstep. apply policy_field_any. intros numa.
  vstep. apply authorize_any. intros g. destruct (authorize_protect _ _ _); [|apply HQ].
  apply spec_call_any. intros [v|]; [|by apply spec_ret].
  change (inorder (sp_tree (w_space w))) with (ids w). rewrite (next_suffix w l1 x l2 HS Ei).
  apply (IH fuel (l1 ++ [x])); [by rewrite <- app_assoc|simpl in Hf; lia|done].
Qed.
End protect_ranges.

(** The cell with a new protection. *)
Definition reprotect (prot : Z) (c : cell) : cell := let '(_, f, k, p) := c in (prot, f, k, p).

(** C16: protecting is exact.  From a well-formed space, [vm_protect] ends with a
    well-formed space and the same resident pages; on success the view differs
    from the old one exactly in the protection of the mapped addresses of the
    range, which is the requested one and never both writable and executable; on
    every error the view is the old one, also when the second of two splits
    fails.  The operation dies only after the environment broke a promise. *)
Theorem vm_protect_exact root va size prot w :
  vm_wf w -> fits 64 va -> fits 64 size ->
  spec strict (vm_protect root va size prot) w (fun res w' =>
    vm_wf w' /\ (forall s, has_slot w' s <-> has_slot w s) /\
    match res with
    | Expected _ =>
        has_flag prot prot_write && has_flag prot prot_exec = false /\
        (forall a, view w' a =
           if bool_decide (va <= a < va + size) then reprotect prot <$> view w a else view w a)
    | Unexpected _ => forall a, view w' a = view w a
    end).
Proof.
  intros HW Hv Hs. unfold vm_protect.
  destruct (Z.eqb_spec size 0) as [->|Hz]; cbn [orb]; [by apply spec_ret|].
  destruct (negb (is_page_aligned size)); [by apply spec_ret|].
  destruct (negb (is_page_aligned va)); [by apply spec_ret|]. vstep. vstep.
  destruct (validate_range va (u64 (va + size))) as [[]|err] eqn:Er; [|done].
  destruct (u64 (va + size) <? va) eqn:Elt; cbn [orb]; [by apply spec_ret|].
  destruct ((va <? VM_USER_START) || (VM_USER_END <? u64 (va + size))); [by apply spec_ret|].
  destruct (has_flag prot prot_write && has_flag prot prot_exec) eqn:Ewx; [by apply spec_ret|].
  assert (Hp : prot_rwx (prot_to_mmu prot) = false) by by rewrite prot_wx.
  destruct (admitted_range va size Hv Hs Er Hz Elt) as (E & H0 & Hf & Ha & Hae). rewrite E. clear Er Elt E.
  pose proof HW as [HS HA]. vstep. vstep.
  destruct (first_in_ok w va (va + size) HS ltac:(lia)) as (l1 & l2 & Ei & Ef & Hl1 & Hl2). rewrite Ef.
  destruct l2 as [|x l2]; cbn [list.head]; [by apply spec_ret|].
  vstep. change (Some x) with (list.head (x :: l2)). apply (protect_check_ok _ _ _ _ _ l1); [done|done|unfold region_fuel|].
  { change (inorder (sp_tree (w_space w))) with (ids w). rewrite Ei, length_app. simpl. lia. }
  intros [[]|err]; [|done]. vstep. apply split_ends_ok; [done..| |].
  { intros err w' HW' [? ?]. done. }
  clear l1 l2 x Ei Ef Hl1 Hl2. intros w1 HW1 [HV1 HS1'] C1 C2. pose proof HW1 as [HS1 HA1]. vstep. vstep.
  destruct (first_in_ok w1 va (va + size) HS1 ltac:(lia)) as (l1 & l2 & Ei & Ef & Hl1 & Hl2). rewrite Ef.
  vstep. apply protect_commit_ok with l1; [done|done|done|unfold region_fuel|].
  { change (inorder (sp_tree (w_space w1))) with (ids w1). rewrite Ei, length_app. lia. }
  intros w2 HW2 HR. apply spec_ret. split; [done|]. pose proof HW2 as [HS2 HA2].
  set (f := fun z q => if bool_decide (z ∈ l1 \/ va + size <= r_va_start q) then q else with_prot prot q).
  change (forall z, w_regions w2 !! z = f z <$> w_regions w1 !! z) in HR.
  assert (Hrange : forall z q, w_regions w1 !! z = Some q ->
    (f z q = q /\ (r_va_end q <= va \/ va + size <= r_va_start q)) \/
    (f z q = with_prot prot q /\ va <= r_va_start q /\ r_va_end q <= va + size)).
  { intros z q Ez. pose proof (shape_elem _ _ _ HS1 Ez) as Hz1. rewrite Ei in Hz1. unfold f.
    case_bool_decide as Hd.
    { left. split; [done|]. destruct Hd as [Hin|?]; [by eapply Hl1|by right]. }
    right. split; [done|]. assert (Hz2 : z ∈ l2) by (apply elem_of_app in Hz1; tauto).
    apply (cut_inside w1 _ _ z); [done..|lia|by apply (Hl2 z)]. }
  assert (Hsame : forall z q, r_va_start (f z q) = r_va_start q /\ r_va_end (f z q) = r_va_end q /\
    r_pages (f z q) = r_pages q) by (intros z q; unfold f; by case_bool_decide).
  split; [|split; [done|]].
  - intros s. rewrite <- HS1'. unfold has_slot. split.
    + intros (z & q & Ez & Hin). rewrite HR in Ez. apply fmap_Some in Ez as (q' & Ez & ->).
      destruct (Hsame z q') as (_ & _ & Ep). rewrite Ep in Hin. by exists z, q'.
    + intros (z & q & Ez & Hin). exists z, (f z q). rewrite HR, Ez. split; [done|]. by destruct (Hsame z q) as (_ & _ & ->).
  - intros a. rewrite <- HV1. destruct (view w1 a) as [c|] eqn:Ec.
    + apply (view_inv _ _ _ HS1) in Ec as (r & (z & Ez & Hr) & ->).
      destruct (Hsame z r) as (Es & Ee & _).
      rewrite (view_covered w2 a (f z r) HS2) by (exists z; rewrite HR, Ez, Es, Ee; done).
      destruct (Hrange z r Ez) as [[-> ?]|[-> ?]].
      * by rewrite bool_decide_eq_false_2 by lia.
      * by rewrite bool_decide_eq_true_2 by lia.
    + assert (Hn : view w2 a = None).
      { apply view_None; [done|]. intros r (z & Ez & Hr). rewrite HR in Ez. apply fmap_Some in Ez as (q & Ez & ->).
        destruct (Hsame z q) as (Es & Ee & _). rewrite Es, Ee in Hr.
        apply (proj1 (view_None _ _ HS1) Ec q). by exists z. }
      rewrite Hn. by case_bool_decide.
Qed.
