(* ===== verification/VmGap.v ===== *)
(** * The gap search

    [vm_find_gap] returns the highest free page range of the requested size
    below [mmap_base], and fails exactly when there is none. *)

From S2P Require Import Prelude Errors Kobject MemContract Prog VmTree VmTypes VmPages Vm VmInv VmSplit VmUnmap.

(** A free page range of [size] bytes in the mapping area. *)
Definition is_gap (w : world) (size a : Z) : Prop :=
  is_page_aligned a = true /\ VM_USER_START <= a /\ a + size <= sp_mmap_base (w_space w) /\
  range_free (w_regions w) a (a + size).

(** What a search promises of the address it returns: the highest gap, or an
    address whose range runs past the end of the address space when there is no
    gap. *)
Definition gap_answer (w : world) (size a : Z) : Prop :=
  (is_gap w size a /\ forall a', is_gap w size a' -> a' <= a) \/
  (fits 64 a /\ 2 ^ 64 <= a + size /\ forall a', ~ is_gap w size a').

Section gap.
  Context (w : world) (size : Z) (HS : vm_shape w).
  Context (Hsize : 0 < size < 2 ^ 64) (Hal : is_page_aligned size = true).
  Context (Htop : 0 <= sp_mmap_base (w_space w) < 2 ^ 64).
  Context (Htopal : is_page_aligned (sp_mmap_base (w_space w)) = true).

Lemma aligned_start_page g :
  is_page_aligned g = true -> 0 <= g < 2 ^ 64 ->
  aligned_start g size 4095 = if decide (size <= g) then g - size else g - size + 2 ^ 64.
Proof.
  intros Hg Hr. unfold aligned_start. change 4095 with (2 ^ 12 - 1).
  rewrite land_mask_down by (apply u64_fits || lia).
  assert (Hu : u64 (g - size) mod 4096 = 0).
  { apply aligned_mod. rewrite aligned_mod in *. apply aligned_mod, aligned_u64, aligned_mod.
    by rewrite Zminus_mod, Hg, Hal. }
  change (2 ^ 12) with 4096. rewrite <- Z_div_exact_full_2 by (done || lia).
  unfold u64, wrap. case_decide.
  - apply Z.mod_small. lia.
  - symmetry. apply (Z.mod_unique_pos _ _ (-1)); lia.
Qed.

(** All gaps end at or below [g], and no region starts between [g] and those
    of [l2]. *)
Record below (l1 l2 : list Z) (g : Z) : Prop := {
  bl_ids : ids w = l1 ++ l2;
  bl_top : 0 <= g <= sp_mmap_base (w_space w);
  bl_align : is_page_aligned g = true;
  bl_gaps : forall a, is_gap w size a -> a + size <= g;
  bl_below : forall z q, w_regions w !! z = Some q -> z ∈ l1 -> r_va_start q < g;
  bl_above : forall z q, w_regions w !! z = Some q -> z ∈ l2 -> g <= r_va_start q
}.

(** The range under [g] is free down to the end of the last region below. *)
Lemma below_free l1 x l2 g r a :
  below (l1 ++ [x]) l2 g -> w_regions w !! x = Some r -> r_va_end r <= a -> range_free (w_regions w) a g.
Proof.
  intros [Ei _ _ _ _ Hab] Ex Ha z q Ez. pose proof (shape_elem _ _ _ HS Ez) as Hz. rewrite Ei in Hz.
  apply elem_of_app in Hz as [Hz|Hz]; [left|right; by eapply Hab].
  destruct (decide (z = x)) as [->|Hne]; [by assert (q = r) as -> by congruence|].
  destruct (vs_order _ HS) as [Hs _]. change (inorder _) with (ids w) in Hs. rewrite Ei, <- app_assoc in Hs.
  apply sorted_app in Hs as (_ & _ & H3). specialize (H3 z x).
  apply elem_of_app in Hz as [Hz|Hz%list_elem_of_singleton]; [|done].
  specialize (H3 Hz ltac:(left)). unfold en, st in H3. rewrite (region_Some _ _ _ Ez), (region_Some _ _ _ Ex) in H3.
  pose proof (ro_range _ (vs_regions _ HS _ _ Ex)). lia.
Qed.

(** A test that fails moves the bound below the region. *)
Lemma below_step l1 x l2 g r :
  below (l1 ++ [x]) l2 g -> w_regions w !! x = Some r ->
  (forall a, is_gap w size a -> r_va_end r <= a -> False) -> below l1 (x :: l2) (r_va_start r).
Proof.
  intros [Ei Ht Hg Hgaps Hbe Hab] Ex Hno. pose proof (vs_regions _ HS _ _ Ex) as Hok.
  assert (Hlt : r_va_start r < g) by (apply (Hbe x r Ex), elem_of_app; right; left).
  constructor.
  - by rewrite Ei, <- app_assoc.
  - destruct (ro_range _ Hok). lia.
  - apply Hok.
  - intros a Hgap. destruct (proj2 (proj2 (proj2 Hgap)) x r Ex); [|done]. exfalso. by apply (Hno a).
  - intros z q Ez Hz. destruct (vs_order _ HS) as [Hs _]. change (inorder _) with (ids w) in Hs.
    rewrite Ei, <- app_assoc in Hs. apply sorted_app in Hs as (_ & _ & H3).
    specialize (H3 z x Hz ltac:(left)). unfold en, st in H3. rewrite (region_Some _ _ _ Ez), (region_Some _ _ _ Ex) in H3.
    pose proof (ro_range _ (vs_regions _ HS _ _ Ez)). lia.
  - intros z q Ez Hz. apply elem_of_cons in Hz as [->|Hz]; [by assert (q = r) as -> by congruence|].
    pose proof (Hab z q Ez Hz). lia.
Qed.

Lemma below_no_gap l1 l2 g : below l1 l2 g -> g < size -> forall a, ~ is_gap w size a.
Proof.
  intros [_ _ _ Hgaps _ _] Hlt a Hgap. pose proof (Hgaps a Hgap). destruct Hgap as (_ & Hu & _).
  unfold VM_USER_START in Hu. lia.
Qed.

Lemma gap_loop_ok fuel l1 l2 g :
  below l1 l2 g -> (length l1 <= fuel)%nat ->
  match gap_loop w size 4095 fuel (list.last l1) g with
  | inl a => gap_answer w size a
  | inr g' => exists l2', below [] l2' g'
  end.
Proof.
  revert fuel l2 g. induction l1 as [|x l1 IH] using rev_ind; intros fuel l2 g Hb Hf.
  { destruct fuel; simpl; by exists l2. }
  rewrite last_snoc. destruct fuel as [|fuel]; [rewrite length_app in Hf; simpl in Hf; lia|].
  cbn [gap_loop]. pose proof (bl_ids _ _ _ Hb) as Ei.
  assert (Hx : x ∈ ids w) by (rewrite Ei, !elem_of_app; left; right; left).
  pose proof (shape_lookup _ _ HS Hx) as Ex. pose proof (vs_regions _ HS _ _ Ex) as Hok.
  pose proof (bl_top _ _ _ Hb) as Ht. rewrite (aligned_start_page g) by (apply Hb || lia).
  unfold en. set (r := region w x) in *.
  destruct ((r_va_end r <? g) && ((r_va_end r <=? _) && (VM_USER_START <=? _))) eqn:Ec.
  - rewrite !andb_true_iff, Z.ltb_lt, !Z.leb_le in Ec. destruct Ec as (H1 & H2 & H3). case_decide as Hd.
    + left. split.
      * split_and!; [|done|lia|].
        -- rewrite aligned_mod. pose proof (bl_align _ _ _ Hb) as Hg. rewrite aligned_mod in Hg, Hal.
           by rewrite Zminus_mod, Hg, Hal.
        -- rewrite Z.sub_add. by eapply below_free.
      * intros a' Hgap. pose proof (bl_gaps _ _ _ Hb a' Hgap). lia.
    + right. split; [unfold fits; lia|]. split; [lia|]. apply (below_no_gap _ _ _ Hb). lia.
  - assert (Hprev : prev_in (inorder (sp_tree (w_space w))) x = list.last l1).
    { change (inorder _) with (ids w). rewrite Ei, <- app_assoc. apply prev_in_split.
      pose proof (shape_NoDup _ HS) as Hnd. rewrite Ei in Hnd. apply list.NoDup_app in Hnd as (_ & Hd & _).
      apply Hd, elem_of_app. right. left. }
    rewrite Hprev. unfold st. fold r. eapply IH; [|rewrite length_app in Hf; simpl in Hf; lia].
    apply (below_step l1 x l2 g r Hb Ex). intros a Hgap Hle.
    pose proof (bl_gaps _ _ _ Hb a Hgap) as Hag. destruct Hgap as (_ & Hu & _). unfold VM_USER_START in *.
    rewrite decide_True in Ec by lia.
    rewrite !andb_false_iff, Z.ltb_ge, !Z.leb_gt in Ec. lia.
Qed.

Lemma gap_start : exists l1 l2, below l1 l2 (sp_mmap_base (w_space w)) /\
  last_below (st w) (sp_tree (w_space w)) (sp_mmap_base (w_space w)) None = list.last l1.
Proof.
  destruct (last_below_spec (st w) (en w) (sp_tree (w_space w)) (sp_mmap_base (w_space w)) None (vs_order _ HS))
    as (l1 & l2 & Ei & H1 & H2 & El).
  exists l1, l2. split; [|rewrite El; by destruct (list.last l1)]. constructor; try done; [lia|by intros a (_ & _ & ? & _)| |].
  - intros z q Ez Hz. specialize (H1 z Hz). unfold st in H1. by rewrite (region_Some _ _ _ Ez) in H1.
  - intros z q Ez Hz. specialize (H2 z Hz). unfold st in H2. by rewrite (region_Some _ _ _ Ez) in H2.
Qed.

Lemma vm_find_gap_ok :
  match vm_find_gap w size VM_PAGE_SIZE with
  | Expected a => gap_answer w size a
  | Unexpected e => e = from_memory mem_out_of_memory /\ forall a, ~ is_gap w size a
  end.
Proof.
  unfold vm_find_gap. rewrite (proj2 (Z.eqb_neq size 0)) by lia. change (VM_PAGE_SIZE =? 0) with false.
  change (VM_PAGE_SIZE - 1) with 4095. cbv beta iota zeta.
  destruct gap_start as (l1 & l2 & Hb & ->).
  pose proof (gap_loop_ok (length (inorder (sp_tree (w_space w)))) l1 l2 _ Hb) as Hl.
  destruct (gap_loop _ _ _ _ _ _) as [a|g].
  { apply Hl. change (inorder (sp_tree (w_space w))) with (ids w). rewrite (bl_ids _ _ _ Hb), length_app. lia. }
  destruct Hl as (l2' & Hb').
  { change (inorder (sp_tree (w_space w))) with (ids w). rewrite (bl_ids _ _ _ Hb), length_app. lia. }
  clear Hb l1 l2. pose proof (bl_top _ _ _ Hb') as Ht.
  rewrite (aligned_start_page g) by (apply Hb' || lia). unfold VM_USER_START in *.
  destruct ((4194304 <? g) && (4194304 <=? _) && (_ <=? g)) eqn:Ec.
  - rewrite !andb_true_iff, Z.ltb_lt, !Z.leb_le in Ec. destruct Ec as ((H1 & H2) & H3). case_decide as Hd.
    + left. split.
      * split_and!; [|done|lia|].
        -- rewrite aligned_mod. pose proof (bl_align _ _ _ Hb') as Hg. rewrite aligned_mod in Hg, Hal.
           by rewrite Zminus_mod, Hg, Hal.
        -- rewrite Z.sub_add. intros z q Ez. right. apply (bl_above _ _ _ Hb' z q Ez).
           pose proof (shape_elem _ _ _ HS Ez) as Hz. by rewrite (bl_ids _ _ _ Hb') in Hz.
      * intros a' Hgap. pose proof (bl_gaps _ _ _ Hb' a' Hgap). lia.
    + right. split; [unfold fits; lia|]. split; [lia|]. apply (below_no_gap _ _ _ Hb'). lia.
  - split; [done|]. intros a Hgap. pose proof (bl_gaps _ _ _ Hb' a Hgap) as Hag. destruct Hgap as (_ & Hu & _).
    unfold VM_USER_START in Hu. rewrite decide_True in Ec by lia.
    replace (u64 (g - size + size)) with g in Ec by (rewrite Z.sub_add; symmetry; apply u64_small; unfold fits; lia).
    rewrite !andb_false_iff, Z.ltb_ge, !Z.leb_gt in Ec. lia.
Qed.
End gap.

(** the gap search is exact.  In a well-formed space with a page-aligned
    [mmap_base], a search for a page-aligned size returns the highest page-aligned
    address at which the range is free and lies between [VM_USER_START] and
    [mmap_base], whatever regions lie below, above or across [mmap_base]; it fails
    exactly when there is no such address, or returns an address whose range runs
    past the end of the address space (which the contract then refuses). *)
Theorem vm_find_gap_exact w size :
  vm_shape w -> 0 < size < 2 ^ 64 -> is_page_aligned size = true ->
  0 <= sp_mmap_base (w_space w) < 2 ^ 64 -> is_page_aligned (sp_mmap_base (w_space w)) = true ->
  match vm_find_gap w size VM_PAGE_SIZE with
  | Expected a => (is_gap w size a /\ forall a', is_gap w size a' -> a' <= a) \/
                  (fits 64 a /\ 2 ^ 64 <= a + size /\ forall a', ~ is_gap w size a')
  | Unexpected e => e = from_memory mem_out_of_memory /\ forall a, ~ is_gap w size a
  end.
Proof. apply vm_find_gap_ok. Qed.
