(* ===== verification/VmMap.v ===== *)
(** * Mapping

    [vm_map] and [vm_map_fixed] against the view of the address space: a
    successful call adds exactly the requested range, a failed one changes
    nothing but the generation counters. *)

From S2P Require Import Prelude Errors Kobject MemContract Prog VmTree VmTypes VmPages Vm VmInv VmSplit VmUnmap VmProtect VmGap.

(** A reference no region holds. *)
Lemma fresh_ref_ne w t z q :
  w_regions w !! z = Some q -> t <> kt_none ->
  same_memory_ref (r_storage q) (fresh_ref w t) = false /\ same_memory_ref (fresh_ref w t) (r_storage q) = false.
Proof.
  intros Ez Ht.
  assert (Hb : region_bound q <= map_fold (fun _ r a => Z.max a (region_bound r)) 0 (w_regions w)).
  { revert z Ez. apply (map_fold_weak_ind (fun a m => forall z, m !! z = Some q -> region_bound q <= a)).
    - intros k Hk. by rewrite lookup_empty in Hk.
    - intros i r m' a _ IH k Hk. apply lookup_insert_Some in Hk as [[_ ->]|[_ Hk]]; [lia|].
      specialize (IH k Hk). lia. }
  unfold same_memory_ref, fresh_ref. simpl.
  assert (Hne : r_storage q <> null_ref -> mr_id (r_storage q) <>
    map_fold (fun _ r a => Z.max a (region_bound r)) 0 (w_regions w)).
  { intros Hn. assert (mr_id (r_storage q) < region_bound q); [|lia]. unfold region_bound.
    assert (ref_bound (r_storage q) = mr_id (r_storage q) + 1); [|lia].
    unfold ref_bound. by rewrite bool_decide_eq_false_2. }
  destruct (decide (r_storage q = null_ref)) as [E|Hn].
  - rewrite E. simpl. rewrite !bool_decide_eq_false_2 by done. done.
  - specialize (Hne Hn). rewrite (proj2 (Z.eqb_neq _ _) Hne).
    rewrite (proj2 (Z.eqb_neq _ _) (not_eq_sym Hne)). by rewrite !andb_false_r.
Qed.

Lemma next_in_elem l x n : next_in l x = Some n -> n ∈ l /\ (NoDup l -> n <> x).
Proof.
  induction l as [|y l IH]; simpl; [done|]. destruct (Z.eqb_spec y x) as [->|Hne].
  - intros Hh. apply head_Some_elem_of in Hh as Hin. split; [by right|]. intros [Hx _]%list.NoDup_cons ->. done.
  - intros [Hin Hn]%IH. split; [by right|]. intros [_ Hd]%list.NoDup_cons. by apply Hn.
Qed.

Section merging.
  Context (b : blame).

Lemma mergeable_no a c w Q :
  same_memory_ref (r_storage a) (r_storage c) = false -> Q false w -> spec b (mergeable a c) w Q.
Proof.
  intros Hs HQ. unfold mergeable. rewrite Hs, andb_false_r, andb_false_l. by apply spec_ret.
Qed.

(** A region whose storage object is its own merges with no neighbour. *)
Lemma try_merge_alone x w (Q : unit -> world -> Prop) :
  vm_shape w -> x ∈ ids w ->
  (forall z q, w_regions w !! z = Some q -> z <> x ->
     same_memory_ref (r_storage q) (r_storage (region w x)) = false /\
     same_memory_ref (r_storage (region w x)) (r_storage q) = false) ->
  Q tt w -> spec b (vm_try_merge x) w Q.
Proof.
  intros HS Hx Hown HQ. unfold vm_try_merge. vstep. vstep. destruct (has_flag _ _ || _); [by apply spec_ret|].
  pose proof (shape_NoDup _ HS) as Hnd. vstep. vstep. vstep.
  assert (Hel : forall z, z ∈ ids w -> w_regions w !! z = Some (region w z)) by (intros; by apply shape_lookup).
  match goal with |- spec _ _ _ ?R => assert (Hgo : R tt w) end.
  { cbv beta. vstep. vstep. change (inorder (sp_tree (w_space w))) with (ids w).
    destruct (prev_in (ids w) x) as [p|] eqn:Ep; [|by apply spec_ret].
    unfold prev_in in Ep. apply next_in_elem in Ep as [Hp Hpx]. rewrite elem_of_reverse in Hp.
    destruct (Hown p (region w p) (Hel p Hp)) as [H1 H2]; [apply Hpx; by rewrite reverse_Permutation|].
    vstep. vstep. unfold try_absorb. vstep. vstep. vstep. vstep. vstep. by apply mergeable_no, spec_ret. }
  change (inorder (sp_tree (w_space w))) with (ids w).
  destruct (next_in (ids w) x) as [n|] eqn:En; [|by apply spec_ret].
  apply next_in_elem in En as [Hn Hnx]. destruct (Hown n (region w n) (Hel n Hn) (Hnx Hnd)) as [H1 H2].
  vstep. vstep. unfold try_absorb. vstep. vstep. vstep. vstep. vstep. apply mergeable_no; [done|]. by apply spec_ret.
Qed.
End merging.

(** The descriptor [map_prepare] hands out. *)
Record prepared (va size prot flags : Z) (backing : vm_backing) (phys : Z) (n : vm_region) : Prop := {
  pr_range : r_va_start n = va /\ r_va_end n = u64 (va + size);
  pr_attrs : r_prot n = prot /\ r_flags n = flags /\ r_backing n = backing /\ r_phys_base n = phys;
  pr_pages : r_pages n = empty_page_map;
  pr_counts : r_committed n = 0 /\ r_resident n = 0
}.

Definition own_storage (w : world) (n : vm_region) : Prop :=
  forall z q, w_regions w !! z = Some q ->
    same_memory_ref (r_storage q) (r_storage n) = false /\ same_memory_ref (r_storage n) (r_storage q) = false.

Section mapping.
  Context (b : blame).

Lemma create_objects_ok x policy n w (Q : expected unit -> world -> Prop) :
  w_regions w !! x = None ->
  (forall e n', Q (Unexpected e) (set_region w x n')) ->
  (forall s g m, own_storage w (with_objects s g m (r_extent n) n) ->
     Q (Expected tt) (set_region w x (with_objects s g m (r_extent n) n))) ->
  spec b (create_region_memory_objects x policy) (set_region w x n) Q.
Proof.
  intros Ex He HQ. unfold create_region_memory_objects. vstep. vstep. vstep. vstep. rewrite set_region_eq.
  vstep. unfold create_object at 1. apply spec_call_any. intros [u|e]; [|apply spec_ret, He]. vstep. vstep. apply spec_ret.
  set (storage := fresh_ref _ kt_storage).
  assert (Hown : forall g m e, own_storage w (with_objects storage g m e n)).
  { intros g m e z q Ez. simpl. apply (fresh_ref_ne _ _ z); [|done]. simpl. rewrite lookup_insert_ne by congruence. done. }
  vstep. apply spec_update_set. rewrite set_set, set_region_eq. vstep. unfold create_object.
  apply spec_call_any. intros [u1|e]; [|apply spec_ret; apply spec_call_any; intros _; apply spec_ret, He].
  vstep. vstep. apply spec_ret. set (grant := fresh_ref _ kt_grant).
  vstep. apply spec_update_set. rewrite set_set, set_region_eq. vstep. apply create_mapping_ok.
  - intros e. do 2 (apply spec_call_any; intros _). apply spec_ret, He.
  - intros m. apply spec_ret. rewrite set_set, set_region_eq. simpl. apply HQ. apply Hown.
Qed.

Lemma map_prepare_ok va size prot flags backing phys policy w (Q : expected Z -> world -> Prop) :
  (forall e, Q (Unexpected e) w) ->
  (forall x n, w_regions w !! x = None -> prepared va size prot flags backing phys n -> own_storage w n ->
     Q (Expected x) (set_region w x n)) ->
  spec b (map_prepare va size prot flags backing phys policy) w Q.
Proof.
  intros He HQ. unfold map_prepare. vstep. vstep. vstep. unfold alloc_region. vstep. apply spec_call.
  intros [u|e]; [|apply He]. vstep. vstep. pose proof (fresh_id_fresh (w_regions w)) as Hx.
  set (x := fresh_id (w_regions w)) in *. vstep. apply spec_put_set, spec_ret.
  vstep. apply spec_update_set. rewrite set_set, set_region_eq.
  assert (Hback : forall n, del_region (set_region w x n) x = w) by (intros n; by apply set_del_fresh).
  apply spec_call_any. intros [u1|e]; [|apply abandon_ret; rewrite Hback; apply He].
  vstep. apply attach_any. intros [u2|e]; [|apply abandon_ret; rewrite Hback; apply He].
  vstep. apply create_objects_ok; [done| |].
  - intros e n'. apply abandon_ret. rewrite Hback. apply He.
  - intros s g m Hown. apply spec_ret. apply HQ; [done|by constructor|done].
Qed.
End mapping.

(** The region a successful mapping adds. *)
Record mapped_region (va e prot flags : Z) (backing : vm_backing) (phys : Z) (n : vm_region) : Prop := {
  mr_range : r_va_start n = va /\ r_va_end n = e;
  mr_attrs : r_prot n = prot /\ r_flags n = flags /\ r_backing n = backing /\ r_phys_base n = phys;
  mr_empty : lives (r_pages n) = []
}.

Section map_insert.
  Context (b : blame).

(** The insertion is refused when its start is taken, and otherwise adds the
    region; [Hlater]: the range does not run into a later region. *)
Lemma map_commit_ok x size policy g physical n w (Q : expected unit -> world -> Prop) :
  vm_wf w -> w_regions w !! x = None -> region_ok (with_linked true n) -> own_storage w n ->
  r_pages n = empty_page_map -> r_committed n = 0 -> r_resident n = 0 -> size = span n ->
  sp_region_count (w_space w) < sp_max_regions (w_space w) ->
  (forall z q, w_regions w !! z = Some q -> r_va_start n < r_va_start q -> r_va_end n <= r_va_start q) ->
  (forall m e, (exists z q, w_regions w !! z = Some q /\ r_va_start q <= r_va_start n < r_va_end q) ->
     Q (Unexpected e) (World (with_generations g m (w_space w)) (w_regions w))) ->
  (forall w' n', vm_wf w' -> w_regions w' = <[x := n']> (w_regions w) ->
     range_free (w_regions w) (r_va_start n) (r_va_end n) ->
     mapped_region (r_va_start n) (r_va_end n) (r_prot n) (r_flags n) (r_backing n) (r_phys_base n) n' ->
     Q (Expected tt) w') ->
  spec b (map_commit x size policy g physical) (set_region w x n) Q.
Proof.
  intros HW0 Ex Hok Hown Hpg Hc Hr Hsz Hmax Hlater HE HQ. unfold map_commit. vstep. vstep.
  set (mg := mp_mapping_generation policy). specialize (HE mg).
  pose proof (generations_wf w g mg HW0) as HW.
  set (w0 := World (with_generations g mg (w_space w)) (w_regions w)) in *.
  change (World _ (w_regions (set_region w x n))) with (set_region w0 x n). pose proof HW as [HS [A1 A2 A3]].
  assert (Hxi : x ∉ ids w0). { intros Hin. apply (vs_dom _ HS) in Hin as [? ?]. unfold w0 in *. simpl in *. congruence. }
  unfold rb_insert_region. vstep. vstep. vstep.
  match goal with |- spec _ (match rb_plan_insert ?s ?e ?o ?t ?v with _ => _ end) _ _ =>
    assert (Eplan : rb_plan_insert s e o t v = rb_plan_insert (st w0) (en w0) None (sp_tree (w_space w0)) (r_va_start n)) end.
  { unfold st at 2. rewrite set_region_eq. apply rb_plan_ext. intros z Hz. change (z ∈ ids w0) in Hz.
    unfold st, en, set_region. rewrite (region_insert_ne _ (w_space w0)), world_eta by congruence. done. }
  rewrite Eplan. clear Eplan. destruct (rb_plan_insert _ _ _ _ _) as [plan|] eqn:Ep.
  2:{ apply spec_ret. cbn [negb]. apply destroy_abandon; [rewrite set_region_eq, Hpg; constructor|].
      rewrite set_del_fresh by done. apply HE. apply (rb_plan_None _ _ _ _ (vs_order _ HS)) in Ep as (z & Hz & Hr').
      pose proof (shape_lookup _ _ HS Hz) as Ez. exists z, (region w0 z). done. }
  assert (Hfree : range_free (w_regions w0) (r_va_start n) (r_va_end n)).
  { intros z q Ez. assert (Hn : rb_plan_insert (st w0) (en w0) None (sp_tree (w_space w0)) (r_va_start n) <> None) by congruence.
    rewrite (rb_plan_None _ _ _ _ (vs_order _ HS)) in Hn. destruct (Z.lt_ge_cases (r_va_start n) (r_va_start q)) as [Hlt|Hge].
    { right. by apply (Hlater z q). }
    left. destruct (Z.lt_ge_cases (r_va_start n) (r_va_end q)); [exfalso|done]. apply Hn. exists z.
    split; [by eapply shape_elem|]. unfold st, en. by rewrite (region_Some _ _ _ Ez). }
  unfold rb_commit_insert. vstep. vstep. vstep. apply spec_update_set, spec_ret. cbn [negb].
  change (World (with_tree _ _) (w_regions (set_region w0 x n))) with
    (set_region (World (with_tree (rb_link (sp_tree (w_space w0)) plan.1 x) (w_space w0)) (w_regions w0)) x n).
  rewrite set_set, set_region_eq. vstep. vstep.
  match goal with |- spec _ _ ?W _ => change W with
    (add_region w0 (rb_link (sp_tree (w_space w0)) plan.1 x) x (with_linked true n)
       (u64 (sp_total_mapped (w_space w0) + size)) (sp_total_committed (w_space w0)) (sp_total_resident (w_space w0))) end.
  assert (Hpos : physical = 0 -> forall F, F n = 0 -> F n = physical) by (intros -> F HF; done).
  assert (Hfin : forall n', (n' = with_linked true n /\ physical = 0) \/ n' = with_counts physical physical (with_linked true n) ->
    spec b (_ ← vm_try_merge x; mret (Expected tt))
      (add_region w0 (rb_link (sp_tree (w_space w0)) plan.1 x) x n'
         (u64 (sp_total_mapped (w_space w0) + size)) (u64 (sp_total_committed (w_space w0) + physical))
         (u64 (sp_total_resident (w_space w0) + physical))) Q).
  { intros n' Hn'.
    assert (Hn1 : region_ok n') by (destruct Hn' as [[-> _]| ->]; [done|by destruct Hok]).
    assert (Hn2 : r_va_start n' = r_va_start n /\ r_va_end n' = r_va_end n /\ r_storage n' = r_storage n /\
      r_committed n' = physical /\ r_resident n' = physical) by (destruct Hn' as [[-> ->]| ->]; done).
    destruct Hn2 as (N1 & N2 & N3 & N4 & N5).
    destruct (shape_insert w0 x n' plan (u64 (sp_total_mapped (w_space w0) + size)) (u64 (sp_total_committed (w_space w0) + physical))
         (u64 (sp_total_resident (w_space w0) + physical)) HS) as [HS' (l1 & l2 & I1 & I2)];
      [done|done|pose proof (vs_max _ HS); unfold w0 in *; simpl in *; lia|by rewrite N1|by rewrite N1, N2|].
    set (w' := add_region _ _ _ _ _ _ _) in *.
    assert (HT : forall F, total F w' = total F w0 + F n').
    { intros F. unfold w', add_region. apply (total_insert F w0 _ x n' l1 l2); done. }
    assert (HW' : vm_wf w').
    { split; [exact HS'|]. constructor; rewrite HT; unfold w', add_region; simpl.
      - change (sp_total_mapped (w_space w)) with (sp_total_mapped (w_space w0)).
        rewrite A1, u64_add_l, Hsz. unfold span. by rewrite N1, N2.
      - change (sp_total_committed (w_space w)) with (sp_total_committed (w_space w0)). by rewrite A2, u64_add_l, N4.
      - change (sp_total_resident (w_space w)) with (sp_total_resident (w_space w0)). by rewrite A3, u64_add_l, N5. }
    assert (Hx' : region w' x = n') by apply region_insert_eq.
    vstep. apply try_merge_alone.
    - exact HS'.
    - rewrite I2. apply elem_of_app. right. left.
    - intros z q Ez Hz. rewrite Hx', N3. apply (Hown z q). unfold w', add_region in Ez. simpl in Ez.
      by rewrite lookup_insert_ne in Ez by done.
    - apply spec_ret. apply (HQ w' n' HW'); [done|exact Hfree|].
      destruct Hn' as [[-> _]| ->]; constructor; try done; simpl; by rewrite Hpg. }
  destruct (Z.eqb_spec physical 0) as [->|Hp].
  - apply spec_bind, spec_ret. specialize (Hfin (with_linked true n) ltac:(by left)).
    rewrite !Z.add_0_r, A2, A3 in Hfin.
    rewrite (u64_small (u64 (total r_committed w0))), (u64_small (u64 (total r_resident w0))), <- A2, <- A3 in Hfin by apply u64_fits.
    exact Hfin.
  - vstep. vstep. apply spec_update_set. vstep.
    specialize (Hfin _ ltac:(by right)).
    match goal with |- spec _ _ ?W _ => match type of Hfin with spec _ _ ?V _ => assert (W = V) as ->; [|exact Hfin] end end.
    unfold add_region, set_region. simpl. f_equal. rewrite region_insert_eq. by rewrite insert_insert_eq.
Qed.
End map_insert.

(** ** The view after a mapping *)

Definition mapped_cell (prot flags : Z) (backing : vm_backing) (phys va a : Z) : cell :=
  (prot, flags, backing, if bool_decide (backing = bk_physical) then u64 (phys + (a - va)) else 0).

Lemma mapped_view w w' x n va e prot flags backing phys :
  vm_shape w -> vm_shape w' -> w_regions w !! x = None -> w_regions w' = <[x := n]> (w_regions w) ->
  mapped_region va e prot flags backing phys n -> range_free (w_regions w) va e ->
  (forall a, view w' a = if bool_decide (va <= a < e) then Some (mapped_cell prot flags backing phys va a) else view w a) /\
  (forall s, has_slot w' s <-> has_slot w s).
Proof.
  intros HS HS' Ex Er [[R1 R2] (A1 & A2 & A3 & A4) Hl] Hfree. split.
  - intros a. case_bool_decide as Hr.
    + rewrite (view_covered w' a n HS').
      * unfold cell_at, mapped_cell. by rewrite A1, A2, A3, A4, R1.
      * exists x. rewrite Er, lookup_insert_eq, R1, R2. done.
    + apply view_agree; [done|done| |].
      * intros r (z & Ez & Hz). exists r. split; [|done]. exists z. split; [|done].
        rewrite Er, lookup_insert_ne by congruence. done.
      * intros r (z & Ez & Hz). rewrite Er in Ez. apply lookup_insert_Some in Ez as [[<- <-]|[_ Ez]]; [lia|]. by exists r, z.
  - intros s. unfold has_slot. rewrite Er. split.
    + intros (z & q & Ez & Hs). apply lookup_insert_Some in Ez as [[<- <-]|[_ Ez]]; [|by exists z, q].
      rewrite Hl in Hs. by apply elem_of_nil in Hs.
    + intros (z & q & Ez & Hs). exists z, q. split; [|done]. by rewrite lookup_insert_ne by congruence.
Qed.

Lemma generations_same w g m : same_space w (World (with_generations g m (w_space w)) (w_regions w)).
Proof. done. Qed.

Lemma prepared_ok va size prot flags backing phys n :
  prepared va size prot flags backing phys n -> 0 <= va -> 0 < size -> va + size < 2 ^ 64 ->
  is_page_aligned va = true -> is_page_aligned (va + size) = true ->
  prot_rwx (prot_to_mmu prot) = false -> is_page_aligned phys = true ->
  region_ok (with_linked true n) /\ r_va_end n = va + size.
Proof.
  intros [[R1 R2] (A1 & A2 & A3 & A4) Hp _] H0 Hsz Hf Ha Hae Hwx Hph.
  assert (E : u64 (va + size) = va + size) by (apply u64_small; unfold fits; lia). rewrite E in R2. split; [|done].
  constructor; simpl; rewrite ?R1, ?R2, ?A1, ?A4, ?Hp; try done; [lia|apply empty_pages_ok].
Qed.

(** What an authorized request says. *)
Lemma authorized_range g s va size prot flags backing phys c :
  fits 64 va -> 0 < size < 2 ^ 64 ->
  authorize_mapping g (build_contract_request s va size prot flags backing phys 0 0) = Expected c ->
  va + size < 2 ^ 64 /\ is_page_aligned va = true /\ is_page_aligned (va + size) = true /\
  prot_rwx (prot_to_mmu prot) = false /\ is_page_aligned phys = true.
Proof.
  intros Hv Hs Ha. apply authorize_mapping_ok in Ha as [[H1 [H2 H3] H4 H5 H6 _ _] _].
  - unfold build_contract_request in *. cbn [va_start va_end rq_length rq_prot phys_start] in *.
    assert (Hlt : va + size < 2 ^ 64).
    { unwrap_u. destruct (Z.lt_ge_cases (va + size) 18446744073709551616); [done|].
      assert ((va + size) mod 18446744073709551616 = va + size - 18446744073709551616) as E; [|lia].
      symmetry. apply (Z.mod_unique_pos _ _ 1); lia. }
    rewrite u64_small in H3 by (unfold fits in *; lia). split_and!; try done.
    destruct H6 as [->|?]; done.
  - unfold request_typed, build_contract_request. simpl. split_and!; [done|apply u64_fits|unfold fits; lia].
Qed.

(** C6: mapping is exact.  In a well-formed space with a page-aligned [mmap_base],
    a successful [vm_map] returns the highest free page range of that size below
    [mmap_base] and adds exactly this range to the view with the requested
    protection, flags and backing, leaving every other mapping and all resident
    pages alone; on every error (arguments, no gap, contract, table full, no
    memory for an object) view and pages are the old ones.  The space stays well
    formed and the operation does not die. *)
Theorem vm_map_exact size prot flags w :
  vm_wf w -> fits 64 size ->
  0 <= sp_mmap_base (w_space w) < 2 ^ 64 -> is_page_aligned (sp_mmap_base (w_space w)) = true ->
  let backing := if has_flag flags vf_file then bk_file
                 else if has_flag flags vf_ipc then bk_ipc_shared else bk_anonymous in
  spec strict (vm_map size prot flags) w (fun res w' =>
    vm_wf w' /\ (forall s, has_slot w' s <-> has_slot w s) /\
    match res with
    | Expected va =>
        is_gap w size va /\ (forall a, is_gap w size a -> a <= va) /\
        (forall a, view w' a = if bool_decide (va <= a < va + size)
                               then Some (prot, flags, backing, 0) else view w a)
    | Unexpected _ => forall a, view w' a = view w a
    end).
Proof.
  intros HW Hs Htop Htopal backing. unfold vm_map.
  destruct (Z.eqb_spec size 0) as [->|Hz]; cbn [orb]; [by apply spec_ret|].
  destruct (is_page_aligned size) eqn:Hsal; cbn [negb]; [|by apply spec_ret]. vstep. vstep.
  destruct (Z.leb_spec (sp_max_regions (w_space w)) (sp_region_count (w_space w))); [by apply spec_ret|].
  pose proof HW as [HS HA]. assert (Hs' : 0 < size < 2 ^ 64) by (unfold fits in Hs; lia).
  pose proof (vm_find_gap_ok w size HS Hs' Hsal Htop Htopal) as Hgap. vstep. vstep.
  destruct (vm_find_gap w size VM_PAGE_SIZE) as [va|err]; [|done].
  fold backing. vstep. apply authorize_any. intros g.
  destruct (authorize_mapping g _) as [c|err] eqn:Ea; [|done].
  assert (Hva : fits 64 va).
  { destruct Hgap as [[(_ & ? & ? & _) _]|[? _]]; unfold fits, VM_USER_START in *; [lia|done]. }
  destruct (authorized_range g _ va size prot flags backing 0 c Hva Hs' Ea) as (Hlt & Ha & Hae & Hwx & _).
  destruct Hgap as [[Hg Hmx]|(_ & ? & _)]; [|lia]. pose proof Hg as (_ & Hu & Htp & Hfree).
  vstep. apply map_prepare_ok; [done|]. intros x n Ex Hn Hown.
  destruct (prepared_ok _ _ _ _ _ _ n Hn) as [Hok Hend]; [unfold fits in Hva; lia|lia|done..|].
  destruct Hn as [[R1 R2] (A1 & A2 & A3 & A4) Hp [C1 C2]].
  vstep. apply map_commit_ok; try done.
  - unfold span. lia.
  - intros z q Ez Hlt'. destruct (Hfree z q Ez); [|lia]. pose proof (ro_range _ (vs_regions _ HS _ _ Ez)). lia.
  - intros m e (z & q & Ez & Hr). exfalso. destruct (Hfree z q Ez); lia.
  - intros w' n' HW' Er _ Hn'. rewrite R1, Hend, A1, A2, A3, A4 in Hn'. apply spec_ret.
    destruct (mapped_view w w' x n' _ _ _ _ _ _ HS (proj1 HW') Ex Er Hn' Hfree) as [HV HSl].
    split; [done|]. split; [done|]. split; [done|]. split; [done|]. intros a. rewrite HV.
    case_bool_decide; [|done]. unfold mapped_cell. unfold backing.
    destruct (has_flag flags vf_file), (has_flag flags vf_ipc); by rewrite bool_decide_eq_false_2 by done.
Qed.

Lemma check_extent_any b extent phys size w (Q : expected unit -> world -> Prop) :
  (forall r, Q r w) -> spec b (check_extent extent phys size) w Q.
Proof.
  intros HQ. unfold check_extent. destruct (ref_valid extent); [|by apply spec_ret].
  apply spec_call_any. intros [v|]; [|by apply spec_ret].
  destruct (negb _ || _ || _ || _); [by apply spec_ret|by apply spec_call].
Qed.

Lemma user_range va size :
  fits 64 va -> 0 < size < 2 ^ 64 -> user_range_ok va size = true ->
  VM_USER_START <= va /\ va + size <= VM_USER_END.
Proof.
  unfold user_range_ok. intros Hv Hs. rewrite negb_true_iff, !orb_false_iff, Z.ltb_ge, Z.leb_gt, !Z.ltb_ge.
  intros (((H1 & H2) & H3) & H4). split; [done|]. rewrite u64_small in H4; [done|].
  unfold fits in *. split; [lia|]. destruct (Z.lt_ge_cases (va + size) (2 ^ 64)); [done|exfalso].
  assert (u64 (va + size) = va + size - 2 ^ 64) as E.
  { unfold u64, wrap. symmetry. apply (Z.mod_unique_pos _ _ 1); lia. }
  lia.
Qed.

(** C17: mapping at a fixed address is exact when the range does not run into a
    region above its start.  A successful [vm_map_fixed] found the range free,
    inside the user address range and not writable and executable at once, and
    adds exactly this range to the view with the requested attributes and, for
    physical memory, the consecutive physical addresses from [phys_base]; a range
    whose start lies in a region and every other failure leaves view and resident
    pages alone.  The space stays well formed, its counters exact. *)
Theorem vm_map_fixed_exact va size prot flags backing phys extent w :
  vm_wf w -> fits 64 va -> fits 64 size ->
  (forall z q, w_regions w !! z = Some q -> va < r_va_start q -> va + size <= r_va_start q) ->
  spec strict (vm_map_fixed va size prot flags backing phys extent) w (fun res w' =>
    vm_wf w' /\ (forall s, has_slot w' s <-> has_slot w s) /\
    match res with
    | Expected _ =>
        range_free (w_regions w) va (va + size) /\
        VM_USER_START <= va /\ va + size <= VM_USER_END /\
        has_flag prot prot_write && has_flag prot prot_exec = false /\
        (forall a, view w' a = if bool_decide (va <= a < va + size)
           then Some (mapped_cell prot flags backing phys va a) else view w a)
    | Unexpected _ => forall a, view w' a = view w a
    end).
Proof.
  intros HW Hv Hs Hlater. unfold vm_map_fixed.
  destruct (Z.eqb_spec size 0) as [->|Hz]; cbn [orb]; [by apply spec_ret|].
  destruct (is_page_aligned size) eqn:Hsal; cbn [negb]; [|by apply spec_ret].
  destruct (is_page_aligned va) eqn:Hval; cbn [negb]; [|by apply spec_ret].
  assert (Hs' : 0 < size < 2 ^ 64) by (unfold fits in Hs; lia).
  destruct (user_range_ok va size) eqn:Eu; cbn [negb]; [|by apply spec_ret].
  destruct (user_range va size Hv Hs' Eu) as [Hu1 Hu2].
  destruct (has_flag prot prot_write && has_flag prot prot_exec) eqn:Ewx; [by apply spec_ret|].
  destruct (ref_valid extent && _); [by apply spec_ret|]. vstep. apply check_extent_any. intros [[]|err]; [|done].
  vstep. vstep. vstep. apply authorize_any. intros g.
  destruct (authorize_mapping g _) as [c|err] eqn:Ea; [|done].
  destruct (authorized_range g _ va size prot flags backing phys c Hv Hs' Ea) as (Hlt & Ha & Hae & Hwx & Hph).
  destruct (Z.leb_spec (sp_max_regions (w_space w)) (sp_region_count (w_space w))); [by apply spec_ret|].
  destruct (_ && negb (vm_commit_admitted _ _)); [by apply spec_ret|].
  pose proof HW as [HS HA]. vstep. apply map_prepare_ok; [done|]. intros x n Ex Hn Hown.
  match goal with |- spec _ (_ ≫= ?k) _ _ => assert (Hgo : spec strict (k (Expected tt)) (set_region w x n)
    (fun res w' => vm_wf w' /\ (forall s, has_slot w' s <-> has_slot w s) /\
      match res with
      | Expected _ =>
          range_free (w_regions w) va (va + size) /\ VM_USER_START <= va /\ va + size <= VM_USER_END /\ false = false /\
          (forall a, view w' a = if bool_decide (va <= a < va + size)
             then Some (mapped_cell prot flags backing phys va a) else view w a)
      | Unexpected _ => forall a, view w' a = view w a
      end)) end.
  { cbv beta iota.
    assert (Hcommit : forall n', prepared va size prot flags backing phys n' -> own_storage w n' -> forall p ph,
      spec strict (map_commit x size p (res_generation c) ph) (set_region w x n')
        (fun res w' => vm_wf w' /\ (forall s, has_slot w' s <-> has_slot w s) /\
          match res with
          | Expected _ =>
              range_free (w_regions w) va (va + size) /\ VM_USER_START <= va /\ va + size <= VM_USER_END /\ false = false /\
              (forall a, view w' a = if bool_decide (va <= a < va + size)
                 then Some (mapped_cell prot flags backing phys va a) else view w a)
          | Unexpected _ => forall a, view w' a = view w a
          end)).
    { clear n Hn Hown. intros n Hn Hown p ph. unfold fits in Hv.
      destruct (prepared_ok _ _ _ _ _ _ n Hn) as [Hok Hend]; [lia|lia|done..|].
      destruct Hn as [[R1 R2] (A1 & A2 & A3 & A4) Hp [C1 C2]]. apply map_commit_ok; try done.
      - unfold span. lia.
      - intros z q Ez Hgt. rewrite Hend. apply (Hlater z q Ez). lia.
      - intros m e _. split; [by apply generations_wf|done].
      - intros w' n' HW' Er Hfree Hn'. rewrite R1, Hend in Hfree. rewrite R1, Hend, A1, A2, A3, A4 in Hn'.
        destruct (mapped_view w w' x n' _ _ _ _ _ _ HS (proj1 HW') Ex Er Hn' Hfree) as [HV HSl]. done. }
    destruct (ref_valid extent).
    - vstep. apply spec_update_set. rewrite set_set, set_region_eq. apply Hcommit; [by destruct Hn|done].
    - apply spec_bind, spec_ret. by apply Hcommit. }
  destruct (ref_valid extent); [|apply spec_bind, spec_ret; exact Hgo].
  apply spec_call_any. intros [[]|err]; [exact Hgo|]. apply destroy_abandon.
  - rewrite set_region_eq. destruct Hn as [_ _ -> _]. constructor.
  - by rewrite set_del_fresh.
Qed.
