(* ===== verification/VmLife.v ===== *)
(** * Growing, budgeting and tearing down an address space

    [vm_rekey_region], the commit budget, [vm_destroy_space], what merging does
    to the counters, and example spaces. *)

From S2P Require Import Prelude Errors Kobject MemContract Prog VmTree VmTypes VmPages Vm VmInv VmSplit VmUnmap VmProtect VmGap VmMap.

(** ** Teardown *)

Section teardown.
  Context (b : blame).

Lemma destroy_unmap_any l w (Q : unit -> world -> Prop) :
  vm_shape w -> (forall z, z ∈ l -> z ∈ ids w) -> Q tt w -> spec b (destroy_unmap l) w Q.
Proof.
  intros HS Hl HQ. induction l as [|x l IH]; simpl; [by apply spec_ret|]. vstep. vstep. vstep. vstep. vstep.
  pose proof (shape_lookup _ _ HS (Hl x ltac:(left))) as Ex. pose proof (vs_regions _ HS _ _ Ex) as Hok.
  assert (Hgo : spec b (destroy_unmap l) w Q) by (apply IH; intros z Hz; apply Hl; by right).
  destruct (_ || _); [|by apply spec_ret]. destruct (ro_align _ Hok), (ro_range _ Hok).
  by apply unmap_range_any; [..|apply Hok|].
Qed.

Lemma destroy_slots_ok l w (Q : unit -> world -> Prop) :
  (forall z, z ∈ l -> exists r, w_regions w !! z = Some r /\ region_ok r) -> NoDup l ->
  (forall m, (forall z, z ∈ l -> exists r, m !! z = Some r /\ unbound (r_pages r)) ->
     (forall z, z ∉ l -> m !! z = w_regions w !! z) -> Q tt (World (w_space w) m)) ->
  spec b (destroy_slots l) w Q.
Proof.
  revert w Q. induction l as [|x l IH]; intros w Q Hl Hnd HQ; simpl.
  { apply spec_ret. rewrite <- world_eta. apply HQ; [|done]. intros z Hz. by apply elem_of_nil in Hz. }
  apply list.NoDup_cons in Hnd as [Hx Hnd]. destruct (Hl x ltac:(left)) as (r & Ex & Hok).
  vstep. apply teardown_region_ok with r; [done|done|]. intros f m Hu _. apply IH; [|done|].
  - intros z Hz. destruct (Hl z ltac:(by right)) as (q & Ez & Hq). exists q. split; [|done].
    unfold set_region. simpl. rewrite lookup_insert_ne; [done|]. intros ->. done.
  - intros m' Hm' Ho. unfold set_region in *. simpl in *. apply HQ.
    + intros z [->|Hz]%elem_of_cons; [|by apply Hm']. exists (with_pages m r).
      by rewrite (Ho x Hx), lookup_insert_eq.
    + intros z [Hzx Hzl]%not_elem_of_cons. by rewrite (Ho z Hzl), lookup_insert_ne.
Qed.

Lemma destroy_regions_ok l w (Q : unit -> world -> Prop) :
  tree_valid (sp_tree (w_space w)) -> ids w = l ->
  (forall z, z ∈ l -> exists r, w_regions w !! z = Some r /\ unbound (r_pages r)) -> NoDup l ->
  (forall t m, (forall z, m !! z = if decide (z ∈ l) then None else w_regions w !! z) ->
     Q tt (World (with_tree t (w_space w)) m)) ->
  spec b (destroy_regions l) w Q.
Proof.
  revert w Q. induction l as [|x l IH]; intros w Q Hv Hi Hl Hnd HQ; simpl.
  { apply spec_ret. specialize (HQ (sp_tree (w_space w)) (w_regions w) ltac:(done)).
    replace (World _ _) with w in HQ; [done|]. destruct w as [[]]. done. }
  pose proof Hnd as Hnd'. apply list.NoDup_cons in Hnd as [Hx Hnd]. destruct (Hl x ltac:(left)) as (r & Ex & Hu).
  vstep. apply erase_ok; [right; apply first_erasable; unfold ids in Hi; by rewrite Hi|]. vstep. apply destroy_objects_any.
  { change (region (World ?s (w_regions w)) x) with (region w x). by rewrite (region_Some _ _ _ Ex). }
  intros r'. vstep. apply abandon_any. rewrite del_set. apply IH; [by apply unlink_valid| | |done|].
  - unfold ids in *. simpl. rewrite inorder_unlink, Hi by (done || by rewrite Hi).
    exact (filter_ne_app [] l x Hnd').
  - intros z Hz. destruct (Hl z ltac:(by right)) as (q & Ez & Hq). exists q. split; [|done].
    simpl. rewrite lookup_delete_ne; [done|]. intros ->. done.
  - intros t m Hm. simpl in *. apply (HQ t m). intros z. rewrite Hm. destruct (decide (z = x)) as [->|Hne].
    + rewrite lookup_delete_eq. rewrite (decide_True (P := x ∈ x :: l)) by left. by case_decide.
    + rewrite lookup_delete_ne by done. destruct (decide (z ∈ l)).
      * by rewrite decide_True by by right.
      * rewrite decide_False; [done|]. by intros [?|?]%elem_of_cons.
Qed.
End teardown.

Lemma destroy_space_ok w :
  vm_wf w ->
  spec strict vm_destroy_space w (fun _ w' =>
    vm_wf w' /\ w_regions w' = ∅ /\ ids w' = [] /\
    (forall a, view w' a = None) /\ (forall s, ~ has_slot w' s) /\
    sp_total_mapped (w_space w') = 0 /\ sp_total_committed (w_space w') = 0 /\
    sp_total_resident (w_space w') = 0 /\ sp_owner_object (w_space w') = false).
Proof.
  intros [HS HA]. pose proof (shape_NoDup _ HS) as Hnd. unfold vm_destroy_space. vstep. vstep.
  change (inorder (sp_tree (w_space w))) with (ids w). vstep. apply destroy_unmap_any; [done|done|].
  match goal with |- spec _ (_ ≫= ?k) _ ?Q => assert (Hgo : spec strict (k tt) w Q) end.
  2:{ destruct (sp_asce_val (w_space w) =? 0); [by apply spec_bind, spec_ret|by apply spec_call_any]. }
  cbv beta. vstep. apply destroy_slots_ok; [|done|].
  { intros z Hz. exists (region w z). pose proof (shape_lookup _ _ HS Hz) as Ez. split; [done|by eapply vs_regions]. }
  intros m Hm Ho. vstep. apply destroy_regions_ok; [apply HS|done|done|done|]. intros t m' Hm'. simpl in Hm'.
  apply spec_update_space. simpl.
  assert (m' = ∅) as ->.
  { apply map_eq. intros z. rewrite Hm', lookup_empty. case_decide as Hz; [done|]. rewrite (Ho z Hz).
    destruct (w_regions w !! z) eqn:Ez; [|done]. destruct Hz. by eapply shape_elem. }
  split_and!; try done.
  - destruct HS as [H0 H1 H2 H3 H4 H5 H6 H7]. split; constructor; simpl; try done; try lia.
    + split; [done|by exists O].
    + split; constructor.
    + intros x. rewrite lookup_empty. unfold ids. simpl. rewrite elem_of_nil. split; [done|by intros []].
  - intros s (z & r & Ez & _). done.
Qed.

(** *** What a teardown gives back *)

(** A page table entry, the pin on a frame, the binding of a cached page and a
    descriptor, in the order of the calls that give them back. *)
Inductive given := GUnmap (root va : Z) | GPin (phys : Z) | GBinding (c : Z * Z) | GRegion (id : Z).

#[global] Instance given_eq_dec : EqDecision given.
Proof. solve_decision. Defined.

Definition given_back (e : event vcall) : option given :=
  match e with
  | Ev (CUnmapPage root va) _ => Some (GUnmap root va)
  | Ev (CReleasePin phys) _ => Some (GPin phys)
  | Ev (CReleaseBinding c) _ => Some (GBinding c)
  | Ev (CRegionRelease id) _ => Some (GRegion id)
  | _ => None
  end.

(** What a slot holds: the binding of a cached page, or a pin on its frame. *)
Definition slot_pin (s : vm_page_slot) : option given :=
  if slot_live s && negb (bool_decide (s_state s = ps_portal)) && negb (s_phys s =? 0)
  then Some (match s_binding s with Some c => GBinding c | None => GPin (s_phys s) end)
  else None.
Definition region_pins (r : vm_region) : list given := omap slot_pin (pm_slots (r_pages r)).

Fixpoint page_addresses (n : nat) (va : Z) : list Z :=
  match n with O => [] | S n => va :: page_addresses n (va + VM_PAGE_SIZE) end.
(** The pages of the regions that may have page table entries. *)
Definition region_unmaps (root : Z) (r : vm_region) : list given :=
  if pm_exists (r_pages r) || (bool_decide (r_backing r = bk_physical) && negb (r_phys_base r =? 0))
  then GUnmap root <$> page_addresses (page_fuel (r_va_start r) (r_va_end r)) (r_va_start r)
  else [].

(** A run of [m] that returns gives back exactly [l] and leaves a state in [P]. *)
Definition gives {A} (m : M A) (w : world) (l : list given) (P : world -> Prop) : Prop :=
  wlp (m w) (fun t o => match o with Some (_, w') => omap given_back t = l /\ P w' | None => True end).

Lemma gives_bind {A B} (m : M A) (k : A -> M B) w l1 l2 (P P2 : world -> Prop) :
  gives m w l1 P -> (forall a w', P w' -> gives (k a) w' l2 P2) -> gives (m ≫= k) w (l1 ++ l2) P2.
Proof.
  intros Hm Hk. unfold gives, mbind, M_bind. apply wlp_bind. revert Hm. apply wlp_mono.
  intros t [[a w']|]; [|done]. intros [E HP]. specialize (Hk a w' HP). revert Hk. apply wlp_mono.
  intros t' [[c w'']|]; [|done]. intros [E' HP']. split; [|done]. by rewrite omap_app, E, E'.
Qed.
Lemma gives_ret {A} (a : A) w (P : world -> Prop) : P w -> gives (mret a) w [] P.
Proof. done. Qed.
Lemma gives_call {R A} (c : vcall R) (k : R -> M A) w l1 l2 (P : world -> Prop) :
  (forall r, option_list (given_back (Ev c r)) = l1) -> (forall r, gives (k r) w l2 P) ->
  gives (call c ≫= k) w (l1 ++ l2) P.
Proof.
  intros Hc Hk. apply (gives_bind _ _ _ _ _ (fun w' => w' = w)).
  - intros r. split; [|done]. rewrite <- (Hc r). cbn -[given_back]. by destruct (given_back (Ev c r)).
  - intros r w' ->. apply Hk.
Qed.
Lemma gives_region {A} x (k : vm_region -> M A) w l P : gives (k (region w x)) w l P -> gives (get_region x ≫= k) w l P.
Proof. done. Qed.
Lemma gives_space {A} (k : vm_space -> M A) w l P : gives (k (w_space w)) w l P -> gives (get_space ≫= k) w l P.
Proof. done. Qed.
Lemma gives_world {A} (k : world -> M A) w l P : gives (k w) w l P -> gives (get_world ≫= k) w l P.
Proof. done. Qed.

(** A part that gives nothing back. *)
Definition keeps {A} (m : M A) : Prop := forall w, gives m w [] (fun _ => True).

Lemma keeps_bind {A B} (m : M A) (k : A -> M B) : keeps m -> (forall a, keeps (k a)) -> keeps (m ≫= k).
Proof. intros Hm Hk w. apply (gives_bind m k w [] [] (fun _ => True)); [apply Hm|]. intros a w' _. apply Hk. Qed.
Lemma keeps_ret {A} (a : A) : keeps (mret a).
Proof. done. Qed.
Lemma keeps_fatal {A} : keeps (A := A) fatal.
Proof. done. Qed.
Lemma keeps_call {R} (c : vcall R) : (forall r, given_back (Ev c r) = None) -> keeps (call c).
Proof. intros Hc w r. split; [|done]. cbn -[given_back]. by rewrite Hc. Qed.
Lemma keeps_get_region x : keeps (get_region x).
Proof. done. Qed.
Lemma keeps_get_space : keeps get_space.
Proof. done. Qed.
Lemma keeps_update x f : keeps (update_region x f).
Proof. done. Qed.
Lemma keeps_update_space f : keeps (update_space f).
Proof. done. Qed.
Create HintDb keeps.
#[local] Hint Resolve keeps_ret keeps_fatal keeps_get_region keeps_get_space keeps_update keeps_update_space : keeps.

Ltac keep :=
  repeat first
    [ progress auto with keeps nocore
    | apply keeps_bind; [|intros ?]
    | apply keeps_call; intros ?; done
    | match goal with |- keeps (match ?x with _ => _ end) => destruct x end ].

Lemma keeps_erase x : keeps (rb_erase x).
Proof. unfold rb_erase. keep. Qed.
Lemma keeps_destroy_objects x : keeps (destroy_region_memory_objects x).
Proof. unfold destroy_region_memory_objects, destroy_pages, destroy_unused. keep. Qed.

Lemma destroy_regions_gives l w : gives (destroy_regions l) w (GRegion <$> l) (fun _ => True).
Proof.
  revert w. induction l as [|x l IH]; intros w; [done|]. simpl.
  apply (gives_bind _ _ _ [] (GRegion x :: (GRegion <$> l)) (fun _ => True)); [apply keeps_erase|]. intros _ w1 _.
  apply (gives_bind _ _ _ [] (GRegion x :: (GRegion <$> l)) (fun _ => True)); [apply keeps_destroy_objects|]. intros _ w2 _.
  apply (gives_bind _ _ _ [GRegion x] (GRegion <$> l) (fun _ => True)); [|intros _ w3 _; apply IH].
  unfold abandon_region. by intros [] [].
Qed.

Lemma unmap_range_gives root va e w :
  is_page_aligned va = true -> is_page_aligned e = true -> 0 <= va -> e < 2 ^ 64 ->
  gives (unmap_range_pages root va e) w (GUnmap root <$> page_addresses (page_fuel va e) va) (fun w' => w' = w).
Proof.
  intros Hv He H0 Hf. unfold unmap_range_pages. remember (page_fuel va e) as fuel eqn:Ef.
  revert va Hv H0 Ef. induction fuel as [|fuel IH]; intros va Hv H0 Ef; simpl; destruct (Z.ltb_spec va e).
  - done.
  - done.
  - destruct (page_step va e Hv He) as (E1 & E2 & E3); [lia|done|]. rewrite page_fuel_step in Ef by lia. injection Ef as Ef.
    apply (gives_call _ _ _ [GUnmap root va]); [done|]. intros _. rewrite E1.
    apply IH; [done|unfold VM_PAGE_SIZE; lia|done].
  - unfold page_fuel, VM_PAGE_SIZE in Ef. exfalso. assert (e - va + 4096 - 1 < 4096) as Hlt by lia.
    assert ((e - va + 4096 - 1) / 4096 < 1) by (apply Z.div_lt_upper_bound; lia). lia.
Qed.

Lemma destroy_unmap_gives l w :
  vm_shape w -> (forall z, z ∈ l -> z ∈ ids w) ->
  gives (destroy_unmap l) w
    (l ≫= fun x => region_unmaps (Z.land (sp_asce_val (w_space w)) ASCE_ORIGIN_MASK) (region w x)) (fun w' => w' = w).
Proof.
  intros HS. induction l as [|x l IH]; intros Hl; [done|]. simpl.
  pose proof (vs_regions _ HS _ _ (shape_lookup _ _ HS (Hl x ltac:(left)))) as Hok.
  apply gives_space, gives_region.
  apply (gives_bind _ _ _ _ _ (fun w' => w' = w)).
  - unfold region_unmaps. destruct (_ || _); [|done]. destruct (ro_align _ Hok), (ro_range _ Hok).
    by apply unmap_range_gives; [..|apply Hok].
  - intros _ w' ->. apply IH. intros z Hz. apply Hl. by right.
Qed.

Lemma release_slot_gives s w :
  live s -> gives (release_slot_mapping s) w (option_list (slot_pin s)) (fun w' => w' = w).
Proof.
  intros Hl. unfold release_slot_mapping, slot_pin. rewrite slot_live_spec, (bool_decide_eq_true_2 (live s)) by done.
  rewrite (bool_decide_eq_false_2 (s_state s = ps_empty)) by done. cbn [orb andb].
  destruct (bool_decide (s_state s = ps_portal)); cbn [orb negb andb]; [done|].
  destruct (s_phys s =? 0); cbn [negb]; [done|]. destruct (s_binding s) as [c|]; simpl.
  - apply (gives_call _ _ _ []); [done|]. intros changed.
    apply (gives_bind _ _ _ [] [GBinding c] (fun w' => w' = w)); [by destruct changed; [intros ?|]|].
    intros [u|e] w' ->; [|done]. apply (gives_call _ _ _ [GBinding c] []); [done|]. by intros [].
  - apply (gives_call _ _ _ [GPin (s_phys s)] []); [done|]. by intros [].
Qed.

Lemma teardown_slots_gives x i l f w :
  gives (teardown_slots x i l f) w (omap slot_pin l) (fun w' => w' = w).
Proof.
  revert i f. induction l as [|s l IH]; intros i f; [done|]. cbn [teardown_slots]. rewrite slot_live_spec.
  case_bool_decide as Hl; cbn [negb].
  - assert (E : omap slot_pin (s :: l) = option_list (slot_pin s) ++ omap slot_pin l).
    { simpl. by destruct (slot_pin s). }
    rewrite E. apply (gives_bind _ _ _ _ _ (fun w' => w' = w)).
    + destruct (negb (bool_decide (s_state s = ps_portal)) && negb (s_phys s =? 0)) eqn:Ec.
      * apply (gives_call _ _ _ []); [done|]. intros _. by apply release_slot_gives.
      * unfold slot_pin. rewrite slot_live_spec, (bool_decide_eq_true_2 (live s)) by done. cbn [andb]. by rewrite Ec.
    + intros [d s'] w' ->. destruct (slot_clear s'); [|done].
      rewrite <- (app_nil_r (omap slot_pin l)). apply (gives_bind _ _ _ _ _ (fun w' => w' = w)); [apply IH|].
      by intros [l' f'] w' ->.
  - assert (omap slot_pin (s :: l) = omap slot_pin l) as ->.
    { simpl. unfold slot_pin at 1. by rewrite slot_live_spec, (bool_decide_eq_false_2 (live s)). }
    rewrite <- (app_nil_r (omap slot_pin l)). apply (gives_bind _ _ _ _ _ (fun w' => w' = w)); [apply IH|].
    by intros [l' f'] w' ->.
Qed.

Lemma teardown_region_gives x w :
  pages_ok (r_pages (region w x)) ->
  gives (teardown_region_slots x) w (region_pins (region w x)) (fun w' => forall z, z <> x -> region w' z = region w z).
Proof.
  intros Hok. unfold teardown_region_slots.
  apply gives_region. unfold region_pins. destruct (pm_exists _) eqn:Ee.
  - rewrite <- (app_nil_r (omap slot_pin _)). apply (gives_bind _ _ _ _ _ (fun w' => w' = w)); [apply teardown_slots_gives|].
    intros [l f] w' ->. apply (gives_bind _ _ _ [] [] (fun w' => forall z, z <> x -> region w' z = region w z)); [|done].
    split; [done|]. intros z Hz. unfold update_region. cbn. by rewrite (region_insert_ne _ (w_space w)), world_eta.
  - by rewrite (pages_absent _ Hok Ee).
Qed.

Lemma destroy_slots_gives l w :
  (forall z, z ∈ l -> pages_ok (r_pages (region w z))) -> NoDup l ->
  gives (destroy_slots l) w (l ≫= fun x => region_pins (region w x)) (fun _ => True).
Proof.
  revert w. induction l as [|x l IH]; intros w Hl Hnd; [done|]. apply list.NoDup_cons in Hnd as [Hx Hnd].
  cbn [destroy_slots]. rewrite bind_cons.
  apply (gives_bind _ _ _ _ _ (fun w' => forall z, z <> x -> region w' z = region w z)).
  { apply teardown_region_gives, Hl. left. }
  intros _ w' Hw. assert (E : forall z, z ∈ l -> region w' z = region w z) by (intros z Hz; apply Hw; congruence).
  assert (El : (l ≫= fun z => region_pins (region w z)) = (l ≫= fun z => region_pins (region w' z))).
  { apply Forall_bind_ext, list.Forall_forall. intros z Hz. by rewrite (E z Hz). }
  rewrite El. apply IH; [|done]. intros z Hz. rewrite (E z Hz). apply Hl. by right.
Qed.

(** Everything a space holds, in the order in which it is given back: the page
    table entries of all regions, the pins and bindings of all their resident
    pages, the descriptors. *)
Definition holdings (w : world) : list given :=
  (ids w ≫= fun x => region_unmaps (Z.land (sp_asce_val (w_space w)) ASCE_ORIGIN_MASK) (region w x)) ++
  (ids w ≫= fun x => region_pins (region w x)) ++ (GRegion <$> ids w).

Lemma destroy_space_gives w : vm_wf w -> gives vm_destroy_space w (holdings w) (fun _ => True).
Proof.
  intros [HS HA]. unfold vm_destroy_space, holdings. apply gives_world. cbv zeta.
  change (inorder (sp_tree (w_space w))) with (ids w).
  apply (gives_bind _ _ _ _ _ (fun w' => w' = w)); [by apply destroy_unmap_gives|]. intros _ w' ->.
  apply (gives_bind _ _ _ [] _ (fun w' => w' = w)); [by case_match; [|intros ?]|]. intros _ w' ->.
  apply (gives_bind _ _ _ _ _ (fun _ => True)).
  - apply destroy_slots_gives; [|by apply shape_NoDup]. intros z Hz.
    apply (vs_regions _ HS _ _ (shape_lookup _ _ HS Hz)).
  - intros _ w' _. rewrite <- (app_nil_r (GRegion <$> ids w)).
    apply (gives_bind _ _ _ _ _ (fun _ => True)); [apply destroy_regions_gives|done].
Qed.

(** C18: destroying an address space releases everything.  From a well-formed space
    [vm_destroy_space] dies only after the environment broke a promise.  When it
    returns, its calls have given back exactly what the space held, each thing
    once and in this order: the page table entry of every page of every region
    that has a page map or is backed by physical memory, the cache binding or
    else the pin of every resident page that has a frame, and the descriptor of
    every region; and the space is well formed with no region, no mapping, no
    resident page and no charge. *)
Theorem vm_destroy_space_empty w :
  vm_wf w ->
  tspec strict vm_destroy_space w (fun t _ w' =>
    omap given_back t = holdings w /\
    vm_wf w' /\ w_regions w' = ∅ /\ ids w' = [] /\
    (forall a, view w' a = None) /\ (forall s, ~ has_slot w' s) /\
    sp_total_mapped (w_space w') = 0 /\ sp_total_committed (w_space w') = 0 /\
    sp_total_resident (w_space w') = 0 /\ sp_owner_object (w_space w') = false).
Proof.
  intros HW. unfold tspec. rewrite wlp_run. intros t o Hr.
  pose proof (proj1 (wlp_run _ _) (destroy_space_gives w HW) t o Hr) as Hg.
  pose proof (proj1 (wlp_run _ _) (destroy_space_ok w HW) t o Hr) as Hs.
  destruct o as [[a w']|]; [|done]. destruct Hg as [Hg _]. split; [exact Hg|exact Hs].
Qed.

(** ** Moving the start of a region *)

Lemma aligned_start_ok r ns :
  region_ok r -> 0 <= ns <= r_va_start r -> is_page_aligned ns = true -> region_ok (with_range ns (r_va_end r) r).
Proof.
  intros [[H1 H2] H3 [H4 H5] H6 H7 H8 H9 H10] Hns Ha. constructor; simpl; try done; [lia|].
  revert H10. apply Forall_impl. intros s [Hs Hb]. split; [simpl; lia|done].
Qed.

Section rekey.
  Context (w : world) (x : Z) (r : vm_region).
  Context (HS : vm_shape w) (E : w_regions w !! x = Some r).

(** The space without the region. *)
Definition without : world :=
  World (with_totals (sp_total_mapped (w_space w)) (sp_total_committed (w_space w))
           (sp_total_resident (w_space w)) (u32 (sp_region_count (w_space w) - 1))
           (with_tree (rb_unlink (sp_tree (w_space w)) x) (w_space w)))
    (delete x (w_regions w)).

Lemma without_shape : vm_shape without /\ ids without = filter (fun y => y <> x) (ids w).
Proof. apply (shape_remove w x); [done|by eapply shape_elem]. Qed.

(** Inserting a version [r'] of the region into the tree without it. *)
Lemma reinsert_ok b r' (Q : bool -> world -> Prop) :
  region_ok (with_linked true r') ->
  (forall z q, w_regions w !! z = Some q -> z <> x -> r_va_start r' < r_va_start q -> r_va_end r' <= r_va_start q) ->
  ((exists z q, z <> x /\ w_regions w !! z = Some q /\ r_va_start q <= r_va_start r' < r_va_end q) ->
     Q false (World (w_space (World (with_tree (sp_tree (w_space without)) (w_space w)) (w_regions w)))
                (<[x := r']> (w_regions w)))) ->
  (forall t, vm_shape (World (with_tree t (w_space w)) (<[x := with_linked true r']> (w_regions w))) ->
     (forall z q, w_regions w !! z = Some q -> z <> x -> ~ (r_va_start q <= r_va_start r' < r_va_end q)) ->
     Q true (World (with_tree t (w_space w)) (<[x := with_linked true r']> (w_regions w)))) ->
  spec b (rb_insert_region x)
    (World (with_tree (sp_tree (w_space without)) (w_space w)) (<[x := r']> (w_regions w))) Q.
Proof.
  intros Hok Hlater HF HT. destruct without_shape as [HSa Hia]. unfold rb_insert_region. vstep. vstep.
  set (w1 := World _ (<[x := r']> (w_regions w))).
  assert (Eplan : rb_plan_insert (st w1) (en w1) None (sp_tree (w_space w1)) (st w1 x) =
    rb_plan_insert (st without) (en without) None (sp_tree (w_space without)) (r_va_start r')).
  { unfold st at 2. unfold w1 at 4. rewrite region_insert_eq. apply rb_plan_ext. intros z Hz. change (z ∈ ids without) in Hz.
    rewrite Hia in Hz. apply list_elem_of_filter in Hz as [Hz _]. unfold st, en, w1, without.
    by rewrite (region_insert_ne _ (w_space w)), (region_delete_ne _ (w_space w)). }
  rewrite Eplan. clear Eplan.
  assert (Hins : forall z q, w_regions without !! z = Some q <-> z <> x /\ w_regions w !! z = Some q).
  { intros z q. unfold without. simpl. rewrite lookup_delete_Some. naive_solver. }
  destruct (rb_plan_insert _ _ _ _ _) as [plan|] eqn:Ep.
  2:{ apply spec_ret. apply HF. apply (rb_plan_None _ _ _ _ (vs_order _ HSa)) in Ep as (z & Hz & Hr).
      pose proof (shape_lookup _ _ HSa Hz) as Ez. apply Hins in Ez as [Hzx Ez]. exists z, (region without z). done. }
  assert (Hstart : forall z q, w_regions w !! z = Some q -> z <> x -> ~ (r_va_start q <= r_va_start r' < r_va_end q)).
  { intros z q Ez Hz Hr. assert (Hn : rb_plan_insert (st without) (en without) None (sp_tree (w_space without)) (r_va_start r') <> None) by congruence.
    apply Hn, (rb_plan_None _ _ _ _ (vs_order _ HSa)). assert (Ez' : w_regions without !! z = Some q) by by apply Hins.
    exists z. split; [by eapply shape_elem|]. unfold st, en. by rewrite (region_Some _ _ _ Ez'). }
  pose proof (vs_fits _ HS) as Hfits. pose proof (vs_count _ HS) as Hcount.
  assert (Hpos : 1 <= sp_region_count (w_space w)).
  { assert (Hx : x ∈ ids w) by by eapply shape_elem. rewrite Hcount. destruct (ids w); [by apply elem_of_nil in Hx|simpl; lia]. }
  assert (Hc1 : u32 (sp_region_count (w_space w) - 1) = sp_region_count (w_space w) - 1) by (apply u32_small; unfold fits; lia).
  destruct (shape_insert without x (with_linked true r') plan (sp_total_mapped (w_space w))
    (sp_total_committed (w_space w)) (sp_total_resident (w_space w)) HSa) as [HS' _].
  { unfold without. simpl. apply lookup_delete_eq. }
  { done. }
  { unfold without. simpl. rewrite Hc1. lia. }
  { done. }
  { intros z q Ez. apply Hins in Ez as [Hz Ez]. simpl. specialize (Hstart z q Ez Hz). specialize (Hlater z q Ez Hz).
    destruct (Z.lt_ge_cases (r_va_start r') (r_va_start q)); [right; by apply Hlater|left; lia]. }
  unfold rb_commit_insert. vstep. vstep. vstep. apply spec_update_set, spec_ret.
  assert (Heq : add_region without (rb_link (sp_tree (w_space without)) plan.1 x) x (with_linked true r')
    (sp_total_mapped (w_space w)) (sp_total_committed (w_space w)) (sp_total_resident (w_space w)) =
    World (with_tree (rb_link (sp_tree (w_space without)) plan.1 x) (w_space w))
      (<[x := with_linked true r']> (w_regions w))).
  { unfold add_region, without. simpl. rewrite insert_delete_eq. f_equal.
    rewrite Hc1, Z.sub_add, u32_small by (unfold fits; lia). by destruct (w_space w). }
  rewrite Heq in HS'. specialize (HT _ HS' Hstart).
  unfold set_region, w1. simpl. rewrite region_insert_eq, insert_insert_eq. exact HT.
Qed.
End rekey.

(** Moving the start of a region: the region joins the tree with its new range
    unless its new start lies in another region, and then is back as it was. *)
Lemma rekey_ok b w x r new_start (Q : bool -> world -> Prop) :
  erasable b w x -> vm_shape w -> w_regions w !! x = Some r -> region_ok (with_range new_start (r_va_end r) r) ->
  (forall z q, w_regions w !! z = Some q -> z <> x -> new_start < r_va_start q -> r_va_end r <= r_va_start q) ->
  (forall t, let w' := World (with_tree t (w_space w)) (w_regions w) in vm_shape w' ->
     (exists z q, z <> x /\ w_regions w !! z = Some q /\ r_va_start q <= new_start < r_va_end q) -> Q false w') ->
  (forall t, let w' := World (with_tree t (w_space w)) (<[x := with_range new_start (r_va_end r) r]> (w_regions w)) in
     vm_shape w' ->
     (forall z q, w_regions w !! z = Some q -> z <> x -> ~ (r_va_start q <= new_start < r_va_end q)) -> Q true w') ->
  spec b (vm_rekey_region x new_start) w Q.
Proof.
  intros He HS E Hnew Hlater HF HT. pose proof (vs_regions _ HS _ _ E) as Hok.
  assert (Hlink : forall q, r_linked q = true -> with_linked true q = q) by (intros [] Hq; simpl in Hq; by rewrite <- Hq).
  unfold vm_rekey_region. vstep. vstep. vstep. apply erase_ok; [done|]. vstep. apply spec_update_set. vstep.
  change (region (World ?s (w_regions w)) x) with (region w x). rewrite (region_Some _ _ _ E).
  apply (reinsert_ok w x r HS E b (with_range new_start (r_va_end r) r)).
  - by rewrite Hlink by apply Hok.
  - done.
  - intros Hocc. vstep. apply spec_update_set. vstep.
    match goal with |- spec _ _ ?W _ => assert (W = World (with_tree (sp_tree (w_space (without w x))) (w_space w)) (<[x := r]> (w_regions w))) as -> end.
    { unfold set_region. simpl. rewrite region_insert_eq, insert_insert_eq. simpl. by destruct r. }
    apply (reinsert_ok w x r HS E b r).
    + rewrite Hlink by apply Hok. done.
    + intros z q Ez Hz Hlt. destruct (shape_disjoint w z x q r HS Ez E Hz); [|done].
      pose proof (ro_range _ (vs_regions _ HS _ _ Ez)). lia.
    + intros (z & q & Hz & Ez & Hr). exfalso. destruct (shape_disjoint w z x q r HS Ez E Hz); [lia|].
      pose proof (ro_range _ Hok). lia.
    + intros t Hshape _. apply spec_ret. rewrite Hlink, insert_id in * by (done || apply Hok). by apply HF.
  - intros t Hshape Hn. apply spec_ret. rewrite Hlink in * by apply Hok. by apply HT.
Qed.

(** moving the start of a region down is atomic.  When no other region starts
    between the new start and the end of the region, [vm_rekey_region] succeeds
    exactly when the new start lies in no other region, and then the tree holds
    the region with its new range; when it fails, the region is back in the tree
    with its old range and no descriptor has changed.  The space stays well
    formed in both cases.  The run ends early only when the region is erased in
    the stale shape of the tree. *)
Theorem vm_rekey_exact w x r new_start :
  vm_shape w -> w_regions w !! x = Some r -> 0 <= new_start <= r_va_start r ->
  is_page_aligned new_start = true ->
  (forall z q, w_regions w !! z = Some q -> z <> x -> new_start < r_va_start q -> r_va_end r <= r_va_start q) ->
  spec tolerant (vm_rekey_region x new_start) w (fun ok w' =>
    vm_shape w' /\
    w_regions w' = (if ok then <[x := with_range new_start (r_va_end r) r]> (w_regions w) else w_regions w) /\
    (ok = false <-> exists z q, z <> x /\ w_regions w !! z = Some q /\ r_va_start q <= new_start < r_va_end q)).
Proof.
  intros HS E Hns Ha Hlater.
  apply (rekey_ok tolerant w x r new_start); [by left|done|done| |done|..].
  - apply aligned_start_ok; [by eapply vs_regions|done|done].
  - intros t w' HS' Hocc. done.
  - intros t w' HS' Hn. split_and!; [done|done|]. split; [done|].
    intros (z & q & Hz & Ez & Hr). by destruct (Hn z q Ez Hz).
Qed.
