(* ===== verification/VmDemo.v ===== *)
(** * Budgets, merging and example spaces

    The commit budget, the counters after a merge, a mapping that overlaps
    another, and a small address space on which the theorems are applied. *)

From S2P Require Import Prelude Errors Kobject MemContract Prog VmTree VmTypes VmPages Vm VmInv VmSplit VmUnmap VmProtect VmGap VmMap VmLife.

(** ** A new space *)

(** [vm_space_init] establishes the invariant: no region, no charge, every
    counter the sum over its regions, and a page-aligned mapping area. *)
Theorem vm_space_init_wf s :
  sp_max_regions s < 2 ^ 32 ->
  let w := World (vm_space_init s) ∅ in
  vm_wf w /\ (forall a, view w a = None) /\
  0 <= sp_mmap_base (w_space w) < 2 ^ 64 /\ is_page_aligned (sp_mmap_base (w_space w)) = true.
Proof.
  intros Hm w. split_and!; try done. split; constructor; simpl; try done; try lia.
  - split; [done|by exists O].
  - split; constructor.
  - intros x. rewrite lookup_empty. unfold ids. simpl. rewrite elem_of_nil. split; [done|by intros []].
Qed.

(** ** The commit budget *)

(** the commit budget is kept.  With the charge within the budget and both in
    64 bits, a charge is admitted exactly when it fits the budget, adds exactly
    its pages without wrapping and stays within it; returning it restores the
    space; a budget below the charge is refused and leaves the charge within the
    budget otherwise; returning more than is charged is fatal. *)
Theorem commit_budget_kept s pages limit :
  fits 64 pages -> fits 64 (sp_commit_limit_pages s) ->
  0 <= sp_total_committed s <= sp_commit_limit_pages s ->
  (vm_space_try_charge_commit s pages = None <-> sp_commit_limit_pages s < sp_total_committed s + pages) /\
  (forall s', vm_space_try_charge_commit s pages = Some s' ->
     sp_total_committed s' = sp_total_committed s + pages /\
     sp_total_committed s' <= sp_commit_limit_pages s' /\
     vm_space_uncharge_commit s' pages = Some s) /\
  (has_value (vm_space_set_commit_limit s limit) = true <-> sp_total_committed s <= limit) /\
  (vm_space_uncharge_commit s pages = None <-> sp_total_committed s < pages).
Proof.
  intros Hp Hl Hc. unfold vm_space_try_charge_commit, vm_commit_admitted, vm_space_set_commit_limit, vm_space_uncharge_commit.
  split_and!.
  - destruct (Z.leb_spec pages (sp_commit_limit_pages s)), (Z.leb_spec (sp_total_committed s) (sp_commit_limit_pages s - pages));
      simpl; split; intros; try done; unfold fits in *; lia.
  - intros s'. destruct (Z.leb_spec pages (sp_commit_limit_pages s)), (Z.leb_spec (sp_total_committed s) (sp_commit_limit_pages s - pages));
      simpl; try done. intros [= <-]. simpl. rewrite u64_small by (unfold fits in *; lia).
    destruct (Z.ltb_spec (sp_total_committed s + pages) pages); [lia|]. split_and!; [done|lia|].
    rewrite Z.add_simpl_r. by destruct s.
  - destruct (Z.ltb_spec limit (sp_total_committed s)); simpl; split; intros; done || lia.
  - destruct (Z.ltb_spec (sp_total_committed s) pages); split; intros; done || lia.
Qed.

(** ** Splitting *)

(** C19: splitting is atomic.  [vm_split] of a region of a well-formed space at any
    address either fails and changes nothing at all, or splits at a page boundary
    strictly inside the region: the lower part keeps the descriptor, the upper
    part gets a new one, no other descriptor changes, and the mappings and the
    resident pages of the space are the old ones; the invariant holds and the
    operation dies only after the environment broke a promise. *)
Theorem vm_split_exact w x r va :
  vm_wf w -> w_regions w !! x = Some r -> fits 64 va ->
  spec strict (vm_split x va) w (fun res w' =>
    match res with
    | Unexpected _ => w' = w
    | Expected y =>
        vm_wf w' /\ same_space w w' /\ r_va_start r < va < r_va_end r /\ is_page_aligned va = true /\
        w_regions w !! y = None /\
        exists r' n, w_regions w' = <[y := n]> (<[x := r']> (w_regions w)) /\
          r_va_start r' = r_va_start r /\ r_va_end r' = va /\ r_va_start n = va /\ r_va_end n = r_va_end r
    end).
Proof.
  intros HW E Hv. pose proof HW as [HS _]. pose proof (vs_regions _ HS _ _ E) as Hok.
  destruct (decide (r_va_start r < va < r_va_end r)) as [Hva|Hva].
  2:{ unfold vm_split. vstep. vstep. rewrite (region_Some _ _ _ E).
      destruct (Z.leb_spec va (r_va_start r)), (Z.leb_spec (r_va_end r) va); cbn [orb]; try (by apply spec_ret); lia. }
  destruct (is_page_aligned va) eqn:Hal.
  2:{ unfold vm_split. vstep. vstep. rewrite (region_Some _ _ _ E), Hal. destruct (_ || _); by apply spec_ret. }
  apply vm_split_ok with r; [done..|]. intros y w' Hmax Hpost.
  destruct (split_post_facts w x va r y w' HW E Hva Hal Hmax Hpost) as (HW' & Hsame & _).
  destruct Hpost as [Ey (plan & r' & n' & -> & HH & _)].
  pose proof (hl_lower _ _ _ _ HH) as (L1 & L2 & _). pose proof (hl_upper _ _ _ _ HH) as (U1 & U2 & _).
  split_and!; try done; [lia|lia|]. exists r', n'. split_and!; done.
Qed.

(** ** Merging *)

Lemma absorb_ok b a c l u w (Q : unit -> world -> Prop) :
  erasable b w c -> vm_shape w -> w_regions w !! a = Some l -> w_regions w !! c = Some u -> a <> c ->
  pm_slots (r_pages u) = [] ->
  (forall l', joined l u l' -> Q tt (join_world w a c l' (u64 (sp_total_mapped (w_space w) - r_size u)))) ->
  spec b (absorb a c) w Q.
Proof.
  intros He HS Ea Ec Hac Hs HQ. assert (Hlu : lives (r_pages u) = []) by (unfold lives; by rewrite Hs).
  pose proof (ro_pages _ (vs_regions _ HS _ _ Ea)) as Hpl.
  unfold absorb. vstep. vstep. rewrite (region_Some _ _ _ Ec). vstep. apply spec_update_set. rewrite (region_Some _ _ _ Ea).
  vstep. apply update_ranges_any. vstep. vstep. vstep. apply policy_field_any. intros gb. vstep. apply policy_field_any. intros ga.
  match goal with |- spec _ (_ ≫= ?k) ?W _ => assert (Hgo : spec b (k tt) W Q) end.
  { cbv beta. vstep. apply spec_update_set. rewrite set_set, set_region_eq. set (l' := with_counts _ _ _).
    apply remove_and_free_any; [done| |].
    { unfold set_region. rewrite (region_insert_ne _ (w_space w)), world_eta, (region_Some _ _ _ Ec) by congruence.
      unfold unbound. by rewrite Hs. }
    replace (erased _ _ _) with (join_world w a c l' (u64 (sp_total_mapped (w_space w) - r_size u))).
    - apply HQ. constructor; try done. simpl. by rewrite Hlu, app_nil_r.
    - unfold join_world, erased, set_region. simpl.
      rewrite (region_insert_ne _ (w_space w)), world_eta, (region_Some _ _ _ Ec) by congruence.
      by rewrite delete_insert_ne by congruence. }
  destruct (ga <? gb); [|by apply spec_bind, spec_ret]. vstep. vstep. apply policy_field_any. intros g.
  apply spec_call_any. intros [v|]; [by apply spec_call_unit|by apply spec_ret].
Qed.

(** merging keeps the view but loses mapped bytes.  When a region absorbs the
    one that continues it, the mappings and resident pages of the space stay as
    they are and the tree stays well formed, but [total_mapped], which was exact,
    ends short of the bytes that are mapped by the size of the absorbed region.
    The run ends early only when the absorbed region is erased in the stale shape
    of the tree. *)
Theorem merge_keeps_view_undercounts w a c l u :
  vm_wf w -> w_regions w !! a = Some l -> w_regions w !! c = Some u -> a <> c ->
  continues l u -> pm_slots (r_pages u) = [] ->
  spec tolerant (absorb a c) w (fun _ w' =>
    vm_shape w' /\ same_space w w' /\ total span w' = total span w /\
    sp_total_mapped (w_space w') = u64 (total span w' - span u) /\
    sp_total_mapped (w_space w') <> u64 (total span w')).
Proof.
  intros [HS [A1 A2 A3]] Ea Ec Hac HC Hs. apply absorb_ok with l u; [by left|done..|]. intros l' HJ.
  pose proof (vs_regions _ HS _ _ Ec) as Hu. pose proof (ro_range _ Hu). pose proof (ro_fits _ Hu).
  assert (HT : total span (join_world w a c l' (u64 (sp_total_mapped (w_space w) - r_size u))) = total span w).
  { rewrite (join_total w a c l u l' HS Ea Ec Hac).
    destruct HJ as [[R1 R2] _ _ _ _]. pose proof (ct_adjacent _ _ HC). unfold span at 2 3 4. lia. }
  assert (HM : sp_total_mapped (w_space (join_world w a c l' (u64 (sp_total_mapped (w_space w) - r_size u)))) =
               u64 (total span w - span u)).
  { simpl. by rewrite A1, u64_sub_l, (r_size_span _ Hu). }
  split_and!.
  - by apply (join_shape w a c l u l').
  - split; [intros x; by apply (join_view w a c l u l')|intros s; by apply (join_slots w a c l u l')].
  - done.
  - by rewrite HT.
  - rewrite HT, HM. unfold span in *. unwrap_u. intros Heq.
    assert ((total (fun r => r_va_end r - r_va_start r) w - (r_va_end u - r_va_start u)) mod 18446744073709551616 <>
            total (fun r => r_va_end r - r_va_start r) w mod 18446744073709551616); [|done]. lia.
Qed.

(** ** An example space

    Two regions with a hole between them; the lower one has a resident page. *)

Definition demo_ref (t : kobject_type) (id : Z) : memory_object_ref := MemoryObjectRef t id 1.
Definition demo_slot : vm_page_slot := VmPageSlot 0x401000 0x100000 0 0 None ps_resident 0 0.
Definition demo_region (lo hi prot id : Z) (m : vm_page_map) (resident : Z) : vm_region :=
  VmRegion lo hi prot vf_anonymous bk_anonymous 0 U32_MAX 7 0 0 true
    (demo_ref kt_storage id) (demo_ref kt_grant (id + 1)) (demo_ref kt_mapping (id + 2)) null_ref
    0 resident m.
Definition demo_low : vm_region :=
  demo_region 0x400000 0x404000 (Z.lor prot_read prot_write) 10 (VmPageMap true 4 [demo_slot]) 1.
Definition demo_high (lo prot : Z) : vm_region :=
  demo_region lo (lo + 0x2000) prot 20 empty_page_map 0.

Definition demo_space (lo prot : Z) : world :=
  World
    (VmSpace true true (Node true Leaf 1 (Node false Leaf 2 Leaf)) 0x6000 0 1 0 VM_MMAP_BASE 0 0 0x2000000 3 0 1
       7 2 MAX_VM_REGIONS VM_DEFAULT_COMMIT_LIMIT_PAGES)
    {[ 1 := demo_low; 2 := demo_high lo prot ]}.

Definition demo_world : world := demo_space 0x408000 prot_read.
(** The upper region continues the lower one. *)
Definition demo_adjacent : world := demo_space 0x404000 (Z.lor prot_read prot_write).

Definition demo_policy : memory_object_policy :=
  MemoryObjectPolicy 3 1 0 private_domain 3 right_map inv_none 0 1.

(** Every call succeeds, and a reference resolves to an object of its type. *)
Definition good_env : environment vcall := fun _ R c =>
  match c in vcall R return R with
  | CRegionAlloc | CSetOwner _ _ | CAttach _ | CObjectCreate _ _ _ _ _ _ _
  | CObjectUpdatePolicy _ _ | CExtentAcquire _ | CFrameValidate _ _ _ _ | CMarkDirty _
  | CReleaseBinding _ | CMapPage _ _ _ _ | CProtectPage _ _ _ => Expected tt
  | CReleasePin _ => Expected true
  | CObjectResolve r => Some (ObjectView (mr_type r) 0 0x1000000 demo_policy)
  | CHasDependents _ | CSkeyChanged _ => false
  | CKmalloc _ | CRmapRebind _ _ _ _ _ => true
  | CContractGeneration => 1
  | CRegionRelease _ | CCallRcu _ | CDetach _ | CObjectDestroy _ | CObjectUpdateRange _ _ _
  | CSetInvalidate _ _ | CSetMappingGeneration _ _ | CExtentRelease _ | CKfree
  | CRmapRemove _ _ _ | CUnmapPage _ _ | CTlbScope _ _ _ | CTlbFlushAsce _
  | CSske _ _ _ | CSetDgpGeneration _ _ | CFrameFree _ | CFrameUnref _ | CCopyPage _ _ => tt
  | CFrameAlloc _ => Expected 0x300000
  | CFrameRef _ => Expected 1
  | CFrameMetadata _ _ _ _ | CRmapInsert _ _ _ => Expected tt
  | CDuplicateBinding b _ => Expected b
  | CSourceRegion _ => demo_low
  | CStaleErase _ => tt
  end.

(** What [m] does on [w] when every call succeeds. *)
Definition outcome {A} (m : M A) (w : world) : option (A * world) := (exec good_env [] (m w)).2.

Lemma demo_space_wf lo prot :
  region_ok (demo_high lo prot) -> 0x404000 <= lo -> vm_wf (demo_space lo prot).
Proof.
  intros Hhigh Hlo.
  assert (Hlow : region_ok demo_low).
  { constructor; try done; [constructor; try done|]; repeat constructor; try done. set_solver. }
  split; constructor; try done.
  - split; [done|by exists 1%nat].
  - split; repeat constructor; unfold before, st, en, region; simpl; try done.
    rewrite lookup_insert_ne, lookup_singleton_eq by done. simpl. lia.
  - intros x. unfold demo_space, ids. simpl. rewrite !elem_of_cons, elem_of_nil.
    destruct (decide (x = 1)) as [->|]; [by rewrite lookup_insert_eq; naive_solver|].
    rewrite lookup_insert_ne by done.
    destruct (decide (x = 2)) as [->|]; [by rewrite lookup_singleton_eq; naive_solver|].
    rewrite lookup_singleton_ne by done. split; [naive_solver|by intros []].
  - intros x r. unfold demo_space. simpl. rewrite lookup_insert_Some, lookup_singleton_Some.
    by intros [[_ <-]|[_ [_ <-]]].
  - unfold total, span, region. simpl. rewrite (lookup_insert_ne _ 1 2), lookup_singleton_eq by done. simpl.
    by replace (lo + 8192 - lo + 0) with 8192 by lia.
Qed.

Lemma demo_high_ok lo prot :
  0 <= lo < 2 ^ 63 -> is_page_aligned lo = true -> is_page_aligned (lo + 0x2000) = true ->
  prot_rwx (prot_to_mmu prot) = false -> region_ok (demo_high lo prot).
Proof. intros. constructor; simpl; try done; [lia|lia|]. by repeat constructor. Qed.

Lemma demo_wf : vm_wf demo_world.
Proof. by apply demo_space_wf; [apply demo_high_ok|]. Qed.

Lemma demo_adjacent_wf : vm_wf demo_adjacent.
Proof. by apply demo_space_wf; [apply demo_high_ok|]. Qed.


(** ** The theorems on the example space *)

Definition succeeded {A} (o : option (expected A * world)) : bool :=
  match o with Some (Expected _, _) => true | _ => false end.

(** Run [m] on [w]: the theorem [T] holds of the result, which is a success. *)
Ltac demo_run m w T :=
  assert (Hdone : succeeded (outcome m w) = true) by (vm_compute; reflexivity);
  pose proof (spec_exec _ _ _ _ good_env T) as Hrun; cbv beta in Hrun;
  unfold outcome in *;
  destruct (exec good_env [] (m w)).2 as [[[v|e] w']|]; [clear Hdone|discriminate Hdone..];
  exists v, w'; split; [reflexivity|].

Lemma vm_unmap_exact_witness :
  exists v w', outcome (vm_unmap 0 0x401000 0x1000) demo_world = Some (Expected v, w') /\
    vm_wf w' /\ view w' 0x401000 = None /\ view w' 0x402000 = view demo_world 0x402000 /\
    ~ has_slot w' demo_slot.
Proof.
  demo_run (vm_unmap 0 0x401000 0x1000) demo_world
    (vm_unmap_exact 0 0x401000 0x1000 demo_world demo_wf ltac:(done) ltac:(done)).
  destruct Hrun as (HW & HV & HS). split_and!; [done|by rewrite HV|by rewrite HV|].
  rewrite HS. intros [_ Hn]. by apply Hn.
Defined.

Lemma vm_protect_exact_witness :
  exists v w', outcome (vm_protect 0 0x401000 0x1000 prot_read) demo_world = Some (Expected v, w') /\
    vm_wf w' /\ has_slot w' demo_slot /\
    view w' 0x401000 = Some (prot_read, vf_anonymous, bk_anonymous, 0) /\
    view w' 0x402000 = view demo_world 0x402000.
Proof.
  demo_run (vm_protect 0 0x401000 0x1000 prot_read) demo_world
    (vm_protect_exact 0 0x401000 0x1000 prot_read demo_world demo_wf ltac:(done) ltac:(done)).
  destruct Hrun as (HW & HS & _ & HV). split_and!; [done| |by rewrite HV|by rewrite HV].
  apply HS. exists 1, demo_low. split; [done|]. by apply list_elem_of_singleton.
Defined.

Lemma vm_find_gap_exact_witness :
  exists a, vm_find_gap demo_world 0x2000 VM_PAGE_SIZE = Expected a /\ is_gap demo_world 0x2000 a.
Proof.
  pose proof (vm_find_gap_exact demo_world 0x2000 (proj1 demo_wf) ltac:(done) eq_refl ltac:(done) eq_refl) as HG.
  assert (E : vm_find_gap demo_world 0x2000 VM_PAGE_SIZE = Expected 0x3fffffe000) by (vm_compute; reflexivity).
  rewrite E in HG. exists 0x3fffffe000. split; [exact E|].
  destruct HG as [[HG _]|(_ & HG & _)]; [exact HG|by destruct HG].
Defined.

Lemma vm_map_exact_witness :
  exists v w', outcome (vm_map 0x2000 prot_read vf_anonymous) demo_world = Some (Expected v, w') /\
    vm_wf w' /\ is_gap demo_world 0x2000 v /\
    view w' v = Some (prot_read, vf_anonymous, bk_anonymous, 0).
Proof.
  demo_run (vm_map 0x2000 prot_read vf_anonymous) demo_world
    (vm_map_exact 0x2000 prot_read vf_anonymous demo_world demo_wf ltac:(done) ltac:(done) eq_refl).
  destruct Hrun as (HW & _ & HG & _ & HV). split_and!; [done|done|].
  rewrite HV. rewrite bool_decide_eq_true_2 by lia. reflexivity.
Defined.

Lemma vm_map_fixed_exact_witness :
  exists v w', outcome (vm_map_fixed 0x404000 0x2000 prot_read vf_none bk_physical 0x200000 null_ref) demo_world
      = Some (Expected v, w') /\
    vm_wf w' /\ view w' 0x405000 = Some (prot_read, vf_none, bk_physical, 0x201000).
Proof.
  demo_run (vm_map_fixed 0x404000 0x2000 prot_read vf_none bk_physical 0x200000 null_ref) demo_world
    (vm_map_fixed_exact 0x404000 0x2000 prot_read vf_none bk_physical 0x200000 null_ref demo_world demo_wf
       ltac:(done) ltac:(done)
       ltac:(intros z q; simpl; rewrite lookup_insert_Some, lookup_singleton_Some;
             intros [[_ <-]|[_ [_ <-]]]; simpl; lia)).
  destruct Hrun as (HW & _ & _ & _ & _ & _ & HV). split; [done|]. by rewrite HV.
Defined.

Lemma vm_split_exact_witness :
  exists v w', outcome (vm_split 1 0x402000) demo_world = Some (Expected v, w') /\
    vm_wf w' /\ same_space demo_world w' /\ is_Some (w_regions w' !! v).
Proof.
  demo_run (vm_split 1 0x402000) demo_world
    (vm_split_exact demo_world 1 demo_low 0x402000 demo_wf eq_refl ltac:(done)).
  destruct Hrun as (HW & Hsame & _ & _ & _ & r' & n & -> & _). split_and!; [done|done|].
  rewrite lookup_insert_eq. by eexists.
Defined.

Lemma vm_destroy_space_empty_witness :
  exists t w', exec good_env [] (vm_destroy_space demo_world) = (t, Some (tt, w')) /\
    GPin 0x100000 ∈ omap given_back t /\ GUnmap 0x2000000 0x403000 ∈ omap given_back t /\
    GRegion 2 ∈ omap given_back t /\
    w_regions w' = ∅ /\ (forall a, view w' a = None) /\ sp_total_mapped (w_space w') = 0.
Proof.
  assert (Hdone : bool_decide (outcome vm_destroy_space demo_world = None) = false)
    by (apply bool_decide_eq_false_2; vm_compute; discriminate).
  pose proof (tspec_exec _ _ _ _ good_env (vm_destroy_space_empty demo_world demo_wf)) as Hrun.
  apply bool_decide_eq_false_1 in Hdone. unfold outcome in *.
  destruct (exec good_env [] (vm_destroy_space demo_world)) as [t [[[] w']|]]; [|done].
  destruct Hrun as (Ht & _ & Hr & _ & Hv & _ & Hm & _). cbn [fst] in Ht. exists t, w'. rewrite Ht.
  split; [reflexivity|]. split_and!; [..|exact Hr|exact Hv|exact Hm].
  - apply (bool_decide_eq_true_1 (GPin 0x100000 ∈ holdings demo_world)). vm_compute. reflexivity.
  - apply (bool_decide_eq_true_1 (GUnmap 0x2000000 0x403000 ∈ holdings demo_world)). vm_compute. reflexivity.
  - apply (bool_decide_eq_true_1 (GRegion 2 ∈ holdings demo_world)). vm_compute. reflexivity.
Defined.

Lemma reserve_page_exact_witness :
  exists i m' w', outcome (reserve_page (r_pages demo_low) 0x402000) demo_world = Some ((Some i, m'), w') /\
    w' = demo_world /\ pm_slots m' !! i = Some (fresh_slot 0x402000).
Proof.
  pose proof (spec_exec _ _ _ _ good_env
    (reserve_page_exact (r_pages demo_low) 0x402000 demo_world
       (ro_pages _ (vs_regions _ (proj1 demo_wf) 1 demo_low eq_refl)))) as Hrun.
  assert (E : outcome (reserve_page (r_pages demo_low) 0x402000) demo_world =
    Some ((Some 1%nat, VmPageMap true 4 [demo_slot; fresh_slot 0x402000]), demo_world)) by (vm_compute; reflexivity).
  change (exec good_env [] (reserve_page (r_pages demo_low) 0x402000 demo_world)).2
    with (outcome (reserve_page (r_pages demo_low) 0x402000) demo_world) in Hrun.
  rewrite E in Hrun. do 3 eexists. split; [exact E|]. split; [apply Hrun|reflexivity].
Defined.

Lemma vm_rekey_exact_witness :
  exists w', outcome (vm_rekey_region 2 0x406000) demo_world = Some (true, w') /\ vm_shape w' /\
    w_regions w' !! 2 = Some (with_range 0x406000 0x40a000 (demo_high 0x408000 prot_read)).
Proof.
  pose proof (spec_exec _ _ _ _ good_env
    (vm_rekey_exact demo_world 2 (demo_high 0x408000 prot_read) 0x406000 (proj1 demo_wf) eq_refl
       ltac:(done) eq_refl
       ltac:(intros z q; simpl; rewrite lookup_insert_Some, lookup_singleton_Some;
             intros [[_ <-]|[_ [<- _]]]; simpl; [lia|done]))) as Hrun.
  assert (E : (fst <$> outcome (vm_rekey_region 2 0x406000) demo_world) = Some true) by (vm_compute; reflexivity).
  unfold outcome in *. destruct (exec good_env [] (vm_rekey_region 2 0x406000 demo_world)).2 as [[ok w']|]; [|done].
  simpl in E. injection E as ->. destruct Hrun as (HS & HR & _). exists w'. split_and!; [reflexivity|done|].
  rewrite HR. apply lookup_insert_eq.
Defined.

Lemma vm_space_init_wf_witness :
  vm_wf (World (vm_space_init (w_space demo_world)) ∅).
Proof. apply (vm_space_init_wf (w_space demo_world)). reflexivity. Defined.

Lemma commit_budget_kept_witness :
  exists s', vm_space_try_charge_commit (w_space demo_world) 5 = Some s' /\
    sp_total_committed s' = 5 /\ vm_space_uncharge_commit s' 5 = Some (w_space demo_world).
Proof.
  destruct (commit_budget_kept (w_space demo_world) 5 100 ltac:(done) ltac:(done) ltac:(done)) as (_ & HC & _).
  eexists. split; [reflexivity|]. destruct (HC _ eq_refl) as (H1 & _ & H2). split; [exact H1|exact H2].
Defined.

Lemma merge_keeps_view_undercounts_witness :
  exists w', outcome (absorb 1 2) demo_adjacent = Some (tt, w') /\ vm_shape w' /\
    same_space demo_adjacent w' /\ sp_total_mapped (w_space w') <> u64 (total span w').
Proof.
  pose proof (spec_exec _ _ _ _ good_env
    (merge_keeps_view_undercounts demo_adjacent 1 2 demo_low (demo_high 0x404000 (Z.lor prot_read prot_write))
       demo_adjacent_wf eq_refl eq_refl ltac:(done) ltac:(by constructor) eq_refl)) as Hrun.
  assert (E : (fst <$> outcome (absorb 1 2) demo_adjacent) = Some tt) by (vm_compute; reflexivity).
  unfold outcome in *. destruct (exec good_env [] (absorb 1 2 demo_adjacent)).2 as [[[] w']|]; [|done].
  exists w'. split; [reflexivity|]. split_and!; apply Hrun.
Defined.

(** ** Overlapping mappings *)

(** A fixed mapping that starts in a hole and runs into the region above it is
    accepted: two regions of the space then hold the same address. *)
Theorem vm_map_fixed_overlaps :
  exists w', outcome (vm_map_fixed 0x406000 0x4000 prot_read vf_anonymous bk_anonymous 0 null_ref) demo_world
      = Some (Expected tt, w') /\
    exists a r1 r2, r1 <> r2 /\ covered w' a r1 /\ covered w' a r2.
Proof.
  eexists. split; [vm_compute; reflexivity|].
  exists 0x408000. do 2 eexists. split_and!.
  - shelve.
  - exists 2. split; [vm_compute; reflexivity|simpl; lia].
  - exists 3. split; [vm_compute; reflexivity|simpl; lia].
  Unshelve. discriminate.
Qed.

(** A size above [mmap_base] makes the search return a wrapped address instead of
    [out_of_memory]; only the contract check of the callers refuses it. *)
Theorem vm_find_gap_wraps :
  vm_find_gap demo_world (VM_MMAP_BASE + 0x1000) VM_PAGE_SIZE = Expected (2 ^ 64 - 0x1000) /\
  (fst <$> outcome (vm_map (VM_MMAP_BASE + 0x1000) prot_read vf_anonymous) demo_world) =
    Some (Unexpected (from_generic invalid_arg)).
Proof. split; vm_compute; reflexivity. Qed.

(** ** Erasures in the stale shape *)

(** Ordinary use reaches the stale shape: after two more fixed mappings above the
    two regions of the example space, with every call of the environment
    answered, unmapping the second region erases it in the shape in which
    [rb_erase] leaves a parent pointer to the erased node. *)
Theorem vm_unmap_meets_stale_erase :
  exists w1 w2 t,
    outcome (vm_map_fixed 0x40c000 0x2000 prot_read vf_anonymous bk_anonymous 0 null_ref) demo_world
      = Some (Expected tt, w1) /\
    outcome (vm_map_fixed 0x410000 0x2000 prot_read vf_anonymous bk_anonymous 0 null_ref) w1
      = Some (Expected tt, w2) /\
    exec good_env [] (vm_unmap 0 0x408000 0x2000 w2) = (t, None) /\ Exists stale_event t.
Proof.
  do 3 eexists. split; [vm_compute; reflexivity|]. split; [vm_compute; reflexivity|].
  split; [vm_compute; reflexivity|]. repeat first [apply Exists_cons_hd; exact I|apply Exists_cons_tl].
Qed.
