(* ===== verification/Fault.v ===== *)
(** * Page faults ([src/zxfoundation/memory/vm.zcomponent/fault.cxx])

    [handle_page_fault] on the state of an address space.  The part of the
    handler up to the first release of the lock is [fault_locked]; a fault on a
    file-backed page leaves it with a request, gives up the lock, asks the page
    cache for the page and goes on in [fault_file_resume] with the space as the
    other threads left it.  What happens while the lock is free is a parameter:
    [unlocked] takes the space and the request to the space found afterwards and
    the answer of [page_cache::acquire_page].

    A region shared over IPC names the region of the sender, which belongs to
    another space: reading it is a call.  Frames come from the allocator by
    calls; the release of a folio at the end of a scope does nothing. *)

From S2P Require Import Prelude Errors Kobject MemContract Prog VmTree VmTypes VmPages Vm.

Open Scope zx_scope.

Inductive fault_action :=
  | fa_resolved | fa_killed | fa_guard_hit | fa_stack_grew | fa_retry | fa_oom.

#[global] Instance fault_action_eq_dec : EqDecision fault_action.
Proof. solve_decision. Defined.

(** [_fault_file_request]. *)
Record file_request := FileRequest { fq_node : Z; fq_index : Z; fq_key : Z }.

(** [page_lease]: the frame and the binding of a cached page. *)
Record page_lease := PageLease { ls_phys : Z; ls_binding : binding }.

Definition page_of (va : Z) : Z := Z.land va (Z.lxor U64_MAX (VM_PAGE_SIZE - 1)).

(** ** Slots of a region *)

(** [reserve_page] on the page map of a region. *)
Definition region_reserve (x page_va : Z) : M (option nat) :=
  r ← get_region x;
  '(slot, m) ← reserve_page (r_pages r) page_va;
  _ ← update_region x (with_pages m);
  mret slot.

(** Writing fields of the slot with index [i]. *)
Definition set_slot (x : Z) (i : nat) (f : vm_page_slot -> vm_page_slot) : M unit :=
  update_region x (fun r =>
    with_pages (VmPageMap (pm_exists (r_pages r)) (pm_capacity (r_pages r))
                  (alter f i (pm_slots (r_pages r)))) r).

(** [slot->clear()]. *)
Definition clear_slot (x : Z) (i : nat) : M unit :=
  r ← get_region x;
  match slot_clear (default empty_slot (pm_slots (r_pages r) !! i)) with
  | None => fatal
  | Some e => set_slot x i (fun _ => e)
  end.

Definition with_frame (phys : Z) (state : vm_page_state) (s : vm_page_slot) : vm_page_slot :=
  VmPageSlot (s_va_page s) phys (s_file_node s) (s_file_index s) (s_binding s) state
    (s_flags s) (s_dirty s).
Definition with_binding (b : binding) (s : vm_page_slot) : vm_page_slot :=
  VmPageSlot (s_va_page s) (s_phys s) (s_file_node s) (s_file_index s) b (s_state s)
    (s_flags s) (s_dirty s).
Definition with_file (node index : Z) (s : vm_page_slot) : vm_page_slot :=
  VmPageSlot (s_va_page s) (s_phys s) node index (s_binding s) (s_state s)
    (s_flags s) (s_dirty s).

(** A counter goes up by [n]; it is not written when [n] is 0. *)
Definition bump (counter n : Z) : Z := if n =? 0 then counter else u64 (counter + n).

(** The counters of a region and its space after [mapped] new bytes were mapped,
    [committed] pages charged and [resident] pages made resident. *)
Definition account_page (x mapped committed resident : Z) : M unit :=
  _ ← update_region x (fun r => with_counts (bump (r_committed r) committed)
        (bump (r_resident r) resident) r);
  update_space (fun s => with_totals (bump (sp_total_mapped s) mapped)
    (bump (sp_total_committed s) committed) (bump (sp_total_resident s) resident)
    (sp_region_count s) s).

(** The authority stamped on a frame of a region. *)
Definition stamp_frame (r : vm_region) (phys : Z) : M (expected unit) :=
  call (CFrameMetadata phys
    (if ref_valid (r_storage r) then mr_id (r_storage r) else KOBJECT_ID_INVALID)
    (if ref_valid (r_storage r) then mr_generation (r_storage r) else 0)
    (has_flag (r_prot r) prot_write)).

(** ** The access check and stale generations *)

Definition fault_access (is_write is_exec : bool) : Z :=
  if is_write then 2 else if is_exec then 4 else 1.

(** A region whose contract generation is stale gets its storage keys anew. *)
Definition refresh_region (x current_gen : Z) : M unit :=
  r ← get_region x;
  generation ← policy_field mp_dgp_generation 0 r;
  if current_gen =? generation then mret tt
  else
    v ← call (CObjectResolve (r_mapping r));
    _ ← (match v with
         | Some _ => call (CSetDgpGeneration (r_mapping r) current_gen)
         | None => mret tt
         end);
    region_key ← policy_field mp_storage_key 0 r;
    if pm_exists (r_pages r) && (0 <? pm_count (r_pages r))
    then rekey_slots (pm_slots (r_pages r)) region_key (negb (has_flag (r_prot r) prot_write))
    else mret tt.

(** ** Growing a stack *)

(** The descent to the first region above an address. *)
Fixpoint first_above (start : Z -> Z) (t : tree) (va : Z) (nearest : option Z) : option Z :=
  match t with
  | Leaf => nearest
  | Node _ l x r =>
      if va <? start x then first_above start l va (Some x)
      else first_above start r va nearest
  end.

Definition grow_stack (root storage_key x : Z) : M fault_action :=
  w ← get_world;
  let r := region w x in
  let new_start := u64 (r_va_start r - VM_PAGE_SIZE) in
  if new_start <? VM_USER_START then mret fa_killed
  else match vm_find w new_start with
  | Some _ => mret fa_killed
  | None =>
  if negb (vm_commit_admitted (w_space w) 1) then mret fa_oom
  else
  alloc_r ← call (CFrameAlloc true);
  match alloc_r with
  | Unexpected _ => mret fa_killed
  | Expected phys =>
  ref ← call (CFrameRef phys);
  match ref with
  | Unexpected _ => _ ← call (CFrameFree phys); mret fa_oom
  | Expected _ =>
  map_r ← call (CMapPage root new_start phys (prot_to_mmu (r_prot r)));
  match map_r with
  | Unexpected _ =>
      _ ← call (CFrameUnref phys); _ ← call (CFrameFree phys); mret fa_killed
  | Expected _ =>
  _ ← call (CSske phys storage_key false);
  let old_start := r_va_start r in
  rekeyed ← vm_rekey_region x new_start;
  if negb (rekeyed : bool) then
    _ ← call (CUnmapPage root new_start); _ ← call (CFrameUnref phys);
    _ ← call (CFrameFree phys); mret fa_killed
  else
  slot ← region_reserve x new_start;
  match slot with
  | None =>
      _ ← call (CFrameUnref phys); _ ← call (CUnmapPage root new_start);
      _ ← call (CFrameFree phys); _ ← vm_rekey_region x old_start; mret fa_oom
  | Some i =>
  _ ← set_slot x i (with_frame phys
        (if has_flag (r_flags r) vf_cow then ps_cow else ps_resident));
  rmap_result ← call (CRmapInsert x (Z.of_nat i) phys);
  match rmap_result with
  | Unexpected _ =>
      _ ← clear_slot x i; _ ← call (CUnmapPage root new_start); _ ← call (CFrameUnref phys);
      _ ← call (CFrameFree phys); _ ← vm_rekey_region x old_start; mret fa_oom
  | Expected _ =>
  metadata ← stamp_frame r phys;
  match metadata with
  | Unexpected _ =>
      _ ← call (CRmapRemove x (Z.of_nat i) phys); _ ← clear_slot x i;
      _ ← call (CUnmapPage root new_start); _ ← call (CFrameUnref phys);
      _ ← call (CFrameFree phys); _ ← vm_rekey_region x old_start; mret fa_oom
  | Expected _ => _ ← account_page x VM_PAGE_SIZE 1 1; mret fa_stack_grew
  end end end end end end end.

(** No region has the address: it may be the page below a stack. *)
Definition fault_below (root storage_key fault_va : Z) : M fault_action :=
  w ← get_world;
  match first_above (st w) (sp_tree (w_space w)) fault_va None with
  | Some x =>
      if has_flag (r_flags (region w x)) vf_stack &&
         (u64 (st w x - VM_PAGE_SIZE) <=? fault_va)
      then grow_stack root storage_key x else mret fa_killed
  | None => mret fa_killed
  end.

(** ** Copy on write *)

Definition cow_or_shared (flags : Z) : bool := has_flag flags (Z.lor vf_cow vf_shared_read).

(** The resident page [i] of region [x] is replaced by a private copy. *)
Definition copy_on_write (root storage_key x page_va : Z) (i : nat) : M fault_action :=
  w ← get_world;
  let r := region w x in
  let existing := default empty_slot (pm_slots (r_pages r) !! i) in
  let old_state := s_state existing in
  let needs_commit := bool_decide (old_state = ps_file_cache) in
  if needs_commit && negb (vm_commit_admitted (w_space w) 1) then mret fa_oom
  else
  alloc_r ← call (CFrameAlloc false);
  match alloc_r with
  | Unexpected _ => mret fa_oom
  | Expected new_phys =>
  ref ← call (CFrameRef new_phys);
  match ref with
  | Unexpected _ => _ ← call (CFrameFree new_phys); mret fa_oom
  | Expected _ =>
  let old_phys := s_phys existing in
  _ ← call (CCopyPage old_phys new_phys);
  let prot_bits := if has_flag (r_prot r) prot_exec then 0 else PTE_NOEXEC in
  let old_prot := Z.lor PTE_PROTECT prot_bits in
  _ ← call (CUnmapPage root page_va);
  map_r ← call (CMapPage root page_va new_phys (Z.land prot_bits (Z.lxor U64_MAX PTE_PROTECT)));
  match map_r with
  | Unexpected _ =>
      _ ← call (CMapPage root page_va old_phys old_prot); _ ← call (CFrameUnref new_phys);
      _ ← call (CFrameFree new_phys); mret fa_killed
  | Expected _ =>
  metadata ← stamp_frame r new_phys;
  match metadata with
  | Unexpected _ =>
      _ ← call (CUnmapPage root page_va); _ ← call (CMapPage root page_va old_phys old_prot);
      _ ← call (CFrameUnref new_phys); _ ← call (CFrameFree new_phys); mret fa_oom
  | Expected _ =>
  _ ← call (CRmapRemove x (Z.of_nat i) old_phys);
  _ ← set_slot x i (with_frame new_phys old_state);
  rmap_result ← call (CRmapInsert x (Z.of_nat i) new_phys);
  match rmap_result with
  | Unexpected _ =>
      _ ← call (CUnmapPage root page_va); _ ← call (CMapPage root page_va old_phys old_prot);
      _ ← set_slot x i (with_frame old_phys old_state);
      _ ← call (CRmapInsert x (Z.of_nat i) old_phys);
      _ ← call (CFrameUnref new_phys); _ ← call (CFrameFree new_phys); mret fa_oom
  | Expected _ =>
  _ ← (match s_binding existing with
       | Some b =>
           released ← call (CReleaseBinding b);
           match released with
           | Unexpected _ => fatal
           | Expected _ => set_slot x i (with_binding None)
           end
       | None =>
           released ← call (CReleasePin old_phys);
           match released with Unexpected _ => fatal | Expected _ => mret tt end
       end);
  _ ← set_slot x i (with_frame new_phys ps_resident);
  _ ← call (CSske new_phys storage_key (negb (has_flag (r_prot r) prot_write)));
  _ ← (if needs_commit then account_page x 0 1 0 else mret tt);
  mret fa_resolved
  end end end end end.

(** ** Anonymous memory *)

Definition fault_anonymous (root storage_key x page_va : Z) (is_write : bool) : M fault_action :=
  w ← get_world;
  let r := region w x in
  let to_cow := negb is_write && cow_or_shared (r_flags r) in
  if negb (vm_commit_admitted (w_space w) 1) then mret fa_oom
  else
  alloc_r ← call (CFrameAlloc true);
  match alloc_r with
  | Unexpected _ => mret fa_oom
  | Expected phys =>
  ref ← call (CFrameRef phys);
  match ref with
  | Unexpected _ => _ ← call (CFrameFree phys); mret fa_oom
  | Expected _ =>
  map_r ← call (CMapPage root page_va phys
            (Z.lor (prot_to_mmu (r_prot r)) (if to_cow then PTE_PROTECT else 0)));
  match map_r with
  | Unexpected _ =>
      _ ← call (CFrameUnref phys); _ ← call (CFrameFree phys); mret fa_killed
  | Expected _ =>
  slot ← region_reserve x page_va;
  match slot with
  | None =>
      _ ← call (CUnmapPage root page_va); _ ← call (CFrameUnref phys);
      _ ← call (CFrameFree phys); mret fa_oom
  | Some i =>
  _ ← set_slot x i (with_frame phys (if to_cow then ps_cow else ps_resident));
  rmap_result ← call (CRmapInsert x (Z.of_nat i) phys);
  match rmap_result with
  | Unexpected _ =>
      _ ← clear_slot x i; _ ← call (CUnmapPage root page_va); _ ← call (CFrameUnref phys);
      _ ← call (CFrameFree phys); mret fa_oom
  | Expected _ =>
  metadata ← stamp_frame r phys;
  match metadata with
  | Unexpected _ =>
      _ ← call (CRmapRemove x (Z.of_nat i) phys); _ ← clear_slot x i;
      _ ← call (CUnmapPage root page_va); _ ← call (CFrameUnref phys);
      _ ← call (CFrameFree phys); mret fa_oom
  | Expected _ =>
      _ ← call (CSske phys storage_key false);
      _ ← account_page x 0 1 1;
      mret fa_resolved
  end end end end end end.

(** ** Memory shared over IPC *)

Definition with_backing (k : vm_backing) (node : Z) (r : vm_region) : vm_region :=
  VmRegion (r_va_start r) (r_va_end r) (r_prot r) (r_flags r) k (r_phys_base r) (r_portal_id r)
    (r_owner_domain r) node (r_file_page_offset r) (r_linked r) (r_storage r) (r_grant r)
    (r_mapping r) (r_extent r) (r_committed r) (r_resident r) (r_pages r).

(** [release_new_pin]. *)
Definition release_new_pin (b : binding) (phys : Z) : M unit :=
  match b with
  | Some b => _ ← call (CReleaseBinding b); mret tt
  | None => _ ← call (CReleasePin phys); mret tt
  end.

(** The second pin on the page of the sender. *)
Definition pin_source (r : vm_region) (source_slot : vm_page_slot) : M (option binding) :=
  match s_binding source_slot with
  | Some b =>
      key ← policy_field mp_storage_key 0 r;
      duplicated ← call (CDuplicateBinding b key);
      match duplicated with
      | Unexpected _ => mret None
      | Expected b' => mret (Some (Some b'))
      end
  | None =>
      ref ← call (CFrameRef (s_phys source_slot));
      match ref with Unexpected _ => mret None | Expected _ => mret (Some None) end
  end.

Definition fault_ipc (root x page_va : Z) (is_write is_exec : bool) : M fault_action :=
  w ← get_world;
  let r := region w x in
  if r_file_node r =? 0 then mret fa_killed
  else
  source ← call (CSourceRegion (r_file_node r));
  let source_va := u64 (r_va_start source + u64 (page_va - r_va_start r)) in
  match (match find_page (r_pages source) source_va with
         | Some (_, s) => if s_phys s =? 0 then None else Some s
         | None => None
         end) with
  | None =>
      if negb is_write then mret fa_retry
      else _ ← update_region x (with_backing bk_anonymous 0); mret fa_retry
  | Some source_slot =>
  if negb (vm_commit_admitted (w_space w) 1) then mret fa_oom
  else
  pinned ← pin_source r source_slot;
  match pinned with
  | None => mret fa_oom
  | Some cache_binding =>
  let phys := s_phys source_slot in
  map_r ← call (CMapPage root page_va phys
            (Z.lor PTE_PROTECT (if is_exec then PTE_NOEXEC else 0)));
  match map_r with
  | Unexpected _ => _ ← release_new_pin cache_binding phys; mret fa_killed
  | Expected _ =>
  slot ← region_reserve x page_va;
  match slot with
  | None =>
      _ ← call (CUnmapPage root page_va); _ ← release_new_pin cache_binding phys; mret fa_oom
  | Some i =>
  _ ← set_slot x i (fun s => with_binding cache_binding (with_frame phys ps_ipc s));
  rmap_result ← call (CRmapInsert x (Z.of_nat i) phys);
  match rmap_result with
  | Unexpected _ =>
      _ ← set_slot x i (with_binding None); _ ← clear_slot x i;
      _ ← call (CUnmapPage root page_va); _ ← release_new_pin cache_binding phys; mret fa_oom
  | Expected _ => _ ← account_page x 0 1 1; mret fa_resolved
  end end end end end.

(** ** The handler under its first lock *)

(** What the first critical section ends in. *)
Inductive locked_result := LDone (a : fault_action) | LFile (q : file_request).

Definition done_with (m : M fault_action) : M locked_result := a ← m; mret (LDone a).

(** A page that is not resident. *)
Definition fault_absent (root storage_key x page_va : Z) (is_write is_exec : bool)
    : M locked_result :=
  r ← get_region x;
  match r_backing r with
  | bk_anonymous => done_with (fault_anonymous root storage_key x page_va is_write)
  | bk_file =>
      if r_file_node r =? 0 then mret (LDone fa_killed)
      else
        let page_index := u64 (r_file_page_offset r
                               + Z.shiftr (u64 (page_va - r_va_start r)) 12) in
        if 0xFFFFFFFF <? page_index then mret (LDone fa_killed)
        else
          key ← policy_field mp_storage_key 0 r;
          mret (LFile (FileRequest (r_file_node r) (u32 page_index) key))
  | bk_ipc_shared => done_with (fault_ipc root x page_va is_write is_exec)
  | bk_physical | bk_portal_shared => mret (LDone fa_killed)
  end.

(** A fault inside region [x]. *)
Definition fault_in_region (root storage_key x page_va : Z) (is_write is_exec : bool)
    : M locked_result :=
  r ← get_region x;
  if has_flag (r_flags r) vf_guard then mret (LDone fa_guard_hit)
  else
  let cow_write := is_write && cow_or_shared (r_flags r) in
  if is_write && negb (has_flag (r_prot r) prot_write) && negb cow_write
  then mret (LDone fa_killed)
  else if is_exec && negb (has_flag (r_prot r) prot_exec) then mret (LDone fa_killed)
  else
  match find_page (r_pages r) page_va with
  | Some (i, existing) =>
      if is_write && (bool_decide (s_state existing = ps_cow) ||
                      bool_decide (s_state existing = ps_file_cache) ||
                      bool_decide (s_state existing = ps_ipc)) && cow_write
      then done_with (copy_on_write root storage_key x page_va i)
      else mret (LDone fa_resolved)
  | None => fault_absent root storage_key x page_va is_write is_exec
  end.

Definition fault_locked (root storage_key fault_va : Z) (is_write is_exec : bool)
    : M locked_result :=
  w ← get_world;
  match vm_find w fault_va with
  | Some x =>
      let r := region w x in
      current_gen ← call CContractGeneration;
      access ← policy_field mp_access 0 r;
      if negb (memory_access_has access (fault_access is_write is_exec))
      then mret (LDone fa_killed)
      else
        _ ← refresh_region x current_gen;
        fault_in_region root storage_key x (page_of fault_va) is_write is_exec
  | None => done_with (fault_below root storage_key fault_va)
  end.

(** ** The file page is there *)

(** [release(std::move(lease))]: a lease that cannot be released traps in its
    destructor; one without a frame or a binding is left alone. *)
Definition release_lease (lease : page_lease) : M unit :=
  match ls_binding lease with
  | Some b =>
      if ls_phys lease =? 0 then mret tt
      else
        released ← call (CReleaseBinding b);
        match released with Unexpected _ => fatal | Expected _ => mret tt end
  | None => mret tt
  end.

Definition install_file_page (root x page_va file_index : Z) (lease : page_lease)
    : M fault_action :=
  r ← get_region x;
  let phys := ls_phys lease in
  map_r ← call (CMapPage root page_va phys
            (Z.lor (prot_to_mmu (r_prot r)) (if cow_or_shared (r_flags r) then PTE_PROTECT else 0)));
  match map_r with
  | Unexpected _ => _ ← release_lease lease; mret fa_killed
  | Expected _ =>
  slot ← region_reserve x page_va;
  match slot with
  | None => _ ← call (CUnmapPage root page_va); _ ← release_lease lease; mret fa_oom
  | Some i =>
  _ ← set_slot x i (fun s => with_binding (ls_binding lease)
        (with_frame phys ps_file_cache (with_file (r_file_node r) file_index s)));
  rmap_result ← call (CRmapInsert x (Z.of_nat i) phys);
  match rmap_result with
  | Unexpected _ =>
      _ ← (match ls_binding lease with
           | Some b =>
               released ← call (CReleaseBinding b);
               match released with
               | Unexpected _ => mret tt
               | Expected _ => set_slot x i (with_binding None)
               end
           | None => mret tt
           end);
      _ ← clear_slot x i;
      _ ← call (CUnmapPage root page_va);
      mret fa_oom
  | Expected _ => _ ← account_page x 0 0 1; mret fa_resolved
  end end end.

Definition fault_file_resume (root fault_va : Z) (is_write is_exec : bool)
    (q : file_request) (lease : page_lease) : M fault_action :=
  w ← get_world;
  match vm_find w fault_va with
  | None => _ ← release_lease lease; mret fa_retry
  | Some x =>
      let r := region w x in
      if negb (bool_decide (r_backing r = bk_file)) || negb (r_file_node r =? fq_node q)
      then _ ← release_lease lease; mret fa_retry
      else
      access ← policy_field mp_access 0 r;
      if negb (memory_access_has access (fault_access is_write is_exec))
      then _ ← release_lease lease; mret fa_killed
      else
      match find_page (r_pages r) (page_of fault_va) with
      | Some _ => _ ← release_lease lease; mret fa_resolved
      | None => install_file_page root x (page_of fault_va) (fq_index q) lease
      end
  end.

(** What a failure of the page cache makes of the fault. *)
Definition acquire_failed (e : kernel_error) : fault_action :=
  if bool_decide (e = from_driver drv_busy) then fa_retry
  else if bool_decide (category e = cat_memory) then fa_oom
  else fa_killed.

(** ** The handler *)

Definition handle_page_fault
    (unlocked : world -> file_request -> world * expected page_lease)
    (root storage_key fault_va : Z) (is_write is_exec : bool) : M fault_action :=
  first ← fault_locked root storage_key fault_va is_write is_exec;
  match first with
  | LDone a => mret a
  | LFile q =>
      w ← get_world;
      _ ← put_world (unlocked w q).1;
      match (unlocked w q).2 with
      | Unexpected e => mret (acquire_failed e)
      | Expected lease => fault_file_resume root fault_va is_write is_exec q lease
      end
  end.

Close Scope zx_scope.
