(* ===== verification/FaultSpec.v ===== *)
(** * What a page fault does to an address space

    The steps of [handle_page_fault] change one region: its page map, its
    counters and, for a stack, its start.  [page_step] says so, and that the
    totals of the space follow; the theorem on the handler is a case analysis of
    its branches over a few lemmas on the slots of a region. *)

From S2P Require Import Prelude Errors Kobject MemContract Prog VmTree VmTypes VmPages Vm VmInv VmSplit VmUnmap VmProtect VmGap VmMap VmLife Fault.

(** ** Addresses and pages *)

Lemma page_of_eq va : fits 64 va -> page_of va = 4096 * (va / 4096).
Proof. intros Hv. exact (land_mask_down va 12 Hv ltac:(lia)). Qed.

Lemma page_of_facts va : fits 64 va ->
  is_page_aligned (page_of va) = true /\ page_of va <= va < page_of va + 4096 /\ 0 <= page_of va.
Proof.
  intros Hv. rewrite (page_of_eq va Hv), aligned_mod. unfold fits in Hv.
  split_and!; [by rewrite Z.mul_comm, Z.mod_mul|lia..].
Qed.

(** Aligned bounds do not tell an address from its page. *)
Lemma page_of_inside va lo hi :
  fits 64 va -> is_page_aligned lo = true -> is_page_aligned hi = true ->
  lo <= va < hi <-> lo <= page_of va < hi.
Proof.
  intros Hv Hlo Hhi. pose proof (page_of_facts va Hv) as (Ha & Hr & _).
  rewrite aligned_mod in *. lia.
Qed.

(** ** The first region above an address *)

Lemma first_above_spec st en t va best :
  disjoint_order st en (inorder t) ->
  match first_above st t va best with
  | Some x => (x ∈ inorder t /\ va < st x /\ forall y, y ∈ inorder t -> va < st y -> st x <= st y) \/
              (best = Some x /\ forall y, y ∈ inorder t -> st y <= va)
  | None => best = None /\ forall y, y ∈ inorder t -> st y <= va
  end.
Proof.
  revert best. induction t as [|c l IHl y r IHr]; intros best Ho; simpl.
  { destruct best as [b0|]; [right|]; (split; [done|]); intros z Hz; by apply elem_of_nil in Hz. }
  destruct (order_node _ _ _ _ _ _ Ho) as (Hl & Hr & Hy & Ll & Lr). destruct (Z.ltb_spec va (st y)).
  - specialize (IHl (Some y) Hl). destruct (first_above st l va (Some y)) as [x|]; [|by destruct IHl].
    left. destruct IHl as [(Hx & Hv & Hm)|[[= ->] Hm]].
    + split_and!; [apply elem_of_app; by left|done|].
      intros z [Hz|[->|Hz]%elem_of_cons]%elem_of_app Hvz; [by apply Hm|..].
      * destruct (Ll x Hx). lia.
      * destruct (Ll x Hx), (Lr z Hz). lia.
    + split_and!; [apply elem_of_app; right; left|done|].
      intros z [Hz|[->|Hz]%elem_of_cons]%elem_of_app Hvz; [specialize (Hm z Hz); lia|lia|destruct (Lr z Hz); lia].
  - specialize (IHr best Hr).
    assert (Hlow : forall z, z ∈ inorder l -> st z <= va) by (intros z Hz; destruct (Ll z Hz); lia).
    destruct (first_above st r va best) as [x|].
    + destruct IHr as [(Hx & Hv & Hm)|[-> Hm]]; [left|right].
      * split_and!; [apply elem_of_app; right; by right|done|].
        intros z [Hz|[->|Hz]%elem_of_cons]%elem_of_app Hvz; [specialize (Hlow z Hz); lia|lia|by apply Hm].
      * split; [done|]. intros z [Hz|[->|Hz]%elem_of_cons]%elem_of_app; auto.
    + destruct IHr as [-> Hm]. split; [done|]. intros z [Hz|[->|Hz]%elem_of_cons]%elem_of_app; auto.
Qed.

(** ** A step on one region *)

Lemma sumZ_perm f l l' : l ≡ₚ l' -> sumZ f l = sumZ f l'.
Proof. induction 1; simpl; lia. Qed.

(** Totals are over the regions, whatever the shape of the tree. *)
Lemma total_replace F w w' x r r' :
  vm_shape w -> vm_shape w' -> w_regions w !! x = Some r -> w_regions w' = <[x := r']> (w_regions w) ->
  total F w' = total F w + F r' - F r.
Proof.
  intros HS HS' E Er. rewrite <- (total_update F w (w_space w) x r r' HS E eq_refl). unfold total.
  rewrite (sumZ_perm _ (ids w') (ids w)).
  - apply sumZ_ext. intros z _. unfold region. simpl. by rewrite Er.
  - apply NoDup_Permutation; [by apply shape_NoDup..|]. intros z.
    rewrite (vs_dom _ HS'), (vs_dom _ HS), Er, lookup_insert_is_Some.
    destruct (decide (x = z)) as [->|]; [rewrite E|]; naive_solver.
Qed.

Record page_step (w : world) (x : Z) (r r' : vm_region) (dm dc dk : Z) (w' : world) : Prop := {
  pg_shape : vm_shape w';
  pg_regions : w_regions w' = <[x := r']> (w_regions w);
  pg_span : span r' = span r + dm;
  pg_committed : r_committed r' = bump (r_committed r) dc;
  pg_resident : r_resident r' = bump (r_resident r) dk;
  pg_totals : sp_total_mapped (w_space w') = bump (sp_total_mapped (w_space w)) dm /\
              sp_total_committed (w_space w') = bump (sp_total_committed (w_space w)) dc /\
              sp_total_resident (w_space w') = bump (sp_total_resident (w_space w)) dk;
  pg_limit : sp_commit_limit_pages (w_space w') = sp_commit_limit_pages (w_space w)
}.

Lemma bump_u64 a n : bump (u64 a) n = u64 (a + n).
Proof. unfold bump. destruct (Z.eqb_spec n 0) as [->|]; [by rewrite Z.add_0_r|]. apply u64_add_l. Qed.

Lemma bump_total t c n : u64 (t + bump c n - c) = u64 (t + n).
Proof.
  unfold bump. destruct (Z.eqb_spec n 0) as [->|]; [f_equal; lia|].
  unfold u64, wrap.
  replace (t + (c + n) mod 2 ^ 64 - c) with ((c + n) mod 2 ^ 64 + (t - c)) by lia.
  rewrite Zplus_mod_idemp_l. f_equal. lia.
Qed.

Section step.
  Context (w : world) (x : Z) (r r' : vm_region) (dm dc dk : Z) (w' : world).
  Context (HW : vm_wf w) (E : w_regions w !! x = Some r) (HP : page_step w x r r' dm dc dk w').

Lemma page_step_wf : vm_wf w'.
Proof.
  destruct HW as [HS [A1 A2 A3]], HP as [HS' Er Hsp Hc Hk (T1 & T2 & T3) _]. split; [done|].
  pose proof (fun F => total_replace F w w' x r r' HS HS' E Er) as HT. constructor; rewrite HT.
  - rewrite T1, A1, bump_u64, Hsp. f_equal. lia.
  - by rewrite T2, A2, bump_u64, Hc, bump_total.
  - by rewrite T3, A3, bump_u64, Hk, bump_total.
Qed.

(** Slots of the other regions stay. *)
Lemma page_step_slots s :
  has_slot w' s <-> (s ∈ lives (r_pages r') \/ (has_slot w s /\ s ∉ lives (r_pages r))).
Proof.
  destruct HW as [HS _], HP as [HS' Er _ _ _ _ _]. unfold has_slot. rewrite Er. split.
  - intros (z & q & [[-> ->]|[Hz Ez]]%lookup_insert_Some & Hs); [by left|]. right. split; [by exists z, q|].
    intros Hr. pose proof (vs_regions _ HS _ _ Ez) as Hq. pose proof (vs_regions _ HS _ _ E) as Hok.
    pose proof (proj1 (list.Forall_forall _ _) (ro_slots _ Hq) s Hs) as [H1 _].
    pose proof (proj1 (list.Forall_forall _ _) (ro_slots _ Hok) s Hr) as [H2 _].
    destruct (shape_disjoint w x z r q HS E Ez Hz); lia.
  - intros [Hs|[(z & q & Ez & Hs) Hn]]; [exists x, r'; by rewrite lookup_insert_eq|].
    destruct (decide (z = x)) as [->|Hz]; [congruence|]. exists z, q. by rewrite lookup_insert_ne.
Qed.

(** Outside the range of the region, the view stays. *)
Lemma page_step_view a :
  (r_va_start r <= a < r_va_end r -> r_va_start r' <= a < r_va_end r' /\ cell_at r' a = cell_at r a) ->
  (r_va_start r' <= a < r_va_end r' -> r_va_start r <= a < r_va_end r) ->
  view w' a = view w a.
Proof.
  destruct HW as [HS _], HP as [HS' Er _ _ _ _ _]. intros Hto Hof.
  apply view_agree; [done|done| |].
  - intros q (z & Ez & Hq). destruct (decide (z = x)) as [->|Hz].
    + assert (q = r) as -> by congruence. destruct (Hto Hq) as [H1 H2]. exists r'. split; [|done].
      exists x. by rewrite Er, lookup_insert_eq.
    + exists q. split; [|done]. exists z. by rewrite Er, lookup_insert_ne.
  - intros q (z & Ez & Hq). rewrite Er in Ez. apply lookup_insert_Some in Ez as [[-> ->]|[Hz Ez]].
    + exists r, z. auto.
    + exists q. by exists z.
Qed.
End step.

(** ** Slots of one region *)

Definition slot_put (m : vm_page_map) (i : nat) (s : vm_page_slot) : vm_page_map :=
  VmPageMap (pm_exists m) (pm_capacity m) (<[i := s]> (pm_slots m)).

Lemma slot_put_lookup m i s s0 : pm_slots m !! i = Some s0 -> pm_slots (slot_put m i s) !! i = Some s.
Proof. intros Hi. simpl. apply list_lookup_insert_eq. by apply lookup_lt_Some in Hi. Qed.

Lemma slot_put_put m i s s' : slot_put (slot_put m i s) i s' = slot_put m i s'.
Proof. unfold slot_put. simpl. by rewrite list_insert_insert_eq. Qed.

Lemma alter_insert {A} (f : A -> A) (i : nat) (l : list A) s : l !! i = Some s -> alter f i l = <[i := f s]> l.
Proof. revert i. induction l as [|y l IH]; intros [|i] Hi; simplify_eq/=; f_equal; auto. Qed.

(** [m] has a fresh slot [i] for page [va] and the live slots of [m0]. *)
Record fresh_in (m0 : vm_page_map) (va : Z) (i : nat) (m : vm_page_map) : Prop := {
  fi_slot : pm_slots m !! i = Some (fresh_slot va);
  fi_lives : lives m = lives m0;
  fi_ok : pages_ok m;
  fi_absent : va ∉ pages_of m0
}.

Lemma fresh_fill m0 va i m s :
  fresh_in m0 va i m -> live s -> s_va_page s = va ->
  lives (slot_put m i s) ≡ₚ s :: lives m0 /\ pages_ok (slot_put m i s).
Proof.
  intros [Hi Hl Hok Hn] Hs Hv. rewrite <- Hl. apply (place_ok m i va s); try done.
  unfold pages_of. by rewrite Hl, Hv.
Qed.

Lemma fresh_cleared m0 va i m :
  fresh_in m0 va i m -> lives (slot_put m i empty_slot) = lives m0 /\ pages_ok (slot_put m i empty_slot).
Proof.
  intros [Hi Hl [H1 H2 H3 H4 H5] Hn].
  assert (El : lives (slot_put m i empty_slot) = lives m).
  { by apply (filter_insert_same _ _ (fresh_slot va)); [|apply fresh_dead|apply empty_dead]. }
  split; [by rewrite El|]. constructor; simpl; try done.
  - unfold pm_count in *. simpl. by rewrite length_insert.
  - unfold pages_of. by rewrite El.
  - by apply Forall_insert; [|right].
Qed.

(** A live slot gives way to another of the same page. *)
Lemma filter_insert_live (l : list vm_page_slot) (i : nat) s0 s :
  l !! i = Some s0 -> live s0 -> live s ->
  exists l1 l2, filter live l = l1 ++ s0 :: l2 /\ filter live (<[i := s]> l) = l1 ++ s :: l2.
Proof.
  revert i. induction l as [|y l IH]; intros [|i] Hi H0 Hs; simplify_eq/=.
  - exists [], (filter live l). by rewrite !filter_cons_True.
  - destruct (IH i Hi H0 Hs) as (l1 & l2 & E1 & E2). rewrite !filter_cons, E1, E2.
    case_decide; [by exists (y :: l1), l2|by exists l1, l2].
Qed.

Lemma live_replaced m i s0 s :
  pages_ok m -> pm_slots m !! i = Some s0 -> live s0 -> live s -> s_va_page s = s_va_page s0 ->
  pages_ok (slot_put m i s) /\
  (forall t, t ∈ lives (slot_put m i s) <-> t = s \/ (t ∈ lives m /\ s_va_page t <> s_va_page s0)).
Proof.
  intros [H1 H2 H3 H4 H5] Hi H0 Hs Hv.
  destruct (filter_insert_live _ i s0 s Hi H0 Hs) as (l1 & l2 & E1 & E2).
  assert (El : lives m = l1 ++ s0 :: l2) by done. assert (El' : lives (slot_put m i s) = l1 ++ s :: l2) by done.
  unfold pages_of in H4. rewrite El, fmap_app, fmap_cons in H4. split.
  - constructor; simpl; try done.
    + unfold pm_count in *. simpl. by rewrite length_insert.
    + unfold pages_of. by rewrite El', fmap_app, fmap_cons, Hv.
    + by apply Forall_insert; [|left].
  - intros t. rewrite El, El', !elem_of_app, !elem_of_cons.
    apply list.NoDup_app in H4 as (_ & N1 & [N2 _]%list.NoDup_cons).
    assert (D1 : t ∈ l1 -> s_va_page t <> s_va_page s0).
    { intros Ht Heq. apply (N1 (s_va_page t)); [by apply list_elem_of_fmap_2|]. rewrite Heq. left. }
    assert (D2 : t ∈ l2 -> s_va_page t <> s_va_page s0).
    { intros Ht Heq. apply N2. rewrite <- Heq. by apply list_elem_of_fmap_2. }
    naive_solver.
Qed.

Section slots.
  Context (b : blame) (w : world) (x : Z) (r : vm_region).

(** The space with another page map in region [x]. *)
Definition repaged (m : vm_page_map) : world := set_region w x (with_pages m r).

Lemma repaged_region m : region (repaged m) x = with_pages m r.
Proof. apply set_region_eq. Qed.

Lemma region_reserve_ok va (Q : option nat -> world -> Prop) :
  w_regions w !! x = Some r -> pages_ok (r_pages r) -> va ∉ pages_of (r_pages r) ->
  (forall i m, fresh_in (r_pages r) va i m -> Q (Some i) (repaged m)) -> Q None w ->
  spec b (region_reserve x va) w Q.
Proof.
  intros E Hok Hn HS HN. unfold region_reserve. vstep. vstep. rewrite (region_Some _ _ _ E). vstep.
  eapply spec_weaken; [|eapply spec_mono; [|apply (reserve_page_exact (r_pages r) va w Hok)]]; [done|].
  intros [slot m] w' (-> & Hl & Hok' & Hs). vstep. apply spec_update_set. rewrite (region_Some _ _ _ E). apply spec_ret.
  destruct slot as [i|].
  - apply (HS i m). destruct Hs as (s & Hi & Hv & [Hin|[_ ->]]); [|by constructor].
    exfalso. apply Hn. rewrite <- Hv. by apply list_elem_of_fmap_2.
  - destruct Hs as (-> & _). replace (with_pages (r_pages r) r) with r by by destruct r. by rewrite set_same.
Qed.

Lemma set_slot_ok i f m s (Q : unit -> world -> Prop) :
  pm_slots m !! i = Some s -> Q tt (repaged (slot_put m i (f s))) -> spec b (set_slot x i f) (repaged m) Q.
Proof.
  intros Hi HQ. unfold set_slot. apply spec_update_set. rewrite repaged_region. unfold repaged.
  rewrite set_set. simpl. rewrite (alter_insert f i _ s Hi). exact HQ.
Qed.

Lemma clear_slot_ok i m s (Q : unit -> world -> Prop) :
  pm_slots m !! i = Some s -> s_binding s = None ->
  Q tt (repaged (slot_put m i empty_slot)) -> spec b (clear_slot x i) (repaged m) Q.
Proof.
  intros Hi Hs HQ. unfold clear_slot. vstep. vstep. rewrite repaged_region. simpl. rewrite Hi. simpl.
  unfold slot_clear. rewrite Hs. by apply (set_slot_ok i _ m s).
Qed.
End slots.

(** ** Results *)

Definition committed_ok (w : world) : Prop :=
  sp_total_committed (w_space w) <= sp_commit_limit_pages (w_space w).

(** The slots of all pages but [p] are the same. *)
Definition other_slots (p : Z) (w w' : world) : Prop :=
  forall s, s_va_page s <> p -> (has_slot w' s <-> has_slot w s).

Definition cowable (k : vm_page_state) : bool :=
  bool_decide (k = ps_cow) || bool_decide (k = ps_file_cache) || bool_decide (k = ps_ipc).

(** The address lies in a copy-on-write region. *)
Definition in_cow (w : world) (va : Z) : bool :=
  match vm_find w va with Some x => cow_or_shared (r_flags (region w x)) | None => false end.

(** The stack region [r] has grown by the page [p] below it. *)
Record grown (p : Z) (w : world) (r : vm_region) (w' : world) : Prop := {
  gr_region : exists x, w_regions w !! x = Some r /\ has_flag (r_flags r) vf_stack = true;
  gr_below : r_va_start r = p + VM_PAGE_SIZE /\ VM_USER_START <= p;
  gr_page : forall a, p <= a < p + VM_PAGE_SIZE -> view w a = None /\ view w' a = Some (cell_at (with_range p (r_va_end r) r) a);
  gr_rest : r_backing r <> bk_physical -> forall a, ~ (p <= a < p + VM_PAGE_SIZE) -> view w' a = view w a
}.

(** What the handler promises for each action.  [P None new]: the frame [new] was
    mapped for the page; [P (Some old) new]: it was also made a private copy of
    the frame [old]. *)
Definition fault_post (P : option Z -> Z -> Prop) (fault_va : Z) (is_write : bool) (w : world) (a : fault_action) (w' : world) : Prop :=
  let p := page_of fault_va in
  vm_wf w' /\ (fits 64 (sp_commit_limit_pages (w_space w)) -> committed_ok w -> committed_ok w') /\
  match a with
  | fa_resolved =>
      (forall v, view w' v = view w v) /\ other_slots p w w' /\
      exists s, has_slot w' s /\ s_va_page s = p /\
        ((forall s0, has_slot w s0 -> s_va_page s0 <> p) -> P None (s_phys s)) /\
        forall s0, has_slot w s0 -> s_va_page s0 = p ->
          if is_write && cowable (s_state s0) && in_cow w fault_va
          then s_state s = ps_resident /\ s_binding s = None /\ P (Some (s_phys s0)) (s_phys s) else s = s0
  | fa_stack_grew =>
      (exists r, grown p w r w') /\ other_slots p w w' /\
      (exists s, has_slot w' s /\ s_va_page s = p /\ P None (s_phys s)) /\ (forall s, has_slot w s -> s_va_page s <> p)
  | fa_killed | fa_guard_hit | fa_oom => same_space w w'
  | fa_retry =>
      same_space w w' \/
      (is_write = true /\ exists x r, vm_find w fault_va = Some x /\ w_regions w !! x = Some r /\
         r_backing r = bk_ipc_shared /\ w' = set_region w x (with_backing bk_anonymous 0 r))
  end.

Definition gives_up (a : fault_action) : Prop := a = fa_killed \/ a = fa_guard_hit \/ a = fa_oom \/ a = fa_retry.

Lemma post_same {P} va is_write w w' a :
  gives_up a -> vm_wf w' -> same_space w w' ->
  sp_commit_limit_pages (w_space w') = sp_commit_limit_pages (w_space w) ->
  sp_total_committed (w_space w') = sp_total_committed (w_space w) -> fault_post P va is_write w a w'.
Proof.
  intros Ha HW HS Hl Hc. split; [done|]. split; [intros _; unfold committed_ok; by rewrite Hl, Hc|].
  destruct Ha as [-> |[-> |[-> | ->]]]; try done. by left.
Qed.

Lemma post_refl {P} va is_write w a : gives_up a -> vm_wf w -> fault_post P va is_write w a w.
Proof. intros Ha HW. by apply post_same; [| |apply same_space_refl|..]. Qed.

#[export] Hint Unfold gives_up : zx.

Lemma fault_post_mono (P P' : option Z -> Z -> Prop) va is_write w a w' :
  (forall old new, P old new -> P' old new) -> fault_post P va is_write w a w' -> fault_post P' va is_write w a w'.
Proof.
  intros HP (HW & HB & H). split; [done|]. split; [done|]. destruct a; try done.
  - destruct H as (HV & HO & s & Hs & Hv & HN & H). split; [done|]. split; [done|]. exists s. split_and!; [done|done|auto|].
    intros s0 Hs0 Hv0. specialize (H s0 Hs0 Hv0). destruct (_ && _ && _); naive_solver.
  - naive_solver.
Qed.

(** The calls of [t] mapped the frame [new] at page [p]; a copy was allocated and
    got the contents of [old] as well. *)
Definition installed (root p : Z) (t : list (event vcall)) (old : option Z) (new : Z) : Prop :=
  (exists prot, Ev (CMapPage root p new prot) (Expected tt) ∈ t) /\
  match old with
  | Some old => Ev (CFrameAlloc false) (Expected new) ∈ t /\ Ev (CCopyPage old new) tt ∈ t
  | None => True
  end.

Lemma installed_app root p t t' old new : installed root p t' old new -> installed root p (t ++ t') old new.
Proof.
  intros [[prot H1] H2]. split; [exists prot; apply elem_of_app; by right|].
  destruct old; [|done]. destruct H2. split; apply elem_of_app; by right.
Qed.

(** The frame is known, whatever calls follow. *)
Lemma fix_frame b (Pt : list (event vcall) -> option Z -> Z -> Prop) P va is_write w w0 (m : M fault_action) :
  (forall t old new, P old new -> Pt t old new) ->
  spec b m w0 (fault_post P va is_write w) -> tspec b m w0 (fun t => fault_post (Pt t) va is_write w).
Proof. intros HP. apply tspec_mono. intros t a w'. apply fault_post_mono, HP. Qed.

(** ** Steps of a region and their results *)

Lemma with_pages_ok r m c k :
  region_ok r -> pages_ok m -> Forall (slot_ok r) (lives m) -> region_ok (with_counts c k (with_pages m r)).
Proof. intros [] Hm Hs. by constructor. Qed.

Lemma shape_totals w a c k :
  vm_shape w -> vm_shape (World (with_totals a c k (sp_region_count (w_space w)) (w_space w)) (w_regions w)).
Proof. by intros []. Qed.

(** The space with a page map in region [x] and the counters gone up. *)
Definition charged (w : world) (x : Z) (r : vm_region) (m : vm_page_map) (dm dc dk : Z) : world :=
  World (with_totals (bump (sp_total_mapped (w_space w)) dm) (bump (sp_total_committed (w_space w)) dc)
           (bump (sp_total_resident (w_space w)) dk) (sp_region_count (w_space w)) (w_space w))
    (<[x := with_counts (bump (r_committed r) dc) (bump (r_resident r) dk) (with_pages m r)]> (w_regions w)).

Lemma account_page_ok b w x r m dm dc dk (Q : unit -> world -> Prop) :
  Q tt (charged w x r m dm dc dk) -> spec b (account_page x dm dc dk) (repaged w x r m) Q.
Proof.
  intros HQ. unfold account_page. vstep. apply spec_update_set. rewrite repaged_region. unfold repaged.
  rewrite set_set. apply spec_update_space. exact HQ.
Qed.

Lemma charged_shape w x r m dm dc dk :
  vm_shape w -> w_regions w !! x = Some r -> pages_ok m -> Forall (slot_ok r) (lives m) ->
  vm_shape (charged w x r m dm dc dk).
Proof.
  intros HS E Hm Hs. pose proof (vs_regions _ HS _ _ E) as Hok.
  apply (shape_totals (set_region w x _)). apply (shape_update w x r); try done.
  - by apply with_pages_ok.
  - intros z q [Hz Ez]%lookup_delete_Some. simpl. destruct (shape_disjoint w x z r q HS E Ez Hz); auto.
Qed.

Lemma repaged_charged w x r m : repaged w x r m = charged w x r m 0 0 0.
Proof. unfold repaged, charged, set_region, bump. simpl. by destruct w as [[] ?], r. Qed.

(** The page map of a region changes, its range does not. *)
Section paging.
  Context (w : world) (x : Z) (r : vm_region) (m : vm_page_map).
  Context (HW : vm_wf w) (E : w_regions w !! x = Some r).
  Context (Hm : pages_ok m) (Hs : Forall (slot_ok r) (lives m)).

Lemma charged_step dc dk :
  page_step w x r (with_counts (bump (r_committed r) dc) (bump (r_resident r) dk) (with_pages m r)) 0 dc dk
    (charged w x r m 0 dc dk).
Proof. constructor; [by apply charged_shape; [apply HW|..]|done|unfold span; simpl; lia|done..]. Qed.

Lemma charged_wf dc dk : vm_wf (charged w x r m 0 dc dk).
Proof. eapply page_step_wf; [done|done|apply charged_step]. Qed.

Lemma charged_view dc dk v : view (charged w x r m 0 dc dk) v = view w v.
Proof. by eapply page_step_view; [done|done|apply charged_step|..]. Qed.

Lemma charged_slots dc dk s :
  has_slot (charged w x r m 0 dc dk) s <-> (s ∈ lives m \/ (has_slot w s /\ s ∉ lives (r_pages r))).
Proof. exact (page_step_slots _ _ _ _ _ _ _ _ HW E (charged_step dc dk) s). Qed.

Lemma charged_budget dc dk :
  (dc = 0 \/ dc = 1 /\ vm_commit_admitted (w_space w) 1 = true) ->
  fits 64 (sp_commit_limit_pages (w_space w)) -> committed_ok w -> committed_ok (charged w x r m 0 dc dk).
Proof.
  intros Hdc Hf Hc. unfold committed_ok in *. simpl. destruct Hdc as [-> |[-> Ha]]; [done|].
  unfold vm_commit_admitted in Ha. rewrite andb_true_iff, !Z.leb_le in Ha. unfold bump. simpl.
  destruct HW as [_ [_ A2 _]]. pose proof (u64_fits (total r_committed w)) as Hu. rewrite <- A2 in Hu.
  rewrite u64_small; [lia|]. unfold fits in *. lia.
Qed.

(** The live slots are the same: nothing happened. *)
Lemma quiet_post {P} va is_write a :
  gives_up a -> lives m = lives (r_pages r) -> fault_post P va is_write w a (repaged w x r m).
Proof.
  intros Ha El. rewrite repaged_charged. apply post_same; try done; [apply charged_wf|].
  split; [intros v; apply charged_view|]. intros s. rewrite charged_slots, El.
  split; [|destruct (decide (s ∈ lives (r_pages r))); tauto].
  intros [Hin|[? _]]; [by exists x, r|done].
Qed.
End paging.

(** A slot of a page lies in the region of the page. *)
Lemma slot_region w x r s :
  vm_shape w -> w_regions w !! x = Some r -> has_slot w s -> r_va_start r <= s_va_page s < r_va_end r ->
  s ∈ lives (r_pages r).
Proof.
  intros HS E (z & q & Ez & Hs) Hr. destruct (decide (z = x)) as [->|Hz]; [congruence|].
  pose proof (proj1 (list.Forall_forall _ _) (ro_slots _ (vs_regions _ HS _ _ Ez)) s Hs) as [H1 _].
  destruct (shape_disjoint w x z r q HS E Ez (not_eq_sym Hz)); lia.
Qed.

Section in_region.
  Context (w : world) (x : Z) (r : vm_region) (va : Z) (is_write : bool).
  Context (HW : vm_wf w) (E : w_regions w !! x = Some r) (Hva : fits 64 va).
  Context (Hin : r_va_start r <= va < r_va_end r).
Let p := page_of va.

Lemma page_inside : r_va_start r <= p < r_va_end r.
Proof.
  destruct HW as [HS _]. destruct (vs_regions _ HS _ _ E) as [_ _ [H1 H2] _ _ _ _ _].
  by apply (page_of_inside va).
Qed.

Lemma here : vm_find w va = Some x.
Proof. apply vm_find_Some; [apply HW|eauto]. Qed.

(** A page that was not resident is now. *)
Lemma new_page_post {P} i m s dc dk :
  fresh_in (r_pages r) p i m -> live s -> s_va_page s = p ->
  (s_binding s <> None -> s_state s <> ps_portal /\ s_phys s <> 0) ->
  (dc = 0 \/ dc = 1 /\ vm_commit_admitted (w_space w) 1 = true) -> P None (s_phys s) ->
  fault_post P va is_write w fa_resolved (charged w x r (slot_put m i s) 0 dc dk).
Proof.
  intros HF Hl Hv Hb Hdc HN. pose proof page_inside as Hp.
  pose proof (vs_regions _ (proj1 HW) _ _ E) as Hok.
  destruct (fresh_fill _ _ _ _ _ HF Hl Hv) as [HP Hm].
  assert (Hs : Forall (slot_ok r) (lives (slot_put m i s))).
  { rewrite HP. constructor; [|apply Hok]. split; [by rewrite Hv|done]. }
  split; [by apply charged_wf|]. split; [by apply charged_budget|].
  pose proof (charged_slots w x r _ HW E Hm Hs dc dk) as HS. split; [intros v; by apply charged_view|].
  split.
  - intros t Ht. rewrite HS, HP, elem_of_cons. split.
    + intros [[->|Hin']|[? _]]; [done|by exists x, r|done].
    + intros Ht'. destruct (decide (t ∈ lives (r_pages r))); auto.
  - exists s. split_and!; [apply HS; left; rewrite HP; left|done|done|].
    intros s0 Hs0 Hv0. exfalso. change (page_of va) with p in Hv0. apply (fi_absent _ _ _ _ HF). rewrite <- Hv0. apply list_elem_of_fmap_2.
    apply (slot_region w x r); [apply HW|done|done|by rewrite Hv0].
Qed.

(** A reservation that came to nothing. *)
Lemma cleared_post {P} i m a :
  gives_up a -> fresh_in (r_pages r) p i m -> fault_post P va is_write w a (repaged w x r (slot_put m i empty_slot)).
Proof.
  intros Ha HF. destruct (fresh_cleared _ _ _ _ HF) as [El Hm].
  apply quiet_post; try done. rewrite El. apply (vs_regions _ (proj1 HW) _ _ E).
Qed.

Lemma absent_page : find_page (r_pages r) p = None -> p ∉ pages_of (r_pages r).
Proof.
  pose proof (ro_pages _ (vs_regions _ (proj1 HW) _ _ E)) as Hok. unfold find_page.
  destruct (pm_exists (r_pages r)) eqn:Ex.
  - pose proof (scan_page_spec (pm_slots (r_pages r)) p 0) as Hs. intros H. by rewrite H in Hs.
  - intros _. unfold pages_of, lives. rewrite (pages_absent _ Hok Ex). apply not_elem_of_nil.
Qed.

Lemma reserve_here b va' (Q : option nat -> world -> Prop) :
  va' ∉ pages_of (r_pages r) ->
  (forall i m, fresh_in (r_pages r) va' i m -> Q (Some i) (repaged w x r m)) -> Q None w ->
  spec b (region_reserve x va') w Q.
Proof. intros Hn. apply region_reserve_ok; [done| |done]. apply (vs_regions _ (proj1 HW) _ _ E). Qed.
End in_region.

Lemma repaged_self w x r : w_regions w !! x = Some r -> repaged w x r (r_pages r) = w.
Proof.
  intros E. unfold repaged. replace (with_pages (r_pages r) r) with r by by destruct r. by apply set_same.
Qed.

(** Calls whose answers do not matter, up to the result. *)
Ltac fcalls :=
  cbv beta iota;
  repeat lazymatch goal with
         | |- spec _ (call _ ≫= _) _ _ => apply spec_call_any; intros _; cbv beta iota
         end.
(** A branch that gives up in a state that differs in nothing. *)
Ltac give_up_same := fcalls; apply spec_ret; apply post_refl; [unfold gives_up; tauto|done].

(** The same for a branch whose calls are looked at. *)
Lemma any_trace b (Pt : list (event vcall) -> option Z -> Z -> Prop) va is_write w w0 (m : M fault_action) :
  spec b m w0 (fault_post (fun _ _ => False) va is_write w) -> tspec b m w0 (fun t => fault_post (Pt t) va is_write w).
Proof. by apply fix_frame. Qed.
Ltac tgive_up := cbv beta iota; apply any_trace; give_up_same.
(** From here on the frame [new] is mapped. *)
Ltac frame_is new :=
  apply (fix_frame _ _ (fun o n => o = None /\ n = new));
    [intros ? ? ? [-> ->]; split; [eexists; repeat (left || right)|done]|].

Section branches.
  Context (w : world) (x : Z) (r : vm_region) (va : Z) (is_write : bool).
  Context (HW : vm_wf w) (E : w_regions w !! x = Some r) (Hva : fits 64 va).
  Context (Hin : r_va_start r <= va < r_va_end r).
  Context (b : blame) (root key : Z).

Lemma fault_anonymous_ok :
  find_page (r_pages r) (page_of va) = None ->
  tspec b (fault_anonymous root key x (page_of va) is_write) w (fun t => fault_post (installed root (page_of va) t) va is_write w).
Proof.
  intros Hnone. pose proof (absent_page w x r va HW E Hnone) as Habs. unfold fault_anonymous.
  apply tspec_get. cbv zeta. rewrite (region_Some _ _ _ E).
  destruct (vm_commit_admitted (w_space w) 1) eqn:Ead; cbn [negb]; [|tgive_up].
  apply tspec_call_any. intros [phys|?]; [|tgive_up].
  apply tspec_call_any. intros [?|?]; [|tgive_up].
  apply tspec_call_any. intros [[]|?]; [|tgive_up]. frame_is phys.
  vstep. apply (reserve_here w x r HW E); [done| |give_up_same]. intros i m HF.
  vstep. apply (set_slot_ok b w x r i _ m _ _ (fi_slot _ _ _ _ HF)).
  set (s := with_frame _ _ _).
  assert (Hput : pm_slots (slot_put m i s) !! i = Some s) by (eapply slot_put_lookup, HF).
  apply spec_call_any. intros [?|?].
  2:{ vstep. apply (clear_slot_ok b w x r i _ s); [done|done|]. rewrite slot_put_put.
      fcalls. apply spec_ret. apply cleared_post; auto with zx. }
  unfold stamp_frame. apply spec_call_any. intros [?|?].
  2:{ fcalls. vstep. apply (clear_slot_ok b w x r i _ s); [done|done|]. rewrite slot_put_put.
      fcalls. apply spec_ret. apply cleared_post; auto with zx. }
  fcalls. vstep. apply account_page_ok. apply spec_ret. apply new_page_post; try done; [|by right].
  unfold s, live. simpl. by destruct (negb is_write && _).
Qed.

Lemma pin_source_any q s0 (Q : option binding -> world -> Prop) :
  (forall o, Q o w) -> spec b (pin_source q s0) w Q.
Proof.
  intros HQ. unfold pin_source. destruct (s_binding s0).
  - vstep. apply policy_field_any. intros k. apply spec_call_any. intros [?|?]; apply spec_ret, HQ.
  - apply spec_call_any. intros [?|?]; apply spec_ret, HQ.
Qed.

Lemma release_new_pin_any o phys w' (Q : unit -> world -> Prop) :
  Q tt w' -> spec b (release_new_pin o phys) w' Q.
Proof. intros HQ. unfold release_new_pin. destruct o; apply spec_call_any; intros _; by apply spec_ret. Qed.

(** A region that was shared becomes anonymous. *)
Lemma detached_wf :
  r_backing r <> bk_physical -> vm_wf (set_region w x (with_backing bk_anonymous 0 r)).
Proof.
  intros Hb. apply (page_step_wf w x r (with_backing bk_anonymous 0 r) 0 0 0); [done|done|].
  destruct HW as [HS _]. pose proof (vs_regions _ HS _ _ E) as Hok.
  constructor; try done; [|unfold span; simpl; lia]. apply (shape_update w x r); try done.
  - by destruct Hok.
  - intros z q [Hz Ez]%lookup_delete_Some. simpl. destruct (shape_disjoint w x z r q HS E Ez Hz); auto.
Qed.

Lemma fault_ipc_ok is_exec :
  r_backing r = bk_ipc_shared -> find_page (r_pages r) (page_of va) = None ->
  tspec b (fault_ipc root x (page_of va) is_write is_exec) w (fun t => fault_post (installed root (page_of va) t) va is_write w).
Proof.
  intros Hbk Hnone. pose proof (absent_page w x r va HW E Hnone) as Habs. unfold fault_ipc.
  apply tspec_get. cbv zeta. rewrite (region_Some _ _ _ E). destruct (r_file_node r =? 0); [tgive_up|].
  apply tspec_call_any. intros source.
  destruct (match find_page _ _ with Some _ => _ | None => _ end) as [s0|] eqn:Es.
  2:{ destruct is_write eqn:Ew; cbn [negb]; [|tgive_up]. apply any_trace. vstep. apply spec_update_set.
      rewrite (region_Some _ _ _ E). apply spec_ret. split; [apply detached_wf; by rewrite Hbk|].
      split; [done|]. right. split; [done|]. exists x, r. split_and!; try done. by apply here with r. }
  assert (Hphys : s_phys s0 <> 0).
  { destruct (find_page (r_pages source) _) as [[j s1]|]; [|done]. destruct (Z.eqb_spec (s_phys s1) 0); [done|]. by injection Es as <-. }
  destruct (vm_commit_admitted (w_space w) 1) eqn:Ead; cbn [negb]; [|tgive_up].
  apply tspec_bind. apply (tspec_mono _ _ _ (fun _ _ w' => w' = w)); [|by apply pin_source_any]. intros t0 [cb|] ? ->; [|tgive_up].
  apply tspec_call_any. intros [[]|?].
  2:{ apply any_trace. vstep. apply release_new_pin_any. give_up_same. }
  apply (fix_frame _ _ (fun o n => o = None /\ n = s_phys s0)).
  { intros t old new [-> ->]. apply (installed_app _ _ (_ :: t0)). split; [eexists; left|done]. }
  vstep. apply (reserve_here w x r HW E); [done| |].
  2:{ fcalls. vstep. apply release_new_pin_any. give_up_same. }
  intros i m HF. vstep. apply (set_slot_ok b w x r i _ m _ _ (fi_slot _ _ _ _ HF)).
  set (s := with_binding _ _).
  assert (Hput : pm_slots (slot_put m i s) !! i = Some s) by (eapply slot_put_lookup, HF).
  apply spec_call_any. intros [?|?].
  - vstep. apply account_page_ok. apply spec_ret. apply new_page_post; try done. by right.
  - vstep. apply (set_slot_ok b w x r i _ _ _ _ Hput). rewrite slot_put_put. vstep.
    apply (clear_slot_ok b w x r i _ (with_binding None s)); [eapply slot_put_lookup, HF|done|]. rewrite slot_put_put.
    fcalls. vstep. apply release_new_pin_any. apply spec_ret. apply cleared_post; auto with zx.
Qed.

(** *** Copy on write *)

Lemma spec_repaged {A} (k : M A) Q : spec b k (repaged w x r (r_pages r)) Q -> spec b k w Q.
Proof. by rewrite repaged_self. Qed.

Lemma found_page i s0 : find_page (r_pages r) (page_of va) = Some (i, s0) ->
  pm_slots (r_pages r) !! i = Some s0 /\ live s0 /\ s_va_page s0 = page_of va.
Proof.
  unfold find_page. destruct (pm_exists _); [|done].
  pose proof (scan_page_spec (pm_slots (r_pages r)) (page_of va) 0) as Hs. intros Es. rewrite Es in Hs.
  destruct Hs as (k & -> & ?). done.
Qed.

(** The slots of the page are those found in its region. *)
Lemma found_only i s0 s : find_page (r_pages r) (page_of va) = Some (i, s0) ->
  has_slot w s -> s_va_page s = page_of va -> s = s0.
Proof.
  intros Hf Hs Hv. destruct (found_page i s0 Hf) as (Hi & Hl & Hv0).
  pose proof (vs_regions _ (proj1 HW) _ _ E) as Hok.
  assert (Hs' : s ∈ lives (r_pages r)).
  { apply (slot_region w x r); [apply HW|done|done|]. rewrite Hv. by apply page_inside with w x. }
  pose proof (lives_lookup _ _ _ Hi Hl) as H0.
  pose proof (po_nodup _ (ro_pages _ Hok)) as Hnd. unfold pages_of in Hnd.
  apply list_elem_of_lookup in Hs' as [j Hj], H0 as [k Hk].
  assert (j = k) as ->; [|congruence].
  eapply (NoDup_lookup (s_va_page <$> lives (r_pages r))); [done| |]; rewrite list_lookup_fmap.
  - by rewrite Hj.
  - rewrite Hk. simpl. by rewrite Hv0, Hv.
Qed.

Lemma replaced_post {P} i s0 s dc :
  find_page (r_pages r) (page_of va) = Some (i, s0) -> live s -> s_va_page s = page_of va ->
  s_state s = ps_resident -> s_binding s = None -> P (Some (s_phys s0)) (s_phys s) ->
  is_write && cowable (s_state s0) && in_cow w va = true ->
  (dc = 0 \/ dc = 1 /\ vm_commit_admitted (w_space w) 1 = true) ->
  fault_post P va is_write w fa_resolved (charged w x r (slot_put (r_pages r) i s) 0 dc 0).
Proof.
  intros Hf Hl Hv Hst Hb HP Hc Hdc. destruct (found_page i s0 Hf) as (Hi & Hl0 & Hv0).
  pose proof (vs_regions _ (proj1 HW) _ _ E) as Hok.
  destruct (live_replaced (r_pages r) i s0 s (ro_pages _ Hok) Hi Hl0 Hl ltac:(congruence)) as [Hm HL].
  assert (Hs : Forall (slot_ok r) (lives (slot_put (r_pages r) i s))).
  { apply list.Forall_forall. intros t [->|[Ht _]]%HL.
    - split; [rewrite Hv; by apply page_inside with w x|by rewrite Hb].
    - by apply (proj1 (list.Forall_forall _ _) (ro_slots _ Hok)). }
  split; [by apply charged_wf|]. split; [by apply charged_budget|].
  pose proof (charged_slots w x r _ HW E Hm Hs dc 0) as HS. split; [intros v; by apply charged_view|].
  split.
  - intros t Ht. rewrite HS, HL. split.
    + intros [[->|[Hin' _]]|[? _]]; [done|by exists x, r|done].
    + intros Ht'. destruct (decide (t ∈ lives (r_pages r))) as [Hi'|]; [left; right; split; [done|congruence]|by right].
  - exists s. split_and!; [apply HS; left; apply HL; by left|done| |].
    { intros Hn. exfalso. apply (Hn s0); [|done]. exists x, r. split; [done|by eapply lives_lookup]. }
    intros s1 Hs1 Hv1. rewrite (found_only i s0 s1 Hf Hs1 Hv1). by rewrite Hc.
Qed.

Lemma copy_on_write_ok i s0 :
  find_page (r_pages r) (page_of va) = Some (i, s0) ->
  is_write && cowable (s_state s0) && in_cow w va = true ->
  tspec b (copy_on_write root key x (page_of va) i) w (fun t => fault_post (installed root (page_of va) t) va is_write w).
Proof.
  intros Hf Hc. destruct (found_page i s0 Hf) as (Hi & Hl0 & Hv0). unfold copy_on_write.
  apply tspec_get. cbv beta iota zeta. rewrite (region_Some _ _ _ E), Hi. change (default empty_slot (Some s0)) with s0.
  destruct (bool_decide (s_state s0 = ps_file_cache) && negb (vm_commit_admitted (w_space w) 1)) eqn:Ead; [tgive_up|].
  apply tspec_call_any. intros [np|?]; [|tgive_up]. apply tspec_call_any. intros [?|?]; [|tgive_up].
  apply tspec_call_any. intros []. apply tspec_call_any. intros []. apply tspec_call_any. intros [[]|?]; [|tgive_up].
  apply (tspec_mono _ _ _ (fun _ => fault_post (fun old new => old = Some (s_phys s0) /\ new = np) va is_write w)).
  { intros t a' w'. apply (fault_post_mono (fun old new => old = Some (s_phys s0) /\ new = np)).
    intros old new [-> ->]. split; [eexists; right; right; right; right; left|].
    split; [left|right; right; left]. }
  match goal with |- tspec _ ?m _ _ => change (spec b m w (fault_post (fun old new => old = Some (s_phys s0) /\ new = np) va is_write w)) end.
  unfold stamp_frame. apply spec_call_any. intros [?|?]; [|give_up_same]. fcalls.
  set (m := r_pages r) in *. set (old := s_state s0) in *.
  apply spec_repaged. fold m.
  vstep. apply (set_slot_ok b w x r i _ m _ _ Hi). set (s1 := with_frame np old s0).
  assert (Hput : forall t, pm_slots (slot_put m i t) !! i = Some t) by (intros t; by eapply slot_put_lookup).
  apply spec_call_any. intros [?|?].
  2:{ fcalls. vstep. apply (set_slot_ok b w x r i _ _ _ _ (Hput s1)). rewrite slot_put_put. fcalls. apply spec_ret.
      replace (slot_put m i _) with m; [rewrite (repaged_self w x r E : repaged w x r m = w); by apply post_refl; auto with zx|].
      unfold slot_put. replace (with_frame (s_phys s0) old s1) with s0 by by destruct s0.
      rewrite list_insert_id by done. by destruct m. }
  assert (Hfin : forall b' s2, s_va_page s2 = page_of va -> s_binding s2 = None ->
    spec b' (_ ← set_slot x i (with_frame np ps_resident);
             _ ← call (CSske np key (negb (has_flag (r_prot r) prot_write)));
             _ ← (if bool_decide (old = ps_file_cache) then account_page x 0 1 0 else mret tt);
             mret fa_resolved) (repaged w x r (slot_put m i s2)) (fault_post (fun old new => old = Some (s_phys s0) /\ new = np) va is_write w)).
  { intros b' s2 Hv2 Hb2. vstep. apply (set_slot_ok b' w x r i _ _ _ _ (Hput s2)). rewrite slot_put_put. fcalls.
    assert (HR : forall dc, (dc = 0 \/ dc = 1 /\ vm_commit_admitted (w_space w) 1 = true) ->
      fault_post (fun old new => old = Some (s_phys s0) /\ new = np) va is_write w fa_resolved (charged w x r (slot_put m i (with_frame np ps_resident s2)) 0 dc 0)).
    { intros dc Hdc. by apply (replaced_post i s0). }
    destruct (bool_decide (old = ps_file_cache)) eqn:En.
    - vstep. apply account_page_ok. apply spec_ret, HR. right. split; [done|].
      by destruct (vm_commit_admitted (w_space w) 1).
    - apply spec_bind, spec_ret, spec_ret. rewrite repaged_charged. apply HR. by left. }
  cbv beta iota. destruct (s_binding s0) as [bd|] eqn:Eb.
  - vstep. apply spec_call_bind. intros [?|?]; [|apply spec_fatal; right; left; simpl; by eexists].
    apply (set_slot_ok _ w x r i _ _ _ _ (Hput s1)). rewrite slot_put_put. by apply Hfin.
  - vstep. apply spec_call_bind. intros [?|?]; [|apply spec_fatal; right; left; simpl; by eexists].
    apply spec_ret. by apply Hfin.
Qed.

(** *** File pages *)

Lemma release_lease_any l w' (Q : unit -> world -> Prop) : Q tt w' -> spec b (release_lease l) w' Q.
Proof.
  intros HQ. unfold release_lease. destruct (ls_binding l) as [bd|]; [|by apply spec_ret].
  destruct (_ =? 0); [by apply spec_ret|]. apply spec_call_bind. intros [?|?]; [by apply spec_ret|].
  apply spec_fatal; right; left; simpl; by eexists.
Qed.

(** A broken promise inside the first part of a program excuses its rest. *)
Lemma spec_call_bind2 {R A B} (c : vcall R) (k : R -> M A) (k2 : A -> M B) w' Q :
  (forall a, spec (after b (Ev c a)) (k a ≫= k2) w' Q) -> spec b ((call c ≫= k) ≫= k2) w' Q.
Proof. exact (spec_call_bind b c (fun a => k a ≫= k2) w' Q). Qed.

Lemma install_file_page_ok index l :
  find_page (r_pages r) (page_of va) = None -> (ls_binding l <> None -> ls_phys l <> 0) ->
  tspec b (install_file_page root x (page_of va) index l) w (fun t => fault_post (installed root (page_of va) t) va is_write w).
Proof.
  intros Hnone Hl. pose proof (absent_page w x r va HW E Hnone) as Habs. unfold install_file_page.
  apply tspec_region. rewrite (region_Some _ _ _ E). cbv zeta. apply tspec_call_any. intros [[]|?].
  2:{ apply any_trace. vstep. apply release_lease_any. give_up_same. }
  frame_is (ls_phys l).
  vstep. apply (reserve_here w x r HW E); [done| |].
  2:{ fcalls. vstep. apply release_lease_any. give_up_same. }
  intros i m HF. vstep. apply (set_slot_ok b w x r i _ m _ _ (fi_slot _ _ _ _ HF)).
  set (s := with_binding _ _).
  assert (Hput : forall t, pm_slots (slot_put m i t) !! i = Some t) by (intros t; eapply slot_put_lookup, HF).
  apply spec_call_any. intros [?|?].
  { vstep. apply account_page_ok. apply spec_ret. apply new_page_post; try done; [|by left]. intros Hb. split; [done|by apply Hl]. }
  assert (Hclear : forall b' t, s_binding t = None ->
    spec b' (_ ← clear_slot x i; _ ← call (CUnmapPage root (page_of va)); mret fa_oom)
      (repaged w x r (slot_put m i t)) (fault_post (fun o n => o = None /\ n = ls_phys l) va is_write w)).
  { intros b' t Ht. vstep. apply (clear_slot_ok b' w x r i _ t); [done|done|]. rewrite slot_put_put.
    fcalls. apply spec_ret. apply cleared_post; auto with zx. }
  cbv beta iota. destruct (ls_binding l) as [bd|] eqn:Eb.
  - apply spec_call_bind2. intros [?|?].
    + vstep. apply (set_slot_ok _ w x r i _ _ _ _ (Hput s)). rewrite slot_put_put. by apply Hclear.
    + apply spec_bind, spec_ret, spec_bind. unfold clear_slot. vstep. vstep. rewrite repaged_region. cbn [with_pages r_pages].
      rewrite Hput. apply spec_fatal. right. left. simpl. by eexists.
  - apply spec_bind, spec_ret. by apply Hclear.
Qed.
End branches.

(** ** Growing a stack *)

Lemma repages_ok r m :
  region_ok r -> pages_ok m -> Forall (slot_ok r) (lives m) -> region_ok (with_pages m r).
Proof. intros [] Hm Hs. by constructor. Qed.

(** The step left view, slots and counters alone. *)
Lemma quiet_step_post {P} va is_write w x r m w' a :
  vm_wf w -> w_regions w !! x = Some r -> page_step w x r (with_pages m r) 0 0 0 w' -> gives_up a ->
  lives m = lives (r_pages r) -> fault_post P va is_write w a w'.
Proof.
  intros HW E HP Ha El. apply post_same; [done|by eapply page_step_wf| |apply HP|apply HP]. split.
  - intros v. by apply (page_step_view w x r (with_pages m r) 0 0 0 w').
  - intros s. rewrite (page_step_slots w x r (with_pages m r) 0 0 0 w' HW E HP). simpl. rewrite El.
    split; [|destruct (decide (s ∈ lives (r_pages r))); tauto]. intros [Hin|[? _]]; [by exists x, r|done].
Qed.

Section stack.
  Context (w : world) (x : Z) (r : vm_region) (va : Z) (is_write : bool).
  Context (HW : vm_wf w) (E : w_regions w !! x = Some r) (Hva : fits 64 va).
  Context (Hnone : vm_find w va = None) (Hstack : has_flag (r_flags r) vf_stack = true).
  Context (Habove : va < r_va_start r) (Hnear : r_va_start r - 4096 <= va).
  Context (Hfirst : forall z q, w_regions w !! z = Some q -> va < r_va_start q -> r_va_start r <= r_va_start q).
  Context (b : blame) (Hb : lenient b = true) (root key : Z).
Let p := page_of va.
Let r1 := with_range p (r_va_end r) r.

Lemma stack_page : p = r_va_start r - 4096 /\ 0 <= p /\ is_page_aligned p = true /\ r_va_start r < r_va_end r < 2 ^ 64.
Proof.
  pose proof (vs_regions _ (proj1 HW) _ _ E) as Hok. destruct (ro_align _ Hok) as [Ha _], (ro_range _ Hok).
  pose proof (ro_fits _ Hok). pose proof (page_of_facts va Hva) as (Hp & Hr & Hpos). fold p in Hp, Hr, Hpos.
  rewrite aligned_mod in Ha. pose proof Hp as Hp'. rewrite aligned_mod in Hp'. split_and!; [lia|done|done|done|done].
Qed.

(** No region reaches into the new page. *)
Lemma page_free z q a : w_regions w !! z = Some q -> p <= a < p + 4096 -> ~ (r_va_start q <= a < r_va_end q).
Proof.
  intros Ez Ha Hq. pose proof (vs_regions _ (proj1 HW) _ _ Ez) as Hok. destruct (ro_align _ Hok) as [H1 H2].
  pose proof (page_of_facts va Hva) as (Hp & Hr & _). fold p in Hp, Hr. rewrite aligned_mod in *.
  apply (proj1 (vm_find_None w va (proj1 HW)) Hnone z q Ez). lia.
Qed.

Lemma stack_later z q :
  w_regions w !! z = Some q -> z <> x -> p < r_va_start q -> r_va_end r <= r_va_start q.
Proof.
  intros Ez Hz Hlt. pose proof stack_page as (Hp & _ & Ha & Hr).
  pose proof (vs_regions _ (proj1 HW) _ _ Ez) as Hok. pose proof (ro_range _ Hok).
  destruct (ro_align _ Hok) as [H1 _]. rewrite aligned_mod in *.
  assert (r_va_start r <= r_va_start q) by (apply (Hfirst z q Ez); lia).
  destruct (shape_disjoint w z x q r (proj1 HW) Ez E Hz); lia.
Qed.

Lemma stack_absent : p ∉ pages_of (r_pages r).
Proof.
  pose proof stack_page as (Hp & _). intros (s & Hv & Hs)%list_elem_of_fmap.
  pose proof (ro_slots _ (vs_regions _ (proj1 HW) _ _ E)) as Hok.
  pose proof (proj1 (list.Forall_forall _ _) Hok s Hs) as [H1 _]. lia.
Qed.

Lemma stack_slot_ok s : slot_ok r s -> slot_ok r1 s.
Proof. pose proof stack_page as (Hp & _). intros [H1 H2]. split; [simpl; lia|done]. Qed.

Section moved.
  Context (t : tree).
Let w1 := World (with_tree t (w_space w)) (<[x := r1]> (w_regions w)).
  Context (HS1 : vm_shape w1).

Lemma moved_region : w_regions w1 !! x = Some r1.
Proof. apply lookup_insert_eq. Qed.

(** Undoing the growth. *)
Lemma grow_undone {P} m :
  lives m = lives (r_pages r) -> pages_ok m ->
  spec b (_ ← vm_rekey_region x (r_va_start r); mret fa_oom) (repaged w1 x r1 m) (fault_post P va is_write w).
Proof.
  intros El Hm. pose proof (vs_regions _ (proj1 HW) _ _ E) as Hok. pose proof stack_page as (Hp & _ & _ & Hr).
  assert (Hs : Forall (slot_ok r) (lives m)) by (rewrite El; apply Hok).
  assert (HS2 : vm_shape (repaged w1 x r1 m)).
  { rewrite repaged_charged. apply charged_shape; [done|apply moved_region|done|].
    revert Hs. apply Forall_impl, stack_slot_ok. }
  assert (Eback : with_range (r_va_start r) (r_va_end r) (with_pages m r1) = with_pages m r) by by destruct r.
  assert (Hold : forall z q, w_regions (repaged w1 x r1 m) !! z = Some q -> z <> x -> w_regions w !! z = Some q).
  { intros z q. unfold repaged, set_region, w1. simpl. intros Ez Hz. by rewrite !lookup_insert_ne in Ez. }
  vstep. apply (rekey_ok b (repaged w1 x r1 m) x (with_pages m r1) (r_va_start r)); [by left|done| | | | |].
  - apply lookup_insert_eq.
  - change (r_va_end (with_pages m r1)) with (r_va_end r). rewrite Eback. by apply repages_ok.
  - intros z q Ez Hz Hlt. simpl. destruct (shape_disjoint w z x q r (proj1 HW) (Hold z q Ez Hz) E Hz); [|done].
    pose proof (ro_range _ (vs_regions _ (proj1 HW) _ _ (Hold z q Ez Hz))). lia.
  - intros t' w' _ (z & q & Hz & Ez & Hq). exfalso.
    destruct (shape_disjoint w z x q r (proj1 HW) (Hold z q Ez Hz) E Hz); lia.
  - intros t' w' HS' _. apply spec_ret. apply (quiet_step_post va is_write w x r m); try done; auto with zx.
    constructor; try done; [|unfold span; simpl; lia].
    unfold w', repaged, set_region, w1. simpl. by rewrite !insert_insert_eq, <- Eback.
Qed.

Lemma grow_done {P} i m s :
  vm_commit_admitted (w_space w) 1 = true -> VM_USER_START <= p ->
  fresh_in (r_pages r) p i m -> live s -> s_va_page s = p -> s_binding s = None -> P None (s_phys s) ->
  fault_post P va is_write w fa_stack_grew (charged w1 x r1 (slot_put m i s) 4096 1 1).
Proof.
  intros Had Hlow HF Hl Hv Hbd HN. pose proof (vs_regions _ (proj1 HW) _ _ E) as Hok.
  pose proof stack_page as (Hp & _ & _ & Hr). destruct (fresh_fill _ _ _ _ _ HF Hl Hv) as [HP Hm].
  set (w' := charged _ _ _ _ _ _ _).
  assert (Hstep : page_step w x r (with_counts (bump (r_committed r) 1) (bump (r_resident r) 1)
                    (with_pages (slot_put m i s) r1)) 4096 1 1 w').
  { constructor; try done; [|unfold w', charged, w1; simpl; by rewrite insert_insert_eq|unfold span; simpl; lia].
    apply charged_shape; [done|apply moved_region|done|]. rewrite HP. constructor.
    - split; [simpl; rewrite Hv; lia|by rewrite Hbd].
    - eapply Forall_impl; [apply stack_slot_ok|apply Hok]. }
  pose proof (page_step_wf _ _ _ _ _ _ _ _ HW E Hstep) as HW'.
  pose proof (page_step_slots _ _ _ _ _ _ _ _ HW E Hstep) as HSl. simpl in HSl.
  assert (Hnew : forall t0, has_slot w t0 -> s_va_page t0 <> p).
  { intros t0 (z & q & Ez & Hq) Heq. pose proof (ro_slots _ (vs_regions _ (proj1 HW) _ _ Ez)) as Hqs.
    pose proof (proj1 (list.Forall_forall _ _) Hqs t0 Hq) as [H1 _]. rewrite Heq in H1.
    by apply (page_free z q p Ez ltac:(lia)). }
  split; [done|]. split; [|split_and!; [exists r| | |done]].
  - intros Hf Hc. by apply (charged_budget w x r m HW 1 1 ltac:(by right)).
  - constructor; [by exists x|unfold VM_PAGE_SIZE; lia| |]; unfold VM_PAGE_SIZE.
    + intros a Ha. fold p in Ha. split.
      * apply (view_None _ _ (proj1 HW)). intros q (z & Ez & Hq). by apply (page_free z q a Ez).
      * rewrite (view_covered w' a (with_counts (bump (r_committed r) 1) (bump (r_resident r) 1)
          (with_pages (slot_put m i s) r1)) (proj1 HW')); [done|].
        exists x. rewrite (pg_regions _ _ _ _ _ _ _ _ Hstep), lookup_insert_eq. split; [done|simpl; lia].
    + intros Hk a Ha. fold p in Ha. eapply page_step_view; [done|done|exact Hstep| |]; simpl; [|lia].
      intros Hra. split; [lia|]. unfold cell_at. simpl. by rewrite bool_decide_eq_false_2.
  - intros t0 Ht0. fold p in Ht0. rewrite HSl, HP, elem_of_cons. split.
    + intros [[-> |Hin']|[? _]]; [done|by exists x, r|done].
    + intros Ht'. destruct (decide (t0 ∈ lives (r_pages r))); auto.
  - exists s. split_and!; [|done|done]. apply HSl. left. rewrite HP. left.
Qed.
End moved.

Lemma grow_stack_ok :
  tspec b (grow_stack root key x) w (fun t => fault_post (installed root p t) va is_write w).
Proof.
  pose proof stack_page as (Hp & Hpos & Hal & Hr). pose proof (vs_regions _ (proj1 HW) _ _ E) as Hok.
  unfold grow_stack. apply tspec_get. cbv zeta. rewrite (region_Some _ _ _ E).
  replace (u64 (r_va_start r - VM_PAGE_SIZE)) with p
    by (unfold VM_PAGE_SIZE; rewrite u64_small; [done|unfold fits; lia]).
  destruct (Z.ltb_spec p VM_USER_START); [tgive_up|]. destruct (vm_find w p); [tgive_up|].
  destruct (vm_commit_admitted (w_space w) 1) eqn:Ead; cbn [negb]; [|tgive_up].
  apply tspec_call_any. intros [phys|?]; [|tgive_up].
  apply tspec_call_any. intros [?|?]; [|tgive_up].
  apply tspec_call_any. intros [[]|?]; [|tgive_up]. frame_is phys. fcalls.
  vstep. apply (rekey_ok b w x r p); [by left|apply HW|done| | | |].
  - apply aligned_start_ok; [done|lia|done].
  - apply stack_later.
  - intros t w' _ (z & q & _ & Ez & Hq). exfalso. by apply (page_free z q p Ez ltac:(lia)).
  - intros t w1 HS1 _. cbn [negb]. pose proof (moved_region t) as E1. fold r1 in w1, HS1. fold w1 in E1.
    assert (Hback : forall m, lives m = lives (r_pages r) -> pages_ok m ->
      spec b (_ ← vm_rekey_region x (r_va_start r); mret fa_oom) (repaged w1 x r1 m) (fault_post (fun o n => o = None /\ n = phys) va is_write w))
      by (by apply grow_undone).
    assert (Hundo : forall i m, fresh_in (r_pages r) p i m ->
      spec b (_ ← vm_rekey_region x (r_va_start r); mret fa_oom) (repaged w1 x r1 (slot_put m i empty_slot))
        (fault_post (fun o n => o = None /\ n = phys) va is_write w)).
    { intros i m HF. destruct (fresh_cleared _ _ _ _ HF). by apply Hback. }
    vstep. apply (region_reserve_ok b w1 x r1 p); [done|apply Hok|apply stack_absent| |].
    2:{ fcalls. specialize (Hback (r_pages r) eq_refl (ro_pages _ Hok)).
        change (r_pages r) with (r_pages r1) in Hback. by rewrite (repaged_self _ _ _ E1) in Hback. }
    intros i m HF. change (r_pages r1) with (r_pages r) in HF.
    vstep. apply (set_slot_ok b w1 x r1 i _ m _ _ (fi_slot _ _ _ _ HF)). set (s := with_frame _ _ _).
    assert (Hput : pm_slots (slot_put m i s) !! i = Some s) by (eapply slot_put_lookup, HF).
    apply spec_call_any. intros [?|?].
    2:{ vstep. apply (clear_slot_ok b w1 x r1 i _ s); [done|done|]. rewrite slot_put_put. fcalls. by apply Hundo. }
    unfold stamp_frame. apply spec_call_any. intros [?|?].
    2:{ fcalls. vstep. apply (clear_slot_ok b w1 x r1 i _ s); [done|done|]. rewrite slot_put_put. fcalls. by apply Hundo. }
    vstep. apply account_page_ok. apply spec_ret. apply grow_done; try done.
    unfold s, live. cbn [with_frame s_state]. by destruct (has_flag (r_flags r) vf_cow).
Qed.
End stack.

(** ** The handler *)

Section handler.
  Context (w : world) (va : Z) (is_write : bool).
  Context (HW : vm_wf w) (Hva : fits 64 va) (b : blame) (Hb : lenient b = true) (root key : Z).

Lemma fault_below_ok : vm_find w va = None ->
  tspec b (fault_below root key va) w (fun t => fault_post (installed root (page_of va) t) va is_write w).
Proof.
  intros Hnone. unfold fault_below. apply tspec_get.
  pose proof (first_above_spec (st w) (en w) (sp_tree (w_space w)) va None (vs_order _ (proj1 HW))) as Hf.
  destruct (first_above _ _ _ _) as [x|]; [|tgive_up]. destruct Hf as [(Hx & Hlt & Hmin)|[? _]]; [|done].
  pose proof (shape_lookup _ _ (proj1 HW) Hx) as E. unfold st in Hlt |- *. set (r := region w x) in *.
  destruct (has_flag _ _) eqn:Hst; cbn [andb]; [|tgive_up].
  destruct (Z.leb_spec (u64 (r_va_start r - VM_PAGE_SIZE)) va) as [Hle|]; [|tgive_up].
  pose proof (vs_regions _ (proj1 HW) _ _ E) as Hok. destruct (ro_align _ Hok) as [Ha _]. rewrite aligned_mod in Ha.
  pose proof (ro_fits _ Hok). pose proof (ro_range _ Hok). unfold fits in Hva.
  unfold VM_PAGE_SIZE in Hle. rewrite u64_small in Hle by (unfold fits; lia).
  apply (grow_stack_ok w x r va is_write); try done; try lia.
  intros z q Ez Hq. specialize (Hmin z (shape_elem _ _ _ (proj1 HW) Ez)). unfold st in Hmin.
  rewrite (region_Some _ _ _ Ez) in Hmin. by apply Hmin.
Qed.

Lemma refresh_region_any x g (Q : unit -> world -> Prop) : Q tt w -> spec b (refresh_region x g) w Q.
Proof.
  intros HQ. unfold refresh_region. vstep. vstep. vstep. apply policy_field_any. intros a.
  destruct (g =? a); [by apply spec_ret|]. apply spec_call_any. intros v. vstep.
  assert (Hrest : spec b (region_key ← policy_field mp_storage_key 0 (region w x);
    if pm_exists (r_pages (region w x)) && (0 <? pm_count (r_pages (region w x)))
    then rekey_slots (pm_slots (r_pages (region w x))) region_key (negb (has_flag (r_prot (region w x)) prot_write))
    else mret tt) w Q).
  { vstep. apply policy_field_any. intros k. destruct (_ && _); [by apply rekey_slots_any|by apply spec_ret]. }
  destruct v; [apply spec_call; intros []|apply spec_ret]; exact Hrest.
Qed.

(** What the first critical section leaves: an action with its promise, or a
    request and the space as it was. *)
Definition locked_post (P : option Z -> Z -> Prop) (a : locked_result) (w' : world) : Prop :=
  match a with LDone a => fault_post P va is_write w a w' | LFile _ => w' = w end.
Abbreviation traced m := (tspec b m w (fun t => locked_post (installed root (page_of va) t))).

(** A part that leaves the space as it was may come before. *)
Lemma traced_bind {A} (m : M A) (k : A -> M locked_result) :
  (forall Q : A -> world -> Prop, (forall a, Q a w) -> spec b m w Q) -> (forall a, traced (k a)) -> traced (m ≫= k).
Proof.
  intros Hm Hk. apply tspec_bind. apply (tspec_mono _ _ _ (fun _ => fun a w' => w' = w)); [|by apply (Hm (fun _ w' => w' = w))].
  intros t a w' ->. eapply tspec_mono; [|apply Hk]. intros t' [a'|q] w'; [|done]. simpl.
  apply fault_post_mono. intros old new. apply installed_app.
Qed.

Lemma done_with_ok (m : M fault_action) :
  tspec b m w (fun t => fault_post (installed root (page_of va) t) va is_write w) -> traced (done_with m).
Proof.
  intros Hm. unfold done_with. apply tspec_bind. revert Hm. apply tspec_mono. intros t a w' H.
  apply tspec_ret. by rewrite app_nil_r.
Qed.
Lemma give_up_traced a : gives_up a -> traced (mret (LDone a) : M locked_result).
Proof. intros Ha. apply tspec_ret. by apply post_refl. Qed.

(** A page that stays as it is. *)
Lemma resident_post {P} wr x r i s0 :
  w_regions w !! x = Some r -> r_va_start r <= va < r_va_end r ->
  find_page (r_pages r) (page_of va) = Some (i, s0) ->
  wr && cowable (s_state s0) && cow_or_shared (r_flags r) = false ->
  fault_post P va wr w fa_resolved w.
Proof.
  intros E Hin Hf Hc. split; [done|]. split; [done|]. split; [done|]. split; [done|].
  destruct (found_page r va i s0 Hf) as (Hi & Hl & Hv).
  assert (Hs0 : has_slot w s0) by (exists x, r; split; [done|by eapply lives_lookup]).
  exists s0. split_and!; [done|done| |]; [intros Hn; by destruct (Hn s0)|].
  intros s1 Hs1 Hv1. rewrite (found_only w x r va HW E Hva Hin i s0 s1 Hf Hs1 Hv1). unfold in_cow.
  by rewrite (here w x r va HW E Hin), (region_Some _ _ _ E), Hc.
Qed.

Lemma fault_absent_ok x r is_exec :
  w_regions w !! x = Some r -> r_va_start r <= va < r_va_end r ->
  find_page (r_pages r) (page_of va) = None -> traced (fault_absent root key x (page_of va) is_write is_exec).
Proof.
  intros E Hin Hnone. unfold fault_absent. apply tspec_region. rewrite (region_Some _ _ _ E).
  destruct (r_backing r) eqn:Hbk; try (apply give_up_traced; auto with zx).
  - apply done_with_ok. by apply fault_anonymous_ok with r.
  - destruct (_ =? 0); [apply give_up_traced; auto with zx|]. cbv zeta.
    destruct (_ <? _); [apply give_up_traced; auto with zx|].
    apply traced_bind; [intros Q; apply policy_field_any|]. intros k. by apply tspec_ret.
  - apply done_with_ok. by apply fault_ipc_ok with r.
Qed.

Lemma fault_in_region_ok x r is_exec :
  w_regions w !! x = Some r -> r_va_start r <= va < r_va_end r ->
  traced (fault_in_region root key x (page_of va) is_write is_exec).
Proof.
  intros E Hin. unfold fault_in_region. apply tspec_region. rewrite (region_Some _ _ _ E). cbv zeta.
  destruct (has_flag _ vf_guard); [apply give_up_traced; auto with zx|].
  destruct (is_write && _ && _); [apply give_up_traced; auto with zx|].
  destruct (is_exec && _); [apply give_up_traced; auto with zx|].
  destruct (find_page (r_pages r) (page_of va)) as [[i s0]|] eqn:Hf; [|by apply fault_absent_ok with r].
  fold (cowable (s_state s0)). destruct (is_write && cowable (s_state s0) && _) eqn:Hc.
  - apply done_with_ok. apply (copy_on_write_ok w x r va is_write HW E Hva Hin b root key i s0 Hf).
    unfold in_cow. rewrite (here w x r va HW E Hin), (region_Some _ _ _ E).
    destruct is_write; simpl in *; [|done]. done.
  - apply tspec_ret. apply (resident_post is_write x r i s0); try done.
    destruct is_write; simpl in *; [|done]. done.
Qed.

Lemma fault_locked_ok is_exec : traced (fault_locked root key va is_write is_exec).
Proof.
  unfold fault_locked. apply tspec_get. destruct (vm_find w va) as [x|] eqn:Hf.
  2:{ apply done_with_ok. by apply fault_below_ok. }
  apply (vm_find_Some _ _ _ (proj1 HW)) in Hf as (r & E & Hin). cbv zeta.
  apply traced_bind; [intros Q; by apply spec_call|]. intros g.
  apply traced_bind; [intros Q; apply policy_field_any|]. intros a.
  destruct (negb _); [apply give_up_traced; auto with zx|].
  apply traced_bind; [intros Q HQ; by apply refresh_region_any|]. intros _. by apply fault_in_region_ok with r.
Qed.

Lemma fault_file_resume_ok is_exec q l :
  (ls_binding l <> None -> ls_phys l <> 0) ->
  tspec b (fault_file_resume root va is_write is_exec q l) w (fun t => fault_post (installed root (page_of va) t) va false w).
Proof.
  intros Hl. unfold fault_file_resume. apply tspec_get.
  destruct (vm_find w va) as [x|] eqn:Hf; [|apply any_trace; vstep; apply release_lease_any; give_up_same].
  apply (vm_find_Some _ _ _ (proj1 HW)) in Hf as (r & E & Hin). cbv zeta. rewrite (region_Some _ _ _ E).
  destruct (negb _ || negb _) eqn:Hg; [apply any_trace; vstep; apply release_lease_any; give_up_same|].
  apply tspec_bind. apply (tspec_mono _ _ _ (fun _ _ w' => w' = w)); [|by apply policy_field_any]. intros t0 a ? ->.
  destruct (negb (memory_access_has _ _)); [apply any_trace; vstep; apply release_lease_any; give_up_same|].
  destruct (find_page (r_pages r) (page_of va)) as [[i s0]|] eqn:Hp.
  - apply any_trace. vstep. apply release_lease_any. apply spec_ret.
    apply (resident_post false x r i s0); try done.
  - eapply tspec_mono; [|by apply install_file_page_ok with r]. intros t a' w'.
    apply fault_post_mono. intros old new. apply installed_app.
Qed.
End handler.
