(* ===== verification/FaultRun.v ===== *)
(** * Page faults: the handler as a whole

    The theorem on [handle_page_fault], what its runs do with frames and pins,
    and runs on an example space. *)

From S2P Require Import Prelude Errors Kobject MemContract Prog VmTree VmTypes VmPages Vm VmInv VmSplit VmUnmap VmProtect VmGap VmMap VmLife VmDemo Fault FaultSpec.

(** ** The state after a fault *)

(** C7: a page fault keeps its promises.  In a well-formed space, when the other
    threads keep it well formed while the lock is released and the page cache
    hands out leases with a frame, the handler dies only after the environment
    broke a promise, or when growing a stack erases its region from the tree in
    the stale shape, and otherwise returns an action for which [fault_post] holds:
    the space is well formed with exact counters and within its commit budget; a
    resolved fault leaves the view of the space and the slots of all other pages
    alone and the page resident.  If the page was not resident, its slot now has
    the frame that a successful call of the run mapped at the page; if it was, the
    slot is as before unless it was written in a copy-on-write region: then the
    slot has no cache binding and a frame that the run allocated, filled with a
    copy of the old frame and mapped at the page.  A grown stack has exactly one
    page more, which was unmapped before, with the attributes of the stack and the
    frame that the run mapped there, and the rest of the view is unchanged unless
    the stack is backed by physical memory; every other action changes neither
    view nor slots, except that a write to an IPC page the sender has not filled
    turns the region anonymous.  A fault that waited for a file page keeps the
    promise from the space it found when it had the lock again. *)
Theorem page_fault_exact unlocked root key va is_write is_exec w :
  vm_wf w -> fits 64 va ->
  (forall w q, vm_wf w -> vm_wf (unlocked w q).1) ->
  (forall w q l, (unlocked w q).2 = Expected l -> ls_binding l <> None -> ls_phys l <> 0) ->
  tspec tolerant (handle_page_fault unlocked root key va is_write is_exec) w (fun t a w' =>
    fault_post (installed root (page_of va) t) va is_write w a w' \/
    exists q, fault_post (installed root (page_of va) t) va false (unlocked w q).1 a w').
Proof.
  intros HW Hva Hkeep Hlease. unfold handle_page_fault. apply tspec_bind.
  eapply tspec_mono; [|by apply fault_locked_ok]. intros t [a|q] w1 Hpost.
  { apply tspec_ret. rewrite app_nil_r. by left. }
  simpl in Hpost. subst w1. apply tspec_get.
  change (tspec tolerant (match (unlocked w q).2 with
    | Expected lease => fault_file_resume root va is_write is_exec q lease
    | Unexpected e => mret (acquire_failed e) end) (unlocked w q).1
    (fun t' a w' => fault_post (installed root (page_of va) (t ++ t')) va is_write w a w' \/
       exists q0, fault_post (installed root (page_of va) (t ++ t')) va false (unlocked w q0).1 a w')).
  specialize (Hkeep w q HW). destruct (unlocked w q).2 as [l|e] eqn:El.
  - eapply tspec_mono; [|apply fault_file_resume_ok; [done|done|by apply (Hlease w q)]].
    intros t' a w' Hp. right. exists q. revert Hp. apply fault_post_mono. intros old new. apply installed_app.
  - apply tspec_ret. right. exists q. apply post_refl; [|done]. unfold acquire_failed, gives_up.
    case_bool_decide; [tauto|]. case_bool_decide; tauto.
Qed.

(** ** Frames and pins *)

(** What a fault may take and give back: a frame of the allocator, a pin on a
    frame, the binding of a cached page. *)
Inductive holding := HFrame (phys : Z) | HPin (phys : Z) | HBinding (c : Z * Z).

#[global] Instance holding_eq_dec : EqDecision holding.
Proof. solve_decision. Defined.

Definition same (h h' : holding) : Z := if decide (h = h') then 1 else 0.

(** How often [h] is taken by a call: frames, pins and bindings are taken when the
    call succeeds and given back when the call is made. *)
Definition weight (h : holding) (e : event vcall) : Z :=
  match e with
  | Ev (CFrameAlloc _) r => match r with Expected phys => same h (HFrame phys) | Unexpected _ => 0 end
  | Ev (CFrameFree phys) _ => - same h (HFrame phys)
  | Ev (CFrameRef phys) r => match r with Expected _ => same h (HPin phys) | Unexpected _ => 0 end
  | Ev (CFrameUnref phys) _ => - same h (HPin phys)
  | Ev (CReleasePin phys) _ => - same h (HPin phys)
  | Ev (CDuplicateBinding _ _) r => match r with Expected c => same h (HBinding c) | Unexpected _ => 0 end
  | Ev (CReleaseBinding c) _ => - same h (HBinding c)
  | _ => 0
  end.

Definition count (h : holding) (l : list holding) : Z := foldr (fun h' n => same h h' + n) 0 l.

(** A balance: what has been taken of each thing, less what was given back. *)
Definition balance : Type := holding -> Z.
Definition settled (g : balance) (taken given : list holding) : Prop :=
  forall h, g h = count h taken - count h given.
Definition balance_of (t : list (event vcall)) : balance := fun h => weigh (weight h) t.

(** The balance of a run that returns, from [g]. *)
Definition ledger {A} (g : balance) (m : M A) (w : world) (Q : A -> balance -> Prop) : Prop :=
  wlp (m w) (fun t o => match o with
    | Some (a, _) => forall g', (forall h, g' h = g h + weigh (weight h) t) -> Q a g'
    | None => True
    end).

(** No run of [m] takes or gives back anything. *)
Definition silent {A} (m : M A) : Prop :=
  forall w, wlp (m w) (fun t _ => forall h, weigh (weight h) t = 0).
(** Nor does it change the space. *)
Definition still {A} (m : M A) : Prop :=
  forall w, wlp (m w) (fun t o => (forall h, weigh (weight h) t = 0) /\
    match o with Some (_, w') => w' = w | None => True end).

Lemma ledger_ret {A} g (a : A) w (Q : A -> balance -> Prop) :
  (forall g', (forall h, g' h = g h) -> Q a g') -> ledger g (mret a) w Q.
Proof. intros HQ g' Hg. apply HQ. intros h. rewrite Hg. simpl. lia. Qed.

Lemma ledger_call {R A} g (c : vcall R) (k : R -> M A) w Q :
  (forall r, ledger (fun h => g h + weight h (Ev c r)) (k r) w Q) -> ledger g (call c ≫= k) w Q.
Proof.
  intros Hk. unfold ledger. intros r. specialize (Hk r). revert Hk. apply wlp_mono.
  intros t [[a w']|]; [|done]. intros HQ g' Hg. apply HQ. intros h. rewrite Hg. simpl. lia.
Qed.

Lemma ledger_bind {A B} g (m : M A) (k : A -> M B) w Q :
  ledger g m w (fun a g' => forall w', ledger g' (k a) w' Q) -> ledger g (m ≫= k) w Q.
Proof.
  intros Hm. unfold ledger, mbind, M_bind. apply wlp_bind. revert Hm. apply wlp_mono.
  intros t [[a w']|]; [|done]. intros Hk. specialize (Hk (fun h => g h + weigh (weight h) t) ltac:(done) w').
  revert Hk. apply wlp_mono. intros t' [[c w'']|]; [|done]. intros HQ g' Hg. apply HQ. intros h.
  rewrite Hg, weigh_app. lia.
Qed.

Lemma ledger_silent {A B} g (m : M A) (k : A -> M B) w Q :
  silent m -> (forall a w', ledger g (k a) w' Q) -> ledger g (m ≫= k) w Q.
Proof.
  intros Hm Hk. unfold ledger, mbind, M_bind. apply wlp_bind. specialize (Hm w). revert Hm. apply wlp_mono.
  intros t [[a w']|] Ht; [|done]. specialize (Hk a w'). revert Hk. apply wlp_mono.
  intros t' [[c w'']|]; [|done]. intros HQ g' Hg. apply HQ. intros h. rewrite Hg, weigh_app, Ht. lia.
Qed.

Lemma ledger_still {A B} g (m : M A) (k : A -> M B) w Q :
  still m -> (forall a, ledger g (k a) w Q) -> ledger g (m ≫= k) w Q.
Proof.
  intros Hm Hk. unfold ledger, mbind, M_bind. apply wlp_bind. specialize (Hm w). revert Hm. apply wlp_mono.
  intros t [[a w']|] [Ht Hw]; [|done]. subst w'. specialize (Hk a). revert Hk. apply wlp_mono.
  intros t' [[c w'']|]; [|done]. intros HQ g' Hg. apply HQ. intros h. rewrite Hg, weigh_app, Ht. lia.
Qed.

Lemma ledger_last {A} g (m : M A) w (Q : A -> balance -> Prop) :
  silent m -> (forall a g', (forall h, g' h = g h) -> Q a g') -> ledger g m w Q.
Proof.
  intros Hm HQ. unfold ledger. specialize (Hm w). revert Hm. apply wlp_mono.
  intros t [[a w']|] Ht; [|done]. intros g' Hg. apply HQ. intros h. rewrite Hg, Ht. lia.
Qed.

Lemma ledger_fatal {A} g w (Q : A -> balance -> Prop) : ledger g fatal w Q.
Proof. done. Qed.

Lemma ledger_get {A} g (k : world -> M A) w Q : ledger g (k w) w Q -> ledger g (get_world ≫= k) w Q.
Proof. done. Qed.
Lemma ledger_region {A} g x (k : vm_region -> M A) w Q : ledger g (k (region w x)) w Q -> ledger g (get_region x ≫= k) w Q.
Proof. done. Qed.

Lemma silent_ret {A} (a : A) : silent (mret a).
Proof. done. Qed.

Lemma silent_fatal {A} : silent (A := A) fatal.
Proof. done. Qed.

Lemma silent_bind {A B} (m : M A) (k : A -> M B) : silent m -> (forall a, silent (k a)) -> silent (m ≫= k).
Proof.
  intros Hm Hk w. unfold mbind, M_bind. apply wlp_bind. specialize (Hm w). revert Hm. apply wlp_mono.
  intros t [[a w']|] Ht; [|simpl; by rewrite app_nil_r]. specialize (Hk a w'). revert Hk. apply wlp_mono.
  intros t' o Ht' h. rewrite weigh_app, Ht, Ht'. lia.
Qed.

Lemma silent_call {R} (c : vcall R) : (forall h r, weight h (Ev c r) = 0) -> silent (call c).
Proof. intros Hc w r h. unfold weigh. cbn [foldr]. by rewrite Hc. Qed.

Lemma silent_get : silent get_world. Proof. done. Qed.
Lemma silent_region x : silent (get_region x). Proof. done. Qed.
Lemma silent_space : silent get_space. Proof. done. Qed.
Lemma silent_update x f : silent (update_region x f). Proof. done. Qed.
Lemma silent_update_space f : silent (update_space f). Proof. done. Qed.

Create HintDb silent.
#[local] Hint Resolve silent_ret silent_fatal silent_get silent_region silent_space silent_update
  silent_update_space : silent.

(** Programs whose calls weigh nothing. *)
Ltac quiet :=
  repeat first
    [ progress auto with silent nocore
    | apply silent_bind; [|intros ?]
    | apply silent_call; intros ? ?; done
    | match goal with |- silent (match ?x with _ => _ end) => destruct x end
    | match goal with |- silent (let _ := _ in _) => cbv zeta end ].

Lemma still_ret {A} (a : A) : still (mret a).
Proof. done. Qed.
Lemma still_bind {A B} (m : M A) (k : A -> M B) : still m -> (forall a, still (k a)) -> still (m ≫= k).
Proof.
  intros Hm Hk w. unfold mbind, M_bind. apply wlp_bind. specialize (Hm w). revert Hm. apply wlp_mono.
  intros t [[a w']|] [Ht Hw]; [|simpl; by rewrite app_nil_r]. subst w'. specialize (Hk a w). revert Hk. apply wlp_mono.
  intros t' o [Ht' Hw]. split; [|done]. intros h. rewrite weigh_app, Ht, Ht'. lia.
Qed.
Lemma still_call {R} (c : vcall R) : (forall h r, weight h (Ev c r) = 0) -> still (call c).
Proof. intros Hc w r. split; [|done]. intros h. unfold weigh. cbn [foldr]. by rewrite Hc. Qed.
Lemma still_region x : still (get_region x).
Proof. done. Qed.
#[local] Hint Resolve still_ret still_region : silent.

Ltac rest :=
  repeat first
    [ progress auto with silent nocore
    | apply still_bind; [|intros ?]
    | apply still_call; intros ? ?; done
    | match goal with |- still (match ?x with _ => _ end) => destruct x end ].

Lemma silent_policy {A} (f : memory_object_policy -> A) d r : silent (policy_field f d r).
Proof. unfold policy_field, mapping_policy. quiet. Qed.
Lemma still_policy {A} (f : memory_object_policy -> A) d r : still (policy_field f d r).
Proof. unfold policy_field, mapping_policy. rest. Qed.
#[local] Hint Resolve silent_policy still_policy : silent.

Lemma still_rekey_slots l key f : still (rekey_slots l key f).
Proof. induction l as [|s l IH]; simpl; rest. Qed.
#[local] Hint Resolve still_rekey_slots : silent.

Lemma still_refresh x g : still (refresh_region x g).
Proof. unfold refresh_region. rest. Qed.

Lemma silent_reserve x va : silent (region_reserve x va).
Proof. unfold region_reserve, reserve_page, reserve_capacity. quiet. Qed.

Lemma silent_set_slot x i f : silent (set_slot x i f).
Proof. unfold set_slot. quiet. Qed.
#[local] Hint Resolve silent_set_slot : silent.

Lemma silent_clear_slot x i : silent (clear_slot x i).
Proof. unfold clear_slot. quiet. Qed.

Lemma silent_account x dm dc dk : silent (account_page x dm dc dk).
Proof. unfold account_page. quiet. Qed.

Lemma silent_rekey x s : silent (vm_rekey_region x s).
Proof. unfold vm_rekey_region, rb_insert_region, rb_commit_insert, rb_erase. quiet. Qed.
#[local] Hint Resolve silent_reserve silent_clear_slot silent_account silent_rekey : silent.

(** *** What each part keeps *)

(** What a resident slot holds. *)
Definition slot_holding (s : vm_page_slot) : holding :=
  match s_binding s with Some c => HBinding c | None => HPin (s_phys s) end.

(** A frame of its own, with a pin. *)
Definition keeps_frame (g : balance) (given : list holding) : Prop :=
  exists new, settled g [HFrame new; HPin new] given.
(** A pin on a page of another region. *)
Definition keeps_pin (g : balance) : Prop :=
  (exists phys, settled g [HPin phys] []) \/ (exists c, settled g [HBinding c] []).

(** [R] when the fault ends as [ok]; otherwise it gives up and keeps nothing. *)
Definition outcome_of (ok : fault_action) (R : balance -> Prop) (a : fault_action) (g : balance) : Prop :=
  (a = ok /\ R g) \/ (gives_up a /\ settled g [] []).

Definition nil_balance : balance := fun _ => 0.

Ltac weigh_step :=
  lazymatch goal with
  | |- ledger _ (get_world ≫= _) _ _ => apply ledger_get
  | |- ledger _ (get_region _ ≫= _) _ _ => apply ledger_region
  | |- ledger _ (call _ ≫= _) _ _ => apply ledger_call; intros ?
  | |- ledger _ (mret _) _ _ => apply ledger_ret; intros ? ?
  | |- ledger _ fatal _ _ => apply ledger_fatal
  | |- ledger _ (match ?x with _ => _ end) _ _ => destruct x eqn:?
  | |- ledger _ (_ ≫= _) _ _ =>
      first [apply ledger_silent; [by auto with silent nocore|intros ? ?]|apply ledger_bind]
  | |- ledger _ _ _ _ => apply ledger_last; [by auto with silent nocore|intros ? ? ?]
  | |- forall _ : world, ledger _ _ _ _ => intros ?
  end; cbv beta iota zeta.

(** An equation between weights. *)
Ltac reckon :=
  let h := fresh "h" in intros h;
  repeat match goal with H : forall h : holding, ?g h = _ |- _ => rewrite H; clear H end;
  cbn [weight count foldr]; unfold nil_balance; lia.
(** A result whose balance is such an equation. *)
Ltac settle :=
  first
    [ right; split; [unfold gives_up; tauto|reckon]
    | left; split; [reflexivity|];
      match goal with
      | phys : Z |- keeps_frame _ _ => exists phys; reckon
      | s : vm_page_slot |- keeps_pin _ => left; exists (s_phys s); reckon
      | c : Z * Z |- keeps_pin _ => right; exists c; reckon
      end ].
Ltac weigh_all := repeat weigh_step; try settle.

Section balance.
  Context (root key x va : Z) (is_write is_exec : bool) (w : world).

Lemma grow_balance : ledger nil_balance (grow_stack root key x) w (outcome_of fa_stack_grew (fun g => keeps_frame g [])).
Proof. unfold grow_stack, stamp_frame. weigh_all. Qed.

Lemma below_balance : ledger nil_balance (fault_below root key va) w (outcome_of fa_stack_grew (fun g => keeps_frame g [])).
Proof.
  unfold fault_below. apply ledger_get. destruct (first_above _ _ _ _) as [z|]; [|weigh_all].
  destruct (_ && _); [|weigh_all]. unfold grow_stack, stamp_frame. weigh_all.
Qed.

Lemma cow_balance i s0 : pm_slots (r_pages (region w x)) !! i = Some s0 ->
  ledger nil_balance (copy_on_write root key x va i) w (outcome_of fa_resolved (fun g => keeps_frame g [slot_holding s0])).
Proof.
  intros Hi. unfold copy_on_write, stamp_frame, slot_holding. apply ledger_get. cbv zeta. rewrite Hi.
  change (default empty_slot (Some s0)) with s0.
  weigh_all.
Qed.

Lemma anonymous_balance :
  ledger nil_balance (fault_anonymous root key x va is_write) w (outcome_of fa_resolved (fun g => keeps_frame g [])).
Proof. unfold fault_anonymous, stamp_frame. weigh_all. Qed.

Lemma ipc_balance : ledger nil_balance (fault_ipc root x va is_write is_exec) w (outcome_of fa_resolved keeps_pin).
Proof. unfold fault_ipc, pin_source, release_new_pin. weigh_all. Qed.
End balance.

(** What the first critical section keeps, from the space [w] it started with: for a
    resolved fault, when the page was resident, the frame of a copy (and the
    holding of the old slot is given back) or nothing; when it was not, a frame
    with its pin, or for a page shared over IPC the pin only.  A frame and its pin
    for a grown stack, and nothing when it gives up or asks for a file page. *)
Definition kept_by (va : Z) (is_write : bool) (w : world) (a : locked_result) (g : balance) : Prop :=
  match a with
  | LDone fa_resolved =>
      exists x, vm_find w va = Some x /\
      match find_page (r_pages (region w x)) (page_of va) with
      | Some (_, s) =>
          if is_write && cowable (s_state s) && in_cow w va then keeps_frame g [slot_holding s]
          else settled g [] []
      | None => if bool_decide (r_backing (region w x) = bk_ipc_shared) then keeps_pin g else keeps_frame g []
      end
  | LDone fa_stack_grew => vm_find w va = None /\ keeps_frame g []
  | _ => settled g [] []
  end.

(** What the second one does, with a lease on the cached page [c]: it keeps the
    lease for a page that was not resident and gives it back otherwise. *)
Definition kept_resumed (va : Z) (w : world) (c : Z * Z) (a : fault_action) (g : balance) : Prop :=
  match a with
  | fa_resolved =>
      exists x, vm_find w va = Some x /\
      match find_page (r_pages (region w x)) (page_of va) with
      | Some _ => settled g [] [HBinding c]
      | None => settled g [] []
      end
  | _ => settled g [] [HBinding c]
  end.

Lemma ledger_mono {A} g (m : M A) w (Q Q' : A -> balance -> Prop) :
  (forall a g', Q a g' -> Q' a g') -> ledger g m w Q -> ledger g m w Q'.
Proof. intros HQ. apply wlp_mono. intros t [[a w']|]; [|done]. eauto. Qed.

Lemma settled_ext g g' taken given : (forall h, g' h = g h) -> settled g taken given -> settled g' taken given.
Proof. intros E H h. by rewrite E. Qed.

(** A part of the first section that decides the result. *)
Lemma done_balance g (m : M fault_action) ok (R : balance -> Prop) va is_write w0 w :
  ledger g m w (outcome_of ok R) -> (forall g g', (forall h, g' h = g h) -> R g -> kept_by va is_write w0 (LDone ok) g') ->
  ledger g (done_with m) w (kept_by va is_write w0).
Proof.
  intros Hm HR. unfold done_with. apply ledger_bind. revert Hm. apply ledger_mono.
  intros a g1 [[-> H]|[Ha H]] w'; apply ledger_ret; intros g2 E; [by apply (HR g1)|].
  apply (settled_ext _ _ _ _ E) in H. by destruct Ha as [-> |[-> |[-> | ->]]].
Qed.

Lemma locked_balance root key va is_write is_exec w :
  ledger nil_balance (fault_locked root key va is_write is_exec) w (kept_by va is_write w).
Proof.
  unfold fault_locked. apply ledger_get. destruct (vm_find w va) as [x|] eqn:Hf.
  2:{ eapply done_balance; [apply below_balance|]. intros g g' E [new H]. split; [done|]. exists new. by apply (settled_ext g). }
  cbv zeta. apply ledger_still; [by apply still_call|]. intros gen. apply ledger_still; [apply still_policy|]. intros access.
  assert (Hnone : forall a, (forall g, settled g [] [] -> kept_by va is_write w a g) ->
    ledger nil_balance (mret a) w (kept_by va is_write w)).
  { intros a Ha. apply ledger_ret. intros g Hg. apply Ha. intros h. by rewrite Hg. }
  destruct (negb _); [by apply Hnone|]. apply ledger_still; [apply still_refresh|]. intros _.
  unfold fault_in_region. apply ledger_region. cbv zeta.
  destruct (has_flag _ vf_guard); [by apply Hnone|]. destruct (is_write && _ && _); [by apply Hnone|].
  destruct (is_exec && _); [by apply Hnone|].
  destruct (find_page (r_pages (region w x)) (page_of va)) as [[i s]|] eqn:Hp.
  - fold (cowable (s_state s)). destruct (is_write && cowable (s_state s) && _) eqn:Hc.
    + eapply done_balance; [apply (cow_balance _ _ _ _ _ _ s), (found_page _ va i s Hp)|].
      intros g g' E [new H]. exists x. split; [done|]. rewrite Hp. unfold in_cow. rewrite Hf.
      assert (is_write && cowable (s_state s) && cow_or_shared (r_flags (region w x)) = true) as ->
        by by destruct is_write, (cowable (s_state s)).
      exists new. by apply (settled_ext g).
    + apply Hnone. intros g H. exists x. split; [done|]. rewrite Hp. unfold in_cow. rewrite Hf.
      assert (is_write && cowable (s_state s) && cow_or_shared (r_flags (region w x)) = false) as ->
        by by destruct is_write, (cowable (s_state s)).
      done.
  - unfold fault_absent. apply ledger_region. destruct (r_backing (region w x)) eqn:Hb; try by apply Hnone.
    + eapply done_balance; [apply anonymous_balance|]. intros g g' E [new H]. exists x. split; [done|].
      rewrite Hp, Hb. exists new. by apply (settled_ext g).
    + destruct (_ =? 0); [by apply Hnone|]. cbv zeta. destruct (_ <? _); [by apply Hnone|].
      apply ledger_still; [apply still_policy|]. intros k. by apply Hnone.
    + eapply done_balance; [apply ipc_balance|]. intros g g' E H. exists x. split; [done|].
      rewrite Hp, Hb. destruct H as [[z H]|[c H]]; [left; exists z|right; exists c]; by apply (settled_ext g).
Qed.

Lemma resume_balance root va is_write is_exec q l c w :
  ls_binding l = Some c -> ls_phys l <> 0 ->
  ledger nil_balance (fault_file_resume root va is_write is_exec q l) w (kept_resumed va w c).
Proof.
  intros Hc Hp. unfold fault_file_resume, install_file_page, release_lease.
  rewrite Hc, (proj2 (Z.eqb_neq _ _) Hp). repeat weigh_step; cbn [kept_resumed];
    first [reckon|match goal with H : vm_find w va = Some ?x |- _ => exists x; split; [exact H|] end;
      match goal with H : find_page _ _ = _ |- _ => rewrite H end; reckon].
Qed.

(** C29: no fault leaks a frame or a pin.  The balance of a run counts, for every
    frame, every pin on a frame and every cache binding, how often its calls took
    it less how often they gave it back.  Whatever the environment answers, the
    balance of a run of the first critical section that returns is exact: nothing
    when it gives up, asks for a file page or finds the page resident; the frame
    and its pin for a page of anonymous memory and for a grown stack; one pin or
    one duplicated binding for a page shared over IPC; for a copy on write the new
    frame and its pin, less the pin or the binding of the slot it replaces.  The
    second section, which has a lease on a cached page, gives exactly that lease
    back and takes nothing, except when it makes a page resident that was not:
    then it does neither. *)
Theorem fault_leaks_nothing root key va is_write is_exec w t w' :
  (forall a, run (fault_locked root key va is_write is_exec w) t (Some (a, w')) ->
     kept_by va is_write w a (balance_of t)) /\
  (forall q l c a, ls_binding l = Some c -> ls_phys l <> 0 ->
     run (fault_file_resume root va is_write is_exec q l w) t (Some (a, w')) ->
     kept_resumed va w c a (balance_of t)).
Proof.
  split.
  - intros a Hr. exact (proj1 (wlp_run _ _) (locked_balance root key va is_write is_exec w) t _ Hr _ (fun h => eq_refl)).
  - intros q l c a Hb Hp Hr.
    exact (proj1 (wlp_run _ _) (resume_balance root va is_write is_exec q l c w Hb Hp) t _ Hr _ (fun h => eq_refl)).
Qed.

(** ** Runs on the example space *)

(** Nobody changes the space, and the page cache has the page. *)
Definition calm (w : world) (q : file_request) : world * expected page_lease :=
  (w, Expected (PageLease 0x500000 (Some (3, 1)))).

Lemma page_fault_exact_witness :
  exists t w', exec good_env [] (handle_page_fault calm 0 3 0x402010 true false demo_world) = (t, Some (fa_resolved, w')) /\
    vm_wf w' /\ exists s, has_slot w' s /\ s_va_page s = 0x402000 /\ installed 0 0x402000 t None (s_phys s).
Proof.
  pose proof (tspec_exec _ _ _ _ good_env
    (page_fault_exact calm 0 3 0x402010 true false demo_world demo_wf ltac:(done)
       ltac:(done) ltac:(intros w q l [= <-] _; done))) as Hrun.
  assert (E : (fst <$> outcome (handle_page_fault calm 0 3 0x402010 true false) demo_world) = Some fa_resolved)
    by (vm_compute; reflexivity).
  assert (Habs : forall s0, has_slot demo_world s0 -> s_va_page s0 <> page_of 0x402010).
  { intros s0 (x & r & Ex & Hs). cbn in Ex. rewrite lookup_insert_Some, lookup_singleton_Some in Ex.
    destruct Ex as [[_ <-]|[_ [_ <-]]]; [|by apply elem_of_nil in Hs].
    apply list_elem_of_singleton in Hs as ->. vm_compute. discriminate. }
  unfold outcome in *.
  destruct (exec good_env [] (handle_page_fault calm 0 3 0x402010 true false demo_world)) as [t [[a w']|]]; [|done].
  injection E as ->. exists t, w'. split; [reflexivity|].
  destruct Hrun as [(HW & _ & _ & _ & s & Hs & Hv & HN & _)|(q & HW & _ & _ & _ & s & Hs & Hv & HN & _)];
    (split; [exact HW|exists s; split; [exact Hs|split; [exact Hv|exact (HN Habs)]]]).
Defined.

Lemma fault_leaks_nothing_witness :
  exists t w', run (fault_locked 0 3 0x402010 true false demo_world) t (Some (LDone fa_resolved, w')) /\
    keeps_frame (balance_of t) [].
Proof.
  pose proof (exec_run good_env (fault_locked 0 3 0x402010 true false demo_world) []) as Hrun.
  assert (E : (fst <$> (exec good_env [] (fault_locked 0 3 0x402010 true false demo_world)).2) = Some (LDone fa_resolved))
    by (vm_compute; reflexivity).
  destruct (exec good_env [] (fault_locked 0 3 0x402010 true false demo_world)) as [t o]. simpl in Hrun, E.
  destruct o as [[a w']|]; [|done]. injection E as ->. exists t, w'. split; [exact Hrun|].
  destruct (proj1 (fault_leaks_nothing 0 3 0x402010 true false demo_world t w') _ Hrun) as (x & Hx & H).
  assert (Ex : vm_find demo_world 0x402010 = Some 1) by (vm_compute; reflexivity).
  assert (x = 1) as -> by congruence. exact H.
Defined.

(** A page of another space, shared over IPC at [0x408000]. *)
Definition demo_shared (prot : Z) : world :=
  set_region demo_world 2 (with_backing bk_ipc_shared 77 (demo_high 0x408000 prot)).

(** The protection of the first page mapped in a trace. *)
Fixpoint mapped_prot (t : list (event vcall)) : option Z :=
  match t with
  | [] => None
  | Ev (CMapPage _ _ _ prot) _ :: _ => Some prot
  | _ :: t => mapped_prot t
  end.

(** The protection of a page shared over IPC is inverted: an instruction fetch from
    an executable region maps the page so that it cannot be executed (and faults
    again, which is then resolved without a call), while a read of a region that
    is not executable maps an executable page. *)
Theorem ipc_execute_inverted :
  (exists t w', exec good_env [] (fault_in_region 0 3 2 0x409000 false true (demo_shared (Z.lor prot_read prot_exec)))
      = (t, Some (LDone fa_resolved, w')) /\
    mapped_prot t = Some (Z.lor PTE_PROTECT PTE_NOEXEC) /\
    exec good_env [] (fault_in_region 0 3 2 0x409000 false true w') = ([], Some (LDone fa_resolved, w'))) /\
  (exists t w', exec good_env [] (fault_in_region 0 3 2 0x409000 false false (demo_shared prot_read))
      = (t, Some (LDone fa_resolved, w')) /\
    mapped_prot t = Some PTE_PROTECT).
Proof.
  split.
  - do 2 eexists. split; [vm_compute; reflexivity|]. split; vm_compute; reflexivity.
  - do 2 eexists. split; vm_compute; reflexivity.
Qed.
