(* ===== verification/Chain.v ===== *)
(** * Singly linked chains through memory

    Hash buckets, free lists and the reverse map are singly linked lists whose
    links live in an array or in heap nodes, with a distinguished value for the
    end.  [chain nx p l]: following [nx] from [p] visits exactly [l].  The loops
    are the kernel's: a walk that stops at the first node that passes a test,
    and the walk by pointer to link that unlinks it.  A walk takes fuel and
    answers [None] when it is spent; a chain longer than the nodes there are
    does not exist ([chain_bounded]), so the callers' fuel is never spent. *)

From S2P Require Import Prelude.

Section chain.
  Context (nil : Z).

Fixpoint chain (nx : Z -> Z) (p : Z) (l : list Z) : Prop :=
  match l with
  | [] => p = nil
  | a :: l' => p = a /\ a <> nil /\ chain nx (nx a) l'
  end.

(** [for (p = head; p != nil; p = next(p)) if (test(p)) return p;] *)
Fixpoint chain_find (test : Z -> bool) (nx : Z -> Z) (fuel : nat) (p : Z)
    : option (option Z) :=
  match fuel with
  | O => None
  | S fuel' =>
      if p =? nil then Some None
      else if test p then Some (Some p)
      else chain_find test nx fuel' (nx p)
  end.

(** The walk by pointer to link: the link that holds the node that passes the
    test ([None] is the head, [Some a] the link inside [a]), and the node. *)
Fixpoint chain_link (test : Z -> bool) (nx : Z -> Z) (fuel : nat) (link : option Z) (p : Z)
    : option (option (option Z * Z)) :=
  match fuel with
  | O => None
  | S fuel' =>
      if p =? nil then Some None
      else if test p then Some (Some (link, p))
      else chain_link test nx fuel' (Some p) (nx p)
  end.

Lemma chain_agree nx nx' p l :
  (forall a, a ∈ l -> nx' a = nx a) -> chain nx p l -> chain nx' p l.
Proof.
  revert p. induction l as [|a l IH]; intros p He; simpl; [done|].
  intros (-> & Ha & Hl). split_and!; [done|done|]. rewrite He by left.
  apply IH; [|done]. intros b Hb. apply He. by right.
Qed.

(** The links determine the chain. *)
Lemma chain_det nx p l l' : chain nx p l -> chain nx p l' -> l = l'.
Proof.
  revert p l'. induction l as [|a l IH]; intros p [|b l']; simpl; try done.
  - intros -> (-> & Hb & _). done.
  - intros (-> & Ha & _) ->. done.
  - intros (-> & Ha & Hl) (<- & _ & Hl'). f_equal. by eapply IH.
Qed.

Lemma chain_suffix nx p l1 a l2 : chain nx p (l1 ++ a :: l2) -> chain nx a (a :: l2).
Proof.
  revert p. induction l1 as [|b l1 IH]; intros p; simpl.
  - intros (-> & Ha & Hl). done.
  - intros (_ & _ & Hl). by eapply IH.
Qed.

(** A chain that ends visits no node twice. *)
Lemma chain_nodup nx p l : chain nx p l -> NoDup l.
Proof.
  revert p. induction l as [|a l IH]; intros p Hl; [constructor|].
  simpl in Hl. destruct Hl as (-> & Ha & Hl). constructor; [|by eapply IH].
  intros Hin. apply list_elem_of_split in Hin as (l1 & l2 & ->).
  pose proof (chain_suffix _ _ _ _ _ Hl) as Hs.
  assert (Heq : a :: l2 = a :: (l1 ++ a :: l2)).
  { eapply (chain_det nx a); [done|]. simpl. split_and!; done. }
  apply (f_equal length) in Heq. simpl in Heq. rewrite length_app in Heq. simpl in Heq. lia.
Qed.

Lemma chain_not_nil nx p l : chain nx p l -> nil ∉ l.
Proof.
  revert p. induction l as [|a l IH]; intros p; simpl; [intros _ H; inversion H|].
  intros (-> & Ha & Hl) Hin. apply elem_of_cons in Hin as [->|Hin]; [done|].
  by eapply IH.
Qed.

(** Distinct nodes below a bound are at most that many. *)
Lemma chain_bounded nx p l n :
  chain nx p l -> (forall a, a ∈ l -> 0 <= a < n) -> (length l <= Z.to_nat n)%nat.
Proof.
  intros Hl Hb. apply chain_nodup in Hl.
  assert (Hs : l ⊆+ seqZ 0 n).
  { apply NoDup_submseteq; [done|]. intros a Ha. apply elem_of_seqZ. specialize (Hb a Ha). lia. }
  apply submseteq_length in Hs. by rewrite length_seqZ in Hs.
Qed.

Lemma chain_find_list test nx fuel p l :
  chain nx p l -> (length l < fuel)%nat ->
  chain_find test nx fuel p = Some (List.find test l).
Proof.
  revert p fuel. induction l as [|a l IH]; intros p [|fuel] Hl Hf; simpl in *; try lia.
  - subst p. by rewrite Z.eqb_refl.
  - destruct Hl as (-> & Ha & Hl). rewrite (proj2 (Z.eqb_neq a nil) Ha).
    destruct (test a); [done|]. apply IH; [done|lia].
Qed.

(** Nothing passes the test: the walk by link reaches the end. *)
Lemma chain_link_none test nx fuel link p l :
  chain nx p l -> (length l < fuel)%nat -> (forall a, a ∈ l -> test a = false) ->
  chain_link test nx fuel link p = Some None.
Proof.
  revert p fuel link. induction l as [|a l IH]; intros p [|fuel] link Hl Hf Ht; simpl in *; try lia.
  - subst p. by rewrite Z.eqb_refl.
  - destruct Hl as (-> & Ha & Hl). rewrite (proj2 (Z.eqb_neq a nil) Ha), (Ht a) by left.
    apply IH; [done|lia|]. intros b Hb. apply Ht. by right.
Qed.

Lemma chain_link_some test nx fuel link p l1 t l2 :
  chain nx p (l1 ++ t :: l2) -> (length (l1 ++ t :: l2) < fuel)%nat ->
  (forall a, a ∈ l1 -> test a = false) -> test t = true ->
  chain_link test nx fuel link p =
    Some (Some (match list.last l1 with Some a => Some a | None => link end, t)).
Proof.
  revert p fuel link. induction l1 as [|a l1 IH]; intros p [|fuel] link Hl Hf Hn Ht;
    simpl in *; try lia.
  - destruct Hl as (-> & Ha & Hl). by rewrite (proj2 (Z.eqb_neq t nil) Ha), Ht.
  - destruct Hl as (-> & Ha & Hl). rewrite (proj2 (Z.eqb_neq a nil) Ha), (Hn a) by left.
    rewrite (IH (nx a) fuel (Some a)); [|done|lia|intros b Hb; apply Hn; by right|done].
    do 3 f_equal. destruct l1 as [|b l1]; [done|].
    change (list.last (a :: b :: l1)) with (list.last (b :: l1)).
    destruct (list.last (b :: l1)) eqn:E; [done|]. by apply last_None in E.
Qed.

(** Redirecting the link to the node's successor takes the node out. *)
Lemma chain_take_out nx nx' p p' l1 t l2 :
  chain nx p (l1 ++ t :: l2) ->
  match list.last l1 with
  | Some a => p' = p /\ nx' a = nx t
  | None => p' = nx t
  end ->
  (forall a, a ∈ l1 ++ l2 -> list.last l1 <> Some a -> nx' a = nx a) ->
  chain nx' p' (l1 ++ l2).
Proof.
  revert p p'. induction l1 as [|a l1 IH]; intros p p' Hl Hlink He; simpl in *.
  - destruct Hl as (-> & Ht & Hl). subst p'. eapply chain_agree; [|done].
    intros b Hb. by apply He.
  - destruct Hl as (-> & Ha & Hl). destruct l1 as [|b l1].
    + simpl in *. destruct Hlink as [-> Hna]. destruct Hl as (Hat & Ht & Hl).
      split_and!; [done|done|]. rewrite Hna. subst t.
      assert (Hnd : a ∉ l2).
      { intros Hin. apply list_elem_of_split in Hin as (k1 & k2 & ->).
        pose proof (chain_suffix _ _ _ _ _ Hl) as Hs.
        assert (Heq : a :: k2 = a :: nx a :: k1 ++ a :: k2).
        { eapply (chain_det nx a); [done|]. simpl. split_and!; done. }
        apply (f_equal length) in Heq. simpl in Heq. rewrite length_app in Heq. simpl in Heq. lia. }
      eapply chain_agree; [|done]. intros b Hb. apply He; [by right|]. congruence.
    + change (list.last (a :: b :: l1)) with (list.last (b :: l1)) in *.
      destruct (list.last (b :: l1)) as [z|] eqn:E; [|by apply last_None in E].
      destruct Hlink as [-> Hz].
      assert (Hza : z <> a).
      { intros ->. pose proof (chain_nodup nx a (a :: (b :: l1) ++ t :: l2)) as Hnd.
        apply list.NoDup_cons in Hnd as [Hnd _]; [|done]. apply Hnd.
        apply elem_of_app. left. apply last_Some in E as [k ->]. apply elem_of_app. right. by left. }
      split_and!; [done|done|]. rewrite (He a) by (try left; congruence).
      apply (IH (nx a)); [done|done|]. intros c Hc Hcz. apply He; [by right|done].
Qed.

Lemma chain_app_nil nx p l1 l2 a : chain nx p (l1 ++ a :: l2) -> a <> nil.
Proof. intros H. apply chain_suffix in H. by destruct H as (_ & ? & _). Qed.

End chain.

#[global] Arguments chain : simpl never.
#[global] Arguments chain_find : simpl never.
#[global] Arguments chain_link : simpl never.

(** The nodes a walk visits. *)
Fixpoint chain_walk (nil : Z) (nx : Z -> Z) (fuel : nat) (p : Z) : list Z :=
  match fuel with
  | O => []
  | S fuel' => if p =? nil then [] else p :: chain_walk nil nx fuel' (nx p)
  end.

Lemma chain_walk_list nil nx fuel p l :
  chain nil nx p l -> (length l < fuel)%nat -> chain_walk nil nx fuel p = l.
Proof.
  revert p fuel. induction l as [|a l IH]; intros p [|fuel] Hl Hf; simpl in *; try lia.
  - unfold chain in Hl. subst p. by rewrite Z.eqb_refl.
  - destruct Hl as (-> & Ha & Hl). rewrite (proj2 (Z.eqb_neq a nil) Ha). f_equal.
    apply IH; [done|lia].
Qed.

#[global] Arguments chain_walk : simpl never.
