(* ===== verification/Conc.v ===== *)
(** * Threads that share a state under a lock

    A critical section is an atomic program on the shared state that may call
    other subsystems and may trap ([None]).  A thread is a program whose calls
    are critical sections ([Lock]) and calls made with the lock free ([Out]).  A
    pool of threads steps by one section or one outside call of any thread, so
    every interleaving of sections is a run of the pool.

    What a thread may rely on between two of its sections is ownership: a
    multiset of tokens.  The invariant ties the shared state to the tokens of
    all threads together; a section of one thread, from any state where the
    invariant holds with its tokens and any others, must not trap, must leave
    the invariant, and may exchange its own tokens ([safe]).  [pool_safe]: in
    every reachable configuration the invariant holds and no section traps. *)

From S2P Require Import Prelude Prog.
From stdpp Require Import gmultiset.

(** ** Critical sections *)

Definition sec (E : Type -> Type) (S A : Type) : Type := S -> prog E (option (A * S)).

#[global] Instance sec_mret E S : MRet (sec E S) := fun A a s => Ret (Some (a, s)).
#[global] Instance sec_mbind E S : MBind (sec E S) := fun A B f m s =>
  m s ≫= fun r => match r with Some (a, s') => f a s' | None => Ret None end.

Section sections.
  Context {E : Type -> Type} {S : Type}.

Definition scall {R} (c : E R) : sec E S R := fun s => Do c (fun r => Ret (Some (r, s))).
(** [__builtin_trap]. *)
Definition strap {A} : sec E S A := fun _ => Ret None.
Definition sget : sec E S S := fun s => Ret (Some (s, s)).
Definition smodify (f : S -> S) : sec E S unit := fun s => Ret (Some (tt, f s)).

(** What a section guarantees: no trap and [Q] of the answer and the new
    state, when every answer of another subsystem is one that [okE] allows in
    the state at the start of the section. *)
Definition swp (okE : event E -> Prop) {A} (m : sec E S A) (s : S) (Q : A -> S -> Prop) : Prop :=
  wlp (m s) (fun tr o => Forall okE tr ->
    match o with Some (a, s') => Q a s' | None => False end).

Lemma swp_mono okE {A} (m : sec E S A) s (Q Q' : A -> S -> Prop) :
  (forall a s', Q a s' -> Q' a s') -> swp okE m s Q -> swp okE m s Q'.
Proof.
  intros HQ. apply wlp_mono. intros tr [[a s']|] H Hok; [apply HQ|]; by apply H.
Qed.

Lemma swp_ret okE {A} (a : A) s (Q : A -> S -> Prop) : Q a s -> swp okE (mret a) s Q.
Proof. intros HQ _. exact HQ. Qed.

Lemma swp_get okE s (Q : S -> S -> Prop) : Q s s -> swp okE sget s Q.
Proof. intros HQ _. exact HQ. Qed.

Lemma swp_modify okE f s (Q : unit -> S -> Prop) : Q tt (f s) -> swp okE (smodify f) s Q.
Proof. intros HQ _. exact HQ. Qed.

Lemma swp_bind okE {A B} (m : sec E S A) (k : A -> sec E S B) s Q :
  swp okE m s (fun a s' => swp okE (k a) s' Q) -> swp okE (m ≫= k) s Q.
Proof.
  intros Hm. apply wlp_bind. eapply wlp_mono; [|exact Hm].
  intros tr [[a s']|] H; simpl.
  - apply wlp_run. intros tr' o Hr Hok.
    apply Forall_app in Hok as [Hok Hok']. specialize (H Hok).
    exact (proj1 (wlp_run _ _) H tr' o Hr Hok').
  - rewrite app_nil_r. exact H.
Qed.

Lemma swp_call (okE : event E -> Prop) {R} (c : E R) s (Q : R -> S -> Prop) :
  (forall r, okE (Ev c r) -> Q r s) -> swp okE (scall c) s Q.
Proof. intros HQ r Hok. apply HQ. by inversion Hok. Qed.

End sections.

#[global] Arguments scall : simpl never.
#[global] Arguments swp : simpl never.

(** Symbolic execution of a section. *)
Ltac sstep :=
  match goal with
  | |- swp _ (mbind _ _) _ _ => apply swp_bind
  | |- swp _ (mret _) _ _ => apply swp_ret
  | |- swp _ sget _ _ => apply swp_get
  | |- swp _ (smodify _) _ _ => apply swp_modify
  | |- swp _ (scall _) _ _ => apply swp_call; intros ? ?
  | |- swp _ (let _ := _ in _) _ _ => cbv zeta
  end.

(** ** Threads and pools *)

Inductive act (E : Type -> Type) (S : Type) : Type -> Type :=
  | Lock {R} (f : sec E S R) : act E S R
  | Out {R} (c : E R) : act E S R.
Arguments Lock {E S R} f.
Arguments Out {E S R} c.

Definition thread (E : Type -> Type) (S A : Type) : Type := prog (act E S) A.

#[global] Instance thread_mret E S : MRet (thread E S) := fun A a => Ret a.
#[global] Instance thread_mbind E S : MBind (thread E S) := fun A B f p => prog_bind f p.

Definition locked {E S R} (f : sec E S R) : thread E S R := call_ (Lock f).
Definition outside {E S R} (c : E R) : thread E S R := call_ (Out c).

Section pools.
  Context {E : Type -> Type} {S : Type} (okE : S -> event E -> Prop).

Inductive tstep {A} : S * thread E S A -> S * thread E S A -> Prop :=
  | tstep_lock s R (f : sec E S R) k tr r s' :
      run (f s) tr (Some (r, s')) -> Forall (okE s) tr ->
      tstep (s, Do (Lock f) k) (s', k r)
  | tstep_out s R (c : E R) k r : tstep (s, Do (Out c) k) (s, k r).

(** The next section of the thread can trap. *)
Inductive traps {A} : S * thread E S A -> Prop :=
  | traps_lock s R (f : sec E S R) k tr :
      run (f s) tr None -> Forall (okE s) tr -> traps (s, Do (Lock f) k).

Inductive pstep {A} : S * list (thread E S A) -> S * list (thread E S A) -> Prop :=
  | pstep_at s s' ts i t t' :
      ts !! i = Some t -> tstep (s, t) (s', t') -> pstep (s, ts) (s', <[i := t']> ts).

(** *** A schedule: which thread steps next, and what the others answer *)

Definition step_thread {A} (okb : S -> event E -> bool) (env : environment E) (s : S)
    (t : thread E S A) : option (S * thread E S A) :=
  match t with
  | Ret _ => None
  | Do c k =>
      match c in act _ _ R return (R -> thread E S A) -> option (S * thread E S A) with
      | Lock f => fun k =>
          match exec env [] (f s) with
          | (tr, Some (r, s')) => if forallb (okb s) tr then Some (s', k r) else None
          | (_, None) => None
          end
      | Out c => fun k => Some (s, k (env [] _ c))
      end k
  end.

Fixpoint run_schedule {A} (okb : S -> event E -> bool) (sched : list (nat * environment E))
    (s : S) (ts : list (thread E S A)) : option (S * list (thread E S A)) :=
  match sched with
  | [] => Some (s, ts)
  | (i, env) :: rest =>
      t ← ts !! i;
      '(s', t') ← step_thread okb env s t;
      run_schedule okb rest s' (<[i := t']> ts)
  end.

Lemma step_thread_ok {A} okb env s (t : thread E S A) s' t' :
  (forall s e, okb s e = true -> okE s e) ->
  step_thread okb env s t = Some (s', t') -> tstep (s, t) (s', t').
Proof.
  intros Hok. destruct t as [a|R c k]; [done|]. destruct c as [R f|R c]; simpl.
  - pose proof (exec_run env (f s) []) as Hrun. destruct (exec env [] (f s)) as [tr [[r s1]|]]; [|done].
    simpl in Hrun. destruct (forallb (okb s) tr) eqn:Hb; [|done]. intros [= <- <-].
    eapply tstep_lock; [exact Hrun|]. apply Forall_forall. intros e He.
    apply Hok. apply (proj1 (forallb_forall _ _) Hb). exact He.
  - intros [= <- <-]. constructor.
Qed.

Lemma run_schedule_ok {A} okb sched s (ts : list (thread E S A)) c :
  (forall s e, okb s e = true -> okE s e) ->
  run_schedule okb sched s ts = Some c -> rtc pstep (s, ts) c.
Proof.
  intros Hok. revert s ts. induction sched as [|[i env] rest IH]; intros s ts; simpl.
  - intros [= <-]. apply rtc_refl.
  - destruct (ts !! i) as [t|] eqn:Hi; simpl; [|done].
    destruct (step_thread okb env s t) as [[s' t']|] eqn:Hst; simpl; [|done].
    intros Hr. eapply rtc_l; [|by apply IH]. econstructor; [exact Hi|]. by eapply step_thread_ok.
Qed.

(** ** Ownership *)

Context {K : Type} `{Countable K} (Inv : S -> gmultiset K -> Prop).

Fixpoint safe {A} (p : thread E S A) (T : gmultiset K) (Q : A -> gmultiset K -> Prop) : Prop :=
  match p with
  | Ret a => Q a T
  | Do c k =>
      match c in act _ _ R
        return (R -> gmultiset K -> (A -> gmultiset K -> Prop) -> Prop) -> Prop with
      | Lock f => fun next =>
          forall s G, Inv s (G ⊎ T) ->
            swp (okE s) f s (fun r s' => exists T', Inv s' (G ⊎ T') /\ next r T' Q)
      | Out c => fun next => forall r, next r T Q
      end (fun r => safe (k r))
  end.

Lemma safe_bind {A B} (p : thread E S A) (f : A -> thread E S B) T Q :
  safe p T (fun a T' => safe (f a) T' Q) -> safe (p ≫= f) T Q.
Proof.
  unfold mbind, thread_mbind. revert T. induction p as [a|R c k IH]; intros T; simpl; [done|].
  destruct c as [R g|R c]; simpl.
  - intros Hs s G HI. eapply swp_mono; [|exact (Hs s G HI)].
    intros r s' (T' & HI' & Hn). exists T'. split; [done|]. by apply IH.
  - intros Hs r. apply IH, Hs.
Qed.

Lemma safe_mono {A} (p : thread E S A) T (Q Q' : A -> gmultiset K -> Prop) :
  (forall a T', Q a T' -> Q' a T') -> safe p T Q -> safe p T Q'.
Proof.
  intros HQ. revert T. induction p as [a|R c k IH]; intros T; simpl; [apply HQ|].
  destruct c as [R g|R c]; simpl.
  - intros Hs s G HI. eapply swp_mono; [|exact (Hs s G HI)].
    intros r s' (T' & HI' & Hn). exists T'. split; [done|]. by apply IH.
  - intros Hs r. apply IH, Hs.
Qed.

(** Tokens a thread does not use stay with it. *)
Lemma safe_frame {A} (p : thread E S A) T F Q :
  safe p T Q -> safe p (T ⊎ F) (fun a T' => exists T0, T' = T0 ⊎ F /\ Q a T0).
Proof.
  revert T. induction p as [a|R c k IH]; intros T; simpl; [by exists T|].
  destruct c as [R g|R c]; simpl.
  - intros Hs s G HI.
    replace (G ⊎ (T ⊎ F)) with ((G ⊎ F) ⊎ T) in HI
      by (rewrite <- (assoc_L (⊎)); f_equal; apply (comm_L (⊎))).
    eapply swp_mono; [|exact (Hs s (G ⊎ F) HI)].
    intros r s' (T' & HI' & Hn). exists (T' ⊎ F). split; [|by apply IH].
    replace (G ⊎ (T' ⊎ F)) with ((G ⊎ F) ⊎ T'); [done|].
    rewrite <- (assoc_L (⊎)). f_equal. apply (comm_L (⊎)).
  - intros Hs r. apply IH, Hs.
Qed.

(** A section run by itself. *)
Lemma safe_locked {R} (f : sec E S R) T Q :
  (forall s G, Inv s (G ⊎ T) ->
     swp (okE s) f s (fun r s' => exists T', Inv s' (G ⊎ T') /\ Q r T')) ->
  safe (locked f) T Q.
Proof. intros Hf s G HI. exact (Hf s G HI). Qed.

Lemma safe_outside {R} (c : E R) T (Q : R -> gmultiset K -> Prop) :
  (forall r, Q r T) -> safe (outside c) T Q.
Proof. intros HQ r. exact (HQ r). Qed.

(** All the tokens there are. *)
Definition tokens (Ts : list (gmultiset K)) : gmultiset K := foldr (⊎) ∅ Ts.

Lemma tokens_take Ts i T : Ts !! i = Some T -> tokens Ts = tokens (delete i Ts) ⊎ T.
Proof.
  revert i. induction Ts as [|T0 Ts IH]; intros [|i] Hi; simplify_eq/=.
  - by rewrite (comm_L (⊎)).
  - rewrite (IH i Hi). by rewrite (assoc_L (⊎)).
Qed.

Lemma tokens_put Ts i T T' :
  Ts !! i = Some T -> tokens (<[i := T']> Ts) = tokens (delete i Ts) ⊎ T'.
Proof.
  revert i. induction Ts as [|T0 Ts IH]; intros [|i] Hi; simplify_eq/=.
  - by rewrite (comm_L (⊎)).
  - rewrite (IH i Hi). by rewrite (assoc_L (⊎)).
Qed.

Definition pool_ok {A} (Q : A -> gmultiset K -> Prop) (c : S * list (thread E S A)) : Prop :=
  exists Ts, Forall2 (fun t T => safe t T Q) c.2 Ts /\ Inv c.1 (tokens Ts).

Lemma pool_ok_step {A} Q (c c' : S * list (thread E S A)) :
  pool_ok Q c -> pstep c c' -> pool_ok Q c'.
Proof.
  intros (Ts & Hts & HI) Hst. destruct Hst as [s s' ts i t t' Hi Hst]. simpl in *.
  destruct (Forall2_lookup_l _ _ _ _ _ Hts Hi) as (T & HT & Hsafe).
  rewrite (tokens_take _ _ _ HT) in HI.
  inversion Hst as [s0 R f k tr r s1 Hrun Hok|s0 R c k r]; simplify_eq/=.
  - pose proof (proj1 (wlp_run _ _) (Hsafe _ _ HI) _ _ Hrun Hok) as (T' & HI' & Hn).
    exists (<[i := T']> Ts). simpl. split; [by apply Forall2_insert|].
    by rewrite (tokens_put _ _ _ _ HT).
  - exists Ts. split; simpl.
    + rewrite <- (list_insert_id Ts i T HT). by apply Forall2_insert.
    + by rewrite (tokens_take _ _ _ HT).
Qed.

(** In every reachable configuration the invariant holds with the tokens of
    the threads, and no thread's next section can trap. *)
Lemma pool_safe {A} Q (c c' : S * list (thread E S A)) :
  pool_ok Q c -> rtc pstep c c' ->
  pool_ok Q c' /\ forall t, t ∈ c'.2 -> ~ traps (c'.1, t).
Proof.
  intros Hc Hr. assert (Hc' : pool_ok Q c').
  { clear -Hc Hr. induction Hr as [|c1 c2 c3 Hs Hr IH]; [done|]. by eapply IH, pool_ok_step. }
  split; [done|]. intros t Ht Htrap. destruct Hc' as (Ts & Hts & HI).
  apply list_elem_of_lookup in Ht as [i Hi].
  destruct (Forall2_lookup_l _ _ _ _ _ Hts Hi) as (T & HT & Hsafe).
  rewrite (tokens_take _ _ _ HT) in HI.
  inversion Htrap as [s0 R f k tr Hrun Hok]; simplify_eq/=.
  exact (proj1 (wlp_run _ _) (Hsafe _ _ HI) _ _ Hrun Hok).
Qed.

End pools.

#[global] Arguments safe : simpl never.
