(* ===== verification/PageCache.v ===== *)
(** * The page cache ([src/zxfoundation/memory/page_cache.zcomponent/core.cxx])

    A bounded table of file pages: entries in a fixed array, found by (file node,
    page index) and by physical frame through two hash indexes whose buckets are
    chains of entry numbers, with a free list through the unused entries.
    Mapping pins keep a page in the cache; a page without pins can be written
    back and evicted.

    The shared state is [cache]; the lock [g_lock] delimits the critical
    sections, and reading, writing back, allocating and releasing frames happen
    with the lock free.  Operations are threads of sections and outside calls,
    so other operations can run between any two sections of one.  Pointers to
    entries are entry numbers.  Walks along a chain carry one more step than
    there are entries and trap when they are spent. *)

From S2P Require Import Prelude Errors Kobject MemContract Prog Conc Chain VmTypes.

(** ** Data *)

Definition PAGE_CACHE_SLOTS : Z := 4096.
Definition PAGE_CACHE_INDEX_SLOTS : Z := 8192.
Definition PAGE_CACHE_SLOT_INVALID : Z := U32_MAX.

Inductive cache_entry_state := ce_empty | ce_loading | ce_ready | ce_writeback | ce_evicting.

#[global] Instance cache_entry_state_eq_dec : EqDecision cache_entry_state.
Proof. solve_decision. Defined.

Record cache_entry := CacheEntry {
  e_node : Z; e_index : Z; e_phys : Z; e_refs : Z; e_gen : Z;
  e_key_next : Z; e_phys_next : Z; e_free_next : Z;
  e_authority : memory_object_ref; e_key : Z; e_state : cache_entry_state; e_dirty : bool
}.

(** [cache_binding] is (slot, generation); [page_lease] adds the frame. *)
Definition cache_binding : Type := Z * Z.
Record page_lease := PageLease { l_phys : Z; l_binding : cache_binding }.

Definition binding_valid (b : cache_binding) : bool :=
  negb (b.1 =? PAGE_CACHE_SLOT_INVALID) && negb (b.2 =? 0).
Definition binding_cleared : cache_binding := (PAGE_CACHE_SLOT_INVALID, 0).
Definition lease_valid (l : page_lease) : bool :=
  negb (l_phys l =? 0) && binding_valid (l_binding l).

(** The globals; a null [g_entries] is [pc_exists = false]. *)
Record cache := Cache {
  pc_exists : bool; pc_entries : gmap Z cache_entry;
  pc_key_heads : gmap Z Z; pc_phys_heads : gmap Z Z; pc_free_head : Z;
  pc_resident : Z; pc_reader : Z; pc_writer : Z
}.

Definition pc_start : cache := Cache false ∅ ∅ ∅ PAGE_CACHE_SLOT_INVALID 0 0 0.

(** [cache_entry{}] with the links the code stores next to it. *)
Definition blank_entry (gen free_next : Z) : cache_entry :=
  CacheEntry 0 0 0 0 gen PAGE_CACHE_SLOT_INVALID PAGE_CACHE_SLOT_INVALID free_next
    null_ref 0 ce_empty false.

Definition set_key_next (n : Z) (e : cache_entry) : cache_entry :=
  CacheEntry (e_node e) (e_index e) (e_phys e) (e_refs e) (e_gen e) n (e_phys_next e)
    (e_free_next e) (e_authority e) (e_key e) (e_state e) (e_dirty e).
Definition set_phys_next (n : Z) (e : cache_entry) : cache_entry :=
  CacheEntry (e_node e) (e_index e) (e_phys e) (e_refs e) (e_gen e) (e_key_next e) n
    (e_free_next e) (e_authority e) (e_key e) (e_state e) (e_dirty e).
Definition set_free_next (n : Z) (e : cache_entry) : cache_entry :=
  CacheEntry (e_node e) (e_index e) (e_phys e) (e_refs e) (e_gen e) (e_key_next e)
    (e_phys_next e) n (e_authority e) (e_key e) (e_state e) (e_dirty e).
Definition set_state (st : cache_entry_state) (e : cache_entry) : cache_entry :=
  CacheEntry (e_node e) (e_index e) (e_phys e) (e_refs e) (e_gen e) (e_key_next e)
    (e_phys_next e) (e_free_next e) (e_authority e) (e_key e) st (e_dirty e).
Definition set_dirty (d : bool) (e : cache_entry) : cache_entry :=
  CacheEntry (e_node e) (e_index e) (e_phys e) (e_refs e) (e_gen e) (e_key_next e)
    (e_phys_next e) (e_free_next e) (e_authority e) (e_key e) (e_state e) d.
Definition set_refs (n : Z) (e : cache_entry) : cache_entry :=
  CacheEntry (e_node e) (e_index e) (e_phys e) n (e_gen e) (e_key_next e)
    (e_phys_next e) (e_free_next e) (e_authority e) (e_key e) (e_state e) (e_dirty e).
Definition set_key (k : Z) (e : cache_entry) : cache_entry :=
  CacheEntry (e_node e) (e_index e) (e_phys e) (e_refs e) (e_gen e) (e_key_next e)
    (e_phys_next e) (e_free_next e) (e_authority e) k (e_state e) (e_dirty e).
(** The page's identity, written when a slot is reserved. *)
Definition set_page (node index : Z) (e : cache_entry) : cache_entry :=
  CacheEntry node index (e_phys e) (e_refs e) (e_gen e) (e_key_next e)
    (e_phys_next e) (e_free_next e) (e_authority e) (e_key e) (e_state e) (e_dirty e).
(** The frame, key and authority, written when a page is published. *)
Definition set_frame (phys key : Z) (a : memory_object_ref) (e : cache_entry) : cache_entry :=
  CacheEntry (e_node e) (e_index e) phys (e_refs e) (e_gen e) (e_key_next e)
    (e_phys_next e) (e_free_next e) a key (e_state e) (e_dirty e).

Definition upd (i : Z) (f : cache_entry -> cache_entry) (s : cache) : cache :=
  Cache (pc_exists s) (alter f i (pc_entries s)) (pc_key_heads s) (pc_phys_heads s)
    (pc_free_head s) (pc_resident s) (pc_reader s) (pc_writer s).
Definition set_resident (n : Z) (s : cache) : cache :=
  Cache (pc_exists s) (pc_entries s) (pc_key_heads s) (pc_phys_heads s) (pc_free_head s) n
    (pc_reader s) (pc_writer s).

(** ** Calls into other subsystems *)

Inductive pcall : Type -> Type :=
  | PKmalloc (bytes : Z) : pcall bool
  | PKfree : pcall unit
  | PChanged (phys : Z) : pcall bool
  | PSske (phys key : Z) : pcall unit
  | PPolicyFor (r : memory_object_ref) : pcall (expected memory_object_policy)
  | PUpdatePolicy (r : memory_object_ref) (p : memory_object_policy) : pcall (expected unit)
  | PFrameRef (phys : Z) : pcall (expected Z)
  | PFrameUnref (phys : Z) : pcall (expected Z)
  | PReleasePin (phys : Z) : pcall (expected bool)
  | PAlloc : pcall (expected Z)
  | PFree (phys : Z) : pcall unit
  | PRead (reader node index phys : Z) : pcall Z
  | PWrite (writer node index phys : Z) : pcall Z
  | PObjectCreate (key phys : Z) : pcall (expected memory_object_ref)
  | PDestroyId (id : Z) : pcall unit
  | PDestroy (r : memory_object_ref) : pcall (expected unit)
  | PSetMetadata (phys id gen : Z) (writable : bool) : pcall (expected unit).

Notation csec := (sec pcall cache).
Notation cthread := (thread pcall cache).

(** ** Hashing *)

Definition hash_mix (value : Z) : Z :=
  let v := Z.lxor value (Z.shiftr value 33) in
  let v := u64 (v * 0xff51afd7ed558ccd) in
  Z.lxor v (Z.shiftr v 33).

Definition key_bucket (node index : Z) : Z :=
  Z.land (hash_mix (Z.lxor node (Z.shiftl index 32))) (PAGE_CACHE_INDEX_SLOTS - 1).

Definition phys_bucket (phys : Z) : Z :=
  Z.land (hash_mix (Z.shiftr phys 12)) (PAGE_CACHE_INDEX_SLOTS - 1).

Definition next_generation (generation : Z) : Z :=
  let g := u32 (generation + 1) in if g =? 0 then 1 else g.

Definition reset_entry (e : cache_entry) : cache_entry :=
  blank_entry (next_generation (e_gen e)) PAGE_CACHE_SLOT_INVALID.

(** ** Setup *)

Definition CACHE_ENTRY_BYTES : Z := 64.

Definition initial_entry (i : Z) : cache_entry :=
  blank_entry 0 (if i + 1 <? PAGE_CACHE_SLOTS then i + 1 else PAGE_CACHE_SLOT_INVALID).
Definition initial_entries : gmap Z cache_entry :=
  list_to_map ((fun i => (i, initial_entry i)) <$> seqZ 0 PAGE_CACHE_SLOTS).
Definition initial_heads : gmap Z Z :=
  list_to_map ((fun b => (b, PAGE_CACHE_SLOT_INVALID)) <$> seqZ 0 PAGE_CACHE_INDEX_SLOTS).

#[global] Arguments initial_entries : simpl never.
#[global] Arguments initial_heads : simpl never.

Definition kfree_if (b : bool) : csec unit := if b then scall PKfree else mret tt.

Definition ensure_entries_locked : csec bool :=
  s ← sget;
  if pc_exists s then mret true
  else
    entries ← scall (PKmalloc (CACHE_ENTRY_BYTES * PAGE_CACHE_SLOTS));
    key_heads ← scall (PKmalloc (4 * PAGE_CACHE_INDEX_SLOTS));
    phys_heads ← scall (PKmalloc (4 * PAGE_CACHE_INDEX_SLOTS));
    if negb entries || negb key_heads || negb phys_heads then
      _ ← kfree_if entries; _ ← kfree_if key_heads; _ ← kfree_if phys_heads;
      mret false
    else
      _ ← smodify (fun s => Cache true initial_entries initial_heads initial_heads 0 0
                              (pc_reader s) (pc_writer s));
      mret true.

(** ** The indexes

    The key index, the frame index and the free list are the same structure:
    heads by bucket and a link in every entry.  The free list has one bucket. *)

Inductive index := IxKey | IxPhys | IxFree.

Definition ix_next (x : index) (e : cache_entry) : Z :=
  match x with IxKey => e_key_next e | IxPhys => e_phys_next e | IxFree => e_free_next e end.
Definition ix_set_next (x : index) (n : Z) (e : cache_entry) : cache_entry :=
  match x with
  | IxKey => set_key_next n e | IxPhys => set_phys_next n e | IxFree => set_free_next n e
  end.
Definition ix_bucket (x : index) (e : cache_entry) : Z :=
  match x with
  | IxKey => key_bucket (e_node e) (e_index e) | IxPhys => phys_bucket (e_phys e) | IxFree => 0
  end.
Definition ix_head (x : index) (s : cache) (b : Z) : Z :=
  match x with
  | IxKey => default PAGE_CACHE_SLOT_INVALID (pc_key_heads s !! b)
  | IxPhys => default PAGE_CACHE_SLOT_INVALID (pc_phys_heads s !! b)
  | IxFree => if b =? 0 then pc_free_head s else PAGE_CACHE_SLOT_INVALID
  end.
Definition ix_set_head (x : index) (b v : Z) (s : cache) : cache :=
  match x with
  | IxKey => Cache (pc_exists s) (pc_entries s) (<[b := v]> (pc_key_heads s)) (pc_phys_heads s)
               (pc_free_head s) (pc_resident s) (pc_reader s) (pc_writer s)
  | IxPhys => Cache (pc_exists s) (pc_entries s) (pc_key_heads s) (<[b := v]> (pc_phys_heads s))
               (pc_free_head s) (pc_resident s) (pc_reader s) (pc_writer s)
  | IxFree => Cache (pc_exists s) (pc_entries s) (pc_key_heads s) (pc_phys_heads s) v
               (pc_resident s) (pc_reader s) (pc_writer s)
  end.

(** [g_entries[i]]; out of the array the code has no behaviour. *)
Definition ent (s : cache) (i : Z) : cache_entry :=
  default (blank_entry 0 PAGE_CACHE_SLOT_INVALID) (pc_entries s !! i).
Definition ix_link_of (x : index) (s : cache) (i : Z) : Z := ix_next x (ent s i).
Definition walk_fuel : nat := S (Z.to_nat PAGE_CACHE_SLOTS).
#[global] Arguments walk_fuel : simpl never.

Definition find_in (x : index) (bucket : Z) (test : cache_entry -> bool) : csec (option Z) :=
  s ← sget;
  if negb (pc_exists s) then mret None
  else
    match chain_find PAGE_CACHE_SLOT_INVALID (fun i => test (ent s i)) (ix_link_of x s)
            walk_fuel (ix_head x s bucket) with
    | None => strap
    | Some r => mret r
    end.

Definition find_key_locked (node index : Z) : csec (option Z) :=
  find_in IxKey (key_bucket node index) (fun e =>
    negb (bool_decide (e_state e = ce_empty)) && (e_node e =? node) && (e_index e =? index)).

Definition find_phys_locked (phys : Z) : csec (option Z) :=
  find_in IxPhys (phys_bucket phys) (fun e =>
    negb (bool_decide (e_state e = ce_empty)) && (e_phys e =? phys)).

Definition link_locked (x : index) (i : Z) : csec unit :=
  s ← sget;
  let bucket := ix_bucket x (ent s i) in
  _ ← smodify (upd i (ix_set_next x (ix_head x s bucket)));
  smodify (ix_set_head x bucket i).

Definition unlink_locked (x : index) (i : Z) : csec unit :=
  s ← sget;
  let bucket := ix_bucket x (ent s i) in
  match chain_link PAGE_CACHE_SLOT_INVALID (fun j => j =? i) (ix_link_of x s) walk_fuel None
          (ix_head x s bucket) with
  | Some (Some (link, _)) =>
      _ ← smodify (match link with
                   | None => ix_set_head x bucket (ix_next x (ent s i))
                   | Some a => upd a (ix_set_next x (ix_next x (ent s i)))
                   end);
      smodify (upd i (ix_set_next x PAGE_CACHE_SLOT_INVALID))
  | _ => strap
  end.

Definition link_key_locked : Z -> csec unit := link_locked IxKey.
Definition unlink_key_locked : Z -> csec unit := unlink_locked IxKey.
Definition link_phys_locked : Z -> csec unit := link_locked IxPhys.
Definition unlink_phys_locked : Z -> csec unit := unlink_locked IxPhys.

(** ** Entry transitions, under the lock *)

Definition reserve_loading_locked (node index : Z) : csec (option Z) :=
  s ← sget;
  if pc_free_head s =? PAGE_CACHE_SLOT_INVALID then mret None
  else
    let i := pc_free_head s in
    _ ← smodify (ix_set_head IxFree 0 (e_free_next (ent s i)));
    _ ← smodify (upd i (fun e => set_state ce_loading (set_page node index (reset_entry e))));
    _ ← link_key_locked i;
    mret (Some i).

Definition release_entry_locked (i : Z) : csec unit :=
  _ ← smodify (upd i reset_entry);
  link_locked IxFree i.

(** The guard of the traps: the entry is still the one the caller reserved. *)
Definition still (s : cache) (i generation : Z) (st : cache_entry_state) : bool :=
  (e_gen (ent s i) =? generation) && bool_decide (e_state (ent s i) = st).

Definition abort_loading_locked (i generation : Z) : csec unit :=
  s ← sget;
  if negb (still s i generation ce_loading) then strap
  else _ ← unlink_key_locked i; release_entry_locked i.

Definition harvest_dirty_locked (i : Z) : csec unit :=
  s ← sget;
  changed ← scall (PChanged (e_phys (ent s i)));
  if (changed : bool) then smodify (upd i (set_dirty true)) else mret tt.

Definition update_authority_key_locked (i storage_key : Z) : csec (expected unit) :=
  s ← sget;
  policy ← scall (PPolicyFor (e_authority (ent s i)));
  match policy with
  | Unexpected e => mret (Unexpected e)
  | Expected p =>
      let g := u64 (mp_mapping_generation p + 1) in
      scall (PUpdatePolicy (e_authority (ent s i))
        (MemoryObjectPolicy storage_key (mp_storage_key_generation p) (mp_numa_node p)
           (mp_scope p) (mp_access p) (mp_rights p) (mp_invalidate p) (mp_dgp_generation p)
           (if g =? 0 then 1 else g)))
  end.

Definition acquire_mapping_locked (i storage_key : Z) : csec (expected page_lease) :=
  s ← sget;
  if negb (bool_decide (e_state (ent s i) = ce_ready)) then
    mret (Unexpected (from_driver drv_busy))
  else
    key_ok ←
      (if e_refs (ent s i) =? 0 then
         _ ← harvest_dirty_locked i;
         policy_update ← update_authority_key_locked i storage_key;
         match policy_update with
         | Unexpected e => mret (Unexpected e)
         | Expected _ =>
             _ ← smodify (upd i (set_key storage_key));
             _ ← scall (PSske (e_phys (ent s i)) storage_key);
             mret (Expected tt)
         end
       else if negb (e_key (ent s i) =? storage_key) then
         mret (Unexpected (from_memory mem_capability_invalid))
       else mret (Expected tt));
    match key_ok with
    | Unexpected e => mret (Unexpected e)
    | Expected _ =>
        pin ← scall (PFrameRef (e_phys (ent s i)));
        match pin with
        | Unexpected e => mret (Unexpected e)
        | Expected _ =>
            _ ← smodify (upd i (fun e => set_refs (u32 (e_refs e + 1)) e));
            mret (Expected (PageLease (e_phys (ent s i)) (i, e_gen (ent s i))))
        end
    end.

Definition begin_evict_locked (i : Z) : csec bool :=
  s ← sget;
  if negb (bool_decide (e_state (ent s i) = ce_ready)) || negb (e_refs (ent s i) =? 0) then
    mret false
  else
    _ ← harvest_dirty_locked i;
    s ← sget;
    if e_dirty (ent s i) then mret false
    else
      _ ← smodify (upd i (set_state ce_evicting));
      _ ← unlink_phys_locked i;
      _ ← unlink_key_locked i;
      mret true.

Definition restore_ready_locked (i generation : Z) : csec unit :=
  s ← sget;
  if negb (still s i generation ce_evicting) then strap
  else
    _ ← smodify (upd i (set_state ce_ready));
    _ ← link_key_locked i;
    link_phys_locked i.

(** ** Provider registration *)

Definition install_reader (reader : Z) : cthread (expected unit) :=
  if reader =? 0 then mret (Unexpected (from_generic invalid_arg))
  else locked (
    ok ← ensure_entries_locked;
    if negb ok then mret (Unexpected (from_memory mem_out_of_memory))
    else
      _ ← smodify (fun s => Cache (pc_exists s) (pc_entries s) (pc_key_heads s)
            (pc_phys_heads s) (pc_free_head s) (pc_resident s) reader (pc_writer s));
      mret (Expected tt)).

Definition install_writer (writer : Z) : cthread (expected unit) :=
  if writer =? 0 then mret (Unexpected (from_generic invalid_arg))
  else locked (
    ok ← ensure_entries_locked;
    if negb ok then mret (Unexpected (from_memory mem_out_of_memory))
    else
      _ ← smodify (fun s => Cache (pc_exists s) (pc_entries s) (pc_key_heads s)
            (pc_phys_heads s) (pc_free_head s) (pc_resident s) (pc_reader s) writer);
      mret (Expected tt)).

(** ** Eviction *)

(** What the first section of [evict_phys] found. *)
Inductive evict_plan :=
  | EvictNo | EvictClean | EvictDirty (entry writer node index generation : Z).

Definition evict_probe (phys : Z) : csec evict_plan :=
  found ← find_phys_locked phys;
  match found with
  | None => mret EvictNo
  | Some i =>
      s ← sget;
      if negb (bool_decide (e_state (ent s i) = ce_ready)) || negb (e_refs (ent s i) =? 0)
      then mret EvictNo
      else
        _ ← harvest_dirty_locked i;
        s ← sget;
        if e_dirty (ent s i) then
          if pc_writer s =? 0 then mret EvictNo
          else
            _ ← smodify (upd i (set_state ce_writeback));
            mret (EvictDirty i (pc_writer s) (e_node (ent s i)) (e_index (ent s i))
                    (e_gen (ent s i)))
        else mret EvictClean
  end.

Definition writeback_failed (i generation : Z) : csec unit :=
  s ← sget;
  if still s i generation ce_writeback then smodify (upd i (set_state ce_ready)) else mret tt.

Definition writeback_done (phys i generation : Z) : csec unit :=
  s ← sget;
  if negb (still s i generation ce_writeback) then strap
  else
    _ ← smodify (upd i (set_dirty false));
    _ ← scall (PSske phys (e_key (ent s i)));
    smodify (upd i (set_state ce_ready)).

Definition evict_begin (phys : Z) : csec (option (Z * Z)) :=
  found ← find_phys_locked phys;
  match found with
  | None => mret None
  | Some i =>
      begun ← begin_evict_locked i;
      if negb begun then mret None
      else s ← sget; mret (Some (i, e_gen (ent s i)))
  end.

Definition evict_finish (i generation : Z) (released : expected bool) : csec bool :=
  match released with
  | Expected true =>
      s ← sget;
      if negb (still s i generation ce_evicting) then strap
      else
        destroyed ← scall (PDestroy (e_authority (ent s i)));
        match destroyed with
        | Unexpected _ => strap
        | Expected _ =>
            _ ← release_entry_locked i;
            _ ← smodify (fun s => set_resident (u32 (pc_resident s - 1)) s);
            mret true
        end
  | _ => _ ← restore_ready_locked i generation; mret false
  end.

Definition evict_clean (phys : Z) : cthread bool :=
  begun ← locked (evict_begin phys);
  match begun with
  | None => mret false
  | Some (i, generation) =>
      released ← outside (PReleasePin phys);
      locked (evict_finish i generation released)
  end.

Definition evict_phys (phys : Z) : cthread bool :=
  plan ← locked (evict_probe phys);
  match plan with
  | EvictNo => mret false
  | EvictClean => evict_clean phys
  | EvictDirty i writer node index generation =>
      status ← outside (PWrite writer node index phys);
      if negb (status =? 0) then
        _ ← locked (writeback_failed i generation); mret false
      else
        _ ← locked (writeback_done phys i generation); evict_clean phys
  end.

(** ** Acquiring a page *)

Inductive lookup_result :=
  | FoundPage (r : expected page_lease)
  | MustLoad (entry generation reader : Z)
  | CacheFull (eviction_candidate : Z).

(** The first unpinned resident page, for eviction. *)
Definition evictable (s : cache) (i : Z) : bool :=
  bool_decide (e_state (ent s i) = ce_ready) && (e_refs (ent s i) =? 0).
Definition eviction_candidate (s : cache) : Z :=
  match find_up (evictable s) 0 (Z.to_nat PAGE_CACHE_SLOTS) with
  | Some i => e_phys (ent s i)
  | None => 0
  end.

Definition acquire_lookup (node index storage_key : Z) : csec lookup_result :=
  ok ← ensure_entries_locked;
  if negb ok then mret (FoundPage (Unexpected (from_memory mem_out_of_memory)))
  else
    found ← find_key_locked node index;
    match found with
    | Some i => r ← acquire_mapping_locked i storage_key; mret (FoundPage r)
    | None =>
        s ← sget;
        if pc_reader s =? 0 then mret (FoundPage (Unexpected (from_driver drv_not_ready)))
        else
          loading ← reserve_loading_locked node index;
          match loading with
          | Some i => s' ← sget; mret (MustLoad i (e_gen (ent s' i)) (pc_reader s'))
          | None => mret (CacheFull (eviction_candidate s))
          end
    end.

Definition publish (i generation phys storage_key : Z) (authority : memory_object_ref)
    : csec (expected page_lease) :=
  s ← sget;
  if negb (still s i generation ce_loading) then strap
  else
    _ ← smodify (upd i (fun e => set_state ce_ready (set_frame phys storage_key authority e)));
    _ ← link_phys_locked i;
    _ ← smodify (fun s => set_resident (u32 (pc_resident s + 1)) s);
    acquire_mapping_locked i storage_key.

(** Give the reserved entry back and report the error. *)
Definition give_up_loading {A} (i generation : Z) (e : kernel_error) : cthread (expected A) :=
  _ ← locked (abort_loading_locked i generation); mret (Unexpected e).

Definition load_page (node index storage_key i generation reader : Z)
    : cthread (expected page_lease) :=
  allocation ← outside PAlloc;
  match allocation with
  | Unexpected e => give_up_loading i generation e
  | Expected phys =>
  status ← outside (PRead reader node index phys);
  if negb (status =? 0) then
    _ ← outside (PFree phys);
    give_up_loading i generation (from_driver drv_io_error)
  else
  authority ← outside (PObjectCreate storage_key phys);
  match authority with
  | Unexpected e => _ ← outside (PFree phys); give_up_loading i generation e
  | Expected a =>
  resident_pin ← outside (PFrameRef phys);
  match resident_pin with
  | Unexpected e =>
      _ ← outside (PDestroyId (mr_id a));
      _ ← outside (PFree phys);
      give_up_loading i generation e
  | Expected _ =>
  metadata ← outside (PSetMetadata phys (mr_id a) (mr_generation a) false);
  match metadata with
  | Unexpected e =>
      _ ← outside (PReleasePin phys);
      _ ← outside (PDestroyId (mr_id a));
      give_up_loading i generation e
  | Expected _ =>
      _ ← outside (PSske phys storage_key);
      locked (publish i generation phys storage_key a)
  end end end end.

(** The [for (;;)] runs at most [rounds] times here; [None] is a search that
    other threads kept busy for longer. *)
Fixpoint acquire_loop (rounds : nat) (node index storage_key : Z)
    : cthread (option (expected page_lease)) :=
  match rounds with
  | O => mret None
  | S rounds' =>
      r ← locked (acquire_lookup node index storage_key);
      match r with
      | FoundPage l => mret (Some l)
      | MustLoad i generation reader =>
          l ← load_page node index storage_key i generation reader; mret (Some l)
      | CacheFull candidate =>
          if candidate =? 0 then
            mret (Some (Unexpected (from_memory mem_out_of_memory)))
          else
            evicted ← evict_phys candidate;
            if negb evicted then mret (Some (Unexpected (from_memory mem_out_of_memory)))
            else acquire_loop rounds' node index storage_key
      end
  end.

Definition acquire_page (rounds : nat) (node index storage_key : Z)
    : cthread (option (expected page_lease)) :=
  if node =? 0 then mret (Some (Unexpected (from_generic invalid_arg)))
  else acquire_loop rounds node index storage_key.

(** ** Bindings *)

(** [release_binding]: the answer and the caller's binding after it. *)
Definition release_binding_locked (b : cache_binding) : csec (expected unit * cache_binding) :=
  s ← sget;
  if negb (pc_exists s) then mret (Unexpected (from_generic not_found), b)
  else
    let i := b.1 in
    if negb (e_gen (ent s i) =? b.2) || negb (bool_decide (e_state (ent s i) = ce_ready)) ||
       (e_refs (ent s i) =? 0)
    then mret (Unexpected (from_memory mem_capability_invalid), b)
    else
      _ ← harvest_dirty_locked i;
      pin ← scall (PFrameUnref (e_phys (ent s i)));
      match pin with
      | Unexpected e => mret (Unexpected e, b)
      | Expected _ =>
          _ ← smodify (upd i (fun e => set_refs (u32 (e_refs e - 1)) e));
          mret (Expected tt, binding_cleared)
      end.

Definition release_binding (b : cache_binding) : cthread (expected unit * cache_binding) :=
  if negb (binding_valid b) || (PAGE_CACHE_SLOTS <=? b.1)
  then mret (Unexpected (from_generic invalid_arg), b)
  else locked (release_binding_locked b).

(** [release]: a lease that is not valid is refused. *)
Definition release (l : page_lease) : cthread (expected unit * page_lease) :=
  if negb (lease_valid l) then mret (Unexpected (from_generic invalid_arg), l)
  else
    '(result, b) ← release_binding (l_binding l);
    match result with
    | Unexpected e => mret (Unexpected e, PageLease (l_phys l) b)
    | Expected _ => mret (Expected tt, PageLease 0 b)
    end.

Definition duplicate_locked (source : cache_binding) (storage_key : Z)
    : csec (expected cache_binding) :=
  s ← sget;
  if negb (pc_exists s) then mret (Unexpected (from_generic not_found))
  else if negb (e_gen (ent s source.1) =? source.2) then
    mret (Unexpected (from_memory mem_capability_invalid))
  else
    lease ← acquire_mapping_locked source.1 storage_key;
    match lease with
    | Unexpected e => mret (Unexpected e)
    | Expected l => mret (Expected (l_binding l))
    end.

Definition duplicate_binding (source : cache_binding) (storage_key : Z)
    : cthread (expected cache_binding) :=
  if negb (binding_valid source) || (PAGE_CACHE_SLOTS <=? source.1)
  then mret (Unexpected (from_generic invalid_arg))
  else locked (duplicate_locked source storage_key).

Definition mark_dirty_locked (b : cache_binding) : csec (expected unit) :=
  s ← sget;
  if negb (pc_exists s) then mret (Unexpected (from_generic not_found))
  else if negb (e_gen (ent s b.1) =? b.2) || negb (bool_decide (e_state (ent s b.1) = ce_ready))
  then mret (Unexpected (from_memory mem_capability_invalid))
  else _ ← smodify (upd b.1 (set_dirty true)); mret (Expected tt).

Definition mark_dirty_binding (b : cache_binding) : cthread (expected unit) :=
  if negb (binding_valid b) || (PAGE_CACHE_SLOTS <=? b.1)
  then mret (Unexpected (from_generic invalid_arg))
  else locked (mark_dirty_locked b).

(** ** Queries and maintenance by frame *)

Definition resident_count : cthread Z := locked (s ← sget; mret (pc_resident s)).

Definition is_dirty_phys (phys : Z) : cthread bool := locked (
  found ← find_phys_locked phys;
  s ← sget;
  match found with
  | None => mret false
  | Some i =>
      if negb (bool_decide (e_state (ent s i) = ce_ready)) then mret false
      else _ ← harvest_dirty_locked i; s' ← sget; mret (e_dirty (ent s' i))
  end).

Definition mark_dirty_phys (phys : Z) : cthread unit := locked (
  found ← find_phys_locked phys;
  s ← sget;
  match found with
  | None => mret tt
  | Some i =>
      if bool_decide (e_state (ent s i) = ce_ready) then smodify (upd i (set_dirty true))
      else mret tt
  end).

Definition clear_dirty_phys (phys : Z) : cthread unit := locked (
  found ← find_phys_locked phys;
  s ← sget;
  match found with
  | None => mret tt
  | Some i =>
      if negb (bool_decide (e_state (ent s i) = ce_ready)) then mret tt
      else
        _ ← smodify (upd i (set_dirty false));
        scall (PSske phys (e_key (ent s i)))
  end).

(** [evict_phys] on each candidate, counting the pages that went. *)
Fixpoint evict_all (candidates : list Z) (n : Z) : cthread Z :=
  match candidates with
  | [] => mret n
  | phys :: rest => ok ← evict_phys phys; evict_all rest (if ok : bool then u32 (n + 1) else n)
  end.

Definition RECLAIM_BATCH : Z := 64.

(** The frames of the entries that pass the test, in array order. *)
Definition candidates_of (test : cache_entry -> bool) (s : cache) : list Z :=
  e_phys <$> filter (fun e => test e = true) (ent s <$> seqZ 0 PAGE_CACHE_SLOTS).

Definition unmapped (e : cache_entry) : bool :=
  bool_decide (e_state e = ce_ready) && (e_refs e =? 0).

Definition reclaim_scan (limit : Z) : csec (option (list Z)) :=
  s ← sget;
  if negb (pc_exists s) then mret None
  else mret (Some (take (Z.to_nat limit) (candidates_of unmapped s))).

(** Every round that goes on has evicted a page, so [target_pages] rounds are
    enough. *)
Fixpoint reclaim_loop (fuel : nat) (target_pages reclaimed : Z) : cthread Z :=
  match fuel with
  | O => mret reclaimed
  | S fuel' =>
      if negb (reclaimed <? target_pages) then mret reclaimed
      else
        batch ← locked (reclaim_scan (Z.min (target_pages - reclaimed) RECLAIM_BATCH));
        match batch with
        | None | Some [] => mret reclaimed
        | Some candidates =>
            progress ← evict_all candidates 0;
            if progress =? 0 then mret reclaimed
            else reclaim_loop fuel' target_pages (u32 (reclaimed + progress))
        end
  end.

Definition reclaim_unmapped (target_pages : Z) : cthread Z :=
  reclaim_loop (Z.to_nat target_pages) target_pages 0.

Definition evict_range (phys_start phys_end : Z) : cthread Z :=
  if phys_end <=? phys_start then mret 0
  else
    found ← locked (
      s ← sget;
      mret (if negb (pc_exists s) then None
            else Some (candidates_of (fun e => bool_decide (e_state e = ce_ready) &&
                         (phys_start <=? e_phys e) && (e_phys e <? phys_end)) s)));
    match found with
    | None => mret 0
    | Some candidates => evict_all candidates 0
    end.
