(* ===== verification/PageCacheInv.v ===== *)
(** * Invariant of the page cache

    Who may change an entry is a matter of ownership: the thread that moved an
    entry to loading, writeback or evicting holds the one token for it, and
    every mapping pin is a lease token.  [inv] ties the cache to the tokens of
    all threads: chains and free list hold exactly the entries of the right
    states, the pins of a ready entry are the leases there are, an entry in
    transit has exactly one owner. *)

From S2P Require Import Prelude Errors Kobject MemContract Prog Conc Chain VmTypes PageCache.
From stdpp Require Import gmultiset.
Open Scope Z_scope.

(** ** Tokens *)

Inductive token := TOwn (st : cache_entry_state) (i g : Z) | TLease (i g : Z).

#[global] Instance token_eq_dec : EqDecision token.
Proof. solve_decision. Defined.

Definition state_code (st : cache_entry_state) : Z :=
  match st with
  | ce_empty => 0 | ce_loading => 1 | ce_ready => 2 | ce_writeback => 3 | ce_evicting => 4
  end.
Definition state_of_code (n : Z) : cache_entry_state :=
  if n =? 0 then ce_empty else if n =? 1 then ce_loading else if n =? 2 then ce_ready
  else if n =? 3 then ce_writeback else ce_evicting.

#[global] Instance token_countable : Countable token.
Proof.
  refine (inj_countable'
    (fun t => match t with TOwn st i g => (state_code st, i, g) | TLease i g => (5, i, g) end)
    (fun c => match c with (n, i, g) => if n =? 5 then TLease i g else TOwn (state_of_code n) i g end)
    _).
  intros [[] i g|i g]; done.
Defined.

Definition in_transit (st : cache_entry_state) : bool :=
  match st with ce_loading | ce_writeback | ce_evicting => true | _ => false end.

(** The tokens an entry accounts for. *)
Definition entry_tokens (i : Z) (e : cache_entry) (t : token) : nat :=
  match t with
  | TOwn st j g =>
      if in_transit st && bool_decide (e_state e = st) && (j =? i) && (g =? e_gen e) then 1 else 0
  | TLease j g =>
      if bool_decide (e_state e = ce_ready) && (j =? i) && (g =? e_gen e)
      then Z.to_nat (e_refs e) else 0
  end.
Definition token_slot (t : token) : Z := match t with TOwn _ i _ | TLease i _ => i end.
Definition expect (s : cache) (t : token) : nat :=
  match pc_entries s !! token_slot t with
  | Some e => entry_tokens (token_slot t) e t
  | None => 0
  end.

(** ** Shape *)

Definition keyed (st : cache_entry_state) : Prop :=
  st = ce_loading \/ st = ce_ready \/ st = ce_writeback.
Definition framed (st : cache_entry_state) : Prop := st = ce_ready \/ st = ce_writeback.
Definition resident_state (st : cache_entry_state) : bool :=
  match st with ce_ready | ce_writeback | ce_evicting => true | _ => false end.

Definition ix_ok (x : index) (P : Z -> cache_entry_state -> Prop) (s : cache) : Prop :=
  forall b, exists l,
    chain PAGE_CACHE_SLOT_INVALID (ix_link_of x s) (ix_head x s b) l /\
    forall i, i ∈ l <-> exists e, pc_entries s !! i = Some e /\ P i (e_state e) /\ ix_bucket x e = b.

Definition entry_ok (e : cache_entry) : Prop :=
  fits 32 (e_gen e) /\ (e_state e <> ce_empty -> e_gen e <> 0) /\
  fits 32 (e_refs e) /\ (e_state e <> ce_ready -> e_refs e = 0).

Definition resident_now (s : cache) : Z :=
  count_below (fun i => resident_state (e_state (ent s i))) (Z.to_nat PAGE_CACHE_SLOTS).

#[global] Arguments resident_now : simpl never.

(** The shape with the members of each index as parameters, for the states
    between two steps of a section. *)
Record shape (Pk Pp Pf : Z -> cache_entry_state -> Prop) (s : cache) : Prop := Shape {
  sh_exists : pc_exists s = true;
  sh_dom : forall i, is_Some (pc_entries s !! i) <-> 0 <= i < PAGE_CACHE_SLOTS;
  sh_key : ix_ok IxKey Pk s;
  sh_phys : ix_ok IxPhys Pp s;
  sh_free : ix_ok IxFree Pf s;
  sh_entries : forall i e, pc_entries s !! i = Some e -> entry_ok e
}.

Definition Pkey (_ : Z) (st : cache_entry_state) : Prop := keyed st.
Definition Pphys (_ : Z) (st : cache_entry_state) : Prop := framed st.
Definition Pfree (_ : Z) (st : cache_entry_state) : Prop := st = ce_empty.

Definition toks (s : cache) (T : gmultiset token) : Prop :=
  forall t, multiplicity t T = expect s t.

Definition inv (s : cache) (T : gmultiset token) : Prop :=
  toks s T /\
  (if pc_exists s then shape Pkey Pphys Pfree s /\ pc_resident s = resident_now s
   else pc_entries s = ∅).

(** Between the answers of other subsystems and the cache: the frame's 16-bit
    count includes the cache's own pin and one per mapping, so a pin is refused
    when the count is full and a mapping's pin can be given back; destroying the
    authority of an evicted page succeeds. *)
Definition env_ok (s : cache) (ev : event pcall) : Prop :=
  match ev with
  | Ev c r =>
      match c in pcall R return R -> Prop with
      | PFrameRef phys => fun r =>
          has_value r = true ->
          forall i e, pc_entries s !! i = Some e -> e_state e = ce_ready -> e_phys e = phys ->
            e_refs e < 65535
      | PFrameUnref phys => fun r =>
          (exists i e, pc_entries s !! i = Some e /\ e_state e = ce_ready /\ e_phys e = phys /\
             0 < e_refs e) -> has_value r = true
      | PDestroy _ => fun r => has_value r = true
      | _ => fun _ => True
      end r
  end.

(** ** Access *)

Lemma ent_lookup s i e : pc_entries s !! i = Some e -> ent s i = e.
Proof. intros H. unfold ent. by rewrite H. Qed.

Lemma lookup_upd s i f j :
  pc_entries (upd i f s) !! j =
    if decide (j = i) then f <$> pc_entries s !! i else pc_entries s !! j.
Proof.
  simpl. case_decide as Hd; [subst; apply lookup_alter_eq|by apply lookup_alter_ne].
Qed.

Lemma ent_upd s i f e j :
  pc_entries s !! i = Some e -> ent (upd i f s) j = if decide (j = i) then f e else ent s j.
Proof.
  intros He. unfold ent. rewrite lookup_upd. case_decide; [|done]. by rewrite He.
Qed.

Lemma ix_head_upd x i f s b : ix_head x (upd i f s) b = ix_head x s b.
Proof. by destruct x. Qed.

Lemma ix_head_set x s b v b' :
  (x = IxFree -> b = 0) ->
  ix_head x (ix_set_head x b v s) b' = if decide (b' = b) then v else ix_head x s b'.
Proof.
  intros Hb. destruct x; simpl.
  - rewrite lookup_insert. destruct (decide (b = b')) as [->|]; [by rewrite decide_True|].
    by rewrite decide_False by congruence.
  - rewrite lookup_insert. destruct (decide (b = b')) as [->|]; [by rewrite decide_True|].
    by rewrite decide_False by congruence.
  - rewrite Hb by done. destruct (Z.eqb_spec b' 0), (decide (b' = 0)); done.
Qed.

Lemma ix_head_set_ne x y s b v b' : x <> y -> ix_head y (ix_set_head x b v s) b' = ix_head y s b'.
Proof. intros Hxy. by destruct x, y. Qed.

Lemma ix_bucket_free x e : x = IxFree -> ix_bucket x e = 0.
Proof. by intros ->. Qed.

Lemma entries_set_head x b v s : pc_entries (ix_set_head x b v s) = pc_entries s.
Proof. by destruct x. Qed.

Lemma exists_set_head x b v s : pc_exists (ix_set_head x b v s) = pc_exists s.
Proof. by destruct x. Qed.

(** ** An index under changes elsewhere *)

Lemma ix_frame x P P' s s' :
  (forall b, ix_head x s' b = ix_head x s b) ->
  (forall j, is_Some (pc_entries s' !! j) <-> is_Some (pc_entries s !! j)) ->
  (forall j e e', pc_entries s !! j = Some e -> pc_entries s' !! j = Some e' ->
     (P' j (e_state e') <-> P j (e_state e)) /\
     (P j (e_state e) -> ix_bucket x e' = ix_bucket x e /\ ix_next x e' = ix_next x e)) ->
  ix_ok x P s -> ix_ok x P' s'.
Proof.
  intros Hh Hd He Hok b. destruct (Hok b) as (l & Hl & Hm). exists l. split.
  - rewrite Hh. eapply chain_agree; [|done]. intros j Hj.
    apply Hm in Hj as (e & Hje & HP & Hb).
    destruct (proj2 (Hd j) (ex_intro _ _ Hje)) as [e' Hje'].
    unfold ix_link_of. rewrite (ent_lookup _ _ _ Hje), (ent_lookup _ _ _ Hje').
    by apply (He j e e' Hje Hje').
  - intros i. rewrite Hm. split.
    + intros (e & Hie & HP & Hb). destruct (proj2 (Hd i) (ex_intro _ _ Hie)) as [e' Hie'].
      destruct (He i e e' Hie Hie') as [HPP Hs]. exists e'.
      split_and!; [done|by apply HPP|]. by rewrite (proj1 (Hs HP)).
    + intros (e' & Hie' & HP' & Hb). destruct (proj1 (Hd i) (ex_intro _ _ Hie')) as [e Hie].
      destruct (He i e e' Hie Hie') as [HPP Hs]. exists e. apply HPP in HP'.
      split_and!; [done|done|]. by rewrite <- (proj1 (Hs HP')).
Qed.

Lemma ix_iff x P P' s :
  (forall j e, pc_entries s !! j = Some e -> P' j (e_state e) <-> P j (e_state e)) ->
  ix_ok x P s -> ix_ok x P' s.
Proof.
  intros HP. apply ix_frame; [done|done|]. intros j e e' He He'. simplify_eq.
  split; [by apply HP|done].
Qed.

Lemma ix_upd x P P' s i f e :
  pc_entries s !! i = Some e ->
  (forall j st, j <> i -> P' j st <-> P j st) ->
  (P' i (e_state (f e)) <-> P i (e_state e)) ->
  (P i (e_state e) -> ix_bucket x (f e) = ix_bucket x e /\ ix_next x (f e) = ix_next x e) ->
  ix_ok x P s -> ix_ok x P' (upd i f s).
Proof.
  intros He Hne Hi Hs. apply ix_frame.
  - intros b. apply ix_head_upd.
  - intros j. rewrite lookup_upd. case_decide as Hd; [subst|done]. by rewrite He.
  - intros j e1 e2 H1 H2. rewrite lookup_upd in H2. case_decide as Hd.
    + subst j. rewrite He in H1, H2. simplify_eq/=. by split.
    + rewrite H1 in H2. simplify_eq. split; [by apply Hne|done].
Qed.

(** ** Linking and unlinking *)

(** Two caches that differ only in the links of one index. *)
Definition core (e : cache_entry) : cache_entry :=
  set_key_next 0 (set_phys_next 0 (set_free_next 0 e)).

Record relinked (x : index) (s s' : cache) : Prop := Relinked {
  rl_exists : pc_exists s' = pc_exists s;
  rl_resident : pc_resident s' = pc_resident s;
  rl_reader : pc_reader s' = pc_reader s;
  rl_writer : pc_writer s' = pc_writer s;
  rl_core : forall j, core <$> pc_entries s' !! j = core <$> pc_entries s !! j;
  rl_next : forall y j e e', y <> x -> pc_entries s !! j = Some e -> pc_entries s' !! j = Some e' ->
    ix_next y e' = ix_next y e;
  rl_head : forall y b, y <> x -> ix_head y s' b = ix_head y s b
}.

Lemma core_eq e e' : core e' = core e ->
  e_state e' = e_state e /\ e_gen e' = e_gen e /\ e_refs e' = e_refs e /\
  e_phys e' = e_phys e /\ e_node e' = e_node e /\ e_index e' = e_index e /\
  e_key e' = e_key e /\ e_authority e' = e_authority e /\ e_dirty e' = e_dirty e.
Proof. destruct e, e'. unfold core. simpl. intros [=]. by subst. Qed.

Lemma core_bucket x e e' : core e' = core e -> ix_bucket x e' = ix_bucket x e.
Proof.
  intros Hc. destruct (core_eq _ _ Hc) as (_ & _ & _ & Hp & Hn & Hi & _).
  destruct x; simpl; [by rewrite Hn, Hi|by rewrite Hp|done].
Qed.

Lemma core_set_next x n e : core (ix_set_next x n e) = core e.
Proof. by destruct x, e. Qed.

Lemma next_set_next x n e : ix_next x (ix_set_next x n e) = n.
Proof. by destruct x. Qed.

Lemma next_set_next_ne x y n e : y <> x -> ix_next y (ix_set_next x n e) = ix_next y e.
Proof. by destruct x, y. Qed.

Lemma relinked_refl x s : relinked x s s.
Proof. split; try done. intros y j e e' _ He He'. by simplify_eq. Qed.

Lemma relinked_upd x s i n : relinked x s (upd i (ix_set_next x n) s).
Proof.
  split; try done.
  - intros j. rewrite lookup_upd. case_decide as Hd; [subst|done].
    destruct (pc_entries s !! i); simpl; [|done]. by rewrite core_set_next.
  - intros y j e e' Hy He He'. rewrite lookup_upd in He'. case_decide as Hd.
    + subst. rewrite He in He'. simplify_eq/=. by apply next_set_next_ne.
    + congruence.
Qed.

Lemma relinked_head x s b v : relinked x s (ix_set_head x b v s).
Proof.
  split; try by destruct x.
  - intros y j e e' _ He He'. rewrite entries_set_head in He'. congruence.
  - intros y b' Hy. apply ix_head_set_ne. congruence.
Qed.

Lemma relinked_lookup x s s' j e :
  relinked x s s' -> pc_entries s !! j = Some e ->
  exists e', pc_entries s' !! j = Some e' /\ core e' = core e.
Proof.
  intros Hr He. pose proof (rl_core _ _ _ Hr j) as Hc. rewrite He in Hc. simpl in Hc.
  destruct (pc_entries s' !! j) as [e'|]; simpl in Hc; [|done]. exists e'. split; [done|congruence].
Qed.

Lemma relinked_sym x s s' : relinked x s s' -> relinked x s' s.
Proof.
  intros Hr. split; try by destruct Hr; congruence.
  - intros y j e e' Hy He He'. symmetry. by eapply (rl_next _ _ _ Hr).
  - intros y b Hy. symmetry. by apply (rl_head _ _ _ Hr).
Qed.

Lemma relinked_dom x s s' j :
  relinked x s s' -> is_Some (pc_entries s' !! j) <-> is_Some (pc_entries s !! j).
Proof.
  intros Hr. split; intros [e He].
  - destruct (relinked_lookup x s' s j e) as (e' & He' & _); [by apply relinked_sym|done|eauto].
  - destruct (relinked_lookup x s s' j e) as (e' & He' & _); eauto.
Qed.

Lemma relinked_trans x s1 s2 s3 : relinked x s1 s2 -> relinked x s2 s3 -> relinked x s1 s3.
Proof.
  intros H1 H2. split; try by destruct H1, H2; congruence.
  - intros y j e e' Hy He He'.
    destruct (relinked_lookup _ _ _ _ _ H1 He) as (e2 & He2 & _).
    rewrite (rl_next _ _ _ H2 y j e2 e') by done. by apply (rl_next _ _ _ H1 y j).
  - intros y b Hy. rewrite (rl_head _ _ _ H2) by done. by apply (rl_head _ _ _ H1).
Qed.

(** The other indexes do not notice. *)
Lemma ix_relinked x y P s s' : y <> x -> relinked x s s' -> ix_ok y P s -> ix_ok y P s'.
Proof.
  intros Hy Hr. apply ix_frame.
  - intros b. by apply (rl_head _ _ _ Hr).
  - intros j. by apply (relinked_dom x).
  - intros j e e' He He'. destruct (relinked_lookup _ _ _ _ _ Hr He) as (e2 & He2 & Hc).
    assert (e2 = e') as -> by congruence.
    destruct (core_eq _ _ Hc) as (-> & _). split; [done|]. intros _. split.
    + by apply core_bucket.
    + by apply (rl_next _ _ _ Hr y j).
Qed.

Lemma expect_relinked x s s' t : relinked x s s' -> expect s' t = expect s t.
Proof.
  intros Hr. unfold expect. pose proof (rl_core _ _ _ Hr (token_slot t)) as Hc.
  destruct (pc_entries s' !! token_slot t) as [e'|], (pc_entries s !! token_slot t) as [e|];
    simpl in Hc; try done.
  assert (Hc' : core e' = core e) by congruence.
  destruct (core_eq _ _ Hc') as (Hs & Hg & Hr' & _). unfold entry_tokens. by rewrite Hs, Hg, Hr'.
Qed.

Lemma ent_relinked x s s' i : relinked x s s' -> core (ent s' i) = core (ent s i).
Proof.
  intros Hr. pose proof (rl_core _ _ _ Hr i) as Hc. unfold ent.
  destruct (pc_entries s' !! i), (pc_entries s !! i); simpl in *; congruence.
Qed.

Lemma resident_relinked x s s' : relinked x s s' -> resident_now s' = resident_now s.
Proof.
  intros Hr. apply count_below_ext. intros i _.
  by rewrite (proj1 (core_eq _ _ (ent_relinked x s s' i Hr))).
Qed.

Lemma entry_ok_core e e' : core e' = core e -> entry_ok e -> entry_ok e'.
Proof.
  intros Hc. destruct (core_eq _ _ Hc) as (Hs & Hg & Hr & _). unfold entry_ok.
  by rewrite Hs, Hg, Hr.
Qed.

(** Relinking index [x] keeps the rest of the shape. *)
Lemma shape_relinked Pk Pp Pf Pk' Pp' Pf' x s s' :
  relinked x s s' -> shape Pk Pp Pf s ->
  match x with
  | IxKey => ix_ok IxKey Pk' s' /\ Pp' = Pp /\ Pf' = Pf
  | IxPhys => ix_ok IxPhys Pp' s' /\ Pk' = Pk /\ Pf' = Pf
  | IxFree => ix_ok IxFree Pf' s' /\ Pk' = Pk /\ Pp' = Pp
  end -> shape Pk' Pp' Pf' s'.
Proof.
  intros Hr Hs Hx.
  assert (Hother : forall y P, y <> x -> ix_ok y P s -> ix_ok y P s').
  { intros y P Hy. by apply (ix_relinked x). }
  split.
  - rewrite (rl_exists _ _ _ Hr). apply Hs.
  - intros i. rewrite (relinked_dom x s s') by done. apply Hs.
  - destruct x; destruct Hx as (Hix & H1 & H2); subst; [done|apply Hother; [done|apply Hs]..].
  - destruct x; destruct Hx as (Hix & H1 & H2); subst; [|done|]; (apply Hother; [done|apply Hs]).
  - destruct x; destruct Hx as (Hix & H1 & H2); subst; [| |done]; (apply Hother; [done|apply Hs]).
  - intros i e' He'. destruct (relinked_lookup x s' s i e') as (e & He & Hc);
      [by apply relinked_sym|done|].
    eapply entry_ok_core; [symmetry; exact Hc|]. by eapply sh_entries.
Qed.

Lemma slot_not_invalid i : 0 <= i < PAGE_CACHE_SLOTS -> i <> PAGE_CACHE_SLOT_INVALID.
Proof. unfold PAGE_CACHE_SLOTS, PAGE_CACHE_SLOT_INVALID, U32_MAX. lia. Qed.

Section index_ops.
  Context (okE : event pcall -> Prop) (s : cache).
  Hypothesis Hdom : forall i, is_Some (pc_entries s !! i) <-> 0 <= i < PAGE_CACHE_SLOTS.

Lemma members_bounded x P b l :
  chain PAGE_CACHE_SLOT_INVALID (ix_link_of x s) (ix_head x s b) l ->
  (forall i, i ∈ l <-> exists e, pc_entries s !! i = Some e /\ P i (e_state e) /\ ix_bucket x e = b) ->
  (length l < walk_fuel)%nat.
Proof.
  intros Hl Hm.
  assert (Hle : (length l <= Z.to_nat PAGE_CACHE_SLOTS)%nat).
  { eapply chain_bounded; [exact Hl|]. intros i Hi. apply Hm in Hi as (e & He & _).
    apply Hdom. by exists e. }
  unfold walk_fuel. revert Hle. generalize (Z.to_nat PAGE_CACHE_SLOTS). lia.
Qed.

Lemma find_ok x P b test Q :
  ix_ok x P s -> pc_exists s = true ->
  (forall i e, pc_entries s !! i = Some e -> P i (e_state e) -> ix_bucket x e = b ->
     test e = true -> Q (Some i) s) ->
  ((forall i e, pc_entries s !! i = Some e -> P i (e_state e) -> ix_bucket x e = b ->
     test e = false) -> Q None s) ->
  swp okE (find_in x b test) s Q.
Proof.
  intros Hok Hex Hsome Hnone. unfold find_in. repeat sstep. rewrite Hex. simpl.
  destruct (Hok b) as (l & Hl & Hm).
  rewrite (chain_find_list _ _ _ _ _ l Hl) by (by eapply members_bounded).
  apply swp_ret. destruct (List.find _ l) as [i|] eqn:Hf.
  - apply find_some in Hf as [Hin Ht]. apply list_elem_of_In, Hm in Hin as (e & He & HP & Hb).
    rewrite (ent_lookup _ _ _ He) in Ht. by eapply Hsome.
  - apply Hnone. intros i e He HP Hb.
    assert (Hin : i ∈ l) by (apply Hm; eauto). apply list_elem_of_In in Hin.
    pose proof (find_none _ _ Hf i Hin) as Hn. simpl in Hn. by rewrite (ent_lookup _ _ _ He) in Hn.
Qed.

Lemma link_ok x P i e Q :
  ix_ok x P s -> pc_entries s !! i = Some e -> ~ P i (e_state e) ->
  (forall s', relinked x s s' -> ix_ok x (fun j st => P j st \/ j = i) s' -> Q tt s') ->
  swp okE (link_locked x i) s Q.
Proof.
  intros Hok He HnP HQ. unfold link_locked. repeat sstep. rewrite (ent_lookup _ _ _ He).
  set (s1 := upd i (ix_set_next x (ix_head x s (ix_bucket x e))) s).
  assert (Hr : relinked x s (ix_set_head x (ix_bucket x e) i s1))
    by (eapply relinked_trans; [apply relinked_upd|apply relinked_head]).
  apply HQ; [exact Hr|]. intros b. destruct (Hok b) as (l & Hl & Hm).
  assert (Hnl : i ∉ l). { intros (e0 & He0 & HP & _)%Hm. simplify_eq. done. }
  assert (Hlk : forall j, ix_link_of x (ix_set_head x (ix_bucket x e) i s1) j =
    if decide (j = i) then ix_head x s (ix_bucket x e) else ix_link_of x s j).
  { intros j. unfold ix_link_of, ent at 1. rewrite entries_set_head.
    change (default _ (pc_entries s1 !! j)) with (ent s1 j). unfold s1.
    rewrite (ent_upd _ _ _ e) by done. case_decide; [apply next_set_next|done]. }
  assert (Hmem : forall j, (exists e', pc_entries (ix_set_head x (ix_bucket x e) i s1) !! j = Some e' /\
      (P j (e_state e') \/ j = i) /\ ix_bucket x e' = b) <->
      (j ∈ l \/ (j = i /\ ix_bucket x e = b))).
  { intros j. rewrite Hm. split.
    - intros (e' & He' & HP & Hb).
      destruct (relinked_lookup _ _ _ j e' (relinked_sym _ _ _ Hr) He') as (e0 & He0 & Hc).
      pose proof (core_bucket x _ _ Hc) as Hcb. destruct HP as [HP| ->].
      + left. exists e0. rewrite Hcb, (proj1 (core_eq _ _ Hc)). done.
      + right. assert (e0 = e) as -> by congruence. by rewrite Hcb.
    - intros [(e0 & He0 & HP & Hb)|[-> Hb]].
      + destruct (relinked_lookup _ _ _ _ _ Hr He0) as (e' & He' & Hc). exists e'.
        rewrite (core_bucket x e0 e'), (proj1 (core_eq _ _ Hc)) by done. auto.
      + destruct (relinked_lookup _ _ _ _ _ Hr He) as (e' & He' & Hc). exists e'.
        rewrite (core_bucket x e e') by done. auto. }
  rewrite ix_head_set by apply ix_bucket_free. unfold s1 at 2. rewrite ix_head_upd.
  assert (Hext : chain PAGE_CACHE_SLOT_INVALID (ix_link_of x (ix_set_head x (ix_bucket x e) i s1))
            (ix_head x s b) l).
  { eapply chain_agree; [|exact Hl]. intros a Ha. rewrite Hlk, decide_False; [done|congruence]. }
  destruct (decide (b = ix_bucket x e)) as [->|Hb].
  - exists (i :: l). split.
    + simpl. split_and!; [done|apply slot_not_invalid, Hdom; by exists e|].
      rewrite Hlk, decide_True by done. done.
    + intros j. rewrite Hmem, list.elem_of_cons. naive_solver.
  - exists l. split; [done|]. intros j. rewrite Hmem. naive_solver.
Qed.

(** The state after the two stores of [unlink_locked]. *)
Definition unlinked (x : index) (i : Z) (link : option Z) (e : cache_entry) : cache :=
  upd i (ix_set_next x PAGE_CACHE_SLOT_INVALID)
    (match link with
     | None => ix_set_head x (ix_bucket x e) (ix_next x e)
     | Some a => upd a (ix_set_next x (ix_next x e))
     end s).

Lemma unlinked_relinked x i link e : relinked x s (unlinked x i link e).
Proof.
  unfold unlinked. eapply relinked_trans; [|apply relinked_upd].
  destruct link as [a|]; [apply relinked_upd|apply relinked_head].
Qed.

Lemma unlinked_link x i link e j :
  pc_entries s !! i = Some e -> j <> i -> is_Some (pc_entries s !! j) ->
  ix_link_of x (unlinked x i link e) j =
    if decide (link = Some j) then ix_next x e else ix_link_of x s j.
Proof.
  intros He Hj [ej Hej]. unfold unlinked, ix_link_of, ent at 1. rewrite lookup_upd.
  rewrite decide_False by done. destruct link as [a|].
  - rewrite lookup_upd. destruct (decide (j = a)) as [<-|Hne].
    + rewrite (decide_True (P := Some j = Some j)) by done.
      rewrite Hej. simpl. apply next_set_next.
    + rewrite (decide_False (P := Some a = Some j)) by congruence. done.
  - rewrite entries_set_head, (decide_False (P := None = Some j)) by done. done.
Qed.

Lemma unlinked_head x i link e b :
  ix_head x (unlinked x i link e) b =
    if decide (link = None /\ b = ix_bucket x e) then ix_next x e else ix_head x s b.
Proof.
  unfold unlinked. rewrite ix_head_upd. destruct link as [a|].
  - rewrite ix_head_upd, decide_False by naive_solver. done.
  - rewrite ix_head_set by apply ix_bucket_free.
    destruct (decide (b = ix_bucket x e)) as [->|]; [by rewrite decide_True|].
    by rewrite decide_False by naive_solver.
Qed.

Lemma unlinked_members x P i link e j b :
  pc_entries s !! i = Some e ->
  (exists e', pc_entries (unlinked x i link e) !! j = Some e' /\
     (P j (e_state e') /\ j <> i) /\ ix_bucket x e' = b) <->
  (j <> i /\ exists e', pc_entries s !! j = Some e' /\ P j (e_state e') /\ ix_bucket x e' = b).
Proof.
  intros He. pose proof (unlinked_relinked x i link e) as Hr. split.
  - intros (e' & He' & [HP Hj] & Hb). split; [done|].
    destruct (relinked_lookup _ _ _ j e' (relinked_sym _ _ _ Hr) He') as (e0 & He0 & Hc).
    exists e0. by rewrite (core_bucket x _ _ Hc), (proj1 (core_eq _ _ Hc)).
  - intros (Hj & e0 & He0 & HP & Hb).
    destruct (relinked_lookup _ _ _ _ _ Hr He0) as (e' & He' & Hc). exists e'.
    by rewrite (core_bucket x _ _ Hc), (proj1 (core_eq _ _ Hc)).
Qed.

Lemma unlink_ok x P i e Q :
  ix_ok x P s -> pc_entries s !! i = Some e -> P i (e_state e) ->
  (forall s', relinked x s s' -> ix_ok x (fun j st => P j st /\ j <> i) s' -> Q tt s') ->
  swp okE (unlink_locked x i) s Q.
Proof.
  intros Hok He HP HQ. unfold unlink_locked. repeat sstep. rewrite (ent_lookup _ _ _ He).
  destruct (Hok (ix_bucket x e)) as (l & Hl & Hm).
  assert (Hin : i ∈ l) by (apply Hm; eauto).
  apply list_elem_of_split in Hin as (l1 & l2 & ->).
  pose proof (chain_nodup _ _ _ _ Hl) as Hnd. apply list.NoDup_app in Hnd as (_ & Hd12 & Hnd2).
  apply list.NoDup_cons in Hnd2 as [Hi2 _].
  assert (Hi1 : i ∉ l1) by (intros Hi; apply (Hd12 i Hi); left).
  rewrite (chain_link_some _ _ _ _ _ _ l1 i l2 Hl); [|by eapply members_bounded| |by apply Z.eqb_refl].
  2: { intros a Ha. apply Z.eqb_neq. congruence. }
  set (link := match list.last l1 with Some a => Some a | None => None end).
  assert (Hlink : link = list.last l1) by (unfold link; by destruct (list.last l1)).
  clearbody link. sstep. repeat sstep.
  assert (Hs' : upd i (ix_set_next x PAGE_CACHE_SLOT_INVALID)
    ((match link with
      | None => ix_set_head x (ix_bucket x e) (ix_next x e)
      | Some a => upd a (ix_set_next x (ix_next x e)) end) s) = unlinked x i link e) by done.
  rewrite Hs'. apply HQ; [apply unlinked_relinked|]. intros b.
  assert (Hdm : forall j, j ∈ l1 ++ l2 -> j <> i /\ is_Some (pc_entries s !! j)).
  { intros j Hj. split.
    - intros ->. apply elem_of_app in Hj as [Hj|Hj]; done.
    - assert (Hj' : j ∈ l1 ++ i :: l2) by (apply elem_of_app in Hj as [Hj|Hj]; set_solver).
      apply Hm in Hj' as (e' & He' & _). by exists e'. }
  assert (Hlast : forall a, list.last l1 = Some a -> a ∈ l1).
  { intros a Ha. apply last_Some in Ha as [k ->]. set_solver. }
  destruct (decide (b = ix_bucket x e)) as [->|Hb].
  - exists (l1 ++ l2). split.
    + eapply chain_take_out; [exact Hl| |].
      * rewrite unlinked_head. destruct (list.last l1) as [a|] eqn:Ha.
        -- rewrite decide_False by naive_solver. split; [done|].
           destruct (Hdm a) as [Hai Has]; [apply elem_of_app; left; by apply Hlast|].
           rewrite unlinked_link by done. rewrite decide_True by done.
           unfold ix_link_of. by rewrite (ent_lookup _ _ _ He).
        -- rewrite decide_True by done. unfold ix_link_of. by rewrite (ent_lookup _ _ _ He).
      * intros a Ha Hna. destruct (Hdm a Ha) as [Hai Has].
        rewrite unlinked_link by done. by rewrite decide_False by congruence.
    + intros j. rewrite unlinked_members by done. rewrite <- Hm. rewrite !elem_of_app, list.elem_of_cons.
      split; [|naive_solver]. intros Hj. split; [|naive_solver].
      intros ->. destruct Hj; done.
  - destruct (Hok b) as (k & Hk & Hkm). exists k. split.
    + rewrite unlinked_head, decide_False by naive_solver.
      eapply chain_agree; [|exact Hk]. intros a Ha.
      pose proof Ha as Ha'. apply Hkm in Ha' as (ea & Hea & HPa & Hba).
      assert (a <> i) by (intros ->; congruence).
      rewrite unlinked_link by (try done; by exists ea). rewrite decide_False; [done|].
      intros Heq. rewrite Hlink in Heq. apply Hlast in Heq.
      assert (Hal : a ∈ l1 ++ i :: l2) by set_solver.
      apply Hm in Hal as (ea' & Hea' & _ & Hba'). congruence.
    + intros j. rewrite unlinked_members by done. rewrite <- Hkm. split; [|naive_solver].
      intros Hj. split; [|done]. intros ->. apply Hkm in Hj as (e' & He' & _ & Hb').
      congruence.
Qed.

End index_ops.

(** ** Tokens under updates *)

Lemma expect_upd s i f e t :
  pc_entries s !! i = Some e ->
  expect (upd i f s) t = if decide (token_slot t = i) then entry_tokens i (f e) t else expect s t.
Proof.
  intros He. unfold expect. rewrite lookup_upd. case_decide as Hd; [|done].
  subst i. by rewrite He.
Qed.

(** Entry [i] changes and its owner exchanges [T] for [T']. *)
Lemma toks_upd s i f e G T T' :
  pc_entries s !! i = Some e ->
  (forall t, token_slot t = i ->
     (entry_tokens i (f e) t + multiplicity t T = entry_tokens i e t + multiplicity t T')%nat) ->
  (forall t, token_slot t <> i -> multiplicity t T = multiplicity t T') ->
  toks s (G ⊎ T) -> toks (upd i f s) (G ⊎ T').
Proof.
  intros He Hi Hne Ht t. specialize (Ht t). rewrite multiplicity_disj_union in *.
  rewrite (expect_upd _ _ _ e) by done. case_decide as Hd.
  - specialize (Hi t Hd). unfold expect in Ht. rewrite Hd, He in Ht. lia.
  - specialize (Hne t Hd). lia.
Qed.

Lemma toks_relinked x s s' T : relinked x s s' -> toks s T -> toks s' T.
Proof. intros Hr Ht t. rewrite Ht. symmetry. by apply (expect_relinked x). Qed.

(** A change that keeps state, generation and pins keeps the tokens. *)
Lemma toks_same s i f e T :
  pc_entries s !! i = Some e -> e_state (f e) = e_state e -> e_gen (f e) = e_gen e ->
  e_refs (f e) = e_refs e -> toks s T -> toks (upd i f s) T.
Proof.
  intros He Hs Hg Hr Ht t. rewrite Ht. symmetry. rewrite (expect_upd _ _ _ e) by done.
  case_decide as Hd; [|done]. unfold expect. rewrite Hd, He. unfold entry_tokens.
  by rewrite Hs, Hg, Hr.
Qed.

Lemma resident_upd s i f e :
  pc_entries s !! i = Some e -> 0 <= i < PAGE_CACHE_SLOTS ->
  resident_now (upd i f s) =
    resident_now s + Z.b2z (resident_state (e_state (f e))) - Z.b2z (resident_state (e_state e)).
Proof.
  intros He Hi. unfold resident_now.
  rewrite (count_below_upd (fun j => resident_state (e_state (ent s j)))
    (fun j => resident_state (e_state (ent (upd i f s) j))) _ i).
  - by rewrite (ent_upd _ _ _ e), decide_True, (ent_lookup _ _ _ He).
  - rewrite Z2Nat.id; [done|]. unfold PAGE_CACHE_SLOTS. lia.
  - intros j _ Hj. by rewrite (ent_upd _ _ _ e), decide_False.
Qed.

Lemma resident_bounds s : 0 <= resident_now s <= PAGE_CACHE_SLOTS.
Proof.
  unfold resident_now. pose proof (count_below_range
    (fun i => resident_state (e_state (ent s i))) (Z.to_nat PAGE_CACHE_SLOTS)) as H.
  rewrite Z2Nat.id in H; [done|]. unfold PAGE_CACHE_SLOTS. lia.
Qed.

(** Entries under an update of one entry. *)
Lemma shape_upd Pk Pp Pf Pk' Pp' Pf' s i f e :
  pc_entries s !! i = Some e -> shape Pk Pp Pf s -> entry_ok (f e) ->
  ix_ok IxKey Pk' (upd i f s) -> ix_ok IxPhys Pp' (upd i f s) -> ix_ok IxFree Pf' (upd i f s) ->
  shape Pk' Pp' Pf' (upd i f s).
Proof.
  intros He Hs Hf Hk Hp Hfr. split; [apply Hs| |done..|].
  - intros j. rewrite <- (sh_dom _ _ _ _ Hs). rewrite lookup_upd.
    case_decide as Hd; [subst|done]. by rewrite He.
  - intros j e' He'. rewrite lookup_upd in He'. case_decide as Hd.
    + rewrite He in He'. by simplify_eq/=.
    + by eapply sh_entries.
Qed.

Lemma shape_slot Pk Pp Pf s i e :
  shape Pk Pp Pf s -> pc_entries s !! i = Some e -> 0 <= i < PAGE_CACHE_SLOTS.
Proof. intros Hs He. apply (sh_dom _ _ _ _ Hs). by exists e. Qed.
