(* ===== verification/PageCacheSafe.v ===== *)
(** * The sections of the page cache keep the invariant

    One lemma per critical section: from any state of the invariant with the
    section's tokens it does not trap and leaves the invariant with the tokens
    it hands back.  The operations follow: each is safe against any
    interleaving with the others. *)

From S2P Require Import Prelude Errors Kobject MemContract Prog Conc Chain VmTypes PageCache PageCacheInv.
From stdpp Require Import gmultiset.
Open Scope Z_scope.

(** ** Tokens of one entry *)

Lemma tokens_of_transit i e t :
  in_transit (e_state e) = true ->
  entry_tokens i e t = multiplicity t ({[+ TOwn (e_state e) i (e_gen e) +]} : gmultiset token).
Proof.
  intros Hst. rewrite multiplicity_singleton. destruct t as [st j g|j g]; simpl.
  - destruct (decide _) as [Heq|Hne].
    + simplify_eq. rewrite Hst, bool_decide_eq_true_2, !Z.eqb_refl by done. done.
    + destruct (in_transit st) eqn:E; [|done]. simpl.
      case_bool_decide; [|done]. simpl. destruct (Z.eqb_spec j i), (Z.eqb_spec g (e_gen e)); simpl; try done.
      subst. done.
  - rewrite bool_decide_eq_false_2 by (intros E; rewrite E in Hst; done). done.
Qed.

Lemma tokens_of_empty i e t : e_state e = ce_empty -> entry_tokens i e t = 0%nat.
Proof.
  intros Hst. unfold entry_tokens. rewrite Hst. destruct t as [[] j g|j g]; done.
Qed.

Lemma tokens_of_ready i e t :
  e_state e = ce_ready ->
  entry_tokens i e t = if decide (t = TLease i (e_gen e)) then Z.to_nat (e_refs e) else 0%nat.
Proof.
  intros Hst. unfold entry_tokens. rewrite Hst. destruct t as [[] j g|j g]; try done. simpl.
  destruct (decide _) as [Heq|Hne]; [simplify_eq; by rewrite !Z.eqb_refl|].
  destruct (Z.eqb_spec j i), (Z.eqb_spec g (e_gen e)); simpl; try done. subst. done.
Qed.

(** ** Reading the invariant *)

Definition good (s : cache) : Prop :=
  shape Pkey Pphys Pfree s /\ pc_resident s = resident_now s.

Lemma inv_good s T i e : inv s T -> pc_entries s !! i = Some e -> good s /\ toks s T.
Proof.
  intros [Ht Hs] He. destruct (pc_exists s); [done|]. rewrite Hs, lookup_empty in He. done.
Qed.

Lemma good_inv s T : good s -> toks s T -> inv s T.
Proof. intros [Hs Hr] Ht. split; [done|]. rewrite (sh_exists _ _ _ _ Hs). done. Qed.

Lemma own_entry s G st i g :
  inv s (G ⊎ {[+ TOwn st i g +]}) -> in_transit st = true ->
  exists e, pc_entries s !! i = Some e /\ e_state e = st /\ e_gen e = g /\ good s.
Proof.
  intros Hinv Hst. pose proof (proj1 Hinv (TOwn st i g)) as Hm.
  rewrite multiplicity_disj_union, multiplicity_singleton_eq in Hm. unfold expect in Hm. simpl in Hm.
  destruct (pc_entries s !! i) as [e|] eqn:He; [|lia]. exists e.
  destruct (in_transit st && bool_decide (e_state e = st) && (i =? i) && (g =? e_gen e)) eqn:E; [|lia].
  apply andb_true_iff in E as [[[_ Hs]%andb_true_iff _]%andb_true_iff Hg].
  apply bool_decide_eq_true in Hs. apply Z.eqb_eq in Hg.
  split_and!; [done|done|done|]. by eapply inv_good.
Qed.

Lemma lease_entry s G i g :
  inv s (G ⊎ {[+ TLease i g +]}) ->
  exists e, pc_entries s !! i = Some e /\ e_state e = ce_ready /\ e_gen e = g /\ 0 < e_refs e /\
    good s.
Proof.
  intros Hinv. pose proof (proj1 Hinv (TLease i g)) as Hm.
  rewrite multiplicity_disj_union, multiplicity_singleton_eq in Hm. unfold expect in Hm. simpl in Hm.
  destruct (pc_entries s !! i) as [e|] eqn:He; [|lia]. exists e.
  destruct (bool_decide (e_state e = ce_ready) && (i =? i) && (g =? e_gen e)) eqn:E; [|lia].
  apply andb_true_iff in E as [[Hs _]%andb_true_iff Hg].
  apply bool_decide_eq_true in Hs. apply Z.eqb_eq in Hg.
  split_and!; [done|done|done|lia|]. by eapply inv_good.
Qed.

(** ** Changes that touch neither identity nor links *)

Definition strip (e : cache_entry) : cache_entry := set_dirty false (set_key 0 e).

Definition touched (i : Z) (s s' : cache) : Prop :=
  exists f, (forall e, strip (f e) = strip e) /\ s' = upd i f s.

Lemma strip_eq e e' : strip e' = strip e ->
  e_state e' = e_state e /\ e_gen e' = e_gen e /\ e_refs e' = e_refs e /\
  e_phys e' = e_phys e /\ e_node e' = e_node e /\ e_index e' = e_index e /\
  e_authority e' = e_authority e /\ (forall x, ix_next x e' = ix_next x e).
Proof. destruct e, e'. unfold strip. simpl. intros [=]. by subst. Qed.

Lemma touched_refl i s : touched i s s.
Proof.
  exists (fun e => e). split; [done|]. destruct s. unfold upd. simpl. f_equal. apply map_eq. intros j.
  rewrite lookup_alter. case_decide as Hd; [|done]. subst.
  by destruct (_ !! j).
Qed.

Lemma touched_upd i s f : (forall e, strip (f e) = strip e) -> touched i s (upd i f s).
Proof. intros Hf. by exists f. Qed.

Lemma touched_trans i s1 s2 s3 : touched i s1 s2 -> touched i s2 s3 -> touched i s1 s3.
Proof.
  intros (f & Hf & ->) (g & Hg & ->). exists (g ∘ f). split.
  - intros e. simpl. by rewrite Hg, Hf.
  - unfold upd. simpl. f_equal. apply map_eq. intros j.
    rewrite !lookup_alter. case_decide as Hd; [|done]. rewrite decide_True by done.
    by destruct (pc_entries s1 !! i).
Qed.

Lemma touched_lookup i s s' e :
  touched i s s' -> pc_entries s !! i = Some e ->
  exists e', pc_entries s' !! i = Some e' /\ strip e' = strip e.
Proof.
  intros (f & Hf & ->) He. exists (f e). rewrite lookup_upd, decide_True, He by done. done.
Qed.

Lemma touched_inv i s s' e T :
  touched i s s' -> pc_entries s !! i = Some e -> inv s T -> inv s' T.
Proof.
  intros (f & Hf & ->) He Hinv. destruct (inv_good _ _ _ _ Hinv He) as [[Hs Hr] Ht].
  destruct (strip_eq _ _ (Hf e)) as (Hst & Hg & Hrf & Hp & Hn & Hi & _ & Hnx).
  assert (Hb : forall x, ix_bucket x (f e) = ix_bucket x e)
    by (intros []; simpl; by rewrite ?Hp, ?Hn, ?Hi).
  apply good_inv; [split|].
  - eapply shape_upd; [done|done| |..].
    + pose proof (sh_entries _ _ _ _ Hs i e He) as Hok. unfold entry_ok in *. by rewrite Hst, Hg, Hrf.
    + eapply ix_upd; [done|done|unfold Pkey; by rewrite Hst|auto|apply Hs].
    + eapply ix_upd; [done|done|unfold Pphys; by rewrite Hst|auto|apply Hs].
    + eapply ix_upd; [done|done|unfold Pfree; by rewrite Hst|auto|apply Hs].
  - simpl. rewrite (resident_upd _ _ _ e) by (try done; by eapply shape_slot).
    rewrite Hst, Hr. lia.
  - by eapply toks_same.
Qed.

Lemma touched_same i s s' :
  touched i s s' -> pc_exists s' = pc_exists s /\ pc_writer s' = pc_writer s /\
    pc_reader s' = pc_reader s.
Proof. by intros (f & _ & ->). Qed.

Section sections.
  Context (okE : event pcall -> Prop).

Lemma harvest_ok s i Q :
  (forall s', touched i s s' -> Q tt s') -> swp okE (harvest_dirty_locked i) s Q.
Proof.
  intros HQ. unfold harvest_dirty_locked. repeat sstep. destruct r; sstep; apply HQ.
  - by apply touched_upd.
  - apply touched_refl.
Qed.

Lemma authority_ok s i k (Q : expected unit -> cache -> Prop) :
  (forall r, Q r s) -> swp okE (update_authority_key_locked i k) s Q.
Proof.
  intros HQ. unfold update_authority_key_locked. repeat sstep.
  destruct r; [sstep; apply HQ|apply swp_ret, HQ].
Qed.

(** A pin taken: one more lease. *)
Lemma pin_inv s i e T :
  inv s T -> pc_entries s !! i = Some e -> e_state e = ce_ready -> e_refs e < 65535 ->
  inv (upd i (fun e => set_refs (u32 (e_refs e + 1)) e) s) (T ⊎ {[+ TLease i (e_gen e) +]}).
Proof.
  intros Hinv He Hst Hlt. destruct (inv_good _ _ _ _ Hinv He) as [[Hs Hr] Ht].
  pose proof (sh_entries _ _ _ _ Hs i e He) as (Hg & Hg0 & Hrf & Hnr).
  assert (Hu : u32 (e_refs e + 1) = e_refs e + 1) by (apply u32_small; unfold fits in *; lia).
  apply good_inv; [split|].
  - eapply shape_upd; [done|done| |..].
    + unfold entry_ok. simpl. rewrite Hu. split_and!; [done|done| |done].
      unfold fits in *. lia.
    + eapply ix_upd; [done|done|done|auto|apply Hs].
    + eapply ix_upd; [done|done|done|auto|apply Hs].
    + eapply ix_upd; [done|done|done|auto|apply Hs].
  - simpl. rewrite (resident_upd _ _ _ e) by (try done; by eapply shape_slot). simpl. lia.
  - eapply (toks_upd _ _ _ e T ∅); [done| | |by rewrite (right_id_L ∅ (⊎))].
    + intros t Ht'. rewrite !tokens_of_ready by done. simpl.
      rewrite multiplicity_empty, multiplicity_singleton, Hu.
      unfold fits in *. case_decide; lia.
    + intros t Ht'. rewrite multiplicity_empty, multiplicity_singleton.
      rewrite decide_False; [done|]. by intros ->.
Qed.

(** A pin given back: one lease less. *)
Lemma unpin_inv s G i e :
  inv s (G ⊎ {[+ TLease i (e_gen e) +]}) -> pc_entries s !! i = Some e ->
  e_state e = ce_ready -> 0 < e_refs e ->
  inv (upd i (fun e => set_refs (u32 (e_refs e - 1)) e) s) G.
Proof.
  intros Hinv He Hst Hlt. destruct (inv_good _ _ _ _ Hinv He) as [[Hs Hr] Ht].
  pose proof (sh_entries _ _ _ _ Hs i e He) as (Hg & Hg0 & Hrf & Hnr).
  assert (Hu : u32 (e_refs e - 1) = e_refs e - 1) by (apply u32_small; unfold fits in *; lia).
  apply good_inv; [split|].
  - eapply shape_upd; [done|done| |..].
    + unfold entry_ok. simpl. rewrite Hu. split_and!; [done|done| |done].
      unfold fits in *. lia.
    + eapply ix_upd; [done|done|done|auto|apply Hs].
    + eapply ix_upd; [done|done|done|auto|apply Hs].
    + eapply ix_upd; [done|done|done|auto|apply Hs].
  - simpl. rewrite (resident_upd _ _ _ e) by (try done; by eapply shape_slot). simpl. lia.
  - rewrite <- (right_id_L ∅ (⊎) G).
    eapply (toks_upd _ _ _ e G); [done| | |exact Ht].
    + intros t Ht'. rewrite !tokens_of_ready by done. simpl.
      rewrite multiplicity_empty, multiplicity_singleton, Hu.
      unfold fits in *. case_decide; lia.
    + intros t Ht'. rewrite multiplicity_empty, multiplicity_singleton.
      rewrite decide_False; [done|]. by intros ->.
Qed.

Lemma acquire_mapping_ok s i k e T :
  inv s T -> pc_entries s !! i = Some e ->
  (e_state e = ce_ready ->
     (exists r, okE (Ev (PFrameRef (e_phys e)) (Expected r))) -> e_refs e < 65535) ->
  swp okE (acquire_mapping_locked i k) s (fun r s' =>
    match r with
    | Expected l => l = PageLease (e_phys e) (i, e_gen e) /\ e_state e = ce_ready /\
        inv s' (T ⊎ {[+ TLease i (e_gen e) +]})
    | Unexpected _ => inv s' T
    end).
Proof.
  intros Hinv He Hpin. unfold acquire_mapping_locked. do 2 sstep. rewrite (ent_lookup _ _ _ He).
  case_bool_decide as Hst; simpl; [|by apply swp_ret].
  sstep.
  set (Q := fun (r : expected unit) s' => touched i s s').
  enough (Hk : swp okE
    (if e_refs e =? 0 then
         _ ← harvest_dirty_locked i;
         policy_update ← update_authority_key_locked i k;
         match policy_update with
         | Unexpected e => mret (Unexpected e)
         | Expected _ =>
             _ ← smodify (upd i (set_key k));
             _ ← scall (PSske (e_phys e) k);
             mret (Expected tt)
         end
       else if negb (e_key e =? k) then
         mret (Unexpected (from_memory mem_capability_invalid))
       else mret (Expected tt)) s Q).
  { eapply swp_mono; [|exact Hk]. intros [[]|err] s' Ht.
    - repeat sstep. destruct r as [n|err]; sstep.
      + repeat sstep. split; [done|]. split; [done|].
        destruct (touched_lookup _ _ _ _ Ht He) as (e' & He' & Hse).
        destruct (strip_eq _ _ Hse) as (Hs' & Hg' & Hr' & Hp' & _).
        rewrite <- Hg'. apply pin_inv; [by eapply touched_inv|done|congruence|].
        rewrite Hr'. apply Hpin; [done|]. by exists n.
      + by eapply touched_inv.
    - sstep. by eapply touched_inv. }
  unfold Q. destruct (e_refs e =? 0).
  - sstep. apply harvest_ok. intros s' Ht. sstep. apply authority_ok. intros [[]|err].
    + repeat sstep. eapply touched_trans; [done|]. by apply touched_upd.
    + by sstep.
  - destruct (negb _); sstep; apply touched_refl.
Qed.

(** ** Entry transitions *)

Lemma next_generation_ok g : fits 32 (next_generation g) /\ next_generation g <> 0.
Proof.
  unfold next_generation. pose proof (u32_fits (g + 1)) as Hf.
  destruct (Z.eqb_spec (u32 (g + 1)) 0); [|done]. split; [|done]. unfold fits. lia.
Qed.

Lemma reset_ok e : entry_ok (reset_entry e).
Proof.
  unfold entry_ok, reset_entry, blank_entry. simpl.
  destruct (next_generation_ok (e_gen e)). split_and!; try done.
Qed.

Definition but (i : Z) (P : Z -> cache_entry_state -> Prop) (j : Z) (st : cache_entry_state) : Prop :=
  P j st /\ j <> i.

Lemma ix_but x P s i :
  (forall e, pc_entries s !! i = Some e -> ~ P i (e_state e)) ->
  ix_ok x P s -> ix_ok x (but i P) s.
Proof.
  intros Hi. apply ix_iff. intros j e He. unfold but. split; [tauto|]. intros HP.
  split; [done|]. intros ->. by eapply Hi.
Qed.

(** Back to the full membership once entry [i] is linked or out of the set. *)
Lemma ix_but_or x P s i :
  (forall e, pc_entries s !! i = Some e -> P i (e_state e)) ->
  ix_ok x (fun j st => but i P j st \/ j = i) s -> ix_ok x P s.
Proof.
  intros Hi. apply ix_iff. intros j e He. unfold but. split.
  - intros HP. destruct (decide (j = i)); [by right|by left].
  - intros [[HP _]| ->]; [done|]. by apply Hi.
Qed.

Lemma ix_but_out x P s i :
  (forall e, pc_entries s !! i = Some e -> ~ P i (e_state e)) ->
  ix_ok x (but i P) s -> ix_ok x P s.
Proof.
  intros Hi. apply ix_iff. intros j e He. unfold but. split; [|tauto]. intros HP.
  split; [done|]. intros ->. by eapply Hi.
Qed.

Lemma relinked_state x s s' i e :
  relinked x s s' -> pc_entries s !! i = Some e ->
  forall e', pc_entries s' !! i = Some e' -> e_state e' = e_state e.
Proof.
  intros Hr He e' He'. destruct (relinked_lookup _ _ _ _ _ Hr He) as (e2 & He2 & Hc).
  assert (e2 = e') as -> by congruence. by apply (core_eq _ _ Hc).
Qed.

(** Entry [i], linked nowhere, changes in any way. *)
Lemma ix_upd_out x P s i f e :
  pc_entries s !! i = Some e -> ix_ok x (but i P) s -> ix_ok x (but i P) (upd i f s).
Proof.
  intros He. eapply ix_upd; [done|done| |]; unfold but; [|tauto]. split; tauto.
Qed.

Lemma release_entry_ok s i e Q :
  shape (but i Pkey) (but i Pphys) Pfree s -> pc_entries s !! i = Some e ->
  e_state e <> ce_empty ->
  (forall s', shape Pkey Pphys Pfree s' -> relinked IxFree (upd i reset_entry s) s' -> Q tt s') ->
  swp okE (release_entry_locked i) s Q.
Proof.
  intros Hs He Hst HQ. unfold release_entry_locked. repeat sstep.
  set (s1 := upd i reset_entry s).
  assert (He1 : pc_entries s1 !! i = Some (reset_entry e))
    by (unfold s1; by rewrite lookup_upd, decide_True, He).
  assert (Hs1 : shape Pkey Pphys (but i Pfree) s1).
  { eapply shape_upd; [done|done|apply reset_ok| | |].
    - eapply ix_but_out; [|eapply ix_upd_out; [done|apply Hs]].
      intros e' He'. assert (e' = reset_entry e) as -> by (unfold s1 in He1; congruence).
      unfold Pkey, keyed. simpl. naive_solver.
    - eapply ix_but_out; [|eapply ix_upd_out; [done|apply Hs]].
      intros e' He'. assert (e' = reset_entry e) as -> by (unfold s1 in He1; congruence).
      unfold Pphys, framed. simpl. naive_solver.
    - eapply ix_upd_out; [done|]. apply ix_but; [|apply Hs]. intros e' He'. by simplify_eq. }
  eapply (link_ok okE s1); [apply Hs1|apply Hs1|done|unfold but; tauto|].
  intros s' Hr Hix. apply HQ; [|done].
  eapply shape_relinked; [exact Hr|exact Hs1|]. split_and!; [|done|done].
  eapply ix_but_or; [|exact Hix]. intros e' He'.
  unfold Pfree. by rewrite (relinked_state _ _ _ _ _ Hr He1 e' He').
Qed.

(** Out of a chain: the shape without entry [i] there. *)
Lemma unlink_key_ok Pp Pf s i e Q :
  shape Pkey Pp Pf s -> pc_entries s !! i = Some e -> keyed (e_state e) ->
  (forall s', relinked IxKey s s' -> shape (but i Pkey) Pp Pf s' -> Q tt s') ->
  swp okE (unlink_key_locked i) s Q.
Proof.
  intros Hs He Hst HQ. eapply (unlink_ok okE s); [apply Hs|apply Hs|done|done|].
  intros s' Hr Hix. apply HQ; [done|]. by eapply (shape_relinked _ _ _ _ _ _ IxKey).
Qed.

Lemma relink_tokens x s1 s2 i f e G T T' :
  relinked x (upd i f s1) s2 -> pc_entries s1 !! i = Some e ->
  (forall t, token_slot t = i ->
     (entry_tokens i (f e) t + multiplicity t T = entry_tokens i e t + multiplicity t T')%nat) ->
  (forall t, token_slot t <> i -> multiplicity t T = multiplicity t T') ->
  toks s1 (G ⊎ T) -> toks s2 (G ⊎ T').
Proof.
  intros Hr He Hi Hne Ht. eapply toks_relinked; [exact Hr|]. by eapply toks_upd.
Qed.

Lemma own_elsewhere st i g (t : token) :
  token_slot t <> i -> multiplicity t ({[+ TOwn st i g +]} : gmultiset token) = 0%nat.
Proof. intros Ht. apply multiplicity_singleton_ne. by intros ->. Qed.

(** Giving an owned, unlinked entry back to the free list ends the ownership. *)
Lemma release_owned s i e G Q :
  shape (but i Pkey) (but i Pphys) Pfree s -> pc_entries s !! i = Some e ->
  in_transit (e_state e) = true ->
  toks s (G ⊎ {[+ TOwn (e_state e) i (e_gen e) +]}) ->
  (forall s', shape Pkey Pphys Pfree s' -> toks s' G -> pc_resident s' = pc_resident s ->
     resident_now s' = resident_now s - Z.b2z (resident_state (e_state e)) ->
     Q tt s') ->
  swp okE (release_entry_locked i) s Q.
Proof.
  intros Hs He Hst Ht HQ.
  eapply release_entry_ok; [done|done|intros E; by rewrite E in Hst|].
  intros s' Hs' Hr. apply HQ; [done| | |].
  - rewrite <- (right_id_L ∅ (⊎) G). eapply relink_tokens; [exact Hr|done| | |exact Ht].
    + intros t Hti. rewrite (tokens_of_empty i (reset_entry e)) by done.
      rewrite tokens_of_transit by done. rewrite multiplicity_empty. lia.
    + intros t Hti. by rewrite own_elsewhere, multiplicity_empty.
  - by rewrite (rl_resident _ _ _ Hr).
  - rewrite (resident_relinked _ _ _ Hr).
    rewrite (resident_upd _ _ _ e He (shape_slot _ _ _ _ _ _ Hs He)).
    simpl. lia.
Qed.

Lemma abort_ok s G i g :
  inv s (G ⊎ {[+ TOwn ce_loading i g +]}) ->
  swp okE (abort_loading_locked i g) s (fun _ s' => inv s' G).
Proof.
  intros Hinv. destruct (own_entry _ _ _ _ _ Hinv) as (e & He & Hst & Hg & [Hs Hr]); [done|].
  unfold abort_loading_locked. do 2 sstep.
  unfold still. rewrite (ent_lookup _ _ _ He), Hst, Hg, Z.eqb_refl. simpl. sstep.
  eapply unlink_key_ok; [done|done|rewrite Hst; by left|]. intros s1 Hr1 Hs1.
  destruct (relinked_lookup _ _ _ _ _ Hr1 He) as (e1 & He1 & Hc).
  destruct (core_eq _ _ Hc) as (Hst1 & Hg1 & _).
  eapply (release_owned s1 i e1 G).
  - destruct Hs1. split; try done. apply ix_but; [|done]. intros e' He'. simplify_eq.
    unfold Pphys, framed. rewrite Hst1, Hst. naive_solver.
  - done.
  - by rewrite Hst1, Hst.
  - rewrite Hst1, Hg1, Hst, Hg. eapply toks_relinked; [exact Hr1|apply Hinv].
  - intros s' Hs' Ht' Hp Hn. apply good_inv; [|done]. split; [done|].
    rewrite Hp, Hn, Hst1, Hst. simpl. rewrite (rl_resident _ _ _ Hr1), (resident_relinked _ _ _ Hr1).
    lia.
Qed.

(** *** Reserving *)

Lemma pop_ok s :
  shape Pkey Pphys Pfree s -> pc_free_head s <> PAGE_CACHE_SLOT_INVALID ->
  exists e, pc_entries s !! pc_free_head s = Some e /\ e_state e = ce_empty /\
    shape Pkey Pphys (but (pc_free_head s) Pfree) (ix_set_head IxFree 0 (e_free_next e) s).
Proof.
  intros Hs Hne. destruct (sh_free _ _ _ _ Hs 0) as (l & Hl & Hm).
  destruct l as [|i l]; [by destruct Hne|]. simpl in Hl.
  pose proof Hl as (Hi & Hi0 & Hl'). simpl in Hi. subst i. set (i := pc_free_head s) in *.
  destruct (proj1 (Hm i)) as (e & He & Hst & _); [left|]. exists e. split_and!; [done|done|].
  eapply (shape_relinked _ _ _ _ _ _ IxFree); [apply relinked_head|exact Hs|].
  split_and!; [|done|done]. intros b. rewrite ix_head_set by done. case_decide as Hb.
  - subst b. exists l. split.
    + replace (e_free_next e) with (ix_link_of IxFree s i); [done|].
      unfold ix_link_of. by rewrite (ent_lookup _ _ _ He).
    + intros j. rewrite entries_set_head. unfold but.
      pose proof (chain_nodup _ _ _ _ Hl) as Hnd. apply list.NoDup_cons in Hnd as [Hil _].
      specialize (Hm j). rewrite list.elem_of_cons in Hm. split.
      * intros Hj. destruct (proj1 Hm) as (e' & He' & HP & Hb); [by right|].
        exists e'. split_and!; try done. intros ->. done.
      * intros (e' & He' & [HP Hji] & Hb). destruct (proj2 Hm) as [|]; [eauto|done|done].
  - destruct (sh_free _ _ _ _ Hs b) as (k & Hk & Hkm). exists k. split; [done|].
    intros j. rewrite Hkm, entries_set_head. unfold but. split.
    + intros (e' & He' & HP & Hb'). by destruct Hb.
    + intros (e' & He' & [HP _] & Hb'). by destruct Hb.
Qed.

Definition loading_entry (node index : Z) (e : cache_entry) : cache_entry :=
  set_state ce_loading (set_page node index (reset_entry e)).

Lemma loading_ok node index e : entry_ok (loading_entry node index e).
Proof.
  unfold entry_ok, loading_entry, reset_entry, blank_entry. simpl.
  destruct (next_generation_ok (e_gen e)). split_and!; try done.
Qed.

Lemma reserve_ok s node index T :
  inv s T -> pc_exists s = true ->
  swp okE (reserve_loading_locked node index) s (fun r s' =>
    match r with
    | None => s' = s
    | Some i => inv s' (T ⊎ {[+ TOwn ce_loading i (e_gen (ent s' i)) +]})
    end).
Proof.
  intros [Ht Hsh] Hex. rewrite Hex in Hsh. destruct Hsh as [Hs Hr].
  unfold reserve_loading_locked. do 2 sstep.
  destruct (Z.eqb_spec (pc_free_head s) PAGE_CACHE_SLOT_INVALID) as [|Hne]; [by sstep|].
  destruct (pop_ok s Hs Hne) as (e & He & Hst & Hs1). rewrite (ent_lookup _ _ _ He).
  set (i := pc_free_head s) in *. set (s1 := ix_set_head IxFree 0 (e_free_next e) s) in *.
  repeat sstep. change (fun e0 => set_state ce_loading (set_page node index (reset_entry e0)))
    with (loading_entry node index).
  set (s2 := upd i (loading_entry node index) s1).
  assert (He1 : pc_entries s1 !! i = Some e) by done.
  assert (He2 : pc_entries s2 !! i = Some (loading_entry node index e))
    by (unfold s2; by rewrite lookup_upd, decide_True, He1).
  assert (Hs2 : shape (but i Pkey) Pphys Pfree s2).
  { eapply shape_upd; [done|done|apply loading_ok| | |].
    - eapply ix_upd_out; [done|]. apply ix_but; [|apply Hs1]. intros e' He'.
      assert (e' = e) as -> by congruence. unfold Pkey, keyed. rewrite Hst. naive_solver.
    - eapply ix_upd; [exact He1|done| | |apply Hs1].
      + unfold Pphys, framed. rewrite Hst. simpl. naive_solver.
      + unfold Pphys, framed. rewrite Hst. naive_solver.
    - eapply ix_but_out; [|eapply ix_upd_out; [done|apply Hs1]].
      intros e' He'. assert (e' = loading_entry node index e) as -> by (unfold s2 in He2; congruence).
      done. }
  eapply (link_ok okE s2); [apply Hs2|apply Hs2|done|unfold but; tauto|].
  intros s3 Hr3 Hix. sstep.
  destruct (relinked_lookup _ _ _ _ _ Hr3 He2) as (e3 & He3 & Hc).
  rewrite (ent_lookup _ _ _ He3). destruct (core_eq _ _ Hc) as (Hst3 & Hg3 & _).
  apply good_inv; [split|].
  - eapply (shape_relinked _ _ _ _ _ _ IxKey); [exact Hr3|exact Hs2|]. split_and!; [|done|done].
    eapply ix_but_or; [|exact Hix]. intros e' He'. assert (e' = e3) as -> by congruence.
    unfold Pkey, keyed. rewrite Hst3. by left.
  - rewrite (rl_resident _ _ _ Hr3), (resident_relinked _ _ _ Hr3).
    unfold s2. rewrite (resident_upd _ _ _ e He1 (shape_slot _ _ _ _ _ _ Hs1 He1)), Hst. simpl.
    unfold s1. rewrite (resident_relinked _ _ _ (relinked_head IxFree s 0 _)).
    change (pc_resident (upd i _ _)) with (pc_resident s). lia.
  - eapply (relink_tokens _ _ _ _ _ e T ∅); [exact Hr3|exact He1| | |].
    + intros t Hti. rewrite (tokens_of_empty i e), tokens_of_transit, multiplicity_empty by done.
      rewrite Hg3. done.
    + intros t Hti. by rewrite own_elsewhere, multiplicity_empty.
    + by rewrite (right_id_L ∅ (⊎)).
Qed.

(** *** State changes that leave every chain alone *)

Lemma flip_inv s i f e G T T' :
  toks s (G ⊎ T) -> good s -> pc_entries s !! i = Some e ->
  (forall e, core (f e) = core (set_state (e_state (f e)) e)) ->
  (forall x e, ix_next x (f e) = ix_next x e) ->
  framed (e_state e) -> framed (e_state (f e)) -> e_refs e = 0 ->
  (forall t, token_slot t = i ->
     (entry_tokens i (f e) t + multiplicity t T = entry_tokens i e t + multiplicity t T')%nat) ->
  (forall t, token_slot t <> i -> multiplicity t T = multiplicity t T') ->
  inv (upd i f s) (G ⊎ T').
Proof.
  intros Ht [Hs Hr] He Hf Hnx Hfe Hfe' Hz Htk Hne.
  destruct (core_eq _ _ (Hf e)) as (_ & Hg & Hrf & Hp & Hn & Hi & _). simpl in *.
  assert (Hb : forall x, ix_bucket x (f e) = ix_bucket x e)
    by (intros []; simpl; by rewrite ?Hp, ?Hn, ?Hi).
  pose proof (sh_entries _ _ _ _ Hs i e He) as (Hg1 & Hg2 & Hg3 & Hg4).
  apply good_inv; [split|].
  - eapply shape_upd; [done|done| | | |].
    + unfold entry_ok. rewrite Hg, Hrf. split_and!; [done| |done|done].
      intros _. apply Hg2. destruct Hfe as [E|E]; by rewrite E.
    + eapply ix_upd; [done|done| |auto|apply Hs]. unfold Pkey, keyed, framed in *. tauto.
    + eapply ix_upd; [done|done| |auto|apply Hs]. unfold Pphys. tauto.
    + eapply ix_upd; [done|done| |auto|apply Hs]. unfold Pfree.
      destruct Hfe as [->| ->], Hfe' as [->| ->]; done.
  - simpl. rewrite (resident_upd _ _ _ e He (shape_slot _ _ _ _ _ _ Hs He)), Hr.
    destruct Hfe as [->| ->], Hfe' as [->| ->]; simpl; lia.
  - by eapply toks_upd.
Qed.

Lemma to_writeback s i e T :
  inv s T -> pc_entries s !! i = Some e -> e_state e = ce_ready -> e_refs e = 0 ->
  inv (upd i (set_state ce_writeback) s) (T ⊎ {[+ TOwn ce_writeback i (e_gen e) +]}).
Proof.
  intros Hinv He Hst Hz. destruct (inv_good _ _ _ _ Hinv He) as [Hg Ht].
  eapply (flip_inv s i _ e T ∅); [by rewrite (right_id_L ∅ (⊎))|done|done|done|by intros []| | | | |].
  - by left.
  - by right.
  - done.
  - intros t Hti. rewrite (tokens_of_ready i e), multiplicity_empty, Hz by done.
    rewrite tokens_of_transit by done. simpl. case_decide; lia.
  - intros t Hti. by rewrite own_elsewhere, multiplicity_empty.
Qed.

Lemma from_writeback s G i g f :
  inv s (G ⊎ {[+ TOwn ce_writeback i g +]}) ->
  (forall e, core (f e) = core (set_state ce_ready e)) ->
  (forall x e, ix_next x (f e) = ix_next x e) -> inv (upd i f s) G.
Proof.
  intros Hinv Hf Hnx.
  destruct (own_entry _ _ _ _ _ Hinv) as (e & He & Hst & Hg & Hgood); [done|].
  pose proof (sh_entries _ _ _ _ (proj1 Hgood) i e He) as (_ & _ & _ & Hz).
  rewrite <- (right_id_L ∅ (⊎) G).
  assert (Hfs : forall e, e_state (f e) = ce_ready) by (intros e'; by apply (core_eq _ _ (Hf e'))).
  assert (Hrf : e_refs (f e) = e_refs e) by (by apply (core_eq _ _ (Hf e))).
  assert (Hz' : e_refs e = 0) by (apply Hz; by rewrite Hst).
  eapply (flip_inv s i f e G); [apply Hinv|done|done| |done| | | | |].
  - intros e'. rewrite Hfs. apply Hf.
  - rewrite Hst. by right.
  - rewrite Hfs. by left.
  - done.
  - intros t Hti. rewrite (tokens_of_ready i (f e)), multiplicity_empty by done.
    rewrite (tokens_of_transit i e) by (by rewrite Hst). rewrite Hst, Hg, Hrf, Hz'.
    case_decide; lia.
  - intros t Hti. by rewrite own_elsewhere, multiplicity_empty.
Qed.

End sections.
