(* ===== verification/PageCacheRun.v ===== *)
(** * Eviction, publication and setup of the page cache keep the invariant

    The sections that move an entry into or out of the chains, and the setup of
    the tables. *)

From S2P Require Import Prelude Errors Kobject MemContract Prog Conc Chain VmTypes PageCache PageCacheInv PageCacheSafe.
From stdpp Require Import gmultiset.
Open Scope Z_scope.

Definition orr (i : Z) (P : Z -> cache_entry_state -> Prop) (j : Z) (st : cache_entry_state) : Prop :=
  P j st \/ j = i.

Lemma set_state_bucket x st e : ix_bucket x (set_state st e) = ix_bucket x e.
Proof. by destruct x. Qed.
Lemma set_state_next x st e : ix_next x (set_state st e) = ix_next x e.
Proof. by destruct x. Qed.

(** The entry leaves the state of the index but not yet the chain. *)
Lemma ix_orr x P s i st e :
  pc_entries s !! i = Some e -> P i (e_state e) ->
  ix_ok x P s -> ix_ok x (orr i P) (upd i (set_state st) s).
Proof.
  intros He HP. eapply ix_upd; [done| | |].
  - intros j st' Hj. unfold orr. naive_solver.
  - unfold orr. naive_solver.
  - intros _. by rewrite set_state_bucket, set_state_next.
Qed.

Lemma ix_orr_out x P s i :
  (forall e, pc_entries s !! i = Some e -> ~ P i (e_state e)) ->
  ix_ok x (fun j st => orr i P j st /\ j <> i) s -> ix_ok x P s.
Proof.
  intros Hi. apply ix_iff. intros j e He. unfold orr. split; [|naive_solver].
  intros HP. split; [by left|]. intros ->. by eapply Hi.
Qed.

Section sections.
  Context (okE : event pcall -> Prop).

Lemma begin_evict_ok s i e T :
  inv s T -> pc_entries s !! i = Some e ->
  swp okE (begin_evict_locked i) s (fun r s' =>
    if r : bool then inv s' (T ⊎ {[+ TOwn ce_evicting i (e_gen e) +]}) /\ e_gen (ent s' i) = e_gen e
    else inv s' T).
Proof.
  intros Hinv He. unfold begin_evict_locked. do 2 sstep. rewrite (ent_lookup _ _ _ He).
  case_bool_decide as Hst; simpl; [|by sstep].
  destruct (Z.eqb_spec (e_refs e) 0) as [Hz|]; simpl; [|by sstep].
  sstep. apply harvest_ok. intros s1 Ht1.
  pose proof (touched_inv _ _ _ _ _ Ht1 He Hinv) as Hinv1.
  destruct (touched_lookup _ _ _ _ Ht1 He) as (e1 & He1 & Hse).
  destruct (strip_eq _ _ Hse) as (Hst1 & Hg1 & Hrf1 & _). rewrite Hst in Hst1. rewrite Hz in Hrf1.
  destruct (inv_good _ _ _ _ Hinv1 He1) as [[Hs1 Hr1] Hk1].
  do 2 sstep. destruct (e_dirty (ent s1 i)); [by sstep|]. repeat sstep.
  set (s2 := upd i (set_state ce_evicting) s1).
  assert (He2 : pc_entries s2 !! i = Some (set_state ce_evicting e1))
    by (unfold s2; by rewrite lookup_upd, decide_True, He1).
  pose proof (sh_entries _ _ _ _ Hs1 i e1 He1) as (Hb1 & Hb2 & Hb3 & Hb4).
  assert (Hs2 : shape (orr i Pkey) (orr i Pphys) Pfree s2).
  { eapply shape_upd; [done|done| | | |].
    - unfold entry_ok. simpl. split_and!; try done. intros _. apply Hb2. by rewrite Hst1.
    - eapply ix_orr; [done| |apply Hs1]. unfold Pkey, keyed. rewrite Hst1. auto.
    - eapply ix_orr; [done| |apply Hs1]. unfold Pphys, framed. rewrite Hst1. auto.
    - eapply ix_upd; [done|done| | |apply Hs1]; unfold Pfree; rewrite Hst1; simpl; done. }
  eapply (unlink_ok okE s2); [apply Hs2|apply Hs2|exact He2|by right|]. intros s3 Hr3 Hix3.
  assert (Hs3 : shape (orr i Pkey) Pphys Pfree s3).
  { eapply (shape_relinked _ _ _ _ _ _ IxPhys); [exact Hr3|exact Hs2|]. split_and!; [|done|done].
    eapply ix_orr_out; [|exact Hix3]. intros e' He'.
    rewrite (relinked_state _ _ _ _ _ Hr3 He2 e' He'). unfold Pphys, framed. simpl. naive_solver. }
  destruct (relinked_lookup _ _ _ _ _ Hr3 He2) as (e3 & He3 & Hc3).
  destruct (core_eq _ _ Hc3) as (Hst3 & Hg3 & _).
  sstep. eapply (unlink_ok okE s3); [apply Hs3|apply Hs3|exact He3|by right|]. intros s4 Hr4 Hix4.
  destruct (relinked_lookup _ _ _ _ _ Hr4 He3) as (e4 & He4 & Hc4).
  destruct (core_eq _ _ Hc4) as (Hst4 & Hg4 & _).
  sstep. rewrite (ent_lookup _ _ _ He4). split; [|simpl in *; congruence].
  apply good_inv; [split|].
  - eapply (shape_relinked _ _ _ _ _ _ IxKey); [exact Hr4|exact Hs3|]. split_and!; [|done|done].
    eapply ix_orr_out; [|exact Hix4]. intros e' He'. assert (e' = e4) as -> by congruence.
    rewrite Hst4, Hst3. unfold Pkey, keyed. simpl. naive_solver.
  - rewrite (rl_resident _ _ _ Hr4), (rl_resident _ _ _ Hr3).
    rewrite (resident_relinked _ _ _ Hr4), (resident_relinked _ _ _ Hr3). unfold s2.
    rewrite (resident_upd _ _ _ e1 He1 (shape_slot _ _ _ _ _ _ Hs1 He1)), Hst1.
    change (pc_resident (upd _ _ s1)) with (pc_resident s1). simpl. lia.
  - eapply toks_relinked; [exact Hr4|].
    eapply (relink_tokens _ _ _ _ _ e1 T ∅); [exact Hr3|exact He1| | |].
    + intros t Hti. rewrite (tokens_of_ready i e1), multiplicity_empty, Hrf1 by done.
      rewrite tokens_of_transit by done. simpl. rewrite Hg1. case_decide; lia.
    + intros t Hti. by rewrite own_elsewhere, multiplicity_empty.
    + by rewrite (right_id_L ∅ (⊎)).
Qed.

(** A ready entry out of both chains goes back into them. *)
Lemma relink_both s i e T :
  shape (but i Pkey) (but i Pphys) Pfree s -> pc_entries s !! i = Some e ->
  e_state e = ce_ready -> toks s T -> pc_resident s = resident_now s ->
  swp okE (_ ← link_key_locked i; link_phys_locked i) s (fun _ s' => inv s' T).
Proof.
  intros Hs He Hst Ht Hr. sstep.
  eapply (link_ok okE s); [apply Hs|apply Hs|done|unfold but; tauto|]. intros s1 Hr1 Hix1.
  destruct (relinked_lookup _ _ _ _ _ Hr1 He) as (e1 & He1 & Hc1).
  destruct (core_eq _ _ Hc1) as (Hst1 & _).
  assert (Hs1 : shape Pkey (but i Pphys) Pfree s1).
  { eapply (shape_relinked _ _ _ _ _ _ IxKey); [exact Hr1|exact Hs|]. split_and!; [|done|done].
    eapply ix_but_or; [|exact Hix1]. intros e' He'. assert (e' = e1) as -> by congruence.
    unfold Pkey, keyed. rewrite Hst1, Hst. auto. }
  eapply (link_ok okE s1); [apply Hs1|apply Hs1|done|unfold but; tauto|]. intros s2 Hr2 Hix2.
  apply good_inv; [split|].
  - eapply (shape_relinked _ _ _ _ _ _ IxPhys); [exact Hr2|exact Hs1|]. split_and!; [|done|done].
    eapply ix_but_or; [|exact Hix2]. intros e' He'.
    unfold Pphys, framed. rewrite (relinked_state _ _ _ _ _ Hr2 He1 e' He'), Hst1, Hst. auto.
  - rewrite (rl_resident _ _ _ Hr2), (rl_resident _ _ _ Hr1).
    by rewrite (resident_relinked _ _ _ Hr2), (resident_relinked _ _ _ Hr1).
  - eapply toks_relinked; [exact Hr2|]. by eapply toks_relinked.
Qed.

Lemma evicting_out s i e :
  shape Pkey Pphys Pfree s -> pc_entries s !! i = Some e -> e_state e = ce_evicting ->
  shape (but i Pkey) (but i Pphys) Pfree s.
Proof.
  intros [H1 H2 H3 H4 H5 H6] He Hst. split; try done.
  - apply ix_but; [|done]. intros e' He'. simplify_eq. unfold Pkey, keyed. rewrite Hst. naive_solver.
  - apply ix_but; [|done]. intros e' He'. simplify_eq. unfold Pphys, framed. rewrite Hst. naive_solver.
Qed.

Lemma restore_ok s G i g :
  inv s (G ⊎ {[+ TOwn ce_evicting i g +]}) ->
  swp okE (restore_ready_locked i g) s (fun _ s' => inv s' G).
Proof.
  intros Hinv. destruct (own_entry _ _ _ _ _ Hinv) as (e & He & Hst & Hg & [Hs Hr]); [done|].
  unfold restore_ready_locked. do 2 sstep.
  unfold still. rewrite (ent_lookup _ _ _ He), Hst, Hg, Z.eqb_refl. simpl. do 2 sstep.
  pose proof (sh_entries _ _ _ _ Hs i e He) as (Hb1 & Hb2 & Hb3 & Hb4).
  assert (Hz : e_refs e = 0) by (apply Hb4; by rewrite Hst).
  pose proof (evicting_out _ _ _ Hs He Hst) as Hs'.
  eapply relink_both.
  - eapply shape_upd; [done|exact Hs'| | | |].
    + unfold entry_ok. simpl. split_and!; try done. intros _. apply Hb2. by rewrite Hst.
    + eapply ix_upd_out; [done|apply Hs'].
    + eapply ix_upd_out; [done|apply Hs'].
    + eapply ix_upd; [done|done| | |apply Hs']; unfold Pfree; rewrite Hst; done.
  - by rewrite lookup_upd, decide_True, He.
  - done.
  - rewrite <- (right_id_L ∅ (⊎) G). eapply (toks_upd _ _ _ e G); [done| | |apply Hinv].
    + intros t Hti. rewrite tokens_of_ready, multiplicity_empty by done.
      rewrite (tokens_of_transit i e) by (by rewrite Hst). simpl. rewrite Hst, Hg, Hz.
      case_decide; lia.
    + intros t Hti. by rewrite own_elsewhere, multiplicity_empty.
  - rewrite (resident_upd _ _ _ e He (shape_slot _ _ _ _ _ _ Hs He)), Hst. simpl. lia.
Qed.

Lemma ix_resident x P n s : ix_ok x P s -> ix_ok x P (set_resident n s).
Proof. apply ix_frame; [by destruct x|done|]. intros j e e' He He'. simpl in He'. by simplify_eq. Qed.

Lemma shape_resident Pk Pp Pf n s : shape Pk Pp Pf s -> shape Pk Pp Pf (set_resident n s).
Proof. intros [H1 H2 H3 H4 H5 H6]. split; try done; by apply ix_resident. Qed.

Lemma resident_now_set n s : resident_now (set_resident n s) = resident_now s.
Proof. apply count_below_ext. by intros i _. Qed.

Lemma evict_finish_ok s G i g released :
  (forall r e, okE (Ev (PDestroy r) (Unexpected e)) -> False) ->
  inv s (G ⊎ {[+ TOwn ce_evicting i g +]}) ->
  swp okE (evict_finish i g released) s (fun _ s' => inv s' G).
Proof.
  intros Hdes Hinv.
  assert (Hres : swp okE (_ ← restore_ready_locked i g; mret false) s (fun _ s' => inv s' G)).
  { sstep. eapply swp_mono; [|by eapply restore_ok]. intros u s' Hs'. by sstep. }
  destruct released as [[|]|err]; [|exact Hres..]. unfold evict_finish.
  destruct (own_entry _ _ _ _ _ Hinv) as (e & He & Hst & Hg & [Hs Hr]); [done|].
  do 2 sstep. unfold still. rewrite (ent_lookup _ _ _ He), Hst, Hg, Z.eqb_refl. simpl. do 2 sstep.
  destruct r as [[]|err]; [|exfalso; by eapply Hdes]. sstep.
  eapply (release_owned okE s i e G).
  - by apply (evicting_out s i e).
  - done.
  - by rewrite Hst.
  - rewrite Hst, Hg. apply Hinv.
  - intros s' Hs' Ht' Hp Hn. repeat sstep. apply good_inv; [split|done].
    + by apply shape_resident.
    + rewrite resident_now_set. simpl. rewrite Hp, Hn, Hst. simpl.
      pose proof (resident_bounds s'). rewrite Hn, Hst in H0. simpl in H0.
      rewrite Hr. apply u32_small. unfold fits, PAGE_CACHE_SLOTS in *. lia.
Qed.

Lemma publish_ok s G i g phys k a :
  inv s (G ⊎ {[+ TOwn ce_loading i g +]}) ->
  swp okE (publish i g phys k a) s (fun r s' =>
    match r with
    | Expected l => l = PageLease phys (i, g) /\ inv s' (G ⊎ {[+ TLease i g +]})
    | Unexpected _ => inv s' G
    end).
Proof.
  intros Hinv. destruct (own_entry _ _ _ _ _ Hinv) as (e & He & Hst & Hg & [Hs Hr]); [done|].
  unfold publish. do 2 sstep.
  unfold still. rewrite (ent_lookup _ _ _ He), Hst, Hg, Z.eqb_refl. simpl. do 2 sstep.
  set (f := fun e0 => set_state ce_ready (set_frame phys k a e0)).
  pose proof (sh_entries _ _ _ _ Hs i e He) as (Hb1 & Hb2 & Hb3 & Hb4).
  assert (Hz : e_refs e = 0) by (apply Hb4; by rewrite Hst).
  assert (He1 : pc_entries (upd i f s) !! i = Some (f e)) by (by rewrite lookup_upd, decide_True, He).
  assert (Hs1 : shape Pkey (but i Pphys) Pfree (upd i f s)).
  { eapply shape_upd; [done|exact Hs| | | |].
    - unfold entry_ok, f. simpl. split_and!; try done. intros _. apply Hb2. by rewrite Hst.
    - eapply ix_upd; [done|done| |done|apply Hs]. unfold Pkey, keyed. rewrite Hst. simpl. naive_solver.
    - eapply ix_upd_out; [done|]. apply ix_but; [|apply Hs]. intros e' He'. simplify_eq.
      unfold Pphys, framed. rewrite Hst. naive_solver.
    - eapply ix_upd; [done|done| | |apply Hs]; unfold Pfree; rewrite Hst; done. }
  sstep. eapply (link_ok okE (upd i f s)); [apply Hs1|apply Hs1|done|unfold but; tauto|].
  intros s2 Hr2 Hix2. sstep. sstep.
  destruct (relinked_lookup _ _ _ _ _ Hr2 He1) as (e2 & He2 & Hc2).
  destruct (core_eq _ _ Hc2) as (Hst2 & Hg2 & Hrf2 & Hp2 & _).
  eapply swp_mono; [|eapply (acquire_mapping_ok okE _ i k e2 G)].
  - intros [l|err] s3; [|done]. intros (-> & _ & Hi3). rewrite Hp2, Hg2 in *. simpl in *.
    by rewrite Hg in *.
  - apply good_inv; [split|].
    + apply shape_resident. eapply (shape_relinked _ _ _ _ _ _ IxPhys); [exact Hr2|exact Hs1|].
      split_and!; [|done|done]. eapply ix_but_or; [|exact Hix2]. intros e' He'.
      assert (e' = e2) as -> by congruence. unfold Pphys, framed. rewrite Hst2. by left.
    + rewrite resident_now_set. simpl.
      rewrite (rl_resident _ _ _ Hr2), (resident_relinked _ _ _ Hr2).
      pose proof (resident_bounds (upd i f s)) as Hbd.
      rewrite (resident_upd _ _ _ e He (shape_slot _ _ _ _ _ _ Hs He)), Hst in *. simpl in *.
      rewrite Hr. rewrite u32_small; [lia|]. unfold fits, PAGE_CACHE_SLOTS in *. lia.
    + intros t. change (expect (set_resident _ s2) t) with (expect s2 t). revert t.
      change (toks s2 G). rewrite <- (right_id_L ∅ (⊎) G).
      eapply (relink_tokens _ _ _ _ _ e G); [exact Hr2|exact He| | |apply Hinv].
      * intros t Hti. rewrite (tokens_of_ready i (f e)), multiplicity_empty by done.
        rewrite (tokens_of_transit i e) by (by rewrite Hst). simpl. rewrite Hst, Hg, Hz.
        case_decide; lia.
      * intros t Hti. by rewrite own_elsewhere, multiplicity_empty.
  - done.
  - rewrite Hrf2. simpl. rewrite Hz. lia.
Qed.

(** ** Setup *)

Lemma tagged_keys {A} (f : Z -> A) (l : list Z) : ((fun i => (i, f i)) <$> l).*1 = l.
Proof. induction l as [|a l IH]; [done|]. by rewrite !fmap_cons, IH. Qed.

Lemma initial_lookup i :
  initial_entries !! i = if decide (0 <= i < PAGE_CACHE_SLOTS) then Some (initial_entry i) else None.
Proof.
  unfold initial_entries. case_decide as Hi.
  - apply elem_of_list_to_map_1.
    + rewrite tagged_keys. apply NoDup_seqZ.
    + apply list_elem_of_fmap. exists i. split; [done|]. apply elem_of_seqZ. lia.
  - apply not_elem_of_list_to_map_1. rewrite tagged_keys. intros Hin. apply elem_of_seqZ in Hin. lia.
Qed.

Definition cache_fresh (reader writer : Z) : cache :=
  Cache true initial_entries initial_heads initial_heads 0 0 reader writer.

Lemma fresh_lookup r w i e :
  pc_entries (cache_fresh r w) !! i = Some e -> 0 <= i < PAGE_CACHE_SLOTS /\ e = initial_entry i.
Proof. simpl. rewrite initial_lookup. case_decide; [|done]. by intros [= <-]. Qed.

Lemma initial_heads_empty b : default PAGE_CACHE_SLOT_INVALID (initial_heads !! b) = PAGE_CACHE_SLOT_INVALID.
Proof.
  destruct (initial_heads !! b) as [v|] eqn:Hv; [|done]. simpl. unfold initial_heads in Hv.
  apply elem_of_list_to_map_2 in Hv. apply list_elem_of_fmap in Hv as (j & [= -> ->] & _). done.
Qed.

#[local] Opaque initial_entries initial_heads.

Lemma fresh_free_chain r w n k :
  0 <= k -> k + Z.of_nat n = PAGE_CACHE_SLOTS ->
  chain PAGE_CACHE_SLOT_INVALID (ix_link_of IxFree (cache_fresh r w))
    (if k <? PAGE_CACHE_SLOTS then k else PAGE_CACHE_SLOT_INVALID) (seqZ k (Z.of_nat n)).
Proof.
  revert k. induction n as [|n IH]; intros k Hk Hn.
  - rewrite (proj2 (Z.ltb_ge k PAGE_CACHE_SLOTS)) by lia. done.
  - rewrite (proj2 (Z.ltb_lt k PAGE_CACHE_SLOTS)) by lia.
    rewrite seqZ_cons by lia. split_and!; [done|apply slot_not_invalid; lia|].
    replace (Z.pred (Z.of_nat (S n))) with (Z.of_nat n) by lia.
    replace (ix_link_of IxFree (cache_fresh r w) k) with
      (if Z.succ k <? PAGE_CACHE_SLOTS then Z.succ k else PAGE_CACHE_SLOT_INVALID); [apply IH; lia|].
    unfold ix_link_of, ent. simpl. rewrite initial_lookup, decide_True by lia. done.
Qed.

Lemma fresh_inv r w : inv (cache_fresh r w) ∅.
Proof.
  apply good_inv; [split|].
  - split; [done| | | | |].
    + intros i. simpl. rewrite initial_lookup. case_decide as Hd; [by split; eauto|].
      split; [intros [? ?]; done|lia].
    + intros b. exists []. split; [apply initial_heads_empty|]. intros i.
      split; [intros Hi; by apply elem_of_nil in Hi|].
      intros (e & (_ & ->)%fresh_lookup & [|[|]] & _); done.
    + intros b. exists []. split; [apply initial_heads_empty|]. intros i.
      split; [intros Hi; by apply elem_of_nil in Hi|].
      intros (e & (_ & ->)%fresh_lookup & [|] & _); done.
    + intros b. destruct (decide (b = 0)) as [->|Hb].
      * exists (seqZ 0 PAGE_CACHE_SLOTS). split.
        -- pose proof (fresh_free_chain r w (Z.to_nat PAGE_CACHE_SLOTS) 0) as Hc.
           rewrite Z2Nat.id in Hc by (unfold PAGE_CACHE_SLOTS; lia). apply Hc; lia.
        -- intros i. rewrite elem_of_seqZ. split.
           ++ intros Hi. exists (initial_entry i). simpl. rewrite initial_lookup, decide_True by lia. done.
           ++ intros (e & [Hi _]%fresh_lookup & _). lia.
      * exists []. split.
        -- simpl. by destruct (Z.eqb_spec b 0).
        -- intros i. split; [intros Hi; by apply elem_of_nil in Hi|].
           intros (e & _ & _ & Hbk). simpl in Hbk. congruence.
    + intros i e (_ & ->)%fresh_lookup. unfold entry_ok, fits. simpl. split_and!; try done; lia.
  - symmetry. apply count_below_zero. intros i Hi. unfold ent. simpl.
    rewrite initial_lookup. case_decide; done.
  - intros t. rewrite multiplicity_empty. unfold expect. simpl. rewrite initial_lookup.
    case_decide; [|done]. by rewrite tokens_of_empty.
Qed.

Lemma inv_unset s T : inv s T -> pc_exists s = false -> T = ∅.
Proof.
  intros [Ht Hs] Hex. rewrite Hex in Hs. apply gmultiset_eq. intros t. rewrite Ht, multiplicity_empty.
  unfold expect. by rewrite Hs, lookup_empty.
Qed.

Lemma ensure_ok s T :
  inv s T ->
  swp okE ensure_entries_locked s (fun ok s' =>
    inv s' T /\ (ok = true -> pc_exists s' = true) /\
    (s' = s \/ forall i e, pc_entries s' !! i = Some e -> e_state e = ce_empty)).
Proof.
  intros Hinv. unfold ensure_entries_locked. do 2 sstep. destruct (pc_exists s) eqn:Hex.
  { sstep. auto. }
  do 6 sstep.
  destruct (negb r || negb r0 || negb r1).
  - assert (Hk : forall (b : bool) (Q : unit -> cache -> Prop) s', Q tt s' -> swp okE (kfree_if b) s' Q).
    { intros [] Q s' HQ; unfold kfree_if; sstep; [by destruct r2|done]. }
    do 3 (sstep; apply Hk). sstep. split_and!; [done|done|by left].
  - do 2 sstep. sstep. rewrite (inv_unset _ _ Hinv Hex).
    change (Cache true initial_entries initial_heads initial_heads 0 0 (pc_reader s) (pc_writer s))
      with (cache_fresh (pc_reader s) (pc_writer s)).
    split_and!; [apply fresh_inv|done|]. right. intros i e (_ & ->)%fresh_lookup. done.
Qed.

End sections.
