(* ===== verification/PageCacheConc.v ===== *)
(** * Clients of the page cache

    Every operation as a thread, safe against any interleaving with the others;
    clients that call them; and the two results.  [clients_never_trap]: however
    the operations of any number of clients interleave, no section reaches a
    trap and the cache keeps its invariant; in particular a page with a lease
    stays, so releasing a held binding succeeds.  [evict_race_duplicates]: an
    interleaving that ends with two ready entries for one page of a file. *)

From S2P Require Import Prelude Errors Kobject MemContract Prog Conc Chain VmTypes PageCache PageCacheInv PageCacheSafe PageCacheRun.
From stdpp Require Import gmultiset.
Open Scope Z_scope.

Notation lease_of b := (TLease (fst b) (snd b)).

(** What holds of every binding the cache hands out. *)
Definition bvalid (b : cache_binding) : Prop :=
  binding_valid b = true /\ (PAGE_CACHE_SLOTS <=? b.1) = false.

Lemma entry_bvalid s i e :
  good s -> pc_entries s !! i = Some e -> e_state e <> ce_empty -> bvalid (i, e_gen e).
Proof.
  intros [Hs _] He Hst. pose proof (shape_slot _ _ _ _ _ _ Hs He) as Hi.
  pose proof (sh_entries _ _ _ _ Hs i e He) as (_ & Hg & _).
  unfold bvalid, binding_valid. simpl.
  rewrite (proj2 (Z.eqb_neq _ _) (slot_not_invalid i Hi)), (proj2 (Z.eqb_neq _ 0)) by auto.
  split; [done|]. apply Z.leb_gt. lia.
Qed.

(** ** Lookups from any state *)

Lemma find_any okE s T x b test (Q : option Z -> cache -> Prop) :
  inv s T ->
  (forall i e, pc_entries s !! i = Some e ->
     match x with IxKey => keyed (e_state e) | IxPhys => framed (e_state e) | IxFree => e_state e = ce_empty end ->
     test e = true -> Q (Some i) s) ->
  Q None s -> swp okE (find_in x b test) s Q.
Proof.
  intros [Ht Hs] Hsome Hnone. destruct (pc_exists s) eqn:Hex.
  - destruct Hs as [Hs _]. destruct x.
    + eapply (find_ok _ _ (sh_dom _ _ _ _ Hs)); [apply Hs|done| |done]. intros i e He HP _. by apply Hsome.
    + eapply (find_ok _ _ (sh_dom _ _ _ _ Hs)); [apply Hs|done| |done]. intros i e He HP _. by apply Hsome.
    + eapply (find_ok _ _ (sh_dom _ _ _ _ Hs)); [apply Hs|done| |done]. intros i e He HP _. by apply Hsome.
  - unfold find_in. do 2 sstep. rewrite Hex. simpl. by sstep.
Qed.

Section client_sections.
  Context (okE : event pcall -> Prop).

Lemma probe_ok s T phys :
  inv s T ->
  swp okE (evict_probe phys) s (fun plan s' =>
    match plan with
    | EvictDirty i _ _ _ g => inv s' (T ⊎ {[+ TOwn ce_writeback i g +]})
    | _ => inv s' T
    end).
Proof.
  intros Hinv. unfold evict_probe. sstep. eapply find_any; [done| |by sstep].
  intros i e He _ _. do 2 sstep. rewrite (ent_lookup _ _ _ He).
  case_bool_decide as Hst; simpl; [|by sstep].
  destruct (Z.eqb_spec (e_refs e) 0) as [Hz|]; simpl; [|by sstep].
  sstep. apply harvest_ok. intros s1 Ht1.
  pose proof (touched_inv _ _ _ _ _ Ht1 He Hinv) as Hinv1.
  destruct (touched_lookup _ _ _ _ Ht1 He) as (e1 & He1 & Hse).
  destruct (strip_eq _ _ Hse) as (Hst1 & Hg1 & Hrf1 & _).
  do 2 sstep. rewrite (ent_lookup _ _ _ He1). destruct (e_dirty e1); [|by sstep].
  destruct (pc_writer s1 =? 0); [by sstep|]. repeat sstep.
  apply to_writeback; [done|done|congruence|congruence].
Qed.

Lemma owned_still s i g st G :
  inv s (G ⊎ {[+ TOwn st i g +]}) -> in_transit st = true -> still s i g st = true.
Proof.
  intros Hinv Hst. destruct (own_entry _ _ _ _ _ Hinv Hst) as (e & He & Hs & Hg & _).
  unfold still. rewrite (ent_lookup _ _ _ He), Hg, Z.eqb_refl. simpl. by apply bool_decide_eq_true.
Qed.

Lemma wb_failed_ok s G i g :
  inv s (G ⊎ {[+ TOwn ce_writeback i g +]}) ->
  swp okE (writeback_failed i g) s (fun _ s' => inv s' G).
Proof.
  intros Hinv. unfold writeback_failed. do 2 sstep. rewrite (owned_still _ _ _ _ _ Hinv) by done.
  sstep. eapply from_writeback; [exact Hinv|done|by intros []].
Qed.

Lemma wb_done_ok s G phys i g :
  inv s (G ⊎ {[+ TOwn ce_writeback i g +]}) ->
  swp okE (writeback_done phys i g) s (fun _ s' => inv s' G).
Proof.
  intros Hinv. unfold writeback_done. do 2 sstep. rewrite (owned_still _ _ _ _ _ Hinv) by done.
  simpl. repeat sstep.
  destruct (own_entry _ _ _ _ _ Hinv) as (e & He & _); [done|].
  eapply from_writeback; [|done|by intros []].
  eapply touched_inv; [|exact He|exact Hinv]. by apply touched_upd.
Qed.

Lemma evict_begin_ok s T phys :
  inv s T ->
  swp okE (evict_begin phys) s (fun r s' =>
    match r with
    | Some (i, g) => inv s' (T ⊎ {[+ TOwn ce_evicting i g +]})
    | None => inv s' T
    end).
Proof.
  intros Hinv. unfold evict_begin. sstep. eapply find_any; [done| |by sstep].
  intros i e He _ _. sstep. eapply swp_mono; [|by eapply begin_evict_ok].
  intros [] s' Hr; simpl; [|by sstep]. destruct Hr as [Hi Hg]. repeat sstep. by rewrite Hg.
Qed.

(** The lease of a successful acquisition. *)
Definition leased (T : gmultiset token) (s : cache) (r : expected page_lease) : Prop :=
  match r with
  | Expected l => bvalid (l_binding l) /\ inv s (T ⊎ {[+ lease_of (l_binding l) +]})
  | Unexpected _ => inv s T
  end.

Lemma acquire_leased s i k e T :
  inv s T -> pc_entries s !! i = Some e ->
  (e_state e = ce_ready ->
     (exists r, okE (Ev (PFrameRef (e_phys e)) (Expected r))) -> e_refs e < 65535) ->
  swp okE (acquire_mapping_locked i k) s (fun r s' => leased T s' r).
Proof.
  intros Hinv He Hpin. destruct (inv_good _ _ _ _ Hinv He) as [Hg _].
  eapply swp_mono; [|by eapply acquire_mapping_ok].
  intros [l|err] s'; [|done]. intros (-> & Hst & Hi). split; [|done].
  simpl. eapply entry_bvalid; [done|done|by rewrite Hst].
Qed.

End client_sections.

Lemma env_pin s i e :
  pc_entries s !! i = Some e ->
  e_state e = ce_ready ->
  (exists r, env_ok s (Ev (PFrameRef (e_phys e)) (Expected r))) -> e_refs e < 65535.
Proof. intros He Hst [r Hr]. by eapply Hr. Qed.

Lemma lookup_ok s T node index k :
  inv s T ->
  swp (env_ok s) (acquire_lookup node index k) s (fun r s' =>
    match r with
    | FoundPage l => leased T s' l
    | MustLoad i g _ => inv s' (T ⊎ {[+ TOwn ce_loading i g +]})
    | CacheFull _ => inv s' T
    end).
Proof.
  intros Hinv. unfold acquire_lookup. sstep. eapply swp_mono; [|by apply ensure_ok].
  intros [] s1 (Hinv1 & Hex & Hor); simpl; [|by sstep]. sstep.
  eapply find_any; [done| |].
  - intros i e He Hk _. sstep. eapply swp_mono; [|eapply acquire_leased; [exact Hinv1|exact He|]].
    + intros r s2 Hl. by sstep.
    + destruct Hor as [->|Hemp]; [by eapply env_pin|]. rewrite (Hemp i e He) in Hk.
      by destruct Hk as [|[|]].
  - do 2 sstep. destruct (pc_reader s1 =? 0); [by sstep|]. sstep.
    eapply swp_mono; [|by apply reserve_ok; [done|apply Hex]].
    intros [i|] s2 Hr; repeat sstep; [done|]. by subst.
Qed.

Lemma release_section_ok s G b :
  bvalid b -> inv s (G ⊎ {[+ lease_of b +]}) ->
  swp (env_ok s) (release_binding_locked b) s (fun r s' =>
    r = (Expected tt, binding_cleared) /\ inv s' G).
Proof.
  intros Hb Hinv. destruct (lease_entry _ _ _ _ Hinv) as (e & He & Hst & Hg & Hrf & Hgood).
  unfold release_binding_locked. do 2 sstep. rewrite (sh_exists _ _ _ _ (proj1 Hgood)). simpl.
  rewrite (ent_lookup _ _ _ He), Hg, Z.eqb_refl, bool_decide_eq_true_2 by done. simpl.
  rewrite (proj2 (Z.eqb_neq (e_refs e) 0)) by lia.
  sstep. apply harvest_ok. intros s1 Ht1.
  pose proof (touched_inv _ _ _ _ _ Ht1 He Hinv) as Hinv1.
  destruct (touched_lookup _ _ _ _ Ht1 He) as (e1 & He1 & Hse).
  destruct (strip_eq _ _ Hse) as (Hst1 & Hg1 & Hrf1 & _).
  do 2 sstep. destruct r as [n|err].
  - repeat sstep. split; [done|]. rewrite <- Hg, <- Hg1 in Hinv1.
    eapply unpin_inv; [exact Hinv1|done|congruence|lia].
  - exfalso. assert (Hf : has_value (Unexpected (A := Z) err) = true); [|done].
    match goal with H : env_ok _ _ |- _ => apply H end. exists b.1, e. done.
Qed.

Lemma duplicate_section_ok s T b k :
  inv s T ->
  swp (env_ok s) (duplicate_locked b k) s (fun r s' =>
    match r with
    | Expected b' => bvalid b' /\ inv s' (T ⊎ {[+ lease_of b' +]})
    | Unexpected _ => inv s' T
    end).
Proof.
  intros Hinv. unfold duplicate_locked. do 2 sstep.
  destruct (pc_exists s) eqn:Hex; simpl; [|by sstep].
  destruct (e_gen (ent s b.1) =? b.2); simpl; [|by sstep].
  sstep. destruct (pc_entries s !! b.1) as [e|] eqn:He.
  - eapply swp_mono; [|eapply acquire_leased; [exact Hinv|exact He|by eapply env_pin]].
    intros [l|err] s' Hl; by sstep.
  - unfold acquire_mapping_locked. do 2 sstep. unfold ent. rewrite He. simpl. by repeat sstep.
Qed.

Lemma mark_section_ok okE s T b :
  inv s T ->
  swp okE (mark_dirty_locked b) s (fun r s' =>
    inv s' T /\ ((exists G, T = G ⊎ {[+ lease_of b +]}) -> r = Expected tt)).
Proof.
  intros Hinv. unfold mark_dirty_locked. do 2 sstep.
  assert (Hl : (exists G, T = G ⊎ {[+ lease_of b +]}) ->
    pc_exists s = true /\ e_gen (ent s b.1) = b.2 /\ e_state (ent s b.1) = ce_ready).
  { intros [G ->]. destruct (lease_entry _ _ _ _ Hinv) as (e & He & Hst & Hg & _ & Hgood).
    rewrite (ent_lookup _ _ _ He). split_and!; [apply Hgood|done|done]. }
  destruct (pc_exists s) eqn:Hex; simpl; [|sstep; split; [done|]; intros (? & _)%Hl; done].
  destruct (Z.eqb_spec (e_gen (ent s b.1)) b.2) as [Hg|Hg]; simpl;
    [|sstep; split; [done|]; intros (_ & ? & _)%Hl; done].
  case_bool_decide as Hst; simpl; [|sstep; split; [done|]; intros (_ & _ & ?)%Hl; done].
  repeat sstep. split; [|done].
  destruct (pc_entries s !! b.1) as [e|] eqn:He.
  - eapply touched_inv; [|exact He|exact Hinv]. by apply touched_upd.
  - unfold ent in Hst. by rewrite He in Hst.
Qed.

(** ** Operations as threads *)

Notation csafe := (safe env_ok inv).

(** A section that starts without tokens. *)
Lemma safe_open {R} (f : csec R) (Q : R -> gmultiset token -> Prop) :
  (forall s T, inv s T -> swp (env_ok s) f s (fun r s' => exists T', inv s' (T ⊎ T') /\ Q r T')) ->
  csafe (locked f) ∅ Q.
Proof. intros Hf. apply safe_locked. intros s G. rewrite (right_id_L ∅ (⊎)). apply Hf. Qed.

(** A section that leaves no tokens. *)
Lemma safe_close {R} (f : csec R) T :
  (forall s G, inv s (G ⊎ T) -> swp (env_ok s) f s (fun _ s' => inv s' G)) ->
  csafe (locked f) T (fun _ T' => T' = ∅).
Proof.
  intros Hf. apply safe_locked. intros s G Hi. eapply swp_mono; [|by apply Hf].
  intros r s' Hs'. exists ∅. by rewrite (right_id_L ∅ (⊎)).
Qed.

Lemma safe_ret {A} (a : A) T Q : Q a T -> csafe (mret a : cthread A) T Q.
Proof. done. Qed.

Definition neutral_post {A} (_ : A) (T' : gmultiset token) : Prop := T' = ∅.
Definition lease_post (r : expected page_lease) (T' : gmultiset token) : Prop :=
  match r with
  | Expected l => bvalid (l_binding l) /\ T' = {[+ lease_of (l_binding l) +]}
  | Unexpected _ => T' = ∅
  end.

Lemma leased_exists T s r : leased T s r -> exists T', inv s (T ⊎ T') /\ lease_post r T'.
Proof.
  destruct r as [l|err]; simpl.
  - intros [Hb Hi]. eauto.
  - intros Hi. exists ∅. by rewrite (right_id_L ∅ (⊎)).
Qed.

Lemma evict_clean_safe phys : csafe (evict_clean phys) ∅ neutral_post.
Proof.
  unfold evict_clean. apply safe_bind.
  eapply safe_mono; [|apply (safe_open _ (fun r T' =>
    match r with Some (i, g) => T' = {[+ TOwn ce_evicting i g +]} | None => T' = ∅ end))].
  - intros [[i g]|] T' ->; [|done]. apply safe_bind, safe_outside. intros released.
    apply safe_close. intros s G Hi. eapply evict_finish_ok; [|exact Hi].
    intros r e Hok. done.
  - intros s T Hi. eapply swp_mono; [|by apply evict_begin_ok].
    intros [[i g]|] s' Hs'; [by eauto|]. exists ∅. by rewrite (right_id_L ∅ (⊎)).
Qed.

Lemma evict_phys_safe phys : csafe (evict_phys phys) ∅ neutral_post.
Proof.
  unfold evict_phys. apply safe_bind.
  eapply safe_mono; [|apply (safe_open _ (fun r T' =>
    match r with EvictDirty i _ _ _ g => T' = {[+ TOwn ce_writeback i g +]} | _ => T' = ∅ end))].
  - intros [| |i w n ix g] T' ->; [done|apply evict_clean_safe|].
    apply safe_bind, safe_outside. intros st. destruct (negb (st =? 0)).
    + apply safe_bind. eapply safe_mono; [|apply safe_close; intros s G Hi; by apply wb_failed_ok].
      by intros u T' ->.
    + apply safe_bind. eapply safe_mono; [|apply safe_close; intros s G Hi; by apply wb_done_ok].
      intros u T' ->. apply evict_clean_safe.
  - intros s T Hi. eapply swp_mono; [|by apply probe_ok].
    intros [| |i w n ix g] s' Hs'; [exists ∅; by rewrite (right_id_L ∅ (⊎))..|by eauto].
Qed.

Lemma give_up_safe {A} i g e :
  csafe (give_up_loading (A := A) i g e) {[+ TOwn ce_loading i g +]}
    (fun r T' => r = Unexpected e /\ T' = ∅).
Proof.
  unfold give_up_loading. apply safe_bind.
  eapply safe_mono; [|apply safe_close; intros s G Hi; by apply abort_ok].
  by intros u T' ->.
Qed.

Lemma give_up_lease i g e :
  csafe (give_up_loading i g e) {[+ TOwn ce_loading i g +]} lease_post.
Proof. eapply safe_mono; [|apply give_up_safe]. by intros r T' [-> ->]. Qed.

Lemma load_page_safe node index k i g reader :
  csafe (load_page node index k i g reader) {[+ TOwn ce_loading i g +]} lease_post.
Proof.
  unfold load_page. apply safe_bind, safe_outside. intros [phys|e]; [|apply give_up_lease].
  apply safe_bind, safe_outside. intros st. destruct (negb (st =? 0)).
  { apply safe_bind, safe_outside. intros _. apply give_up_lease. }
  apply safe_bind, safe_outside. intros [a|e].
  2: { apply safe_bind, safe_outside. intros _. apply give_up_lease. }
  apply safe_bind, safe_outside. intros [n|e].
  2: { do 2 (apply safe_bind, safe_outside; intros _). apply give_up_lease. }
  apply safe_bind, safe_outside. intros [u|e].
  2: { do 2 (apply safe_bind, safe_outside; intros ?). apply give_up_lease. }
  apply safe_bind, safe_outside. intros _. apply safe_locked. intros s G Hi.
  destruct (own_entry _ _ _ _ _ Hi) as (e & He & Hst & Hg & Hgood); [done|].
  eapply swp_mono; [|by apply publish_ok]. intros [l|err] s'.
  - intros [-> Hi']. eexists. split; [exact Hi'|]. split; [|done]. simpl. rewrite <- Hg.
    eapply entry_bvalid; [exact Hgood|exact He|by rewrite Hst].
  - intros Hi'. exists ∅. by rewrite (right_id_L ∅ (⊎)).
Qed.

Lemma acquire_loop_safe rounds node index k :
  csafe (acquire_loop rounds node index k) ∅
    (fun r T' => match r with Some l => lease_post l T' | None => T' = ∅ end).
Proof.
  induction rounds as [|rounds IH]; [done|]. simpl. apply safe_bind.
  eapply safe_mono; [|apply (safe_open _ (fun r T' =>
    match r with
    | FoundPage l => lease_post l T'
    | MustLoad i g _ => T' = {[+ TOwn ce_loading i g +]}
    | CacheFull _ => T' = ∅
    end))].
  - intros [l|i g reader|cand] T' HT.
    + done.
    + subst T'. apply safe_bind. eapply safe_mono; [|apply load_page_safe]. by intros r T'.
    + subst T'. destruct (cand =? 0); [done|]. apply safe_bind.
      eapply safe_mono; [|apply evict_phys_safe]. intros [] T' ->; [exact IH|done].
  - intros s T Hi. eapply swp_mono; [|by apply lookup_ok].
    intros [l|i g reader|cand] s' Hs'; [by apply leased_exists|by eauto|].
    exists ∅. by rewrite (right_id_L ∅ (⊎)).
Qed.

Lemma acquire_page_safe rounds node index k :
  csafe (acquire_page rounds node index k) ∅
    (fun r T' => match r with Some l => lease_post l T' | None => T' = ∅ end).
Proof. unfold acquire_page. destruct (node =? 0); [done|apply acquire_loop_safe]. Qed.

Lemma release_binding_safe b :
  bvalid b ->
  csafe (release_binding b) {[+ lease_of b +]}
    (fun r T' => r = (Expected tt, binding_cleared) /\ T' = ∅).
Proof.
  intros Hb. pose proof Hb as [Hv Hs]. unfold release_binding. rewrite Hv, Hs. simpl.
  apply safe_locked. intros s G Hi. eapply swp_mono; [|by apply release_section_ok].
  intros r s' [-> Hs']. exists ∅. by rewrite (right_id_L ∅ (⊎)).
Qed.

Lemma duplicate_binding_safe b k :
  csafe (duplicate_binding b k) ∅ (fun r T' =>
    match r with Expected b' => bvalid b' /\ T' = {[+ lease_of b' +]} | Unexpected _ => T' = ∅ end).
Proof.
  unfold duplicate_binding. destruct (_ || _); [done|]. apply safe_open. intros s T Hi.
  eapply swp_mono; [|by apply duplicate_section_ok].
  intros [b'|err] s' Hs'; [destruct Hs'; by eauto|]. exists ∅. by rewrite (right_id_L ∅ (⊎)).
Qed.

Lemma mark_dirty_binding_safe b :
  bvalid b ->
  csafe (mark_dirty_binding b) {[+ lease_of b +]}
    (fun r T' => r = Expected tt /\ T' = {[+ lease_of b +]}).
Proof.
  intros [Hv Hs]. unfold mark_dirty_binding. rewrite Hv, Hs. simpl.
  apply safe_locked. intros s G Hi. eapply swp_mono; [|by apply mark_section_ok].
  intros r s' [Hs' Hr]. eexists. split; [exact Hs'|]. split; [|done]. apply Hr. by exists G.
Qed.

(** Sections that only read or touch an entry. *)
Lemma safe_neutral {R} (f : csec R) :
  (forall s T, inv s T -> swp (env_ok s) f s (fun _ s' => inv s' T)) ->
  csafe (locked f) ∅ neutral_post.
Proof. intros Hf. apply safe_close. intros s G. rewrite (right_id_L ∅ (⊎)). apply Hf. Qed.

Lemma inv_providers s T r w :
  inv s T ->
  inv (Cache (pc_exists s) (pc_entries s) (pc_key_heads s) (pc_phys_heads s) (pc_free_head s)
        (pc_resident s) r w) T.
Proof.
  intros [Ht Hs]. split; [done|]. simpl. destruct (pc_exists s); [|done].
  destruct Hs as [[H1 H2 H3 H4 H5 H6] Hr]. split; [by split|]. rewrite Hr.
  by apply count_below_ext.
Qed.

Lemma install_safe (f : cache -> cache) :
  (forall s T, inv s T -> inv (f s) T) ->
  csafe (locked (
    ok ← ensure_entries_locked;
    if negb ok then mret (Unexpected (from_memory mem_out_of_memory))
    else _ ← smodify f; mret (Expected tt)) : cthread (expected unit)) ∅ neutral_post.
Proof.
  intros Hf. apply safe_neutral. intros s T Hi. sstep. eapply swp_mono; [|by apply ensure_ok].
  intros [] s1 (Hi1 & _ & _); simpl; repeat sstep; [by apply Hf|done].
Qed.

Lemma touch_inv s i f T :
  (forall e, strip (f e) = strip e) -> inv s T ->
  is_Some (pc_entries s !! i) -> inv (upd i f s) T.
Proof. intros Hf Hi [e He]. eapply touched_inv; [by apply touched_upd|exact He|exact Hi]. Qed.

Lemma evict_all_safe l n : csafe (evict_all l n) ∅ neutral_post.
Proof.
  revert n. induction l as [|phys l IH]; intros n; [done|]. simpl. apply safe_bind.
  eapply safe_mono; [|apply evict_phys_safe]. intros ok T' ->. apply IH.
Qed.

Lemma reclaim_loop_safe fuel target n : csafe (reclaim_loop fuel target n) ∅ neutral_post.
Proof.
  revert n. induction fuel as [|fuel IH]; intros n; [done|]. simpl.
  destruct (negb (n <? target)); [done|]. apply safe_bind.
  eapply safe_mono; [|apply safe_neutral].
  - intros [[|c cs]|] T' ->; [done| |done]. apply safe_bind.
    eapply safe_mono; [|apply (evict_all_safe (c :: cs))]. intros p T' ->.
    destruct (p =? 0); [done|apply IH].
  - intros s T Hi. unfold reclaim_scan. do 2 sstep. destruct (pc_exists s); simpl; by sstep.
Qed.

(** The operations that neither take nor give leases. *)
Inductive neutral : forall {A}, cthread A -> Prop :=
  | n_evict phys : neutral (evict_phys phys)
  | n_reclaim target : neutral (reclaim_unmapped target)
  | n_evict_range a b : neutral (evict_range a b)
  | n_reader r : neutral (install_reader r)
  | n_writer w : neutral (install_writer w)
  | n_is_dirty phys : neutral (is_dirty_phys phys)
  | n_mark phys : neutral (mark_dirty_phys phys)
  | n_clear phys : neutral (clear_dirty_phys phys)
  | n_count : neutral resident_count.

Lemma neutral_safe {A} (op : cthread A) : neutral op -> csafe op ∅ neutral_post.
Proof.
  destruct 1.
  - apply evict_phys_safe.
  - apply reclaim_loop_safe.
  - unfold evict_range. destruct (_ <=? _); [done|]. apply safe_bind.
    eapply safe_mono; [|apply safe_neutral].
    + intros [l|] T' ->; [apply evict_all_safe|done].
    + intros s T Hi. by repeat sstep.
  - unfold install_reader. destruct (r =? 0); [done|]. apply install_safe.
    intros s T. apply inv_providers.
  - unfold install_writer. destruct (w =? 0); [done|]. apply install_safe.
    intros s T. apply inv_providers.
  - apply safe_neutral. intros s T Hi. sstep. eapply find_any; [done| |by repeat sstep].
    intros i e He _ _. do 2 sstep. destruct (negb _); [by sstep|]. sstep. apply harvest_ok.
    intros s1 Ht1. repeat sstep. by eapply touched_inv.
  - apply safe_neutral. intros s T Hi. sstep. eapply find_any; [done| |by repeat sstep].
    intros i e He _ _. do 2 sstep. destruct (bool_decide _); [|by sstep]. sstep.
    apply touch_inv; [done|done|by exists e].
  - apply safe_neutral. intros s T Hi. sstep. eapply find_any; [done| |by repeat sstep].
    intros i e He _ _. do 2 sstep. destruct (negb _); [by sstep|]. repeat sstep.
    apply touch_inv; [done|done|by exists e].
  - apply safe_neutral. intros s T Hi. by repeat sstep.
Qed.

(** ** Clients

    A client calls the operations in any order on any arguments, keeps the
    bindings it gets, and releases only bindings it holds.  What it does after
    releasing a held binding or marking one dirty is constrained only for the
    successful answer: the theorem below is that there is no other. *)

Inductive client : list cache_binding -> cthread unit -> Prop :=
  | client_done held : client held (mret tt)
  | client_neutral {A} held (op : cthread A) k :
      neutral op -> (forall r, client held (k r)) -> client held (op ≫= k)
  | client_acquire held rounds node index key k :
      (forall r, client (match r with Some (Expected l) => l_binding l :: held | _ => held end) (k r)) ->
      client held (acquire_page rounds node index key ≫= k)
  | client_duplicate held b key k :
      (forall r, client (match r with Expected b' => b' :: held | Unexpected _ => held end) (k r)) ->
      client held (duplicate_binding b key ≫= k)
  | client_release held b rest k :
      held ≡ₚ b :: rest -> client rest (k (Expected tt, binding_cleared)) ->
      client held (release_binding b ≫= k)
  | client_mark held b k :
      b ∈ held -> client held (k (Expected tt)) -> client held (mark_dirty_binding b ≫= k).

Definition leases (held : list cache_binding) : gmultiset token :=
  list_to_set_disj ((fun b => lease_of b) <$> held).

Lemma leases_cons b held : leases (b :: held) = {[+ lease_of b +]} ⊎ leases held.
Proof. done. Qed.

Lemma leases_perm held held' : held ≡ₚ held' -> leases held = leases held'.
Proof. intros Hp. unfold leases. apply list_to_set_disj_perm. by rewrite Hp. Qed.

(** An operation with its own tokens, next to the leases the client keeps. *)
Lemma safe_call {A B} (op : cthread A) (k : A -> cthread B) T F Q P :
  csafe op T P -> (forall r T0, P r T0 -> csafe (k r) (T0 ⊎ F) Q) -> csafe (op ≫= k) (T ⊎ F) Q.
Proof.
  intros Hop Hk. apply safe_bind. eapply safe_mono; [|by apply safe_frame].
  intros r T' (T0 & -> & HP). by apply Hk.
Qed.

Lemma client_safe held t :
  client held t -> Forall bvalid held -> csafe t (leases held) (fun _ _ => True).
Proof.
  induction 1 as [held|A held op k Hop _ IH|held rounds node index key k _ IH|held b key k _ IH
                 |held b rest k Hp _ IH|held b k Hb _ IH]; intros Hv.
  - done.
  - rewrite <- (left_id_L ∅ (⊎) (leases held)). eapply safe_call; [by apply neutral_safe|].
    intros r T0 ->. rewrite (left_id_L ∅ (⊎)). by apply IH.
  - rewrite <- (left_id_L ∅ (⊎) (leases held)). eapply safe_call; [apply acquire_page_safe|].
    intros r T0 HT. specialize (IH r). destruct r as [[l|e]|].
    + destruct HT as [Hl ->]. rewrite <- leases_cons. apply IH. by constructor.
    + simpl in HT. subst. rewrite (left_id_L ∅ (⊎)). by apply IH.
    + subst. rewrite (left_id_L ∅ (⊎)). by apply IH.
  - rewrite <- (left_id_L ∅ (⊎) (leases held)). eapply safe_call; [apply duplicate_binding_safe|].
    intros r T0 HT. specialize (IH r). destruct r as [b'|e].
    + destruct HT as [Hl ->]. rewrite <- leases_cons. apply IH. by constructor.
    + subst. rewrite (left_id_L ∅ (⊎)). by apply IH.
  - rewrite (leases_perm _ _ Hp), leases_cons. rewrite Hp in Hv. apply list.Forall_cons in Hv as [Hb Hv].
    eapply safe_call; [by apply release_binding_safe|]. intros r T0 [-> ->].
    rewrite (left_id_L ∅ (⊎)). by apply IH.
  - apply elem_of_Permutation in Hb as [rest Hp]. pose proof Hv as Hv'.
    rewrite Hp in Hv'. apply list.Forall_cons in Hv' as [Hb _].
    rewrite (leases_perm _ _ Hp), leases_cons.
    eapply safe_call; [by apply mark_dirty_binding_safe|]. intros r T0 [-> ->].
    rewrite <- leases_cons, <- (leases_perm _ _ Hp). by apply IH.
Qed.

Lemma start_inv : inv pc_start ∅.
Proof. split; [|done]. intros t. by rewrite multiplicity_empty. Qed.

Lemma clients_pool_ok ts :
  Forall (client []) ts -> pool_ok env_ok inv (fun _ _ => True) (pc_start, ts).
Proof.
  intros Hts. exists (replicate (length ts) ∅). split; simpl.
  - apply Forall2_replicate_r; [done|]. apply (list.Forall_impl _ _ _ Hts).
    intros t Ht. by apply (client_safe [] t).
  - assert (Hz : forall n, tokens (replicate n (∅ : gmultiset token)) = ∅).
    { induction n as [|n IH]; simpl; [done|]. by rewrite IH, (left_id_L ∅ (⊎)). }
    rewrite Hz. apply start_inv.
Qed.

Definition coherent (s : cache) : Prop := exists T, inv s T.

(** C36: Any number of clients that release only the bindings they hold, from the
    cold cache, their critical sections interleaved in any way and the other
    subsystems answering anything [env_ok] allows: in every reachable
    configuration no section traps, and the cache is coherent: both hash indexes
    and the free list hold exactly the entries of the right states, entries in
    transit have one owner each, the pins of a ready entry are the leases there
    are, and the resident count is exact.  A client may trap when releasing or
    dirtying a held binding fails: that never happens, since a leased page stays
    in the cache. *)
Theorem clients_never_trap ts s ts' :
  Forall (client []) ts -> rtc (pstep env_ok) (pc_start, ts) (s, ts') ->
  coherent s /\ forall t, t ∈ ts' -> ~ traps env_ok (s, t).
Proof.
  intros Hts Hr.
  destruct (pool_safe env_ok inv (fun _ _ => True) _ _ (clients_pool_ok ts Hts) Hr)
    as [(Ts & _ & Hi) Ht].
  split; [by exists (tokens Ts)|done].
Qed.

(** ** Concrete runs *)

Definition env_okb (s : cache) (ev : event pcall) : bool :=
  match ev with
  | Ev c r =>
      match c in pcall R return R -> bool with
      | PFrameRef phys => fun r =>
          negb (has_value r) ||
          forallb (fun ie => negb (bool_decide (e_state (snd ie) = ce_ready)) ||
                             negb (e_phys (snd ie) =? phys) || (e_refs (snd ie) <? 65535))
            (map_to_list (pc_entries s))
      | PFrameUnref _ => fun r => has_value r
      | PDestroy _ => fun r => has_value r
      | _ => fun _ => true
      end r
  end.

Lemma env_okb_ok s ev : env_okb s ev = true -> env_ok s ev.
Proof.
  destruct ev as [R c r]. destruct c; simpl; try done.
  intros Hb Hr i e He Hst Hp. rewrite Hr in Hb. simpl in Hb.
  assert (Hin : (i, e) ∈ map_to_list (pc_entries s)) by (by apply elem_of_map_to_list).
  apply list_elem_of_In in Hin. pose proof (proj1 (forallb_forall _ _) Hb _ Hin) as Hf. simpl in Hf.
  rewrite bool_decide_eq_true_2 in Hf by done. rewrite Hp, Z.eqb_refl in Hf. simpl in Hf.
  by apply Z.ltb_lt.
Qed.

(** An environment where everything works: allocation gives the frame [phys] and
    releasing the cache's pin answers [last]. *)
Definition demo_env (phys : Z) (last : bool) : environment pcall := fun _ R c =>
  match c in pcall R return R with
  | PKmalloc _ => true
  | PKfree => tt
  | PChanged _ => false
  | PSske _ _ => tt
  | PPolicyFor _ => Expected (MemoryObjectPolicy 0 0 0 private_domain 1 0 inv_none 1 1)
  | PUpdatePolicy _ _ => Expected tt
  | PFrameRef _ => Expected 2
  | PFrameUnref _ => Expected 1
  | PReleasePin _ => Expected last
  | PAlloc => Expected phys
  | PFree _ => tt
  | PRead _ _ _ _ => 0
  | PWrite _ _ _ _ => 0
  | PObjectCreate _ p => Expected (MemoryObjectRef kt_storage (p / 4096) 1)
  | PDestroyId _ => tt
  | PDestroy _ => Expected tt
  | PSetMetadata _ _ _ _ => Expected tt
  end.

(** Maps page 3 of file 7, unmaps it and evicts its frame. *)
Definition user : cthread unit :=
  _ ← install_reader 1;
  r ← acquire_page 2 7 3 1;
  match r with
  | Some (Expected l) =>
      _ ← release_binding (l_binding l);
      _ ← evict_phys (l_phys l);
      mret tt
  | _ => mret tt
  end.

(** Maps the same page. *)
Definition rival : cthread unit := _ ← acquire_page 2 7 3 1; mret tt.

Definition demo_schedule : list (nat * environment pcall) :=
  replicate 12 (0%nat, demo_env 0x10000 false) ++
  replicate 8 (1%nat, demo_env 0x20000 false) ++
  replicate 2 (0%nat, demo_env 0x10000 false).

Lemma user_client : client [] user.
Proof.
  apply client_neutral; [constructor|]. intros _. apply client_acquire. intros [[l|e]|].
  - eapply client_release; [done|]. apply client_neutral; [constructor|]. intros _. constructor.
  - constructor.
  - constructor.
Qed.

Lemma rival_client : client [] rival.
Proof. apply client_acquire. intros r. constructor. Qed.

Definition twice (c : option (cache * list (cthread unit))) : bool :=
  match c with
  | Some (s, ts) =>
      bool_decide (e_state (ent s 0) = ce_ready) && bool_decide (e_state (ent s 1) = ce_ready) &&
      (e_node (ent s 0) =? e_node (ent s 1)) && (e_index (ent s 0) =? e_index (ent s 1)) &&
      negb (e_phys (ent s 0) =? e_phys (ent s 1)) &&
      forallb (fun t : cthread unit => match t with Ret _ => true | Do _ _ => false end) ts
  | None => false
  end.

Lemma twice_spec s ts : twice (Some (s, ts)) = true ->
  e_state (ent s 0) = ce_ready /\ e_state (ent s 1) = ce_ready /\
  e_node (ent s 0) = e_node (ent s 1) /\ e_index (ent s 0) = e_index (ent s 1) /\
  e_phys (ent s 0) <> e_phys (ent s 1).
Proof.
  unfold twice. rewrite !andb_true_iff, !bool_decide_eq_true, !Z.eqb_eq, negb_true_iff, Z.eqb_neq.
  tauto.
Qed.

(** An eviction that fails late puts its entry back without looking: when the
    last pin does not go away after all, and another thread has loaded the page
    in the meantime, the cache ends with two ready entries and two frames for one
    page of the file. *)
Theorem evict_race_duplicates :
  exists s ts, rtc (pstep env_ok) (pc_start, [user; rival]) (s, ts) /\
    e_state (ent s 0) = ce_ready /\ e_state (ent s 1) = ce_ready /\
    e_node (ent s 0) = e_node (ent s 1) /\ e_index (ent s 0) = e_index (ent s 1) /\
    e_phys (ent s 0) <> e_phys (ent s 1).
Proof.
  pose proof (run_schedule_ok env_ok env_okb demo_schedule pc_start [user; rival]) as Hok.
  assert (Hrun : twice (run_schedule env_okb demo_schedule pc_start [user; rival]) = true)
    by (vm_compute; reflexivity).
  revert Hok Hrun. generalize (run_schedule env_okb demo_schedule pc_start [user; rival]).
  intros [[s ts]|] Hok Hrun; [|discriminate Hrun].
  exists s, ts. split; [exact (Hok _ env_okb_ok eq_refl)|exact (twice_spec _ _ Hrun)].
Qed.

Lemma clients_never_trap_witness :
  exists s ts, rtc (pstep env_ok) (pc_start, [user; rival]) (s, ts) /\ coherent s /\
    forall t, t ∈ ts -> ~ traps env_ok (s, t).
Proof.
  destruct evict_race_duplicates as (s & ts & Hr & _). exists s, ts. split; [exact Hr|].
  apply (clients_never_trap [user; rival] s ts); [|exact Hr].
  constructor; [exact user_client|]. constructor; [exact rival_client|]. constructor.
Defined.
