(* ===== verification/Rmap.v ===== *)
(** * The reverse map ([src/zxfoundation/memory/rmap.zcomponent/core.cxx])

    For every physical frame a singly linked list of the region slots that map
    it.  The list heads live in chunks of frames allocated at boot, the nodes on
    the kernel heap; both are modelled as memory.  Every operation runs under the
    lock of one stripe, so it is one section; [invalidate_peers] takes the lock
    once per step, under the lock of the address space, and is a sequence of
    sections that nothing else interleaves with.

    Regions, their page maps and the spaces they belong to are part of the state,
    since the walks read and clear slots.  Walks along a list carry one more
    step than there are nodes. *)

From S2P Require Import Prelude Errors Kobject MemContract Prog Conc Chain VmTypes.

(** ** Data *)

Definition RMAP_CHUNK_ORDER : Z := 3.
Definition RMAP_ENTRIES_PER_CHUNK : Z := Z.shiftl 4096 RMAP_CHUNK_ORDER / 8.
Definition RMAP_MAX_FRAMES : Z := Z.shiftr (Z.shiftl 512 30) 12.
Definition RMAP_MAX_CHUNKS : Z :=
  (RMAP_MAX_FRAMES + RMAP_ENTRIES_PER_CHUNK - 1) / RMAP_ENTRIES_PER_CHUNK.

(** [entry]; a null region pointer is [None], the null link is 0. *)
Record entry := Entry { re_region : option Z; re_slot : Z; re_next : Z }.

Definition RM_NULL : Z := 0.

(** [g_rmap_chunks] by chunk number; the heads stored in a chunk, by its base
    and offset, zero where nothing was stored; the nodes; regions with the space
    each belongs to; spaces with their address-space element and resident
    count. *)
Record rmap := Rmap {
  rm_chunks : gmap Z Z; rm_heads : gmap (Z * Z) Z;
  rm_chunk_count : Z; rm_max_pfn : Z;
  rm_nodes : gmap Z entry;
  rm_regions : gmap Z vm_region; rm_owner : gmap Z Z; rm_spaces : gmap Z (Z * Z)
}.

Definition with_chunks (c : gmap Z Z) (w : rmap) : rmap :=
  Rmap c (rm_heads w) (rm_chunk_count w) (rm_max_pfn w) (rm_nodes w) (rm_regions w)
    (rm_owner w) (rm_spaces w).
Definition with_sizes (count max_pfn : Z) (w : rmap) : rmap :=
  Rmap (rm_chunks w) (rm_heads w) count max_pfn (rm_nodes w) (rm_regions w)
    (rm_owner w) (rm_spaces w).
Definition with_heads (h : gmap (Z * Z) Z) (w : rmap) : rmap :=
  Rmap (rm_chunks w) h (rm_chunk_count w) (rm_max_pfn w) (rm_nodes w) (rm_regions w)
    (rm_owner w) (rm_spaces w).
Definition with_nodes (n : gmap Z entry) (w : rmap) : rmap :=
  Rmap (rm_chunks w) (rm_heads w) (rm_chunk_count w) (rm_max_pfn w) n (rm_regions w)
    (rm_owner w) (rm_spaces w).
Definition with_regions (r : gmap Z vm_region) (w : rmap) : rmap :=
  Rmap (rm_chunks w) (rm_heads w) (rm_chunk_count w) (rm_max_pfn w) (rm_nodes w) r
    (rm_owner w) (rm_spaces w).
Definition with_spaces (s : gmap Z (Z * Z)) (w : rmap) : rmap :=
  Rmap (rm_chunks w) (rm_heads w) (rm_chunk_count w) (rm_max_pfn w) (rm_nodes w) (rm_regions w)
    (rm_owner w) s.

(** Calls into other subsystems. *)
Inductive rcall : Type -> Type :=
  | RPmmAlloc (order : Z) : rcall (expected Z)
  | RPmmFree (phys order : Z) : rcall unit
  | RKmalloc : rcall bool
  | RKfree (node : Z) : rcall unit
  | RVisit (rgn phys va slot : Z) : rcall bool
  | RChanged (phys : Z) : rcall bool
  | RMarkDirty (b : Z * Z) : rcall (expected unit)
  | RReleaseBinding (b : Z * Z) : rcall (expected unit)
  | RReleasePin (phys : Z) : rcall (expected bool)
  | RUnmapPage (asce va : Z) : rcall unit
  | RTlbFlush (asce : Z) : rcall unit.

Notation rsec := (sec rcall rmap).

Definition pfn_of (phys : Z) : Z := Z.shiftr phys 12.

Definition nodeZ (w : rmap) (a : Z) : entry := default (Entry None 0 0) (rm_nodes w !! a).
Definition next_of (w : rmap) (a : Z) : Z := re_next (nodeZ w a).
Definition rwalk_fuel (w : rmap) : nat := S (size (rm_nodes w)).

(** [head_for_pfn]: where the head is stored; a null chunk is a wild access. *)
Definition head_at (w : rmap) (pfn : Z) : option (Z * Z) :=
  base ← rm_chunks w !! (pfn / RMAP_ENTRIES_PER_CHUNK);
  Some (base, pfn mod RMAP_ENTRIES_PER_CHUNK).
Definition head_val (w : rmap) (at_ : Z * Z) : Z := default RM_NULL (rm_heads w !! at_).

(** ** Boot *)

Fixpoint free_chunks (n : nat) (j : Z) : rsec unit :=
  match n with
  | O => mret tt
  | S n' =>
      w ← sget;
      match rm_chunks w !! j with
      | None => strap
      | Some phys =>
          _ ← scall (RPmmFree phys RMAP_CHUNK_ORDER);
          _ ← smodify (fun w => with_chunks (delete j (rm_chunks w)) w);
          free_chunks n' (j + 1)
      end
  end.

Fixpoint alloc_chunks (n : nat) (i : Z) : rsec (expected unit) :=
  match n with
  | O => mret (Expected tt)
  | S n' =>
      r ← scall (RPmmAlloc RMAP_CHUNK_ORDER);
      match r with
      | Unexpected e => _ ← free_chunks (Z.to_nat i) 0; mret (Unexpected e)
      | Expected phys =>
          _ ← smodify (fun w => with_chunks (<[i := phys]> (rm_chunks w)) w);
          alloc_chunks n' (i + 1)
      end
  end.

Definition rmap_init (max_pfn : Z) : rsec (expected unit) :=
  w ← sget;
  if negb (rm_max_pfn w =? 0) then mret (Expected tt)
  else if max_pfn =? 0 then mret (Unexpected (from_generic invalid_arg))
  else
    let chunk_count := (max_pfn + RMAP_ENTRIES_PER_CHUNK - 1) / RMAP_ENTRIES_PER_CHUNK in
    if RMAP_MAX_CHUNKS <? chunk_count then mret (Unexpected (from_memory mem_out_of_memory))
    else
      r ← alloc_chunks (Z.to_nat chunk_count) 0;
      match r with
      | Unexpected e => mret (Unexpected e)
      | Expected _ => _ ← smodify (with_sizes chunk_count max_pfn); mret (Expected tt)
      end.

(** ** Links *)

(** The guard every operation starts with. *)
Definition in_map (w : rmap) (phys : Z) : bool :=
  negb (rm_chunk_count w =? 0) && negb (phys =? 0) && (pfn_of phys <? rm_max_pfn w).

Definition is_link (w : rmap) (rgn slot : Z) (a : Z) : bool :=
  bool_decide (re_region (nodeZ w a) = Some rgn) && (re_slot (nodeZ w a) =? slot).

(** The address the heap hands out is not in use. *)
Definition fresh_node (w : rmap) : Z := map_fold (fun k _ a => Z.max a (k + 1)) 1 (rm_nodes w).

(** A section on the list of a frame: [k] gets the place of the head. *)
Definition with_head {A} (phys : Z) (k : Z * Z -> rsec A) : rsec A :=
  w ← sget;
  match head_at w (pfn_of phys) with None => strap | Some at_ => k at_ end.

Definition rmap_insert (rgn slot phys : Z) : rsec (expected unit) :=
  w ← sget;
  if negb (in_map w phys) then mret (Unexpected (from_memory mem_invalid_address))
  else
    node_ok ← scall RKmalloc;
    if negb node_ok then mret (Unexpected (from_memory mem_out_of_memory))
    else
      let node := fresh_node w in
      _ ← smodify (fun w => with_nodes (<[node := Entry (Some rgn) slot RM_NULL]> (rm_nodes w)) w);
      with_head phys (fun at_ =>
        w1 ← sget;
        match chain_find RM_NULL (is_link w1 rgn slot) (next_of w1) (rwalk_fuel w1)
                (head_val w1 at_) with
        | None => strap
        | Some (Some _) =>
            _ ← scall (RKfree node);
            _ ← smodify (fun w => with_nodes (delete node (rm_nodes w)) w);
            mret (Expected tt)
        | Some None =>
            _ ← smodify (fun w => with_nodes (<[node := Entry (Some rgn) slot (head_val w1 at_)]>
                                                (rm_nodes w)) w);
            _ ← smodify (fun w => with_heads (<[at_ := node]> (rm_heads w)) w);
            mret (Expected tt)
        end).

Definition rmap_remove (rgn slot phys : Z) : rsec unit :=
  w ← sget;
  if negb (in_map w phys) then mret tt
  else with_head phys (fun at_ =>
    match chain_link RM_NULL (is_link w rgn slot) (next_of w) (rwalk_fuel w) None
            (head_val w at_) with
    | None => strap
    | Some None => mret tt
    | Some (Some (link, cur)) =>
        _ ← smodify (match link with
                     | None => fun w => with_heads (<[at_ := next_of w cur]> (rm_heads w)) w
                     | Some p => fun w => with_nodes (<[p := Entry (re_region (nodeZ w p))
                                    (re_slot (nodeZ w p)) (next_of w cur)]> (rm_nodes w)) w
                     end);
        _ ← scall (RKfree cur);
        smodify (fun w => with_nodes (delete cur (rm_nodes w)) w)
    end).

Definition rmap_rebind (from from_slot to to_slot phys : Z) : rsec bool :=
  w ← sget;
  if negb (in_map w phys) then mret false
  else with_head phys (fun at_ =>
    match chain_find RM_NULL (is_link w from from_slot) (next_of w) (rwalk_fuel w)
            (head_val w at_) with
    | None => strap
    | Some None => mret false
    | Some (Some cur) =>
        _ ← smodify (fun w => with_nodes (<[cur := Entry (Some to) to_slot (next_of w cur)]>
                                            (rm_nodes w)) w);
        mret true
    end).

(** ** Walks *)

Definition rregion (w : rmap) (r : Z) : vm_region := default null_region (rm_regions w !! r).
Definition rslot (w : rmap) (r i : Z) : vm_page_slot :=
  nthZ empty_slot (pm_slots (r_pages (rregion w r))) i.

(** The node's slot exists, is live and maps [phys]. *)
Definition refers (w : rmap) (phys : Z) (a : Z) : bool :=
  match re_region (nodeZ w a) with
  | None => false
  | Some r =>
      (re_slot (nodeZ w a) <? pm_count (r_pages (rregion w r))) &&
      slot_live (rslot w r (re_slot (nodeZ w a))) &&
      (s_phys (rslot w r (re_slot (nodeZ w a))) =? phys)
  end.

(** The nodes of a list, in order. *)
Definition list_of (w : rmap) (phys : Z) : rsec (list Z) :=
  with_head phys (fun at_ =>
    mret (chain_walk RM_NULL (next_of w) (rwalk_fuel w) (head_val w at_))).

Definition count_refs (phys : Z) : rsec Z :=
  w ← sget;
  if negb (in_map w phys) then mret 0
  else
    l ← list_of w phys;
    mret (u32 (Z.of_nat (length (filter (fun a => refers w phys a = true) l)))).

Fixpoint visit_all (w : rmap) (phys : Z) (l : list Z) (visited : Z) : rsec Z :=
  match l with
  | [] => mret visited
  | a :: l' =>
      if negb (refers w phys a) then visit_all w phys l' visited
      else
        let r := default 0 (re_region (nodeZ w a)) in
        go_on ← scall (RVisit r phys (s_va_page (rslot w r (re_slot (nodeZ w a))))
                         (re_slot (nodeZ w a)));
        if negb go_on then mret (u32 (visited + 1)) else visit_all w phys l' (u32 (visited + 1))
  end.

(** A null visitor visits nothing. *)
Definition for_each_phys (phys : Z) (visitor : bool) : rsec Z :=
  w ← sget;
  if negb (in_map w phys) || negb visitor then mret 0
  else l ← list_of w phys; visit_all w phys l 0.

Definition is_peer (w : rmap) (self self_slot : Z) (a : Z) : bool :=
  bool_decide (re_region (nodeZ w a) <> None) && negb (is_link w self self_slot a).

(** The region and slot of at most [cap] peers. *)
Definition collect_peers (phys self self_slot cap : Z) : rsec (list (Z * Z)) :=
  w ← sget;
  if negb (in_map w phys) || (cap =? 0) then mret []
  else
    l ← list_of w phys;
    mret ((fun a => (default 0 (re_region (nodeZ w a)), re_slot (nodeZ w a))) <$>
            take (Z.to_nat cap) (filter (fun a => is_peer w self self_slot a = true) l)).

(** ** Invalidation *)

Definition put_slot (r i : Z) (s : vm_page_slot) (w : rmap) : rmap :=
  let rg := rregion w r in
  with_regions (<[r := with_pages (VmPageMap (pm_exists (r_pages rg)) (pm_capacity (r_pages rg))
                                     (updZ (pm_slots (r_pages rg)) i s)) rg]> (rm_regions w)) w.

Definition release_slot_pin (r i : Z) : rsec (expected bool) :=
  w ← sget;
  let s := rslot w r i in
  if negb (slot_live s) || bool_decide (s_state s = ps_portal) || (s_phys s =? 0)
  then mret (Expected false)
  else
    match s_binding s with
    | Some b =>
        changed ← scall (RChanged (s_phys s));
        dirty ← (if (changed : bool) then scall (RMarkDirty b) else mret (Expected tt));
        match dirty with
        | Unexpected e => mret (Unexpected e)
        | Expected _ =>
            released ← scall (RReleaseBinding b);
            match released with
            | Unexpected e => mret (Unexpected e)
            | Expected _ =>
                _ ← smodify (put_slot r i (VmPageSlot (s_va_page s) (s_phys s) (s_file_node s)
                       (s_file_index s) None (s_state s) (s_flags s) (s_dirty s)));
                mret (Expected false)
            end
        end
    | None => scall (RReleasePin (s_phys s))
    end.

Definition dec (n : Z) : Z := if 0 <? n then n - 1 else n.

Definition dec_resident (r space : Z) (w : rmap) : rmap :=
  let rg := rregion w r in
  let sp := default (0, 0) (rm_spaces w !! space) in
  with_spaces (<[space := (sp.1, dec sp.2)]> (rm_spaces w))
    (with_regions (<[r := with_counts (r_committed rg) (dec (r_resident rg)) rg]> (rm_regions w)) w).

(** One round on peer [(r, i)]: [None] is the loop's [continue]. *)
Definition invalidate_one (phys self r i : Z) : rsec (expected (option bool)) :=
  w ← sget;
  match rm_owner w !! r with
  | None => _ ← rmap_remove r i phys; mret (Expected None)
  | Some space =>
      if negb (bool_decide (rm_owner w !! self = Some space)) then
        mret (Unexpected (from_memory mem_capability_invalid))
      else if pm_count (r_pages (rregion w r)) <=? i then
        _ ← rmap_remove r i phys; mret (Expected None)
      else if negb (slot_live (rslot w r i)) || negb (s_phys (rslot w r i) =? phys) then
        _ ← rmap_remove r i phys; mret (Expected None)
      else
        let asce := (default (0, 0) (rm_spaces w !! space)).1 in
        _ ← scall (RUnmapPage asce (s_va_page (rslot w r i)));
        _ ← scall (RTlbFlush asce);
        released ← release_slot_pin r i;
        match released with
        | Unexpected e => mret (Unexpected e)
        | Expected freed =>
            _ ← smodify (dec_resident r space);
            _ ← rmap_remove r i phys;
            w' ← sget;
            match slot_clear (rslot w' r i) with
            | None => strap
            | Some e => _ ← smodify (put_slot r i e); mret (Expected (Some freed))
            end
        end
  end.

(** Every round removes a link, so one more round than there are nodes ends it. *)
Fixpoint invalidate_loop (fuel : nat) (phys self self_slot mappings frames : Z)
    : rsec (expected (Z * Z)) :=
  match fuel with
  | O => strap
  | S fuel' =>
      peers ← collect_peers phys self self_slot 1;
      match peers with
      | [] => mret (Expected (mappings, frames))
      | (r, i) :: _ =>
          step ← invalidate_one phys self r i;
          match step with
          | Unexpected e => mret (Unexpected e)
          | Expected None => invalidate_loop fuel' phys self self_slot mappings frames
          | Expected (Some freed) =>
              invalidate_loop fuel' phys self self_slot (u32 (mappings + 1))
                (if freed : bool then u32 (frames + 1) else frames)
          end
      end
  end.

Definition invalidate_peers (phys self self_slot : Z) : rsec (expected (Z * Z)) :=
  w ← sget;
  invalidate_loop (rwalk_fuel w) phys self self_slot 0 0.
