(* ===== verification/RmapSpec.v ===== *)
(** * The reverse map implements a table of link lists

    [rep w L]: the list of frame [p] is the chain of nodes [L p], every node is in
    exactly one list.  [links w p] is what a client sees: the (region, slot)
    pairs of frame [p].  Insertion, removal, rebinding and the walks act on
    [links] as on a list; no node is lost or shared. *)

From S2P Require Import Prelude Errors Kobject MemContract Prog Conc Chain VmTypes Rmap.

Definition frame_of (w : rmap) (p : Z) : Prop := 0 <= p < rm_max_pfn w.

Record rep (w : rmap) (L : Z -> list Z) : Prop := Rep {
  rep_chain : forall p, frame_of w p -> exists at_, head_at w p = Some at_ /\
    chain RM_NULL (next_of w) (head_val w at_) (L p);
  rep_heads : forall p q at_, frame_of w p -> frame_of w q ->
    head_at w p = Some at_ -> head_at w q = Some at_ -> p = q;
  rep_nodes : forall a, is_Some (rm_nodes w !! a) <-> exists p, frame_of w p /\ a ∈ L p;
  rep_sep : forall p q a, frame_of w p -> frame_of w q -> a ∈ L p -> a ∈ L q -> p = q
}.

Definition rm_wf (w : rmap) : Prop := exists L, rep w L.

Definition link_of (w : rmap) (a : Z) : option Z * Z := (re_region (nodeZ w a), re_slot (nodeZ w a)).

Definition links (w : rmap) (p : Z) : list (option Z * Z) :=
  match head_at w p with
  | None => []
  | Some at_ => link_of w <$> chain_walk RM_NULL (next_of w) (rwalk_fuel w) (head_val w at_)
  end.

(** Everything but the lists. *)
Definition same_rest (w w' : rmap) : Prop :=
  rm_chunks w' = rm_chunks w /\ rm_chunk_count w' = rm_chunk_count w /\
  rm_max_pfn w' = rm_max_pfn w /\ rm_regions w' = rm_regions w /\
  rm_owner w' = rm_owner w /\ rm_spaces w' = rm_spaces w.

Definition anyE (_ : event rcall) : Prop := True.

(** ** Reading *)

Lemma rep_fuel w L p : rep w L -> frame_of w p -> (length (L p) < rwalk_fuel w)%nat.
Proof.
  intros HR Hp. destruct (rep_chain _ _ HR p Hp) as (at_ & _ & Hc).
  assert (Hs : (list_to_set (L p) : gset Z) ⊆ dom (rm_nodes w)).
  { intros a Ha. apply elem_of_list_to_set in Ha. apply elem_of_dom, (rep_nodes _ _ HR). eauto. }
  apply subseteq_size in Hs. rewrite size_list_to_set in Hs by (by eapply chain_nodup).
  rewrite size_dom in Hs. unfold rwalk_fuel. lia.
Qed.

Lemma rep_links w L p : rep w L -> frame_of w p -> links w p = link_of w <$> L p.
Proof.
  intros HR Hp. destruct (rep_chain _ _ HR p Hp) as (at_ & Hat & Hc). unfold links. rewrite Hat.
  by rewrite (chain_walk_list _ _ _ _ (L p)) by (try done; by apply rep_fuel).
Qed.

Lemma in_map_frame w phys : in_map w phys = true -> 0 <= phys -> frame_of w (pfn_of phys).
Proof.
  unfold in_map, frame_of, pfn_of. rewrite !andb_true_iff, Z.ltb_lt. intros [_ Hlt] Hp.
  split; [by apply Z.shiftr_nonneg|done].
Qed.

Lemma nodeZ_insert w a e b :
  nodeZ (with_nodes (<[a := e]> (rm_nodes w)) w) b = if decide (b = a) then e else nodeZ w b.
Proof.
  unfold nodeZ. simpl. rewrite lookup_insert. destruct (decide (a = b)) as [->|].
  - by rewrite decide_True.
  - by rewrite decide_False by congruence.
Qed.

Lemma nodeZ_delete w a b : b <> a -> nodeZ (with_nodes (delete a (rm_nodes w)) w) b = nodeZ w b.
Proof. intros Hb. unfold nodeZ. simpl. by rewrite lookup_delete_ne. Qed.

Lemma fresh_node_new w : rm_nodes w !! fresh_node w = None /\ 0 < fresh_node w.
Proof.
  assert (H : 1 <= fresh_node w /\ forall k e, rm_nodes w !! k = Some e -> k < fresh_node w).
  { unfold fresh_node. apply (map_fold_weak_ind (fun r m => 1 <= r /\ forall k e, m !! k = Some e -> k < r)).
    - split; [lia|]. intros k e. by rewrite lookup_empty.
    - intros i x m r Hm [Hr IH]. split; [lia|]. intros k e. rewrite lookup_insert.
      case_decide as Hd; [intros _; lia|]. intros Hk. specialize (IH k e Hk). lia. }
  destruct H as [H1 H2]. split; [|lia].
  destruct (rm_nodes w !! fresh_node w) as [e|] eqn:E; [|done]. specialize (H2 _ _ E). lia.
Qed.

Lemma find_test_links w l rgn slot :
  List.find (is_link w rgn slot) l = None <-> (Some rgn, slot) ∉ (link_of w <$> l).
Proof.
  induction l as [|a l IH]; simpl; [split; [intros _; apply not_elem_of_nil|done]|].
  unfold is_link at 1. rewrite list.elem_of_cons. unfold link_of at 1.
  case_bool_decide as Hr; simpl; [destruct (Z.eqb_spec (re_slot (nodeZ w a)) slot) as [Hs|Hs]|].
  - split; [done|]. intros Hn. exfalso. apply Hn. left. by rewrite Hr, Hs.
  - rewrite IH. split; [|tauto]. intros Hn [[= _ He]|He]; [congruence|done].
  - rewrite IH. split; [|tauto]. intros Hn [[= He _]|He]; [congruence|done].
Qed.

Lemma is_link_spec w rgn slot a : is_link w rgn slot a = true <-> link_of w a = (Some rgn, slot).
Proof.
  unfold is_link, link_of. rewrite andb_true_iff, bool_decide_eq_true, Z.eqb_eq. split.
  - by intros [-> ->].
  - by intros [= -> ->].
Qed.

(** A section on the list of a frame. *)
Lemma with_head_ok {A} w L phys (k : Z * Z -> rsec A) Q :
  rep w L -> frame_of w (pfn_of phys) ->
  (forall at_, head_at w (pfn_of phys) = Some at_ ->
     chain RM_NULL (next_of w) (head_val w at_) (L (pfn_of phys)) -> swp anyE (k at_) w Q) ->
  swp anyE (with_head phys k) w Q.
Proof.
  intros HR Hp Hk. destruct (rep_chain _ _ HR _ Hp) as (at_ & Hat & Hc).
  unfold with_head. do 2 sstep. rewrite Hat. by apply Hk.
Qed.

(** ** Insertion *)

Lemma rep_ext w L L' : (forall p, frame_of w p -> L' p = L p) -> rep w L -> rep w L'.
Proof.
  intros He [H1 H2 H3 H4]. split; [| done| |].
  - intros p Hp. rewrite He by done. by apply H1.
  - intros a. rewrite H3. split; intros (p & Hp & Ha); exists p; rewrite He in *; auto.
  - intros p q a Hp Hq. rewrite !He by done. by apply H4.
Qed.

(** A node joins the front of the list of frame [p]. *)
Lemma rep_push w L p at_ node e :
  rep w L -> frame_of w p -> head_at w p = Some at_ -> rm_nodes w !! node = None -> node <> 0 ->
  re_next e = head_val w at_ ->
  rep (with_heads (<[at_ := node]> (rm_heads w)) (with_nodes (<[node := e]> (rm_nodes w)) w))
      (fun q => if decide (q = p) then node :: L q else L q).
Proof.
  intros HR Hp Hat Hnew Hnz Hnx.
  set (w1 := with_nodes (<[node := e]> (rm_nodes w)) w).
  assert (Hni : forall q, frame_of w q -> node ∉ L q).
  { intros q Hq Hin. assert (is_Some (rm_nodes w !! node)) as [? ?] by (apply (rep_nodes _ _ HR); eauto).
    congruence. }
  assert (Hold : forall q at', frame_of w q -> head_at w q = Some at' ->
    chain RM_NULL (next_of w1) (head_val w at') (L q)).
  { intros q at' Hq Hat'. destruct (rep_chain _ _ HR q Hq) as (at2 & Hat2 & Hc).
    assert (at2 = at') as -> by congruence. eapply chain_agree; [|exact Hc]. intros a Ha.
    unfold next_of, w1. rewrite nodeZ_insert, decide_False; [done|]. intros ->. by eapply Hni. }
  split.
  - intros q Hq. case_decide as Hd.
    + subst q. exists at_. split; [done|]. unfold head_val. simpl. rewrite lookup_insert_eq. simpl.
      split_and!; [done|done|]. replace (next_of _ node) with (head_val w at_); [by apply Hold|].
      change (next_of (with_heads _ w1) node) with (next_of w1 node). unfold next_of, w1.
      by rewrite nodeZ_insert, decide_True.
    + destruct (rep_chain _ _ HR q Hq) as (at' & Hat' & _). exists at'. split; [done|].
      unfold head_val. simpl. rewrite lookup_insert_ne; [by apply Hold|].
      intros <-. apply Hd. by eapply (rep_heads _ _ HR).
  - intros q r at' Hq Hr. by apply (rep_heads _ _ HR).
  - intros a. simpl. rewrite lookup_insert. case_decide as Ha.
    + subst a. split; [|by eauto]. intros _. exists p. rewrite decide_True by done. split; [done|left].
    + rewrite (rep_nodes _ _ HR). split.
      * intros (q & Hq & Hin). exists q. split; [done|]. case_decide; [by right|done].
      * intros (q & Hq & Hin). exists q. split; [done|]. case_decide; [|done].
        apply list.elem_of_cons in Hin as [->|]; done.
  - intros q r a Hq Hr Hin Hin'. destruct (decide (q = p)), (decide (r = p)); subst; try done.
    + apply list.elem_of_cons in Hin as [->|Hin]; [by exfalso; eapply (Hni r)|].
      by apply (rep_sep _ _ HR p r a).
    + apply list.elem_of_cons in Hin' as [->|Hin']; [by exfalso; eapply (Hni q)|].
      by apply (rep_sep _ _ HR q p a).
    + by apply (rep_sep _ _ HR q r a).
Qed.

Lemma rep_node_in w L p a : rep w L -> frame_of w p -> a ∈ L p -> is_Some (rm_nodes w !! a).
Proof. intros HR Hp Ha. apply (rep_nodes _ _ HR). eauto. Qed.

Lemma links_unchanged w w' L L' p :
  rep w L -> rep w' L' -> frame_of w p -> frame_of w' p -> L' p = L p ->
  (forall a, a ∈ L p -> nodeZ w' a = nodeZ w a) -> links w' p = links w p.
Proof.
  intros HR HR' Hp Hp' HL Hn. rewrite (rep_links _ _ _ HR Hp), (rep_links _ _ _ HR' Hp'), HL.
  apply list_fmap_ext. intros i a Ha. unfold link_of.
  rewrite Hn by (by eapply list_elem_of_lookup_2). done.
Qed.

Lemma same_rest_refl w : same_rest w w.
Proof. done. Qed.

Definition add_link (x : option Z * Z) (l : list (option Z * Z)) : list (option Z * Z) :=
  if decide (x ∈ l) then l else x :: l.

(** What an operation on the list of one frame leaves. *)
Definition only_frame (w w' : rmap) (p : Z) (l : list (option Z * Z)) : Prop :=
  rm_wf w' /\ same_rest w w' /\
  forall q, frame_of w q -> links w' q = if decide (q = p) then l else links w q.

Lemma only_frame_same w p : rm_wf w -> only_frame w w p (links w p).
Proof.
  intros Hw. split_and!; [done|done|]. intros q Hq. case_decide; by subst.
Qed.

Lemma insert_ok w rgn slot phys Q :
  rm_wf w -> 0 <= phys ->
  (in_map w phys = false -> Q (Unexpected (from_memory mem_invalid_address)) w) ->
  (in_map w phys = true -> Q (Unexpected (from_memory mem_out_of_memory)) w) ->
  (forall w', in_map w phys = true ->
     only_frame w w' (pfn_of phys) (add_link (Some rgn, slot) (links w (pfn_of phys))) ->
     Q (Expected tt) w') ->
  swp anyE (rmap_insert rgn slot phys) w Q.
Proof.
  intros [L HR] Hphys Hbad Hoom HQ. unfold rmap_insert. do 2 sstep.
  destruct (in_map w phys) eqn:Hin; simpl; [|sstep; auto].
  pose proof (in_map_frame w phys Hin Hphys) as Hp. set (p := pfn_of phys) in *.
  do 2 sstep. destruct r; simpl; [|sstep; auto]. do 2 sstep.
  destruct (fresh_node_new w) as [Hnew Hpos]. set (node := fresh_node w) in *.
  set (w1 := with_nodes (<[node := Entry (Some rgn) slot RM_NULL]> (rm_nodes w)) w).
  destruct (rep_chain _ _ HR p Hp) as (at_ & Hat & Hc).
  unfold with_head. do 2 sstep. replace (head_at w1 (pfn_of phys)) with (Some at_) by done.
  assert (Hno : node ∉ L p).
  { intros Ha. destruct (rep_node_in _ _ _ _ HR Hp Ha) as [? ?]. congruence. }
  assert (Hn1 : forall a, a ∈ L p -> nodeZ w1 a = nodeZ w a).
  { intros a Ha. unfold w1. rewrite nodeZ_insert, decide_False; [done|]. congruence. }
  assert (Hc1 : chain RM_NULL (next_of w1) (head_val w1 at_) (L p)).
  { eapply chain_agree; [|exact Hc]. intros a Ha. unfold next_of. by rewrite Hn1. }
  assert (Hf1 : (length (L p) < rwalk_fuel w1)%nat).
  { pose proof (rep_fuel _ _ _ HR Hp) as Hf. unfold rwalk_fuel, w1 in *. simpl.
    rewrite map_size_insert_None by done. lia. }
  do 2 sstep. rewrite (chain_find_list _ _ _ _ _ _ Hc1 Hf1).
  assert (Hfm : link_of w1 <$> L p = link_of w <$> L p).
  { apply list_fmap_ext. intros i a Ha. unfold link_of.
    by rewrite Hn1 by (by eapply list_elem_of_lookup_2). }
  destruct (List.find (is_link w1 rgn slot) (L p)) as [a|] eqn:Hfind.
  - repeat sstep. replace (with_nodes (delete node (rm_nodes w1)) w1) with w.
    2: { destruct w. unfold w1, with_nodes. simpl in *. by rewrite delete_insert_id. }
    apply HQ; [done|]. unfold add_link. rewrite (rep_links _ _ _ HR Hp). rewrite decide_True.
    { rewrite <- (rep_links _ _ _ HR Hp). apply only_frame_same. by exists L. }
    destruct (decide ((Some rgn, slot) ∈ (link_of w1 <$> L p))) as [Hi|Hi]; [by rewrite Hfm in Hi|].
    apply find_test_links in Hi. congruence.
  - repeat sstep. apply HQ; [done|].
    apply find_test_links in Hfind. rewrite Hfm in Hfind.
    set (e := Entry (Some rgn) slot (head_val w1 at_)).
    set (w2 := with_heads (<[at_ := node]> (rm_heads w)) (with_nodes (<[node := e]> (rm_nodes w)) w)).
    assert (Hw2 : with_heads (<[at_ := node]> (rm_heads (with_nodes (<[node := e]> (rm_nodes w1)) w1)))
                    (with_nodes (<[node := e]> (rm_nodes w1)) w1) = w2).
    { unfold w2, w1, with_heads, with_nodes. simpl. by rewrite insert_insert_eq. }
    rewrite Hw2. clear Hw2.
    assert (HR2 : rep w2 (fun q => if decide (q = p) then node :: L q else L q)).
    { apply rep_push; [done|done|done|done|lia|done]. }
    split_and!; [by eexists|done|]. intros q Hq.
    rewrite (rep_links _ _ q HR2 Hq).
    assert (Hnn : forall a q, frame_of w q -> a ∈ L q -> link_of w2 a = link_of w a).
    { intros a q' Hq' Ha. unfold link_of. change (nodeZ w2 a) with
        (nodeZ (with_nodes (<[node := e]> (rm_nodes w)) w) a).
      rewrite nodeZ_insert, decide_False; [done|]. intros ->.
      destruct (rep_node_in _ _ _ _ HR Hq' Ha) as [? ?]. congruence. }
    assert (Hmap : forall q, frame_of w q -> link_of w2 <$> L q = link_of w <$> L q).
    { intros q' Hq'. apply list_fmap_ext. intros i a Ha.
      apply (Hnn a q' Hq'). by eapply list_elem_of_lookup_2. }
    case_decide as Hd; [subst q|by rewrite (rep_links _ _ _ HR Hq), Hmap].
    rewrite fmap_cons, Hmap by done. unfold add_link.
    rewrite (rep_links _ _ _ HR Hp), decide_False by done. f_equal.
    unfold link_of. change (nodeZ w2 node) with (nodeZ (with_nodes (<[node := e]> (rm_nodes w)) w) node).
    by rewrite nodeZ_insert, decide_True.
Qed.

(** ** Removal *)

Fixpoint remove_first (x : option Z * Z) (l : list (option Z * Z)) : list (option Z * Z) :=
  match l with
  | [] => []
  | y :: l' => if decide (y = x) then l' else y :: remove_first x l'
  end.

Lemma remove_first_split x l1 l2 : x ∉ l1 -> remove_first x (l1 ++ x :: l2) = l1 ++ l2.
Proof.
  induction l1 as [|y l1 IH]; simpl; intros Hn; [by rewrite decide_True|].
  rewrite decide_False by set_solver. rewrite IH by set_solver. done.
Qed.

Lemma remove_first_none x l : x ∉ l -> remove_first x l = l.
Proof.
  induction l as [|y l IH]; simpl; intros Hn; [done|].
  rewrite decide_False by set_solver. rewrite IH by set_solver. done.
Qed.

(** The state after the stores of [remove]. *)
Definition cut (w : rmap) (at_ : Z * Z) (link : option Z) (t : Z) : rmap :=
  let w1 := match link with
            | None => with_heads (<[at_ := next_of w t]> (rm_heads w)) w
            | Some p => with_nodes (<[p := Entry (re_region (nodeZ w p)) (re_slot (nodeZ w p))
                                        (next_of w t)]> (rm_nodes w)) w
            end in
  with_nodes (delete t (rm_nodes w1)) w1.

Lemma cut_node w at_ link t a :
  a <> t -> nodeZ (cut w at_ link t) a =
    if decide (link = Some a) then Entry (re_region (nodeZ w a)) (re_slot (nodeZ w a)) (next_of w t)
    else nodeZ w a.
Proof.
  intros Ha. unfold cut. rewrite nodeZ_delete by done. destruct link as [p|].
  - rewrite nodeZ_insert. destruct (decide (a = p)) as [->|].
    + by rewrite (decide_True (P := Some p = Some p)).
    + by rewrite (decide_False (P := Some p = Some a)) by congruence.
  - by rewrite (decide_False (P := None = Some a)).
Qed.

Lemma cut_link w at_ link t a : a <> t -> link_of (cut w at_ link t) a = link_of w a.
Proof. intros Ha. unfold link_of. rewrite cut_node by done. by case_decide. Qed.

Lemma cut_rest w at_ link t : same_rest w (cut w at_ link t).
Proof. by destruct link. Qed.

Lemma cut_dom w at_ link t a :
  (forall p, link = Some p -> is_Some (rm_nodes w !! p)) -> is_Some (rm_nodes (cut w at_ link t) !! a) <->
  a <> t /\ is_Some (rm_nodes w !! a).
Proof.
  intros Hl. unfold cut. simpl. rewrite lookup_delete. case_decide as Hd.
  - subst. split; [intros [? ?]; done|intros [? _]; done].
  - destruct link as [p|]; simpl; [|split; [intros; split; [congruence|done]|tauto]].
    rewrite lookup_insert. case_decide as Hp; [subst|split; [intros; split; [congruence|done]|tauto]].
    split; [intros _; split; [congruence|by apply Hl]|by eauto].
Qed.

Lemma rep_cut w L p at_ l1 t l2 :
  rep w L -> frame_of w p -> head_at w p = Some at_ -> L p = l1 ++ t :: l2 ->
  rep (cut w at_ (list.last l1) t) (fun q => if decide (q = p) then l1 ++ l2 else L q).
Proof.
  intros HR Hp Hat HL. set (w' := cut w at_ (list.last l1) t).
  destruct (rep_chain _ _ HR p Hp) as (at2 & Hat2 & Hc). assert (at2 = at_) as -> by congruence.
  rewrite HL in Hc. pose proof (chain_nodup _ _ _ _ Hc) as Hnd.
  apply list.NoDup_app in Hnd as (_ & Hd12 & Hnd2). apply list.NoDup_cons in Hnd2 as [Ht2 _].
  assert (Ht1 : t ∉ l1) by (intros Ht; apply (Hd12 t Ht); left).
  assert (Ht : t ∈ L p) by (rewrite HL; set_solver).
  assert (Hlast : forall a, list.last l1 = Some a -> a ∈ l1).
  { intros a Ha. apply last_Some in Ha as [k ->]. set_solver. }
  assert (Hat' : forall q, head_at w' q = head_at w q).
  { intros q. unfold head_at, w'. by rewrite (proj1 (cut_rest w at_ (list.last l1) t)). }
  assert (Hmax : forall q, frame_of w' q <-> frame_of w q).
  { intros q. unfold frame_of, w'. by destruct (cut_rest w at_ (list.last l1) t) as (_ & _ & -> & _). }
  assert (Hhv : forall at', head_val w' at' =
    if decide (list.last l1 = None /\ at' = at_) then next_of w t else head_val w at').
  { intros at'. unfold w', cut, head_val. destruct (list.last l1) as [a|]; simpl.
    - done.
    - rewrite lookup_insert. destruct (decide (at_ = at')) as [->|]; [by rewrite decide_True|].
      by rewrite decide_False by naive_solver. }
  assert (Hnx : forall a, a <> t -> next_of w' a =
    if decide (list.last l1 = Some a) then next_of w t else next_of w a).
  { intros a Ha. unfold next_of at 1, w'. rewrite cut_node by done. by case_decide. }
  split.
  - intros q Hq. apply Hmax in Hq. rewrite Hat'. case_decide as Hd.
    + subst q. exists at_. split; [done|]. eapply chain_take_out; [exact Hc| |].
      * rewrite Hhv. destruct (list.last l1) as [a|] eqn:Ea.
        -- rewrite decide_False by naive_solver. split; [done|].
           rewrite Hnx by (intros ->; apply Ht1; by apply Hlast). by rewrite decide_True.
        -- by rewrite decide_True.
      * intros a Ha Hna. rewrite Hnx by (intros ->; apply elem_of_app in Ha as [|]; done).
        by rewrite decide_False.
    + destruct (rep_chain _ _ HR q Hq) as (at' & Hatq & Hcq). exists at'. split; [done|].
      rewrite Hhv, decide_False.
      2: { intros [_ ->]. apply Hd. by eapply (rep_heads _ _ HR). }
      eapply chain_agree; [|exact Hcq]. intros a Ha.
      assert (Hap : a ∉ L p). { intros Ha'. apply Hd. by apply (rep_sep _ _ HR q p a). }
      rewrite Hnx by (intros ->; done). rewrite decide_False; [done|].
      intros Hl. apply Hap. rewrite HL. apply Hlast in Hl. set_solver.
  - intros q r at' Hq Hr. rewrite !Hat'. apply (rep_heads _ _ HR); by apply Hmax.
  - intros a. unfold w'. rewrite cut_dom.
    2: { intros b Hb. apply (rep_node_in _ _ p _ HR Hp). rewrite HL. apply Hlast in Hb. set_solver. }
    rewrite (rep_nodes _ _ HR). fold w'. split.
    + intros [Hat0 (q & Hq & Ha)]. exists q. split; [by apply Hmax|]. case_decide; [|done].
      subst q. rewrite HL in Ha. set_solver.
    + intros (q & Hq & Ha). apply Hmax in Hq. case_decide as Hd.
      * subst q. split; [|exists p; split; [done|]; rewrite HL; set_solver].
        intros ->. apply elem_of_app in Ha as [|]; done.
      * split; [|by eauto]. intros ->. apply Hd. by apply (rep_sep _ _ HR q p t).
  - assert (Hsub : forall q a, frame_of w q -> a ∈ (if decide (q = p) then l1 ++ l2 else L q) -> a ∈ L q).
    { intros q a Hq. case_decide; [subst; rewrite HL; set_solver|done]. }
    intros q r a Hq Hr Ha Hb. apply Hmax in Hq, Hr.
    apply (rep_sep _ _ HR q r a); [done|done|by apply Hsub|by apply Hsub].
Qed.

Lemma remove_ok w rgn slot phys Q :
  rm_wf w -> 0 <= phys ->
  (in_map w phys = false -> Q tt w) ->
  (forall w', in_map w phys = true ->
     only_frame w w' (pfn_of phys) (remove_first (Some rgn, slot) (links w (pfn_of phys))) ->
     ((Some rgn, slot) ∈ links w (pfn_of phys) -> (size (rm_nodes w') < size (rm_nodes w))%nat) ->
     Q tt w') ->
  swp anyE (rmap_remove rgn slot phys) w Q.
Proof.
  intros [L HR] Hphys Hbad HQ. unfold rmap_remove. do 2 sstep.
  destruct (in_map w phys) eqn:Hin; simpl; [|sstep; auto].
  pose proof (in_map_frame w phys Hin Hphys) as Hp.
  eapply with_head_ok; [done|done|]. set (p := pfn_of phys) in *. intros at_ Hat Hc.
  pose proof (rep_fuel _ _ _ HR Hp) as Hf.
  destruct (decide ((Some rgn, slot) ∈ (link_of w <$> L p))) as [Hi|Hi].
  - assert (exists l1 t l2, L p = l1 ++ t :: l2 /\ link_of w t = (Some rgn, slot) /\
      (Some rgn, slot) ∉ (link_of w <$> l1)) as (l1 & t & l2 & HL & Ht & Hn1).
    { clear -Hi. induction (L p) as [|a l IH]; [by apply elem_of_nil in Hi|].
      destruct (decide (link_of w a = (Some rgn, slot))) as [He|He].
      - exists [], a, l. split_and!; [done|done|apply not_elem_of_nil].
      - rewrite fmap_cons in Hi. apply list.elem_of_cons in Hi as [Hi|Hi]; [by destruct He|].
        destruct (IH Hi) as (l1 & t & l2 & -> & Ht & Hn). exists (a :: l1), t, l2.
        split_and!; [done|done|]. rewrite fmap_cons. set_solver. }
    rewrite HL in Hc, Hf.
    rewrite (chain_link_some _ _ _ _ _ _ l1 t l2 Hc Hf).
    2: { intros a Ha. destruct (is_link w rgn slot a) eqn:E; [|done]. apply is_link_spec in E.
         exfalso. apply Hn1. apply list_elem_of_fmap. by exists a. }
    2: { by apply is_link_spec. }
    set (link := match list.last l1 with Some a => Some a | None => None end).
    assert (Hlink : link = list.last l1) by (unfold link; by destruct (list.last l1)).
    clearbody link. repeat sstep.
    assert (Hw' : forall w1, w1 = (match link with
      | None => fun w => with_heads (<[at_ := next_of w t]> (rm_heads w)) w
      | Some p => fun w => with_nodes (<[p := Entry (re_region (nodeZ w p)) (re_slot (nodeZ w p))
                     (next_of w t)]> (rm_nodes w)) w end) w ->
      with_nodes (delete t (rm_nodes w1)) w1 = cut w at_ link t) by (intros w1 ->; by destruct link).
    rewrite (Hw' _ eq_refl), Hlink. clear Hw'.
    pose proof (rep_cut _ _ _ _ _ _ _ HR Hp Hat HL) as HR'.
    assert (Hnt : forall q a, frame_of w q -> a ∈ (if decide (q = p) then l1 ++ l2 else L q) -> a <> t).
    { pose proof (chain_nodup _ _ _ _ Hc) as Hnd. apply list.NoDup_app in Hnd as (_ & Hd12 & Hnd2).
      apply list.NoDup_cons in Hnd2 as [Ht2 _]. intros q a Hq Ha ->. case_decide as Hd.
      - apply elem_of_app in Ha as [Ha|Ha]; [apply (Hd12 t Ha); left|done].
      - apply Hd. apply (rep_sep _ _ HR q p t); [done|done|done|]. rewrite HL. set_solver. }
    apply HQ; [done| |].
    + split_and!; [by eexists|apply cut_rest|]. intros q Hq.
      rewrite (rep_links _ _ q HR').
      2: { unfold frame_of. by destruct (cut_rest w at_ (list.last l1) t) as (_ & _ & -> & _). }
      rewrite (list_fmap_ext (link_of (cut w at_ (list.last l1) t)) (link_of w)).
      2: { intros i a Ha. apply cut_link. eapply Hnt; [exact Hq|]. by eapply list_elem_of_lookup_2. }
      case_decide as Hd; [subst q|by rewrite (rep_links _ _ _ HR Hq)].
      rewrite (rep_links _ _ _ HR Hp), HL, !fmap_app, fmap_cons, Ht. by rewrite remove_first_split.
    + intros _. rewrite <- !size_dom. apply subset_size. apply strict_spec_alt. split.
      * intros a Ha. apply elem_of_dom in Ha. apply cut_dom in Ha as [_ Ha]; [by apply elem_of_dom|].
        intros b Hb. apply (rep_node_in _ _ p _ HR Hp). rewrite HL.
        apply last_Some in Hb as [k ->]. set_solver.
      * intros Heq. assert (Htd : t ∈ dom (rm_nodes w)).
        { apply elem_of_dom. apply (rep_node_in _ _ p _ HR Hp). rewrite HL. set_solver. }
        rewrite <- Heq in Htd. apply elem_of_dom in Htd as [e He].
        unfold cut in He. simpl in He. by rewrite lookup_delete_eq in He.
  - rewrite (chain_link_none _ _ _ _ _ _ _ Hc Hf).
    2: { intros a Ha. destruct (is_link w rgn slot a) eqn:E; [|done]. apply is_link_spec in E.
         exfalso. apply Hi. apply list_elem_of_fmap. by exists a. }
    sstep. apply HQ; [done| |].
    + rewrite remove_first_none by (by rewrite (rep_links _ _ _ HR Hp)). apply only_frame_same. by exists L.
    + intros Hi'. by rewrite (rep_links _ _ _ HR Hp) in Hi'.
Qed.

(** ** Rebinding and walks *)

Fixpoint rebind_first (x y : option Z * Z) (l : list (option Z * Z)) : list (option Z * Z) :=
  match l with
  | [] => []
  | z :: l' => if decide (z = x) then y :: l' else z :: rebind_first x y l'
  end.

Lemma find_first w rgn slot (l : list Z) t :
  List.find (is_link w rgn slot) l = Some t ->
  exists l1 l2, l = l1 ++ t :: l2 /\ link_of w t = (Some rgn, slot) /\
    (Some rgn, slot) ∉ (link_of w <$> l1).
Proof.
  induction l as [|a l IH]; simpl; [done|]. destruct (is_link w rgn slot a) eqn:E.
  - intros [= <-]. apply is_link_spec in E. exists [], l. split_and!; [done|done|apply not_elem_of_nil].
  - intros Hf. destruct (IH Hf) as (l1 & l2 & -> & Ht & Hn). exists (a :: l1), l2.
    split_and!; [done|done|]. rewrite fmap_cons, not_elem_of_cons. split; [|done].
    intros He. symmetry in He. apply is_link_spec in He. congruence.
Qed.

Lemma rebind_first_split x y l1 l2 : x ∉ l1 -> rebind_first x y (l1 ++ x :: l2) = l1 ++ y :: l2.
Proof.
  induction l1 as [|z l1 IH]; simpl; intros Hn; [by rewrite decide_True|].
  rewrite decide_False by set_solver. rewrite IH by set_solver. done.
Qed.

(** Changing what a node refers to keeps every list. *)
Lemma rep_retarget w L p a e :
  rep w L -> frame_of w p -> a ∈ L p -> re_next e = next_of w a ->
  rep (with_nodes (<[a := e]> (rm_nodes w)) w) L.
Proof.
  intros HR Hp Ha Hnx. split.
  - intros q Hq. destruct (rep_chain _ _ HR q Hq) as (at_ & Hat & Hc). exists at_. split; [done|].
    eapply chain_agree; [|exact Hc]. intros b Hb. unfold next_of. rewrite nodeZ_insert.
    case_decide; [by subst|done].
  - intros q r at_. apply (rep_heads _ _ HR).
  - intros b. simpl. rewrite lookup_insert. case_decide as Hd; [|apply (rep_nodes _ _ HR)].
    subst. split; [by eauto|by eauto].
  - intros q r b. apply (rep_sep _ _ HR).
Qed.

Lemma rebind_ok w from i to j phys Q :
  rm_wf w -> 0 <= phys ->
  (forall w', only_frame w w' (pfn_of phys)
       (rebind_first (Some from, i) (Some to, j) (links w (pfn_of phys))) ->
     in_map w phys = true -> (Some from, i) ∈ links w (pfn_of phys) -> Q true w') ->
  (in_map w phys = false \/ (Some from, i) ∉ links w (pfn_of phys) -> Q false w) ->
  swp anyE (rmap_rebind from i to j phys) w Q.
Proof.
  intros [L HR] Hphys Hyes Hno. unfold rmap_rebind. do 2 sstep.
  destruct (in_map w phys) eqn:Hin; simpl; [|sstep; auto].
  pose proof (in_map_frame w phys Hin Hphys) as Hp.
  eapply with_head_ok; [done|done|]. set (p := pfn_of phys) in *. intros at_ Hat Hc.
  rewrite (chain_find_list _ _ _ _ _ _ Hc (rep_fuel _ _ _ HR Hp)).
  destruct (List.find (is_link w from i) (L p)) as [t|] eqn:Hf.
  - destruct (find_first _ _ _ _ _ Hf) as (l1 & l2 & HL & Ht & Hn). repeat sstep.
    assert (Htp : t ∈ L p) by (rewrite HL; set_solver).
    set (e := Entry (Some to) j (next_of w t)).
    assert (HR' : rep (with_nodes (<[t := e]> (rm_nodes w)) w) L) by (by eapply rep_retarget).
    assert (Hnd : NoDup (L p)) by (eapply chain_nodup; exact Hc).
    apply Hyes; [|done|rewrite (rep_links _ _ _ HR Hp), HL, fmap_app, fmap_cons, Ht; set_solver].
    split_and!; [by eexists|done|]. intros q Hq. rewrite (rep_links _ _ q HR' Hq).
    assert (Hlk : forall a, a <> t -> link_of (with_nodes (<[t := e]> (rm_nodes w)) w) a = link_of w a)
      by (intros a Ha; unfold link_of; by rewrite nodeZ_insert, decide_False).
    assert (Hmap : forall l : list Z, t ∉ l -> link_of (with_nodes (<[t := e]> (rm_nodes w)) w) <$> l = link_of w <$> l).
    { intros l Hl. apply list_fmap_ext. intros k a Ha. apply Hlk. intros ->. apply Hl.
      by eapply list_elem_of_lookup_2. }
    case_decide as Hd.
    + subst q. rewrite (rep_links _ _ _ HR Hp), HL. rewrite HL in Hnd.
      apply list.NoDup_app in Hnd as (_ & Hd12 & Hnd2). apply list.NoDup_cons in Hnd2 as [Ht2 _].
      rewrite !fmap_app, !fmap_cons, Ht, rebind_first_split by done.
      rewrite !Hmap by (try done; intros Ht1; apply (Hd12 t Ht1); left).
      do 2 f_equal. unfold link_of. by rewrite nodeZ_insert, decide_True.
    + rewrite (rep_links _ _ _ HR Hq). apply Hmap. intros Htq. apply Hd.
      by apply (rep_sep _ _ HR q p t).
  - sstep. apply Hno. right. rewrite (rep_links _ _ _ HR Hp). by apply find_test_links.
Qed.

Lemma list_of_ok w L phys Q :
  rep w L -> frame_of w (pfn_of phys) -> Q (L (pfn_of phys)) w -> swp anyE (list_of w phys) w Q.
Proof.
  intros HR Hp HQ. unfold list_of. eapply with_head_ok; [done|done|]. intros at_ Hat Hc. sstep.
  by rewrite (chain_walk_list _ _ _ _ _ Hc) by (by apply rep_fuel).
Qed.

