(* ===== verification/RmapInval.v ===== *)
(** * Invalidating the peers of a mapping

    [invalidate_peers] unmaps every other slot that maps a frame.  When it
    succeeds only the caller's link is left, every peer slot is empty, the
    numbers it reports are right and nothing else has changed; it never touches
    the caller's slot and never runs forever. *)

From S2P Require Import Prelude Errors Kobject MemContract Prog Conc Chain VmTypes Rmap RmapSpec.

(** ** Slots *)

Definition slots_sound (w : rmap) : Prop :=
  forall r i, 0 <= i -> s_binding (rslot w r i) <> None ->
    s_state (rslot w r i) <> ps_empty /\ s_state (rslot w r i) <> ps_portal /\
    s_phys (rslot w r i) <> 0.

Definition count_of (w : rmap) (r : Z) : Z := pm_count (r_pages (rregion w r)).

(** Slot [i] of region [r] is to be invalidated. *)
Definition hit (w : rmap) (phys r i : Z) : bool :=
  bool_decide (is_Some (rm_owner w !! r)) && (i <? count_of w r) &&
  slot_live (rslot w r i) && (s_phys (rslot w r i) =? phys).

Lemma rregion_put r i s w r' :
  rregion (put_slot r i s w) r' =
    if decide (r' = r) then
      with_pages (VmPageMap (pm_exists (r_pages (rregion w r))) (pm_capacity (r_pages (rregion w r)))
                   (updZ (pm_slots (r_pages (rregion w r))) i s)) (rregion w r)
    else rregion w r'.
Proof.
  unfold rregion at 1, put_slot. simpl. rewrite lookup_insert.
  destruct (decide (r = r')) as [->|]; [by rewrite decide_True|]. by rewrite decide_False by congruence.
Qed.

Lemma count_put r i s w r' : count_of (put_slot r i s w) r' = count_of w r'.
Proof.
  unfold count_of. rewrite rregion_put. case_decide as Hd; [|done]. subst. unfold pm_count. simpl.
  by rewrite length_updZ.
Qed.

Lemma rslot_put r i s w r' i' :
  0 <= i < count_of w r -> 0 <= i' ->
  rslot (put_slot r i s w) r' i' = if decide (r' = r /\ i' = i) then s else rslot w r' i'.
Proof.
  intros Hi Hi'. unfold rslot. rewrite rregion_put. case_decide as Hd; [|by rewrite decide_False by tauto].
  subst r'. simpl. destruct (decide (i' = i)) as [->|Hne].
  - rewrite decide_True by done. apply nthZ_updZ_eq. exact Hi.
  - rewrite decide_False by tauto. apply nthZ_updZ_ne; lia.
Qed.

Lemma rregion_dec r sp w r' :
  r_pages (rregion (dec_resident r sp w) r') = r_pages (rregion w r').
Proof.
  unfold rregion at 1, dec_resident. simpl. rewrite lookup_insert.
  destruct (decide (r = r')) as [->|]; [|done]. done.
Qed.

Lemma rslot_dec r sp w r' i : rslot (dec_resident r sp w) r' i = rslot w r' i.
Proof. unfold rslot. by rewrite rregion_dec. Qed.

(** The lists live in other memory than regions and spaces. *)
Definition same_lists (w w' : rmap) : Prop :=
  rm_chunks w' = rm_chunks w /\ rm_heads w' = rm_heads w /\ rm_nodes w' = rm_nodes w /\
  rm_chunk_count w' = rm_chunk_count w /\ rm_max_pfn w' = rm_max_pfn w.

Lemma same_lists_links w w' q : same_lists w w' -> links w' q = links w q.
Proof.
  intros (Hc & Hh & Hn & _). unfold links, head_at. rewrite Hc.
  destruct (rm_chunks w !! _) as [b|]; simpl; [|done].
  unfold rwalk_fuel, head_val. rewrite Hh, Hn.
  assert (Hnode : nodeZ w' = nodeZ w) by (unfold nodeZ; by rewrite Hn).
  unfold link_of, next_of. by rewrite Hnode.
Qed.

Lemma same_lists_wf w w' : same_lists w w' -> rm_wf w -> rm_wf w'.
Proof.
  intros (Hc & Hh & Hn & Hk & Hm) [L HR]. exists L.
  assert (Hnode : nodeZ w' = nodeZ w) by (unfold nodeZ; by rewrite Hn).
  assert (Hf : frame_of w' = frame_of w) by (unfold frame_of; by rewrite Hm).
  assert (Hat : head_at w' = head_at w) by (unfold head_at; by rewrite Hc).
  assert (Hv : head_val w' = head_val w) by (unfold head_val; by rewrite Hh).
  assert (Hx : next_of w' = next_of w) by (unfold next_of; by rewrite Hnode).
  destruct HR as [H1 H2 H3 H4]. split; rewrite ?Hf, ?Hat, ?Hv, ?Hx, ?Hn; done.
Qed.

Lemma put_slot_lists r i s w : same_lists w (put_slot r i s w).
Proof. done. Qed.
Lemma dec_resident_lists r sp w : same_lists w (dec_resident r sp w).
Proof. done. Qed.

Lemma same_lists_trans w1 w2 w3 : same_lists w1 w2 -> same_lists w2 w3 -> same_lists w1 w3.
Proof. unfold same_lists. intuition congruence. Qed.

(** What one round keeps: everything outside the lists and the slot [(r, i)]. *)
Definition keeps (w w' : rmap) (r i : Z) (s : vm_page_slot) : Prop :=
  rm_owner w' = rm_owner w /\ rm_max_pfn w' = rm_max_pfn w /\
  rm_chunk_count w' = rm_chunk_count w /\
  (forall r', count_of w' r' = count_of w r') /\
  forall r' i', 0 <= i' -> rslot w' r' i' = if decide (r' = r /\ i' = i) then s else rslot w r' i'.

Lemma keeps_refl w r i : 0 <= i -> keeps w w r i (rslot w r i).
Proof.
  intros Hi. split_and!; try done. intros r' i' Hi'. case_decide as Hd; [|done]. by destruct Hd as [-> ->].
Qed.

Lemma keeps_trans w1 w2 w3 r i s s' : keeps w1 w2 r i s -> keeps w2 w3 r i s' -> keeps w1 w3 r i s'.
Proof.
  intros (A1 & A2 & A3 & A4 & A5) (B1 & B2 & B3 & B4 & B5). split_and!; [congruence..| |].
  - intros r'. by rewrite B4.
  - intros r' i' Hi'. rewrite B5 by done. case_decide; [done|]. rewrite A5 by done.
    by rewrite decide_False.
Qed.

Lemma keeps_put w r i s : 0 <= i < count_of w r -> keeps w (put_slot r i s w) r i s.
Proof.
  intros Hi. split_and!; try done.
  - intros r'. apply count_put.
  - intros r' i' Hi'. by apply rslot_put.
Qed.

Lemma keeps_dec w r i sp : 0 <= i -> keeps w (dec_resident r sp w) r i (rslot w r i).
Proof.
  intros Hi. split_and!; try done.
  - intros r'. unfold count_of. by rewrite rregion_dec.
  - intros r' i' Hi'. rewrite rslot_dec. case_decide as Hd; [|done]. by destruct Hd as [-> ->].
Qed.

Lemma keeps_rest w w' r i : 0 <= i -> same_rest w w' -> keeps w w' r i (rslot w r i).
Proof.
  intros Hi (_ & Hk & Hm & Hr & Ho & _).
  assert (Hreg : rregion w' = rregion w) by (unfold rregion; by rewrite Hr).
  split_and!; try done.
  - intros r'. unfold count_of. by rewrite Hreg.
  - intros r' i' Hi'. unfold rslot. rewrite Hreg. case_decide as Hd; [|done]. by destruct Hd as [-> ->].
Qed.

Lemma in_map_keeps w w' r i s phys : keeps w w' r i s -> in_map w' phys = in_map w phys.
Proof. intros (_ & Hm & Hk & _). unfold in_map. by rewrite Hm, Hk. Qed.

(** Releasing the pin of a live slot clears a cache binding, nothing else. *)
Lemma release_pin_ok w r i Q :
  slots_sound w -> 0 <= i < count_of w r ->
  (forall e w', keeps w w' r i (rslot w r i) -> same_lists w w' -> Q (Unexpected e) w') ->
  (forall b w' s, keeps w w' r i s -> same_lists w w' -> s_binding s = None -> Q (Expected b) w') ->
  swp anyE (release_slot_pin r i) w Q.
Proof.
  intros Hs Hi Herr HQ. unfold release_slot_pin. do 2 sstep.
  destruct (negb (slot_live (rslot w r i)) || bool_decide (s_state (rslot w r i) = ps_portal) ||
            (s_phys (rslot w r i) =? 0)) eqn:E.
  { sstep. eapply HQ; [apply keeps_refl; lia|done|].
    destruct (s_binding (rslot w r i)) eqn:Eb; [|done]. exfalso.
    destruct (Hs r i ltac:(lia)) as (H1 & H2 & H3); [congruence|].
    apply orb_true_iff in E as [[E|E]%orb_true_iff|E].
    - unfold slot_live in E. rewrite negb_involutive in E. by apply bool_decide_eq_true in E.
    - by apply bool_decide_eq_true in E.
    - by apply Z.eqb_eq in E. }
  destruct (s_binding (rslot w r i)) as [b|] eqn:Eb.
  - do 2 sstep. apply swp_bind.
    assert (Hd : swp anyE (if r0 : bool then scall (RMarkDirty b) else mret (Expected tt)) w
      (fun _ w' => w' = w)) by (destruct r0; sstep; done).
    eapply swp_mono; [|exact Hd]. intros [[]|e] w' ->.
    + do 2 sstep. destruct r1 as [[]|e].
      * repeat sstep. eapply HQ; [by apply keeps_put|apply put_slot_lists|done].
      * sstep. apply Herr; [apply keeps_refl; lia|done].
    + sstep. apply Herr; [apply keeps_refl; lia|done].
  - sstep. destruct r0 as [b|e]; [eapply HQ; [apply keeps_refl; lia|done|done]|].
    apply Herr; [apply keeps_refl; lia|done].
Qed.

(** ** One round *)

Lemma remove_keeps w r i phys Q :
  rm_wf w -> 0 <= phys -> 0 <= i -> in_map w phys = true ->
  (forall w', only_frame w w' (pfn_of phys) (remove_first (Some r, i) (links w (pfn_of phys))) ->
     ((Some r, i) ∈ links w (pfn_of phys) -> (size (rm_nodes w') < size (rm_nodes w))%nat) ->
     keeps w w' r i (rslot w r i) -> Q tt w') ->
  swp anyE (rmap_remove r i phys) w Q.
Proof.
  intros Hw Hp Hi Hin HQ. apply remove_ok; [done|done|congruence|]. intros w' _ Hof Hsz.
  apply HQ; [done|done|]. apply keeps_rest; [done|apply Hof].
Qed.

Definition round_post (w : rmap) (phys r i : Z) (w' : rmap) : Prop :=
  rm_wf w' /\
  (forall q, frame_of w q -> links w' q =
     if decide (q = pfn_of phys) then remove_first (Some r, i) (links w q) else links w q) /\
  (size (rm_nodes w') < size (rm_nodes w))%nat /\
  keeps w w' r i (if hit w phys r i then empty_slot else rslot w r i).

Lemma frame_lists w w' q : same_lists w w' -> frame_of w' q <-> frame_of w q.
Proof. intros (_ & _ & _ & _ & Hm). unfold frame_of. by rewrite Hm. Qed.

Lemma round_ok w phys self r i (Q : expected (option bool) -> rmap -> Prop) :
  rm_wf w -> slots_sound w -> 0 <= phys -> 0 <= i -> in_map w phys = true ->
  (Some r, i) ∈ links w (pfn_of phys) ->
  (forall e w' s, keeps w w' r i s -> rm_wf w' -> Q (Unexpected e) w') ->
  (forall w', hit w phys r i = false -> round_post w phys r i w' -> Q (Expected None) w') ->
  (forall b w', hit w phys r i = true -> round_post w phys r i w' -> Q (Expected (Some b)) w') ->
  swp anyE (invalidate_one phys self r i) w Q.
Proof.
  intros Hw Hs Hp Hi Hin Hmem Herr Hskip Hdone.
  assert (Hdrop : hit w phys r i = false ->
    swp anyE (_ ← rmap_remove r i phys; mret (Expected None)) w Q).
  { intros Hh. sstep. apply remove_keeps; [done..|]. intros w' (Hw' & _ & Hlk) Hsz Hk. sstep.
    apply Hskip; [done|]. split; [done|]. split; [|split; [by apply Hsz|by rewrite Hh]].
    intros q Hq. rewrite Hlk by done. case_decide; by subst. }
  unfold invalidate_one. do 2 sstep.
  destruct (rm_owner w !! r) as [space|] eqn:Ho.
  2: { apply Hdrop. unfold hit. rewrite Ho. done. }
  destruct (negb (bool_decide (rm_owner w !! self = Some space))).
  { sstep. eapply Herr; [by apply keeps_refl|done]. }
  fold (count_of w r). destruct (Z.leb_spec (count_of w r) i) as [Hc|Hc].
  { apply Hdrop. unfold hit. rewrite (proj2 (Z.ltb_ge _ _)) by done. by rewrite andb_false_r. }
  destruct (negb (slot_live (rslot w r i)) || negb (s_phys (rslot w r i) =? phys)) eqn:E.
  { apply Hdrop. unfold hit. apply orb_true_iff in E as [E|E]; apply negb_true_iff in E; rewrite E.
    - by rewrite andb_false_r.
    - by rewrite andb_false_r. }
  apply orb_false_iff in E as [E1 E2]. apply negb_false_iff in E1, E2.
  assert (Hh : hit w phys r i = true).
  { unfold hit. rewrite Ho, E1, E2, (proj2 (Z.ltb_lt _ _)) by done. done. }
  do 5 sstep. apply release_pin_ok; [done|done| |].
  { intros e w1 Hk1 Hl1. sstep. eapply Herr; [done|]. by eapply same_lists_wf. }
  intros freed w1 s1 Hk1 Hl1 Hb1. do 2 sstep.
  set (w2 := dec_resident r space w1).
  assert (Hl2 : same_lists w w2) by (eapply same_lists_trans; [exact Hl1|done]).
  assert (Hk2 : keeps w w2 r i s1).
  { eapply keeps_trans; [exact Hk1|]. pose proof (keeps_dec w1 r i space Hi) as Hk.
    destruct Hk1 as (_ & _ & _ & _ & Hsl). rewrite (Hsl r i Hi), decide_True in Hk by done. done. }
  sstep. apply remove_keeps; [by eapply same_lists_wf|done|done|by rewrite (in_map_keeps _ _ _ _ _ _ Hk2)|].
  intros w3 (Hw3 & _ & Hlk3) Hsz3 Hk3.
  assert (Hs2 : rslot w2 r i = s1).
  { destruct Hk2 as (_ & _ & _ & _ & Hsl). by rewrite (Hsl r i Hi), decide_True. }
  rewrite Hs2 in Hk3. pose proof (keeps_trans _ _ _ _ _ _ _ Hk2 Hk3) as Hk13.
  assert (Hs3 : rslot w3 r i = s1).
  { destruct Hk13 as (_ & _ & _ & _ & Hsl). by rewrite (Hsl r i Hi), decide_True. }
  do 2 sstep. rewrite Hs3. unfold slot_clear. rewrite Hb1. repeat sstep.
  assert (Hk4 : keeps w (put_slot r i empty_slot w3) r i empty_slot).
  { eapply keeps_trans; [exact Hk13|]. apply keeps_put. destruct Hk13 as (_ & _ & _ & Hct & _).
    rewrite Hct. lia. }
  apply Hdone; [done|]. split; [|split; [|split]].
  - by eapply (same_lists_wf w3).
  - intros q Hq. rewrite (same_lists_links w3) by apply put_slot_lists.
    rewrite Hlk3 by (by apply (frame_lists w)). rewrite !(same_lists_links w w2) by done.
    case_decide; by subst.
  - change (size (rm_nodes w3) < size (rm_nodes w))%nat.
    replace (rm_nodes w) with (rm_nodes w2) by (destruct Hl2 as (_ & _ & -> & _); done).
    apply Hsz3. by rewrite (same_lists_links w w2).
  - by rewrite Hh.
Qed.

(** ** The loop *)

Definition peer (self self_slot : Z) (x : option Z * Z) : Prop :=
  x.1 <> None /\ x <> (Some self, self_slot).

#[global] Instance peer_dec self self_slot x : Decision (peer self self_slot x).
Proof. unfold peer. apply _. Defined.

Definition peers (w : rmap) (p self self_slot : Z) : list (option Z * Z) :=
  filter (peer self self_slot) (links w p).

Definition hits (w : rmap) (phys : Z) (x : option Z * Z) : Prop :=
  match x.1 with Some r => hit w phys r x.2 = true | None => False end.

#[global] Instance hits_dec w phys x : Decision (hits w phys x).
Proof. unfold hits. destruct (x.1); apply _. Defined.

Lemma filter_remove_first (P : option Z * Z -> Prop) `{forall x, Decision (P x)} x l :
  filter P (remove_first x l) = if decide (P x) then remove_first x (filter P l) else filter P l.
Proof.
  induction l as [|y l IH]; simpl; [by case_decide|].
  destruct (decide (y = x)) as [->|Hne].
  - rewrite list.filter_cons. case_decide; [|done]. simpl. by rewrite decide_True.
  - rewrite !list.filter_cons, IH. destruct (decide (P y)), (decide (P x)); try done. simpl.
    by rewrite decide_False.
Qed.

Lemma remove_first_sub x l y : y ∈ remove_first x l -> y ∈ l.
Proof.
  induction l as [|z l IH]; simpl; [done|]. case_decide; [by right|].
  rewrite !list.elem_of_cons. naive_solver.
Qed.

Lemma remove_first_nodup x l : NoDup l -> NoDup (remove_first x l).
Proof.
  induction l as [|z l IH]; simpl; [done|]. intros [Hz Hl]%list.NoDup_cons. case_decide; [done|].
  apply list.NoDup_cons. split; [|by apply IH]. intros Hin. by apply remove_first_sub in Hin.
Qed.

Lemma filter_agree {A} (P P' : A -> Prop) `{forall x, Decision (P x), forall x, Decision (P' x)} (l : list A) :
  (forall x, x ∈ l -> P x <-> P' x) -> filter P l = filter P' l.
Proof.
  induction l as [|y l IH]; intros He; [done|]. rewrite !list.filter_cons.
  rewrite IH by (intros x Hx; apply He; by right). specialize (He y ltac:(left)).
  do 2 case_decide; tauto.
Qed.

Lemma filter_keeps {A} (P : A -> Prop) `{forall x, Decision (P x)} (l : list A) :
  (forall x, x ∈ l -> P x) -> filter P l = l.
Proof.
  induction l as [|y l IH]; intros He; [done|]. rewrite list.filter_cons, decide_True by (apply He; left).
  by rewrite IH by (intros x Hx; apply He; by right).
Qed.

Lemma collect_one_ok w phys self self_slot Q :
  rm_wf w -> 0 <= phys ->
  (in_map w phys = false \/ peers w (pfn_of phys) self self_slot = [] -> Q [] w) ->
  (forall r i rest, in_map w phys = true ->
     peers w (pfn_of phys) self self_slot = (Some r, i) :: rest -> Q [(r, i)] w) ->
  swp anyE (collect_peers phys self self_slot 1) w Q.
Proof.
  intros [L HR] Hp Hnil Hcons. unfold collect_peers. do 2 sstep.
  destruct (in_map w phys) eqn:Hin; simpl; [|sstep; auto].
  pose proof (in_map_frame w phys Hin Hp) as Hfr. sstep. eapply list_of_ok; [done|done|]. sstep.
  change (Z.to_nat 1) with 1%nat.
  assert (Heq : peers w (pfn_of phys) self self_slot =
    link_of w <$> filter (fun a => is_peer w self self_slot a = true) (L (pfn_of phys))).
  { unfold peers. rewrite (rep_links _ _ _ HR Hfr). clear. induction (L (pfn_of phys)) as [|a l IH]; [done|].
    rewrite fmap_cons, !list.filter_cons, IH. unfold peer, is_peer at 2. simpl.
    destruct (decide (_ /\ _)) as [Hd|Hd], (decide (_ = true)) as [He|He]; try done.
    - exfalso. apply He. apply andb_true_iff. split; [apply bool_decide_eq_true; apply Hd|].
      apply negb_true_iff. destruct (is_link w self self_slot a) eqn:E; [|done].
      apply is_link_spec in E. by destruct Hd as [_ Hd].
    - exfalso. apply Hd. apply andb_true_iff in He as [H1 H2]. apply bool_decide_eq_true in H1.
      split; [done|]. intros E. apply is_link_spec in E. by rewrite E in H2. }
  destruct (filter _ _) as [|a rest] eqn:Hf; simpl; [by apply Hnil; right|].
  assert (Ha : is_peer w self self_slot a = true).
  { assert (Hin' : a ∈ a :: rest) by left. rewrite <- Hf in Hin'. by apply list_elem_of_filter in Hin' as [? _]. }
  apply andb_true_iff in Ha as [Ha _]. apply bool_decide_eq_true in Ha. unfold link_of in Heq. simpl in Heq.
  destruct (re_region (nodeZ w a)) as [r|] eqn:Er; [|done]. simpl. by eapply Hcons.
Qed.

(** The state after all peers of [phys] have gone. *)
Definition invalidated (w : rmap) (phys self self_slot : Z) (w' : rmap) : Prop :=
  rm_wf w' /\
  (forall q, frame_of w q -> links w' q =
     if decide (q = pfn_of phys) then filter (fun x => ~ peer self self_slot x) (links w q)
     else links w q) /\
  (forall r i, 0 <= i -> rslot w' r i =
     if decide ((Some r, i) ∈ peers w (pfn_of phys) self self_slot /\ hit w phys r i = true)
     then empty_slot else rslot w r i) /\
  rm_owner w' = rm_owner w /\ rm_max_pfn w' = rm_max_pfn w.

Lemma filter_no_peer w p self self_slot :
  peers w p self self_slot = [] -> filter (fun x => ~ peer self self_slot x) (links w p) = links w p.
Proof.
  intros Hn. apply filter_keeps. intros x Hx Hp.
  assert (Hin : x ∈ peers w p self self_slot) by (apply list_elem_of_filter; done).
  rewrite Hn in Hin. by apply elem_of_nil in Hin.
Qed.

Section rounds.
  Context (phys self self_slot : Z).

(** The facts a round needs and leaves. *)
Record ready (w : rmap) : Prop := Ready {
  rd_wf : rm_wf w;
  rd_slots : slots_sound w;
  rd_index : Forall (fun x => 0 <= x.2) (links w (pfn_of phys));
  rd_nodup : NoDup (links w (pfn_of phys))
}.

Lemma round_ready w w' r i rest :
  ready w -> 0 <= phys -> in_map w phys = true ->
  peers w (pfn_of phys) self self_slot = (Some r, i) :: rest ->
  round_post w phys r i w' ->
  ready w' /\ peers w' (pfn_of phys) self self_slot = rest /\ 0 <= i /\
  (Some r, i) ∉ rest /\ peer self self_slot (Some r, i).
Proof.
  intros [Hw Hs Hix Hnd] Hp Hin Hpe (Hw' & Hlk & _ & Hk).
  pose proof (in_map_frame w phys Hin Hp) as Hfr.
  assert (Hmem : (Some r, i) ∈ peers w (pfn_of phys) self self_slot) by (rewrite Hpe; left).
  apply list_elem_of_filter in Hmem as [Hpeer Hmem].
  assert (Hi : 0 <= i) by (rewrite list.Forall_forall in Hix; apply (Hix _ Hmem)).
  assert (Hl : links w' (pfn_of phys) = remove_first (Some r, i) (links w (pfn_of phys)))
    by (by rewrite Hlk, decide_True).
  assert (Hpn : NoDup (peers w (pfn_of phys) self self_slot)) by (by apply list.NoDup_filter).
  rewrite Hpe in Hpn. apply list.NoDup_cons in Hpn as [Hnr _].
  split_and!; [|by unfold peers; rewrite Hl, filter_remove_first, decide_True by done;
                 change (remove_first (Some r, i) (peers w (pfn_of phys) self self_slot) = rest);
                 rewrite Hpe; simpl; rewrite decide_True|done|done|done].
  split; [done| | |].
  - intros r' i' Hi'. destruct Hk as (_ & _ & _ & _ & Hsl). rewrite Hsl by done.
    case_decide as Hd; [|by apply Hs]. destruct Hd as [-> ->].
    destruct (hit w phys r i); [done|by apply Hs].
  - rewrite Hl. rewrite list.Forall_forall in *. intros x Hx. apply Hix. by eapply remove_first_sub.
  - rewrite Hl. by apply remove_first_nodup.
Qed.

Lemma hit_other w w' r i s r' i' :
  keeps w w' r i s -> 0 <= i' -> (r', i') <> (r, i) -> hit w' phys r' i' = hit w phys r' i'.
Proof.
  intros (Ho & _ & _ & Hc & Hsl) Hi' Hne. unfold hit. rewrite Ho, Hc, Hsl by done.
  by rewrite decide_False by naive_solver.
Qed.

Lemma compose_rounds w w1 w' r i rest :
  ready w -> 0 <= phys -> in_map w phys = true ->
  peers w (pfn_of phys) self self_slot = (Some r, i) :: rest ->
  round_post w phys r i w1 -> invalidated w1 phys self self_slot w' ->
  invalidated w phys self self_slot w'.
Proof.
  intros Hrd Hp Hin Hpe Hrp (Hw' & Hlk' & Hsl' & Ho' & Hm').
  destruct (round_ready w w1 r i rest Hrd Hp Hin Hpe Hrp) as (Hrd1 & Hpe1 & Hi & Hnr & Hpeer).
  destruct Hrp as (Hw1 & Hlk1 & _ & Hk). pose proof Hk as (Ho1 & Hm1 & Hc1 & Hct1 & Hsl1).
  assert (Hfr1 : forall q, frame_of w1 q <-> frame_of w q) by (intros q; unfold frame_of; by rewrite Hm1).
  split; [done|]. split; [|split; [|split; congruence]].
  - intros q Hq. rewrite Hlk' by (by apply Hfr1). rewrite Hlk1 by done. case_decide as Hd; [|done].
    rewrite filter_remove_first, decide_False by naive_solver. done.
  - intros r' i' Hi'. rewrite Hsl', Hpe1 by done.
    destruct (decide ((r', i') = (r, i))) as [[= -> ->]|Hne].
    + rewrite (decide_False (P := (_ ∈ rest /\ _))) by naive_solver.
      rewrite Hsl1, (decide_True (P := (r = r /\ i = i))) by done.
      destruct (hit w phys r i); [|by rewrite decide_False by naive_solver].
      rewrite decide_True; [done|]. split; [rewrite Hpe; left|done].
    + rewrite (hit_other w w1 r i _ r' i' Hk Hi' Hne).
      rewrite Hsl1, (decide_False (P := (r' = r /\ i' = i))) by naive_solver.
      apply decide_ext. rewrite Hpe, list.elem_of_cons. naive_solver.
Qed.

Lemma hits_rest w w1 r i rest :
  ready w -> peers w (pfn_of phys) self self_slot = (Some r, i) :: rest ->
  keeps w w1 r i (if hit w phys r i then empty_slot else rslot w r i) ->
  (Some r, i) ∉ rest ->
  length (filter (hits w1 phys) rest) = length (filter (hits w phys) rest).
Proof.
  intros [_ _ Hix _] Hpe Hk Hnr. f_equal. apply filter_agree. intros [[r'|] i'] Hx; [|done].
  unfold hits. simpl. rewrite (hit_other w w1 r i _ r' i' Hk); [done| |].
  - rewrite list.Forall_forall in Hix. apply (Hix (Some r', i')).
    assert (Hin : (Some r', i') ∈ peers w (pfn_of phys) self self_slot) by (rewrite Hpe; by right).
    by apply list_elem_of_filter in Hin as [_ ?].
  - intros [= -> ->]. done.
Qed.

Lemma loop_ok fuel w m f :
  ready w -> 0 <= phys -> 0 <= self_slot -> in_map w phys = true -> (size (rm_nodes w) < fuel)%nat ->
  fits 32 m ->
  swp anyE (invalidate_loop fuel phys self self_slot m f) w (fun res w' =>
    match res with
    | Expected (m', _) => invalidated w phys self self_slot w' /\
        m' = u32 (m + Z.of_nat (length (filter (hits w phys) (peers w (pfn_of phys) self self_slot))))
    | Unexpected _ => rm_wf w' /\ rslot w' self self_slot = rslot w self self_slot
    end).
Proof.
  revert w m f. induction fuel as [|fuel IH]; intros w m f Hrd Hp Hss Hin Hf Hm; [lia|]. simpl.
  pose proof (in_map_frame w phys Hin Hp) as Hfr. sstep.
  apply collect_one_ok; [apply Hrd|done| |].
  - intros [Hx|Hn]; [congruence|]. sstep. split; [|by rewrite Hn, Z.add_0_r, u32_small].
    split; [apply Hrd|]. split; [|split; [|done]].
    + intros q Hq. case_decide as Hd; [subst q; by rewrite (filter_no_peer _ _ _ _ Hn)|done].
    + intros r i Hi. rewrite Hn. rewrite decide_False; [done|]. intros [Hx _]. by apply elem_of_nil in Hx.
  - intros r i rest _ Hpe. sstep.
    assert (Hmem : (Some r, i) ∈ peers w (pfn_of phys) self self_slot) by (rewrite Hpe; left).
    apply list_elem_of_filter in Hmem as [Hpeer Hmem].
    assert (Hi : 0 <= i).
    { destruct Hrd as [_ _ Hix _]. rewrite list.Forall_forall in Hix. apply (Hix _ Hmem). }
    assert (Hne : ~ (self = r /\ self_slot = i)) by (intros [-> ->]; by destruct Hpeer as [_ []]).
    assert (Hgo : forall w1 m1 f1, round_post w phys r i w1 -> fits 32 m1 ->
      m1 = u32 (m + (if hit w phys r i then 1 else 0)) ->
      swp anyE (invalidate_loop fuel phys self self_slot m1 f1) w1 (fun res w' =>
        match res with
        | Expected (m', _) => invalidated w phys self self_slot w' /\
            m' = u32 (m + Z.of_nat (length (filter (hits w phys) (peers w (pfn_of phys) self self_slot))))
        | Unexpected _ => rm_wf w' /\ rslot w' self self_slot = rslot w self self_slot
        end)).
    { intros w1 m1 f1 Hrp Hm1 Heq.
      destruct (round_ready w w1 r i rest Hrd Hp Hin Hpe Hrp) as (Hrd1 & Hpe1 & _ & Hnr & _).
      pose proof Hrp as (_ & _ & Hsz & Hk).
      eapply swp_mono; [|apply (IH w1 m1 f1); [done|done|done| |lia|done]].
      - intros [[m' f']|e] w'.
        + intros [Hinv ->]. split; [by eapply compose_rounds|].
          rewrite Hpe1, (hits_rest w w1 r i rest Hrd Hpe Hk Hnr), Hpe, Heq, list.filter_cons.
          destruct (decide (hits w phys (Some r, i))) as [Hd|Hd]; unfold hits in Hd; simpl in Hd;
            [rewrite Hd|apply not_true_is_false in Hd; rewrite Hd]; simpl length; solve_u.
        + intros [Hw' Hsl]. split; [done|]. rewrite Hsl. destruct Hk as (_ & _ & _ & _ & Hk).
          by rewrite Hk, decide_False.
      - by rewrite (in_map_keeps _ _ _ _ _ _ Hk). }
    apply round_ok; [apply Hrd|apply Hrd|done|done|done|done| | |].
    + intros e w1 s (_ & _ & _ & _ & Hk) Hw1. sstep. split; [done|]. by rewrite Hk, decide_False.
    + intros w1 Hh Hrp. apply Hgo; [done|done|]. rewrite Hh, Z.add_0_r. by rewrite u32_small.
    + intros b w1 Hh Hrp. apply Hgo; [done|apply u32_fits|]. by rewrite Hh.
Qed.

End rounds.

(** ** Boot *)

(** The frames the allocator handed out during a run. *)
Fixpoint granted (t : list (event rcall)) : list Z :=
  match t with
  | [] => []
  | Ev c r :: t' =>
      match c in rcall R return R -> list Z with
      | RPmmAlloc _ => fun r => match r with Expected p => [p] | Unexpected _ => [] end
      | _ => fun _ => []
      end r ++ granted t'
  end.

Lemma granted_app t t' : granted (t ++ t') = granted t ++ granted t'.
Proof. induction t as [|[R c r] t IH]; simpl; [done|]. by rewrite IH, app_assoc. Qed.

(** Sections with their traces. *)
Lemma trace_bind {A B} (m : rsec A) (k : A -> rsec B) w Q :
  wlp (m w) (fun t o => match o with
                        | Some (a, w') => wlp (k a w') (fun t' o' => Q (t ++ t') o')
                        | None => Q t None
                        end) -> wlp ((m ≫= k) w) Q.
Proof.
  intros Hm. apply wlp_bind. eapply wlp_mono; [|exact Hm]. intros t [[a w']|]; simpl; [done|].
  by rewrite app_nil_r.
Qed.

Lemma trace_get w Q : Q [] (Some (w, w)) -> wlp ((sget : rsec rmap) w) Q.
Proof. done. Qed.
Lemma trace_modify f w Q : Q [] (Some (tt, f w)) -> wlp ((smodify f : rsec unit) w) Q.
Proof. done. Qed.
Lemma trace_call {R} (c : rcall R) w Q :
  (forall r, Q [Ev c r] (Some (r, w))) -> wlp ((scall c : rsec R) w) Q.
Proof. done. Qed.

Lemma free_chunks_ok n j w :
  (forall k, j <= k < j + Z.of_nat n -> is_Some (rm_chunks w !! k)) ->
  wlp (free_chunks n j w) (fun t o => granted t = [] /\ exists w', o = Some (tt, w') /\
    (forall k, rm_chunks w' !! k = if decide (j <= k < j + Z.of_nat n) then None else rm_chunks w !! k) /\
    w' = with_chunks (rm_chunks w') w).
Proof.
  revert j w. induction n as [|n IH]; intros j w Hc.
  - split; [done|]. exists w. split_and!; [done| |by destruct w].
    intros k. rewrite decide_False by lia. done.
  - destruct (Hc j) as [p Hp]; [lia|]. simpl free_chunks.
    apply trace_bind, trace_get. rewrite Hp. apply trace_bind, trace_call. intros [].
    apply trace_bind, trace_modify. eapply wlp_mono; [|apply IH].
    + intros t o (Hg & w' & Ho & Hk & Hw'). split; [done|]. exists w'. split_and!; [done| |].
      * intros k. rewrite Hk. simpl. destruct (decide (k = j)) as [->|Hne].
        -- rewrite decide_False by lia. rewrite lookup_delete_eq. by rewrite decide_True by lia.
        -- rewrite lookup_delete_ne by done. do 2 case_decide; try done; lia.
      * rewrite Hw' at 1. by destruct w.
    + intros k Hkk. simpl. rewrite lookup_delete_ne by lia. apply Hc. lia.
Qed.

Lemma alloc_chunks_ok n i w :
  0 <= i -> (forall k, is_Some (rm_chunks w !! k) <-> 0 <= k < i) ->
  wlp (alloc_chunks n i w) (fun t o => exists r w', o = Some (r, w') /\
    w' = with_chunks (rm_chunks w') w /\
    match r with
    | Expected _ => length (granted t) = n /\
        forall k, rm_chunks w' !! k =
          if decide (i <= k) then granted t !! Z.to_nat (k - i) else rm_chunks w !! k
    | Unexpected _ => rm_chunks w' = ∅
    end).
Proof.
  revert i w. induction n as [|n IH]; intros i w Hi Hc.
  - exists (Expected tt), w. split_and!; [done|by destruct w|done|]. intros k.
    case_decide; [|done]. simpl granted. rewrite lookup_nil. destruct (rm_chunks w !! k) eqn:E; [|done].
    assert (0 <= k < i) by (apply Hc; by rewrite E). lia.
  - simpl alloc_chunks. apply trace_bind, trace_call. intros [p|e].
    + apply trace_bind, trace_modify. eapply wlp_mono; [|apply IH; [lia|]].
      * intros t o (r & w' & -> & Hw' & Hr). exists r, w'. split; [done|]. split; [rewrite Hw' at 1; by destruct w|].
        destruct r as [[]|e]; [|done]. destruct Hr as [Hlen Hk]. split; [simpl; lia|]. intros k.
        rewrite Hk. simpl. destruct (decide (k = i)) as [->|Hne].
        -- rewrite decide_False by lia. rewrite lookup_insert_eq, decide_True by lia. by rewrite Z.sub_diag.
        -- rewrite lookup_insert_ne by done. do 2 case_decide; try done; try lia.
           replace (Z.to_nat (k - i)) with (S (Z.to_nat (k - (i + 1)))) by lia. done.
      * intros k. simpl. destruct (decide (k = i)) as [->|Hne].
        -- rewrite lookup_insert_eq. split; [lia|by eauto].
        -- rewrite lookup_insert_ne by done. rewrite Hc. lia.
    + apply trace_bind. eapply wlp_mono; [|apply (free_chunks_ok (Z.to_nat i) 0 w)].
      * intros t o (Hg & w' & -> & Hk & Hw'). exists (Unexpected e), w'. split_and!; [done|done|].
        apply map_eq. intros k. rewrite Hk, lookup_empty. case_decide as Hd; [done|].
        destruct (rm_chunks w !! k) eqn:E; [|done].
        assert (0 <= k < i) by (apply Hc; by rewrite E). lia.
      * intros k Hk. apply Hc. lia.
Qed.

(** The tables before boot. *)
Definition rm_cold (w : rmap) : Prop :=
  rm_chunks w = ∅ /\ rm_heads w = ∅ /\ rm_chunk_count w = 0 /\ rm_max_pfn w = 0 /\ rm_nodes w = ∅.

(** [init] gives every frame below [max_pfn] an empty list, or fails with nothing
    held. *)
Lemma rmap_init_ok w max_pfn t o :
  rm_cold w -> 0 <= max_pfn -> run (rmap_init max_pfn w) t o -> NoDup (granted t) ->
  exists r w', o = Some (r, w') /\
    match r with
    | Expected _ => rm_wf w' /\ rm_max_pfn w' = max_pfn /\ forall p, frame_of w' p -> links w' p = []
    | Unexpected _ => w' = w
    end.
Proof.
  intros (Hc & Hh & Hk & Hm & Hn) Hmax Hrun.
  refine (proj1 (wlp_run _ (fun t o => NoDup (granted t) -> exists r w', o = Some (r, w') /\
    match r with
    | Expected _ => rm_wf w' /\ rm_max_pfn w' = max_pfn /\ forall p, frame_of w' p -> links w' p = []
    | Unexpected _ => w' = w
    end)) _ t o Hrun). clear t o Hrun. unfold rmap_init.
  apply trace_bind, trace_get. rewrite Hm. simpl.
  destruct (Z.eqb_spec max_pfn 0) as [|Hnz]; [intros _; by eexists _, w|].
  set (cc := (max_pfn + RMAP_ENTRIES_PER_CHUNK - 1) / RMAP_ENTRIES_PER_CHUNK).
  destruct (RMAP_MAX_CHUNKS <? cc); [intros _; by eexists _, w|].
  assert (Hepc : RMAP_ENTRIES_PER_CHUNK = 4096) by done.
  assert (Hcc : 0 <= cc /\ max_pfn <= cc * 4096) by (unfold cc; rewrite Hepc; lia).
  apply trace_bind. eapply wlp_mono; [|apply alloc_chunks_ok; [lia|]].
  2: { intros k. rewrite Hc, lookup_empty. split; [intros [? ?]; done|lia]. }
  intros t o (r & w1 & -> & Hw1 & Hr). destruct r as [[]|e].
  2: { intros _. exists (Unexpected e), w1. split; [done|]. rewrite Hw1, Hr. destruct w; simpl in *; by subst. }
  destruct Hr as [Hlen Hch]. apply trace_bind, trace_modify. intros Hnd. simpl in Hnd. rewrite app_nil_r in Hnd.
  eexists _, _. split; [done|]. set (w' := with_sizes cc max_pfn w1).
  assert (Hhead : forall p, frame_of w' p -> exists b, granted t !! Z.to_nat (p / 4096) = Some b /\
    head_at w' p = Some (b, p mod 4096)).
  { intros p [Hp0 Hp1]. simpl in Hp1. unfold head_at. rewrite Hepc. change (rm_chunks w') with (rm_chunks w1).
    rewrite Hch, decide_True by lia. rewrite Z.sub_0_r.
    destruct (lookup_lt_is_Some_2 (granted t) (Z.to_nat (p / 4096))) as [b Hb]; [lia|].
    exists b. by rewrite Hb. }
  assert (Hval : forall at_, head_val w' at_ = RM_NULL).
  { intros at_. unfold head_val. change (rm_heads w') with (rm_heads w1). rewrite Hw1. simpl.
    by rewrite Hh, lookup_empty. }
  assert (Hnodes : rm_nodes w' = ∅) by (change (rm_nodes w') with (rm_nodes w1); rewrite Hw1; exact Hn).
  assert (HR : rep w' (fun _ => [])).
  { split.
    - intros p Hp. destruct (Hhead p Hp) as (b & _ & Hb). exists (b, p mod 4096). split; [done|]. apply Hval.
    - intros p q at_ Hp Hq Hpa Hqa. destruct (Hhead p Hp) as (b & Hb & Hb'), (Hhead q Hq) as (c & Hcc' & Hc').
      assert (b = c /\ p mod 4096 = q mod 4096) as [-> Hmod] by (split; congruence).
      assert (Z.to_nat (p / 4096) = Z.to_nat (q / 4096)) by (eapply NoDup_lookup; eauto).
      unfold frame_of in *. lia.
    - intros a. rewrite Hnodes, lookup_empty. split; [intros [? ?]; done|].
      intros (p & _ & Ha). by apply elem_of_nil in Ha.
    - intros p q a _ _ Ha. by apply elem_of_nil in Ha. }
  split_and!; [by eexists|done|]. intros p Hp. by rewrite (rep_links _ _ _ HR Hp).
Qed.

(** ** Results *)

Lemma swp_result {A} (m : rsec A) w t o Q :
  swp anyE m w Q -> run (m w) t o -> exists a w', o = Some (a, w') /\ Q a w'.
Proof.
  intros Hs Hr. pose proof (proj1 (wlp_run _ _) Hs t o Hr) as Hq. simpl in Hq.
  specialize (Hq ltac:(clear; induction t; by constructor)).
  destruct o as [[a w']|]; [eauto|done].
Qed.

Definition refers_link (w : rmap) (phys : Z) (x : option Z * Z) : Prop :=
  match x.1 with
  | None => False
  | Some r => (x.2 <? count_of w r) && slot_live (rslot w r x.2) && (s_phys (rslot w r x.2) =? phys) = true
  end.

#[global] Instance refers_link_dec w phys x : Decision (refers_link w phys x).
Proof. unfold refers_link. destruct (x.1); apply _. Defined.

Lemma count_refs_ok w phys Q :
  rm_wf w -> 0 <= phys -> in_map w phys = true ->
  Q (u32 (Z.of_nat (length (filter (refers_link w phys) (links w (pfn_of phys)))))) w ->
  swp anyE (count_refs phys) w Q.
Proof.
  intros [L HR] Hp Hin HQ. unfold count_refs. do 2 sstep. rewrite Hin. simpl. sstep.
  pose proof (in_map_frame w phys Hin Hp) as Hfr.
  eapply list_of_ok; [done|done|]. sstep. rewrite (rep_links _ _ _ HR Hfr) in HQ.
  replace (length (filter (fun a => refers w phys a = true) (L (pfn_of phys)))) with
    (length (filter (refers_link w phys) (link_of w <$> L (pfn_of phys)))); [done|].
  clear. induction (L (pfn_of phys)) as [|a l IH]; [done|]. rewrite fmap_cons, !list.filter_cons.
  destruct (decide (refers_link w phys (link_of w a))) as [Hd|Hd],
    (decide (refers w phys a = true)) as [He|He]; simpl; try (by rewrite IH).
  - exfalso. apply He. unfold refers_link, link_of in Hd. simpl in Hd. unfold refers.
    by destruct (re_region (nodeZ w a)).
  - exfalso. apply Hd. unfold refers_link, link_of. simpl. unfold refers in He.
    by destruct (re_region (nodeZ w a)).
Qed.

(** C37: The lists of the reverse map are what they stand for: for a frame the map
    covers, inserting a link puts it in front of the frame's list unless it is
    there (or reports that the heap is exhausted and changes nothing), removing
    takes out its first occurrence, rebinding replaces the first occurrence and
    answers whether there was one, and counting gives the number of links whose
    slot exists, is live and maps the frame; the lists of all other frames, the
    regions and the spaces stay as they are, no node is lost or shared, and none
    of them follows a bad pointer. *)
Theorem rmap_links_exact w rgn slot phys :
  rm_wf w -> 0 <= phys -> in_map w phys = true ->
  let p := pfn_of phys in
  (forall t o, run (rmap_insert rgn slot phys w) t o -> exists r w', o = Some (r, w') /\
     match r with
     | Expected _ => only_frame w w' p (add_link (Some rgn, slot) (links w p))
     | Unexpected e => e = from_memory mem_out_of_memory /\ w' = w
     end) /\
  (forall t o, run (rmap_remove rgn slot phys w) t o -> exists w', o = Some (tt, w') /\
     only_frame w w' p (remove_first (Some rgn, slot) (links w p))) /\
  (forall to j t o, run (rmap_rebind rgn slot to j phys w) t o -> exists b w', o = Some (b, w') /\
     b = bool_decide ((Some rgn, slot) ∈ links w p) /\
     only_frame w w' p (rebind_first (Some rgn, slot) (Some to, j) (links w p))) /\
  (forall t o, run (count_refs phys w) t o ->
     o = Some (u32 (Z.of_nat (length (filter (refers_link w phys) (links w p)))), w)).
Proof.
  intros Hw Hp Hin p. split_and!.
  - intros t o Hr. eapply swp_result; [|exact Hr]. apply insert_ok; [done|done|congruence|done|].
    intros w' _ Hof. exact Hof.
  - intros t o Hr. apply (swp_result _ _ _ _ (fun _ w' =>
      only_frame w w' p (remove_first (Some rgn, slot) (links w p)))) in Hr
      as ([] & w' & -> & Hof); [by eauto|]. apply remove_ok; [done|done|congruence|done].
  - intros to j t o Hr. eapply swp_result; [|exact Hr]. apply rebind_ok; [done|done| |].
    + intros w' Hof _ Hi. split; [by rewrite bool_decide_eq_true_2|done].
    + intros [Hx|Hn]; [congruence|]. split; [by rewrite bool_decide_eq_false_2|].
      replace (rebind_first _ _ _) with (links w p); [by apply only_frame_same|].
      symmetry. clear -Hn. fold p in Hn. induction (links w p) as [|x l IH]; [done|]. simpl.
      apply not_elem_of_cons in Hn as [H1 H2]. rewrite decide_False by congruence. by rewrite IH.
  - intros t o Hr. apply (swp_result _ _ _ _ (fun n w' =>
      n = u32 (Z.of_nat (length (filter (refers_link w phys) (links w p)))) /\ w' = w)) in Hr
      as (n & w' & -> & -> & ->); [done|]. by apply count_refs_ok.
Qed.

(** C30: Invalidating the peers of a mapping terminates without a trap.  When it
    succeeds, the frame's list holds only the links that are not peers (the
    caller's), every slot that a peer link named, in a region with an owner and
    mapping the frame, is empty, every other slot of every region is unchanged,
    and the number of mappings it reports is the number of those slots; when it
    fails, the lists are intact and the caller's slot is unchanged. *)
Theorem invalidate_peers_exact w phys self self_slot t o :
  ready phys w -> 0 <= phys -> 0 <= self_slot -> in_map w phys = true ->
  run (invalidate_peers phys self self_slot w) t o ->
  exists res w', o = Some (res, w') /\
    match res with
    | Expected (mappings, _) => invalidated w phys self self_slot w' /\
        mappings = u32 (Z.of_nat (length (filter (hits w phys) (peers w (pfn_of phys) self self_slot))))
    | Unexpected _ => rm_wf w' /\ rslot w' self self_slot = rslot w self self_slot
    end.
Proof.
  intros Hrd Hp Hs Hin Hr. eapply swp_result; [|exact Hr]. unfold invalidate_peers. do 2 sstep.
  apply (loop_ok phys self self_slot (rwalk_fuel w) w 0 0); try done; [unfold rwalk_fuel; lia].
Qed.

(** *** A map with two slots on one frame *)

Definition demo_slot (va phys : Z) : vm_page_slot := VmPageSlot va phys 0 0 None ps_cow 0 0.
Definition demo_region (va phys : Z) : vm_region :=
  VmRegion va (va + 4096) 3 vf_cow bk_anonymous 0 0 0 0 0 true null_ref null_ref null_ref null_ref 1 1
    (VmPageMap true 16 [demo_slot va phys]).
Definition rdemo : rmap :=
  Rmap {[ 0 := 0x1000000 ]} {[ (0x1000000, 5) := 1 ]} 1 16
    (<[1 := Entry (Some 10) 0 2]> {[ 2 := Entry (Some 11) 0 0 ]})
    (<[10 := demo_region 0x400000 0x5000]> {[ 11 := demo_region 0x800000 0x5000 ]})
    (<[10 := 1]> {[ 11 := 1 ]}) {[ 1 := (0x77, 2) ]}.
Definition rdemo_lists (p : Z) : list Z := if decide (p = 5) then [1; 2] else [].

Definition rdemo_env : environment rcall := fun _ R c =>
  match c in rcall R return R with
  | RPmmAlloc _ => Expected 0x1000000
  | RPmmFree _ _ => tt
  | RKmalloc => true
  | RKfree _ => tt
  | RVisit _ _ _ _ => true
  | RChanged _ => false
  | RMarkDirty _ => Expected tt
  | RReleaseBinding _ => Expected tt
  | RReleasePin _ => Expected true
  | RUnmapPage _ _ => tt
  | RTlbFlush _ => tt
  end.

Lemma rdemo_head p : frame_of rdemo p -> head_at rdemo p = Some (0x1000000, p).
Proof.
  intros [H0 H1]. simpl in H1. unfold head_at. change RMAP_ENTRIES_PER_CHUNK with 4096.
  replace (p / 4096) with 0 by lia. replace (p mod 4096) with p by lia. done.
Qed.

Lemma rdemo_rep : rep rdemo rdemo_lists.
Proof.
  split.
  - intros p Hp. exists (0x1000000, p). split; [by apply rdemo_head|]. unfold rdemo_lists.
    case_decide as Hd; [subst; vm_compute; done|].
    unfold head_val, rdemo. cbn [rm_heads]. by rewrite lookup_singleton_ne by congruence.
  - intros p q at_ Hp Hq. rewrite !rdemo_head by done. congruence.
  - intros a. simpl. unfold rdemo_lists. split.
    + intros Ha. exists 5. split; [done|]. rewrite decide_True by done. apply elem_of_dom in Ha.
      rewrite dom_insert_L, dom_singleton_L in Ha. set_solver.
    + intros (p & _ & Ha). case_decide; [|by apply elem_of_nil in Ha].
      apply elem_of_dom. rewrite dom_insert_L, dom_singleton_L. set_solver.
  - intros p q a _ _. unfold rdemo_lists.
    destruct (decide (p = 5)), (decide (q = 5)); subst; try done; intros Ha Hb;
      by (apply elem_of_nil in Ha || apply elem_of_nil in Hb).
Qed.

Lemma rdemo_slots : slots_sound rdemo.
Proof.
  intros r i Hi Hb. exfalso. apply Hb. unfold rslot, rregion, rdemo. cbn [rm_regions].
  rewrite lookup_insert, lookup_singleton. unfold nthZ.
  repeat case_decide; simpl; destruct (Z.to_nat i) as [|[|n]]; done.
Qed.

Lemma rmap_links_exact_witness :
  exists w', (exec rdemo_env [] (rmap_remove 10 0 0x5000 rdemo)).2 = Some (tt, w') /\
    links w' 5 = [(Some 11, 0)].
Proof.
  assert (Hin : in_map rdemo 0x5000 = true) by done.
  destruct (rmap_links_exact rdemo 10 0 0x5000 (ex_intro _ _ rdemo_rep) ltac:(done) Hin) as (_ & Hrm & _).
  destruct (Hrm _ _ (exec_run rdemo_env (rmap_remove 10 0 0x5000 rdemo) [])) as (w' & He & _ & _ & Hl).
  exists w'. split; [exact He|]. rewrite (Hl 5) by done. vm_compute. reflexivity.
Defined.

Lemma invalidate_peers_exact_witness :
  exists m w', (exec rdemo_env [] (invalidate_peers 0x5000 10 0 rdemo)).2 = Some (Expected m, w') /\
    links w' 5 = [(Some 10, 0)] /\ rslot w' 11 0 = empty_slot.
Proof.
  assert (Hrd : ready 0x5000 rdemo).
  { split; [by exists rdemo_lists; apply rdemo_rep|apply rdemo_slots| |].
    - vm_compute. repeat constructor; done.
    - apply (bool_decide_unpack _). vm_compute. done. }
  destruct (invalidate_peers_exact rdemo 0x5000 10 0 _ _ Hrd ltac:(done) ltac:(done) ltac:(done)
    (exec_run rdemo_env (invalidate_peers 0x5000 10 0 rdemo) [])) as (res & w' & He & Hres).
  destruct res as [[m f]|e]; [|exfalso; clear Hres; vm_compute in He; discriminate He].
  exists (m, f), w'. split; [exact He|]. destruct Hres as [(_ & Hl & Hs & _) _]. split.
  - rewrite (Hl 5) by done. vm_compute. reflexivity.
  - rewrite (Hs 11 0) by done. vm_compute. reflexivity.
Defined.
